(* ===== verification/_CoqProject ===== *)
-Q . S2P
Prelude.v
Text.v
Paths.v
Calls.v
Utils.v
Bpf.v
Devices.v
BpfAttach.v
Dbus.v
DbusMessage.v
DbusConn.v
CgroupFs.v
CgroupTree.v
Stats.v
V2Controllers.v
V2Manager.v
V1.v
V1Manager.v
Lifecycle.v
SystemdProps.v
SystemdDevices.v
SystemdManager.v
Seccomp.v
Spec.v
Validator.v
Protocol.v
Processes.v
Creation.v
InitOrder.v
Capabilities.v
ProcessAttrs.v
MountOptions.v
Mounting.v
RootFs.v
IntelRdt.v
Builders.v
Tenant.v
SELinux.v
SeccompLoad.v
Foreground.v
Hooks.v
Managers.v
InitSteps.v
Console.v
Network.v
