(* ===== verification/Prelude.v ===== *)
(** * A verification development for the youki container runtime

    youki is an OCI container runtime in Rust.  The crate [libcontainer] creates
    and controls containers; the crate [libcgroups] puts their processes into
    cgroups and applies resource limits, either through the cgroup file system
    or by asking systemd over D-Bus; [youki] and [liboci-cli] are the command
    line.  A command such as [kill] or [delete] loads the saved state of a
    container, checks its status, calls the cgroup manager and saves the state.

    ** Files

    All paths below are under [src/crates].

    - [Prelude]: results with panics ([outcome]), computations over a world
      ([io]), machine integers, strings and bytes, the hint database [youki].
    - [Text]: what the sources use of the standard library on text: integer
      parsing and printing, splitting, trimming; the characters of UTF-8 text.
    - [Paths]: [libcgroups/src/common.rs] ([join_safely], [clean_cgroup_path])
      and the names of [systemd/manager.rs] ([CgroupsPath], [expand_slice],
      [construct_cgroups_path]).  A path is a list of components.
    - [Calls]: programs whose world is the list of the calls made so far; which of
      them fails is left open.  The way to reason about what such programs do.
    - [Utils]: [libcontainer/src/utils.rs] and [config.rs]: paths, environments, the
      default cgroup path, directories with modes, rootless mode.
    - [Bpf]: the eBPF instructions and the machine that runs them, an interface
      ([EbpfVm]) with an executable instance.
    - [Devices]: [v2/devices/emulator.rs] and [program.rs], and the rules that
      [controller.rs] gives to the emulator.
    - [BpfAttach]: [v2/devices/bpf.rs] and the operations of [controller.rs]: loading a
      program, attaching it in place of the earlier ones.
    - [Dbus]: [systemd/dbus_native/serialize.rs] and [utils.rs], the encoding of
      values; the trait [DbusSerialize] is a class, its laws are another.
    - [DbusMessage]: [message.rs], messages and their header fields.
    - [DbusConn]: [dbus.rs], [proxy.rs] and [client.rs]: a socket that delivers
      bytes in chunks with interruptions, requests and replies, method calls and
      the operations of the systemd client.
    - [CgroupFs]: the cgroup file system as a world with directories, files, a
      journal of writes and a kernel that may refuse operations and react to
      writes; the file operations of [common.rs].
    - [CgroupTree]: the processes of a tree of cgroups, [get_all_pids] of [common.rs].
    - [Stats]: [libcgroups/src/stats.rs], the parsers of the kernel's statistics, and
      what the controllers of both hierarchies collect.
    - [V2Controllers]: [v2/cpu.rs], [cpuset.rs], [pids.rs], [memory.rs],
      [hugetlb.rs], [io.rs] and [unified.rs], one module each.
    - [V2Manager]: [v2/manager.rs], [freezer.rs], [util.rs].
    - [V1]: the controllers of [libcgroups/src/v1], one module each.
    - [V1Manager]: [v1/manager.rs], which finds the directories of the controllers.
    - [Lifecycle]: [libcontainer/src/container]: [state.rs], [container.rs] and
      the commands start, kill, pause, resume and delete; [signal.rs].  The world
      holds the saved state and the processes and records the effects of every
      call, each of which may fail.
    - [SystemdProps]: [systemd/cpu.rs], [cpuset.rs], [memory.rs], [pids.rs],
      [io.rs] and [unified.rs], which turn limits into unit properties.
    - [SystemdDevices]: [systemd/devices.rs], device rules as unit properties.
    - [SystemdManager]: [systemd/manager.rs] over systemd as a state machine of units
      and jobs, with D-Bus requests that may fail or never be answered.
    - [Seccomp]: [src/experiment/seccomp]: the generator of classic BPF filters
      from a seccomp configuration ([seccomp.rs], [instruction/]) and the machine
      that runs them, an interface ([CbpfVm]) with an executable instance.
    - [Spec]: the parts of the OCI configuration that the code reads, and
      [libcontainer/src/namespaces.rs].
    - [Validator]: [validator.rs], [container/mount_validation.rs] and
      [user_ns.rs] of [libcontainer], and the writing of kernel parameters.
    - [Protocol]: [libcontainer/src/channel.rs], [process/channel.rs] and
      [process/message.rs]: programs that exchange messages, the typed ends of the
      channels, and the system of three processes that runs them, with failures
      and killed processes; its runs do not depend on the order of the steps.
    - [Processes]: [process/container_main_process.rs],
      [container_intermediate_process.rs] and [init/process.rs] as such programs.
      A call of the system is an effect, of which only the success matters.
    - [Creation]: the three processes run together.
    - [InitOrder]: the requests of the init process to main, and the order of what
      the init process does before it executes the program.
    - [Capabilities]: [capabilities.rs] and the part of [init/process.rs] that drops
      privileges, over the capability sets of a thread.
    - [ProcessAttrs]: [process/memory_policy.rs] and [cpu_affinity.rs].
    - [MountOptions]: [parse_mount] of [rootfs/utils.rs] and the options of
      [syscall/linux.rs] that it reads.
    - [Mounting]: [rootfs/mount.rs], with [Calls].
    - [RootFs]: [rootfs/rootfs.rs], [device.rs] and [symlink.rs], with [Calls].
    - [IntelRdt]: [process/intel_rdt.rs] over the file system of [CgroupFs].
    - [Builders]: [container/builder.rs], [builder_impl.rs] and [init_builder.rs], with
      [Calls]: how a container is made from its configuration.
    - [Tenant]: [container/tenant_builder.rs]: how a process joins a container.
    - [SELinux]: [src/experiment/selinux]: labels, the modes of SELinux, extended
      attributes with calls that may be interrupted.
    - [SeccompLoad]: [libcontainer/src/seccomp/mod.rs]: a seccomp profile as calls of
      [libseccomp], an interface ([Libseccomp]) that says what the loaded filter does.
    - [Foreground]: [youki/src/commands/foreground.rs]: waiting for the init process,
      forwarding signals, relaying and restoring the terminal.
    - [Hooks]: the JSON form of [container/state.rs], and [hooks.rs].
    - [Managers]: [libcgroups/src/common.rs]: which hierarchies are mounted, the choice of
      the manager and the operations passed on to it.
    - [InitSteps]: the steps of [process/init/process.rs] down to the system calls of
      [syscall/linux.rs]: protected paths, the change of the root, groups, user,
      descriptors, priorities and the scheduler.
    - [Console]: [libcontainer/src/tty.rs]: the console socket and the pseudo terminal.
    - [Network]: [libcontainer/src/network]: netlink messages and the move of a network
      device into the namespace of a container.

    ** How the parts interact

    [Builders] and [Tenant] read a configuration, which passes [Validator] and is
    turned into arguments of [Processes], which create the container; [Creation] relies on the validation for the
    agreement of the processes on the messages.  The stage of the init process that
    prepares the root is [RootFs], which mounts with [Mounting] what [MountOptions]
    has read; other stages are opened up in [InitSteps], [Console] (the terminal),
    [SeccompLoad] (the filter), [Network] (the second half of a move, whose first half main
    makes), [Capabilities] and [Hooks].  The command that created the container may stay in
    the foreground ([Foreground]).  The life cycle of the created container is [Lifecycle].  Its limits go
    to the kernel through [V2Manager] and [V2Controllers], with device programs of
    [Devices] that [BpfAttach] puts in force, through [V1Manager] and [V1], or to
    systemd through [SystemdManager], [SystemdProps], [SystemdDevices], [DbusConn],
    [DbusMessage] and [Dbus]; which of the three is said by [Managers].  The managers find
    processes with [CgroupTree] and report with [Stats].

    ** What the theorems show

    - Devices: the generated eBPF program computes the verdict of the last rule
      that decides an access; the generator fails exactly on rules it cannot
      express; the default devices stay accessible whatever the rules.
      After a device filter was applied, the attached programs permit no more than
      the policy, also when it fails after attaching.
    - Builders: accepted identifiers name a child of the root directory; a
      configuration is checked before anything is changed; at most one process is
      started, within the cgroup of the container; a failed creation is undone.
      A process that joins a container cannot take back its restrictions, stays within its
      cgroup, joins exactly the listed namespaces, and its failure is reported.  Defects: a
      name that stays taken after an early failure, an error report with padding, and the
      user namespace, which is not joined.
    - Capabilities and process attributes: after dropping privileges the sets are the
      ones of the configuration, and the bounding set has only shrunk, also on failure;
      memory policies and cpu lists are accepted exactly if they are well formed, and
      the masks name the listed nodes and cpus.
    - Creation and InitOrder: whatever fails and in whatever order the processes
      run, the creation of a container ends and nobody meets an unexpected message;
      without failures the program is executed; it is executed only after all
      stages of isolation and restriction, in their order.  Defects: when main fails
      to write the mappings, the intermediate process waits for ever; and a failure
      to set [no_new_privileges] is ignored.
    - Validator: the accepted configurations are exactly the ones that satisfy the
      documented conditions; kernel parameters of an accepted configuration belong to
      a namespace that it lists; mappings are written without panic.  Defects: an
      identifier after the end of a mapping counts as mapped, and a namespace that is
      joined by its path counts as one of the container.
    - Seccomp: for configurations without argument checks the filter gives each
      call the verdict of the configuration.  Defects: long rules, the comparison
      [GreaterThan], and the action errno without a number, which kills.
    - SeccompLoad: the filter that is built with [libseccomp] gives each call the action
      of an entry that applies, with its number in the kernel, or the default, for the
      architectures of the profile.  Defect: the two values of a masked comparison are
      exchanged.
    - SELinux: a label that was set is read back, if it fits; nothing else is changed.
      Defects: levels with categories, error handling, and the lookup of the policy.
    - Foreground, Hooks and Console: the status of the init process is returned, signals
      are forwarded once and in order, and the terminal is restored however it ends.
      Hooks run in order with the state of the container, each in its time; the saved
      state is read back.  The terminal is used only if it is genuine.  Defects: the
      time of a hook starts late, and a failed write loses the saved state.
    - InitSteps: protecting paths never shows or permits more; with [pivot_root] the old
      root is detached, without it the mounts of the host are hidden before the move;
      groups, descriptors, priorities and the scheduler are set as configured.
    - Network: a device is moved only when it is down, a refused request ends the move,
      and its permanent global addresses are given to it again.  Defects: a device that
      cannot be moved is left down, and IPv6 addresses are read too late.
    - Managers: the manager fits the mounted hierarchies, and its cgroup is below them.
    - D-Bus: values and messages are read back as written, at any position; the
      reading loops end on every input; a request gets its reply however the
      stream is cut; the properties of a unit arrive as computed.  Defects: a
      misplaced element in arrays of variants, the byte-order flag 'B' and an empty
      reply, on which the code panics.
    - Paths: a cgroup path cannot leave its root; names of units and slices are
      read back, expanded and placed as systemd does.
    - The cgroup file system: each controller writes exactly what the configuration
      asks for, or a first part of it if a write is refused; adding a process stays
      between the root and the cgroup; removal kills first; freezing succeeds only
      if the kernel has reported it.
    - cgroup v1: limits are applied for exactly the needed controllers, or the first
      missing one is named; the memory limits are written in an order the kernel
      accepts; adding a process stays below the mount points of the controllers;
      freezing succeeds only if the kernel has reported it.
    - Processes and statistics: the processes collected are those of the tree; tables
      in the formats of the kernel are read back.  Defect: statistics of block devices
      in two fields are dropped.
    - Mounts and root: options mean what the tables say and the rest is data for the
      file system; every mount is made with its options; procfs and sysfs are mounted
      only where they belong; the root is prepared in order and inside the root.  Defects: a
      bind mount over [/proc] is not checked, and the options of cgroup v1 mounts are
      not used.
    - Intel RDT: schemata are compared as sets of values per cache; removing what was
      set up restores the file system.  Defect: two containers that share a class
      share its removal.
    - Life cycle: commands change the status only from the statuses that allow
      them; start succeeds once in any history; deletion kills before it removes.
      Defects: any signal marks a container as stopped, and the signal numbers 5
      and 7 are exchanged.
    - systemd properties: a cpu list arrives as the set it names; the memory limits
      are those of the cgroup v2 controller.  Defects: a division by a period of
      zero, and [cpu.max] passed unscaled.  Device properties grant no access that
      the policy does not allow.
    - systemd manager: connecting makes a bounded number of attempts; a new unit counts
      as started when its process was seen in the cgroup; limits are computed before
      anything is changed, sent in one message, and followed by the device filter.

    ** Machine integers, bounds and fuel

    Integers are [Z] with their range as a hypothesis and with [uwrap] and [swrap]
    where the code converts between widths; [usize] has 64 bits.  Overflow of
    [+] and [*], which panics in debug builds only, wraps.  Strings are bytes; the
    functions that need valid UTF-8 check it.  Loops that are not structural have
    fuel that is shown to be enough: an array or header loop consumes a byte per
    turn, a reply loop a message of the stream, the loop of main over the requests
    one pending request, a drawn name is new after as many draws as there are files,
    a pipe is read until it is empty, the inner loop of the netlink client reads a byte at
    least per turn, a call of SELinux is repeated once more than it is interrupted, and the
    foreground process waits for as many events as there are; polling and removal have the bounds of the code (1000
    polls, 100 ms).  The runs of a creation have fewer than 200 steps, which is
    part of the theorem.  The hash maps of the source are lists in an arbitrary
    iteration order, or finite maps where only lookup and insertion matter.
    Logging is left out.

    ** Third-party code

    The eBPF machine ([rbpf]), the classic BPF machine of the kernel, the bit set
    ([fixedbitset]) and the conversion of device rules by [oci_spec] are parameters
    with their documented behaviour as hypotheses, and instances for the examples.
    So is the resolution of a path inside a root ([safe_path]).  The mount table is what
    [procfs] returns, an argument.  The regular expressions of [IntelRdt] are given to an engine that is a
    parameter; floating-point numbers and their parser are one in [Stats].
    The tables of system call numbers, the encoding of seccomp actions by
    [oci_spec], the writing of a file below [/proc] and the floating-point curve
    from cpu shares to weights are parameters without assumptions.  What a seccomp filter
    does is an interface over [libseccomp]; the JSON forms of [serde] and the decoding of
    netlink messages are classes with round trips as laws; what a process sees of files,
    mounts, its root and its descriptors is stated by classes over the calls made, in
    [InitSteps].  [libbpf], the
    crate [caps], the [CpuSet] of [nix], the tables of Unicode, the defaults of the
    builders of [oci_spec] and the files of [procfs] are operations of interfaces; where
    a theorem relies on them their documented behaviour is a law of the interface.

    ** What is not modelled

    Checkpoints with CRIU, the printing of events, the WebAssembly engines and the
    execution of the program itself, the seccomp listener, the notify socket and the
    cloning of processes are single calls of libraries or of the system; as far as they
    are steps of a creation, they are effects there, which may fail.  The stub managers of
    features that are compiled out return errors.  The command line is argument
    declarations for a library and commands, such as [info], [features] and [spec], that
    print.  Test code is left out. *)
From Stdlib Require Export ZArith Lia Ascii.
From coqutil Require Export Byte Word.LittleEndianList.
From stdpp Require Export base tactics option list_monad strings gmap numbers pretty.
From stdpp Require Export list.


Create HintDb youki.
Create Rewrite HintDb youki.

(** ** Outcomes of Rust functions

    A Rust function that returns [Result<A, E>] either returns [Ok], returns
    [Err], or panics (an out-of-range index, [unwrap] on an error, [panic!]). *)
Inductive outcome (E A : Type) : Type :=
  | Ok (a : A)
  | Err (e : E)
  | Panic.
Arguments Ok {E A} a.
Arguments Err {E A} e.
Arguments Panic {E A}.

#[global] Instance outcome_ret {E} : MRet (outcome E) := λ A a, Ok a.
#[global] Instance outcome_bind {E} : MBind (outcome E) := λ A B f m,
  match m with Ok a => f a | Err e => Err e | Panic => Panic end.
#[global] Instance outcome_fmap {E} : FMap (outcome E) := λ A B f m,
  match m with Ok a => Ok (f a) | Err e => Err e | Panic => Panic end.

#[global] Instance outcome_eq_dec {E A} `{EqDecision E, EqDecision A} :
  EqDecision (outcome E A).
Proof. solve_decision. Defined.

(** Run the first action of a sequence whose result is known. *)
Ltac run := cbn [mbind outcome_bind mret outcome_ret fmap outcome_fmap].

(** [Result::map_err] *)
Definition map_err {E F A} (f : E → F) (m : outcome E A) : outcome F A :=
  match m with Ok a => Ok a | Err e => Err (f e) | Panic => Panic end.

(** [Option::ok_or] *)
Definition ok_or {E A} (o : option A) (e : E) : outcome E A :=
  match o with Some a => Ok a | None => Err e end.

(** [Option::unwrap] *)
Definition unwrap {E A} (o : option A) : outcome E A :=
  match o with Some a => Ok a | None => Panic end.

(** A result without panic. *)
Definition of_sum {E A} (x : E + A) : outcome E A :=
  match x with inl e => Err e | inr a => Ok a end.

Definition is_ok {E A} (m : outcome E A) : bool :=
  match m with Ok _ => true | _ => false end.

Definition is_err {E A} (m : outcome E A) : bool :=
  match m with Err _ => true | _ => false end.

(** A [for] loop over a slice whose body may return early with [?]. *)
Fixpoint for_each {E A S} (f : A → S → outcome E S) (l : list A) (s : S) :
    outcome E S :=
  match l with
  | [] => Ok s
  | x :: l => f x s ≫= for_each f l
  end.

Lemma bind_Ok {E A B} (m : outcome E A) (f : A → outcome E B) b :
  m ≫= f = Ok b ↔ ∃ a, m = Ok a ∧ f a = Ok b.
Proof. split; [destruct m; intros; simplify_eq/=; eauto|by intros (a & -> & ?)]. Qed.

Lemma bind_Err {E A B} (m : outcome E A) (f : A → outcome E B) e :
  m ≫= f = Err e ↔ m = Err e ∨ ∃ a, m = Ok a ∧ f a = Err e.
Proof.
  split; [destruct m; intros; simplify_eq/=; eauto|].
  by intros [-> | (a & -> & ?)].
Qed.

Lemma for_each_app {E A S} (f : A → S → outcome E S) l1 l2 s :
  for_each f (l1 ++ l2) s = for_each f l1 s ≫= for_each f l2.
Proof.
  revert s. induction l1 as [|x l1 IH]; intros s; [done|].
  simpl. destruct (f x s); simpl; auto.
Qed.

(** Invariant rule for [for_each]. *)
Lemma for_each_inv {E A S} (I : S → Prop) (f : A → S → outcome E S) l s s' :
  (∀ x s s', x ∈ l → I s → f x s = Ok s' → I s') →
  I s → for_each f l s = Ok s' → I s'.
Proof.
  revert s. induction l as [|x l IH]; intros s Hf Hs; simpl; [naive_solver|].
  intros (s1 & H1 & H2)%bind_Ok.
  eapply IH; [|eapply Hf; [|exact Hs|exact H1]|exact H2]; set_solver.
Qed.

Lemma bind_no_panic {E A B} (m : outcome E A) (f : A → outcome E B) :
  m ≠ Panic → (∀ a, m = Ok a → f a ≠ Panic) → m ≫= f ≠ Panic.
Proof. destruct m; simpl; auto. Qed.

Lemma map_err_no_panic {E F A} (f : E → F) (m : outcome E A) : m ≠ Panic → map_err f m ≠ Panic.
Proof. by destruct m. Qed.

Lemma ok_or_no_panic {E A} (o : option A) (e : E) : ok_or o e ≠ Panic.
Proof. by destruct o. Qed.

Lemma for_each_no_panic {E A S} (f : A → S → outcome E S) l s :
  (∀ x s, f x s ≠ Panic) → for_each f l s ≠ Panic.
Proof.
  intros Hf. revert s. induction l as [|x l IH]; intros s; [done|]. apply bind_no_panic; auto.
Qed.

(** [ok_iff m P]: the function never panics, and succeeds exactly when [P]. *)
Definition ok_iff {E A} (m : outcome E A) (P : Prop) : Prop :=
  match m with Ok _ => P | Err _ => ¬ P | Panic => False end.

Lemma ok_iff_bind {E A B} (m : outcome E A) (f : A → outcome E B) P Q :
  ok_iff m P → (∀ a, m = Ok a → ok_iff (f a) Q) → ok_iff (m ≫= f) (P ∧ Q).
Proof.
  destruct m as [a|e|]; simpl; [|tauto|done]. intros HP Hf.
  specialize (Hf a eq_refl). destruct (f a); simpl in *; tauto.
Qed.

Lemma ok_iff_mono {E A} (m : outcome E A) P Q : (P ↔ Q) → ok_iff m P → ok_iff m Q.
Proof. destruct m; simpl; tauto. Qed.

#[global] Instance ok_iff_proper {E A} (m : outcome E A) : Proper (iff ==> iff) (ok_iff m).
Proof. intros P Q HPQ. split; apply ok_iff_mono; [done|by symmetry]. Qed.

(** The loop succeeds exactly when every element is acceptable, where the body may
    rely on an invariant of the state that it maintains. *)
Lemma ok_iff_for_each_inv {E A S} (I : S → Prop) (P : A → Prop) (f : A → S → outcome E S) l s :
  (∀ x s, x ∈ l → I s → ok_iff (f x s) (P x)) →
  (∀ x s s', I s → f x s = Ok s' → I s') →
  I s → ok_iff (for_each f l s) (Forall P l).
Proof.
  intros Hf HI. revert s. induction l as [|x l IH]; intros s Hs; [by constructor|].
  eapply ok_iff_mono; [symmetry; apply Forall_cons|].
  apply ok_iff_bind; [|intros s' Hs'; apply IH]; [apply Hf|intros; apply Hf|]; set_solver.
Qed.

Lemma ok_iff_for_each {E A S} (P : A → Prop) (f : A → S → outcome E S) l s :
  (∀ x s, x ∈ l → ok_iff (f x s) (P x)) → ok_iff (for_each f l s) (Forall P l).
Proof. intros Hf. apply (ok_iff_for_each_inv (λ _, True)); auto. Qed.

(** ** Computations with effects

    A computation that acts on a world [W] (sockets, files, the kernel): it
    returns an outcome and the world it leaves, also when it fails. *)
Definition io (W E A : Type) : Type := W → outcome E A * W.

#[global] Instance io_ret {W E} : MRet (io W E) := λ A a w, (Ok a, w).
#[global] Instance io_bind {W E} : MBind (io W E) := λ A B f m w,
  match m w with
  | (Ok a, w) => f a w
  | (Err e, w) => (Err e, w)
  | (Panic, w) => (Panic, w)
  end.

(** A computation without effects. *)
Definition pure {W E A} (m : outcome E A) : io W E A := λ w, (m, w).

(** A loop that carries nothing but the world. *)
Fixpoint io_each {W E A} (f : A → io W E ()) (l : list A) : io W E () :=
  match l with
  | [] => mret ()
  | x :: l => _ ← f x; io_each f l
  end.

(** [map_err] on a computation. *)
Definition io_map_err {W E F A} (f : E → F) (m : io W E A) : io W F A := λ w,
  (map_err f (m w).1, (m w).2).

Lemma io_bind_run {W E A B} (m : io W E A) (f : A → io W E B) w a w' :
  m w = (Ok a, w') → (m ≫= f) w = f a w'.
Proof. intros Hm. unfold mbind, io_bind. by rewrite Hm. Qed.

Lemma io_bind_pure {W E A B} (a : A) (f : A → io W E B) w : (pure (Ok a) ≫= f) w = f a w.
Proof. done. Qed.

Lemma io_bind_Ok {W E A B} (m : io W E A) (f : A → io W E B) w b w' :
  (m ≫= f) w = (Ok b, w') ↔ ∃ a w1, m w = (Ok a, w1) ∧ f a w1 = (Ok b, w').
Proof.
  unfold mbind, io_bind. split.
  - destruct (m w) as [[a|e|] w1]; [eauto|by intros [= ]..].
  - by intros (a & w1 & -> & ?).
Qed.

(** *** Where a computation can end *)

(** A result satisfies [Q], an error leaves a world that satisfies [X], and there is no panic. *)
Definition ends {W E A} (m : io W E A) (Q : A → W → Prop) (X : W → Prop) (w : W) : Prop :=
  match m w with
  | (Ok a, w') => Q a w'
  | (Err _, w') => X w'
  | (Panic, _) => False
  end.

Lemma ends_then {W E A B} (m : io W E A) (f : A → io W E B) Q X w :
  ends m (λ a, ends (f a) Q X) X w → ends (m ≫= f) Q X w.
Proof. unfold ends, mbind, io_bind. destruct (m w) as [[a|e|] w']; done. Qed.

Lemma ends_mapped {W E F A} (g : E → F) (m : io W E A) Q X w :
  ends m Q X w → ends (io_map_err g m) Q X w.
Proof. unfold ends, io_map_err. by destruct (m w) as [[a|e|] w']. Qed.

Lemma ends_mono {W E A} (m : io W E A) (Q Q' : A → W → Prop) (X X' : W → Prop) w :
  (∀ a w', Q a w' → Q' a w') → (∀ w', X w' → X' w') → ends m Q X w → ends m Q' X' w.
Proof. unfold ends. intros HQ HX. destruct (m w) as [[a|e|] w']; auto. Qed.

(** ** Fixed-width integers *)

(** The value of [z] in an unsigned type of [w] bits ([as u8], [as u32], ...). *)
Definition uwrap (w : Z) (z : Z) : Z := z `mod` 2 ^ w.

(** The value of [z] in a two's complement type of [w] bits ([as i32], ...). *)
Definition swrap (w : Z) (z : Z) : Z := (z + 2 ^ (w - 1)) `mod` 2 ^ w - 2 ^ (w - 1).

Definition in_u (w z : Z) : Prop := (0 ≤ z < 2 ^ w)%Z.

#[global] Instance in_u_dec w z : Decision (in_u w z).
Proof. unfold in_u. apply _. Defined.

Lemma uwrap_small w z : in_u w z → uwrap w z = z.
Proof. apply Z.mod_small. Qed.

Lemma uwrap_range w z : (0 ≤ w)%Z → in_u w (uwrap w z).
Proof. intros Hw. apply Z.mod_pos_bound. by apply Z.pow_pos_nonneg. Qed.

Lemma swrap_small w z :
  (1 ≤ w)%Z → (- 2 ^ (w - 1) ≤ z < 2 ^ (w - 1))%Z → swrap w z = z.
Proof.
  intros Hw Hz. unfold swrap.
  replace (2 ^ w)%Z with (2 * 2 ^ (w - 1))%Z
    by (rewrite <- Z.pow_succ_r by lia; f_equal; lia).
  rewrite Z.mod_small; lia.
Qed.

(** Membership in an unsigned type, by bits. *)
Lemma in_u_bits w z : (0 ≤ w)%Z →
  in_u w z ↔ ∀ i, (w ≤ i)%Z → Z.testbit z i = false.
Proof.
  intros Hw. split.
  - intros Hz i Hi. rewrite <- (uwrap_small w z Hz). by apply Z.mod_pow2_bits_high.
  - intros Hz. replace z with (uwrap w z); [by apply uwrap_range|].
    unfold uwrap. apply Z.bits_inj'. intros i Hi.
    destruct (decide (i < w)%Z); [by apply Z.mod_pow2_bits_low|].
    rewrite Z.mod_pow2_bits_high by lia. symmetry. apply Hz. lia.
Qed.

Lemma land_pow2 f k : (0 ≤ k)%Z → (Z.land f (2 ^ k) =? 0)%Z = negb (Z.testbit f k).
Proof.
  intros Hk. destruct (Z.testbit f k) eqn:Hb; cbn.
  - apply Z.eqb_neq. intros H. apply (f_equal (λ z, Z.testbit z k)) in H.
    by rewrite Z.land_spec, Hb, Z.pow2_bits_true, Z.bits_0 in H by done.
  - apply Z.eqb_eq, Z.bits_inj'. intros n Hn. rewrite Z.land_spec, Z.bits_0.
    destruct (decide (n = k)) as [->|]; [by rewrite Hb|]. by rewrite Z.pow2_bits_false, andb_false_r by done.
Qed.

#[export] Hint Rewrite uwrap_small swrap_small using lia : youki.

(** ** Byte strings

    A Rust [String] or [&str] is a [string], whose characters are the bytes of
    the UTF-8 encoding; [Vec<u8>] is [list byte]. *)
Abbreviation chars := String.list_ascii_of_string.
Definition as_bytes (s : string) : list byte := String.list_byte_of_string s.
Definition of_bytes (l : list byte) : string := String.string_of_list_byte l.

Lemma of_bytes_as_bytes s : of_bytes (as_bytes s) = s.
Proof. apply String.string_of_list_byte_of_string. Qed.

Lemma as_bytes_of_bytes l : as_bytes (of_bytes l) = l.
Proof. apply String.list_byte_of_string_of_list_byte. Qed.

Lemma length_as_bytes s : length (as_bytes s) = String.length s.
Proof.
  unfold as_bytes, String.list_byte_of_string. rewrite length_map.
  induction s; simpl; auto.
Qed.

#[export] Hint Rewrite of_bytes_as_bytes as_bytes_of_bytes length_as_bytes : youki.

(** Indexing and slicing of a [Vec] or slice panics out of range. *)
Definition index {E A} (l : list A) (i : nat) : outcome E A := unwrap (l !! i).

Definition slice {E A} (l : list A) (i j : nat) : outcome E (list A) :=
  if decide (i ≤ j ≤ length l)%nat then Ok (take (j - i) (drop i l)) else Panic.

Lemma index_app {E A} (l1 l2 : list A) i j :
  i = (length l1 + j)%nat → index (E:=E) (l1 ++ l2) i = index l2 j.
Proof. intros ->. unfold index. by rewrite lookup_app_r, Nat.add_comm, Nat.add_sub by lia. Qed.

Lemma slice_middle {E A} (l1 l2 l3 : list A) i j :
  i = length l1 → j = (i + length l2)%nat →
  slice (E:=E) (l1 ++ l2 ++ l3) i j = Ok l2.
Proof.
  intros -> ->. unfold slice. rewrite !length_app, decide_True by lia.
  rewrite drop_app_length, Nat.add_comm, Nat.add_sub, take_app_length. done.
Qed.

(** The well-formed UTF-8 sequences, which [String::from_utf8] accepts. *)
Definition byte_in (lo hi : Z) (b : byte) : bool :=
  (lo <=? byte.unsigned b)%Z && (byte.unsigned b <=? hi)%Z.

Fixpoint utf8_valid (l : list byte) : bool :=
  match l with
  | [] => true
  | b0 :: l =>
      if byte_in 0 127 b0 then utf8_valid l
      else match l with
      | [] => false
      | b1 :: l =>
          if byte_in 194 223 b0 then byte_in 128 191 b1 && utf8_valid l
          else match l with
          | [] => false
          | b2 :: l =>
              if byte_in 224 239 b0 then
                (if byte_in 224 224 b0 then byte_in 160 191 b1
                 else if byte_in 237 237 b0 then byte_in 128 159 b1
                 else byte_in 128 191 b1)
                && byte_in 128 191 b2 && utf8_valid l
              else match l with
              | [] => false
              | b3 :: l =>
                  byte_in 240 244 b0
                  && (if byte_in 240 240 b0 then byte_in 144 191 b1
                      else if byte_in 244 244 b0 then byte_in 128 143 b1
                      else byte_in 128 191 b1)
                  && byte_in 128 191 b2 && byte_in 128 191 b3 && utf8_valid l
              end
          end
      end
  end.

(** [String::from_utf8(..).unwrap()] *)
Definition from_utf8_unwrap {E} (l : list byte) : outcome E string :=
  if utf8_valid l then Ok (of_bytes l) else Panic.

Lemma from_utf8_as_bytes {E} s :
  utf8_valid (as_bytes s) = true → from_utf8_unwrap (E:=E) (as_bytes s) = Ok s.
Proof. intros Hs. unfold from_utf8_unwrap. by rewrite Hs, of_bytes_as_bytes. Qed.

(** [str::split] with a character: one piece more than there are separators. *)
Fixpoint split_chars (sep : ascii) (l : list ascii) : list (list ascii) :=
  match l with
  | [] => [[]]
  | c :: l =>
      if Ascii.eqb c sep then [] :: split_chars sep l
      else match split_chars sep l with
           | piece :: pieces => (c :: piece) :: pieces
           | [] => [[c]]
           end
  end.

Definition split_on (sep : ascii) (s : string) : list string :=
  map String.string_of_list_ascii (split_chars sep (chars s)).

(** [str::strip_prefix] *)
Fixpoint strip_prefix (prefix s : string) : option string :=
  match prefix, s with
  | EmptyString, _ => Some s
  | String c prefix, String d s => if Ascii.eqb c d then strip_prefix prefix s else None
  | String _ _, EmptyString => None
  end.

Definition starts_with (prefix s : string) : bool :=
  match strip_prefix prefix s with Some _ => true | None => false end.

(** [format!("{:x}")] of a byte *)
Definition hex_digit (n : nat) : ascii :=
  ascii_of_nat (if (n <? 10)%nat then 48 + n else 87 + n).

Definition hex_byte (n : nat) : list ascii :=
  if (n <? 16)%nat then [hex_digit n] else [hex_digit (n / 16); hex_digit (n mod 16)].
