(* ===== verification/Text.v ===== *)
(** * Text: what the sources use of Rust's [str] and integer parsing

    Numbers are printed with [pretty] (the decimal form of [Display]) and read
    with [parse_unsigned] and [parse_signed], the models of
    [str::parse::<u64>()] and the like.  Lines, words and splits are those of
    [core::str]; the characters of a text and which of them are white space are those of
    Unicode. *)
From S2P Require Import Prelude.
Local Open Scope string_scope.
Local Open Scope list_scope.
Local Open Scope Z_scope.

Abbreviation of_chars := String.string_of_list_ascii.

Lemma of_chars_chars s : of_chars (chars s) = s.
Proof. apply String.string_of_list_ascii_of_string. Qed.

Lemma chars_of_chars l : chars (of_chars l) = l.
Proof. apply String.list_ascii_of_string_of_list_ascii. Qed.

Lemma chars_app s t : chars (s +:+ t) = chars s ++ chars t.
Proof. induction s as [|c s IH]; [done|]. simpl. f_equal. apply IH. Qed.

#[export] Hint Rewrite of_chars_chars chars_of_chars chars_app : youki.

(** ** Integers *)

Inductive IntErrorKind : Type := EmptyInt | InvalidDigit | PosOverflow | NegOverflow.

#[global] Instance IntErrorKind_eq_dec : EqDecision IntErrorKind.
Proof. solve_decision. Defined.

Definition digit (c : ascii) : option Z :=
  let n := Z.of_nat (nat_of_ascii c) in
  if (48 <=? n) && (n <=? 57) then Some (n - 48) else None.

Definition is_ascii_digit (c : ascii) : bool := bool_decide (is_Some (digit c)).

(** The digits of a number that must not exceed [limit]. *)
Fixpoint parse_digits (limit acc : Z) (l : list ascii) : outcome IntErrorKind Z :=
  match l with
  | [] => Ok acc
  | c :: l =>
      match digit c with
      | None => Err InvalidDigit
      | Some d =>
          if acc * 10 + d <=? limit then parse_digits limit (acc * 10 + d) l
          else Err PosOverflow
      end
  end.

(** [str::parse] at an unsigned type of [w] bits *)
Definition parse_unsigned (w : Z) (s : string) : outcome IntErrorKind Z :=
  match chars s with
  | [] => Err EmptyInt
  | ["+"%char] | ["-"%char] => Err InvalidDigit
  | "+"%char :: l => parse_digits (2 ^ w - 1) 0 l
  | l => parse_digits (2 ^ w - 1) 0 l
  end.

(** [str::parse] at a signed type of [w] bits *)
Definition parse_signed (w : Z) (s : string) : outcome IntErrorKind Z :=
  match chars s with
  | [] => Err EmptyInt
  | ["+"%char] | ["-"%char] => Err InvalidDigit
  | "+"%char :: l => parse_digits (2 ^ (w - 1) - 1) 0 l
  | "-"%char :: l =>
      z ← map_err (λ e, if decide (e = PosOverflow) then NegOverflow else e)
            (parse_digits (2 ^ (w - 1)) 0 l);
      Ok (- z)
  | l => parse_digits (2 ^ (w - 1) - 1) 0 l
  end.

(** The number that a list of characters denotes, read from the left. *)
Definition digits_value (acc : Z) (l : list ascii) : Z :=
  foldl (λ a c, a * 10 + default 0 (digit c)) acc l.

Definition all_digits (l : list ascii) : Prop := Forall (λ c, is_Some (digit c)) l.

Lemma digit_range c d : digit c = Some d → 0 ≤ d ≤ 9.
Proof. unfold digit. case_match eqn:Hc; intros; simplify_eq. lia. Qed.

Lemma digits_value_mono l acc : 0 ≤ acc → acc ≤ digits_value acc l.
Proof.
  revert acc. induction l as [|c l IH]; intros acc Hacc; [cbn; lia|].
  cbn. destruct (digit c) as [d|] eqn:Hd; cbn.
  - pose proof (digit_range c d Hd). specialize (IH (acc * 10 + d)). unfold digits_value in IH. lia.
  - specialize (IH (acc * 10 + 0)). unfold digits_value in IH. lia.
Qed.

Lemma parse_digits_value limit acc l :
  all_digits l → 0 ≤ acc → digits_value acc l ≤ limit →
  parse_digits limit acc l = Ok (digits_value acc l).
Proof.
  intros Hl. revert acc. induction Hl as [|c l [d Hd] Hl IH]; intros acc Hacc Hlim; [done|].
  cbn in *. rewrite Hd in *. cbn in *. pose proof (digit_range c d Hd).
  pose proof (digits_value_mono l (acc * 10 + d)) as Hm. unfold digits_value in Hm.
  rewrite (proj2 (Z.leb_le _ _)) by lia. apply IH; unfold digits_value; lia.
Qed.

Lemma digit_pretty d : (d < 10)%N → digit (pretty_N_char d) = Some (Z.of_N d).
Proof.
  intros Hd. assert (d = 0 ∨ d = 1 ∨ d = 2 ∨ d = 3 ∨ d = 4 ∨ d = 5 ∨ d = 6 ∨ d = 7 ∨ d = 8
    ∨ d = 9)%N as Hcases by lia.
  repeat destruct Hcases as [->|Hcases]; try subst d; reflexivity.
Qed.

(** The decimal form of a number denotes it. *)
Lemma pretty_N_go_digits (x : N) s :
  all_digits (chars s) →
  all_digits (chars (pretty_N_go x s)) ∧
  digits_value 0 (chars (pretty_N_go x s)) = digits_value (Z.of_N x) (chars s).
Proof.
  revert s. induction (N.lt_wf_0 x) as [x _ IH]; intros s Hs.
  destruct (decide (x = 0)%N) as [->|Hx]; [by rewrite pretty_N_go_0|].
  rewrite pretty_N_go_step by lia.
  pose proof (N.mod_lt x 10 ltac:(lia)) as Hmod.
  destruct (IH (x `div` 10)%N ltac:(apply N.div_lt; lia)
    (String (pretty_N_char (x `mod` 10)) s)) as [Hd Hv].
  { cbn. constructor; [|done]. rewrite digit_pretty by done. by eexists. }
  split; [done|]. rewrite Hv. cbn. rewrite digit_pretty by done. cbn. f_equal.
  rewrite (N.div_mod' x 10) at 3. lia.
Qed.

Lemma pretty_N_digits (x : N) :
  all_digits (chars (pretty x)) ∧ digits_value 0 (chars (pretty x)) = Z.of_N x.
Proof.
  unfold pretty, pretty_N. case_decide; [subst; repeat constructor; by eexists|].
  by apply pretty_N_go_digits, Forall_nil_2.
Qed.

Lemma pretty_N_go_nonempty x s : s ≠ "" → pretty_N_go x s ≠ "".
Proof.
  revert s. induction (N.lt_wf_0 x) as [x _ IH]; intros s Hs.
  destruct (decide (x = 0)%N) as [->|Hx]; [by rewrite pretty_N_go_0|].
  rewrite pretty_N_go_step by lia. apply IH; [apply N.div_lt; lia|done].
Qed.

Lemma pretty_N_nonempty (x : N) : pretty x ≠ "".
Proof.
  unfold pretty, pretty_N. case_decide; [done|].
  rewrite pretty_N_go_step by lia. by apply pretty_N_go_nonempty.
Qed.

(** The first character of a decimal form is neither a sign nor missing. *)
Lemma pretty_N_head (x : N) :
  ∃ c l, chars (pretty x) = c :: l ∧ is_Some (digit c).
Proof.
  destruct (pretty_N_digits x) as [Hd _]. pose proof (pretty_N_nonempty x) as Hn.
  destruct (pretty x) as [|c s]; [done|]. apply Forall_cons in Hd as [Hc _]. eauto.
Qed.

Lemma parse_unsigned_digits w s c l :
  chars s = c :: l → is_Some (digit c) →
  parse_unsigned w s = parse_digits (2 ^ w - 1) 0 (c :: l).
Proof.
  intros Hs [d Hd]. unfold parse_unsigned. rewrite Hs.
  destruct c as [[] [] [] [] [] [] [] []]; try done; destruct l; done.
Qed.

(** Printing and reading a number gives the number back. *)
Lemma parse_unsigned_pretty w (x : N) :
  Z.of_N x < 2 ^ w → parse_unsigned w (pretty x) = Ok (Z.of_N x).
Proof.
  intros Hx. destruct (pretty_N_head x) as (c & l & Hc & Hd).
  destruct (pretty_N_digits x) as [Had Hv].
  rewrite (parse_unsigned_digits w _ c l Hc Hd), <- Hc.
  rewrite parse_digits_value by (try done; lia). by rewrite Hv.
Qed.

Lemma parse_signed_digits w s c l :
  chars s = c :: l → is_Some (digit c) →
  parse_signed w s = parse_digits (2 ^ (w - 1) - 1) 0 (c :: l).
Proof.
  intros Hs [d Hd]. unfold parse_signed. rewrite Hs.
  destruct c as [[] [] [] [] [] [] [] []]; try done; destruct l; done.
Qed.

Lemma parse_signed_neg w s c l :
  chars s = "-"%char :: c :: l →
  parse_signed w s =
    (z ← map_err (λ e, if decide (e = PosOverflow) then NegOverflow else e)
           (parse_digits (2 ^ (w - 1)) 0 (c :: l)); Ok (- z)).
Proof. intros Hs. unfold parse_signed. by rewrite Hs. Qed.

Lemma parse_signed_pretty w (z : Z) :
  - 2 ^ (w - 1) ≤ z < 2 ^ (w - 1) → parse_signed w (pretty z) = Ok z.
Proof.
  intros Hz. destruct z as [|p|p].
  - rewrite (parse_signed_digits w _ "0"%char []) by (done || by eexists).
    rewrite parse_digits_value; [done|by apply Forall_singleton; eexists|lia|change (digits_value _ _) with 0; lia].
  - change (pretty (Z.pos p)) with (pretty (N.pos p)).
    destruct (pretty_N_head (N.pos p)) as (c & l & Hc & Hd).
    destruct (pretty_N_digits (N.pos p)) as [Had Hv].
    rewrite (parse_signed_digits w _ c l Hc Hd), <- Hc.
    rewrite parse_digits_value by (try done; lia). by rewrite Hv.
  - change (pretty (Z.neg p)) with ("-" +:+ pretty (N.pos p)).
    destruct (pretty_N_head (N.pos p)) as (c & l & Hc & Hd).
    destruct (pretty_N_digits (N.pos p)) as [Had Hv].
    rewrite (parse_signed_neg w _ c l) by (rewrite chars_app, Hc; done). rewrite <- Hc.
    rewrite parse_digits_value by (try done; lia). by rewrite Hv.
Qed.

Lemma parse_digits_ok limit acc l :
  0 ≤ acc → match parse_digits limit acc l with
            | Ok z => 0 ≤ z | Err _ => True | Panic => False end.
Proof.
  revert acc. induction l as [|c l IH]; intros acc Hacc; [done|]. cbn.
  destruct (digit c) as [d|] eqn:Hd; [|done]. pose proof (digit_range c d Hd).
  destruct (_ <=? _); [apply IH; lia|done].
Qed.

Lemma parse_unsigned_ok w s :
  match parse_unsigned w s with Ok z => 0 ≤ z | Err _ => True | Panic => False end.
Proof.
  unfold parse_unsigned. repeat case_match; try done;
    match goal with H : parse_digits ?a ?b ?c = _ |- _ =>
      pose proof (parse_digits_ok a b c ltac:(lia)) as Hok; by rewrite H in Hok end.
Qed.

Lemma parse_unsigned_nonneg w s z : parse_unsigned w s = Ok z → 0 ≤ z.
Proof. intros Hs. pose proof (parse_unsigned_ok w s) as Hok. by rewrite Hs in Hok. Qed.

Lemma parse_digits_bound limit acc l z :
  acc ≤ limit → parse_digits limit acc l = Ok z → z ≤ limit.
Proof.
  revert acc. induction l as [|c l IH]; intros acc Hacc; cbn; [congruence|].
  destruct (digit c) as [d|]; [|done]. destruct (Z.leb_spec (acc * 10 + d) limit); [|done].
  by apply IH.
Qed.

Lemma parse_unsigned_bound w s z : 0 ≤ w → parse_unsigned w s = Ok z → 0 ≤ z < 2 ^ w.
Proof.
  intros Hw Hs. split; [by eapply parse_unsigned_nonneg|].
  assert (0 ≤ 2 ^ w - 1) as Hl by (pose proof (Z.pow_pos_nonneg 2 w); lia).
  enough (z ≤ 2 ^ w - 1) by lia. revert Hs. unfold parse_unsigned.
  repeat case_match; try done; by apply parse_digits_bound.
Qed.

Lemma parse_unsigned_no_panic w s : parse_unsigned w s ≠ Panic.
Proof. intros Hs. pose proof (parse_unsigned_ok w s) as Hok. by rewrite Hs in Hok. Qed.

Lemma parse_signed_no_panic w s : parse_signed w s ≠ Panic.
Proof.
  assert (∀ limit acc l, parse_digits limit acc l ≠ Panic) as Hd.
  { intros limit acc l. revert acc. induction l as [|c l IH]; intros acc; cbn; [done|]. by repeat case_match. }
  unfold parse_signed. destruct (chars s) as [|c l]; [done|].
  assert (∀ limit, map_err (λ e, if decide (e = PosOverflow) then NegOverflow else e)
    (parse_digits limit 0 l) ≫= (λ z, Ok (- z)) ≠ Panic) as Hn.
  { intros limit. specialize (Hd limit 0 l). by destruct (parse_digits limit 0 l). }
  repeat case_match; try done; apply Hd || apply Hn.
Qed.

(** ** Lines and words *)

(** [str::split_inclusive] with a character *)
Fixpoint split_inclusive_chars (sep : ascii) (l : list ascii) : list (list ascii) :=
  match l with
  | [] => []
  | c :: l =>
      if Ascii.eqb c sep then [c] :: split_inclusive_chars sep l
      else match split_inclusive_chars sep l with
           | piece :: pieces => (c :: piece) :: pieces
           | [] => [[c]]
           end
  end.

Definition split_inclusive (sep : ascii) (s : string) : list string :=
  map of_chars (split_inclusive_chars sep (chars s)).

Definition LF : ascii := "010"%char.
Definition CR : ascii := "013"%char.

(** Remove one character at the end, if it is there. *)
Definition strip_last (c : ascii) (l : list ascii) : option (list ascii) :=
  match last l with
  | Some d => if Ascii.eqb c d then Some (take (length l - 1) l) else None
  | None => None
  end.

(** A line without its line ending, ["\n"] or ["\r\n"] *)
Definition strip_eol (l : list ascii) : list ascii :=
  match strip_last LF l with
  | Some l => default l (strip_last CR l)
  | None => l
  end.

(** [str::lines] *)
Definition lines (s : string) : list string :=
  map (of_chars ∘ strip_eol) (split_inclusive_chars LF (chars s)).

(** ** Characters

    A string is its UTF-8 encoding; a character of it is a byte with the continuation
    bytes (those of the form [10xxxxxx]) that follow it. *)
Definition byte_code (c : ascii) : Z := Z.of_nat (nat_of_ascii c).

Definition continuation (c : ascii) : bool := (128 <=? byte_code c) && (byte_code c <? 192).

Fixpoint char_bytes (l : list ascii) : list (list ascii) :=
  match l with
  | [] => []
  | c :: l =>
      match char_bytes l with
      | (d :: g) :: gs => if continuation d then (c :: d :: g) :: gs else [c] :: (d :: g) :: gs
      | _ => [[c]]
      end
  end.

Definition code_point (g : list ascii) : Z :=
  match map byte_code g with
  | [a] => a
  | [a; b] => (a - 192) * 64 + (b - 128)
  | [a; b; c] => (a - 224) * 4096 + (b - 128) * 64 + (c - 128)
  | [a; b; c; d] => (a - 240) * 262144 + (b - 128) * 4096 + (c - 128) * 64 + (d - 128)
  | _ => 65533
  end.

(** [str::chars] *)
Definition code_points (s : string) : list Z := code_point <$> char_bytes (chars s).

(** The characters with the Unicode property [White_Space] *)
Definition white_space : list Z :=
  [9; 10; 11; 12; 13; 32; 133; 160; 5760; 8192; 8193; 8194; 8195; 8196; 8197; 8198; 8199; 8200;
   8201; 8202; 8232; 8233; 8239; 8287; 12288].

(** [char::is_whitespace] *)
Definition is_whitespace (g : list ascii) : bool := bool_decide (code_point g ∈ white_space).

(** [u8::is_ascii_whitespace] *)
Definition is_ascii_whitespace (c : ascii) : bool := bool_decide (byte_code c ∈ [9; 10; 12; 13; 32]).

Fixpoint words_chars {A} (ws : A → bool) (cur : list A) (l : list A) : list (list A) :=
  match l with
  | [] => if decide (cur = []) then [] else [rev cur]
  | c :: l =>
      if ws c then
        if decide (cur = []) then words_chars ws [] l else rev cur :: words_chars ws [] l
      else words_chars ws (c :: cur) l
  end.

(** [str::split_whitespace], [str::split_ascii_whitespace] *)
Definition split_whitespace (s : string) : list string :=
  map (of_chars ∘ mjoin) (words_chars is_whitespace [] (char_bytes (chars s))).

Definition split_ascii_whitespace (s : string) : list string :=
  map of_chars (words_chars is_ascii_whitespace [] (chars s)).

Fixpoint drop_while {A} (f : A → bool) (l : list A) : list A :=
  match l with [] => [] | c :: l' => if f c then drop_while f l' else l end.

Fixpoint take_while (f : ascii → bool) (l : list ascii) : list ascii :=
  match l with [] => [] | c :: l => if f c then c :: take_while f l else [] end.

(** [str::trim] *)
Definition trim (s : string) : string :=
  of_chars (mjoin (rev (drop_while is_whitespace (rev (drop_while is_whitespace (char_bytes (chars s))))))).

(** [str::split_terminator]: an empty last piece is dropped. *)
Definition split_terminator (sep : ascii) (s : string) : list string :=
  let l := split_on sep s in
  if bool_decide (last l = Some "") then removelast l else l.

(** [str::contains] with a character *)
Definition contains_char (c : ascii) (s : string) : bool := bool_decide (c ∈ chars s).

(** [str::ends_with] *)
Definition ends_with (suffix s : string) : bool :=
  bool_decide (drop (String.length s - String.length suffix) (chars s) = chars suffix).

(** [str::split_once] with a character *)
Fixpoint split_once_chars (sep : ascii) (l : list ascii) : option (list ascii * list ascii) :=
  match l with
  | [] => None
  | c :: l =>
      if Ascii.eqb c sep then Some ([], l)
      else match split_once_chars sep l with Some (a, b) => Some (c :: a, b) | None => None end
  end.

Definition split_once (sep : ascii) (s : string) : option (string * string) :=
  match split_once_chars sep (chars s) with
  | Some (a, b) => Some (of_chars a, of_chars b)
  | None => None
  end.

(** The pieces of [split_inclusive] make up the text. *)
Lemma concat_split_inclusive_chars sep l : concat (split_inclusive_chars sep l) = l.
Proof.
  induction l as [|c l IH]; [done|]. cbn. destruct (Ascii.eqb c sep); [cbn; by rewrite IH|].
  destruct (split_inclusive_chars sep l) as [|p ps]; cbn in *; by rewrite IH.
Qed.

(** Each piece of [split_inclusive] has the separator at its end or nowhere. *)
Lemma split_inclusive_chars_piece sep l p i :
  p ∈ split_inclusive_chars sep l → p !! i = Some sep → S i = length p.
Proof.
  revert p i. induction l as [|c l IH]; intros p i Hp Hi; cbn in Hp; [set_solver|].
  destruct (Ascii.eqb_spec c sep) as [->|Hc].
  - apply elem_of_cons in Hp as [->|Hp]; [|by eapply IH]. destruct i; [done|by destruct i].
  - destruct (split_inclusive_chars sep l) as [|q qs].
    { apply list_elem_of_singleton in Hp as ->. destruct i; [cbn in Hi; congruence|by destruct i]. }
    apply elem_of_cons in Hp as [->|Hp]; [|eapply IH; [|done]; set_solver].
    destruct i as [|i]; [cbn in Hi; congruence|]. cbn in *. f_equal. eapply IH; [|done].
    set_solver.
Qed.

(** ** Printing lines and words *)

(** Lines, each with its line feed. *)
Fixpoint unlines (ls : list string) : string :=
  match ls with [] => "" | l :: ls => l +:+ String LF (unlines ls) end.

(** A text that is one line: without line feeds, and no carriage return at its end. *)
Definition one_line (l : list ascii) : Prop := (LF ∉ l) ∧ last l ≠ Some CR.

Lemma split_inclusive_line l rest :
  LF ∉ l → split_inclusive_chars LF (l ++ (LF :: rest)) = (l ++ [LF]) :: split_inclusive_chars LF rest.
Proof.
  induction l as [|c l IH]; intros Hl; [done|]. cbn [app split_inclusive_chars].
  destruct (Ascii.eqb_spec c LF) as [->|]; [set_solver|]. rewrite IH by set_solver. done.
Qed.

Lemma strip_eol_line l : last l ≠ Some CR → strip_eol (l ++ [LF]) = l.
Proof.
  intros Hl. unfold strip_eol, strip_last at 1. rewrite last_snoc, length_app, Nat.add_sub, take_app_length.
  cbn. unfold strip_last. destruct (last l) as [c|] eqn:Hc; [|done].
  destruct (Ascii.eqb_spec CR c) as [<-|]; [done|done].
Qed.

Lemma lines_unlines ls : Forall (one_line ∘ chars) ls → lines (unlines ls) = ls.
Proof.
  induction 1 as [|l ls [H1 H2] _ IH]; [done|]. unfold lines in *. cbn [unlines].
  rewrite chars_app. change (chars (String LF (unlines ls))) with (LF :: chars (unlines ls)).
  rewrite split_inclusive_line by done. cbn [map]. rewrite IH. unfold compose at 1.
  by rewrite strip_eol_line, of_chars_chars.
Qed.

(** A word: not empty, without white space. *)
Definition word (s : string) : Prop := s ≠ "" ∧ Forall (λ c, is_ascii_whitespace c = false) (chars s).

Lemma words_chars_app {A} (ws : A → bool) cur l rest :
  Forall (λ c, ws c = false) l → words_chars ws cur (l ++ rest) = words_chars ws (rev l ++ cur) rest.
Proof.
  intros Hl. revert cur. induction Hl as [|c l Hc Hl IH]; intros cur; [done|].
  cbn [app words_chars]. rewrite Hc, IH. cbn. by rewrite <- app_assoc.
Qed.

Lemma chars_empty s : s ≠ "" → rev (chars s) ++ [] ≠ [].
Proof.
  intros Hs. rewrite app_nil_r. destruct s as [|c s]; [done|]. cbn. intros Hn%(f_equal length).
  rewrite length_app in Hn. cbn in Hn. lia.
Qed.

Lemma rev_chars s : of_chars (rev (rev (chars s) ++ [])) = s.
Proof. by rewrite app_nil_r, rev_involutive, of_chars_chars. Qed.

Lemma split_words ws : Forall word ws → split_ascii_whitespace (String.concat " " ws) = ws.
Proof.
  induction 1 as [|a ws [Ha1 Ha2] Hws IH]; [done|]. unfold split_ascii_whitespace in *. destruct ws as [|b ws].
  - cbn [String.concat]. rewrite <- (app_nil_r (chars a)), words_chars_app by done.
    cbn [words_chars]. rewrite decide_False by (by apply chars_empty). cbn [map]. by rewrite rev_chars.
  - change (String.concat " " (a :: b :: ws)) with (a +:+ " " +:+ String.concat " " (b :: ws)).
    rewrite !chars_app, words_chars_app by done.
    change (chars " ") with [" "%char]. cbn [app words_chars].
    change (is_ascii_whitespace " ") with true. cbv iota.
    rewrite decide_False by (by apply chars_empty). cbn [map]. by rewrite rev_chars, IH.
Qed.

Lemma digit_not_white c : is_Some (digit c) → is_ascii_whitespace c = false.
Proof. intros [d Hd]. revert Hd. by destruct c as [[] [] [] [] [] [] [] []]. Qed.

Lemma pretty_nonneg z : 0 ≤ z → pretty z = pretty (Z.to_N z).
Proof. by destruct z. Qed.

Lemma pretty_word z : 0 ≤ z → word (pretty z).
Proof.
  intros Hz. rewrite pretty_nonneg by done. split; [apply pretty_N_nonempty|].
  eapply Forall_impl; [apply pretty_N_digits|]. apply digit_not_white.
Qed.

Lemma parse_unsigned_pretty_Z w z : in_u w z → parse_unsigned w (pretty z) = Ok z.
Proof.
  intros [H0 H1]. rewrite pretty_nonneg by done. rewrite parse_unsigned_pretty; rewrite Z2N.id by done; done.
Qed.

(** A line of words is one line. *)
Lemma words_one_line ws : Forall word ws → one_line (chars (String.concat " " ws)).
Proof.
  intros Hws. assert (Forall (λ c, c ≠ LF ∧ c ≠ CR) (chars (String.concat " " ws))) as Hf.
  { assert (∀ c, is_ascii_whitespace c = false → c ≠ LF ∧ c ≠ CR) as Hc by (intros c Hc; split; by intros ->).
    induction Hws as [|a ws [_ Ha] Hws IH]; [constructor|]. destruct ws as [|b ws].
    - eapply Forall_impl; [exact Ha|]. done.
    - change (String.concat " " (a :: b :: ws)) with (a +:+ " " +:+ String.concat " " (b :: ws)).
      rewrite !chars_app. apply Forall_app. split; [by eapply Forall_impl|]. by constructor. }
  split.
  - intros Hin. rewrite Forall_forall in Hf. by apply Hf in Hin as [? _].
  - intros Hl%last_Some_elem_of. rewrite Forall_forall in Hf. by apply Hf in Hl as [_ ?].
Qed.

(** ** Text of ASCII characters *)

Definition is_ascii (c : ascii) : Prop := byte_code c < 128.

Lemma ascii_continuation c : is_ascii c → continuation c = false.
Proof. unfold is_ascii, continuation. intros Hc. by rewrite (proj2 (Z.leb_gt _ _)). Qed.

Lemma char_bytes_ascii l : Forall is_ascii l → char_bytes l = (λ c, [c]) <$> l.
Proof.
  induction 1 as [|c l Hc Hl IH]; [done|]. cbn [char_bytes]. rewrite IH.
  destruct Hl as [|d l Hd Hl]; [done|]. cbn. by rewrite ascii_continuation.
Qed.

Lemma concat_singletons {A} (l : list A) : mjoin ((λ c, [c]) <$> l) = l.
Proof. induction l as [|c l IH]; [done|]. cbn. by f_equal. Qed.

Lemma char_bytes_cons c l : ∃ g gs, char_bytes (c :: l) = (c :: g) :: gs.
Proof. cbn [char_bytes]. destruct (char_bytes l) as [|[|d g] gs]; [|..|destruct (continuation d)]; eauto. Qed.

Lemma digit_ascii c : is_Some (digit c) → is_ascii c ∧ is_whitespace [c] = false.
Proof. intros [d Hd]. revert Hd. by destruct c as [[] [] [] [] [] [] [] []]. Qed.

(** ** Decoding undoes encoding *)

(** [char::encode_utf8] *)
Definition encode_char (z : Z) : list ascii :=
  let byte n := ascii_of_nat (Z.to_nat n) in
  if z <? 128 then [byte z]
  else if z <? 2048 then [byte (192 + z / 64); byte (128 + z mod 64)]
  else if z <? 65536 then [byte (224 + z / 4096); byte (128 + z / 64 mod 64); byte (128 + z mod 64)]
  else [byte (240 + z / 262144); byte (128 + z / 4096 mod 64); byte (128 + z / 64 mod 64); byte (128 + z mod 64)].

Lemma byte_code_ascii n : 0 ≤ n < 256 → byte_code (ascii_of_nat (Z.to_nat n)) = n.
Proof. intros Hn. unfold byte_code. rewrite nat_ascii_embedding by lia. lia. Qed.

Lemma encode_char_spec z : 0 ≤ z < 1114112 →
  ∃ c l, encode_char z = c :: l ∧ continuation c = false ∧ Forall (λ d, continuation d = true) l ∧
    code_point (c :: l) = z.
Proof.
  intros Hz. unfold encode_char.
  assert (∀ n, continuation (ascii_of_nat (Z.to_nat (128 + n mod 64))) = true) as Hcont.
  { intros n. unfold continuation. rewrite byte_code_ascii by (Z.to_euclidean_division_equations; lia).
    Z.to_euclidean_division_equations; lia. }
  destruct (Z.ltb_spec z 128); [|destruct (Z.ltb_spec z 2048); [|destruct (Z.ltb_spec z 65536)]];
    do 2 eexists; (split; [reflexivity|]); unfold continuation at 1, code_point; cbn [map];
    rewrite !byte_code_ascii by (Z.to_euclidean_division_equations; lia);
    (split; [Z.to_euclidean_division_equations; lia|]);
    (split; [by repeat (constructor; [apply Hcont|])|Z.to_euclidean_division_equations; lia]).
Qed.

Lemma char_bytes_group c l rest :
  Forall (λ d, continuation d = true) l → (∀ d, head rest = Some d → continuation d = false) →
  char_bytes (c :: l ++ rest) = (c :: l) :: char_bytes rest.
Proof.
  intros Hl Hr. revert c. induction Hl as [|d l Hd Hl IH]; intros c.
  - cbn [app]. destruct rest as [|d rest]; [done|]. pose proof (Hr d eq_refl) as Hd.
    destruct (char_bytes_cons d rest) as (g & gs & Hg). cbn [char_bytes] in *. by rewrite Hg, Hd.
  - change (char_bytes (c :: (d :: l) ++ rest)) with
      (match char_bytes (d :: l ++ rest) with
       | (d :: g) :: gs => if continuation d then (c :: d :: g) :: gs else [c] :: (d :: g) :: gs | _ => [[c]] end).
    by rewrite IH, Hd.
Qed.

(** The characters of an encoded text are the characters that were encoded. *)
Lemma code_points_encode zs :
  Forall (λ z, 0 ≤ z < 1114112) zs → code_points (of_chars (mjoin (encode_char <$> zs))) = zs.
Proof.
  unfold code_points. rewrite chars_of_chars. induction 1 as [|z zs Hz Hzs IH]; [done|].
  destruct (encode_char_spec z Hz) as (c & l & Heq & _ & Hl & Hcode). rewrite fmap_cons, Heq. cbn [mjoin list_join app].
  rewrite char_bytes_group; [|done|].
  - cbn. f_equal; [done|]. exact IH.
  - intros d. destruct Hzs as [|z' zs Hz' Hzs]; [done|].
    destruct (encode_char_spec z' Hz') as (c' & l' & Heq' & Hc' & _). cbn. rewrite Heq'. by intros [= <-].
Qed.
