(* ===== verification/Paths.v ===== *)
(** * Paths: cgroup paths that stay below their root

    Models the path handling of [crates/libcgroups/src/common.rs]
    ([clean_cgroup_path], [PathBufExt::join_safely]) and of the systemd manager
    ([CgroupsPath], [expand_slice], [construct_cgroups_path] of
    [systemd/manager.rs]).

    A [Path] is the list of its components, which is the equality that Rust's
    [Path] has ([a//b] and [a/./b/] are the path [a/b]); [components] reads the
    components off a string. *)
From S2P Require Import Prelude Text.
Local Open Scope string_scope.
Local Open Scope list_scope.

(** ** Rust's paths *)

Inductive Component : Type := RootDir | CurDir | ParentDir | Normal (name : string).

#[global] Instance Component_eq_dec : EqDecision Component.
Proof. solve_decision. Defined.

#[global] Instance Component_countable : Countable Component.
Proof.
  refine (inj_countable'
    (λ c, match c with
          | RootDir => inl 0%nat | CurDir => inl 1%nat | ParentDir => inl 2%nat
          | Normal s => inr s end)
    (λ x, match x with
          | inl 0%nat => RootDir | inl 1%nat => CurDir | inl _ => ParentDir
          | inr s => Normal s end) _).
  by intros [].
Defined.

Abbreviation Path := (list Component).

(** The component that a piece of a path string stands for, if any. *)
Definition piece_component (s : string) : option Component :=
  if bool_decide (s = "") || bool_decide (s = ".") then None
  else if bool_decide (s = "..") then Some ParentDir else Some (Normal s).

(** [Path::components] *)
Definition components (s : string) : Path :=
  match split_on "/"%char s with
  | [] => []
  | p :: ps =>
      (if bool_decide (p = "") then (if bool_decide (ps = []) then [] else [RootDir])
       else if bool_decide (p = ".") then [CurDir]
       else option_list (piece_component p))
      ++ omap piece_component ps
  end.

Definition has_root (p : Path) : bool := bool_decide (head p = Some RootDir).

(** [Path::join] and [PathBuf::push]: an absolute path replaces. *)
Definition join (p q : Path) : Path :=
  if has_root q then q
  else p ++ (if bool_decide (p = []) then q else filter (λ c, c ≠ CurDir) q).

(** [PathBuf::pop]: only the root and the empty path have no parent. *)
Definition pop (p : Path) : Path :=
  match last p with
  | Some RootDir | None => p
  | Some _ => take (length p - 1) p
  end.

(** [Path::parent] *)
Definition parent (p : Path) : option Path :=
  match last p with
  | Some RootDir | None => None
  | Some _ => Some (take (length p - 1) p)
  end.

(** [Path::strip_prefix] *)
Fixpoint strip_path_prefix (base p : Path) : option Path :=
  match base, p with
  | [], _ => Some p
  | c :: base, d :: p => if decide (c = d) then strip_path_prefix base p else None
  | _ :: _, [] => None
  end.

(** ** [common.rs] *)

Inductive JoinSafelyError : Type := StripPrefix (path : Path).

Definition clean_step (cleaned : Path) (component : Component) : Path :=
  match component with
  | RootDir => join cleaned [RootDir]
  | ParentDir => pop cleaned
  | Normal c => join cleaned [Normal c]
  | CurDir => cleaned
  end.

Definition clean_cgroup_path (path : Path) : Path := foldl clean_step [] path.

Definition join_safely (self path : Path) : outcome JoinSafelyError Path :=
  let path := clean_cgroup_path path in
  if negb (has_root path) then Ok (join self path)
  else
    stripped ← ok_or (strip_path_prefix [RootDir] path) (StripPrefix path);
    Ok (join self stripped).

(** ** [systemd/manager.rs] *)

Record CgroupsPath : Type := MkCgroupsPath {
  cp_parent : string; cp_prefix : string; cp_name : string }.

Inductive CgroupsPathError : Type := NoPath | MalformedPath (path : string).

Inductive PathManagerError : Type :=
  | CgroupsPathErr (e : CgroupsPathError)
  | InvalidSliceName (slice : string)
  | JoinSafely (e : JoinSafelyError).

(** [TryFrom<&Path> for CgroupsPath].  A [string] is valid UTF-8, so the error
    for other paths does not arise. *)
Definition cgroups_path_try_from (cgroups_path : string) :
    outcome CgroupsPathError CgroupsPath :=
  if (String.length cgroups_path =? 0)%nat then Err NoPath
  else
    match split_on ":"%char cgroups_path with
    | [p0; p1] => Ok {| cp_parent := ""; cp_prefix := p0; cp_name := p1 |}
    | [p0; p1; p2] => Ok {| cp_parent := p0; cp_prefix := p1; cp_name := p2 |}
    | _ => Err (MalformedPath cgroups_path)
    end.

(** [Display for CgroupsPath] *)
Definition cgroups_path_fmt (p : CgroupsPath) : string :=
  cp_parent p +:+ ":" +:+ cp_prefix p +:+ ":" +:+ cp_name p.

Definition ensure_parent_unit (p : CgroupsPath) (use_system : bool) : CgroupsPath :=
  if (String.length (cp_parent p) =? 0)%nat then
    {| cp_parent := if use_system then "system.slice" else "user.slice";
       cp_prefix := cp_prefix p; cp_name := cp_name p |}
  else p.

(** [str::find] and [str::split_at]: the separator stays with the rest. *)
Fixpoint split_at_char (c : ascii) (l : list ascii) : list ascii * list ascii :=
  match l with
  | [] => ([], [])
  | d :: l' =>
      if Ascii.eqb d c then ([], l) else (d :: (split_at_char c l').1, (split_at_char c l').2)
  end.

Definition split_sub_cgroup (name : string) : string * string :=
  let '(a, b) := split_at_char "/"%char (chars name) in (of_chars a, of_chars b).

Definition get_unit_name (p : CgroupsPath) : string :=
  if negb (ends_with ".slice" (cp_name p)) then
    cp_prefix p +:+ "-" +:+ cp_name p +:+ ".scope"
  else cp_name p.

(** [str::trim_end_matches]: the suffix as often as it is there. *)
Fixpoint trim_end_matches (fuel : nat) (suffix s : string) : string :=
  match fuel with
  | O => s
  | S fuel =>
      if ends_with suffix s
      then trim_end_matches fuel suffix
             (of_chars (take (String.length s - String.length suffix) (chars s)))
      else s
  end.

Definition SUFFIX : string := ".slice".

Fixpoint expand_components (slice path prefix : string) (cs : list string) :
    outcome PathManagerError string :=
  match cs with
  | [] => Ok path
  | component :: cs =>
      if bool_decide (component = "") then Err (InvalidSliceName slice)
      else expand_components slice (path +:+ "/" +:+ prefix +:+ component +:+ SUFFIX)
             (prefix +:+ component +:+ "-") cs
  end.

Definition expand_slice (slice : string) : outcome PathManagerError Path :=
  if (String.length slice <=? String.length SUFFIX)%nat || negb (ends_with SUFFIX slice) then
    Err (InvalidSliceName slice)
  else if contains_char "/"%char slice then Err (InvalidSliceName slice)
  else
    let slice_name := trim_end_matches (String.length slice) SUFFIX slice in
    if bool_decide (slice_name = "-") then Ok [RootDir]
    else
      path ← expand_components slice "" "" (split_on "-"%char slice_name);
      Ok (components path).

(** The control group of systemd is what [control_cgroup_root] returned. *)
Definition construct_cgroups_path (cgroups_path : CgroupsPath) (systemd_root : Path)
    (sub_cgroup : string) : outcome PathManagerError (Path * Path) :=
  parent ← expand_slice (cp_parent cgroups_path);
  let unit_name := get_unit_name cgroups_path in
  p ← map_err JoinSafely (join_safely systemd_root parent);
  p ← map_err JoinSafely (join_safely p (components unit_name));
  p ← map_err JoinSafely (join_safely p (components sub_cgroup));
  Ok (p, systemd_root).

(** ** Staying below the root *)

(** Where a path leads in a tree whose root cannot be left: the names from the
    root down to the place that is reached from [at_] by following the path. *)
Definition walk_step (at_ : list string) (c : Component) : list string :=
  match c with
  | RootDir => []
  | CurDir => at_
  | ParentDir => take (length at_ - 1) at_
  | Normal n => at_ ++ [n]
  end.

Definition walk (at_ : list string) (p : Path) : list string := foldl walk_step at_ p.

Definition root_of (b : bool) : Path := if b then [RootDir] else [].

Lemma last_map_Normal b names :
  last (root_of b ++ fmap Normal names) =
    match last names with
    | Some n => Some (Normal n)
    | None => if b then Some RootDir else None
    end.
Proof.
  rewrite last_app, fmap_last.
  destruct (last names); [done|by destruct b].
Qed.

Lemma pop_names b names :
  pop (root_of b ++ fmap Normal names) =
    root_of b ++ fmap Normal (take (length names - 1) names).
Proof.
  unfold pop. rewrite last_map_Normal. destruct (last names) as [n|] eqn:Hn.
  - apply last_Some in Hn as [l ->]. rewrite fmap_app, app_assoc.
    rewrite take_app_length' by (rewrite !length_app; cbn; lia).
    by rewrite take_app_length' by (rewrite length_app; cbn; lia).
  - apply last_None in Hn as ->. by destruct b.
Qed.

Lemma join_name p n : join p [Normal n] = p ++ [Normal n].
Proof. unfold join. cbn. by destruct (bool_decide _). Qed.

(** One step of cleaning follows the path. *)
Lemma clean_step_names b names c :
  clean_step (root_of b ++ fmap Normal names) c =
    root_of (b || bool_decide (c = RootDir)) ++ fmap Normal (walk_step names c).
Proof.
  destruct c; cbn [clean_step walk_step].
  - rewrite orb_true_r. done.
  - by rewrite orb_false_r.
  - by rewrite pop_names, orb_false_r.
  - by rewrite join_name, fmap_app, app_assoc, orb_false_r.
Qed.

Lemma clean_names b names p :
  foldl clean_step (root_of b ++ fmap Normal names) p =
    root_of (b || bool_decide (RootDir ∈ p)) ++ fmap Normal (walk names p).
Proof.
  revert b names. induction p as [|c p IH]; intros b names; cbn [foldl walk].
  { by rewrite bool_decide_eq_false_2, orb_false_r by set_solver. }
  rewrite clean_step_names, IH, <- orb_assoc. do 3 f_equal.
  destruct c; cbn; repeat case_bool_decide; set_solver.
Qed.

(** What [clean_cgroup_path] leaves: names, below the root if the path was
    absolute. *)
Lemma clean_cgroup_path_names p :
  clean_cgroup_path p = root_of (bool_decide (RootDir ∈ p)) ++ fmap Normal (walk [] p).
Proof. exact (clean_names false [] p). Qed.

Lemma join_names p names : join p (fmap Normal names) = p ++ fmap Normal names.
Proof.
  unfold join, has_root. rewrite bool_decide_eq_false_2 by (by destruct names).
  case_bool_decide; [done|]. f_equal. clear.
  induction names as [|n names IH]; [done|]. by rewrite fmap_cons, filter_cons_True, IH by done.
Qed.

Lemma join_safely_names root p : join_safely root p = Ok (root ++ fmap Normal (walk [] p)).
Proof.
  unfold join_safely. rewrite clean_cgroup_path_names.
  destruct (bool_decide (RootDir ∈ p)).
  - change (has_root (root_of true ++ _)) with true.
    change (strip_path_prefix _ _) with (Some (Normal <$> walk [] p)).
    cbn [negb ok_or]. run. f_equal. apply join_names.
  - unfold has_root. rewrite bool_decide_eq_false_2 by (by destruct (walk [] p)).
    f_equal. apply join_names.
Qed.

(** Names as a path lead where they say. *)
Lemma walk_names at_ names : walk at_ (fmap Normal names) = at_ ++ names.
Proof.
  revert at_. induction names as [|n names IH]; intros at_; [by rewrite app_nil_r|].
  cbn. unfold walk in IH. by rewrite IH, <- app_assoc.
Qed.

Lemma strip_path_prefix_app base p : strip_path_prefix base (base ++ p) = Some p.
Proof. induction base as [|c base IH]; [done|]. cbn. by rewrite decide_True. Qed.

Lemma walk_clean p : walk [] (clean_cgroup_path p) = walk [] p.
Proof.
  rewrite clean_cgroup_path_names. unfold walk at 1. rewrite foldl_app.
  replace (foldl walk_step [] (root_of _)) with (@nil string)
    by (by destruct (bool_decide (RootDir ∈ p))).
  exact (walk_names [] (walk [] p)).
Qed.

(** C8: a cgroup path cannot escape its root.  [join_safely] always succeeds, and
    whatever the path is, with any number of [..] and absolute or not, the
    result is the root followed by plain names: the place that the path reaches
    in a tree whose root cannot be left.  Cleaning it again changes nothing. *)
Theorem join_safely_contained root p :
  join_safely root p = Ok (root ++ fmap Normal (walk [] p)) ∧
  clean_cgroup_path (clean_cgroup_path p) = clean_cgroup_path p.
Proof.
  split; [apply join_safely_names|]. rewrite !clean_cgroup_path_names. f_equal.
  - destruct (bool_decide (RootDir ∈ p)); cbn; [done|].
    rewrite bool_decide_eq_false_2; [done|]. intros (n & ? & _)%list_elem_of_fmap. done.
  - f_equal. rewrite <- clean_cgroup_path_names. apply walk_clean.
Qed.

(** ** Splitting what has been put together *)

Lemma split_chars_none sep l : sep ∉ l → split_chars sep l = [l].
Proof.
  induction l as [|c l IH]; intros Hl; [done|]. cbn.
  destruct (Ascii.eqb_spec c sep) as [->|]; [set_solver|]. rewrite IH by set_solver. done.
Qed.

Lemma split_chars_app sep p l :
  sep ∉ p → split_chars sep (p ++ sep :: l) = p :: split_chars sep l.
Proof.
  induction p as [|c p IH]; intros Hp; cbn; [by rewrite Ascii.eqb_refl|].
  destruct (Ascii.eqb_spec c sep) as [->|]; [set_solver|]. rewrite IH by set_solver. done.
Qed.

(** Split pieces that hold no separator. *)
Lemma split_on_none sep s : sep ∉ chars s → split_on sep s = [s].
Proof.
  intros Hs. unfold split_on. rewrite split_chars_none by done. cbn. by rewrite of_chars_chars.
Qed.

Lemma split_on_app sep p s :
  sep ∉ chars p → split_on sep (p +:+ String sep s) = p :: split_on sep s.
Proof.
  intros Hp. unfold split_on. rewrite chars_app. cbn [chars].
  rewrite split_chars_app by done. cbn. by rewrite of_chars_chars.
Qed.

(** A systemd cgroups path survives printing.  Reading what [Display] prints
    for a [CgroupsPath] gives the same slice, prefix and name, as long as none
    of them contains a colon. *)
Theorem cgroups_path_roundtrip p :
  ":"%char ∉ chars (cp_parent p) → ":"%char ∉ chars (cp_prefix p) →
  ":"%char ∉ chars (cp_name p) →
  cgroups_path_try_from (cgroups_path_fmt p) = Ok p.
Proof.
  destruct p as [parent prefix name]. cbn [cp_parent cp_prefix cp_name].
  intros H1 H2 H3. unfold cgroups_path_try_from, cgroups_path_fmt. cbn [cp_parent cp_prefix cp_name].
  replace (String.length _ =? 0)%nat with false by (destruct parent; done).
  change (":" +:+ ?s) with (String ":"%char s). rewrite split_on_app by done.
  change (":" +:+ ?s) with (String ":"%char s). by rewrite split_on_app, split_on_none by done.
Qed.

Lemma cgroups_path_roundtrip_witness :
  cgroups_path_try_from "machine.slice:libpod:4711" =
    Ok (MkCgroupsPath "machine.slice" "libpod" "4711").
Proof.
  apply (cgroups_path_roundtrip (MkCgroupsPath "machine.slice" "libpod" "4711"));
    cbn; set_solver by done.
Defined.

(** ** Slices *)

(** The slices from the top down to the slice with components [cs]. *)
Fixpoint expansions (prefix : string) (cs : list string) : list string :=
  match cs with
  | [] => []
  | c :: cs => (prefix +:+ c +:+ SUFFIX) :: expansions (prefix +:+ c +:+ "-") cs
  end.

Fixpoint path_of (ps : list string) : string :=
  match ps with [] => "" | p :: ps => "/" +:+ p +:+ path_of ps end.

Lemma string_app_nil s : s +:+ "" = s.
Proof. induction s as [|c s IH]; [done|]. exact (f_equal (String c) IH). Qed.

Lemma string_app_assoc s t u : (s +:+ t) +:+ u = s +:+ t +:+ u.
Proof. induction s as [|c s IH]; [done|]. exact (f_equal (String c) IH). Qed.

Lemma expand_components_expansions slice path prefix cs :
  Forall (λ c, c ≠ "") cs →
  expand_components slice path prefix cs = Ok (path +:+ path_of (expansions prefix cs)).
Proof.
  intros Hcs. revert path prefix. induction Hcs as [|c cs Hc Hcs IH]; intros path prefix; cbn.
  { by rewrite string_app_nil. }
  rewrite bool_decide_eq_false_2, IH by done. f_equal. by rewrite !string_app_assoc.
Qed.

(** A name that is a single path component. *)
Definition is_name (n : string) : Prop := piece_component n = Some (Normal n) ∧ "/"%char ∉ chars n.

Lemma split_path_of p ps :
  "/"%char ∉ chars p → Forall is_name ps →
  split_on "/"%char (p +:+ path_of ps) = p :: ps.
Proof.
  intros Hp Hps. revert p Hp. induction Hps as [|q ps [_ Hq] Hps IH]; intros p Hp; cbn [path_of].
  - by rewrite string_app_nil, split_on_none.
  - change ("/" +:+ ?s) with (String "/"%char s). by rewrite split_on_app, IH.
Qed.

(** Reading the components of a path that was put together from names. *)
Lemma components_path_of ps :
  Forall is_name ps → ps ≠ [] → components (path_of ps) = RootDir :: fmap Normal ps.
Proof.
  intros Hps Hne. unfold components.
  change (path_of ps) with ("" +:+ path_of ps). rewrite split_path_of by (done || set_solver).
  rewrite (bool_decide_eq_true_2 ("" = "")), (bool_decide_eq_false_2 (ps = [])) by done.
  cbn [app]. f_equal. clear Hne.
  induction Hps as [|p ps [Hp _] Hps IH]; [done|]. cbn. rewrite Hp. cbn. f_equal. apply IH.
Qed.

Definition slice_component (c : string) : Prop :=
  c ≠ "" ∧ ("-"%char ∉ chars c) ∧ ("/"%char ∉ chars c).

Definition slice_of (cs : list string) : string := String.concat "-" cs +:+ SUFFIX.

Lemma concat_cons c d cs :
  String.concat "-" (c :: d :: cs) = c +:+ String "-"%char (String.concat "-" (d :: cs)).
Proof. done. Qed.

Lemma split_concat cs :
  cs ≠ [] → Forall slice_component cs → split_on "-"%char (String.concat "-" cs) = cs.
Proof.
  intros Hne Hcs. induction Hcs as [|c cs (_ & Hc & _) Hcs IH]; [done|].
  destruct cs as [|d cs]; [by apply split_on_none|].
  by rewrite concat_cons, split_on_app, IH by done.
Qed.

Lemma concat_no_slash cs :
  Forall slice_component cs → "/"%char ∉ chars (String.concat "-" cs).
Proof.
  induction 1 as [|c cs (_ & _ & Hc) Hcs IH]; [set_solver|].
  destruct cs as [|d cs]; [done|]. rewrite concat_cons, chars_app. cbn [chars].
  rewrite elem_of_app, elem_of_cons. intuition discriminate.
Qed.

Lemma length_chars s : length (chars s) = String.length s.
Proof. induction s; cbn; auto. Qed.

Lemma length_append s t : String.length (s +:+ t) = (String.length s + String.length t)%nat.
Proof. by rewrite <- !length_chars, chars_app, length_app. Qed.

Lemma drop_suffix s t :
  drop (String.length (s +:+ t) - String.length t) (chars (s +:+ t)) = chars t ∧
  take (String.length (s +:+ t) - String.length t) (chars (s +:+ t)) = chars s.
Proof.
  rewrite length_append, Nat.add_sub, <- length_chars, chars_app.
  by rewrite drop_app_length, take_app_length.
Qed.

Lemma ends_with_app s t : ends_with t (s +:+ t) = true.
Proof. apply bool_decide_eq_true_2, drop_suffix. Qed.

Lemma trim_end_matches_once fuel s t :
  (1 < fuel)%nat → ends_with t s = false → trim_end_matches fuel t (s +:+ t) = s.
Proof.
  intros Hf Hs. destruct fuel as [|[|fuel]]; [lia..|]. cbn [trim_end_matches].
  rewrite ends_with_app. destruct (drop_suffix s t) as [_ ->].
  by rewrite of_chars_chars, Hs.
Qed.

Lemma long_name_is_name n :
  (2 < String.length n)%nat → "/"%char ∉ chars n → is_name n.
Proof.
  intros Hn Hs. split; [|done]. unfold piece_component.
  rewrite !bool_decide_eq_false_2; [done|..]; intros ->; cbn in Hn; lia.
Qed.

Lemma expansions_names prefix cs :
  "/"%char ∉ chars prefix → Forall slice_component cs →
  Forall is_name (expansions prefix cs).
Proof.
  intros Hp Hcs. revert prefix Hp.
  induction Hcs as [|c cs (_ & _ & Hc) Hcs IH]; intros prefix Hp; [constructor|].
  cbn. constructor.
  - apply long_name_is_name; [rewrite !length_append; cbn; lia|].
    rewrite !chars_app, !elem_of_app. cbn. set_solver by done.
  - apply IH. rewrite !chars_app, !elem_of_app. cbn. set_solver by done.
Qed.

Lemma expansions_last prefix cs :
  cs ≠ [] → last (expansions prefix cs) = Some (prefix +:+ slice_of cs).
Proof.
  revert prefix. induction cs as [|c cs IH]; intros prefix Hne; [done|].
  destruct cs as [|d cs]; [done|]. cbn [expansions]. rewrite last_cons.
  specialize (IH (prefix +:+ c +:+ "-") ltac:(done)). cbn [expansions] in IH. rewrite IH.
  f_equal. unfold slice_of. rewrite concat_cons, !string_app_assoc. done.
Qed.

(** Slices are expanded as systemd nests them.  A slice name with components
    [a], [b], [c] is expanded to the path [/a.slice/a-b.slice/a-b-c.slice], whose
    last directory is the slice itself. *)
Theorem expand_slice_expansions cs :
  cs ≠ [] → Forall slice_component cs → ends_with SUFFIX (String.concat "-" cs) = false →
  expand_slice (slice_of cs) = Ok (RootDir :: fmap Normal (expansions "" cs)) ∧
  last (expansions "" cs) = Some (slice_of cs).
Proof.
  intros Hne Hcs Hend. split; [|by apply (expansions_last "")].
  assert (0 < String.length (String.concat "-" cs))%nat as Hlen.
  { destruct cs as [|c cs]; [done|]. apply Forall_cons in Hcs as [[Hc _] _].
    destruct cs; [|rewrite concat_cons, length_append]; destruct c; cbn; done || lia. }
  unfold expand_slice, slice_of. rewrite ends_with_app, length_append.
  replace (_ <=? _)%nat with false by (symmetry; apply Nat.leb_gt; lia). cbn [orb negb].
  replace (contains_char _ _) with false.
  2:{ symmetry. apply bool_decide_eq_false_2. rewrite chars_app, elem_of_app.
      pose proof (concat_no_slash cs Hcs). cbn. set_solver by done. }
  rewrite trim_end_matches_once by (done || (cbn; lia)).
  rewrite bool_decide_eq_false_2.
  2:{ intros Heq. pose proof (split_concat cs Hne Hcs) as Hs. rewrite Heq in Hs.
      cbn in Hs. subst cs. apply Forall_cons in Hcs as [[Hc _] _]. done. }
  rewrite split_concat, expand_components_expansions by (done || by eapply Forall_impl;
    [exact Hcs|intros ? [? _]]). run. f_equal.
  apply (components_path_of (expansions "" cs)); [apply expansions_names; set_solver|].
  by destruct cs.
Qed.

Lemma expand_slice_expansions_witness :
  expand_slice "test-a-b.slice" =
    Ok [RootDir; Normal "test.slice"; Normal "test-a.slice"; Normal "test-a-b.slice"].
Proof.
  apply (expand_slice_expansions ["test"; "a"; "b"]); [done| |reflexivity].
  repeat (apply Forall_cons; split); try apply Forall_nil_2;
    (split; [done|split; cbn; set_solver by done]).
Defined.

(** The container's cgroup lies below the delegation boundary.  When the
    slice is valid, [construct_cgroups_path] succeeds and returns systemd's own
    control group followed by plain names, so the boundary is a prefix of it,
    and so is the root of the hierarchy once the two are joined. *)
Theorem construct_cgroups_path_below cp systemd_root sub parent root :
  expand_slice (cp_parent cp) = Ok parent →
  ∃ p names, construct_cgroups_path cp systemd_root sub = Ok (p, systemd_root) ∧
    p = systemd_root ++ fmap Normal names ∧
    strip_path_prefix systemd_root p = Some (fmap Normal names) ∧
    ∃ full, join_safely root p = Ok (root ++ fmap Normal full).
Proof.
  intros Hp. unfold construct_cgroups_path. rewrite Hp. run.
  rewrite join_safely_names. cbn [map_err]. run.
  rewrite join_safely_names. cbn [map_err]. run.
  rewrite join_safely_names. cbn [map_err]. run.
  rewrite <- !app_assoc, <- !fmap_app. eexists _, _. split; [done|]. split; [done|].
  split; [apply strip_path_prefix_app|]. eexists. apply join_safely_names.
Qed.

Lemma construct_cgroups_path_below_witness :
  ∃ p names,
    construct_cgroups_path (MkCgroupsPath "machine.slice" "libpod" "4711") [RootDir] "/init" =
      Ok (p, [RootDir]) ∧ p = [RootDir] ++ fmap Normal names ∧
    strip_path_prefix [RootDir] p = Some (fmap Normal names) ∧
    ∃ full, join_safely (components "/sys/fs/cgroup") p =
      Ok (components "/sys/fs/cgroup" ++ fmap Normal full).
Proof.
  apply (construct_cgroups_path_below _ _ _ [RootDir; Normal "machine.slice"]). reflexivity.
Defined.

(** The slice [a.slice.slice] is nested below [a.slice] by no one: the suffix is
    stripped as often as it occurs, and the path of another slice comes out. *)
Lemma expand_slice_double_suffix :
  expand_slice "a.slice.slice" = expand_slice "a.slice".
Proof. vm_compute. reflexivity. Qed.
