(* ===== verification/Calls.v ===== *)
(** * Calls: computations that record the calls they make

    The world of such a computation is the list of the calls made so far, each with its
    error if it had one.  An oracle [sys] says which call fails, from the calls made before.
    [Mounting], [RootFs], [Builders] and [Tenant] are modelled in this way. *)
From S2P Require Import Prelude.

Section calls.
Context {C : Type}.

(** [sys w c] is the error of the call [c] after the calls [w], if it has one. *)
Definition do {E} (sys : list (C * option Z) → C → option Z) (c : C) (e : Z → E) :
    io (list (C * option Z)) E () := λ w,
  let r := sys w c in
  (match r with None => Ok () | Some errno => Err (e errno) end, w ++ [(c, r)]).
End calls.

(** A [match] on a result. *)
Definition attempt {W E F A} (m : io W E A) : io W F (E + A) := λ w,
  match m w with
  | (Ok a, w) => (Ok (inr a), w)
  | (Err e, w) => (Ok (inl e), w)
  | (Panic, w) => (Panic, w)
  end.

(** ** Reasoning

    [runs m Q]: from every world, [m] adds calls [t] and ends with a result for which
    [Q] holds. *)
Definition runs {L E A} (m : io (list L) E A) (Q : outcome E A → list L → Prop) : Prop :=
  ∀ w, ∃ t, (m w).2 = w ++ t ∧ Q (m w).1 t.

Section runs.
Context {L : Type}.

Lemma runs_pure {E A} (r : outcome E A) (Q : outcome E A → list L → Prop) :
  Q r [] → runs (pure r) Q.
Proof. intros HQ w. exists []. by rewrite app_nil_r. Qed.

Lemma runs_bind {E A B} (m : io (list L) E A) (f : A → io (list L) E B) Q :
  runs m (λ r t, match r with
                 | Ok a => runs (f a) (λ r' t', Q r' (t ++ t'))
                 | Err x => Q (Err x) t
                 | Panic => Q Panic t
                 end) → runs (m ≫= f) Q.
Proof.
  intros Hm w. destruct (Hm w) as (t & Hw & Hr). unfold mbind, io_bind.
  destruct (m w) as [[a|x|] w']; cbn in *; subst w'; [|by exists t..].
  destruct (Hr (w ++ t)) as (t' & Hw' & HQ). exists (t ++ t'). by rewrite app_assoc.
Qed.

Lemma runs_mono {E A} (m : io (list L) E A) (P Q : outcome E A → list L → Prop) :
  runs m P → (∀ r t, P r t → Q r t) → runs m Q.
Proof. intros Hm HPQ w. destruct (Hm w) as (t & ? & ?). eauto. Qed.

Lemma runs_attempt {E F A} (m : io (list L) E A) (Q : outcome F (E + A) → list L → Prop) :
  runs m (λ r t, match r with
                 | Ok a => Q (Ok (inr a)) t
                 | Err x => Q (Ok (inl x)) t
                 | Panic => Q Panic t
                 end) → runs (attempt m) Q.
Proof.
  intros Hm w. destruct (Hm w) as (t & Hw & Hr). exists t. unfold attempt.
  by destruct (m w) as [[a|x|] w'].
Qed.

Lemma runs_map_err {E F A} (f : E → F) (m : io (list L) E A) Q :
  runs m (λ r t, Q (map_err f r) t) → runs (io_map_err f m) Q.
Proof. intros Hm w. destruct (Hm w) as (t & Hw & Hr). exists t. by split. Qed.
End runs.

Lemma runs_do {C E} sys (c : C) (err : Z → E) (Q : outcome E () → list (C * option Z) → Prop) :
  Q (Ok ()) [(c, None)] → (∀ n, Q (Err (err n)) [(c, Some n)]) → runs (do sys c err) Q.
Proof.
  intros Hok Herr w. exists [(c, sys w c)]. unfold do. split; [done|]. cbn. by destruct (sys w c).
Qed.

(** [m] makes only calls that satisfy [P]. *)
Definition only_calls {C E A} (P : C → Prop) (m : io (list (C * option Z)) E A) : Prop :=
  runs m (λ _ t, Forall (λ ev, P ev.1) t).

Section only.
Context {C : Type} (P : C → Prop).

Lemma calls_pure {E A} (r : outcome E A) : only_calls P (pure r).
Proof. by apply runs_pure. Qed.

Lemma calls_ret {E A} (a : A) : only_calls P (mret a : io (list (C * option Z)) E A).
Proof. apply (calls_pure (Ok a)). Qed.

Lemma calls_bind {E A B} (m : io (list (C * option Z)) E A) (f : A → io (list (C * option Z)) E B) :
  only_calls P m → (∀ a, only_calls P (f a)) → only_calls P (m ≫= f).
Proof.
  intros Hm Hf. apply runs_bind, (runs_mono _ _ _ Hm). intros [a|x|] t Ht; [|done..].
  apply (runs_mono _ _ _ (Hf a)). intros r t' Ht'. by apply Forall_app.
Qed.

Lemma calls_do {E} sys (c : C) (err : Z → E) : P c → only_calls P (do sys c err).
Proof. intros Hc. apply runs_do; [|intros n]; by repeat constructor. Qed.

Lemma calls_attempt {E F A} (m : io (list (C * option Z)) E A) :
  only_calls P m → only_calls P (attempt m : io (list (C * option Z)) F (E + A)).
Proof. intros Hm. apply runs_attempt, (runs_mono _ _ _ Hm). by intros [] t Ht. Qed.

Lemma calls_map_err {E F A} (f : E → F) (m : io (list (C * option Z)) E A) : only_calls P m → only_calls P (io_map_err f m).
Proof. intros Hm. by apply runs_map_err, (runs_mono _ _ _ Hm). Qed.

Lemma calls_each {E A} (f : A → io (list (C * option Z)) E ()) l : (∀ x, only_calls P (f x)) → only_calls P (io_each f l).
Proof. intros Hf. induction l as [|x l IH]; [apply calls_ret|]. by apply calls_bind. Qed.
End only.

(** [m] makes only calls that satisfy [P], and [Q] holds of its value and its calls when
    it succeeds. *)
Definition does {C E A} (P : C → Prop) (Q : A → list (C * option Z) → Prop) (m : io (list (C * option Z)) E A) : Prop :=
  runs m (λ r t, Forall (λ ev, P ev.1) t ∧ ∀ a, r = Ok a → Q a t).

Section does.
Context {C : Type} (P : C → Prop).

Lemma does_pure {E A} (r : outcome E A) (Q : A → list (C * option Z) → Prop) :
  (∀ a, r = Ok a → Q a []) → does P Q (pure r).
Proof. intros HQ. by apply runs_pure. Qed.

Lemma does_bind {E A B} Q Q' (m : io (list (C * option Z)) E A) (f : A → io (list (C * option Z)) E B) :
  does P Q m → (∀ a t, Q a t → does P (λ b t', Q' b (t ++ t')) (f a)) → does P Q' (m ≫= f).
Proof.
  intros Hm Hf. apply runs_bind, (runs_mono _ _ _ Hm). intros [a|x|] t [Ht HQ]; [|done..].
  apply (runs_mono _ _ _ (Hf a t (HQ a eq_refl))). intros r t' [Ht' HQ']. split; [by apply Forall_app|done].
Qed.

Lemma does_do {E} sys (c : C) (err : Z → E) (Q : () → list (C * option Z) → Prop) :
  P c → Q () [(c, None)] → does P Q (do sys c err).
Proof.
  intros Hc HQ. apply runs_do; [|intros n]; (split; [by apply Forall_singleton|]); [by intros [] _|done].
Qed.

Lemma does_map_err {E F A} (f : E → F) (m : io (list (C * option Z)) E A) Q : does P Q m → does P Q (io_map_err f m).
Proof.
  intros Hm. apply runs_map_err, (runs_mono _ _ _ Hm). intros [a|x|] t [Ht HQ]; split; try done.
  intros a' [= <-]. by apply HQ.
Qed.

Lemma does_mono {E A} (P' : C → Prop) (Q Q' : A → list (C * option Z) → Prop) (m : io (list (C * option Z)) E A) :
  does P' Q m → (∀ c, P' c → P c) → (∀ a t, Q a t → Q' a t) → does P Q' m.
Proof.
  intros Hm HP HQ. apply (runs_mono _ _ _ Hm). intros r t [Ht Hr]. split; [|eauto].
  eapply Forall_impl; [exact Ht|]. eauto.
Qed.

Lemma does_only_calls {E A} (m : io (list (C * option Z)) E A) : only_calls P m → does P (λ _ _, True) m.
Proof. intros Hm. by apply (runs_mono _ _ _ Hm). Qed.

Lemma does_each {E A} (f : A → io (list (C * option Z)) E ()) (l : list A) (c : A → C → Prop) :
  (∀ x, x ∈ l → does P (λ _ t, ∃ k, c x k ∧ (k, None) ∈ t) (f x)) →
  does P (λ _ t, ∀ x, x ∈ l → ∃ k, c x k ∧ (k, None) ∈ t) (io_each f l).
Proof.
  intros Hf. induction l as [|x l IH].
  - apply (does_pure (Ok ())). intros ? _ x Hx. by apply not_elem_of_nil in Hx.
  - eapply does_bind; [apply Hf, list_elem_of_here|]. intros [] t (k & Hk & Hin).
    eapply does_mono; [apply IH; intros y Hy; by apply Hf, list_elem_of_further|done|].
    intros [] t' Hl y [->|Hy]%elem_of_cons.
    + exists k. rewrite elem_of_app. auto.
    + destruct (Hl y Hy) as (k' & ? & ?). exists k'. rewrite elem_of_app. auto.
Qed.
End does.
