(* ===== verification/Utils.v ===== *)
(** * Utils: paths, environments and the cgroup of a container

    Models [libcontainer/src/utils.rs]: the extensions of [Path], the parser of
    environment variables, the default cgroup path of a container, and the check for
    rootless mode; and [from_spec_with_cgroup_manager] of [config.rs]. *)
From S2P Require Import Prelude Text Paths.
Local Open Scope string_scope.
Local Open Scope list_scope.
Local Open Scope Z_scope.

(** ** [PathBufExt] *)

Inductive PathBufExtError : Type :=
  | Canonicalize (path : Path) (errno : Z)
  | CurrentDir (errno : Z).

Definition container_join (self path : Path) : Path :=
  if negb (has_root path) then join self path
  else join self (default path (strip_path_prefix [RootDir] path)).

Definition normalize_step (ret : Path) (c : Component) : Path :=
  match c with
  | RootDir => join ret [RootDir]
  | CurDir => ret
  | ParentDir => pop ret
  | Normal n => join ret [Normal n]
  end.

Definition normalize (p : Path) : Path := foldl normalize_step [] p.

(** What [std::fs] says about paths. *)
Record path_info : Type := MkPathInfo {
  path_exists : Path → bool;
  path_canonical : Path → outcome Z Path;
  current_dir : outcome Z Path }.

Definition canonicalize_safely (fs : path_info) (self : Path) : outcome PathBufExtError Path :=
  if path_exists fs self then map_err (Canonicalize self) (path_canonical fs self)
  else if negb (has_root self) then
    cwd ← map_err CurrentDir (current_dir fs);
    Ok (normalize (join cwd self))
  else Ok (normalize self).

(** ** Environment variables *)

(** The key and the value of an entry: [split('=')], the rest joined again. *)
Definition env_entry (e : string) : option (string * string) :=
  match split_on "="%char e with
  | [] => None
  | key :: rest => Some (key, String.concat "=" rest)
  end.

(** A later entry for a key replaces an earlier one. *)
Definition parse_env (envs : list string) : gmap string string :=
  foldl (λ m kv, <[kv.1 := kv.2]> m) ∅ (omap env_entry envs).

(** ** The cgroup of a container *)

Inductive CgroupPathError : Type := CgroupProcfs (errno : Z) | CgroupParse.

Definition resolve_cgroup_path (cgroups_path : option Path) (container_id : string)
    (systemd_cgroup : bool) (current_cgroup : option Path) : Path :=
  match cgroups_path with
  | Some cpath => if systemd_cgroup then cpath else normalize cpath
  | None =>
      if systemd_cgroup then components (":youki:" +:+ container_id)
      else match current_cgroup with
           | Some current => join (default [RootDir] (parent (normalize current))) (components container_id)
           | None => components container_id
           end
  end.

(** [own_cgroups] is the parsed [/proc/self/cgroup]: hierarchies and paths. *)
Definition get_cgroup_path_for_manager (own_cgroups : outcome CgroupPathError (list (Z * string)))
    (cgroups_path : option Path) (container_id : string) (systemd_cgroup : bool) :
    outcome CgroupPathError Path :=
  if bool_decide (is_Some cgroups_path) || systemd_cgroup
  then Ok (resolve_cgroup_path cgroups_path container_id systemd_cgroup None)
  else
    cgroups ← own_cgroups;
    let current_cgroup := components ∘ snd <$> head (filter (λ c, c.1 = 0) cgroups) in
    Ok (resolve_cgroup_path cgroups_path container_id systemd_cgroup current_cgroup).

Definition get_cgroup_path (cgroups_path : option Path) (container_id : string) : Path :=
  resolve_cgroup_path cgroups_path container_id true None.

(** ** [config.rs] *)

Inductive ConfigError : Type := MissingLinux | ConfigCgroupPath (e : CgroupPathError).

(** [H] is the type of the hooks. *)
Record YoukiConfig (H : Type) : Type := MkYoukiConfig { cfg_hooks : option H; cfg_cgroup_path : Path }.
Arguments MkYoukiConfig {H} _ _.
Arguments cfg_hooks {H} _.
Arguments cfg_cgroup_path {H} _.

(** [cgroups_path] is the field of the Linux section, [None] if there is no such section. *)
Definition from_spec_with_cgroup_manager {H} (own_cgroups : outcome CgroupPathError (list (Z * string)))
    (hooks : option H) (cgroups_path : option (option Path)) (container_id : string)
    (systemd_cgroup : bool) : outcome ConfigError (YoukiConfig H) :=
  cgroups_path ← ok_or cgroups_path MissingLinux;
  cgroup_path ← map_err ConfigCgroupPath
    (get_cgroup_path_for_manager own_cgroups cgroups_path container_id systemd_cgroup);
  Ok (MkYoukiConfig hooks cgroup_path).

Definition from_spec {H} (own_cgroups : outcome CgroupPathError (list (Z * string)))
    (hooks : option H) (cgroups_path : option (option Path)) (container_id : string) :
    outcome ConfigError (YoukiConfig H) :=
  from_spec_with_cgroup_manager own_cgroups hooks cgroups_path container_id true.

(** ** Directories and rootless mode *)

Inductive MkdirWithModeError : Type := MkdirIo (errno : Z) | MetadataMismatch.

Record Metadata : Type := MkMetadata { is_dir : bool; st_uid : Z; st_mode : Z }.

(** [create] is the recursive creation with a mode. *)
Definition create_dir_all_with_mode {W} (exists_ : W → Path → bool) (create : Path → Z → io W Z ())
    (metadata : Path → io W Z Metadata) (path : Path) (owner mode : Z) : io W MkdirWithModeError () := λ w,
  ((_ ← (if exists_ w path then mret () else io_map_err MkdirIo (create path mode));
    m ← io_map_err MkdirIo (metadata path);
    if is_dir m && (st_uid m =? owner) && (Z.land (st_mode m) mode =? mode)
    then mret () else pure (Err MetadataMismatch)) : io W MkdirWithModeError ()) w.

(** [str::contains] *)
Fixpoint contains_str (pattern s : string) : bool :=
  starts_with pattern s || match s with "" => false | String _ s => contains_str pattern s end.

Definition is_in_new_userns {E} (uid_map : outcome E string) : outcome E bool :=
  content ← uid_map;
  Ok (negb (contains_str "4294967295" content)).

Definition rootless_required {E} (euid : Z) (uid_map : outcome E string) : outcome E bool :=
  if negb (euid =? 0) then Ok true else is_in_new_userns uid_map.

(** ** Properties *)

Lemma normalize_names p :
  normalize p = root_of (bool_decide (RootDir ∈ p)) ++ fmap Normal (walk [] p).
Proof.
  rewrite <- clean_cgroup_path_names. unfold normalize, clean_cgroup_path. f_equal.
Qed.

(** A path as [normalize] leaves it. *)
Definition is_normal (p : Path) : Prop := ∃ b names, p = root_of b ++ fmap Normal names.

Lemma normalize_is_normal p : is_normal (normalize p).
Proof. rewrite normalize_names. by eexists _, _. Qed.

Lemma normal_walk b names q :
  normalize ((root_of b ++ fmap Normal names) ++ q) =
    root_of (b || bool_decide (RootDir ∈ q)) ++ fmap Normal (walk names q).
Proof.
  rewrite normalize_names. unfold walk. rewrite !foldl_app.
  replace (foldl walk_step [] (root_of b)) with (@nil string) by (by destruct b).
  change (foldl walk_step [] (fmap Normal names)) with (walk [] (fmap Normal names)). rewrite walk_names. cbn [app].
  f_equal. f_equal. apply eq_true_iff_eq. rewrite orb_true_iff, !bool_decide_eq_true, !elem_of_app, list_elem_of_fmap.
  destruct b; cbn; set_solver.
Qed.

(** [normalize] is idempotent. *)
Lemma normalize_normal p : is_normal p → normalize p = p.
Proof.
  intros (b & names & ->). pose proof (normal_walk b names []) as Hn. rewrite app_nil_r in Hn. rewrite Hn.
  rewrite bool_decide_eq_false_2, orb_false_r by set_solver. done.
Qed.

(** A name that is one component: what a container identifier has to be. *)
Lemma components_name n : is_name n → components n = [Normal n].
Proof.
  intros [Hp Hs]. unfold components. rewrite split_on_none by done. cbn [omap list_omap].
  rewrite app_nil_r, Hp. unfold piece_component in Hp. repeat case_bool_decide; subst; done.
Qed.

(** Without systemd and without a configured path, the cgroup of a container is a sibling
    of the cgroup of the runtime, or a child of the root for a runtime at the root. *)
Lemma default_cgroup_sibling id current :
  is_name id → has_root current = true →
  resolve_cgroup_path None id false (Some current) =
    RootDir :: fmap Normal (take (length (walk [] current) - 1) (walk [] current) ++ [id]).
Proof.
  intros Hid Hroot. unfold resolve_cgroup_path. rewrite components_name by done. rewrite join_name.
  rewrite normalize_names, bool_decide_eq_true_2.
  2:{ unfold has_root in Hroot. apply bool_decide_eq_true in Hroot. destruct current; [done|]. injection Hroot as ->. left. }
  unfold parent. rewrite last_map_Normal. pose proof (pop_names true (walk [] current)) as Hpop.
  unfold pop in Hpop. rewrite last_map_Normal in Hpop. destruct (last (walk [] current)) as [n|] eqn:Hl.
  - cbn [default]. rewrite Hpop, fmap_app. done.
  - apply last_None in Hl as ->. done.
Qed.

Lemma concat_split_on c s : String.concat (String c "") (split_on c s) = s.
Proof.
  induction s as [|a s IH]; [done|]. unfold split_on in *. cbn [chars split_chars].
  assert (∃ p ps, split_chars c (chars s) = p :: ps) as (p & ps & Hs).
  { clear. destruct s as [|b s]; cbn; [eauto|]. destruct (Ascii.eqb b c); [eauto|]. destruct (split_chars c (chars s)); eauto. }
  rewrite Hs in *. destruct (Ascii.eqb_spec a c) as [->|Hne]; cbn in *.
  - by rewrite IH.
  - rewrite <- IH. by destruct ps.
Qed.

(** The entries of [parse_env]: the text before the first equality sign and all after it. *)
Lemma env_entry_pair k v : ("="%char ∉ chars k) → env_entry (k +:+ "=" +:+ v) = Some (k, v).
Proof.
  intros Hk. unfold env_entry. change ("=" +:+ v) with (String "=" v). rewrite split_on_app by done.
  by rewrite concat_split_on.
Qed.

Lemma env_entry_bare e : ("="%char ∉ chars e) → env_entry e = Some (e, "").
Proof. intros He. unfold env_entry. by rewrite split_on_none. Qed.

(** The last entry for a key counts. *)
Lemma parse_env_lookup envs e k v :
  env_entry e = Some (k, v) →
  parse_env (envs ++ [e]) !! k = Some v ∧ ∀ k', k' ≠ k → parse_env (envs ++ [e]) !! k' = parse_env envs !! k'.
Proof.
  intros He. unfold parse_env. rewrite omap_app. cbn. rewrite He, foldl_app. cbn.
  split; [apply lookup_insert_eq|]. intros k' Hk. by apply lookup_insert_ne.
Qed.
