(* ===== verification/Bpf.v ===== *)
(** * The eBPF instructions youki emits, and the virtual machine that runs them

    The device controller of cgroup v2 builds its programs with the instruction
    builder of the [rbpf] crate and runs them with that crate's virtual machine
    (or hands them to the kernel).  Neither is part of this repository: the
    machine is the interface [EbpfVm], whose laws [EbpfVmLaws] are the
    documented eBPF semantics of the few instructions the program generator
    uses and the documented checks of the program verifier.  [interp_vm] is a
    concrete machine that satisfies the laws. *)
From S2P Require Import Prelude.

Local Open Scope Z_scope.

(** ** Instructions *)

Inductive Source : Type := Imm | Reg.
Inductive Arch : Type := X64 | X32.
Inductive MemSize : Type := MByte | MHalfWord | MWord | MDoubleWord.
Inductive Cond : Type := NotEquals.

Inductive opcode : Type :=
  | LoadX (sz : MemSize)
  | BitAnd (s : Source) (a : Arch)
  | RightShift (s : Source) (a : Arch)
  | Mov (s : Source) (a : Arch)
  | JumpConditional (c : Cond) (s : Source)
  | Exit.

#[global] Instance Source_eq_dec : EqDecision Source.
Proof. solve_decision. Defined.
#[global] Instance Arch_eq_dec : EqDecision Arch.
Proof. solve_decision. Defined.
#[global] Instance MemSize_eq_dec : EqDecision MemSize.
Proof. solve_decision. Defined.
#[global] Instance Cond_eq_dec : EqDecision Cond.
Proof. solve_decision. Defined.
#[global] Instance opcode_eq_dec : EqDecision opcode.
Proof. solve_decision. Defined.

(** One instruction: the builder's [set_dst], [set_src], [set_off] (i16) and
    [set_imm] (i32) fill the fields, which are zero by default. *)
Record insn : Type := Insn {
  opc : opcode;
  dst : Z;
  src : Z;
  off : Z;
  imm : Z;
}.

(** ** The virtual machine *)

(** Registers, and an update of one of them. *)
Abbreviation regs := (Z → Z).
Definition rset (r : regs) (d v : Z) : regs := λ x, if x =? d then v else r x.

Lemma rset_eq r d v : rset r d v d = v.
Proof. unfold rset. by rewrite Z.eqb_refl. Qed.

Lemma rset_ne r d v x : x ≠ d → rset r d v x = r x.
Proof. unfold rset. intros ?%Z.eqb_neq. by case_match. Qed.

(** A 32-bit word in the byte order of the host. *)
Definition to_ne_bytes (big : bool) (w : Z) : list byte :=
  if big then rev (le_split 4 w) else le_split 4 w.

Definition from_ne_bytes (big : bool) (l : list byte) : Z :=
  le_combine (if big then rev l else l).

Lemma length_to_ne_bytes big w : length (to_ne_bytes big w) = 4%nat.
Proof. unfold to_ne_bytes. destruct big; by rewrite ?length_rev, length_le_split. Qed.

Lemma from_to_ne_bytes big w :
  in_u 32 w → from_ne_bytes big (to_ne_bytes big w) = w.
Proof.
  intros Hw. unfold from_ne_bytes, to_ne_bytes.
  destruct big; rewrite ?rev_involutive, le_combine_split; by apply Z.mod_small.
Qed.

(** The 32-bit word at byte offset [a] of [m]. *)
Definition word_at (big : bool) (m : list byte) (a : Z) : Z :=
  from_ne_bytes big (take 4 (drop (Z.to_nat a) m)).

(** What the verifier of the virtual machine checks of a program
    ([rbpf::verifier::check]): it is not empty, has at most a million
    instructions, ends in an exit, writes only the registers 0 to 9, and each
    jump goes forward or back to an instruction of the program. *)
Definition insn_ok (n i : Z) (ins : insn) : bool :=
  (0 <=? dst ins) && (dst ins <=? 9) && (0 <=? src ins) && (src ins <=? 10)
  && match opc ins with
     | JumpConditional _ _ =>
         negb (off ins =? -1) && (0 <=? i + 1 + off ins) && (i + 1 + off ins <? n)
     | _ => true
     end.

Fixpoint insns_ok (n i : Z) (p : list insn) : bool :=
  match p with
  | [] => true
  | ins :: p => insn_ok n i ins && insns_ok n (i + 1) p
  end.

Definition verifiable (p : list insn) : bool :=
  match last p with
  | Some ins => bool_decide (opc ins = Exit)
  | None => false
  end
  && (Z.of_nat (length p) <=? 1000000)
  && insns_ok (Z.of_nat (length p)) 0 p.

Class EbpfVm : Type := {
  (** the byte order of the host *)
  vm_big : bool;
  (** the address the context is mapped at *)
  vm_base : Z;
  (** [EbpfVmRaw::new]: does the verifier accept the program? *)
  vm_accepts : list insn → bool;
  (** run the code that remains, from the given registers, on the context *)
  vm_run : list insn → regs → list byte → option Z;
}.

(** [execute_program]: register 1 holds the address of the context. *)
Definition vm_execute `{EbpfVm} (p : list insn) (mem : list byte) : option Z :=
  vm_run p (rset (λ _, 0) 1 vm_base) mem.

Class EbpfVmLaws (VM : EbpfVm) : Prop := {
  vm_accepts_verifiable p : verifiable p = true → vm_accepts p = true;
  vm_exit i k r m : opc i = Exit → vm_run (i :: k) r m = Some (r 0);
  vm_load_word i k r m :
    opc i = LoadX MWord →
    let a := r (src i) + off i - vm_base in
    0 ≤ a → a + 4 ≤ Z.of_nat (length m) →
    vm_run (i :: k) r m = vm_run k (rset r (dst i) (word_at vm_big m a)) m;
  vm_and32_imm i k r m :
    opc i = BitAnd Imm X32 →
    vm_run (i :: k) r m =
      vm_run k (rset r (dst i) (Z.land (uwrap 32 (r (dst i))) (uwrap 32 (imm i)))) m;
  vm_rsh32_imm i k r m :
    opc i = RightShift Imm X32 → 0 ≤ imm i < 32 →
    vm_run (i :: k) r m =
      vm_run k (rset r (dst i) (Z.shiftr (uwrap 32 (r (dst i))) (imm i))) m;
  vm_mov32_imm i k r m :
    opc i = Mov Imm X32 →
    vm_run (i :: k) r m = vm_run k (rset r (dst i) (uwrap 32 (imm i))) m;
  vm_mov32_reg i k r m :
    opc i = Mov Reg X32 →
    vm_run (i :: k) r m = vm_run k (rset r (dst i) (uwrap 32 (r (src i)))) m;
  vm_jne_imm i k r m :
    opc i = JumpConditional NotEquals Imm → 0 ≤ off i →
    vm_run (i :: k) r m =
      if uwrap 64 (r (dst i)) =? uwrap 64 (imm i) then vm_run k r m
      else vm_run (drop (Z.to_nat (off i)) k) r m;
  vm_jne_reg i k r m :
    opc i = JumpConditional NotEquals Reg → 0 ≤ off i →
    vm_run (i :: k) r m =
      if uwrap 64 (r (dst i)) =? uwrap 64 (r (src i)) then vm_run k r m
      else vm_run (drop (Z.to_nat (off i)) k) r m;
}.

(** ** A concrete machine

    The generated programs only jump forward, so an instruction is run at most
    once and the length of the program is enough fuel. *)
Fixpoint interp (big : bool) (base : Z) (fuel : nat) (p : list insn) (r : regs)
    (m : list byte) : option Z :=
  match fuel, p with
  | S fuel, i :: k =>
      let go := interp big base fuel in
      let d := uwrap 32 (r (dst i)) in
      match opc i with
      | Exit => Some (r 0)
      | LoadX MWord =>
          let a := r (src i) + off i - base in
          if (0 <=? a) && (a + 4 <=? Z.of_nat (length m))
          then go k (rset r (dst i) (word_at big m a)) m
          else None
      | BitAnd Imm X32 => go k (rset r (dst i) (Z.land d (uwrap 32 (imm i)))) m
      | RightShift Imm X32 => go k (rset r (dst i) (Z.shiftr d (imm i))) m
      | Mov Imm X32 => go k (rset r (dst i) (uwrap 32 (imm i))) m
      | Mov Reg X32 => go k (rset r (dst i) (uwrap 32 (r (src i)))) m
      | JumpConditional NotEquals s =>
          let rhs := match s with Imm => imm i | Reg => r (src i) end in
          if uwrap 64 (r (dst i)) =? uwrap 64 rhs then go k r m
          else if off i <? 0 then None
          else go (drop (Z.to_nat (off i)) k) r m
      | _ => None
      end
  | _, _ => None
  end.

Lemma interp_fuel big base f p r m :
  (length p ≤ f)%nat → interp big base f p r m = interp big base (length p) p r m.
Proof.
  revert p r m. induction (lt_wf f) as [f _ IH]. intros p r m Hf.
  destruct p as [|i k]; [by destruct f|]. destruct f as [|f]; simpl in *; [lia|].
  assert (∀ k' r', (length k' ≤ length k)%nat →
    interp big base f k' r' m = interp big base (length k) k' r' m) as Hgo.
  { intros k' r' Hk. rewrite (IH f) by lia.
    destruct (decide (length k = f)) as [->|]; [by rewrite (IH f) by lia|].
    rewrite (IH (length k)) by lia. done. }
  repeat case_match; try done; apply Hgo; rewrite ?length_drop; lia.
Qed.

#[global] Instance interp_vm : EbpfVm := {|
  vm_big := false;
  vm_base := 4096;
  vm_accepts := verifiable;
  vm_run := λ p r m, interp false 4096 (length p) p r m;
|}.

#[global] Instance interp_vm_laws : EbpfVmLaws interp_vm.
Proof.
  split; simpl; try (intros i k r m Hop; by rewrite Hop); [done|..].
  - intros i k r m -> Ha Hb. apply Z.leb_le in Ha, Hb. by rewrite Ha, Hb.
  - intros i k r m -> Ho. case_match; [done|].
    apply Z.ltb_ge in Ho. rewrite Ho. rewrite interp_fuel; [done|].
    rewrite length_drop; lia.
  - intros i k r m -> Ho. case_match; [done|].
    apply Z.ltb_ge in Ho. rewrite Ho. rewrite interp_fuel; [done|].
    rewrite length_drop; lia.
Qed.
