(* ===== verification/Devices.v ===== *)
(** * The device controller of cgroup v2

    Models [crates/libcgroups/src/v2/devices/]: the rule emulator
    ([emulator.rs]), the generator of the eBPF program that enforces the rules
    ([program.rs]) and the controller that attaches the program
    ([controller.rs]), with the default device lists of [common.rs].

    The main theorem is a refinement: running the generated program on a device
    access gives the verdict of the abstract specification [verdict], which
    looks for the last rule that covers the access. *)
From S2P Require Import Prelude Bpf.

Local Open Scope string_scope.
Local Open Scope list_scope.
Local Open Scope Z_scope.

(** ** Data of the OCI runtime specification *)

Inductive LinuxDeviceType : Type := TypA | TypB | TypC | TypU | TypP.

#[global] Instance LinuxDeviceType_eq_dec : EqDecision LinuxDeviceType.
Proof. solve_decision. Defined.

Record LinuxDeviceCgroup : Type := {
  allow : bool;
  typ : option LinuxDeviceType;
  major : option Z;
  minor : option Z;
  access : option string;
}.

Record LinuxDevice : Type := {
  dev_path : string;
  dev_typ : LinuxDeviceType;
  dev_major : Z;
  dev_minor : Z;
  dev_file_mode : option Z;
}.

(** [LinuxDeviceType::default()] and [LinuxDeviceCgroup::from(&LinuxDevice)]
    belong to the [oci-spec] crate. *)
Class OciDevices : Type := {
  typ_default : LinuxDeviceType;
  cgroup_of_device : LinuxDevice → LinuxDeviceCgroup;
}.

(** The constants of [linux/bpf.h], from the [libbpf-sys] crate: two device
    types that fit 16 bits, and three distinct access bits. *)
Class DevcgConsts : Type := {
  BPF_DEVCG_DEV_BLOCK : Z;
  BPF_DEVCG_DEV_CHAR : Z;
  acc_read_bit : Z;
  acc_write_bit : Z;
  acc_mknod_bit : Z;
  devcg_dev_block : 0 < BPF_DEVCG_DEV_BLOCK < 2 ^ 16;
  devcg_dev_char : 0 < BPF_DEVCG_DEV_CHAR < 2 ^ 16;
  devcg_dev_ne : BPF_DEVCG_DEV_BLOCK ≠ BPF_DEVCG_DEV_CHAR;
  devcg_read : 0 ≤ acc_read_bit < 16;
  devcg_write : 0 ≤ acc_write_bit < 16;
  devcg_mknod : 0 ≤ acc_mknod_bit < 16;
  devcg_acc_ne : acc_read_bit ≠ acc_write_bit ∧ acc_read_bit ≠ acc_mknod_bit
                 ∧ acc_write_bit ≠ acc_mknod_bit;
}.

(** The values of [linux/bpf.h]. *)
#[global, program] Instance linux_devcg : DevcgConsts := {|
  BPF_DEVCG_DEV_BLOCK := 1;
  BPF_DEVCG_DEV_CHAR := 2;
  acc_mknod_bit := 0;
  acc_read_bit := 1;
  acc_write_bit := 2;
|}.
Solve Obligations with lia.

Section devices.
Context `{OciDevices, DevcgConsts}.

Definition BPF_DEVCG_ACC_READ : Z := 2 ^ acc_read_bit.
Definition BPF_DEVCG_ACC_WRITE : Z := 2 ^ acc_write_bit.
Definition BPF_DEVCG_ACC_MKNOD : Z := 2 ^ acc_mknod_bit.

Definition rule_typ (rule : LinuxDeviceCgroup) : LinuxDeviceType :=
  default typ_default (typ rule).

(** ** The emulator *)

Record Emulator : Type := {
  default_allow : bool;
  rules : list LinuxDeviceCgroup;
}.

Definition with_default_allow (default_allow : bool) : Emulator :=
  {| default_allow := default_allow; rules := [] |}.

Definition emulator_add_rule (em : Emulator) (rule : LinuxDeviceCgroup) : Emulator :=
  if bool_decide (rule_typ rule = TypA) then
    {| default_allow := allow rule; rules := [] |}
  else match access rule with
  | None => em
  | Some _ => {| default_allow := default_allow em; rules := rules em ++ [rule] |}
  end.

Definition emulator_add_rules (em : Emulator) (rs : list LinuxDeviceCgroup) : Emulator :=
  foldl emulator_add_rule em rs.

(** ** The default devices of [common.rs] *)

Definition default_allow_devices : list LinuxDeviceCgroup := [
  {| allow := true; typ := Some TypC; access := Some "m"; major := None; minor := None |};
  {| allow := true; typ := Some TypB; access := Some "m"; major := None; minor := None |};
  {| allow := true; typ := Some TypC; major := Some 5; minor := Some 1;
     access := Some "rwm" |};
  {| allow := true; typ := Some TypC; major := Some 136; access := Some "rwm";
     minor := None |};
  {| allow := true; typ := Some TypC; major := Some 5; minor := Some 2;
     access := Some "rwm" |};
  {| allow := true; typ := Some TypC; major := Some 10; minor := Some 200;
     access := Some "rwm" |} ].

Definition char_device (path : string) (maj min : Z) : LinuxDevice :=
  {| dev_path := path; dev_typ := TypC; dev_major := maj; dev_minor := min;
     dev_file_mode := Some 54 (* 0o066 *) |}.

Definition default_devices : list LinuxDevice := [
  char_device "/dev/null" 1 3;
  char_device "/dev/zero" 1 5;
  char_device "/dev/full" 1 7;
  char_device "/dev/tty" 5 0;
  char_device "/dev/urandom" 1 9;
  char_device "/dev/random" 1 8 ].

(** The emulator that [Devices::apply_devices] builds: the rules of the
    container, then the default devices. *)
Definition apply_emulator (linux_devices : option (list LinuxDeviceCgroup)) : Emulator :=
  let emulator := with_default_allow false in
  let emulator := match linux_devices with
                  | Some devices => foldl emulator_add_rule emulator devices
                  | None => emulator
                  end in
  foldl emulator_add_rule emulator
    (map cgroup_of_device default_devices ++ default_allow_devices).

(** ** The program generator *)

Inductive ProgramError : Type :=
  | Io
  | InvalidAccess (c : Ascii.ascii)
  | DeviceNotSupported (what : string)
  | WildcardDevice.

Definition bpf_dev_type (t : LinuxDeviceType) : outcome ProgramError Z :=
  match t with
  | TypC => Ok BPF_DEVCG_DEV_CHAR
  | TypU => Err (DeviceNotSupported "unbuffered char")
  | TypB => Ok BPF_DEVCG_DEV_BLOCK
  | TypP => Err (DeviceNotSupported "pipe device")
  | TypA => Err WildcardDevice
  end.

Definition char_access (c : Ascii.ascii) : outcome ProgramError Z :=
  if bool_decide (c = "r"%char) then Ok BPF_DEVCG_ACC_READ
  else if bool_decide (c = "w"%char) then Ok BPF_DEVCG_ACC_WRITE
  else if bool_decide (c = "m"%char) then Ok BPF_DEVCG_ACC_MKNOD
  else Err (InvalidAccess c).

Definition bpf_access (acc : string) : outcome ProgramError Z :=
  for_each (λ c v, cur_access ← char_access c; Ok (Z.lor v cur_access))
    (String.list_ascii_of_string acc) 0.

Definition init (prog : list insn) : list insn :=
  prog ++ [
    {| opc := LoadX MWord; src := 1; off := 0; dst := 2; imm := 0 |};
    {| opc := BitAnd Imm X32; dst := 2; imm := 65535; src := 0; off := 0 |};
    {| opc := LoadX MWord; src := 1; off := 0; dst := 3; imm := 0 |};
    {| opc := RightShift Imm X32; imm := 16; dst := 3; src := 0; off := 0 |};
    {| opc := LoadX MWord; src := 1; off := 4; dst := 4; imm := 0 |};
    {| opc := LoadX MWord; src := 1; off := 8; dst := 5; imm := 0 |} ].

Definition finalize (default_allow : bool) (prog : list insn) : list insn :=
  prog ++ [
    {| opc := Mov Imm X32; dst := 0; imm := Z.b2z default_allow; src := 0; off := 0 |};
    {| opc := Exit; dst := 0; src := 0; off := 0; imm := 0 |} ].

Definition jne_imm (d v o : Z) : insn :=
  {| opc := JumpConditional NotEquals Imm; dst := d; imm := swrap 32 v; off := o;
     src := 0 |}.

Definition has_number (o : option Z) : bool :=
  match o with Some n => 0 <=? n | None => false end.

(** The instructions of one rule. *)
Definition rule_code (rule : LinuxDeviceCgroup) (dev_type acc : Z) : list insn :=
  let has_access := negb (acc =?
    Z.lor (Z.lor BPF_DEVCG_ACC_READ BPF_DEVCG_ACC_WRITE) BPF_DEVCG_ACC_MKNOD) in
  let has_major := has_number (major rule) in
  let has_minor := has_number (minor rule) in
  let instruction_count :=
    1 + (if has_access then 3 else 0) + (if has_major then 1 else 0)
      + (if has_minor then 1 else 0) + 2 in
  let next0 := instruction_count - 1 in
  let next1 := if has_access then next0 - 3 else next0 in
  let next2 := if has_major then next1 - 1 else next1 in
  let next3 := if has_minor then next2 - 1 else next2 in
  [jne_imm 2 dev_type next0]
  ++ (if has_access then [
        {| opc := Mov Reg X32; dst := 1; src := 3; off := 0; imm := 0 |};
        {| opc := BitAnd Imm X32; dst := 1; imm := swrap 32 acc; src := 0; off := 0 |};
        {| opc := JumpConditional NotEquals Reg; dst := 1; src := 3; off := next1;
           imm := 0 |} ] else [])
  ++ (if has_major then [jne_imm 4 (default 0 (major rule)) next2] else [])
  ++ (if has_minor then [jne_imm 5 (default 0 (minor rule)) next3] else [])
  ++ [ {| opc := Mov Imm X32; dst := 0; imm := Z.b2z (allow rule); src := 0; off := 0 |};
       {| opc := Exit; dst := 0; src := 0; off := 0; imm := 0 |} ].

Definition add_rule (rule : LinuxDeviceCgroup) (prog : list insn) :
    outcome ProgramError (list insn) :=
  dev_type ← bpf_dev_type (rule_typ rule);
  acc ← bpf_access (default "" (access rule));
  Ok (prog ++ rule_code rule dev_type acc).

Definition from_rules (rs : list LinuxDeviceCgroup) (default_allow : bool) :
    outcome ProgramError (list insn) :=
  prog ← for_each add_rule (rev rs) (init []);
  Ok (finalize default_allow prog).

(** ** Running a program on one device access *)

Definition bpf_cgroup_dev_ctx `{EbpfVm} (t : LinuxDeviceType) (maj min : Z)
    (acc : string) : outcome ProgramError (list byte) :=
  let type_access := match bpf_dev_type t with
                     | Ok t => Z.land t 65535 | _ => 0 end in
  a ← bpf_access acc;
  let type_access := Z.lor type_access (uwrap 32 (Z.shiftl a 16)) in
  Ok (to_ne_bytes vm_big type_access ++ to_ne_bytes vm_big maj
      ++ to_ne_bytes vm_big min).

Definition execute `{EbpfVm} (prog : list insn) (t : LinuxDeviceType) (maj min : Z)
    (acc : string) : outcome ProgramError Z :=
  mem ← bpf_cgroup_dev_ctx t maj min acc;
  if vm_accepts prog then ok_or (vm_execute prog mem) Io else Err Io.

(** ** The specification

    A rule covers an access when the device type is the rule's, every access
    letter asked for is one of the rule's, and the numbers of the rule that are
    given (and not negative, which is a wildcard) are those of the device.  The
    last rule that covers an access decides. *)
Definition covers_access (rule_acc acc : string) : bool :=
  forallb (λ c, bool_decide (c ∈ chars rule_acc)) (chars acc).

Definition covers_number (o : option Z) (n : Z) : bool :=
  match o with Some m => (m <? 0) || (m =? n) | None => true end.

Definition covers (rule : LinuxDeviceCgroup) (t : LinuxDeviceType) (maj min : Z)
    (acc : string) : bool :=
  bool_decide (rule_typ rule = t) && covers_access (default "" (access rule)) acc
  && covers_number (major rule) maj && covers_number (minor rule) min.

Definition verdict (rs : list LinuxDeviceCgroup) (d : bool) (t : LinuxDeviceType)
    (maj min : Z) (acc : string) : bool :=
  match List.find (λ rule, covers rule t maj min acc) (rev rs) with
  | Some rule => allow rule
  | None => d
  end.

(** What the whole list of rules of a container means: the last rule that is a
    wildcard (of type [a], whatever its other fields) or that names access
    letters and covers the access decides. *)
Definition decides (rule : LinuxDeviceCgroup) (t : LinuxDeviceType) (maj min : Z)
    (acc : string) : bool :=
  bool_decide (rule_typ rule = TypA)
  || (bool_decide (is_Some (access rule)) && covers rule t maj min acc).

Definition policy (rs : list LinuxDeviceCgroup) (d : bool) (t : LinuxDeviceType)
    (maj min : Z) (acc : string) : bool :=
  match List.find (λ rule, decides rule t maj min acc) (rev rs) with
  | Some rule => allow rule
  | None => d
  end.

(** The rules that are added to those of every container. *)
Definition default_rules : list LinuxDeviceCgroup :=
  map cgroup_of_device default_devices ++ default_allow_devices.

(** The device numbers of a rule fit an i32: the generator truncates them. *)
Definition rule_in_range (rule : LinuxDeviceCgroup) : Prop :=
  default 0 (major rule) < 2 ^ 31 ∧ default 0 (minor rule) < 2 ^ 31.

#[global] Instance rule_in_range_dec rule : Decision (rule_in_range rule).
Proof. unfold rule_in_range. apply _. Defined.

(** *** Access masks *)

Definition acc_bit (c : Ascii.ascii) : Z :=
  if bool_decide (c = "r"%char) then acc_read_bit
  else if bool_decide (c = "w"%char) then acc_write_bit
  else acc_mknod_bit.

Definition acc_char (c : Ascii.ascii) : Prop :=
  c = "r"%char ∨ c = "w"%char ∨ c = "m"%char.

Lemma char_access_Ok c v : char_access c = Ok v ↔ acc_char c ∧ v = 2 ^ acc_bit c.
Proof.
  unfold char_access, acc_bit, acc_char, BPF_DEVCG_ACC_READ, BPF_DEVCG_ACC_WRITE,
    BPF_DEVCG_ACC_MKNOD.
  repeat case_bool_decide; subst; simpl; split; intros; destruct_and?;
    simplify_eq; eauto; destruct_or?; simplify_eq; auto.
Qed.

Lemma acc_bit_range c : 0 ≤ acc_bit c < 16.
Proof.
  unfold acc_bit. pose proof devcg_read. pose proof devcg_write.
  pose proof devcg_mknod. repeat case_bool_decide; done.
Qed.

Lemma acc_bit_inj c1 c2 : acc_char c1 → acc_char c2 → acc_bit c1 = acc_bit c2 → c1 = c2.
Proof.
  destruct devcg_acc_ne as (? & ? & ?).
  intros [-> | [-> | ->]] [-> | [-> | ->]]; unfold acc_bit; simpl; congruence.
Qed.

(** The bits of an access mask are those of its letters. *)
Lemma bpf_access_spec acc v :
  bpf_access acc = Ok v →
  Forall acc_char (chars acc) ∧
  ∀ i, 0 ≤ i → Z.testbit v i = true ↔ ∃ c, c ∈ chars acc ∧ acc_bit c = i.
Proof.
  unfold bpf_access. intros Hv.
  cut (∀ l v0, for_each (λ c v, cur ← char_access c; Ok (Z.lor v cur)) l v0 = Ok v →
    Forall acc_char l ∧ ∀ i, 0 ≤ i → Z.testbit v i = true ↔
      Z.testbit v0 i = true ∨ ∃ c, c ∈ l ∧ acc_bit c = i).
  { intros Hgen. destruct (Hgen _ _ Hv) as [? Hbits]. split; [done|].
    intros i Hi. rewrite (Hbits i Hi), Z.testbit_0_l. naive_solver. }
  clear Hv. induction l as [|c l IH]; intros v0; simpl.
  { intros [= ->]. split; [constructor|]. set_solver. }
  intros (v1 & (a & [Hc ->]%char_access_Ok & [= <-])%bind_Ok & Hl)%bind_Ok.
  destruct (IH _ Hl) as [Hall Hbits]. split; [by constructor|].
  intros i Hi. rewrite (Hbits i Hi), Z.lor_spec, orb_true_iff.
  pose proof (acc_bit_range c). rewrite Z.pow2_bits_eqb, Z.eqb_eq by lia.
  set_solver.
Qed.

Lemma bpf_access_range acc v : bpf_access acc = Ok v → in_u 16 v.
Proof.
  intros [_ Hbits]%bpf_access_spec. apply in_u_bits; [lia|]. intros i Hi.
  apply not_true_iff_false. intros (c & _ & Hc)%Hbits; [|lia].
  pose proof (acc_bit_range c). lia.
Qed.

(** The mask test of the program decides inclusion of the access letters. *)
Lemma mask_covers acc1 acc2 v1 v2 :
  bpf_access acc1 = Ok v1 → bpf_access acc2 = Ok v2 →
  (Z.land v2 v1 =? v2) = covers_access acc1 acc2.
Proof.
  intros [Hc1 Hb1]%bpf_access_spec [Hc2 Hb2]%bpf_access_spec.
  apply eq_true_iff_eq. unfold covers_access.
  rewrite Z.eqb_eq, forallb_forall. rewrite Forall_forall in Hc1, Hc2. split.
  - intros Hland c Hc%list_elem_of_In. apply bool_decide_eq_true.
    pose proof (acc_bit_range c).
    assert (Z.testbit v2 (acc_bit c) = true) as Ht by (apply Hb2; [lia|eauto]).
    rewrite <- Hland, Z.land_spec, andb_true_iff in Ht. destruct Ht as [_ Ht].
    apply Hb1 in Ht as (c' & Hc' & Heq); [|lia].
    apply acc_bit_inj in Heq as ->; auto.
  - intros Hall. apply Z.bits_inj'. intros i Hi. rewrite Z.land_spec.
    destruct (Z.testbit v2 i) eqn:Ht; [|done]. simpl.
    apply Hb2 in Ht as (c & Hc & <-); [|done]. apply Hb1; [done|].
    specialize (Hall c). rewrite <- list_elem_of_In, bool_decide_eq_true in Hall. eauto.
Qed.

Lemma mask_full_covers acc1 acc2 v2 :
  bpf_access acc1 =
    Ok (Z.lor (Z.lor BPF_DEVCG_ACC_READ BPF_DEVCG_ACC_WRITE) BPF_DEVCG_ACC_MKNOD) →
  bpf_access acc2 = Ok v2 → covers_access acc1 acc2 = true.
Proof.
  intros H1 H2. rewrite <- (mask_covers _ _ _ _ H1 H2), Z.eqb_eq.
  destruct (bpf_access_spec _ _ H2) as [Hc2 Hb2]. rewrite Forall_forall in Hc2.
  apply Z.bits_inj'. intros i Hi. rewrite Z.land_spec.
  destruct (Z.testbit v2 i) eqn:Ht; [|done]. simpl.
  apply Hb2 in Ht as (c & Hc & <-); [|done].
  unfold BPF_DEVCG_ACC_READ, BPF_DEVCG_ACC_WRITE, BPF_DEVCG_ACC_MKNOD.
  pose proof devcg_read. pose proof devcg_write. pose proof devcg_mknod.
  rewrite !Z.lor_spec, !Z.pow2_bits_eqb, !orb_true_iff, !Z.eqb_eq by lia.
  destruct (Hc2 c Hc) as [-> | [-> | ->]]; unfold acc_bit; simpl; auto.
Qed.

(** *** Running the blocks of a program *)

Context `{VM : EbpfVm, !EbpfVmLaws VM}.

(** The device type a context carries. *)
Definition type_code (t : LinuxDeviceType) : Z :=
  match bpf_dev_type t with Ok t => Z.land t 65535 | _ => 0 end.

(** What registers 2 to 5 hold while the rules are checked. *)
Definition regs_ctx (r : regs) (ty a maj min : Z) : Prop :=
  r 2 = ty ∧ r 3 = a ∧ r 4 = maj ∧ r 5 = min.

Lemma in_u_64 z : in_u 32 z → uwrap 64 z = z.
Proof. intros Hz. apply uwrap_small. unfold in_u in *. lia. Qed.

Lemma jne_imm_run d v o rest k r m :
  o = Z.of_nat (length rest) → in_u 32 (r d) → 0 ≤ v < 2 ^ 31 →
  vm_run (jne_imm d v o :: rest ++ k) r m =
    if r d =? v then vm_run (rest ++ k) r m else vm_run k r m.
Proof.
  intros -> Hr Hv. rewrite vm_jne_imm; [|done|simpl; lia]. simpl.
  rewrite Nat2Z.id, drop_app_length. rewrite in_u_64 by done.
  rewrite swrap_small by (simpl; lia). rewrite in_u_64 by (unfold in_u; lia). done.
Qed.

Lemma access_run acc o rest k r m :
  o = Z.of_nat (length rest) → in_u 16 acc → in_u 16 (r 3) →
  ∃ r', (∀ x, x ≠ 1 → r' x = r x) ∧
  vm_run ({| opc := Mov Reg X32; dst := 1; src := 3; off := 0; imm := 0 |}
    :: {| opc := BitAnd Imm X32; dst := 1; imm := swrap 32 acc; src := 0; off := 0 |}
    :: {| opc := JumpConditional NotEquals Reg; dst := 1; src := 3; off := o;
           imm := 0 |} :: rest ++ k) r m =
    if Z.land (r 3) acc =? r 3 then vm_run (rest ++ k) r' m else vm_run k r' m.
Proof.
  intros -> Hacc Hr. unfold in_u in *.
  rewrite vm_mov32_reg by done; simpl. rewrite vm_and32_imm by done; simpl.
  rewrite vm_jne_reg by (done || (simpl; lia)); simpl.
  rewrite Nat2Z.id, drop_app_length, !rset_eq, !rset_ne by lia.
  rewrite (swrap_small 32) by (simpl; lia).
  rewrite !(uwrap_small 32) by (unfold in_u; rewrite ?uwrap_small; unfold in_u; lia).
  rewrite (uwrap_small 64 (r 3)) by (unfold in_u; lia).
  assert (in_u 16 (Z.land (r 3) acc)) as Hl.
  { apply in_u_bits; [lia|]. intros i Hi. rewrite Z.land_spec.
    rewrite (proj1 (in_u_bits 16 (r 3) ltac:(lia)) Hr) by lia. done. }
  unfold in_u in Hl. rewrite (uwrap_small 64 (Z.land _ _)) by (unfold in_u; lia).
  eexists. split; [|done]. intros x Hx. by rewrite !rset_ne.
Qed.

Lemma verdict_run (b : bool) k r m :
  vm_run ({| opc := Mov Imm X32; dst := 0; imm := Z.b2z b; src := 0; off := 0 |}
    :: {| opc := Exit; dst := 0; src := 0; off := 0; imm := 0 |} :: k) r m =
    Some (Z.b2z b).
Proof.
  rewrite vm_mov32_imm by done. rewrite vm_exit by done. simpl.
  rewrite rset_eq. by destruct b.
Qed.

Lemma covers_number_has o n :
  covers_number o n = if has_number o then n =? default 0 o else true.
Proof.
  unfold covers_number, has_number. destruct o as [m|]; simpl; [|done].
  destruct (Z.ltb_spec m 0), (Z.leb_spec 0 m); lia.
Qed.

Lemma type_code_ok t dt : bpf_dev_type t = Ok dt → type_code t = dt ∧ 0 < dt < 2 ^ 16.
Proof.
  intros Ht. unfold type_code. rewrite Ht.
  pose proof devcg_dev_block. pose proof devcg_dev_char.
  assert (0 < dt < 2 ^ 16) as Hdt by (destruct t; naive_solver).
  split; [|done]. change 65535 with (Z.ones 16).
  rewrite Z.land_ones by lia. apply Z.mod_small. lia.
Qed.

Lemma type_code_eqb t1 t2 dt :
  bpf_dev_type t1 = Ok dt → (type_code t2 =? dt) = bool_decide (t1 = t2).
Proof.
  intros Ht. destruct (type_code_ok _ _ Ht) as [_ Hdt].
  apply eq_true_iff_eq. rewrite Z.eqb_eq, bool_decide_eq_true. split.
  - pose proof devcg_dev_ne as Hne. destruct (bpf_dev_type t2) as [dt2| |] eqn:Ht2.
    + destruct (type_code_ok _ _ Ht2) as [-> _]. intros ->.
      destruct t1, t2; simplify_eq/=; congruence.
    + unfold type_code. rewrite Ht2. lia.
    + by destruct t2.
  - intros <-. by apply type_code_ok.
Qed.

Lemma type_code_range16 t : in_u 16 (type_code t).
Proof.
  destruct (bpf_dev_type t) as [dt| |] eqn:Ht;
    [destruct (type_code_ok _ _ Ht) as [-> ?]|..]; unfold type_code, in_u;
    rewrite ?Ht; lia.
Qed.

Lemma type_code_range t : in_u 32 (type_code t).
Proof. pose proof (type_code_range16 t). unfold in_u in *. lia. Qed.

(** A comparison of a device number, when the rule has one. *)
Lemma number_run (o : option Z) d n rest k r m :
  r d = n → in_u 32 n → default 0 o < 2 ^ 31 →
  vm_run ((if has_number o
           then [jne_imm d (default 0 o) (Z.of_nat (length rest))] else [])
          ++ rest ++ k) r m =
    if covers_number o n then vm_run (rest ++ k) r m else vm_run k r m.
Proof.
  intros Hr Hn Ho. rewrite covers_number_has.
  destruct (has_number o) eqn:Hh; [|done]. simpl.
  rewrite jne_imm_run; [by rewrite Hr|done|by rewrite Hr|].
  destruct o; simpl in *; [|done]. apply Z.leb_le in Hh. lia.
Qed.

(** The comparison of the access mask, when the rule does not allow every
    access. *)
Lemma mask_run racc acc av a rest k r m :
  bpf_access racc = Ok av → bpf_access acc = Ok a → r 3 = a →
  ∃ r', (∀ x, x ≠ 1 → r' x = r x) ∧
  vm_run ((if negb (av =? Z.lor (Z.lor BPF_DEVCG_ACC_READ BPF_DEVCG_ACC_WRITE)
                            BPF_DEVCG_ACC_MKNOD)
           then [ {| opc := Mov Reg X32; dst := 1; src := 3; off := 0; imm := 0 |};
        {| opc := BitAnd Imm X32; dst := 1; imm := swrap 32 av; src := 0; off := 0 |};
        {| opc := JumpConditional NotEquals Reg; dst := 1; src := 3;
           off := Z.of_nat (length rest); imm := 0 |} ] else [])
          ++ rest ++ k) r m =
    if covers_access racc acc then vm_run (rest ++ k) r' m else vm_run k r' m.
Proof.
  intros Hav Ha Hr.
  pose proof (bpf_access_range _ _ Ha). pose proof (bpf_access_range _ _ Hav).
  destruct (Z.eqb_spec av (Z.lor (Z.lor BPF_DEVCG_ACC_READ BPF_DEVCG_ACC_WRITE)
                            BPF_DEVCG_ACC_MKNOD)) as [->|Hne].
  - rewrite (mask_full_covers _ _ _ Hav Ha). simpl. by exists r.
  - destruct (access_run av _ rest k r m eq_refl) as (r' & Hr' & Hrun);
      [done|by rewrite Hr|].
    exists r'. split; [done|]. simpl. rewrite Hrun, Hr.
    by rewrite (mask_covers _ _ _ _ Hav Ha).
Qed.

(** Each comparison of a rule jumps to the end of the rule's code: its offset
    is the length of what follows it in the rule. *)
Lemma rule_code_eq rule dt av :
  rule_code rule dt av =
  let len l := Z.of_nat (length l) in
  let c0 := [ {| opc := Mov Imm X32; dst := 0; imm := Z.b2z (allow rule); src := 0;
                 off := 0 |};
              {| opc := Exit; dst := 0; src := 0; off := 0; imm := 0 |} ] in
  let c1 := (if has_number (minor rule)
             then [jne_imm 5 (default 0 (minor rule)) (len c0)] else []) ++ c0 in
  let c2 := (if has_number (major rule)
             then [jne_imm 4 (default 0 (major rule)) (len c1)] else []) ++ c1 in
  let c3 := (if negb (av =? Z.lor (Z.lor BPF_DEVCG_ACC_READ BPF_DEVCG_ACC_WRITE)
                              BPF_DEVCG_ACC_MKNOD)
             then [ {| opc := Mov Reg X32; dst := 1; src := 3; off := 0; imm := 0 |};
        {| opc := BitAnd Imm X32; dst := 1; imm := swrap 32 av; src := 0; off := 0 |};
        {| opc := JumpConditional NotEquals Reg; dst := 1; src := 3;
           off := len c2; imm := 0 |} ] else []) ++ c2 in
  jne_imm 2 dt (len c3) :: c3.
Proof. unfold rule_code. by repeat case_match. Qed.

(** The code of a rule exits with the rule's verdict when the rule covers the
    access, and otherwise falls through to the code that follows it. *)
Lemma rule_code_run rule t maj min acc dt av a k r m :
  bpf_dev_type (rule_typ rule) = Ok dt →
  bpf_access (default "" (access rule)) = Ok av →
  rule_in_range rule →
  bpf_access acc = Ok a → in_u 32 maj → in_u 32 min →
  regs_ctx r (type_code t) a maj min →
  ∃ r', regs_ctx r' (type_code t) a maj min ∧
    vm_run (rule_code rule dt av ++ k) r m =
      if covers rule t maj min acc then Some (Z.b2z (allow rule)) else vm_run k r' m.
Proof.
  intros Hdt Hav [Hmaj Hmin] Ha Hmaj' Hmin' (Hr2 & Hr3 & Hr4 & Hr5).
  pose proof (type_code_ok _ _ Hdt) as [_ Hdt16].
  pose proof (type_code_range t) as Hty.
  rewrite rule_code_eq. cbv zeta. rewrite <- app_comm_cons.
  rewrite jne_imm_run; [|done|by rewrite Hr2|lia].
  rewrite Hr2, (type_code_eqb _ _ _ Hdt). unfold covers.
  destruct (bool_decide_reflect (rule_typ rule = t)) as [_|_]; [|by exists r].
  rewrite <- app_assoc.
  match goal with |- ∃ _, _ ∧ vm_run (_ ++ ?rest ++ _) _ _ = _ =>
    destruct (mask_run _ _ _ _ rest k r m Hav Ha Hr3) as (r' & Hr' & Hrun) end.
  rewrite Hrun. exists r'. split; [by unfold regs_ctx; rewrite !Hr'|].
  destruct (covers_access _ _); [|done]. cbn [andb].
  rewrite <- app_assoc, (number_run _ _ maj); [|by rewrite Hr'|done|done].
  destruct (covers_number (major rule) maj); [|done]. cbn [andb].
  rewrite <- app_assoc, (number_run _ _ min); [|by rewrite Hr'|done|done].
  destruct (covers_number (minor rule) min); [|done].
  apply verdict_run.
Qed.

(** The code of a list of rules, checked in the order of the list. *)
Lemma rules_run rs t maj min acc a d k p prog r m :
  Forall rule_in_range rs →
  bpf_access acc = Ok a → in_u 32 maj → in_u 32 min →
  regs_ctx r (type_code t) a maj min →
  for_each add_rule rs prog = Ok p →
  ∃ code, p = prog ++ code ∧
    vm_run (finalize d code ++ k) r m =
      Some (Z.b2z (match List.find (λ rule, covers rule t maj min acc) rs with
                   | Some rule => allow rule | None => d end)).
Proof.
  intros Hrs Ha Hmaj Hmin. revert prog r.
  induction Hrs as [|rule rs Hrule Hrs IH]; intros prog r Hr; simpl.
  { intros [= ->]. exists []. rewrite app_nil_r. split; [done|]. apply verdict_run. }
  intros (p1 & (dt & Hdt & (av & Hav & [= <-])%bind_Ok)%bind_Ok & Hp)%bind_Ok.
  destruct (rule_code_run rule t maj min acc dt av a
    (finalize d [] ++ k) r m) as (r' & Hr' & _); try done.
  destruct (IH _ r' Hr' Hp) as (code & -> & Hrun).
  destruct (rule_code_run rule t maj min acc dt av a
    (finalize d code ++ k) r m) as (r'' & Hr'' & Hrun'); try done.
  destruct (IH _ r'' Hr'' Hp) as (code' & Hcode & Hrun'').
  apply app_inv_head in Hcode as <-.
  exists (rule_code rule dt av ++ code). rewrite app_assoc. split; [done|].
  unfold finalize in *. rewrite <- !app_assoc in *. simpl in *.
  rewrite Hrun'. destruct (covers _ _ _ _ _); [done|]. done.
Qed.

Lemma word_at_app (l1 l2 l3 : list byte) a w :
  a = Z.of_nat (length l1) → in_u 32 w → l2 = to_ne_bytes vm_big w →
  word_at vm_big (l1 ++ l2 ++ l3) a = w.
Proof.
  intros -> Hw ->. unfold word_at. rewrite Nat2Z.id, drop_app_length.
  rewrite take_app_length' by (by rewrite length_to_ne_bytes). by apply from_to_ne_bytes.
Qed.

(** The first word of a context: the type below, the access mask above. *)
Lemma type_access_split ty a :
  in_u 16 ty → in_u 16 a →
  let w := Z.lor ty (uwrap 32 (Z.shiftl a 16)) in
  in_u 32 w ∧ Z.land w 65535 = ty ∧ Z.shiftr w 16 = a.
Proof.
  intros Hty Ha. rewrite uwrap_small.
  2:{ unfold in_u in *. rewrite Z.shiftl_mul_pow2 by lia. lia. }
  pose proof (proj1 (in_u_bits 16 _ ltac:(lia)) Hty) as Hbt.
  pose proof (proj1 (in_u_bits 16 _ ltac:(lia)) Ha) as Hba. cbv zeta.
  split; [apply in_u_bits; [lia|]; intros i Hi|split; apply Z.bits_inj'; intros i Hi].
  - rewrite Z.lor_spec, Z.shiftl_spec, Hbt, Hba by lia. done.
  - rewrite Z.land_spec, Z.lor_spec, Z.shiftl_spec by done. change 65535 with (Z.ones 16).
    destruct (decide (i < 16)).
    + rewrite Z.ones_spec_low, (Z.testbit_neg_r a) by lia. by rewrite orb_false_r, andb_true_r.
    + rewrite Z.ones_spec_high, Hbt by lia. by rewrite andb_false_r.
  - rewrite Z.shiftr_spec, Z.lor_spec, Z.shiftl_spec, Hbt by lia. simpl. f_equal. lia.
Qed.

(** The prologue loads the context into the registers. *)
Lemma init_run t maj min acc a mem k :
  bpf_access acc = Ok a → in_u 32 maj → in_u 32 min →
  bpf_cgroup_dev_ctx t maj min acc = Ok mem →
  ∃ r, regs_ctx r (type_code t) a maj min ∧
    vm_execute (init [] ++ k) mem = vm_run k r mem.
Proof.
  intros Ha Hmaj Hmin Hmem. unfold bpf_cgroup_dev_ctx in Hmem. rewrite Ha in Hmem.
  injection Hmem as Hmem. fold (type_code t) in Hmem.
  destruct (type_access_split (type_code t) a) as (Hw & Hlow & Hhigh);
    [apply type_code_range16|by eapply bpf_access_range|].
  set (w := Z.lor _ _) in *.
  assert (length mem = 12%nat) as Hlen
    by (by rewrite <- Hmem, !length_app, !length_to_ne_bytes).
  assert (word_at vm_big mem 0 = w) as Hw0.
  { rewrite <- Hmem. by apply (word_at_app []). }
  assert (word_at vm_big mem 4 = maj) as Hw4.
  { rewrite <- Hmem. apply word_at_app; [by rewrite length_to_ne_bytes|done..]. }
  assert (word_at vm_big mem 8 = min) as Hw8.
  { rewrite <- Hmem, app_assoc. rewrite <- (app_nil_r (to_ne_bytes vm_big min)).
    apply word_at_app; [by rewrite length_app, !length_to_ne_bytes|done..]. }
  unfold vm_execute, init. simpl. set (r0 := rset (λ _, 0) 1 vm_base).
  assert (r0 1 = vm_base) as Hr0 by done. clearbody r0.
  rewrite vm_load_word by (simpl; rewrite ?Hr0; done || lia); simpl.
  rewrite Hr0, Z.add_0_r, Z.sub_diag, Hw0.
  rewrite vm_and32_imm by done; simpl. rewrite rset_eq, (uwrap_small 32 w) by done.
  rewrite (uwrap_small 32 65535), Hlow by (unfold in_u; lia).
  rewrite vm_load_word by (simpl; rewrite ?rset_ne, ?Hr0 by lia; done || lia); simpl.
  rewrite !(rset_ne _ _ _ 1), Hr0, Z.add_0_r, Z.sub_diag, Hw0 by lia.
  rewrite vm_rsh32_imm by (simpl; done || lia); simpl.
  rewrite rset_eq, (uwrap_small 32 w), Hhigh by done.
  rewrite vm_load_word by (simpl; rewrite ?rset_ne, ?Hr0 by lia; done || lia); simpl.
  rewrite !(rset_ne _ _ _ 1), Hr0 by lia.
  replace (vm_base + 4 - vm_base) with 4 by lia. rewrite Hw4.
  rewrite vm_load_word by (simpl; rewrite ?rset_ne, ?Hr0 by lia; done || lia); simpl.
  rewrite !(rset_ne _ _ _ 1), Hr0 by lia.
  replace (vm_base + 8 - vm_base) with 8 by lia. rewrite Hw8.
  eexists. split; [|done]. done.
Qed.

(** *** The verifier accepts the generated programs *)

Lemma insns_ok_app n i l1 l2 :
  insns_ok n i (l1 ++ l2) =
  insns_ok n i l1 && insns_ok n (i + Z.of_nat (length l1)) l2.
Proof.
  revert i. induction l1 as [|x l1 IH]; intros i; simpl; [by rewrite Z.add_0_r|].
  rewrite IH, andb_assoc. do 2 f_equal. lia.
Qed.

Lemma rule_code_length rule dt av : (3 ≤ length (rule_code rule dt av) ≤ 8)%nat.
Proof. unfold rule_code. repeat case_match; simpl; lia. Qed.

Lemma rule_code_ok n i rule dt av :
  0 ≤ i → i + Z.of_nat (length (rule_code rule dt av)) < n →
  insns_ok n i (rule_code rule dt av) = true.
Proof.
  unfold rule_code. intros Hi.
  repeat case_match; unfold insns_ok, insn_ok; simpl; lia.
Qed.

Lemma rules_code_ok rs prog p n :
  for_each add_rule rs prog = Ok p →
  ∃ code, p = prog ++ code ∧ (length code ≤ 8 * length rs)%nat ∧
    ∀ i, 0 ≤ i → i + Z.of_nat (length code) < n → insns_ok n i code = true.
Proof.
  revert prog. induction rs as [|rule rs IH]; intros prog; simpl.
  { intros [= ->]. exists []. rewrite app_nil_r. simpl. auto with lia. }
  intros (p1 & (dt & _ & (av & _ & [= <-])%bind_Ok)%bind_Ok & Hp)%bind_Ok.
  destruct (IH _ Hp) as (code & -> & Hlen & Hok).
  exists (rule_code rule dt av ++ code). rewrite app_assoc, length_app.
  pose proof (rule_code_length rule dt av).
  split; [done|]. split; [lia|]. intros i Hi Hn.
  rewrite insns_ok_app, rule_code_ok, Hok by lia. done.
Qed.

Lemma from_rules_verifiable rs d p :
  8 * Z.of_nat (length rs) + 8 ≤ 1000000 → from_rules rs d = Ok p → verifiable p = true.
Proof.
  unfold from_rules. intros Hlen (prog & Hp & [= <-])%bind_Ok.
  apply (rules_code_ok _ _ _ (Z.of_nat (length (finalize d prog)))) in Hp
    as (code & -> & Hcode & Hok). rewrite length_rev in Hcode.
  unfold verifiable, finalize in *. rewrite last_app. cbn [last].
  rewrite !insns_ok_app. rewrite !length_app in *. simpl in *.
  rewrite Hok by lia. unfold insn_ok; simpl.
  rewrite andb_true_r. apply Z.leb_le. lia.
Qed.

End devices.

(** ** Properties *)

Section properties.
Context `{OciDevices, DevcgConsts} `{VM : EbpfVm, !EbpfVmLaws VM}.

(** The program generated from a rule list computes the verdict of the list. *)
Lemma execute_verdict rs d p t maj min acc :
  Forall rule_in_range rs →
  8 * Z.of_nat (length rs) + 8 ≤ 1000000 →
  from_rules rs d = Ok p →
  in_u 32 maj → in_u 32 min → is_ok (bpf_access acc) = true →
  execute p t maj min acc = Ok (Z.b2z (verdict rs d t maj min acc)).
Proof.
  intros Hrs Hlen Hp Hmaj Hmin Hacc.
  destruct (bpf_access acc) as [a| |] eqn:Ha; try done.
  pose proof (from_rules_verifiable _ _ _ Hlen Hp) as Hok%vm_accepts_verifiable.
  unfold execute. unfold from_rules in Hp. apply bind_Ok in Hp as (prog & Hp & [= <-]).
  destruct (bpf_cgroup_dev_ctx t maj min acc) as [mem| |] eqn:Hmem;
    [|by unfold bpf_cgroup_dev_ctx in Hmem; rewrite Ha in Hmem..]. simpl.
  rewrite Hok.
  destruct (rules_code_ok _ _ _ 0 Hp) as (code & -> & _).
  destruct (init_run t maj min acc a mem (finalize d code) Ha Hmaj Hmin Hmem)
    as (r & Hr & Hrun).
  destruct (rules_run (rev rs) t maj min acc a d [] (init [] ++ code) (init []) r mem) as
    (code' & Hcode & Hrun'); [by apply Forall_rev|done..|].
  apply app_inv_head in Hcode as <-. rewrite app_nil_r in Hrun'.
  unfold finalize in *. rewrite <- app_assoc, Hrun, Hrun'. done.
Qed.

(** The emulator keeps the meaning of a rule list: a wildcard rule discards
    what came before, a rule without access letters decides nothing. *)
Lemma emulator_policy em rs t maj min acc :
  let em' := emulator_add_rules em rs in
  verdict (rules em') (default_allow em') t maj min acc =
    policy rs (verdict (rules em) (default_allow em) t maj min acc) t maj min acc.
Proof.
  cbv zeta. unfold verdict, policy, emulator_add_rules.
  induction rs as [|rule rs IH] using rev_ind; [done|].
  rewrite foldl_snoc, rev_unit. simpl. unfold emulator_add_rule at 1 3, decides.
  case_bool_decide as Htyp; [done|]. simpl.
  destruct (access rule) as [a|] eqn:Hacc; [|done]. simpl.
  rewrite rev_unit. simpl. destruct (covers rule t maj min acc); [done|]. apply IH.
Qed.

Lemma emulator_rules_Forall P em rs :
  Forall P (rules em) → Forall P rs → Forall P (rules (emulator_add_rules em rs)).
Proof.
  intros Hem Hrs. revert em Hem. induction Hrs as [|rule rs Hr Hrs IH]; [done|].
  intros em Hem. apply IH. unfold emulator_add_rule. case_bool_decide; [constructor|].
  destruct (access rule); simpl; [|done]. apply Forall_app. auto.
Qed.

Lemma emulator_rules_length em rs :
  (length (rules (emulator_add_rules em rs)) ≤ length (rules em) + length rs)%nat.
Proof.
  revert em. induction rs as [|rule rs IH]; intros em; simpl; [lia|].
  etrans; [apply IH|]. unfold emulator_add_rule.
  case_bool_decide; simpl; [lia|]. destruct (access rule); simpl; [|lia].
  rewrite length_app. simpl. lia.
Qed.

(** A rule that decides an access overrides what comes before it, up to the
    rules after it. *)
Lemma policy_app rs1 rs2 d t maj min acc :
  policy (rs1 ++ rs2) d t maj min acc =
    policy rs2 (policy rs1 d t maj min acc) t maj min acc.
Proof.
  unfold policy. rewrite rev_app_distr.
  induction (rev rs2) as [|rule l IH]; simpl; [done|]. by destruct (decides rule t maj min acc).
Qed.

Lemma policy_all_allow rs d t maj min acc rule :
  Forall (λ r, allow r = true) rs → rule ∈ rs →
  decides rule t maj min acc = true → policy rs d t maj min acc = true.
Proof.
  intros Hall Hin Hdec. unfold policy.
  destruct (List.find _ _) as [r|] eqn:Hf.
  - apply find_some in Hf as [Hr _]. rewrite <- in_rev, <- list_elem_of_In in Hr.
    rewrite Forall_forall in Hall. auto.
  - eapply find_none in Hf; [by rewrite Hdec in Hf|].
    by rewrite <- in_rev, <- list_elem_of_In.
Qed.

Lemma bpf_access_ok_iff acc : ok_iff (bpf_access acc) (Forall acc_char (chars acc)).
Proof.
  apply ok_iff_for_each. intros c v _. unfold char_access, acc_char.
  repeat case_bool_decide; simpl; subst; naive_solver.
Qed.

Lemma add_rule_ok_iff rule prog :
  ok_iff (add_rule rule prog) ((rule_typ rule = TypB ∨ rule_typ rule = TypC) ∧
    Forall acc_char (chars (default "" (access rule)))).
Proof.
  apply ok_iff_bind; [destruct (rule_typ rule); simpl; naive_solver|].
  intros dt _. eapply ok_iff_mono; [|apply ok_iff_bind with (Q := True)];
    [by rewrite (right_id True (∧))|apply bpf_access_ok_iff|done].
Qed.

(** C1: the device program implements the container's device policy.  For
    every list of user rules, whose device numbers fit an i32, such that the
    generator accepts the emulator's rules, running the generated program on an
    access with valid access letters gives the verdict of the last rule that
    decides the access (a wildcard rule decides every access), or the default. *)
Theorem device_program_implements_policy rs d p t maj min acc :
  let em := emulator_add_rules (with_default_allow d) rs in
  Forall rule_in_range rs →
  8 * Z.of_nat (length rs) + 8 ≤ 1000000 →
  from_rules (rules em) (default_allow em) = Ok p →
  in_u 32 maj → in_u 32 min → is_ok (bpf_access acc) = true →
  execute p t maj min acc = Ok (Z.b2z (policy rs d t maj min acc)).
Proof.
  cbv zeta. intros Hrs Hlen Hp Hmaj Hmin Hacc.
  pose proof (emulator_rules_length (with_default_allow d) rs) as Hl. simpl in Hl.
  rewrite (execute_verdict _ _ _ _ _ _ _
    (emulator_rules_Forall _ (with_default_allow d) _ (Forall_nil_2 _) Hrs)
    ltac:(lia) Hp Hmaj Hmin Hacc).
  by rewrite (emulator_policy (with_default_allow d)).
Qed.

(** C14: the generator rejects exactly the rules it cannot express.  It succeeds
    iff every rule is for character or block devices with access letters among
    r, w and m; otherwise it returns an error, and it never panics. *)
Theorem from_rules_succeeds_iff rs d :
  ok_iff (from_rules rs d)
    (Forall (λ rule, (rule_typ rule = TypB ∨ rule_typ rule = TypC) ∧
                     Forall acc_char (chars (default "" (access rule)))) rs).
Proof.
  unfold from_rules. eapply ok_iff_mono; [|apply ok_iff_bind with (Q := True)];
    [|apply ok_iff_for_each; intros; apply add_rule_ok_iff|done].
  rewrite (right_id True (∧)). split; [intros ?%Forall_rev; by rewrite rev_involutive in *|].
  apply Forall_rev.
Qed.

Lemma from_rules_no_panic rs d : from_rules rs d ≠ Panic.
Proof.
  pose proof (ok_iff_for_each _ add_rule (rev rs) (init []) (λ rule prog _, add_rule_ok_iff rule prog)) as Hok.
  unfold from_rules. by destruct (for_each _ _ _).
Qed.

Lemma apply_emulator_rules devices :
  apply_emulator devices =
  emulator_add_rules (with_default_allow false) (default [] devices ++ default_rules).
Proof.
  unfold apply_emulator, emulator_add_rules, default_rules. rewrite (foldl_app _ (default [] devices)).
  by destruct devices.
Qed.

(** What the [oci-spec] crate documents of the conversion of a device. *)
Definition devices_converted : Prop :=
  ∀ dev, let r := cgroup_of_device dev in
    allow r = true ∧ typ r = Some (dev_typ dev) ∧ major r = Some (dev_major dev)
    ∧ minor r = Some (dev_minor dev) ∧ access r = Some "rwm".

Lemma default_rules_range :
  devices_converted → Forall (λ r, allow r = true ∧ is_Some (access r) ∧ rule_in_range r) default_rules.
Proof.
  intros Hdev. apply Forall_app. split; [|by apply (bool_decide_unpack _)].
  apply Forall_map, Forall_forall. intros dev Hd.
  destruct (Hdev dev) as (-> & _ & Hma & Hmi & ->).
  split; [done|]. split; [by eexists|]. unfold rule_in_range. rewrite Hma, Hmi. simpl.
  clear Hma Hmi. revert dev Hd. apply Forall_forall. repeat constructor; simpl; lia.
Qed.

(** The program of [apply_devices] implements the policy of the rules of the container
    followed by the default rules. *)
Lemma apply_program_policy devices p t maj min acc :
  devices_converted →
  from_rules (rules (apply_emulator devices)) (default_allow (apply_emulator devices)) = Ok p →
  Forall rule_in_range (default [] devices) →
  8 * Z.of_nat (length (default [] devices)) + 104 ≤ 1000000 →
  in_u 32 maj → in_u 32 min → is_ok (bpf_access acc) = true →
  execute p t maj min acc = Ok (Z.b2z (policy (default [] devices ++ default_rules) false t maj min acc)).
Proof.
  intros Hdev Hp Huser Hlen Hmaj Hmin Hacc. rewrite apply_emulator_rules in Hp.
  pose proof (emulator_rules_length (with_default_allow false) (default [] devices ++ default_rules)) as Hl.
  rewrite length_app in Hl. simpl in Hl.
  assert (Forall rule_in_range (default [] devices ++ default_rules)) as Hrange.
  { apply Forall_app. split; [done|]. eapply Forall_impl; [by apply default_rules_range|]. naive_solver. }
  rewrite (execute_verdict _ _ _ _ _ _ _
    (emulator_rules_Forall rule_in_range (with_default_allow false) _ (Forall_nil_2 _) Hrange)
    ltac:(lia) Hp Hmaj Hmin Hacc).
  by rewrite emulator_policy.
Qed.

(** C6: a default device stays usable.  Whatever rules the container brings,
    the program that [apply_devices] builds allows every access that one of the
    default rules covers (creating any character or block device node, and all
    access to the standard devices). *)
Theorem default_devices_allowed user p rule t maj min acc :
  devices_converted →
  let em := apply_emulator (Some user) in
  from_rules (rules em) (default_allow em) = Ok p →
  Forall rule_in_range user →
  8 * Z.of_nat (length user) + 104 ≤ 1000000 →
  rule ∈ default_rules →
  in_u 32 maj → in_u 32 min → is_ok (bpf_access acc) = true →
  covers rule t maj min acc = true →
  execute p t maj min acc = Ok 1.
Proof.
  intros Hdev em Hp Huser Hlen Hin Hmaj Hmin Hacc Hcov.
  rewrite (apply_program_policy (Some user) p) by done. cbn.
  rewrite policy_app, (policy_all_allow _ _ _ _ _ _ rule); [done| |done|].
  - eapply Forall_impl; [by apply default_rules_range|]. naive_solver.
  - unfold decides. rewrite Hcov. pose proof (default_rules_range Hdev) as Hdef. rewrite Forall_forall in Hdef.
    destruct (Hdef _ Hin) as (_ & Hs & _).
    rewrite (bool_decide_eq_true_2 _ Hs). apply orb_true_r.
Qed.

End properties.

(** The values the [oci-spec] crate documents. *)
#[global] Instance oci_devices : OciDevices := {|
  typ_default := TypA;
  cgroup_of_device dev :=
    {| allow := true; typ := Some (dev_typ dev); major := Some (dev_major dev);
       minor := Some (dev_minor dev); access := Some "rwm" |};
|}.

Definition example_rules : list LinuxDeviceCgroup := [
  {| allow := true; typ := Some TypC; major := None; minor := Some 20; access := Some "rw" |};
  {| allow := false; typ := Some TypC; major := Some 10; minor := None; access := Some "r" |} ].

Definition example_program (em : Emulator) : list insn :=
  match from_rules (rules em) (default_allow em) with Ok p => p | _ => [] end.

Lemma device_program_implements_policy_witness :
  let em := emulator_add_rules (with_default_allow false) example_rules in
  execute (example_program em) TypC 10 20 "r" = Ok 0 ∧
  execute (example_program em) TypC 10 20 "w" = Ok 1 ∧
  execute (example_program em) TypB 9 20 "w" = Ok 0.
Proof.
  cbv zeta.
  split; [|split];
    (etrans; [eapply (device_program_implements_policy example_rules false);
              [by apply (bool_decide_unpack _)|simpl; lia|reflexivity
              |unfold in_u; lia|unfold in_u; lia|reflexivity]|reflexivity]).
Defined.

Lemma default_devices_allowed_witness :
  execute (example_program (apply_emulator (Some example_rules))) TypC 10 200 "rw" = Ok 1.
Proof.
  eapply (default_devices_allowed example_rules _
    {| allow := true; typ := Some TypC; major := Some 10; minor := Some 200;
       access := Some "rwm" |});
    [done|reflexivity|by apply (bool_decide_unpack _)|simpl; lia| |unfold in_u; lia
    |unfold in_u; lia|reflexivity|reflexivity].
  vm_compute. set_solver.
Defined.
