(* ===== verification/BpfAttach.v ===== *)
(** * BpfAttach: putting a device program in force

    Models [crates/libcgroups/src/v2/devices/bpf.rs] and [apply_devices] of
    [controller.rs]: the program of [Devices] is loaded and attached to a cgroup, and the
    programs that were attached before are detached.  The functions of [libbpf] are an
    interface with their documented behaviour as laws. *)
From S2P Require Import Prelude Bpf Devices Paths.
Local Open Scope string_scope.
Local Open Scope list_scope.
Local Open Scope Z_scope.

Definition ENOSPC : Z := 28.

(** The calls, on the state of the kernel.  A negative or non-zero result is an error, whose
    number is in [errno].  What can be observed of the state: the programs attached to the
    directory of a cgroup, the program with an identifier, and what a descriptor stands for. *)
Class LibBpf (W : Type) : Type := {
  errno : W → Z;
  setrlimit_memlock : Z → Z → W → Z * W;
  bpf_prog_load : string → list insn → W → Z * W;
  dir_open : Path → W → (Z + Z) * W;
  bpf_prog_query : Z → list Z → W → (Z * Z * list Z) * W;
  bpf_prog_get_fd_by_id : Z → W → Z * W;
  bpf_prog_attach : Z → Z → W → Z * W;
  bpf_prog_detach2 : Z → Z → W → Z * W;
  attached : W → Path → list Z;
  program : W → Z → option (list insn);
  fd_prog : W → Z → option Z;
  fd_dir : W → Z → option Path;
}.

(** Programs are not changed and descriptors stay valid. *)
Definition keeps `{LibBpf W} (w w' : W) : Prop :=
  (∀ id p, program w id = Some p → program w' id = Some p) ∧
  (∀ fd id, fd_prog w fd = Some id → fd_prog w' fd = Some id) ∧
  (∀ fd d, fd_dir w fd = Some d → fd_dir w' fd = Some d).

Definition unchanged `{LibBpf W} (w w' : W) : Prop :=
  keeps w w' ∧ ∀ d, attached w' d = attached w d.

(** The programs of one directory change as given. *)
Definition changes `{LibBpf W} (d : Path) (l : list Z) (w w' : W) : Prop :=
  keeps w w' ∧ attached w' d = l ∧ ∀ d', d' ≠ d → attached w' d' = attached w d'.

Class LibBpfLaws (W : Type) `{LibBpf W} : Prop := {
  setrlimit_law cur max w : unchanged w (setrlimit_memlock cur max w).2;
  load_law lic p w fd w' : bpf_prog_load lic p w = (fd, w') →
    unchanged w w' ∧
    (0 ≤ fd → ∃ id, fd_prog w' fd = Some id ∧ program w' id = Some p ∧ ∀ d, id ∉ attached w d);
  open_law d w r w' : dir_open d w = (r, w') →
    unchanged w w' ∧ (∀ fd, r = inr fd → fd_dir w' fd = Some d);
  query_law fd d buf w ret cnt ids w' :
    fd_dir w fd = Some d → bpf_prog_query fd buf w = ((ret, cnt, ids), w') →
    unchanged w w' ∧
    (ret = 0 → cnt = Z.of_nat (length (attached w d)) ∧ attached w d `prefix_of` ids) ∧
    (ret ≠ 0 → errno w' = ENOSPC →
       cnt = Z.of_nat (length (attached w d)) ∧ (length buf < length (attached w d))%nat ∧
       length ids = length buf);
  query_room fd d buf w :
    fd_dir w fd = Some d → (length (attached w d) ≤ length buf)%nat →
    (bpf_prog_query fd buf w).1.1.1 ≠ 0 → errno (bpf_prog_query fd buf w).2 ≠ ENOSPC;
  get_fd_law id w fd w' : bpf_prog_get_fd_by_id id w = (fd, w') →
    unchanged w w' ∧ (0 ≤ fd → fd_prog w' fd = Some id);
  attach_law fd id cg d w ret w' :
    fd_prog w fd = Some id → fd_dir w cg = Some d → bpf_prog_attach fd cg w = (ret, w') →
    if ret =? 0 then changes d (attached w d ++ [id]) w w' else unchanged w w';
  detach_law fd id cg d w ret w' :
    fd_prog w fd = Some id → fd_dir w cg = Some d → bpf_prog_detach2 fd cg w = (ret, w') →
    if ret =? 0 then changes d (filter (λ i, i ≠ id) (attached w d)) w w' else unchanged w w';
}.

(** ** [bpf.rs] *)

Record ProgramInfo : Type := MkProgramInfo { id : Z; fd : Z }.

Inductive BpfError : Type := Errno (e : Z) | FailedToIncreaseRLimit.

Inductive DevicesControllerError : Type :=
  | DBpf (e : BpfError)
  | DNix (e : Z)
  | DProgram (e : ProgramError).

Section bpf.
Context {W : Type} `{LibBpf W}.

(** A call that reports an error by its result. *)
Definition checked (failed : Z → bool) (call : W → Z * W) : io W BpfError Z := λ w,
  let '(ret, w) := call w in
  if failed ret then (Err (Errno (errno w)), w) else (Ok ret, w).

Definition load (license : string) (insns : list insn) : io W BpfError Z :=
  checked (λ prog_fd, prog_fd <? 0) (bpf_prog_load license insns).

(** [Vec::resize] with zeros. *)
Definition resize_ids (n : Z) (l : list Z) : list Z := resize (Z.to_nat n) 0 l.

Fixpoint query_loop (n : nat) (cgroup_fd : Z) (prog_ids : list Z) : io W BpfError (list Z) :=
  match n with
  | O => mret prog_ids
  | S n => λ w,
      let len := Z.of_nat (length prog_ids) in
      let '((ret, prog_cnt, prog_ids), w) := bpf_prog_query cgroup_fd prog_ids w in
      if negb (ret =? 0) then
        if errno w =? ENOSPC then
          if len <? prog_cnt then query_loop n cgroup_fd (resize_ids prog_cnt prog_ids) w
          else (Panic, w)
        else (Err (Errno (errno w)), w)
      else (Ok (resize_ids prog_cnt prog_ids), w)
  end.

Definition get_fd (prog_id : Z) : io W BpfError Z := λ w,
  let '(prog_fd, w) := bpf_prog_get_fd_by_id prog_id w in (Ok prog_fd, w).

(** Identifiers for which no descriptor can be got are skipped. *)
Fixpoint collect_fds (prog_ids : list Z) : io W BpfError (list ProgramInfo) :=
  match prog_ids with
  | [] => mret []
  | prog_id :: prog_ids =>
      prog_fd ← get_fd prog_id;
      prog_fds ← collect_fds prog_ids;
      mret (if prog_fd <? 0 then prog_fds else MkProgramInfo prog_id prog_fd :: prog_fds)
  end.

Definition query (cgroup_fd : Z) : io W BpfError (list ProgramInfo) :=
  prog_ids ← query_loop 10 cgroup_fd (replicate 64 0);
  collect_fds prog_ids.

Definition detach2 (prog_fd cgroup_fd : Z) : io W BpfError () :=
  _ ← checked (λ ret, negb (ret =? 0)) (bpf_prog_detach2 prog_fd cgroup_fd);
  mret ().

Definition attach (prog_fd cgroup_fd : Z) : io W BpfError () :=
  _ ← checked (λ ret, negb (ret =? 0)) (bpf_prog_attach prog_fd cgroup_fd);
  mret ().

Definition bump_memlock_rlimit : io W BpfError () := λ w,
  let '(ret, w) := setrlimit_memlock (Z.shiftl 128 20) (Z.shiftl 128 20) w in
  if negb (ret =? 0) then (Err FailedToIncreaseRLimit, w) else (Ok (), w).

(** ** [controller.rs] *)

Definition LICENSE : string := "Apache".

Section controller.
Context `{OciDevices, DevcgConsts}.

Definition open_cgroup (cgroup_root : Path) : io W DevicesControllerError Z := λ w,
  let '(r, w) := dir_open cgroup_root w in (map_err DNix (of_sum r), w).

Definition apply_devices (cgroup_root : Path) (linux_devices : option (list LinuxDeviceCgroup)) :
    io W DevicesControllerError () :=
  let emulator := apply_emulator linux_devices in
  prog ← pure (map_err DProgram (from_rules (rules emulator) (default_allow emulator)));
  _ ← io_map_err DBpf bump_memlock_rlimit;
  prog_fd ← io_map_err DBpf (load LICENSE prog);
  cgroup_fd ← open_cgroup cgroup_root;
  old_progs ← io_map_err DBpf (query cgroup_fd);
  _ ← io_map_err DBpf (attach prog_fd cgroup_fd);
  io_each (λ old_prog, io_map_err DBpf (detach2 (fd old_prog) cgroup_fd)) old_progs.
End controller.
End bpf.

Section laws.
Context {W : Type} `{LibBpf W, !LibBpfLaws W}.
Implicit Types w : W.

#[local] Instance keeps_preorder : PreOrder (keeps (W:=W)).
Proof.
  split; [done|]. intros w1 w2 w3 (H1 & H2 & H3) (H4 & H5 & H6). unfold keeps. eauto 10.
Qed.

#[local] Instance unchanged_preorder : PreOrder (unchanged (W:=W)).
Proof.
  split; [by split|]. intros w1 w2 w3 [H1 H2] [H3 H4].
  split; [by etrans|]. intros d. by rewrite H4.
Qed.

Lemma resize_prefix (l ids : list Z) :
  l `prefix_of` ids → resize_ids (Z.of_nat (length l)) ids = l.
Proof. intros [k ->]. unfold resize_ids. by rewrite Nat2Z.id, resize_le, take_app_length by (rewrite length_app; lia). Qed.

(** A query with enough room returns the attached programs. *)
Lemma query_loop_room n cg d buf w :
  fd_dir w cg = Some d → (length (attached w d) ≤ length buf)%nat →
  ends (query_loop (S n) cg buf) (λ ids w', ids = attached w d ∧ unchanged w w') (unchanged w) w.
Proof.
  intros Hd Hroom. pose proof (query_room cg d buf w Hd Hroom) as Hno. unfold ends. cbn [query_loop].
  destruct (bpf_prog_query cg buf w) as [[[ret cnt] ids] w'] eqn:Hq.
  destruct (query_law _ _ _ _ _ _ _ _ Hd Hq) as (Hun & Hok & _). cbn in Hno.
  destruct (Z.eqb_spec ret 0) as [->|Hne]; cbn.
  - destruct (Hok eq_refl) as [-> Hp]. split; [by apply resize_prefix|done].
  - by destruct (Z.eqb_spec (errno w') ENOSPC); [destruct (Hno Hne)|].
Qed.

Lemma query_loop_spec n cg d buf w :
  fd_dir w cg = Some d →
  ends (query_loop (S (S n)) cg buf) (λ ids w', ids = attached w d ∧ unchanged w w') (unchanged w) w.
Proof.
  intros Hd. destruct (decide (length (attached w d) ≤ length buf)%nat) as [?|Hlt];
    [by apply query_loop_room|].
  unfold ends. change (query_loop (S (S n)) cg buf w) with
    (let '((ret, prog_cnt, prog_ids), w1) := bpf_prog_query cg buf w in
     if negb (ret =? 0) then
       if errno w1 =? ENOSPC then
         if Z.of_nat (length buf) <? prog_cnt then query_loop (S n) cg (resize_ids prog_cnt prog_ids) w1
         else (Panic, w1)
       else (Err (Errno (errno w1)), w1)
     else (Ok (resize_ids prog_cnt prog_ids), w1)).
  destruct (bpf_prog_query cg buf w) as [[[ret cnt] ids] w1] eqn:Hq.
  destruct (query_law _ _ _ _ _ _ _ _ Hd Hq) as (Hun & Hok & Herr).
  destruct (Z.eqb_spec ret 0) as [->|Hne]; cbn [negb].
  { destruct (Hok eq_refl) as [-> Hp]. split; [by apply resize_prefix|done]. }
  destruct (Z.eqb_spec (errno w1) ENOSPC) as [He|]; [|done].
  destruct (Herr Hne He) as (-> & Hlen & _).
  replace (Z.of_nat (length buf) <? _) with true by lia.
  assert (attached w1 d = attached w d) as Hatt by apply Hun.
  pose proof (query_loop_room n cg d (resize_ids (Z.of_nat (length (attached w d))) ids) w1) as Hroom.
  unfold ends in Hroom. unfold resize_ids at 1 in Hroom. rewrite Nat2Z.id, length_resize, Hatt in Hroom.
  specialize (Hroom (proj2 (proj2 (proj1 Hun)) _ _ Hd) ltac:(done)).
  destruct (query_loop (S n) cg _ w1) as [[ids'|e|] w2];
    [destruct Hroom as [-> ?]; split; [done|by etrans]|by etrans|done].
Qed.

(** A program for which no descriptor can be got. *)
Definition unreachable (id : Z) : Prop := ∃ w, (bpf_prog_get_fd_by_id id w).1 < 0.

(** The descriptors stand for their programs, and only unreachable programs are left out. *)
Definition covered (ids : list Z) (infos : list ProgramInfo) (w : W) : Prop :=
  Forall (λ i, fd_prog w (fd i) = Some (id i) ∧ id i ∈ ids) infos ∧
  ∀ j, j ∈ ids → j ∈ id <$> infos ∨ unreachable j.

Lemma covered_keeps ids infos w w' : keeps w w' → covered ids infos w → covered ids infos w'.
Proof.
  intros Hk [Hf Hu]. split; [|done]. eapply Forall_impl; [exact Hf|]. intros i [? ?]. split; [|done].
  by apply Hk.
Qed.

Lemma collect_fds_spec ids w :
  ends (collect_fds ids) (λ infos w', covered ids infos w' ∧ unchanged w w') (λ _, False) w.
Proof.
  revert w. induction ids as [|j ids IH]; intros w.
  { unfold ends. cbn. split; [|done]. split; [constructor|]. by intros ? ?%elem_of_nil. }
  cbn [collect_fds]. apply ends_then. unfold ends at 1, get_fd.
  destruct (bpf_prog_get_fd_by_id j w) as [f w1] eqn:Hg.
  destruct (get_fd_law _ _ _ _ Hg) as [Hun Hf]. apply ends_then.
  eapply ends_mono; [| |apply IH]; [|done]. intros infos w2 [[Hall Hrest] Hun2]. unfold ends, mret, io_ret.
  split; [|by etrans]. assert (Forall (λ i, fd_prog w2 (fd i) = Some (id i) ∧ id i ∈ j :: ids) infos) as Hall'.
  { eapply Forall_impl; [exact Hall|]. intros i [? ?]. split; [done|by right]. }
  destruct (Z.ltb_spec f 0) as [Hneg|Hpos].
  - split; [done|]. intros k [-> | Hk]%elem_of_cons; [|auto]. right. exists w. by rewrite Hg.
  - split; [constructor; [|done]; cbn; split; [by apply Hun2, Hf|left]|].
    intros k [-> | Hk]%elem_of_cons; [left; left|]. destruct (Hrest k Hk); [left; by right|auto].
Qed.

Lemma query_ends cg d w :
  fd_dir w cg = Some d →
  ends (query cg) (λ infos w', covered (attached w d) infos w' ∧ unchanged w w') (unchanged w) w.
Proof.
  intros Hd. apply ends_then. eapply ends_mono; [| |by apply (query_loop_spec 8 cg d)]; [|done].
  intros ids w1 [-> Hun]. eapply ends_mono; [| |apply collect_fds_spec]; [|done].
  intros infos w2 [? ?]. split; [done|by etrans].
Qed.

(** What the attachment may have changed, once program [new] is attached to [d]. *)
Definition filtered (d : Path) (new : Z) (p : list insn) (w w' : W) : Prop :=
  keeps w w' ∧ program w' new = Some p ∧ new ∈ attached w' d ∧ (∀ j, j ∈ attached w' d → j ∈ attached w d ∨ j = new) ∧
  ∀ d', d' ≠ d → attached w' d' = attached w d'.

Lemma detach2_spec cg d f j w :
  fd_dir w cg = Some d → fd_prog w f = Some j →
  ends (detach2 f cg) (λ _, changes d (filter (λ i, i ≠ j) (attached w d)) w) (unchanged w) w.
Proof.
  intros Hd Hf. apply ends_then. unfold ends at 1, checked.
  destruct (bpf_prog_detach2 f cg w) as [ret w1] eqn:Hdet.
  pose proof (detach_law _ _ _ _ _ _ _ Hf Hd Hdet) as Hlaw.
  by destruct (ret =? 0).
Qed.

Lemma detach_all_spec cg d new p infos w0 w :
  fd_dir w cg = Some d →
  Forall (λ i, fd_prog w (fd i) = Some (id i) ∧ id i ≠ new) infos →
  filtered d new p w0 w →
  ends (io_each (λ i, io_map_err DBpf (detach2 (fd i) cg)) infos)
    (λ _ w', filtered d new p w0 w' ∧ ∀ j, j ∈ attached w' d → j ∈ attached w d ∧ j ∉ id <$> infos)
    (filtered d new p w0) w.
Proof.
  revert w. induction infos as [|i infos IH]; intros w Hd Hall Hfil.
  { split; [done|]. intros j Hj. split; [done|]. by intros ?%elem_of_nil. }
  apply Forall_cons in Hall as [[Hi Hne] Hall]. destruct Hfil as (Hk & Hp & Hin & Hsub & Hoth).
  cbn [io_each]. apply ends_then, ends_mapped.
  eapply ends_mono; [| |by apply (detach2_spec cg d)].
  - intros _ w1 (Hk1 & Hatt & Hoth1). eapply ends_mono; [| |apply IH]; cbn.
    + intros _ w2 [Hf2 Hj2]. split; [done|]. intros j Hj. destruct (Hj2 j Hj) as [Hj1 Hnj].
      rewrite Hatt in Hj1. apply list_elem_of_filter in Hj1 as [Hji ?]. split; [done|].
      by intros [->|?]%elem_of_cons.
    + done.
    + by apply Hk1.
    + eapply Forall_impl; [exact Hall|]. intros i' [? ?]. split; [by apply Hk1|done].
    + split_and!; [by etrans|by apply Hk1| | |].
      * rewrite Hatt. by apply list_elem_of_filter.
      * intros j. rewrite Hatt. intros [_ ?]%list_elem_of_filter. by apply Hsub.
      * intros d' Hd'. by rewrite Hoth1, Hoth.
  - intros w1 [Hk1 Hatt]. split_and!; [by etrans|by apply Hk1|by rewrite Hatt| |].
    + intros j. rewrite Hatt. apply Hsub.
    + intros d' ?. rewrite Hatt. by apply Hoth.
Qed.

Context `{OciDevices, DevcgConsts}.

(** What [apply_devices] has done when it succeeds or fails with the program attached. *)
Definition installed (devices : option (list LinuxDeviceCgroup)) (d : Path) (w w' : W) (new : Z) : Prop :=
  ∃ p, from_rules (rules (apply_emulator devices)) (default_allow (apply_emulator devices)) = Ok p ∧
    filtered d new p w w'.

Lemma attach_step devices p d new f cg infos w w1 :
  from_rules (rules (apply_emulator devices)) (default_allow (apply_emulator devices)) = Ok p →
  unchanged w w1 → fd_prog w1 f = Some new → program w1 new = Some p → new ∉ attached w d →
  fd_dir w1 cg = Some d → covered (attached w d) infos w1 →
  ends (attach f cg)
    (λ _, ends (io_each (λ i, io_map_err DBpf (detach2 (fd i) cg)) infos)
      (λ _ w', ∃ new, installed devices d w w' new ∧
         ∀ j, j ∈ attached w' d → j = new ∨ j ∈ attached w d ∧ unreachable j)
      (λ w', unchanged w w' ∨ ∃ new, installed devices d w w' new))
    (λ w', unchanged w w' ∨ ∃ new, installed devices d w w' new) w1.
Proof.
  intros Hp Hun Hf Hprog Hfresh Hcg [Hall Hrest]. pose proof Hun as [Hk Hatt]. apply ends_then. unfold ends at 1, checked.
  destruct (bpf_prog_attach f cg w1) as [ret w2] eqn:Hat.
  pose proof (attach_law _ _ _ _ _ _ _ Hf Hcg Hat) as Hlaw.
  destruct (ret =? 0); cbn [negb]; [|left; by etrans].
  destruct Hlaw as (Hk2 & Hatt2 & Hoth). rewrite Hatt in Hatt2. unfold ends at 1, mret, io_ret.
  eapply ends_mono; [| |apply (detach_all_spec cg d new p infos w w2)].
  - intros _ w3 [Hfil Hj]. exists new. split; [by exists p|].
    intros j Hin. destruct (Hj j Hin) as [Hj2 Hnot]. rewrite Hatt2 in Hj2.
    apply elem_of_app in Hj2 as [Hj2|Hj2%list_elem_of_singleton]; [|by left].
    right. split; [done|]. by destruct (Hrest j Hj2).
  - intros w3 Hfil. right. by exists new, p.
  - by apply Hk2.
  - eapply Forall_impl; [exact Hall|]. intros i [Hi Hin]. split; [by apply Hk2|]. by intros <-.
  - split_and!; [by etrans|by apply Hk2| | |].
    + rewrite Hatt2. apply elem_of_app. right. by apply list_elem_of_singleton.
    + intros j. rewrite Hatt2, elem_of_app, list_elem_of_singleton. naive_solver.
    + intros d' Hd'. by rewrite Hoth, Hatt.
Qed.

Lemma apply_devices_ends devices d w :
  ends (apply_devices d devices)
    (λ _ w', ∃ new, installed devices d w w' new ∧
       ∀ j, j ∈ attached w' d → j = new ∨ j ∈ attached w d ∧ unreachable j)
    (λ w', unchanged w w' ∨ ∃ new, installed devices d w w' new) w.
Proof.
  unfold apply_devices.
  pose proof (from_rules_no_panic (rules (apply_emulator devices)) (default_allow (apply_emulator devices))) as Hnp.
  destruct (from_rules _ _) as [p|e|] eqn:Hp; [|by left; apply reflexivity|done].
  apply ends_then. cbn. apply ends_then, ends_mapped. unfold ends at 1, bump_memlock_rlimit.
  destruct (setrlimit_memlock _ _ w) as [ret w1] eqn:Hset.
  pose proof (setrlimit_law (Z.shiftl 128 20) (Z.shiftl 128 20) w) as Hun1. rewrite Hset in Hun1. cbn in Hun1.
  destruct (ret =? 0); cbn [negb]; [|by left].
  apply ends_then, ends_mapped. unfold ends at 1, load, checked.
  destruct (bpf_prog_load LICENSE p w1) as [f w2] eqn:Hload. apply load_law in Hload as [Hun2 Hf].
  destruct (Z.ltb_spec f 0); [left; by etrans|]. destruct (Hf ltac:(done)) as (new & Hnew & Hprog & Hfresh).
  apply ends_then. unfold ends at 1, open_cgroup.
  destruct (dir_open d w2) as [r w3] eqn:Hopen. apply open_law in Hopen as [Hun3 Hdir].
  assert (unchanged w w3) as Hun by (by do 2 etrans).
  destruct r as [e|cg]; cbn; [by left|]. specialize (Hdir _ eq_refl). apply ends_then, ends_mapped.
  eapply ends_mono; [| |by apply (query_ends cg d)]; [|intros w4 ?; left; by etrans].
  intros infos w4 [Hcov Hun4]. apply ends_then, ends_mapped.
  assert (keeps w2 w4) as Hk4 by (etrans; [apply Hun3|apply Hun4]).
  rewrite (proj2 Hun) in Hcov. apply (attach_step devices p d new); try done.
  - by etrans.
  - by apply Hk4.
  - by apply Hk4.
  - rewrite <- (proj2 Hun1). apply Hfresh.
  - by apply Hun4.
Qed.

Context `{VM : EbpfVm, !EbpfVmLaws VM}.

(** An access is permitted if every attached program returns 1. *)
Definition permits (w : W) (d : Path) (t : LinuxDeviceType) (maj min : Z) (acc : string) : Prop :=
  ∀ j, j ∈ attached w d → ∃ p, program w j = Some p ∧ execute p t maj min acc = Ok 1.

(** C24: the device filter of a cgroup.  After [apply_devices] has succeeded, the programs
    attached to the cgroup permit only what the policy of the container (its rules,
    followed by the default rules) allows, and all of it if a descriptor could be got for
    every program attached before.  If it fails, either nothing has changed or the new
    program is attached, so that no more is permitted than by the policy.  It does not
    panic, and the programs of other cgroups are not touched. *)
Theorem device_filter_in_force devices d w :
  devices_converted → Forall rule_in_range (default [] devices) →
  8 * Z.of_nat (length (default [] devices)) + 104 ≤ 1000000 →
  let allowed := policy (default [] devices ++ default_rules) false in
  ends (apply_devices d devices)
    (λ _ w', (∀ d', d' ≠ d → attached w' d' = attached w d') ∧
       ∀ t maj min acc, in_u 32 maj → in_u 32 min → is_ok (bpf_access acc) = true →
       (permits w' d t maj min acc → allowed t maj min acc = true) ∧
       ((∀ j, j ∈ attached w d → ¬ unreachable j) →
        allowed t maj min acc = true → permits w' d t maj min acc))
    (λ w', (∀ d', d' ≠ d → attached w' d' = attached w d') ∧
       (attached w' d = attached w d ∨
        ∀ t maj min acc, in_u 32 maj → in_u 32 min → is_ok (bpf_access acc) = true →
        permits w' d t maj min acc → allowed t maj min acc = true)) w.
Proof.
  intros Hdev Hrange Hlen allowed.
  assert (∀ w' new t maj min acc, installed devices d w w' new →
    in_u 32 maj → in_u 32 min → is_ok (bpf_access acc) = true →
    permits w' d t maj min acc → allowed t maj min acc = true) as Hstrict.
  { intros w' new t maj min acc (p & Hp & _ & Hprog & Hin & _) Hmaj Hmin Hacc Hper.
    destruct (Hper _ Hin) as (p' & Hp' & Hex). simplify_eq.
    rewrite (apply_program_policy devices p) in Hex by done. unfold allowed.
    by destruct (policy _ _ _ _ _ _). }
  eapply ends_mono; [| |apply apply_devices_ends].
  - intros _ w' (new & Hinst & Honly). split; [by destruct Hinst as (p & _ & _ & _ & _ & _ & ?)|].
    intros t maj min acc Hmaj Hmin Hacc. split; [by apply (Hstrict w' new)|].
    intros Hreach Hall j Hj. destruct (Honly j Hj) as [->|[Hold Hun]]; [|by destruct (Hreach j Hold)].
    destruct Hinst as (p & Hp & _ & Hprog & _). exists p. split; [done|].
    rewrite (apply_program_policy devices p) by done. unfold allowed in Hall. by rewrite Hall.
  - intros w' [Hun|(new & Hinst)]; [split; [intros; apply Hun|left; apply Hun]|].
    split; [by destruct Hinst as (p & _ & _ & _ & _ & _ & ?)|]. right. intros t maj min acc ? ? ?.
    by apply (Hstrict w' new).
Qed.
End laws.

(** ** A concrete kernel *)

Record bpf_kernel : Type := MkKernel {
  k_errno : Z;
  k_attached : gmap Path (list Z);
  k_programs : gmap Z (list insn);
  k_fds : gmap Z Z;
  k_dirs : gmap Z Path;
}.

(** A number that is not in a list. *)
Definition next (l : list Z) : Z := 1 + foldr Z.max 0 l.

Lemma next_fresh l : next l ∉ l.
Proof.
  assert (∀ x, x ∈ l → x ≤ foldr Z.max 0 l) as Hle.
  { induction l as [|y l IH]; [by intros ? ?%elem_of_nil|].
    intros x [->|Hx]%elem_of_cons; cbn; [lia|]. specialize (IH x Hx). lia. }
  intros Hin%Hle. unfold next in Hin. lia.
Qed.

Definition keys {K A} `{Countable K} (m : gmap K A) : list K := (map_to_list m).*1.

Lemma next_not_key {A} (m : gmap Z A) l : m !! next (keys m ++ l) = None.
Proof.
  apply eq_None_not_Some. intros [x Hx]. apply (next_fresh (keys m ++ l)), elem_of_app. left.
  apply list_elem_of_fmap. exists (next (keys m ++ l), x). split; [done|]. by apply elem_of_map_to_list.
Qed.

#[export] Instance kernel_libbpf : LibBpf bpf_kernel := {|
  errno := k_errno;
  setrlimit_memlock cur max w := (0, w);
  bpf_prog_load lic p w :=
    let j := next (keys (k_programs w) ++ concat (map_to_list (k_attached w)).*2) in
    let f := next (keys (k_fds w) ++ []) in
    (f, MkKernel (k_errno w) (k_attached w) (<[j := p]> (k_programs w)) (<[f := j]> (k_fds w)) (k_dirs w));
  dir_open d w :=
    let f := next (keys (k_dirs w) ++ []) in
    (inr f, MkKernel (k_errno w) (k_attached w) (k_programs w) (k_fds w) (<[f := d]> (k_dirs w)));
  bpf_prog_query cg buf w :=
    let l := from_option (λ d, default [] (k_attached w !! d)) [] (k_dirs w !! cg) in
    let n := length l in
    if decide (n ≤ length buf)%nat then ((0, Z.of_nat n, l ++ drop n buf), w)
    else ((-1, Z.of_nat n, buf), MkKernel ENOSPC (k_attached w) (k_programs w) (k_fds w) (k_dirs w));
  bpf_prog_get_fd_by_id j w :=
    let f := next (keys (k_fds w) ++ []) in
    (f, MkKernel (k_errno w) (k_attached w) (k_programs w) (<[f := j]> (k_fds w)) (k_dirs w));
  bpf_prog_attach f cg w :=
    match k_fds w !! f, k_dirs w !! cg with
    | Some j, Some d => (0, MkKernel (k_errno w) (<[d := default [] (k_attached w !! d) ++ [j]]> (k_attached w))
                              (k_programs w) (k_fds w) (k_dirs w))
    | _, _ => (-1, w)
    end;
  bpf_prog_detach2 f cg w :=
    match k_fds w !! f, k_dirs w !! cg with
    | Some j, Some d =>
        (0, MkKernel (k_errno w) (<[d := filter (λ i, i ≠ j) (default [] (k_attached w !! d))]> (k_attached w))
              (k_programs w) (k_fds w) (k_dirs w))
    | _, _ => (-1, w)
    end;
  attached w d := default [] (k_attached w !! d);
  program w j := k_programs w !! j;
  fd_prog w f := k_fds w !! f;
  fd_dir w f := k_dirs w !! f;
|}.

Lemma lookup_insert_fresh {A} (m : gmap Z A) l x i y :
  m !! i = Some y → <[next (keys m ++ l) := x]> m !! i = Some y.
Proof. intros Hi. rewrite lookup_insert_ne; [done|]. intros <-. by rewrite next_not_key in Hi. Qed.

Lemma keeps_same_maps (e : Z) (at_ : gmap Path (list Z)) (w : bpf_kernel) ps fds dirs :
  (∀ i y, k_programs w !! i = Some y → ps !! i = Some y) →
  (∀ i y, k_fds w !! i = Some y → fds !! i = Some y) →
  (∀ i y, k_dirs w !! i = Some y → dirs !! i = Some y) →
  keeps w (MkKernel e at_ ps fds dirs).
Proof. intros H1 H2 H3. split_and!; [exact H1|exact H2|exact H3]. Qed.

#[export] Instance kernel_laws : LibBpfLaws bpf_kernel.
Proof.
  split.
  - by intros.
  - intros lic p w f w' [= <- <-]. split; [split; [|done]; apply keeps_same_maps; eauto using lookup_insert_fresh|].
    intros _. eexists. split; [apply lookup_insert_eq|]. split; [apply lookup_insert_eq|]. intros d Hin.
    apply (next_fresh (keys (k_programs w) ++ concat (map_to_list (k_attached w)).*2)), elem_of_app. right.
    cbn in Hin. destruct (k_attached w !! d) as [l|] eqn:Hl; cbn in Hin; [|by apply elem_of_nil in Hin].
    apply list_elem_of_In, in_concat. exists l. rewrite <- !list_elem_of_In. split; [|done].
    apply list_elem_of_fmap. exists (d, l). split; [done|by apply elem_of_map_to_list].
  - intros d w r w' [= <- <-]. split; [split; [|done]; apply keeps_same_maps; eauto using lookup_insert_fresh|].
    intros f [= <-]. apply lookup_insert_eq.
  - intros f d buf w ret cnt ids w' Hd. cbn in Hd |- *. rewrite Hd. cbn.
    case_decide; intros [= <- <- <- <-]; (split; [done|]).
    + split; [|done]. intros _. split; [done|]. by eexists.
    + split; [done|]. intros _ _. split; [done|]. split; [lia|done].
  - intros f d buf w Hd Hlen. cbn in Hd, Hlen |- *. rewrite Hd. cbn. by rewrite decide_True.
  - intros j w f w' [= <- <-]. split; [split; [|done]; apply keeps_same_maps; eauto using lookup_insert_fresh|].
    intros _. apply lookup_insert_eq.
  - intros f j cg d w ret w' Hf Hd. cbn in Hf, Hd |- *. rewrite Hf, Hd. intros [= <- <-]. cbn.
    split; [by apply keeps_same_maps|]. cbn. rewrite lookup_insert_eq. split; [done|].
    intros d' Hne. by rewrite lookup_insert_ne by done.
  - intros f j cg d w ret w' Hf Hd. cbn in Hf, Hd |- *. rewrite Hf, Hd. intros [= <- <-]. cbn.
    split; [by apply keeps_same_maps|]. cbn. rewrite lookup_insert_eq. split; [done|].
    intros d' Hne. by rewrite lookup_insert_ne by done.
Qed.

(** A cgroup to which a program that permits everything is attached. *)
Definition example_cgroup : Path := [RootDir; Normal "c"].

Definition example_kernel : bpf_kernel :=
  MkKernel 0 {[ example_cgroup := [7] ]} {[ 7 := finalize true [] ]} ∅ ∅.

Lemma device_filter_in_force_witness :
  ∃ w', apply_devices example_cgroup (Some example_rules) example_kernel = (Ok (), w') ∧
    permits w' example_cgroup TypC 10 200 "rw" ∧ ¬ permits w' example_cgroup TypC 10 20 "r".
Proof.
  pose proof (device_filter_in_force (W:=bpf_kernel) (Some example_rules) example_cgroup example_kernel
    ltac:(done) ltac:(by apply (bool_decide_unpack _)) ltac:(cbn; lia)) as Hin.
  assert ((apply_devices example_cgroup (Some example_rules) example_kernel).1 = Ok ()) as Hok
    by (vm_compute; reflexivity).
  unfold ends in Hin. destruct (apply_devices _ _ _) as [r w']. cbn in Hok. subst r. exists w'.
  destruct Hin as [_ Hin]. split_and!; [done| |].
  - apply (Hin TypC 10 200 "rw"); [unfold in_u; lia..|vm_compute; reflexivity| |vm_compute; reflexivity].
    intros j _ [w Hw]. cbn in Hw. unfold next in Hw. revert Hw.
    generalize (keys (k_fds w) ++ []). intros l. induction l; cbn; lia.
  - intros Hper. apply (Hin TypC 10 20 "r") in Hper; [|unfold in_u; lia..|vm_compute; reflexivity].
    by vm_compute in Hper.
Defined.
