(* ===== verification/Dbus.v ===== *)
(** * Serialization of D-Bus values

    Models [crates/libcgroups/src/systemd/dbus_native/utils.rs] (errors,
    padding and alignment) and [serialize.rs] (the [DbusSerialize] trait and
    its implementations).  A buffer is a [list byte], the counter of a
    deserializer a [nat] (a [usize]; the lengths that are added to it are below
    2^32, so it does not wrap on a 64-bit host). *)
From S2P Require Import Prelude.

Local Open Scope string_scope.
Local Open Scope list_scope.

(** ** Errors *)

Inductive DbusError : Type :=
  | AuthenticationErr (s : string)
  | IncompleteImplementation (s : string)
  | IncorrectMessage (s : string)
  | ConnectionError (s : string)
  | DeserializationError (s : string)
  | MethodCallErr (s : string)
  | BusAddressError (s : string)
  | BusctlError (s : string)
  | UidError
  | Nix (errno : Z).

Inductive SystemdClientError : Type :=
  | DBus (e : DbusError)
  | FailedTransient (err : SystemdClientError) (unit_name parent : string)
  | FailedStop (err : SystemdClientError) (unit_name : string)
  | FailedProperties (err : SystemdClientError) (unit_name : string)
  | SystemdVersion.

Abbreviation Result := (outcome SystemdClientError).

Definition deser_err {A} (s : string) : Result A := Err (DBus (DeserializationError s)).

(** ** Padding *)

Definition adjust_padding (buf : list byte) (align : nat) : list byte :=
  if (align =? 1)%nat then buf
  else
    let len := length buf in
    let required_padding := ((align - (len mod align)) mod align)%nat in
    buf ++ replicate required_padding Byte.x00.

Definition align_counter (ctr align : nat) : nat :=
  if negb ((ctr mod align) =? 0)%nat then (ctr + (align - ctr mod align) mod align)%nat
  else ctr.

(** ** The trait *)

Class DbusSerialize (T : Type) : Type := {
  get_signature : string;
  get_alignment : nat;
  serialize : T → list byte → list byte;
  deserialize : list byte → nat → Result (T * nat);
}.
Arguments get_signature T {_}.
Arguments get_alignment T {_}.
Arguments deserialize T {_}.

(** Reading an [n]-byte little-endian integer at the counter; the slice cannot
    be out of range after the length check. *)
Definition read_le (n : nat) (buf : list byte) (counter : nat) (err : string) :
    Result (Z * nat) :=
  if (length buf <? counter + n)%nat then deser_err err
  else b ← slice buf counter (counter + n); Ok (le_combine b, (counter + n)%nat).

(** *** Unit *)
#[global] Instance unit_dbus : DbusSerialize () := {|
  get_signature := "";
  get_alignment := 1;
  serialize _ buf := buf;
  deserialize buf _ := Ok ((), length buf);
|}.

(** *** Tuples *)
#[global] Instance pair_dbus {T1 T2} `{DbusSerialize T1, DbusSerialize T2} :
    DbusSerialize (T1 * T2) := {|
  get_signature := get_signature T1 +:+ get_signature T2;
  get_alignment := get_alignment T1;
  serialize x buf := serialize x.2 (serialize x.1 buf);
  deserialize buf counter :=
    '(t1, counter) ← deserialize T1 buf counter;
    '(t2, counter) ← deserialize T2 buf counter;
    Ok ((t1, t2), counter);
|}.

Definition tuple3_dbus {T1 T2 T3} `{DbusSerialize T1, DbusSerialize T2, DbusSerialize T3} :
    DbusSerialize (T1 * T2 * T3) := {|
  get_signature := get_signature T1 +:+ get_signature T2 +:+ get_signature T3;
  get_alignment := get_alignment T1;
  serialize x buf := let '(t1, t2, t3) := x in
    serialize t3 (serialize t2 (serialize t1 buf));
  deserialize buf counter :=
    '(t1, counter) ← deserialize T1 buf counter;
    '(t2, counter) ← deserialize T2 buf counter;
    '(t3, counter) ← deserialize T3 buf counter;
    Ok ((t1, t2, t3), counter);
|}.

Definition tuple4_dbus {T1 T2 T3 T4}
    `{DbusSerialize T1, DbusSerialize T2, DbusSerialize T3, DbusSerialize T4} :
    DbusSerialize (T1 * T2 * T3 * T4) := {|
  get_signature :=
    get_signature T1 +:+ get_signature T2 +:+ get_signature T3 +:+ get_signature T4;
  get_alignment := get_alignment T1;
  serialize x buf := let '(t1, t2, t3, t4) := x in
    serialize t4 (serialize t3 (serialize t2 (serialize t1 buf)));
  deserialize buf counter :=
    '(t1, counter) ← deserialize T1 buf counter;
    '(t2, counter) ← deserialize T2 buf counter;
    '(t3, counter) ← deserialize T3 buf counter;
    '(t4, counter) ← deserialize T4 buf counter;
    Ok ((t1, t2, t3, t4), counter);
|}.

(** *** Strings *)
Definition string_serialize (s : string) (buf : list byte) : list byte :=
  let buf := adjust_padding buf 4 in
  let length := uwrap 32 (Z.of_nat (String.length s)) in
  let buf := buf ++ le_split 4 length in
  let buf := buf ++ as_bytes s in
  buf ++ [Byte.x00].

Definition string_deserialize (buf : list byte) (counter : nat) : Result (string * nat) :=
  let counter := align_counter counter 4 in
  '(len, counter) ← read_le 4 buf counter "incomplete string response : missing length";
  let len := Z.to_nat len in
  if (length buf <? counter + len)%nat then
    deser_err "incomplete string response : missing partial string"
  else
    bytes ← slice buf counter (counter + len);
    ret ← from_utf8_unwrap bytes;
    Ok (ret, (counter + (len + 1))%nat).

#[global] Instance string_dbus : DbusSerialize string := {|
  get_signature := "s";
  get_alignment := 4;
  serialize := string_serialize;
  deserialize := string_deserialize;
|}.

(** [&str]: serialized as a string, never deserialized. *)
Record str_ref : Type := StrRef { str_of : string }.

#[global] Instance str_ref_dbus : DbusSerialize str_ref := {|
  get_signature := "s";
  get_alignment := get_alignment string;
  serialize x buf := string_serialize (str_of x) buf;
  deserialize _ _ :=
    Err (DBus (IncompleteImplementation "&str does not support deserialization"));
|}.

(** *** Booleans *)
#[global] Instance bool_dbus : DbusSerialize bool := {|
  get_signature := "b";
  get_alignment := 4;
  serialize x buf :=
    let val := match x with true => 1%Z | false => 0%Z end in
    adjust_padding buf 4 ++ le_split 4 val;
  deserialize buf counter :=
    '(ret, counter) ← read_le 4 buf (align_counter counter 4)
      "incomplete bool response : partial response";
    Ok (negb (ret =? 0)%Z, counter);
|}.

(** *** Unsigned integers of [w] bits *)
Record uint (w : Z) : Type := UInt { uval : Z }.
Arguments UInt {w} uval.
Arguments uval {w} _.

Abbreviation u8 := (uint 8).
Abbreviation u16 := (uint 16).
Abbreviation u32 := (uint 32).
Abbreviation u64 := (uint 64).

Definition uint_serialize {w} (n : nat) (x : uint w) (buf : list byte) : list byte :=
  adjust_padding buf n ++ le_split n (uval x).

Definition uint_deserialize {w} (n : nat) (err : string) (buf : list byte)
    (counter : nat) : Result (uint w * nat) :=
  '(ret, counter) ← read_le n buf (align_counter counter n) err;
  Ok (UInt ret, counter).

#[global] Instance u8_dbus : DbusSerialize u8 := {|
  get_signature := "y";
  get_alignment := 1;
  serialize := uint_serialize 1;
  deserialize := uint_deserialize 1 "incomplete u8 response : partial response";
|}.

#[global] Instance u16_dbus : DbusSerialize u16 := {|
  get_signature := "q";
  get_alignment := 2;
  serialize := uint_serialize 2;
  deserialize := uint_deserialize 2 "incomplete u16 response : partial response";
|}.

#[global] Instance u32_dbus : DbusSerialize u32 := {|
  get_signature := "u";
  get_alignment := 4;
  serialize := uint_serialize 4;
  deserialize := uint_deserialize 4 "incomplete u32 response : partial response";
|}.

#[global] Instance u64_dbus : DbusSerialize u64 := {|
  get_signature := "t";
  get_alignment := 8;
  serialize := uint_serialize 8;
  deserialize := uint_deserialize 8 "incomplete u64 response : partial response";
|}.

(** *** Arrays *)

(** The [while *counter < end] loop; [None] when the fuel runs out. *)
Fixpoint elems_loop {T} `{DbusSerialize T} (fuel : nat) (buf : list byte)
    (end_ counter : nat) (ret : list T) : option (Result (list T * nat)) :=
  match fuel with
  | O => None
  | S fuel =>
      if (counter <? end_)%nat then
        match deserialize T buf counter with
        | Ok (elem, counter) => elems_loop fuel buf end_ counter (ret ++ [elem])
        | Err e => Some (Err e)
        | Panic => Some Panic
        end
      else Some (Ok (ret, counter))
  end.

Definition vec_serialize {T} `{DbusSerialize T} (v : list T) (buf : list byte) :
    list byte :=
  let buf := adjust_padding buf 4 in
  let temp_buf := foldl (λ temp_buf elem, serialize elem temp_buf) [] v in
  let len := uwrap 32 (Z.of_nat (length temp_buf)) in
  let buf := buf ++ le_split 4 len in
  let align := get_alignment T in
  let buf := adjust_padding buf align in
  buf ++ temp_buf.

(** An element takes at least a byte of the array, so the loop body runs at
    most [length_in_bytes] times. *)
Definition vec_deserialize {T} `{DbusSerialize T} (buf : list byte) (counter : nat) :
    Result (list T * nat) :=
  let counter := align_counter counter 4 in
  '(len, counter) ← read_le 4 buf counter "incomplete array response : partial length";
  let length_in_bytes := Z.to_nat len in
  let counter := align_counter counter (get_alignment T) in
  let end_ := (counter + length_in_bytes)%nat in
  if (length buf <? end_)%nat then
    deser_err "incomplete array response : partial elements"
  else default Panic (elems_loop (S length_in_bytes) buf end_ counter []).

#[global] Instance vec_dbus {T} `{DbusSerialize T} : DbusSerialize (list T) := {|
  get_signature := "a" +:+ get_signature T;
  get_alignment := 4;
  serialize := vec_serialize;
  deserialize := vec_deserialize;
|}.

(** *** Structures with a string key *)
Record Structure (T : Type) : Type := MkStructure { key : string; val : T }.
Arguments MkStructure {T} key val.
Arguments key {T} _.
Arguments val {T} _.

#[global] Instance structure_dbus {T} `{DbusSerialize T} : DbusSerialize (Structure T) := {|
  get_signature := "(s" +:+ get_signature T +:+ ")";
  get_alignment := 8;
  serialize x buf := serialize (val x) (serialize (key x) (adjust_padding buf 8));
  deserialize buf counter :=
    let counter := align_counter counter 8 in
    '(k, counter) ← deserialize string buf counter;
    '(v, counter) ← deserialize T buf counter;
    Ok (MkStructure k v, counter);
|}.

(** *** Variants *)
Inductive Variant : Type :=
  | VString (s : string)
  | VBool (b : bool)
  | VU64 (v : u64)
  | VArrayU8 (v : list u8)
  | VArrayU32 (v : list u32)
  | VArrayU64 (v : list u64)
  | VArrayStructU64 (v : list (Structure u64))
  | VArrayStructSS (v : list (Structure string)).

(** The signature and the value of one alternative. *)
Definition variant_part {T} `{DbusSerialize T} (x : T) (buf : list byte) : list byte :=
  let sub_type := get_signature T in
  let buf := buf ++ [byte.of_Z (uwrap 8 (Z.of_nat (String.length sub_type)))] in
  let buf := buf ++ as_bytes sub_type in
  let buf := buf ++ [Byte.x00] in
  serialize x buf.

Definition variant_serialize (x : Variant) (buf : list byte) : list byte :=
  match x with
  | VString s => variant_part s buf
  | VArrayU8 v => variant_part v buf
  | VArrayU32 v => variant_part v buf
  | VArrayU64 v => variant_part v buf
  | VBool b => variant_part b buf
  | VU64 v => variant_part v buf
  | VArrayStructU64 s => variant_part s buf
  | VArrayStructSS s => variant_part s buf
  end.

(** The value that follows a signature. *)
Definition variant_value (signature : string) (buf : list byte) (counter : nat) :
    Result (Variant * nat) :=
  if bool_decide (signature = get_signature string) then
    '(x, counter) ← deserialize string buf counter; Ok (VString x, counter)
  else if bool_decide (signature = get_signature bool) then
    '(x, counter) ← deserialize bool buf counter; Ok (VBool x, counter)
  else if bool_decide (signature = get_signature (list u8)) then
    '(x, counter) ← deserialize (list u8) buf counter; Ok (VArrayU8 x, counter)
  else if bool_decide (signature = get_signature (list u32)) then
    '(x, counter) ← deserialize (list u32) buf counter; Ok (VArrayU32 x, counter)
  else if bool_decide (signature = get_signature (list u64)) then
    '(x, counter) ← deserialize (list u64) buf counter; Ok (VArrayU64 x, counter)
  else if bool_decide (signature = get_signature u64) then
    '(x, counter) ← deserialize u64 buf counter; Ok (VU64 x, counter)
  else if bool_decide (signature = get_signature (list (Structure u64))) then
    '(x, counter) ← deserialize (list (Structure u64)) buf counter;
    Ok (VArrayStructU64 x, counter)
  else if bool_decide (signature = get_signature (list (Structure string))) then
    '(x, counter) ← deserialize (list (Structure string)) buf counter;
    Ok (VArrayStructSS x, counter)
  else
    Err (DBus (IncompleteImplementation ("unsupported value signature " +:+ signature))).

Definition variant_deserialize (buf : list byte) (counter : nat) : Result (Variant * nat) :=
  let counter := align_counter counter 1 in
  b ← index buf counter;
  let signature_length := Z.to_nat (byte.unsigned b) in
  let counter := (counter + 1)%nat in
  if (length buf <? counter + signature_length)%nat then
    deser_err "incomplete variant response : partial signature"
  else
    bytes ← slice buf counter (counter + signature_length);
    signature ← from_utf8_unwrap bytes;
    let counter := (counter + (signature_length + 1))%nat in
    variant_value signature buf counter.

#[global] Instance variant_dbus : DbusSerialize Variant := {|
  get_signature := "v";
  get_alignment := 1;
  serialize := variant_serialize;
  deserialize := variant_deserialize;
|}.

(** ** Laws of the trait

    [dbus_enc x n] is what serializing [x] appends to a buffer of length [n]:
    it depends on [n] only through the padding, and decoding it anywhere in a
    buffer gives [x] back and stops right after it. *)

Definition pad (n align : nat) : list byte :=
  replicate ((align - n mod align) mod align)%nat Byte.x00.

Lemma adjust_padding_pad buf align :
  align ≠ 0%nat → adjust_padding buf align = buf ++ pad (length buf) align.
Proof.
  intros Ha. unfold adjust_padding, pad.
  destruct (Nat.eqb_spec align 1) as [->|]; [|done].
  rewrite !Nat.mod_1_r. simpl. by rewrite app_nil_r.
Qed.

Lemma align_counter_pad n align :
  align ≠ 0%nat → align_counter n align = (n + length (pad n align))%nat.
Proof.
  intros Ha. unfold align_counter, pad. rewrite length_replicate.
  destruct (Nat.eqb_spec (n mod align) 0) as [->|]; simpl; [|done].
  rewrite Nat.sub_0_r, Nat.Div0.mod_same. lia.
Qed.

Lemma pad_aligned n align :
  align ≠ 0%nat → ((n + length (pad n align)) mod align = 0)%nat.
Proof.
  intros Ha. unfold pad. rewrite length_replicate.
  pose proof (Nat.mod_upper_bound n align Ha).
  rewrite Nat.Div0.add_mod_idemp_r, <- Nat.Div0.add_mod_idemp_l.
  replace (n mod align + (align - n mod align))%nat with align by lia.
  apply Nat.Div0.mod_same.
Qed.

Lemma pad_mod n m align : (n mod align = m mod align)%nat → pad n align = pad m align.
Proof. unfold pad. by intros ->. Qed.

(** The alignments of D-Bus divide 8. *)
Lemma mod_div8 a n m :
  a ∈ [1; 2; 4; 8]%nat → (n mod 8 = m mod 8 → n mod a = m mod a)%nat.
Proof.
  intros Ha Hnm. assert (∃ k, 8 = a * k)%nat as [k Hk].
  { set_unfold in Ha. destruct Ha as [-> | [-> | [-> | [-> | []]]]];
      [exists 8|exists 4|exists 2|exists 1]; done. }
  assert (∀ x, x mod a = (x mod 8) mod a)%nat as Hx.
  { intros x. rewrite Hk, Nat.Div0.mod_mul_r, Nat.mul_comm.
    by rewrite Nat.Div0.mod_add, Nat.Div0.mod_mod. }
  by rewrite (Hx n), (Hx m), Hnm.
Qed.

Class DbusLaws (T : Type) `{DbusSerialize T} : Type := {
  dbus_wf : T → Prop;
  dbus_enc : T → nat → list byte;
  dbus_align : get_alignment T ∈ [1; 2; 4; 8]%nat;
  dbus_serialize x buf : serialize x buf = buf ++ dbus_enc x (length buf);
  dbus_enc_mod x n m : (n mod 8 = m mod 8)%nat → dbus_enc x n = dbus_enc x m;
  dbus_roundtrip x pre post : dbus_wf x →
    deserialize T (pre ++ dbus_enc x (length pre) ++ post) (length pre) =
      Ok (x, (length pre + length (dbus_enc x (length pre)))%nat);
  dbus_progress buf c x c' : deserialize T buf c = Ok (x, c') → (c < c')%nat;
}.

(** A type whose encoding depends on the position only modulo its own
    alignment: the elements of an array, which are encoded in a buffer of their
    own, must be of such a type. *)
Class DbusElem (T : Type) `{DbusLaws T} : Prop :=
  dbus_enc_align x n m : (n mod get_alignment T = m mod get_alignment T)%nat →
    dbus_enc x n = dbus_enc x m.

Lemma read_le_app n pre bs post c err :
  c = length pre → length bs = n →
  read_le n (pre ++ bs ++ post) c err = Ok (le_combine bs, (c + n)%nat).
Proof.
  intros -> Hn. unfold read_le. rewrite !length_app.
  destruct (Nat.ltb_spec (length pre + (length bs + length post)) (length pre + n)); [lia|].
  rewrite slice_middle by lia. done.
Qed.

Lemma read_le_progress n buf c err z c' :
  read_le n buf c err = Ok (z, c') → c' = (c + n)%nat.
Proof.
  unfold read_le. case_match; [done|]. by intros (b & _ & [= _ <-])%bind_Ok.
Qed.

(** Integers. *)
Definition uint_enc {w} (n : nat) (x : uint w) (p : nat) : list byte :=
  pad p n ++ le_split n (uval x).

Definition uint_wf {w} (x : uint w) : Prop := in_u w (uval x).

Lemma uint_enc_mod {w} n (x : uint w) p q :
  (p mod n = q mod n)%nat → uint_enc n x p = uint_enc n x q.
Proof. intros Hpq. unfold uint_enc. by rewrite (pad_mod p q). Qed.

Lemma uint_roundtrip {w} n (x : uint w) err pre post :
  n ≠ 0%nat → w = Z.of_nat (n * 8) → uint_wf x →
  uint_deserialize n err (pre ++ uint_enc n x (length pre) ++ post) (length pre) =
    Ok (x, (length pre + length (uint_enc n x (length pre)))%nat).
Proof.
  intros Hn -> Hx. unfold uint_deserialize, uint_enc.
  rewrite align_counter_pad by done. rewrite <- (app_assoc (pad _ _)), (app_assoc pre).
  rewrite read_le_app by (rewrite ?length_app, ?length_le_split; done). simpl.
  rewrite !length_app, length_le_split, le_combine_split.
  replace (Z.of_nat n * 8)%Z with (Z.of_nat (n * 8)) by lia. rewrite Z.mod_small by done.
  do 2 f_equal; [by destruct x|lia].
Qed.

Lemma uint_progress {w} n err buf c (x : uint w) c' :
  n ≠ 0%nat → uint_deserialize n err buf c = Ok (x, c') → (c < c')%nat.
Proof.
  intros Hn. unfold uint_deserialize. rewrite align_counter_pad by done.
  intros ([z c2] & ->%read_le_progress & [= _ <-])%bind_Ok. lia.
Qed.

Ltac uint_laws n :=
  refine (Build_DbusLaws _ _ uint_wf (uint_enc n) _ _ _ _ _);
  [ set_solver
  | intros; simpl; unfold uint_serialize, uint_enc;
    by rewrite adjust_padding_pad, app_assoc
  | intros x p q Hpq; apply uint_enc_mod; revert Hpq; apply mod_div8; set_solver
  | intros; by apply uint_roundtrip
  | intros buf c x c'; by apply uint_progress ].

#[global] Instance u8_laws : DbusLaws u8.
Proof. uint_laws 1. Defined.
#[global] Instance u16_laws : DbusLaws u16.
Proof. uint_laws 2. Defined.
#[global] Instance u32_laws : DbusLaws u32.
Proof. uint_laws 4. Defined.
#[global] Instance u64_laws : DbusLaws u64.
Proof. uint_laws 8. Defined.

#[global] Instance u8_elem : DbusElem u8.
Proof. intros x n m. apply uint_enc_mod. Qed.
#[global] Instance u16_elem : DbusElem u16.
Proof. intros x n m. apply uint_enc_mod. Qed.
#[global] Instance u32_elem : DbusElem u32.
Proof. intros x n m. apply uint_enc_mod. Qed.
#[global] Instance u64_elem : DbusElem u64.
Proof. intros x n m. apply uint_enc_mod. Qed.

(** Booleans. *)
#[global] Instance bool_laws : DbusLaws bool.
Proof.
  refine (Build_DbusLaws _ _ (λ _ : bool, True)
    (λ (b : bool) p, uint_enc (w:=32) 4 (UInt (if b then 1 else 0)%Z) p) _ _ _ _ _).
  - set_solver.
  - intros; simpl. unfold uint_enc. rewrite adjust_padding_pad, app_assoc by done.
    by destruct x.
  - intros x p q Hpq. apply uint_enc_mod. revert Hpq. apply mod_div8. set_solver.
  - intros x pre post _.
    pose proof (uint_roundtrip (w:=32) 4 (UInt (if x then 1 else 0)%Z)
      "incomplete bool response : partial response" pre post) as Hr.
    unfold uint_deserialize in Hr. simpl.
    apply bind_Ok in Hr as ([z c] & -> & [= -> <-]); [by destruct x|done|done|].
    destruct x; unfold uint_wf, in_u; simpl; lia.
  - simpl. intros buf c x c' ([z c2] & ->%read_le_progress & [= _ <-])%bind_Ok.
    rewrite align_counter_pad by done. lia.
Defined.

#[global] Instance bool_elem : DbusElem bool.
Proof. intros x n m. apply uint_enc_mod. Qed.

(** Strings: a Rust string is valid UTF-8; its length must fit 32 bits. *)
Definition string_wf (s : string) : Prop :=
  utf8_valid (as_bytes s) = true ∧ (Z.of_nat (String.length s) < 2 ^ 32)%Z.

Definition string_enc (s : string) (p : nat) : list byte :=
  pad p 4 ++ le_split 4 (uwrap 32 (Z.of_nat (String.length s))) ++ as_bytes s ++ [Byte.x00].

Lemma string_enc_mod s p q : (p mod 4 = q mod 4)%nat → string_enc s p = string_enc s q.
Proof. intros Hpq. unfold string_enc. by rewrite (pad_mod p q). Qed.

Lemma string_roundtrip s pre post :
  string_wf s →
  string_deserialize (pre ++ string_enc s (length pre) ++ post) (length pre) =
    Ok (s, (length pre + length (string_enc s (length pre)))%nat).
Proof.
  intros [Hutf Hlen]. unfold string_deserialize, string_enc.
  rewrite align_counter_pad by done. rewrite <- !app_assoc, (app_assoc pre).
  rewrite read_le_app by (rewrite ?length_app, ?length_le_split; done). run.
  rewrite le_combine_split, uwrap_small by (unfold in_u; lia).
  rewrite Z.mod_small, Nat2Z.id by (simpl; lia).
  rewrite app_assoc. rewrite !length_app, length_le_split, length_as_bytes. cbn [length].
  case_match eqn:Hlt; [apply Nat.ltb_lt in Hlt; lia|].
  rewrite slice_middle by (rewrite ?length_app, ?length_le_split, ?length_as_bytes; lia).
  run. rewrite from_utf8_as_bytes by done. run. do 2 f_equal. lia.
Qed.

Lemma string_progress buf c s c' : string_deserialize buf c = Ok (s, c') → (c < c')%nat.
Proof.
  unfold string_deserialize. rewrite align_counter_pad by done.
  intros ([z c2] & ->%read_le_progress & H)%bind_Ok. case_match; [done|].
  apply bind_Ok in H as (b & _ & (r & _ & [= _ <-])%bind_Ok). lia.
Qed.

#[global] Instance string_laws : DbusLaws string.
Proof.
  refine (Build_DbusLaws _ _ string_wf string_enc _ _ _ _ _).
  - set_solver.
  - intros; simpl. unfold string_serialize, string_enc.
    by rewrite adjust_padding_pad, <- !app_assoc.
  - intros x p q Hpq. apply string_enc_mod. revert Hpq. apply mod_div8. set_solver.
  - apply string_roundtrip.
  - apply string_progress.
Defined.

#[global] Instance string_elem : DbusElem string.
Proof. intros x n m. apply string_enc_mod. Qed.

(** Arrays. *)
Section vec_laws.
Context {T : Type} `{Hser : DbusSerialize T} `{Hlaws : !DbusLaws T}.

Fixpoint body (v : list T) (n : nat) : list byte :=
  match v with
  | [] => []
  | x :: v => dbus_enc x n ++ body v (n + length (dbus_enc x n))
  end.

Definition vec_enc (v : list T) (p : nat) : list byte :=
  pad p 4 ++ le_split 4 (uwrap 32 (Z.of_nat (length (body v 0))))
  ++ pad (p + length (pad p 4) + 4) (get_alignment T) ++ body v 0.

Definition vec_wf (v : list T) : Prop :=
  Forall dbus_wf v ∧ (Z.of_nat (length (body v 0)) < 2 ^ 32)%Z.

Lemma align_ne_0 : get_alignment T ≠ 0%nat.
Proof. pose proof dbus_align as Ha. set_unfold in Ha. lia. Qed.

Lemma foldl_serialize v buf :
  foldl (λ temp_buf elem, serialize elem temp_buf) buf v = buf ++ body v (length buf).
Proof.
  revert buf. induction v as [|x v IH]; intros buf; simpl; [by rewrite app_nil_r|].
  rewrite IH, dbus_serialize, length_app. by rewrite app_assoc.
Qed.

Lemma vec_serialize_enc v buf : vec_serialize v buf = buf ++ vec_enc v (length buf).
Proof.
  unfold vec_serialize, vec_enc. rewrite foldl_serialize. cbn [app length].
  rewrite !adjust_padding_pad by (done || apply align_ne_0).
  rewrite !length_app, length_le_split, <- !app_assoc. done.
Qed.

Lemma vec_enc_mod v p q : (p mod 8 = q mod 8)%nat → vec_enc v p = vec_enc v q.
Proof.
  intros Hpq. unfold vec_enc.
  rewrite (pad_mod p q 4) by (revert Hpq; apply mod_div8; set_solver).
  rewrite (pad_mod (p + length (pad q 4) + 4) (q + length (pad q 4) + 4)); [done|].
  apply mod_div8; [apply dbus_align|]. rewrite <- !Nat.add_assoc.
  by rewrite <- Nat.Div0.add_mod_idemp_l, Hpq, Nat.Div0.add_mod_idemp_l.
Qed.

Lemma elems_loop_ge fuel buf end_ c acc v c' :
  elems_loop fuel buf end_ c acc = Some (Ok (v, c')) → (c ≤ c')%nat.
Proof.
  revert c acc. induction fuel as [|fuel IH]; intros c acc; simpl; [done|].
  case_match; [|by intros [= _ ->]].
  destruct (deserialize T buf c) as [[x c2]| |] eqn:Hx; [|done..].
  intros ?%IH. apply dbus_progress in Hx. lia.
Qed.

Lemma vec_progress buf c v c' : vec_deserialize (T:=T) buf c = Ok (v, c') → (c < c')%nat.
Proof.
  unfold vec_deserialize. rewrite !align_counter_pad by (done || apply align_ne_0).
  intros ([z c2] & ->%read_le_progress & H)%bind_Ok. case_match; [done|].
  destruct (elems_loop _ _ _ _ _) as [o|] eqn:Ho; simpl in H; [|done]. subst o.
  apply elems_loop_ge in Ho. rewrite align_counter_pad in Ho by apply align_ne_0. lia.
Qed.

Context `{Helem : !DbusElem T}.

Lemma elems_loop_body v n pre post acc fuel :
  Forall dbus_wf v →
  (length pre mod get_alignment T = n mod get_alignment T)%nat →
  (length (body v n) < fuel)%nat →
  elems_loop fuel (pre ++ body v n ++ post) (length pre + length (body v n))
    (length pre) acc = Some (Ok (acc ++ v, (length pre + length (body v n))%nat)).
Proof.
  intros Hv. revert n pre acc fuel.
  induction Hv as [|x v Hx Hv IH]; intros n pre acc fuel Hn Hf;
    (destruct fuel as [|fuel]; [lia|]); simpl.
  { rewrite Nat.add_0_r, Nat.ltb_irrefl, app_nil_r. done. }
  simpl in Hf. rewrite length_app in *.
  pose proof (dbus_enc_align x (length pre) n Hn) as Hen.
  rewrite <- Hen in *. set (e := dbus_enc x (length pre)) in *.
  rewrite <- app_assoc.
  pose proof (dbus_roundtrip x pre (body v (n + length e) ++ post) Hx) as Hr.
  fold e in Hr. pose proof (dbus_progress _ _ _ _ Hr) as Hlt.
  destruct (Nat.ltb_spec (length pre) (length pre + (length e + length (body v (n + length e)))));
    [|lia].
  rewrite Hr. rewrite (app_assoc pre), <- (length_app pre), Nat.add_assoc, <- (length_app pre).
  rewrite IH; [by rewrite <- app_assoc|..|lia].
  rewrite length_app. rewrite <- Nat.Div0.add_mod_idemp_l, Hn.
  by rewrite Nat.Div0.add_mod_idemp_l.
Qed.

Lemma vec_roundtrip v pre post :
  vec_wf v →
  vec_deserialize (pre ++ vec_enc v (length pre) ++ post) (length pre) =
    Ok (v, (length pre + length (vec_enc v (length pre)))%nat).
Proof.
  intros [Hv Hlen]. pose proof align_ne_0 as Ha.
  unfold vec_deserialize, vec_enc. rewrite align_counter_pad by done.
  rewrite <- !app_assoc, (app_assoc pre).
  rewrite read_le_app by (rewrite ?length_app, ?length_le_split; done). run.
  rewrite le_combine_split, uwrap_small by (unfold in_u; lia).
  rewrite Z.mod_small, Nat2Z.id by (simpl; lia).
  rewrite align_counter_pad by done.
  rewrite (app_assoc (pre ++ _)). rewrite (app_assoc ((pre ++ _) ++ _)).
  set (pre' := ((pre ++ _) ++ _) ++ _).
  assert (length pre' = length pre + length (pad (length pre) 4) + 4 +
    length (pad (length pre + length (pad (length pre) 4) + 4) (get_alignment T)))%nat
    as Hpre' by (unfold pre'; rewrite !length_app, length_le_split; lia).
  rewrite <- Hpre'. rewrite !length_app.
  case_match eqn:Hlt; [apply Nat.ltb_lt in Hlt; lia|].
  rewrite elems_loop_body; [..|lia]; [|done|].
  - cbn [from_option app id]. rewrite Hpre', length_le_split. do 2 f_equal. lia.
  - rewrite Hpre', pad_aligned by done. by rewrite Nat.Div0.mod_0_l.
Qed.

#[global] Instance vec_laws : DbusLaws (list T).
Proof using Helem.
  refine (Build_DbusLaws _ _ vec_wf vec_enc _ _ _ _ _).
  - set_solver.
  - apply vec_serialize_enc.
  - apply vec_enc_mod.
  - apply vec_roundtrip.
  - apply vec_progress.
Defined.
End vec_laws.

(** Sequences of two values. *)
Section pair_laws.
Context {T1 T2 : Type} `{DbusLaws T1} `{DbusLaws T2}.

Definition pair_enc (x : T1 * T2) (p : nat) : list byte :=
  dbus_enc x.1 p ++ dbus_enc x.2 (p + length (dbus_enc x.1 p)).

Lemma pair_enc_mod x p q : (p mod 8 = q mod 8)%nat → pair_enc x p = pair_enc x q.
Proof.
  intros Hpq. unfold pair_enc. rewrite (dbus_enc_mod x.1 p q Hpq). f_equal.
  apply dbus_enc_mod. by rewrite <- Nat.Div0.add_mod_idemp_l, Hpq, Nat.Div0.add_mod_idemp_l.
Qed.

Lemma pair_roundtrip x pre post :
  dbus_wf x.1 → dbus_wf x.2 →
  deserialize (T1 * T2) (pre ++ pair_enc x (length pre) ++ post) (length pre) =
    Ok (x, (length pre + length (pair_enc x (length pre)))%nat).
Proof.
  destruct x as [x y]. intros Hx Hy. unfold pair_enc. cbn [deserialize pair_dbus fst snd] in *.
  rewrite <- app_assoc, (dbus_roundtrip x) by done. run.
  rewrite app_assoc, <- length_app, (dbus_roundtrip y) by done. run.
  rewrite !length_app. do 2 f_equal. lia.
Qed.

#[global] Instance pair_laws : DbusLaws (T1 * T2).
Proof.
  refine (Build_DbusLaws _ _ (λ x, dbus_wf x.1 ∧ dbus_wf x.2) pair_enc _ _ _ _ _).
  - apply (dbus_align (T:=T1)).
  - intros [x y] buf. unfold pair_enc. cbn [serialize pair_dbus fst snd].
    by rewrite !dbus_serialize, length_app, app_assoc.
  - apply pair_enc_mod.
  - intros x pre post [? ?]. by apply pair_roundtrip.
  - cbn [deserialize pair_dbus]. intros buf c x c'
      ([x1 c1] & Hx%dbus_progress & ([x2 c2] & Hy%dbus_progress & [= _ <-])%bind_Ok)%bind_Ok.
    lia.
Defined.
End pair_laws.

(** Structures: a padded pair. *)
Section structure_laws.
Context {T : Type} `{DbusLaws T}.

Definition structure_enc (x : Structure T) (p : nat) : list byte :=
  pad p 8 ++ pair_enc (key x, val x) (p + length (pad p 8)).

Lemma structure_enc_mod x p q :
  (p mod 8 = q mod 8)%nat → structure_enc x p = structure_enc x q.
Proof.
  intros Hpq. unfold structure_enc. rewrite (pad_mod p q) by done. f_equal.
  apply pair_enc_mod. by rewrite <- Nat.Div0.add_mod_idemp_l, Hpq, Nat.Div0.add_mod_idemp_l.
Qed.

Lemma structure_deserialize_pair buf c :
  deserialize (Structure T) buf c =
    '(kv, c) ← deserialize (string * T) buf (align_counter c 8);
    Ok (MkStructure kv.1 kv.2, c).
Proof.
  cbn [deserialize structure_dbus pair_dbus].
  destruct (deserialize string _ _) as [[k c1]| |]; run; [|done..].
  by destruct (deserialize T _ _) as [[v c2]| |].
Qed.

#[global] Instance structure_laws : DbusLaws (Structure T).
Proof.
  refine (Build_DbusLaws _ _ (λ x, dbus_wf (key x) ∧ dbus_wf (val x)) structure_enc _ _ _ _ _).
  - set_solver.
  - intros [k v] buf. unfold structure_enc. cbn [serialize structure_dbus key val].
    rewrite adjust_padding_pad by done.
    change (serialize v (serialize k ?b)) with (serialize (k, v) b).
    by rewrite dbus_serialize, length_app, app_assoc.
  - apply structure_enc_mod.
  - intros [k v] pre post Hwf. rewrite structure_deserialize_pair.
    unfold structure_enc. rewrite align_counter_pad by done.
    rewrite <- app_assoc, (app_assoc pre), <- (length_app pre).
    cbn [key val]. rewrite pair_roundtrip by apply Hwf. run.
    rewrite !length_app. do 2 f_equal. lia.
  - intros buf c x c'. rewrite structure_deserialize_pair, align_counter_pad by done.
    intros ([kv c1] & Hp%dbus_progress & [= _ <-])%bind_Ok. lia.
Defined.

#[global] Instance structure_elem : DbusElem (Structure T).
Proof. intros x n m. apply structure_enc_mod. Qed.
End structure_laws.

(** Variants. *)
Definition variant_header (sig : string) : list byte :=
  [byte.of_Z (uwrap 8 (Z.of_nat (String.length sig)))] ++ as_bytes sig ++ [Byte.x00].

Definition part_enc {T} `{DbusLaws T} (x : T) (p : nat) : list byte :=
  variant_header (get_signature T) ++
  dbus_enc x (p + length (variant_header (get_signature T))).

Definition variant_enc (x : Variant) (p : nat) : list byte :=
  match x with
  | VString s => part_enc s p
  | VBool b => part_enc b p
  | VU64 v => part_enc v p
  | VArrayU8 v => part_enc v p
  | VArrayU32 v => part_enc v p
  | VArrayU64 v => part_enc v p
  | VArrayStructU64 v => part_enc v p
  | VArrayStructSS v => part_enc v p
  end.

Definition variant_wf (x : Variant) : Prop :=
  match x with
  | VString s => dbus_wf s
  | VBool b => dbus_wf b
  | VU64 v => dbus_wf v
  | VArrayU8 v => dbus_wf v
  | VArrayU32 v => dbus_wf v
  | VArrayU64 v => dbus_wf v
  | VArrayStructU64 v => dbus_wf v
  | VArrayStructSS v => dbus_wf v
  end.

Lemma length_variant_header sig : length (variant_header sig) = (String.length sig + 2)%nat.
Proof. unfold variant_header. rewrite !length_app, length_as_bytes. simpl. lia. Qed.

Lemma variant_part_enc {T} `{DbusLaws T} (x : T) buf :
  variant_part x buf = buf ++ part_enc x (length buf).
Proof.
  unfold variant_part, part_enc. rewrite <- !(app_assoc buf).
  fold (variant_header (get_signature T)).
  by rewrite dbus_serialize, length_app, <- app_assoc.
Qed.

(** Reading the signature of a variant. *)
Lemma variant_deserialize_header sig pre rest :
  (String.length sig < 256)%nat → utf8_valid (as_bytes sig) = true →
  variant_deserialize (pre ++ variant_header sig ++ rest) (length pre) =
    variant_value sig (pre ++ variant_header sig ++ rest)
      (length pre + length (variant_header sig)).
Proof.
  intros Hlen Hutf. unfold variant_deserialize. rewrite align_counter_pad by done.
  unfold pad. rewrite Nat.mod_1_r. simpl (length (replicate _ _)). rewrite Nat.add_0_r.
  rewrite length_variant_header. unfold variant_header, index.
  rewrite <- !app_assoc, lookup_app_r, Nat.sub_diag by done. cbn [app lookup list_lookup unwrap]. run.
  rewrite byte.unsigned_of_Z. unfold byte.wrap.
  rewrite uwrap_small, Z.mod_small, Nat2Z.id by (unfold in_u; lia).
  rewrite cons_middle, (app_assoc pre).
  rewrite !length_app, length_as_bytes. cbn [length].
  case_match eqn:Hlt; [apply Nat.ltb_lt in Hlt; lia|].
  rewrite slice_middle by (rewrite ?length_app, ?length_as_bytes; done). run.
  rewrite from_utf8_as_bytes by done. run. rewrite <- !app_assoc. f_equal. lia.
Qed.

Lemma part_roundtrip {T} `{DbusLaws T} (f : T → Variant) (x : T) pre post :
  (String.length (get_signature T) < 256)%nat →
  utf8_valid (as_bytes (get_signature T)) = true →
  (∀ buf c, variant_value (get_signature T) buf c =
    '(y, c) ← deserialize T buf c; Ok (f y, c)) →
  dbus_wf x →
  variant_deserialize (pre ++ part_enc x (length pre) ++ post) (length pre) =
    Ok (f x, (length pre + length (part_enc x (length pre)))%nat).
Proof.
  intros Hlen Hutf Hval Hx. unfold part_enc.
  rewrite <- app_assoc, variant_deserialize_header, Hval by done.
  rewrite (app_assoc pre), <- (length_app pre), (dbus_roundtrip x) by done. run.
  rewrite !length_app. do 2 f_equal. lia.
Qed.

Lemma variant_value_progress sig buf c x c' :
  variant_value sig buf c = Ok (x, c') → (c < c')%nat.
Proof.
  unfold variant_value. repeat case_match; [..|done];
    intros ([y c1] & Hy%dbus_progress & [= _ <-])%bind_Ok; done.
Qed.

#[global] Instance variant_laws : DbusLaws Variant.
Proof.
  refine (Build_DbusLaws _ _ variant_wf variant_enc _ _ _ _ _).
  - set_solver.
  - intros x buf. destruct x; apply variant_part_enc.
  - intros x n m Hnm. destruct x; cbn [variant_enc]; unfold part_enc; f_equal;
      apply dbus_enc_mod; by rewrite <- Nat.Div0.add_mod_idemp_l, Hnm, Nat.Div0.add_mod_idemp_l.
  - intros x pre post Hwf. destruct x; cbn [variant_enc variant_wf] in *;
      (apply part_roundtrip; [simpl; lia|done|done|done]).
  - intros buf c x c'. cbn [deserialize variant_dbus]. unfold variant_deserialize.
    rewrite align_counter_pad by done.
    intros (b & _ & H)%bind_Ok. case_match; [done|].
    apply bind_Ok in H as (bs & _ & (sig & _ & Hv%variant_value_progress)%bind_Ok). lia.
Defined.

(** ** Properties *)

(** C7: unit properties survive the wire.  The property list [a(sv)] that
    youki sends to systemd, serialized at any position of a buffer and followed
    by any bytes, deserializes to the same list, and the deserializer stops
    right after it, provided the strings are valid UTF-8 and all lengths fit
    their 32-bit length fields. *)
Theorem unit_properties_roundtrip (ps : list (Structure Variant)) pre post :
  Forall (λ p, string_wf (key p) ∧ variant_wf (val p)) ps →
  (Z.of_nat (length (body ps 0)) < 2 ^ 32)%Z →
  deserialize (list (Structure Variant)) (serialize ps pre ++ post) (length pre) =
    Ok (ps, length (serialize ps pre)).
Proof.
  intros Hps Hlen. rewrite dbus_serialize, length_app, <- app_assoc.
  by apply dbus_roundtrip.
Qed.

Definition example_properties : list (Structure Variant) := [
  MkStructure "Description" (VString "youki container c");
  MkStructure "Delegate" (VBool true);
  MkStructure "MemoryMax" (VU64 (UInt 1048576));
  MkStructure "AllowedCPUs" (VArrayU8 [UInt 3; UInt 255]);
  MkStructure "DeviceAllow" (VArrayStructSS [MkStructure "/dev/null" "rwm"]);
  MkStructure "PIDs" (VArrayU32 [UInt 4242]) ].

Lemma unit_properties_roundtrip_witness :
  deserialize (list (Structure Variant)) (serialize example_properties [Byte.x01])
    (length [Byte.x01]) =
  Ok (example_properties, length (serialize example_properties [Byte.x01])).
Proof.
  rewrite <- (app_nil_r (serialize _ _)) at 1.
  apply (unit_properties_roundtrip example_properties [Byte.x01] []).
  - repeat (apply Forall_cons; split; [split; [by split|]|]); [..|constructor];
      cbn; repeat split; try done.
    all: repeat (apply Forall_cons; split); try apply Forall_nil_2; done.
  - vm_compute. done.
Defined.

(** Reading an array ends.  For every element type whose deserializer moves
    the counter forward, the element loop ends within as many iterations as
    there are bytes left in the array, so it never runs out of the fuel
    [vec_deserialize] gives it, whatever the bytes are. *)
Theorem array_loop_terminates {T} `{DbusLaws T} fuel buf end_ c (acc : list T) :
  (end_ - c < fuel)%nat → is_Some (elems_loop fuel buf end_ c acc).
Proof.
  revert c acc. induction fuel as [|fuel IH]; intros c acc Hf; simpl; [lia|].
  destruct (Nat.ltb_spec c end_); [|by eexists].
  destruct (deserialize T buf c) as [[x c2]| |] eqn:Hx; [|by eexists..].
  apply IH. apply dbus_progress in Hx. lia.
Qed.

Lemma array_loop_terminates_witness :
  is_Some (elems_loop (T:=u32) 6 (as_bytes "hello!!") 5 0 []).
Proof. apply array_loop_terminates. lia. Defined.

(** Arrays of variants are not readable.  The elements of an array are
    padded for a buffer of their own, which is right only when the padding of
    an element depends on no more than the alignment of its type.  A variant is
    1-aligned but holds 8-aligned values: an array with one 64-bit variant,
    written at the start of a buffer, is rejected when read back. *)
Theorem variant_array_misaligned :
  deserialize (list Variant) (serialize [VU64 (UInt 7)] []) 0 =
    Err (DBus (IncompleteImplementation "unsupported value signature ")).
Proof. vm_compute. reflexivity. Qed.
