(* ===== verification/DbusMessage.v ===== *)
(** * D-Bus messages

    Models [crates/libcgroups/src/systemd/dbus_native/message.rs]: the headers
    and the framing of a message, in both directions. *)
From S2P Require Import Prelude Dbus.

Local Open Scope string_scope.
Local Open Scope list_scope.

(** ** Data *)

Inductive Endian : Type := Little | Big.

Definition endian_to_byte (e : Endian) : byte :=
  match e with Big => Byte.x62 (* b *) | Little => Byte.x6c (* l *) end.

Definition endian_from_byte (b : byte) : Result Endian :=
  match b with
  | Byte.x6c => Ok Little
  | Byte.x62 => Ok Big
  | _ => Panic
  end.

Inductive HeaderSignature : Type := SigObject | SigU32 | SigString | SigSignature.

#[global] Instance HeaderSignature_eq_dec : EqDecision HeaderSignature.
Proof. solve_decision. Defined.

Definition signature_to_byte (s : HeaderSignature) : byte :=
  match s with
  | SigObject => Byte.x6f (* o *)
  | SigSignature => Byte.x67 (* g *)
  | SigString => Byte.x73 (* s *)
  | SigU32 => Byte.x75 (* u *)
  end.

Definition signature_from_byte (b : byte) : Result HeaderSignature :=
  match b with
  | Byte.x6f => Ok SigObject
  | Byte.x67 => Ok SigSignature
  | Byte.x73 => Ok SigString
  | Byte.x75 => Ok SigU32
  | _ => Panic
  end.

(** The derived [Debug] output. *)
Definition signature_debug (s : HeaderSignature) : string :=
  match s with
  | SigObject => "Object"
  | SigU32 => "U32"
  | SigString => "String"
  | SigSignature => "Signature"
  end.

Inductive MessageType : Type := MethodCall | MethodReturn | MError | Signal.

#[global] Instance MessageType_eq_dec : EqDecision MessageType.
Proof. solve_decision. Defined.

Inductive HeaderKind : Type :=
  | KPath | KInterface | KMember | KErrorName | KReplySerial | KDestination
  | KSender | KBodySignature | KUnixFd.

#[global] Instance HeaderKind_eq_dec : EqDecision HeaderKind.
Proof. solve_decision. Defined.

Definition kind_signature (k : HeaderKind) : HeaderSignature :=
  match k with
  | KPath => SigObject
  | KReplySerial => SigU32
  | KBodySignature => SigSignature
  | KUnixFd => SigU32
  | _ => SigString
  end.

Inductive HeaderValue : Type :=
  | HString (s : string)
  | HU32 (v : Z).

Definition value_as_bytes (v : HeaderValue) : list byte :=
  match v with
  | HString s => as_bytes s ++ [Byte.x00]
  | HU32 v => le_split 4 v
  end.

Definition value_len (v : HeaderValue) : nat :=
  match v with HString s => String.length s | HU32 _ => 4 end.

Record Header : Type := MkHeader { kind : HeaderKind; value : HeaderValue }.

Record Preamble : Type := MkPreamble {
  endian : Endian; mtype : MessageType; flags : Z; version : Z }.

Definition preamble_new (mtype : MessageType) : Preamble :=
  {| endian := Little; mtype := mtype; flags := 0; version := 1 |}.

Record Message : Type := MkMessage {
  preamble : Preamble;
  serial : Z;
  headers : list Header;
  mbody : list byte }.

Definition message_new (mtype : MessageType) (serial : Z) (headers : list Header)
    (body : list byte) : Message :=
  {| preamble := preamble_new mtype; serial := serial; headers := headers;
     mbody := body |}.

(** ** Headers *)

Definition kind_from_byte (b : byte) : Result HeaderKind :=
  match b with
  | Byte.x01 => Ok KPath
  | Byte.x02 => Ok KInterface
  | Byte.x03 => Ok KMember
  | Byte.x04 => Ok KErrorName
  | Byte.x05 => Ok KReplySerial
  | Byte.x06 => Ok KDestination
  | Byte.x07 => Ok KSender
  | Byte.x08 => Ok KBodySignature
  | Byte.x09 => Ok KUnixFd
  | v => deser_err ("found invalid header kind value : " +:+ pretty (Byte.to_N v))
  end.

Definition kind_to_byte (k : HeaderKind) : byte :=
  match k with
  | KPath => Byte.x01
  | KInterface => Byte.x02
  | KMember => Byte.x03
  | KErrorName => Byte.x04
  | KReplySerial => Byte.x05
  | KDestination => Byte.x06
  | KSender => Byte.x07
  | KBodySignature => Byte.x08
  | KUnixFd => Byte.x09
  end.

(** [len] bytes of a string and the null byte after it. *)
Definition read_str (buf : list byte) (ctr len : nat) : Result (HeaderValue * nat) :=
  if (length buf <? ctr + len)%nat then
    deser_err "incomplete response : partial header value"
  else
    bytes ← slice buf ctr (ctr + len);
    s ← from_utf8_unwrap bytes;
    Ok (HString s, (ctr + (len + 1))%nat).

Definition header_parse (buf : list byte) (ctr : nat) : Result (Header * nat) :=
  b ← index buf ctr;
  header_kind ← kind_from_byte b;
  let ctr := (ctr + 1)%nat in
  b ← index buf ctr;
  let signature_length := Z.to_nat (byte.unsigned b) in
  let ctr := (ctr + 1)%nat in
  if negb (signature_length =? 1)%nat then
    Err (DBus (IncompleteImplementation "complex header type not supported"))
  else
    b ← index buf ctr;
    actual_signature ← signature_from_byte b;
    let ctr := (ctr + signature_length)%nat in
    let expected_signature := kind_signature header_kind in
    if bool_decide (actual_signature ≠ expected_signature) then
      deser_err ("header signature mismatch, expected " +:+ signature_debug expected_signature
        +:+ ", found " +:+ signature_debug actual_signature)
    else
      let ctr := (ctr + 1)%nat in
      '(value, ctr) ← match expected_signature with
      | SigU32 =>
          '(v, ctr) ← read_le 4 buf ctr "incomplete response : partial header value";
          Ok (HU32 v, ctr)
      | SigObject | SigString =>
          '(len, ctr) ← read_le 4 buf ctr
            "incomplete response : partial header value length";
          read_str buf ctr (Z.to_nat len)
      | SigSignature =>
          b ← index buf ctr;
          read_str buf (ctr + 1) (Z.to_nat (byte.unsigned b))
      end;
      Ok (MkHeader header_kind value, ctr).

Definition serialize_header (ret : list byte) (header : Header) : list byte :=
  let ret := adjust_padding ret 8 in
  let ret := ret ++ [kind_to_byte (kind header); Byte.x01;
                     signature_to_byte (kind_signature (kind header)); Byte.x00] in
  let header_value_length := uwrap 32 (Z.of_nat (value_len (value header))) in
  let ret := match kind header with
             | KBodySignature => ret ++ [byte.of_Z (uwrap 8 header_value_length)]
             | KReplySerial | KUnixFd => ret
             | _ => ret ++ le_split 4 header_value_length
             end in
  ret ++ value_as_bytes (value header).

Definition serialize_headers (headers : list Header) : list byte :=
  foldl serialize_header [] headers.

(** The [while ctr < buf.len()] loop; [None] when the fuel runs out. *)
Fixpoint headers_loop (fuel : nat) (buf : list byte) (ctr : nat) (ret : list Header) :
    option (Result (list Header)) :=
  match fuel with
  | O => None
  | S fuel =>
      if (ctr <? length buf)%nat then
        match header_parse buf ctr with
        | Ok (header, ctr) =>
            headers_loop fuel buf (align_counter ctr 8) (ret ++ [header])
        | Err e => Some (Err e)
        | Panic => Some Panic
        end
      else Some (Ok ret)
  end.

(** Parsing a header moves the counter forward, so the length of the buffer
    bounds the iterations. *)
Definition deserialize_headers (buf : list byte) : Result (list Header) :=
  default Panic (headers_loop (S (length buf)) buf (align_counter 0 8) []).

(** ** Messages *)

Definition mtype_to_byte (t : MessageType) : byte :=
  match t with
  | MethodCall => Byte.x01
  | MethodReturn => Byte.x02
  | MError => Byte.x03
  | Signal => Byte.x04
  end.

Definition mtype_from_byte (b : byte) : Result MessageType :=
  match b with
  | Byte.x01 => Ok MethodCall
  | Byte.x02 => Ok MethodReturn
  | Byte.x03 => Ok MError
  | Byte.x04 => Ok Signal
  | v => deser_err ("invalid message type " +:+ pretty (Byte.to_N v))
  end.

Definition message_serialize (m : Message) : list byte :=
  let message := [endian_to_byte (endian (preamble m)); mtype_to_byte (mtype (preamble m));
                  byte.of_Z (flags (preamble m)); byte.of_Z (version (preamble m))] in
  let message := message ++ le_split 4 (uwrap 32 (Z.of_nat (length (mbody m)))) in
  let message := message ++ le_split 4 (serial m) in
  let serialized_headers := serialize_headers (headers m) in
  let message := message ++ le_split 4 (uwrap 32 (Z.of_nat (length serialized_headers))) in
  let message := message ++ serialized_headers in
  let message := adjust_padding message 8 in
  message ++ mbody m.

Definition message_deserialize (buf : list byte) (counter : nat) : Result (Message * nat) :=
  b ← index buf counter;
  endian ← endian_from_byte b;
  match endian with
  | Big => Err (DBus (IncompleteImplementation "big endian not supported"))
  | Little =>
      b ← index buf (counter + 1);
      mtype ← mtype_from_byte b;
      _ ← index buf (counter + 2);
      version ← index buf (counter + 3);
      if negb (byte.unsigned version =? 1)%Z then
        Err (DBus (IncompleteImplementation "only dbus protocol v1 is supported"))
      else
        let counter := (counter + 4)%nat in
        let preamble := preamble_new mtype in
        '(body_length, counter) ← read_le 4 buf counter
          "incomplete response : partial body length";
        '(serial, counter) ← read_le 4 buf counter
          "incomplete response : partial header serial";
        '(header_array_length, counter) ← read_le 4 buf counter
          "incomplete response : partial header header array length";
        let header_array_length := Z.to_nat header_array_length in
        if (length buf <? counter + header_array_length)%nat then
          deser_err "incomplete response : partial header array"
        else
          bytes ← slice buf counter (counter + header_array_length);
          headers ← deserialize_headers bytes;
          let counter := align_counter (counter + header_array_length) 8 in
          let body_length := Z.to_nat body_length in
          if (length buf <? counter + body_length)%nat then
            deser_err "incomplete response : partial body value"
          else
            body ← slice buf counter (counter + body_length);
            Ok ({| preamble := preamble; serial := serial; headers := headers;
                   mbody := body |}, (counter + body_length)%nat)
  end.

(** ** Round trips *)

Definition header_wf (h : Header) : Prop :=
  match kind_signature (kind h), value h with
  | SigU32, HU32 v => in_u 32 v
  | (SigObject | SigString), HString s => string_wf s
  | SigSignature, HString s =>
      utf8_valid (as_bytes s) = true ∧ (String.length s < 256)%nat
  | _, _ => False
  end.

(** The bytes of one header, which starts 8-aligned. *)
Definition header_preamble (k : HeaderKind) : list byte :=
  [kind_to_byte k; Byte.x01; signature_to_byte (kind_signature k); Byte.x00].

Definition header_enc (h : Header) : list byte :=
  header_preamble (kind h) ++
  match kind_signature (kind h) with
  | SigU32 => []
  | SigSignature => [byte.of_Z (uwrap 8 (uwrap 32 (Z.of_nat (value_len (value h)))))]
  | _ => le_split 4 (uwrap 32 (Z.of_nat (value_len (value h))))
  end ++ value_as_bytes (value h).

Lemma serialize_header_enc ret h :
  serialize_header ret h = ret ++ pad (length ret) 8 ++ header_enc h.
Proof.
  unfold serialize_header, header_enc. rewrite adjust_padding_pad by done.
  destruct h as [k v]; cbn [kind value].
  destruct k; cbn [kind_signature]; by rewrite <- ?app_assoc.
Qed.

Lemma kind_roundtrip k : kind_from_byte (kind_to_byte k) = Ok k.
Proof. by destruct k. Qed.

Lemma signature_roundtrip s : signature_from_byte (signature_to_byte s) = Ok s.
Proof. by destruct s. Qed.

Lemma mtype_roundtrip t : mtype_from_byte (mtype_to_byte t) = Ok t.
Proof. by destruct t. Qed.

Lemma read_str_app s pre post ctr :
  ctr = length pre → utf8_valid (as_bytes s) = true →
  read_str (pre ++ value_as_bytes (HString s) ++ post) ctr (String.length s) =
    Ok (HString s, (ctr + length (value_as_bytes (HString s)))%nat).
Proof.
  intros -> Hutf. unfold read_str. cbn [value_as_bytes]. rewrite <- app_assoc.
  rewrite !length_app, !length_as_bytes. cbn [length].
  case_match eqn:Hlt; [apply Nat.ltb_lt in Hlt; lia|].
  rewrite slice_middle by (rewrite ?length_as_bytes; done). run.
  by rewrite from_utf8_as_bytes by done.
Qed.

(** The part of [header_parse] that reads the value. *)
Definition value_parse (s : HeaderSignature) (buf : list byte) (ctr : nat) :
    Result (HeaderValue * nat) :=
  match s with
  | SigU32 =>
      '(v, ctr) ← read_le 4 buf ctr "incomplete response : partial header value";
      Ok (HU32 v, ctr)
  | SigObject | SigString =>
      '(len, ctr) ← read_le 4 buf ctr "incomplete response : partial header value length";
      read_str buf ctr (Z.to_nat len)
  | SigSignature =>
      b ← index buf ctr;
      read_str buf (ctr + 1) (Z.to_nat (byte.unsigned b))
  end.

Lemma header_parse_preamble k pre rest :
  header_parse (pre ++ header_preamble k ++ rest) (length pre) =
    '(v, ctr) ← value_parse (kind_signature k) (pre ++ header_preamble k ++ rest)
      (length pre + 4);
    Ok (MkHeader k v, ctr).
Proof.
  unfold header_parse, header_preamble. cbn [app].
  rewrite (index_app pre _ (length pre) 0) by lia. cbn [index unwrap lookup list_lookup].
  change (index (kind_to_byte k :: _) 0) with (Ok (E:=SystemdClientError) (kind_to_byte k)).
  run. rewrite kind_roundtrip. run.
  rewrite (index_app pre _ (length pre + 1) 1) by lia.
  change (index (_ :: Byte.x01 :: _) 1) with (Ok (E:=SystemdClientError) Byte.x01). run.
  change (Z.to_nat (byte.unsigned Byte.x01)) with 1%nat. cbn [Nat.eqb negb].
  rewrite (index_app pre _ (length pre + 1 + 1) 2) by lia.
  change (index (_ :: _ :: ?b :: _) 2) with (Ok (E:=SystemdClientError) b). run.
  rewrite signature_roundtrip. run. rewrite bool_decide_false by tauto.
  replace (length pre + 1 + 1 + 1 + 1)%nat with (length pre + 4)%nat by lia.
  by destruct (kind_signature k).
Qed.

Lemma str_value_roundtrip s pre post err :
  string_wf s →
  let buf := pre ++ le_split 4 (uwrap 32 (Z.of_nat (String.length s)))
               ++ value_as_bytes (HString s) ++ post in
  ('(len, ctr) ← read_le 4 buf (length pre) err; read_str buf ctr (Z.to_nat len)) =
    Ok (HString s, (length pre + (4 + length (value_as_bytes (HString s))))%nat).
Proof.
  intros [Hutf Hlen]. cbv zeta.
  rewrite read_le_app by (rewrite ?length_le_split; done). run.
  rewrite le_combine_split, uwrap_small by (unfold in_u; lia).
  rewrite Z.mod_small, Nat2Z.id by (simpl; lia).
  rewrite app_assoc, read_str_app by (rewrite ?length_app, ?length_le_split; done).
  by rewrite Nat.add_assoc.
Qed.

Lemma sig_value_roundtrip s pre post :
  utf8_valid (as_bytes s) = true → (String.length s < 256)%nat →
  let buf := pre ++ [byte.of_Z (uwrap 8 (uwrap 32 (Z.of_nat (String.length s))))]
               ++ value_as_bytes (HString s) ++ post in
  (b ← index buf (length pre);
   read_str buf (length pre + 1) (Z.to_nat (byte.unsigned b))) =
    Ok (HString s, (length pre + (1 + length (value_as_bytes (HString s))))%nat).
Proof.
  intros Hutf Hlen. cbv zeta. rewrite (index_app pre _ (length pre) 0) by lia.
  change (index ([?b] ++ _) 0) with (Ok (E:=SystemdClientError) b). run.
  rewrite byte.unsigned_of_Z. unfold byte.wrap.
  rewrite !uwrap_small, Z.mod_small, Nat2Z.id by
    (unfold in_u; rewrite ?uwrap_small; unfold in_u; lia).
  rewrite app_assoc, read_str_app by (rewrite ?length_app; done).
  by rewrite Nat.add_assoc.
Qed.

Lemma read_str_progress buf ctr len v ctr' :
  read_str buf ctr len = Ok (v, ctr') → (ctr < ctr')%nat.
Proof.
  unfold read_str. case_match; [done|].
  intros (b & _ & (s & _ & [= _ <-])%bind_Ok)%bind_Ok. lia.
Qed.

Lemma header_parse_progress buf ctr h ctr' :
  header_parse buf ctr = Ok (h, ctr') → (ctr < ctr')%nat.
Proof.
  unfold header_parse. intros (b1 & _ & (k & _ & (b2 & _ & H)%bind_Ok)%bind_Ok)%bind_Ok.
  case_match; [done|]. apply bind_Ok in H as (b3 & _ & (sg & _ & H)%bind_Ok).
  case_match; [done|]. apply bind_Ok in H as ([v c] & H & [= _ <-]).
  destruct (kind_signature k).
  - apply bind_Ok in H as ([z c2] & ->%read_le_progress & H%read_str_progress). lia.
  - apply bind_Ok in H as ([z c2] & ->%read_le_progress & [= _ <-]). lia.
  - apply bind_Ok in H as ([z c2] & ->%read_le_progress & H%read_str_progress). lia.
  - apply bind_Ok in H as (b & _ & H%read_str_progress). lia.
Qed.

Lemma header_roundtrip h pre post :
  header_wf h →
  header_parse (pre ++ header_enc h ++ post) (length pre) =
    Ok (h, (length pre + length (header_enc h))%nat).
Proof.
  destruct h as [k v]. unfold header_wf, header_enc. cbn [kind value]. intros Hwf.
  rewrite <- !app_assoc, header_parse_preamble.
  replace (length pre + 4)%nat with (length (pre ++ header_preamble k))
    by (by rewrite length_app).
  rewrite (app_assoc pre).
  destruct (kind_signature k), v as [s|z]; try done; cbn [value_parse value_len].
  - rewrite str_value_roundtrip by done. run.
    rewrite !length_app, length_le_split. do 2 f_equal. lia.
  - cbn [app value_as_bytes]. rewrite read_le_app by (rewrite ?length_le_split; done). run.
    rewrite le_combine_split, Z.mod_small by (simpl; apply Hwf).
    rewrite !length_app, length_le_split. do 2 f_equal. lia.
  - rewrite str_value_roundtrip by done. run.
    rewrite !length_app, length_le_split. do 2 f_equal. lia.
  - destruct Hwf. rewrite sig_value_roundtrip by done. run.
    rewrite !length_app. cbn [length]. do 2 f_equal. lia.
Qed.

(** The loop over the headers. *)
Fixpoint headers_enc (hs : list Header) (n : nat) : list byte :=
  match hs with
  | [] => []
  | h :: hs => pad n 8 ++ header_enc h
               ++ headers_enc hs (n + length (pad n 8) + length (header_enc h))
  end.

Lemma serialize_headers_enc hs : serialize_headers hs = headers_enc hs 0.
Proof.
  unfold serialize_headers.
  enough (∀ buf, foldl serialize_header buf hs = buf ++ headers_enc hs (length buf))
    as Hg by apply Hg.
  induction hs as [|h hs IH]; intros buf; cbn [foldl headers_enc];
    [by rewrite app_nil_r|].
  rewrite IH, serialize_header_enc, !length_app. rewrite <- !app_assoc.
  by rewrite Nat.add_assoc.
Qed.

Lemma header_enc_length h : (4 ≤ length (header_enc h))%nat.
Proof. unfold header_enc. rewrite length_app. simpl. lia. Qed.

Lemma headers_loop_enc hs pre acc fuel :
  Forall header_wf hs → (length (headers_enc hs (length pre)) < fuel)%nat →
  headers_loop fuel (pre ++ headers_enc hs (length pre))
    (align_counter (length pre) 8) acc = Some (Ok (acc ++ hs)).
Proof.
  intros Hhs. revert pre acc fuel.
  induction Hhs as [|h hs Hh Hhs IH]; intros pre acc fuel Hf;
    (destruct fuel as [|fuel]; [lia|]); rewrite align_counter_pad by done.
  { cbn [headers_enc headers_loop]. rewrite app_nil_r.
    destruct (Nat.ltb_spec (length pre + length (pad (length pre) 8)) (length pre)); [lia|].
    by rewrite app_nil_r. }
  cbn [headers_enc] in *. cbn [headers_loop].
  rewrite !length_app in *. pose proof (header_enc_length h).
  match goal with |- context [Nat.ltb ?a ?b] => destruct (Nat.ltb_spec a b) end; [|lia].
  rewrite (app_assoc pre), <- (length_app pre), header_roundtrip by done.
  rewrite <- !length_app, (app_assoc (pre ++ _)). rewrite (IH _ (acc ++ [h]) fuel).
  - by rewrite <- app_assoc.
  - rewrite !length_app. lia.
Qed.

Lemma deserialize_serialize_headers hs :
  Forall header_wf hs → deserialize_headers (serialize_headers hs) = Ok hs.
Proof.
  intros Hhs. rewrite serialize_headers_enc. unfold deserialize_headers.
  pose proof (headers_loop_enc hs [] [] (S (length (headers_enc hs 0))) Hhs) as Hl.
  cbn [app length] in Hl. rewrite Hl by lia. done.
Qed.

(** A message that is read: its flags may be any, and are forgotten. *)
Definition received (m : Message) : Message :=
  MkMessage (preamble_new (mtype (preamble m))) (serial m) (headers m) (mbody m).

Definition message_wf (m : Message) : Prop :=
  endian (preamble m) = Little ∧ version (preamble m) = 1%Z ∧ in_u 32 (serial m) ∧
  Forall header_wf (headers m) ∧
  (Z.of_nat (length (serialize_headers (headers m))) < 2 ^ 32)%Z ∧
  (Z.of_nat (length (mbody m)) < 2 ^ 32)%Z.

(** The parts of a serialized message. *)
Lemma message_serialize_parts m :
  endian (preamble m) = Little → version (preamble m) = 1%Z →
  let h := serialize_headers (headers m) in
  message_serialize m =
    [Byte.x6c; mtype_to_byte (mtype (preamble m)); byte.of_Z (flags (preamble m)); Byte.x01]
    ++ le_split 4 (uwrap 32 (Z.of_nat (length (mbody m))))
    ++ le_split 4 (serial m)
    ++ le_split 4 (uwrap 32 (Z.of_nat (length h)))
    ++ h ++ pad (16 + length h) 8 ++ mbody m.
Proof.
  intros He Hv. cbv zeta. unfold message_serialize. rewrite He, Hv. cbn [endian_to_byte].
  rewrite adjust_padding_pad by done. rewrite !length_app, !length_le_split.
  rewrite <- !app_assoc. done.
Qed.

Lemma read_len pre n post err :
  in_u 32 n →
  read_le 4 (pre ++ le_split 4 n ++ post) (length pre) err =
    Ok (n, length (pre ++ le_split 4 n)).
Proof.
  intros Hn. rewrite read_le_app by (rewrite ?length_le_split; done).
  rewrite le_combine_split, Z.mod_small by done.
  by rewrite length_app, length_le_split.
Qed.

Lemma message_roundtrip m pre post :
  message_wf m → (length pre mod 8 = 0)%nat →
  message_deserialize (pre ++ message_serialize m ++ post) (length pre) =
    Ok (received m, (length pre + length (message_serialize m))%nat).
Proof.
  intros (He & Hv & Hser & Hhs & Hhl & Hbl) Hpre. rewrite (message_serialize_parts m He Hv).
  destruct m as [p ser hs body]; cbn [preamble serial headers mbody] in *.
  set (h := serialize_headers hs) in *. rewrite <- !app_assoc.
  unfold message_deserialize. set (t := mtype p) in *.
  rewrite (index_app pre _ (length pre) 0), (index_app pre _ (length pre + 1) 1),
    (index_app pre _ (length pre + 2) 2), (index_app pre _ (length pre + 3) 3) by lia.
  change (index ([?a; ?b; ?c; ?d] ++ _) 0) with (Ok (E:=SystemdClientError) a).
  change (index ([?a; ?b; ?c; ?d] ++ _) 1) with (Ok (E:=SystemdClientError) b).
  change (index ([?a; ?b; ?c; ?d] ++ _) 2) with (Ok (E:=SystemdClientError) c).
  change (index ([?a; ?b; ?c; ?d] ++ _) 3) with (Ok (E:=SystemdClientError) d).
  run. cbn [endian_from_byte]. run. rewrite mtype_roundtrip. run.
  change (byte.unsigned Byte.x01 =? 1)%Z with true. cbn [negb].
  rewrite (app_assoc pre). set (pre1 := pre ++ [_; _; _; _]).
  replace (length pre + 4)%nat with (length pre1) by (unfold pre1; by rewrite length_app).
  rewrite !uwrap_small by (unfold in_u; lia).
  rewrite read_len by (unfold in_u; lia). run.
  rewrite (app_assoc pre1), read_len by done. run.
  rewrite (app_assoc (pre1 ++ _)), read_len by (unfold in_u; lia). run.
  rewrite (app_assoc ((pre1 ++ _) ++ _)).
  set (pre4 := ((pre1 ++ _) ++ _) ++ _). rewrite !Nat2Z.id.
  assert (length pre4 = length pre + 16)%nat as Hpre4
    by (unfold pre4, pre1; rewrite !length_app, !length_le_split; simpl; lia).
  case_match eqn:Hlt; [rewrite !length_app in Hlt; apply Nat.ltb_lt in Hlt; lia|].
  rewrite (slice_middle pre4 h _ (length pre4)) by done. run.
  pose proof (deserialize_serialize_headers hs Hhs) as Hd. fold h in Hd. rewrite Hd. run.
  rewrite align_counter_pad by done.
  rewrite (pad_mod (length pre4 + length h) (16 + length h)).
  2:{ rewrite Hpre4, <- Nat.add_assoc, <- Nat.Div0.add_mod_idemp_l, Hpre. done. }
  rewrite <- !length_app, <- !app_assoc, (app_assoc pre4), (app_assoc (pre4 ++ h)).
  case_match eqn:Hlt'; [rewrite !length_app in Hlt'; apply Nat.ltb_lt in Hlt'; lia|].
  rewrite slice_middle by (rewrite ?length_app; lia). run.
  do 2 f_equal. rewrite !length_app, !length_le_split, Hpre4. simpl. lia.
Qed.

(** ** Properties *)

(** C10: a message survives the wire.  A message that [Message::new] builds from
    well-formed headers, serialized at an 8-aligned position of a buffer and
    followed by any bytes, deserializes to the same message, body included, and
    the counter ends right after it. *)
Theorem message_new_roundtrip t ser hs body pre post :
  let m := message_new t ser hs body in
  in_u 32 ser → Forall header_wf hs →
  (Z.of_nat (length (serialize_headers hs)) < 2 ^ 32)%Z →
  (Z.of_nat (length body) < 2 ^ 32)%Z →
  (length pre mod 8 = 0)%nat →
  message_deserialize (pre ++ message_serialize m ++ post) (length pre) =
    Ok (m, (length pre + length (message_serialize m))%nat).
Proof.
  intros m. intros. apply (message_roundtrip m); [|done]. by unfold message_wf.
Qed.

Definition example_headers : list Header := [
  MkHeader KPath (HString "/org/freedesktop/systemd1");
  MkHeader KMember (HString "GetUnit");
  MkHeader KReplySerial (HU32 77);
  MkHeader KBodySignature (HString "s") ].

Lemma message_new_roundtrip_witness :
  let m := message_new MethodReturn 5 example_headers (as_bytes "body") in
  message_deserialize (message_serialize m ++ [Byte.xff]) 0 =
    Ok (m, length (message_serialize m)).
Proof.
  apply (message_new_roundtrip MethodReturn 5 example_headers (as_bytes "body") [] [Byte.xff]);
    [unfold in_u; lia| |vm_compute; done..].
  repeat (apply Forall_cons; split); [..|apply Forall_nil_2]; cbn; try done;
    unfold in_u; lia.
Defined.

(** Reading headers ends, and decoding a message never loops.  Whatever the
    bytes are, the loop over the headers ends within the fuel that
    [deserialize_headers] gives it. *)
Theorem headers_loop_terminates fuel buf ctr acc :
  (length buf - ctr < fuel)%nat → is_Some (headers_loop fuel buf ctr acc).
Proof.
  revert ctr acc. induction fuel as [|fuel IH]; intros ctr acc Hf; [lia|].
  cbn [headers_loop]. destruct (Nat.ltb_spec ctr (length buf)); [|by eexists].
  destruct (header_parse buf ctr) as [[h c]| |] eqn:Hh; [|by eexists..].
  apply IH. rewrite align_counter_pad by done. apply header_parse_progress in Hh. lia.
Qed.

Lemma headers_loop_terminates_witness : is_Some (headers_loop 3 (as_bytes "xy") 0 []).
Proof. apply headers_loop_terminates. simpl. lia. Defined.

(** The byte the D-Bus specification uses for big-endian messages is not
    recognised.  [read_one_message] documents ['B'] as the big-endian flag, but
    [Endian::from_byte] knows ['b']: a message that starts with ['B'] makes
    [Message::deserialize] panic instead of returning the unsupported error,
    and a message that starts with ['b'] is the one that gets the error. *)
Theorem big_endian_flag_panics rest :
  message_deserialize (as_bytes "B" ++ rest) 0 = Panic ∧
  message_deserialize (as_bytes "b" ++ rest) 0 =
    Err (DBus (IncompleteImplementation "big endian not supported")).
Proof. done. Qed.
