(* ===== verification/DbusConn.v ===== *)
(** * The D-Bus connection to systemd

    Models [crates/libcgroups/src/systemd/dbus_native/dbus.rs] (the connection:
    authentication, framing of incoming messages, method calls, the systemd
    client operations) and [proxy.rs] (typed method calls).

    The socket is the world of these computations: [rx] is what the peer and
    the kernel will deliver, as any sequence of data chunks, interrupted calls,
    errors and end of stream; [tx] is what has been sent; [tx_errs] says which
    of the next sends fail. *)
From S2P Require Import Prelude Text Dbus DbusMessage.

Local Open Scope string_scope.
Local Open Scope list_scope.

(** ** The socket *)

Definition EINTR : Z := 4.
Definition EAGAIN : Z := 11.

Inductive rx_event : Type :=
  | RxData (l : list byte)
  | RxErr (errno : Z)
  | RxEof.

Record sock : Type := MkSock {
  rx : list rx_event;
  tx : list (list byte);
  tx_errs : list (option Z);
}.

(** [recv] into a buffer of [n] bytes: at most [n] bytes of the next chunk; a
    silent peer makes it time out. *)
Definition recv (n : nat) : io sock Z (list byte) := λ s,
  match rx s with
  | [] => (Err EAGAIN, s)
  | RxData l :: rest =>
      let rest := if (length l <=? n)%nat then rest else RxData (drop n l) :: rest in
      (Ok (take n l), MkSock rest (tx s) (tx_errs s))
  | RxErr e :: rest => (Err e, MkSock rest (tx s) (tx_errs s))
  | RxEof :: _ => (Ok [], s)
  end.

Definition send (data : list byte) : io sock Z () := λ s,
  match tx_errs s with
  | Some e :: errs => (Err e, MkSock (rx s) (tx s) errs)
  | None :: errs => (Ok (), MkSock (rx s) (tx s ++ [data]) errs)
  | [] => (Ok (), MkSock (rx s) (tx s ++ [data]) [])
  end.

(** [From<nix::Error> for SystemdClientError] *)
Definition nix_err (e : Z) : SystemdClientError := DBus (Nix e).

Abbreviation conn_io := (io sock SystemdClientError).

(** ** Reading one message *)

(** The [while total < buf.len()] loop of [read_exact]; [None] when the fuel
    runs out. *)
Fixpoint read_exact_loop (fuel : nat) (len : nat) (buf : list byte) (s : sock) :
    option (Result (list byte) * sock) :=
  match fuel with
  | O => None
  | S fuel =>
      if (length buf <? len)%nat then
        match recv (len - length buf) s with
        | (Ok [], s) =>
            Some (Err (DBus (ConnectionError "connection closed unexpectedly")), s)
        | (Ok l, s) => read_exact_loop fuel len (buf ++ l) s
        | (Err e, s) =>
            if (e =? EINTR)%Z then read_exact_loop fuel len buf s
            else Some (Err (nix_err e), s)
        | (Panic, s) => Some (Panic, s)
        end
      else Some (Ok buf, s)
  end.

(** Every call of [recv] uses up an event or fills the buffer. *)
Definition read_exact (len : nat) : conn_io (list byte) := λ s,
  default (Panic, s) (read_exact_loop (2 + length (rx s)) len [] s).

Definition read_one_message : conn_io (list byte) :=
  fixed ← read_exact 16;
  body_len ← pure (slice fixed 4 8);
  header_array_len ← pure (slice fixed 12 16);
  let body_len := Z.to_nat (le_combine body_len) in
  let header_array_len := le_combine header_array_len in
  let aligned_header_len := Z.to_nat (Z.land (header_array_len + 7) (Z.lnot 7)) in
  rest ← read_exact (aligned_header_len + body_len);
  mret (fixed ++ rest).

(** ** The connection *)

Record DbusConnection : Type := MkConn {
  system : bool;
  conn_id : option string;
  msg_ctr : Z;
}.

(** Operations that count messages also change the connection. *)
Abbreviation client_io := (io (DbusConnection * sock) SystemdClientError).

Definition on_sock {A} (m : conn_io A) : client_io A := λ '(c, s),
  let '(r, s) := m s in (r, (c, s)).

(** The counter is an [AtomicU32], which wraps.  So does the addition of one to the value it
    had, in a release build; a debug build panics instead at the last number. *)
Definition get_msg_id : client_io Z := λ '(c, s),
  (Ok (uwrap 32 (msg_ctr c + 1)),
   (MkConn (system c) (conn_id c) (uwrap 32 (msg_ctr c + 1)), s)).

(** The loop of [send_message]; [None] when the fuel runs out. *)
Fixpoint reply_loop (fuel : nat) (mt : MessageType) (ret : list Message) (s : sock) :
    option (Result (list Message) * sock) :=
  match fuel with
  | O => None
  | S fuel =>
      match read_one_message s with
      | (Ok msg_bytes, s) =>
          match message_deserialize msg_bytes 0 with
          | Ok (msg, _) =>
              let ret := ret ++ [msg] in
              if bool_decide (mt ≠ MethodCall) then Some (Ok ret, s)
              else
                let is_final := bool_decide (mtype (preamble msg) = MethodReturn)
                                || bool_decide (mtype (preamble msg) = MError) in
                if is_final then Some (Ok ret, s) else reply_loop fuel mt ret s
          | Err e => Some (Err e, s)
          | Panic => Some (Panic, s)
          end
      | (Err e, s) => Some (Err e, s)
      | (Panic, s) => Some (Panic, s)
      end
  end.

(** The number of bytes that can still arrive: each message takes some. *)
Definition rx_bytes (l : list rx_event) : nat :=
  sum_list_with (λ e, match e with RxData d => length d | _ => 0%nat end) l.

Definition read_replies (mt : MessageType) : conn_io (list Message) := λ s,
  default (Panic, s) (reply_loop (S (rx_bytes (rx s))) mt [] s).

Definition send_message (mt : MessageType) (headers : list Header) (body : list byte) :
    client_io (list Message) := λ '(c, s),
  let headers := match conn_id c with
                 | Some id => headers ++ [MkHeader KSender (HString id)]
                 | None => headers
                 end in
  (ser ← get_msg_id;
   on_sock (io_map_err nix_err (send (message_serialize (message_new mt ser headers body))));;
   on_sock (read_replies mt)) (c, s).

(** *** Setting up a connection *)

Definition uid_to_hex_str (uid : N) : string :=
  String.string_of_list_ascii (chars (pretty uid) ≫= λ c, hex_byte (nat_of_ascii c)).

Section address.
(** The files and the environment of the process. *)
Context (path_exists : string → bool) (env_var : string → option string).

Fixpoint first_bus_path (addrs : list string) : option string :=
  match addrs with
  | [] => None
  | addr :: addrs =>
      match strip_prefix "unix:path=" addr with
      | Some s => if path_exists s then Some s else first_bus_path addrs
      | None =>
          match strip_prefix "unix:abstract=" addr with
          | Some s => Some s
          | None => first_bus_path addrs
          end
      end
  end.

Definition parse_dbus_address (env_value : string) : Result string :=
  ok_or (first_bus_path (split_on ";"%char env_value))
    (DBus (BusAddressError ("no valid bus path found in list " +:+ env_value))).

Definition get_session_bus_address : Result string :=
  match env_var "DBUS_SESSION_BUS_ADDRESS" with
  | Some s => parse_dbus_address s
  | None =>
      match env_var "XDG_RUNTIME_DIR" with
      | Some s =>
          let s := s +:+ "/bus" in
          if negb (path_exists s) then
            Err (DBus (BusAddressError ("session bus address " +:+ s +:+ " does not exist")))
          else Ok s
      | None =>
          Err (DBus (BusAddressError "could not find dbus session bus address from env"))
      end
  end.

Definition get_system_bus_address : Result string :=
  match env_var "DBUS_SYSTEM_BUS_ADDRESS" with
  | Some s => parse_dbus_address s
  | None => Ok "/var/run/dbus/system_bus_socket"
  end.
End address.

Definition is_zero (b : byte) : bool := (byte.unsigned b =? 0)%Z.

Definition auth (uid : N) : client_io () :=
  on_sock (io_map_err nix_err (send [Byte.x00]));;
  let msg := "AUTH EXTERNAL " +:+ uid_to_hex_str uid +:+
             String.string_of_list_ascii ["013"%char; "010"%char] in
  on_sock (io_map_err nix_err (send (as_bytes msg)));;
  buf ← on_sock (io_map_err nix_err (recv 64));
  let reply := of_bytes (List.filter (λ b, negb (is_zero b)) buf) in
  if negb (starts_with "OK" reply) then
    pure (Err (DBus (AuthenticationErr ("Authentication failed, got message : " +:+ reply))))
  else
    on_sock (io_map_err nix_err
      (send (as_bytes ("BEGIN" +:+ String.string_of_list_ascii ["013"%char; "010"%char])))).

Definition hello_headers : list Header := [
  MkHeader KPath (HString "/org/freedesktop/DBus");
  MkHeader KDestination (HString "org.freedesktop.DBus");
  MkHeader KInterface (HString "org.freedesktop.DBus");
  MkHeader KMember (HString "Hello") ].

Definition set_id (id : string) : client_io () := λ '(c, s),
  (Ok (), (MkConn (system c) (Some id) (msg_ctr c), s)).

Definition hello : client_io () :=
  res ← send_message MethodCall hello_headers [];
  res ← pure (ok_or
    (head (List.filter (λ m, bool_decide (mtype (preamble m) = MethodReturn)) res))
    (DBus (AuthenticationErr
      "expected Hello call to have reply, found no reply message")));
  '(id, _) ← pure (deserialize string (mbody res) 0);
  set_id id.

(** [connect] opens the socket; it is the operating system's. *)
Section connect.
Context (os_connect : string → Result sock).

Definition connect (addr : string) (system : bool) : Result (DbusConnection * sock) :=
  s ← os_connect addr;
  Ok ({| system := system; conn_id := None; msg_ctr := 0 |}, s).

Definition run_setup (m : client_io ()) (w : DbusConnection * sock) :
    Result (DbusConnection * sock) :=
  match m w with (Ok _, w) => Ok w | (Err e, _) => Err e | (Panic, _) => Panic end.

Definition conn_new (addr : string) (uid : N) (system : bool) :
    Result (DbusConnection * sock) :=
  w ← connect addr system;
  w ← run_setup (auth uid) w;
  run_setup hello w.

Definition new_direct (addr : string) (system : bool) : Result (DbusConnection * sock) :=
  w ← connect addr system;
  run_setup (auth 0) w.

Definition SYSTEMD_PRIVATE_SOCKET : string := "/run/systemd/private".

Definition new_system (path_exists : string → bool) (env_var : string → option string)
    (is_root : bool) : Result (DbusConnection * sock) :=
  match (addr ← get_system_bus_address path_exists env_var; conn_new addr 0 true) with
  | Ok conn => Ok conn
  | Panic => Panic
  | Err _ =>
      if is_root && path_exists SYSTEMD_PRIVATE_SOCKET
      then new_direct SYSTEMD_PRIVATE_SOCKET true
      else Err (DBus (BusAddressError
        "could not connect to system bus or systemd private socket"))
  end.
End connect.

(** *** Typed method calls ([proxy.rs]) *)

Definition check_signature_compatibility (actual expected : string) : bool :=
  bool_decide (actual = expected)
  || (bool_decide (expected = "s")
      && (bool_decide (actual = "s") || bool_decide (actual = "o"))).

Record Proxy : Type := MkProxy { dest : string; path : string }.

Definition create_proxy : Proxy :=
  {| dest := "org.freedesktop.systemd1"; path := "/org/freedesktop/systemd1" |}.

(** What [method_call] makes of the messages it got. *)
Definition process_replies (Output : Type) `{DbusSerialize Output}
    (reply_messages : list Message) : Result Output :=
  match List.filter (λ m, bool_decide (mtype (preamble m) = MError)) reply_messages with
  | msg :: _ =>
      if (length (mbody msg) =? 0)%nat then
        Err (DBus (MethodCallErr "Unknown Dbus Error"))
      else
        '(text, _) ← deserialize string (mbody msg) 0;
        Err (DBus (MethodCallErr text))
  | [] =>
      reply ← ok_or
        (head (List.filter (λ m, bool_decide (mtype (preamble m) = MethodReturn)) reply_messages))
        (DBus (MethodCallErr "expected to get a reply for method call"));
      let expected_signature := get_signature Output in
      let signature_header :=
        List.filter (λ h, bool_decide (kind h = KBodySignature)) (headers reply) in
      if (length signature_header =? 0)%nat && negb (length (mbody reply) =? 0)%nat then
        Err (DBus (MethodCallErr "Body non empty, but body signature header missing"))
      else if bool_decide (expected_signature = "") then
        '(x, _) ← deserialize Output [] 0; Ok x
      else
        h ← index signature_header 0;
        match value h with
        | HU32 _ => Panic
        | HString actual_signature =>
            if negb (check_signature_compatibility actual_signature expected_signature) then
              deser_err ("reply signature mismatch : expected " +:+ expected_signature
                         +:+ ", found " +:+ actual_signature)
            else '(x, _) ← deserialize Output (mbody reply) 0; Ok x
        end
  end.

Definition method_headers (p : Proxy) (interface member : string) : list Header := [
  MkHeader KPath (HString (path p));
  MkHeader KDestination (HString (dest p));
  MkHeader KInterface (HString interface);
  MkHeader KMember (HString member) ].

Definition method_call {Body : Type} (Output : Type) `{DbusSerialize Body}
    `{DbusSerialize Output} (p : Proxy) (interface member : string) (body : option Body) :
    client_io Output :=
  let headers := method_headers p interface member in
  let '(headers, serialized_body) :=
    match body with
    | Some v => (headers ++ [MkHeader KBodySignature (HString (get_signature Body))],
                 serialize v [])
    | None => (headers, [])
    end in
  reply_messages ← send_message MethodCall headers serialized_body;
  pure (process_replies Output reply_messages).

Definition get_unit (p : Proxy) (name : string) : client_io string :=
  method_call string p "org.freedesktop.systemd1.Manager" "GetUnit" (Some name).

Definition proxy_start_transient_unit (p : Proxy) (name mode : string)
    (properties : list (Structure Variant))
    (aux : list (Structure (list (Structure Variant)))) : client_io string :=
  method_call (H:=tuple4_dbus) string p "org.freedesktop.systemd1.Manager"
    "StartTransientUnit" (Some (StrRef name, StrRef mode, properties, aux)).

Definition stop_unit (p : Proxy) (name mode : string) : client_io string :=
  method_call string p "org.freedesktop.systemd1.Manager" "StopUnit"
    (Some (StrRef name, StrRef mode)).

Definition proxy_set_unit_properties (p : Proxy) (name : string) (runtime : bool)
    (properties : list (Structure Variant)) : client_io () :=
  method_call (H:=tuple3_dbus) () p "org.freedesktop.systemd1.Manager"
    "SetUnitProperties" (Some (StrRef name, runtime, properties)).

(** A property that must be a string: any other variant panics. *)
Definition string_variant (v : Variant) : Result string :=
  match v with VString s => Ok s | _ => Panic end.

Definition proxy_version (p : Proxy) : client_io string :=
  t ← method_call Variant p "org.freedesktop.DBus.Properties" "Get"
    (Some (StrRef "org.freedesktop.systemd1.Manager", StrRef "Version"));
  pure (string_variant t).

Definition control_group (p : Proxy) : client_io string :=
  t ← method_call Variant p "org.freedesktop.DBus.Properties" "Get"
    (Some ("org.freedesktop.systemd1.Manager", "ControlGroup"));
  pure (string_variant t).

Definition attach_process (p : Proxy) (name cgroup : string) (pid : Z) : client_io () :=
  method_call (H:=tuple3_dbus) () p "org.freedesktop.systemd1.Manager"
    "AttachProcessesToUnit" (Some (StrRef name, StrRef cgroup, [UInt pid : u32])).

(** *** The systemd client ([impl SystemdClient for DbusConnection]) *)

Definition transient_properties (container_name parent unit_name : string) (pid : Z) :
    list (string * Variant) :=
  [("Description", VString ("youki container " +:+ container_name))]
  ++ (if ends_with "slice" unit_name then [("Wants", VString parent)]
      else [("Slice", VString parent); ("Delegate", VBool true)])
  ++ [("MemoryAccounting", VBool true);
      ("CPUAccounting", VBool true);
      ("IOAccounting", VBool true);
      ("TasksAccounting", VBool true);
      ("DefaultDependencies", VBool false);
      ("PIDs", VArrayU32 [UInt pid])].

Definition transient_unit_exists (unit_name : string) : io (DbusConnection * sock) Empty_set bool :=
  λ w, let '(r, w) := get_unit create_proxy unit_name w in
       (match r with Ok _ => Ok true | Err _ => Ok false | Panic => Panic end, w).

Definition start_transient_unit (container_name : string) (pid : Z)
    (parent unit_name : string) : client_io () :=
  let props := map (λ '(k, v), MkStructure k v)
    (transient_properties container_name parent unit_name pid) in
  _ ← io_map_err (λ err, FailedTransient err unit_name parent)
    (proxy_start_transient_unit create_proxy unit_name "replace" props []);
  mret ().

Definition stop_transient_unit (unit_name : string) : client_io () :=
  _ ← io_map_err (λ err, FailedStop err unit_name)
    (stop_unit create_proxy unit_name "replace");
  mret ().

(** [u8::try_from] of each mask value, least significant byte first. *)
Definition mask_bytes (k : string) (mask : list u64) : Result (list u8) :=
  mapM (λ b : u64, if decide (in_u 8 (uval b)) then Ok (UInt (uval b))
                   else Err (DBus (IncorrectMessage (k +:+ " contains a non-byte mask value"))))
    (rev mask).

Definition wire_property (kv : string * Variant) : Result (Structure Variant) :=
  let '(k, v) := kv in
  value ← match v with
          | VArrayU64 mask =>
              if bool_decide (k = "AllowedCPUs") || bool_decide (k = "AllowedMemoryNodes")
              then bytes ← mask_bytes k mask; Ok (VArrayU8 bytes)
              else Ok v
          | _ => Ok v
          end;
  Ok (MkStructure k value).

Definition DEVICE_ALLOW : string := "DeviceAllow".

(** The properties as they are sent.  [properties] is the hash map in its
    iteration order. *)
Definition wire_properties (properties : list (string * Variant)) :
    Result (list (Structure Variant)) :=
  props ← mapM wire_property properties;
  Ok (if bool_decide (DEVICE_ALLOW ∈ properties.*1)
      then MkStructure DEVICE_ALLOW (VArrayStructSS []) :: props else props).

Definition set_unit_properties (unit_name : string) (properties : list (string * Variant)) :
    client_io () :=
  props ← pure (wire_properties properties);
  _ ← io_map_err (λ err, FailedProperties err unit_name)
    (proxy_set_unit_properties create_proxy unit_name true props);
  mret ().

Definition control_cgroup_root : client_io string := control_group create_proxy.

Definition add_process_to_unit (unit_name subcgroup : string) (pid : Z) : client_io () :=
  attach_process create_proxy unit_name subcgroup pid.

(** ** Reading from a stream cut into chunks *)

(** What a peer that is alive delivers: non-empty chunks and interruptions. *)
Definition live (e : rx_event) : Prop :=
  match e with RxData l => l ≠ [] | RxErr e => e = EINTR | RxEof => False end.

(** The bytes of a sequence of events. *)
Definition stream (evs : list rx_event) : list byte :=
  evs ≫= λ e, match e with RxData l => l | _ => [] end.

Lemma stream_cons e evs :
  stream (e :: evs) = match e with RxData l => l | _ => [] end ++ stream evs.
Proof. done. Qed.

Lemma read_exact_loop_spec evs tail n buf txs errs fuel :
  Forall live evs → (length buf ≤ n)%nat →
  (n - length buf ≤ length (stream evs))%nat → (1 + length evs < fuel)%nat →
  ∃ evs', Forall live evs' ∧ (length evs' ≤ length evs)%nat ∧
    stream evs' = drop (n - length buf) (stream evs) ∧
    read_exact_loop fuel n buf (MkSock (evs ++ tail) txs errs) =
      Some (Ok (buf ++ take (n - length buf) (stream evs)), MkSock (evs' ++ tail) txs errs).
Proof.
  intros Hlive. revert buf fuel.
  induction Hlive as [|e evs He Hlive IH]; intros buf fuel Hbuf Hlen Hfuel;
    (destruct fuel as [|fuel]; [lia|]); cbn [read_exact_loop].
  { cbn in Hlen. destruct (Nat.ltb_spec (length buf) n); [lia|].
    exists []. replace (n - length buf)%nat with 0%nat by lia.
    rewrite take_0, app_nil_r. auto. }
  destruct (Nat.ltb_spec (length buf) n) as [Hlt|Hge].
  2:{ exists (e :: evs). replace (n - length buf)%nat with 0%nat by lia.
      rewrite take_0, drop_0, app_nil_r. auto using Forall_cons. }
  unfold recv. cbn [rx app tx tx_errs]. destruct e as [l|er|]; [| |done].
  - rewrite stream_cons in *. cbn in He. rewrite length_app in Hlen.
    destruct (Nat.leb_spec (length l) (n - length buf)) as [Hle|Hgt].
    + rewrite (take_ge l) by lia. destruct l as [|x l]; [done|].
      destruct (IH (buf ++ x :: l) fuel) as (evs' & Hl' & Hn' & Hs' & Hr');
        [rewrite length_app; lia..|cbn in *; lia|].
      rewrite Hr'. exists evs'. rewrite length_app in *.
      rewrite take_app_ge, drop_app_ge by lia. rewrite Nat.sub_add_distr in Hs'.
      rewrite Hs', Nat.sub_add_distr, <- app_assoc. cbn [length]. auto with lia.
    + exists (RxData (drop (n - length buf) l) :: evs).
      assert (length (take (n - length buf) l) = n - length buf)%nat as Htl
        by (rewrite length_take; lia).
      destruct (take (n - length buf) l) as [|x l'] eqn:Htake; [cbn in Htl; lia|].
      destruct fuel as [|fuel]; [cbn in Hfuel; lia|]. cbn [read_exact_loop].
      rewrite length_app, Htl. destruct (Nat.ltb_spec (length buf + (n - length buf)) n); [lia|].
      rewrite take_app_le, drop_app_le, Htake, stream_cons by lia. split; [|auto].
      constructor; [|done]. cbn. intros Hd%(f_equal length). rewrite length_drop in Hd.
      cbn in Hd. lia.
  - cbn in He. subst er. rewrite Z.eqb_refl. rewrite stream_cons in *. cbn [app] in *.
    destruct (IH buf fuel) as (evs' & Hl' & Hn' & Hs' & Hr'); [done..|cbn in *; lia|].
    exists evs'. rewrite Hr'. cbn [length]. auto.
Qed.

(** [read_exact] returns exactly the next bytes of a live stream, however it is
    cut into chunks and interrupted. *)
Lemma read_exact_spec evs tail n txs errs :
  Forall live evs → (n ≤ length (stream evs))%nat →
  ∃ evs', Forall live evs' ∧ stream evs' = drop n (stream evs) ∧
    read_exact n (MkSock (evs ++ tail) txs errs) =
      (Ok (take n (stream evs)), MkSock (evs' ++ tail) txs errs).
Proof.
  intros Hlive Hn. unfold read_exact. cbn [rx].
  destruct (read_exact_loop_spec evs tail n [] txs errs (2 + length (evs ++ tail)))
    as (evs' & Hl' & _ & Hs' & Hr'); [done|cbn; lia..|rewrite length_app; lia|].
  rewrite Hr'. cbn [length] in *. rewrite Nat.sub_0_r in *. eauto.
Qed.

(** Rounding a length up to a multiple of 8 is adding the padding. *)
Lemma aligned_len (n : nat) :
  Z.to_nat (Z.land (Z.of_nat n + 7) (Z.lnot 7)) = (n + length (pad (16 + n) 8))%nat.
Proof.
  rewrite <- Z.ldiff_land. change 7%Z with (Z.ones 3) at 2. rewrite Z.ldiff_ones_r by lia.
  rewrite Z.shiftl_mul_pow2, Z.shiftr_div_pow2 by lia. change (2 ^ 3)%Z with 8%Z.
  unfold pad. rewrite length_replicate.
  replace ((16 + n) mod 8)%nat with (n mod 8)%nat
    by (rewrite (Nat.Div0.add_mod 16 n 8); change (16 mod 8)%nat with 0%nat;
        by rewrite Nat.add_0_l, Nat.Div0.mod_mod).
  pose proof (Nat.div_mod_eq n 8). pose proof (Nat.mod_upper_bound n 8 ltac:(lia)).
  set (q := (n / 8)%nat) in *. set (r := (n mod 8)%nat) in *. clearbody q r. subst n.
  destruct (decide (r = 0)%nat) as [->|Hr].
  - rewrite <- (Z.div_unique (Z.of_nat (8 * q + 0) + 7) 8 (Z.of_nat q) 7) by lia.
    change ((8 - 0) mod 8)%nat with 0%nat. lia.
  - rewrite <- (Z.div_unique (Z.of_nat (8 * q + r) + 7) 8 (Z.of_nat q + 1) (Z.of_nat r - 1))
      by lia. rewrite Nat.mod_small by lia. lia.
Qed.

(** A message is framed by its own lengths. *)
Lemma read_one_message_spec m evs tail txs errs rest :
  message_wf m → Forall live evs → stream evs = message_serialize m ++ rest →
  ∃ evs', Forall live evs' ∧ stream evs' = rest ∧
    read_one_message (MkSock (evs ++ tail) txs errs) =
      (Ok (message_serialize m), MkSock (evs' ++ tail) txs errs).
Proof.
  intros (He & Hv & Hser & Hhs & Hhl & Hbl) Hlive Hs.
  pose proof (message_serialize_parts m He Hv) as Hparts. cbv zeta in Hparts.
  set (h := serialize_headers (headers m)) in *.
  set (bl := le_split 4 (uwrap 32 (Z.of_nat (length (mbody m))))) in *.
  set (hl := le_split 4 (uwrap 32 (Z.of_nat (length h)))) in *.
  set (pa := [_; _; _; _]) in Hparts. set (se := le_split 4 (serial m)) in *.
  set (fixed := pa ++ bl ++ se ++ hl).
  set (body := h ++ pad (16 + length h) 8 ++ mbody m).
  assert (message_serialize m = fixed ++ body) as Hm
    by (rewrite Hparts; unfold fixed, body; by rewrite <- !app_assoc).
  assert (length fixed = 16%nat) as Hf
    by (unfold fixed, bl, se, hl; by rewrite !length_app, !length_le_split).
  rewrite Hm, <- app_assoc in Hs.
  destruct (read_exact_spec evs tail 16 txs errs Hlive) as (evs1 & Hl1 & Hs1 & Hr1);
    [rewrite Hs, length_app; lia|].
  rewrite Hs, take_app_length' in Hr1 by done. rewrite Hs, drop_app_length' in Hs1 by done.
  destruct (read_exact_spec evs1 tail (length body) txs errs Hl1) as (evs2 & Hl2 & Hs2 & Hr2);
    [rewrite Hs1, length_app; lia|].
  rewrite Hs1, take_app_length in Hr2. rewrite Hs1, drop_app_length in Hs2.
  exists evs2. split; [done|]. split; [done|]. unfold read_one_message.
  rewrite (io_bind_run _ _ _ _ _ Hr1).
  rewrite (io_bind_run _ _ _ bl (MkSock (evs1 ++ tail) txs errs)).
  2:{ unfold pure, fixed. rewrite slice_middle; [done|done|]. unfold bl.
      by rewrite length_le_split. }
  rewrite (io_bind_run _ _ _ hl (MkSock (evs1 ++ tail) txs errs)).
  2:{ unfold pure, fixed. rewrite !app_assoc, <- (app_nil_r (_ ++ hl)), <- app_assoc.
      unfold bl, se, hl. rewrite slice_middle; [done|by rewrite !length_app, !length_le_split|].
      by rewrite length_le_split. }
  unfold bl, hl. rewrite !le_combine_split, !uwrap_small by (unfold in_u; lia).
  rewrite !Z.mod_small, Nat2Z.id, aligned_len by (simpl; lia).
  replace (length h + length (pad (16 + length h) 8) + length (mbody m))%nat
    with (length body) by (unfold body; rewrite !length_app; lia).
  rewrite (io_bind_run _ _ _ _ _ Hr2). by rewrite Hm.
Qed.

Lemma message_roundtrip0 m :
  message_wf m → message_deserialize (message_serialize m) 0 =
    Ok (received m, length (message_serialize m)).
Proof.
  intros Hm. pose proof (message_roundtrip m [] [] Hm eq_refl) as Hr.
  by rewrite app_nil_r in Hr.
Qed.

Lemma message_serialize_nonempty m : message_wf m → (1 ≤ length (message_serialize m))%nat.
Proof.
  intros (He & Hv & _). rewrite (message_serialize_parts m He Hv), length_app. cbn [length]. lia.
Qed.

Definition is_reply (m : Message) : bool :=
  bool_decide (mtype (preamble m) = MethodReturn) || bool_decide (mtype (preamble m) = MError).

Lemma reply_loop_spec others r evs tail txs errs rest ret fuel :
  Forall (λ m, message_wf m ∧ is_reply m = false) others →
  message_wf r → is_reply r = true → Forall live evs →
  stream evs = (others ≫= message_serialize) ++ message_serialize r ++ rest →
  (length others < fuel)%nat →
  ∃ evs', Forall live evs' ∧ stream evs' = rest ∧
    reply_loop fuel MethodCall ret (MkSock (evs ++ tail) txs errs) =
      Some (Ok (ret ++ (received <$> others ++ [r])), MkSock (evs' ++ tail) txs errs).
Proof.
  intros Hothers Hr Hfinal. revert evs ret fuel.
  induction Hothers as [|m others [Hm Hnf] Hothers IH]; intros evs ret fuel Hlive Hs Hf;
    (destruct fuel as [|fuel]; [lia|]); cbn [reply_loop].
  - destruct (read_one_message_spec r evs tail txs errs rest Hr Hlive Hs)
      as (evs' & Hl' & Hs' & Hread).
    rewrite Hread, message_roundtrip0 by done. rewrite bool_decide_false by tauto.
    fold (is_reply (received r)). change (is_reply (received r)) with (is_reply r). rewrite Hfinal. exists evs'. auto.
  - cbn in Hs. rewrite <- app_assoc in Hs.
    destruct (read_one_message_spec m evs tail txs errs _ Hm Hlive Hs)
      as (evs1 & Hl1 & Hs1 & Hread).
    rewrite Hread, message_roundtrip0 by done. rewrite bool_decide_false by tauto.
    fold (is_reply (received m)). change (is_reply (received m)) with (is_reply m). rewrite Hnf.
    destruct (IH evs1 (ret ++ [received m]) fuel) as (evs' & Hl' & Hs' & Hloop);
      [done|done|cbn in Hf; lia|].
    exists evs'. rewrite Hloop, <- app_assoc. auto.
Qed.

Lemma rx_bytes_app l1 l2 : rx_bytes (l1 ++ l2) = (rx_bytes l1 + rx_bytes l2)%nat.
Proof. unfold rx_bytes. apply sum_list_with_app. Qed.

Lemma rx_bytes_stream evs : rx_bytes evs = length (stream evs).
Proof.
  induction evs as [|e evs IH]; [done|]. rewrite stream_cons, length_app, <- IH.
  by destruct e.
Qed.

Lemma length_bind_messages ms :
  Forall message_wf ms → (length ms ≤ length (ms ≫= message_serialize))%nat.
Proof.
  induction 1 as [|m ms Hm Hms IH]; [done|]. rewrite bind_cons, length_app.
  pose proof (message_serialize_nonempty m Hm). cbn [length]. lia.
Qed.

(** The headers that go out: the caller's, and the sender when it is known. *)
Definition out_headers (c : DbusConnection) (hs : list Header) : list Header :=
  match conn_id c with
  | Some id => hs ++ [MkHeader KSender (HString id)]
  | None => hs
  end.

Definition next_conn (c : DbusConnection) : DbusConnection :=
  MkConn (system c) (conn_id c) (uwrap 32 (msg_ctr c + 1)).

(** C9: a method call gets its reply.  Whatever chunks the peer's bytes arrive
    in and however often the reads are interrupted, if the peer sends messages
    that are no replies (signals) and then a reply, [send_message] returns
    exactly these messages in order, but for their flags, which are not looked at,
    and consumes exactly their bytes; it sends one message, numbered with the next
    message id, and nothing else. *)
Theorem send_message_gets_reply c hs body others r evs tail txs rest :
  Forall (λ m, message_wf m ∧ is_reply m = false) others →
  message_wf r → is_reply r = true → Forall live evs →
  stream evs = (others ≫= message_serialize) ++ message_serialize r ++ rest →
  ∃ evs', Forall live evs' ∧ stream evs' = rest ∧
    send_message MethodCall hs body (c, MkSock (evs ++ tail) txs []) =
      (Ok (received <$> others ++ [r]),
       (next_conn c, MkSock (evs' ++ tail)
          (txs ++ [message_serialize
            (message_new MethodCall (uwrap 32 (msg_ctr c + 1)) (out_headers c hs) body)]) [])).
Proof.
  intros Hothers Hr Hfinal Hlive Hs.
  set (out := message_serialize _).
  destruct (reply_loop_spec others r evs tail (txs ++ [out]) [] rest []
    (S (rx_bytes (evs ++ tail)))) as (evs' & Hl' & Hs' & Hloop); [done..| |].
  { rewrite rx_bytes_app, rx_bytes_stream, Hs, !length_app.
    assert (length others ≤ length (others ≫= message_serialize))%nat; [|lia].
    apply length_bind_messages. eapply Forall_impl; [exact Hothers|by intros ? [? _]]. }
  exists evs'. split; [done|]. split; [done|].
  unfold send_message. fold (out_headers c hs).
  rewrite (io_bind_run _ _ _ (uwrap 32 (msg_ctr c + 1))
    (next_conn c, MkSock (evs ++ tail) txs [])) by done.
  rewrite (io_bind_run _ _ _ () (next_conn c, MkSock (evs ++ tail) (txs ++ [out]) [])) by done.
  unfold on_sock, read_replies. cbn [rx]. by rewrite Hloop.
Qed.

(** A signal with the flag that no reply is expected, as systemd sends it *)
Definition example_signal : Message :=
  MkMessage (MkPreamble Little Signal 1 1) 9 [MkHeader KMember (HString "JobNew")] (as_bytes "x").
Definition example_reply : Message :=
  message_new MethodReturn 10 [MkHeader KReplySerial (HU32 1)] [].
Definition example_conn : DbusConnection := MkConn true (Some ":1.7") 0.

(** The bytes of both messages, cut into chunks of one byte with interrupted
    calls between them. *)
Definition example_chunks : list rx_event :=
  (message_serialize example_signal ++ message_serialize example_reply) ≫=
    λ b, [RxErr EINTR; RxData [b]].

Lemma send_message_gets_reply_witness :
  ∃ evs', stream evs' = [] ∧
    send_message MethodCall hello_headers [] (example_conn, MkSock (example_chunks ++ []) [] []) =
      (Ok [received example_signal; example_reply],
       (next_conn example_conn, MkSock (evs' ++ [])
          ([] ++ [message_serialize (message_new MethodCall 1
            (out_headers example_conn hello_headers) [])]) [])).
Proof.
  destruct (send_message_gets_reply example_conn hello_headers [] [example_signal]
    example_reply example_chunks [] [] []) as (evs' & _ & Hs & Hrun).
  - repeat constructor; cbn; done || (unfold in_u; lia).
  - repeat split; cbn; try (unfold in_u; lia). repeat constructor; cbn; lia.
  - reflexivity.
  - vm_compute. repeat constructor; done.
  - vm_compute. reflexivity.
  - exists evs'. split; [exact Hs|exact Hrun].
Defined.

(** *** What goes out is what was asked for *)

Lemma recv_tx n s : tx (recv n s).2 = tx s.
Proof. unfold recv. repeat case_match; done. Qed.

Lemma read_exact_loop_tx fuel n buf s r s' :
  read_exact_loop fuel n buf s = Some (r, s') → tx s' = tx s.
Proof.
  revert buf s. induction fuel as [|fuel IH]; intros buf s; cbn [read_exact_loop]; [done|].
  case_match; [|by intros [= _ <-]].
  pose proof (recv_tx (n - length buf) s) as Htx.
  destruct (recv (n - length buf) s) as [[[|x l]|e|] s1]; cbn in Htx.
  - by intros [= _ <-].
  - intros ->%IH. done.
  - case_match; [intros ->%IH; done|by intros [= _ <-]].
  - by intros [= _ <-].
Qed.

Lemma read_exact_tx n s : tx (read_exact n s).2 = tx s.
Proof.
  unfold read_exact. destruct (read_exact_loop _ _ _ _) as [[r s']|] eqn:Hl; [|done].
  by apply read_exact_loop_tx in Hl.
Qed.

Lemma read_one_message_tx s : tx (read_one_message s).2 = tx s.
Proof.
  unfold read_one_message, mbind, io_bind, pure.
  pose proof (read_exact_tx 16 s) as H1. destruct (read_exact 16 s) as [[fx|e|] s1]; [|done..].
  cbn in H1. destruct (slice fx 4 8) as [bl|e|]; [|done..].
  destruct (slice fx 12 16) as [hl|e|]; [|done..].
  match goal with |- context [read_exact ?n s1] => pose proof (read_exact_tx n s1) as H2;
    destruct (read_exact n s1) as [[rs|e|] s2] end; cbn in *; congruence.
Qed.

Lemma read_replies_tx mt s : tx (read_replies mt s).2 = tx s.
Proof.
  unfold read_replies. generalize (S (rx_bytes (rx s))), (@nil Message).
  intros fuel. enough (∀ ret s0 r s', reply_loop fuel mt ret s0 = Some (r, s') → tx s' = tx s0)
    as Hl by (intros ret; destruct (reply_loop _ _ _ _) as [[r s']|] eqn:Hr;
              [by apply Hl in Hr|done]).
  induction fuel as [|fuel IH]; intros ret s0 r s'; cbn [reply_loop]; [done|].
  pose proof (read_one_message_tx s0) as H1.
  destruct (read_one_message s0) as [[bs|e|] s1]; cbn in H1; [|by intros [= _ <-]..].
  destruct (message_deserialize bs 0) as [[m c]|e|]; [|by intros [= _ <-]..].
  repeat case_match; try (by intros [= _ <-]). intros ->%IH. done.
Qed.

(** A method call sends one message, which carries its body. *)
Lemma method_call_tx {Body Output} `{DbusSerialize Body, DbusSerialize Output}
    p i m (v : Body) c s :
  tx_errs s = [] →
  tx (method_call Output p i m (Some v) (c, s)).2.2 =
    tx s ++ [message_serialize (message_new MethodCall (uwrap 32 (msg_ctr c + 1))
      (out_headers c (method_headers p i m
         ++ [MkHeader KBodySignature (HString (get_signature Body))])) (serialize v []))].
Proof.
  intros He. unfold method_call. set (hs := method_headers p i m ++ _).
  set (out := message_serialize _).
  pose proof (read_replies_tx MethodCall (MkSock (rx s) (tx s ++ [out]) [])) as Htx.
  destruct (read_replies MethodCall _) as [r s2] eqn:Hread. cbn in Htx.
  assert (send_message MethodCall hs (serialize v []) (c, s) = (r, (next_conn c, s2))) as Hsend.
  { unfold send_message. fold (out_headers c hs).
    rewrite (io_bind_run _ _ _ (uwrap 32 (msg_ctr c + 1)) (next_conn c, s)) by done.
    rewrite (io_bind_run _ _ _ () (next_conn c, MkSock (rx s) (tx s ++ [out]) [])).
    - unfold on_sock. by rewrite Hread.
    - unfold on_sock, io_map_err, send. by rewrite He. }
  unfold mbind, io_bind. rewrite Hsend. by destruct r.
Qed.

Lemma tuple3_serialize_eq (name : string) (b : bool) (ps : list (Structure Variant)) buf :
  serialize (DbusSerialize:=tuple3_dbus) (StrRef name, b, ps) buf =
    serialize (name, b, ps) buf.
Proof. done. Qed.

Definition unit_properties_message (c : DbusConnection) (unit_name : string)
    (props : list (Structure Variant)) : Message :=
  message_new MethodCall (uwrap 32 (msg_ctr c + 1))
    (out_headers c (method_headers create_proxy "org.freedesktop.systemd1.Manager"
      "SetUnitProperties" ++ [MkHeader KBodySignature (HString "sba(sv)")]))
    (serialize (unit_name, true, props) []).

(** Systemd receives the properties that were set.  When the socket takes
    the message, [set_unit_properties] sends exactly one message; a peer that
    decodes it gets the unit name, the runtime flag and the property list that
    [wire_properties] computes, and nothing is left over of the body. *)
Theorem set_unit_properties_on_wire c s unit_name ps props :
  wire_properties ps = Ok props → tx_errs s = [] →
  string_wf unit_name → from_option string_wf True (conn_id c) →
  Forall (λ p, string_wf (key p) ∧ variant_wf (val p)) props →
  (Z.of_nat (length (body props 0)) < 2 ^ 32)%Z →
  let m := unit_properties_message c unit_name props in
  (Z.of_nat (length (serialize_headers (headers m))) < 2 ^ 32)%Z →
  (Z.of_nat (length (mbody m)) < 2 ^ 32)%Z →
  tx (set_unit_properties unit_name ps (c, s)).2.2 = tx s ++ [message_serialize m] ∧
  message_deserialize (message_serialize m) 0 = Ok (m, length (message_serialize m)) ∧
  deserialize (string * bool * list (Structure Variant)) (mbody m) 0 =
    Ok ((unit_name, true, props), length (mbody m)).
Proof.
  intros Hps He Hun Hid Hprops Hsize m Hhl Hbl. split; [|split].
  - unfold set_unit_properties. rewrite (io_bind_run _ _ _ props (c, s))
      by (unfold pure; by rewrite Hps).
    unfold mbind, io_bind, io_map_err, proxy_set_unit_properties.
    pose proof (method_call_tx (H:=tuple3_dbus) (Output:=()) create_proxy
      "org.freedesktop.systemd1.Manager" "SetUnitProperties" (StrRef unit_name, true, props)
      c s He) as Htx.
    destruct (method_call _ _ _ _ _ _) as [[r|e|] [c2 s2]]; exact Htx.
  - apply (message_roundtrip0 m). split; [done|]. split; [done|]. split; [by apply uwrap_range|].
    split; [|done]. unfold m. cbn [unit_properties_message message_new headers].
    unfold out_headers. destruct (conn_id c) as [id|]; cbn in Hid;
      repeat first [apply Forall_nil_2 | apply Forall_cons; split];
      first [exact Hid | split; vm_compute; done | split; [vm_compute; done|cbn; lia]].
  - pose proof (dbus_roundtrip (unit_name, true, props) [] []) as Hr.
    cbn [length app Nat.add] in Hr. rewrite app_nil_r in Hr.
    assert (mbody m = dbus_enc (unit_name, true, props) 0) as ->
      by exact (dbus_serialize (unit_name, true, props) []).
    apply Hr. repeat split; done || apply Hun || (by split).
Qed.

Definition example_unit_properties : list (string * Variant) := [
  ("AllowedCPUs", VArrayU64 [UInt 1; UInt 128]);
  ("DeviceAllow", VArrayStructSS [MkStructure "char-pts" "rwm"]);
  ("TasksMax", VU64 (UInt 1000)) ].

Definition example_wire_properties : list (Structure Variant) := [
  MkStructure "DeviceAllow" (VArrayStructSS []);
  MkStructure "AllowedCPUs" (VArrayU8 [UInt 128; UInt 1]);
  MkStructure "DeviceAllow" (VArrayStructSS [MkStructure "char-pts" "rwm"]);
  MkStructure "TasksMax" (VU64 (UInt 1000)) ].

Definition example_sender : DbusConnection := MkConn false (Some ":1.42") 6.

Lemma set_unit_properties_on_wire_witness :
  tx (set_unit_properties "youki-c.scope" example_unit_properties
        (example_sender, MkSock [] [] [])).2.2 =
    [message_serialize
       (unit_properties_message example_sender "youki-c.scope" example_wire_properties)].
Proof.
  refine (proj1 (set_unit_properties_on_wire example_sender (MkSock [] [] []) "youki-c.scope"
           example_unit_properties example_wire_properties _ _ _ _ _ _ _ _)).
  - reflexivity.
  - reflexivity.
  - split; vm_compute; done.
  - split; vm_compute; done.
  - repeat (apply Forall_cons; split; [split; [split; vm_compute; done|]|]); [..|constructor];
      cbn; repeat split; try done.
    all: repeat (apply Forall_cons; split); try apply Forall_nil_2; try done.
    all: split; vm_compute; done.
  - vm_compute. reflexivity.
  - vm_compute. reflexivity.
  - vm_compute. reflexivity.
Defined.

(** The number that a mask stands for: the most significant byte comes first
    in the properties, the least significant byte on the wire. *)
Definition mask_value (mask : list u64) : Z :=
  foldl (λ acc b, acc * 256 + uval b)%Z 0%Z mask.

Definition wire_value (bytes : list u8) : Z :=
  foldr (λ b acc, b + 256 * acc)%Z 0%Z (map uval bytes).

Lemma mask_bytes_value k mask bytes :
  mask_bytes k mask = Ok bytes →
  Forall (λ b, in_u 8 (uval b)) bytes ∧ wire_value bytes = mask_value mask.
Proof.
  intros Hb. unfold mask_bytes in Hb.
  assert (Forall (λ b, in_u 8 (uval b)) bytes ∧ map uval bytes = map uval (rev mask))
    as [Hf Heq].
  { revert bytes Hb. induction (rev mask) as [|b l IH]; intros bytes Hb; cbn in Hb.
    { injection Hb as <-. by split. }
    destruct (decide _) as [Hin|]; cbn in Hb; [|done].
    destruct (mapM _ l) as [bs| |] eqn:Hl; cbn in Hb; try done. injection Hb as <-.
    destruct (IH bs eq_refl) as [? Hbs]. cbn. rewrite Hbs. by split; [constructor|]. }
  split; [done|]. unfold wire_value, mask_value. rewrite Heq. clear.
  induction mask as [|b l IH] using rev_ind; [done|].
  rewrite rev_app_distr, foldl_snoc. cbn in *. lia.
Qed.

(** What is sent for a property: a mask in little-endian bytes for the two mask
    properties, the value itself for the others. *)
Definition sent_for (kv : string * Variant) (p : Structure Variant) : Prop :=
  key p = kv.1 ∧
  match kv.2 with
  | VArrayU64 mask =>
      if bool_decide (kv.1 = "AllowedCPUs") || bool_decide (kv.1 = "AllowedMemoryNodes")
      then ∃ bytes, val p = VArrayU8 bytes ∧ Forall (λ b, in_u 8 (uval b)) bytes
                    ∧ wire_value bytes = mask_value mask
      else val p = kv.2
  | v => val p = v
  end.

Lemma wire_property_sent kv p : wire_property kv = Ok p → sent_for kv p.
Proof.
  destruct kv as [k v]. unfold wire_property, sent_for. cbn [fst snd].
  destruct v; cbn; intros Hp; try (injection Hp as <-; done).
  destruct (_ || _); [|injection Hp as <-; done].
  destruct (mask_bytes k _) as [bytes| |] eqn:Hb; cbn in Hp; try done.
  injection Hp as <-. apply mask_bytes_value in Hb as [??]. split; [done|]. eauto.
Qed.

(** What [wire_properties] sends.  The properties go out one for one and in
    order; the cpuset masks denote the same set of cpus or nodes; and when
    device rules are set, an empty [DeviceAllow] comes before every other
    property, so that systemd drops the rules of an earlier call instead of
    adding to them. *)
Theorem wire_properties_sent ps props :
  wire_properties ps = Ok props →
  ∃ sent, Forall2 sent_for ps sent ∧
    if bool_decide (DEVICE_ALLOW ∈ ps.*1)
    then props = MkStructure DEVICE_ALLOW (VArrayStructSS []) :: sent else props = sent.
Proof.
  unfold wire_properties. intros Hps. apply bind_Ok in Hps as (sent & Hs & Hps).
  injection Hps as <-. exists sent. split; [|by destruct (bool_decide _)].
  revert sent Hs. induction ps as [|kv ps IH]; intros sent Hs; cbn in Hs.
  { injection Hs as <-. constructor. }
  apply bind_Ok in Hs as (p & Hp & Hs). apply bind_Ok in Hs as (l & Hl & Hs).
  injection Hs as <-. constructor; [by apply wire_property_sent|by apply IH].
Qed.

Lemma wire_properties_sent_witness :
  ∃ sent, Forall2 sent_for example_unit_properties sent ∧
    example_wire_properties = MkStructure DEVICE_ALLOW (VArrayStructSS []) :: sent.
Proof.
  exact (wire_properties_sent example_unit_properties example_wire_properties eq_refl).
Defined.

(** A reply to a method call that carries neither a body nor a signature. *)
Definition empty_reply (ser : Z) : Message :=
  message_new MethodReturn ser [MkHeader KReplySerial (HU32 ser)] [].

(** A method that is expected to return something panics on an empty
    reply.  An empty [MethodReturn] has no signature header, the check for a
    missing header only fires on a non-empty body, and the header list is then
    indexed at 0: [method_call] panics instead of returning an error. *)
Theorem empty_reply_panics (Output : Type) `{DbusSerialize Output} ser :
  get_signature Output ≠ "" →
  process_replies Output [empty_reply ser] = Panic.
Proof.
  intros Hsig. unfold process_replies. cbn. rewrite (bool_decide_eq_false_2 _ Hsig). done.
Qed.

Lemma empty_reply_panics_witness : process_replies string [empty_reply 3] = Panic.
Proof. apply empty_reply_panics. done. Defined.
