(* ===== verification/CgroupFs.v ===== *)
(** * CgroupFs: the cgroup file system and the operations of [common.rs]

    The world of the cgroup code is a file system.  [dirs] and [files] are what
    exists and what a read returns; [journal] lists the operations that changed
    something, in order; [refuse] is the environment: at every point in time it
    may make an operation fail with an error number, so the theorems hold for
    any pattern of failures; [kernel] says what the files hold after a write,
    which for a cgroup file is up to the kernel.  A new directory of a cgroup file system comes with
    the interface files that [iface] lists. *)
From S2P Require Import Prelude Text Paths.
Local Open Scope string_scope.
Local Open Scope list_scope.

(** ** The file system *)

Inductive fs_op : Type :=
  | OpOpen (p : Path)
  | OpWrite (p : Path) (data : string)
  | OpRead (p : Path)
  | OpStat (p : Path)
  | OpMkdir (p : Path)
  | OpRmdir (p : Path)
  | OpKill (pid : Z)
  | OpSleep (ms : Z).

#[global] Instance fs_op_eq_dec : EqDecision fs_op.
Proof. solve_decision. Defined.

Record fs : Type := MkFs {
  dirs : gset Path;
  files : gmap Path string;
  journal : list fs_op;
  clock : nat;
  refuse : nat → fs_op → option Z;
  kernel : nat → Path → string → gmap Path string → gmap Path string;
  iface : list string }.

(** [std::io::Error]: an error number, or a kind without one. *)
Inductive IoError : Type :=
  | OsError (errno : Z)
  | TimedOut
  | InvalidData
  | UnexpectedEof.

#[global] Instance IoError_eq_dec : EqDecision IoError.
Proof. solve_decision. Defined.

Definition ENOENT : Z := 2.
Definition EACCES : Z := 13.
Definition EEXIST : Z := 17.
Definition EROFS : Z := 30.

Definition raw_os_error (e : IoError) : option Z :=
  match e with OsError n => Some n | _ => None end.

(** [kind() == ErrorKind::NotFound] and [kind() == ErrorKind::AlreadyExists] *)
Definition is_not_found (e : IoError) : bool := bool_decide (e = OsError ENOENT).
Definition is_already_exists (e : IoError) : bool := bool_decide (e = OsError EEXIST).

Definition tick (w : fs) : fs :=
  MkFs (dirs w) (files w) (journal w) (S (clock w)) (refuse w) (kernel w) (iface w).

Definition record (op : fs_op) (ds : gset Path) (fl : gmap Path string) (w : fs) : fs :=
  MkFs ds fl (journal w ++ [op]) (clock w) (refuse w) (kernel w) (iface w).

(** A step on the world, as a computation. *)
Definition act {A E} (f : fs → outcome E A * fs) : io fs E A := f.

(** [Path::exists] *)
Definition exists_ (p : Path) (w : fs) : bool :=
  bool_decide (p ∈ dirs w) || bool_decide (is_Some (files w !! p)).

(** [if path.exists() { .. } else { .. }] *)
Definition if_exists {E A} (p : Path) (m1 m2 : io fs E A) : io fs E A := λ w,
  if exists_ p w then m1 w else m2 w.

(** Ask the environment whether an operation may go on. *)
Definition attempt (op : fs_op) : io fs IoError () := λ w,
  match refuse w (clock w) op with
  | Some e => (Err (OsError e), tick w)
  | None => (Ok (), tick w)
  end.

(** [OpenOptions::new().create(false)...open] of a regular file *)
Definition os_open (p : Path) : io fs IoError () :=
  _ ← attempt (OpOpen p);
  act (λ w, (if bool_decide (is_Some (files w !! p)) then Ok () else Err (OsError ENOENT), w)).

(** [write_all] on an open cgroup file: one write, which the kernel takes or not. *)
Definition os_write (p : Path) (data : string) : io fs IoError () :=
  _ ← attempt (OpWrite p data);
  act (λ w, (Ok (), record (OpWrite p data) (dirs w)
    (kernel w (clock w) p data (files w)) w)).

(** [fs::read_to_string] *)
Definition os_read (p : Path) : io fs IoError string :=
  _ ← attempt (OpRead p);
  act (λ w, (match files w !! p with Some s => Ok s | None => Err (OsError ENOENT) end, w)).

(** [fs::metadata] *)
Definition os_metadata (p : Path) : io fs IoError () :=
  _ ← attempt (OpStat p);
  act (λ w, (if exists_ p w then Ok () else Err (OsError ENOENT), w)).

(** [fs::create_dir] *)
Definition os_create_dir (p : Path) : io fs IoError () :=
  _ ← attempt (OpMkdir p);
  act (λ w,
    if exists_ p w then (Err (OsError EEXIST), w)
    else (Ok (), record (OpMkdir p) ({[p]} ∪ dirs w)
      (foldr (λ n m, <[join p [Normal n] := ""]> m) (files w) (iface w)) w)).

(** [fs::remove_dir] *)
Definition os_remove_dir (p : Path) : io fs IoError () :=
  _ ← attempt (OpRmdir p);
  act (λ w,
    if bool_decide (p ∈ dirs w)
    then (Ok (), record (OpRmdir p) (dirs w ∖ {[p]}) (files w) w)
    else (Err (OsError ENOENT), w)).

Definition os_sleep (ms : Z) {E} : io fs E () := λ w, (Ok (), record (OpSleep ms) (dirs w) (files w) w).

(** [nix::sys::signal::kill], whose result the callers ignore *)
Definition os_kill (pid : Z) {E} : io fs E () := λ w, (Ok (), record (OpKill pid) (dirs w) (files w) w).

(** ** [common.rs] *)

Definition CGROUP_PROCS : string := "cgroup.procs".

Inductive WrappedIoError : Type :=
  | WOpen (err : IoError) (path : Path)
  | WWrite (err : IoError) (path : Path) (data : string)
  | WRead (err : IoError) (path : Path)
  | WCreateDir (err : IoError) (path : Path)
  | WOther (err : IoError) (path : Path).

Definition inner (e : WrappedIoError) : IoError :=
  match e with
  | WOpen err _ | WWrite err _ _ | WRead err _ | WCreateDir err _ | WOther err _ => err
  end.

Abbreviation wio A := (io fs WrappedIoError A).

(** A name joined to a directory. *)
Definition join_name_of (p : Path) (name : string) : Path := join p (components name).

Definition write_cgroup_file_str (path : Path) (data : string) : wio () :=
  _ ← io_map_err (λ err, WOpen err path) (os_open path);
  io_map_err (λ err, WWrite err path data) (os_write path data).

(** [write_cgroup_file], whose data is printed with [ToString] *)
Definition write_cgroup_file {T} `{Pretty T} (path : Path) (data : T) : wio () :=
  write_cgroup_file_str path (pretty data).

Fixpoint write_lines (path : Path) (ls : list string) : wio () :=
  match ls with
  | [] => mret ()
  | line :: ls =>
      _ ← io_map_err (λ err, WWrite err path line) (os_write path line);
      write_lines path ls
  end.

Definition write_by_line (path : Path) (data : string) : wio () :=
  write_lines path (split_inclusive LF data).

Definition write_cgroup_file_by_line (path : Path) (data : string) : wio () :=
  _ ← io_map_err (λ err, WOpen err path) (os_open path);
  write_by_line path data.

Definition read_cgroup_file (path : Path) : wio string :=
  io_map_err (λ err, WRead err path) (os_read path).

(** The delays of [delete_with_retry] are milliseconds of a [Duration]; [None]
    is no limit. *)
Fixpoint delete_loop (n : nat) (path : Path) (attempts delay : Z) (limit : option Z) :
    wio () :=
  match n with
  | O => pure (Err (WOther TimedOut path))
  | S n => λ w,
      match os_remove_dir path w with
      | (Ok _, w) => (Ok (), w)
      | (_, w) =>
          (_ ← os_sleep delay;
           let attempts := (attempts + 1)%Z in
           let delay := (delay * attempts)%Z in
           let delay := match limit with
                        | Some l => if (l <? delay)%Z then l else delay
                        | None => delay end in
           delete_loop n path attempts delay limit) w
      end
  end.

Definition delete_with_retry (path : Path) (retries : nat) (limit : option Z) : wio () :=
  delete_loop retries path 0 10 limit.

(** [fs::create_dir_all]: missing parents are made first; [n] bounds their number. *)
Definition make_dir (p : Path) : io fs IoError () := λ w,
  match os_create_dir p w with
  | (Err e, w) => (if bool_decide (p ∈ dirs w) then Ok () else Err e, w)
  | r => r
  end.

Fixpoint create_dir_all (n : nat) (p : Path) : io fs IoError () := λ w,
  match os_create_dir p w with
  | (Err e, w) =>
      if is_not_found e then
        match n, parent p with
        | S n, Some q => (create_dir_all n q ≫= λ _, make_dir p) w
        | _, _ => (Err e, w)
        end
      else (if bool_decide (p ∈ dirs w) then Ok () else Err e, w)
  | r => r
  end.

(** Kills the processes that the lines name; the result of [kill] is ignored. *)
Fixpoint kill_all (procs_path : Path) (ls : list string) : wio () :=
  match ls with
  | [] => mret ()
  | line :: ls =>
      pid ← pure (map_err (λ _, WOther InvalidData procs_path) (parse_signed 32 line));
      _ ← os_kill pid;
      kill_all procs_path ls
  end.

Inductive FreezerState : Type := Undefined | Frozen | Thawed.

#[global] Instance FreezerState_eq_dec : EqDecision FreezerState.
Proof. solve_decision. Defined.

(** ** Reasoning about writes

    [emits w plan m]: run in the world [w], the computation [m] never panics; if
    it succeeds it has made exactly the writes of [plan], in order; if it fails
    it has made some of the first of them.  Nothing else is changed.  This
    holds whatever the environment refuses. *)
Abbreviation write := (Path * string)%type.

Definition writes (plan : list write) : list fs_op := uncurry OpWrite <$> plan.

(** A kernel that neither makes nor removes files when one is written. *)
Definition stable (k : nat → Path → string → gmap Path string → gmap Path string) : Prop :=
  ∀ n p d m q, is_Some (k n p d m !! q) ↔ is_Some (m !! q).

(** A property of the files that writes do not change. *)
Definition kept (k : nat → Path → string → gmap Path string → gmap Path string)
    (I : gmap Path string → Prop) : Prop := ∀ n p d m, I m → I (k n p d m).

Definition wrote (plan : list write) (w w' : fs) : Prop :=
  journal w' = journal w ++ writes plan ∧ dirs w' = dirs w ∧
  refuse w' = refuse w ∧ kernel w' = kernel w ∧
  (∀ I, kept (kernel w) I → I (files w) → I (files w')).

Definition emits {E A} (w : fs) (plan : list write) (m : io fs E A) : Prop :=
  match m w with
  | (Ok _, w') => wrote plan w w'
  | (Err _, w') => ∃ k, wrote (take k plan) w w'
  | (Panic, _) => False
  end.

Lemma wrote_nil w : wrote [] w w.
Proof. split; [by rewrite app_nil_r|]. by repeat split. Qed.

Lemma wrote_trans p1 p2 w1 w2 w3 :
  wrote p1 w1 w2 → wrote p2 w2 w3 → wrote (p1 ++ p2) w1 w3.
Proof.
  intros (H1 & H2 & H3 & H4 & Hf) (H5 & H6 & H7 & H8 & Hg).
  split; [rewrite H5, H1; unfold writes; by rewrite fmap_app, app_assoc|].
  rewrite H6, H7, H8. do 3 (split; [done|]). intros I HI H0. apply Hg; [by rewrite H4|by apply Hf].
Qed.

Lemma wrote_files plan w w' q :
  wrote plan w w' → stable (kernel w) → is_Some (files w' !! q) ↔ is_Some (files w !! q).
Proof.
  intros (_ & _ & _ & _ & Hf) Hs. apply (Hf (λ m, is_Some (m !! q) ↔ is_Some (files w !! q))); [|done].
  intros n p d m Hm. etrans; [apply Hs|apply Hm].
Qed.

Lemma emits_bind {E A B} w p1 p2 (m : io fs E A) (f : A → io fs E B) :
  emits w p1 m → (∀ a w', m w = (Ok a, w') → emits w' p2 (f a)) →
  emits w (p1 ++ p2) (m ≫= f).
Proof.
  unfold emits, mbind, io_bind. intros Hm Hf.
  destruct (m w) as [[a|e|] w1]; [|destruct Hm as [k Hk]|done].
  - specialize (Hf a w1 eq_refl). destruct (f a w1) as [[b|e|] w2]; [by eapply wrote_trans| |done].
    destruct Hf as [k Hk]. exists (length p1 + k)%nat. rewrite take_app_add. by eapply wrote_trans.
  - exists (k `min` length p1)%nat. rewrite take_app_le by lia.
    by rewrite <- take_take, (take_ge p1 (length p1)) by done.
Qed.

Lemma emits_ret {E A} w (a : A) : emits (E:=E) w [] (mret a).
Proof. apply wrote_nil. Qed.

(** An error of the configuration is reported before anything is written. *)
Lemma emits_err {E A} w plan (e : E) : emits (A:=A) w plan (pure (Err e)).
Proof. exists 0%nat. apply wrote_nil. Qed.

Lemma emits_map_err {E F A} w plan (f : E → F) (m : io fs E A) :
  emits w plan m → emits w plan (io_map_err f m).
Proof. unfold emits, io_map_err. by destruct (m w) as [[a|e|] w1]. Qed.

Lemma emits_wrote_nil {E A} w (m : io fs E A) :
  wrote [] w (m w).2 → (m w).1 ≠ Panic → emits w [] m.
Proof.
  unfold emits. intros Hw Hp. destruct (m w) as [[a|e|] w1]; [done|by exists 0%nat|done].
Qed.

Lemma emits_open w p : emits w [] (os_open p).
Proof.
  apply emits_wrote_nil; unfold os_open, attempt, act, mbind, io_bind;
    destruct (refuse _ _ _); cbn; [exact (wrote_nil w)..|done|by case_bool_decide].
Qed.

Lemma emits_os_read w p : emits w [] (os_read p).
Proof.
  apply emits_wrote_nil; unfold os_read, attempt, act, mbind, io_bind;
    destruct (refuse _ _ _); cbn; [exact (wrote_nil w)..|done|by destruct (_ !! _)].
Qed.

Lemma emits_read w p : emits w [] (read_cgroup_file p).
Proof. apply emits_map_err, emits_os_read. Qed.

Lemma emits_write w p d : emits w [(p, d)] (os_write p d).
Proof.
  unfold emits, os_write, attempt, act, mbind, io_bind.
  destruct (refuse _ _ _); [exists 0%nat; exact (wrote_nil w)|].
  split; [done|]. split; [done|]. split; [done|]. split; [done|]. intros I HI Hw. by apply HI.
Qed.

Lemma emits_write_str w p d : emits w [(p, d)] (write_cgroup_file_str p d).
Proof.
  apply (emits_bind w [] [(p, d)]); [apply emits_map_err, emits_open|].
  intros _ w' _. apply emits_map_err, emits_write.
Qed.

(** An environment that refuses nothing, a stable kernel, and all the files of a
    plan in place: then the plan is carried out. *)
Definition ready (plan : list write) (w : fs) : Prop :=
  (∀ n op, refuse w n op = None) ∧ stable (kernel w) ∧
  Forall (λ pd : write, is_Some (files w !! pd.1)) plan.

(** [performs w plan m]: [m] emits [plan], and succeeds when everything is
    ready for it. *)
Definition performs {E A} (w : fs) (plan : list write) (m : io fs E A) : Prop :=
  emits w plan m ∧ (ready plan w → ∃ a w', m w = (Ok a, w')).

Lemma ready_app p1 p2 w : ready (p1 ++ p2) w ↔ ready p1 w ∧ ready p2 w.
Proof. unfold ready. rewrite Forall_app. tauto. Qed.

Lemma ready_wrote p plan w w' : wrote p w w' → ready plan w → ready plan w'.
Proof.
  intros Hw (H1 & H2 & H3). pose proof Hw as (_ & _ & Hr & Hk & _). unfold ready. rewrite Hr, Hk.
  split; [done|]. split; [done|]. eapply Forall_impl; [exact H3|].
  intros [q d]. by apply (wrote_files _ _ _ q Hw).
Qed.

Lemma performs_emits {E A} w plan (m : io fs E A) : performs w plan m → emits w plan m.
Proof. by intros [? _]. Qed.

Lemma emits_Ok {E A} w plan (m : io fs E A) a w' :
  emits w plan m → m w = (Ok a, w') → wrote plan w w'.
Proof. unfold emits. intros He Hm. by rewrite Hm in He. Qed.

Lemma performs_bind {E A B} w p1 p2 (m : io fs E A) (f : A → io fs E B) :
  performs w p1 m → (∀ a w', m w = (Ok a, w') → performs w' p2 (f a)) →
  performs w (p1 ++ p2) (m ≫= f).
Proof.
  intros [He Hc] Hf. split; [apply emits_bind; [done|]; intros; by apply Hf|].
  intros [H1 H2]%ready_app. destruct (Hc H1) as (a & w1 & Hm).
  destruct (Hf a w1 Hm) as [_ Hc2]. pose proof (emits_Ok _ _ _ _ _ He Hm) as Hw.
  destruct (Hc2 (ready_wrote _ _ _ _ Hw H2)) as (b & w2 & Hb).
  exists b, w2. by rewrite (io_bind_run _ _ _ _ _ Hm).
Qed.

Lemma performs_ret {E A} w (a : A) : performs (E:=E) w [] (mret a).
Proof. split; [apply emits_ret|]. intros _. by exists a, w. Qed.

Lemma performs_map_err {E F A} w plan (f : E → F) (m : io fs E A) :
  performs w plan m → performs w plan (io_map_err f m).
Proof.
  intros [He Hc]. split; [by apply emits_map_err|]. intros Hr.
  destruct (Hc Hr) as (a & w' & Hm). exists a, w'. unfold io_map_err. by rewrite Hm.
Qed.

Lemma performs_open w p d : ready [(p, d)] w → os_open p w = (Ok (), tick w).
Proof.
  intros (Hc & _ & [Hp _]%Forall_cons). unfold os_open, attempt, act, mbind, io_bind.
  rewrite Hc. cbn in *. by rewrite bool_decide_eq_true_2.
Qed.

Lemma performs_write w p d : performs w [(p, d)] (os_write p d).
Proof.
  split; [apply emits_write|]. intros (Hc & _). eexists tt, _.
  unfold os_write, attempt, act, mbind, io_bind. by rewrite Hc.
Qed.

Lemma performs_write_str w p d : performs w [(p, d)] (write_cgroup_file_str p d).
Proof.
  split; [apply emits_write_str|]. intros Hr. unfold write_cgroup_file_str.
  rewrite (io_bind_run _ _ w () (tick w))
    by (unfold io_map_err; by rewrite (performs_open w p d)).
  apply (performs_map_err (tick w) _ _ _ (performs_write (tick w) p d)).
  by apply (ready_wrote [] _ w); [exact (wrote_nil w)|].
Qed.

Lemma performs_write_file {T} `{Pretty T} w p (d : T) :
  performs w [(p, pretty d)] (write_cgroup_file p d).
Proof. apply performs_write_str. Qed.

Lemma performs_write_lines w p ls : performs w ((p,.) <$> ls) (write_lines p ls).
Proof.
  revert w. induction ls as [|l ls IH]; intros w; [apply performs_ret|].
  apply (performs_bind w [(p, l)]); [apply performs_map_err, performs_write|].
  intros _ w' _. apply IH.
Qed.

(** Writes do not change what exists. *)
Lemma exists_wrote plan w w' p : wrote plan w w' → stable (kernel w) → exists_ p w' = exists_ p w.
Proof.
  intros Hw Hs. pose proof Hw as (_ & Hd & _). unfold exists_. rewrite Hd. f_equal.
  by apply bool_decide_ext, (wrote_files _ _ _ p Hw).
Qed.

Lemma io_map_err_Ok {W E F A} (f : E → F) (m : io W E A) w a w' :
  io_map_err f m w = (Ok a, w') → m w = (Ok a, w').
Proof. unfold io_map_err. destruct (m w) as [[b|e|] w1]; cbn; [by intros [= -> ->]|by intros [=]..]. Qed.

Lemma os_open_Ok w p u w' : os_open p w = (Ok u, w') → is_Some (files w !! p) ∧ w' = tick w.
Proof.
  unfold os_open, attempt, act, mbind, io_bind. destruct (refuse _ _ _); cbn; [by intros [=]|].
  case_bool_decide; by intros [= _ <-].
Qed.

Lemma os_read_Ok w p s w' : os_read p w = (Ok s, w') → files w !! p = Some s ∧ w' = tick w.
Proof.
  unfold os_read, attempt, act, mbind, io_bind. destruct (refuse _ _ _); cbn; [by intros [=]|].
  destruct (files w !! p); by intros [= -> <-].
Qed.

Lemma read_cgroup_file_Ok w p s w' :
  read_cgroup_file p w = (Ok s, w') → files w !! p = Some s ∧ w' = tick w.
Proof. intros Hr%io_map_err_Ok. by apply os_read_Ok. Qed.

Lemma performs_os_read w p : is_Some (files w !! p) → performs w [] (os_read p).
Proof.
  intros [s Hs]. split; [apply emits_os_read|]. intros (Hc & _). exists s, (tick w).
  unfold os_read, attempt, act, mbind, io_bind. rewrite Hc. cbn. by rewrite Hs.
Qed.

Lemma performs_read w p : is_Some (files w !! p) → performs w [] (read_cgroup_file p).
Proof. intros Hs. by apply performs_map_err, performs_os_read. Qed.

Lemma performs_os_open w p : is_Some (files w !! p) → performs w [] (os_open p).
Proof.
  intros Hs. split; [apply emits_open|]. intros (Hc & Hk & _). exists (), (tick w).
  apply (performs_open w p ""). split; [done|]. split; [done|]. by apply Forall_singleton.
Qed.

(** A write answers to what the kernel makes of it. *)
Lemma write_cgroup_file_str_Ok w p d w' :
  write_cgroup_file_str p d w = (Ok (), w') →
  files w' = kernel w (S (S (clock w))) p d (files w).
Proof.
  unfold write_cgroup_file_str, os_open, os_write, attempt, act, io_map_err, mbind, io_bind.
  destruct (refuse w _ _); cbn; [by intros [=]|]. case_bool_decide; cbn; [|by intros [=]].
  destruct (refuse w _ _); cbn; [by intros [=]|]. by intros [= <-].
Qed.

(** A write to a file that is there does not fail with [ENOENT] by itself. *)
Lemma not_found_write w p d e w' :
  is_Some (files w !! p) → (∀ n op, refuse w n op ≠ Some ENOENT) →
  write_cgroup_file_str p d w = (Err e, w') → is_not_found (inner e) = false.
Proof.
  unfold write_cgroup_file_str, os_open, os_write, attempt, act, io_map_err, mbind, io_bind.
  intros Hf Hn. destruct (refuse w (clock w) _) as [x|] eqn:Hx; cbn.
  { intros [= <- _]. apply bool_decide_eq_false_2. cbn. specialize (Hn (clock w) (OpOpen p)). congruence. }
  rewrite bool_decide_eq_true_2 by done. cbn.
  destruct (refuse w (S (clock w)) _) as [x|] eqn:Hy; cbn; [|by intros [=]].
  intros [= <- _]. apply bool_decide_eq_false_2. cbn.
  specialize (Hn (S (clock w)) (OpWrite p d)). congruence.
Qed.

Lemma performs_pure {E A} w (m : outcome E A) : is_ok m = true → performs w [] (pure m).
Proof. destruct m as [a| |]; [intros _; apply (performs_ret w a)|done..]. Qed.

Lemma performs_err_free {E A} w plan (m : io fs E A) r w' :
  performs w plan m → ready plan w → m w = (r, w') → is_ok r = true ∧ wrote plan w w'.
Proof.
  intros [He Hc] Hr Hm. destruct (Hc Hr) as (a & w1 & Hm1). rewrite Hm in Hm1.
  injection Hm1 as -> ->. split; [done|]. by eapply emits_Ok.
Qed.

(** What stays the same between writes. *)
Definition agrees (w0 w : fs) : Prop :=
  refuse w = refuse w0 ∧ kernel w = kernel w0 ∧ dirs w = dirs w0 ∧
  (∀ I, kept (kernel w0) I → I (files w0) → I (files w)).

Lemma agrees_refl w : agrees w w.
Proof. by repeat split. Qed.

Lemma agrees_files w0 w q :
  stable (kernel w0) → agrees w0 w → is_Some (files w !! q) ↔ is_Some (files w0 !! q).
Proof.
  intros Hs (_ & _ & _ & Hf). apply (Hf (λ m, is_Some (m !! q) ↔ is_Some (files w0 !! q))); [|done].
  intros n p d m Hm. etrans; [apply Hs|apply Hm].
Qed.

Lemma agrees_exists w0 w p : stable (kernel w0) → agrees w0 w → exists_ p w = exists_ p w0.
Proof.
  intros Hs Ha. pose proof Ha as (_ & _ & Hd & _). unfold exists_. rewrite Hd. f_equal.
  by apply bool_decide_ext, agrees_files.
Qed.

Lemma agrees_wrote w0 w w' plan : agrees w0 w → wrote plan w w' → agrees w0 w'.
Proof.
  intros (H1 & H2 & H3 & H4) (_ & H5 & H6 & H7 & H8).
  split; [by rewrite H6|]. split; [by rewrite H7|]. split; [by rewrite H5|].
  intros I HI H0. apply H8; [by rewrite H2|by apply H4].
Qed.

(** Sequencing with the shared facts carried along. *)
Lemma emits_step {E A B} w0 w p1 p2 (m : io fs E A) (f : A → io fs E B) :
  agrees w0 w → emits w p1 m → (∀ a w', agrees w0 w' → emits w' p2 (f a)) →
  emits w (p1 ++ p2) (m ≫= f).
Proof.
  intros Ha Hm Hf. apply emits_bind; [done|]. intros a w' Hw'. apply Hf.
  eapply agrees_wrote; [done|]. by eapply emits_Ok.
Qed.

Lemma performs_step {E A B} w0 w p1 p2 (m : io fs E A) (f : A → io fs E B) :
  agrees w0 w → performs w p1 m → (∀ a w', agrees w0 w' → performs w' p2 (f a)) →
  performs w (p1 ++ p2) (m ≫= f).
Proof.
  intros Ha Hm Hf. apply performs_bind; [done|]. intros a w' Hw'. apply Hf.
  eapply agrees_wrote; [done|]. by eapply emits_Ok, Hw'; apply performs_emits.
Qed.

(** [performs_if w ok plan m]: [m] emits [plan]; it succeeds only if [ok] holds, and if [ok]
    holds it succeeds when everything is ready. *)
Definition performs_if {E A} (w : fs) (ok : Prop) (plan : list write) (m : io fs E A) : Prop :=
  emits w plan m ∧ (∀ a w', m w = (Ok a, w') → ok) ∧ (ok → ready plan w → ∃ a w', m w = (Ok a, w')).

Lemma performs_if_iff {E A} w (ok ok' : Prop) plan (m : io fs E A) :
  (ok ↔ ok') → performs_if w ok plan m → performs_if w ok' plan m.
Proof. intros Hok (H1 & H2 & H3). split; [done|]. split; [|tauto]. intros a w' Hm. apply Hok. eauto. Qed.

Lemma performs_if_ok {E A} w (ok : Prop) plan (m : io fs E A) : ok → performs w plan m → performs_if w ok plan m.
Proof. intros Hok [H1 H2]. by split. Qed.

Lemma performs_if_refused {E A} w (ok : Prop) plan (m : io fs E A) :
  ¬ ok → (∃ e, m w = (Err e, w)) → performs_if w ok plan m.
Proof.
  intros Hok [e He]. split; [|split; [|done]].
  - unfold emits. rewrite He. exists 0%nat. apply wrote_nil.
  - intros a w' Hm. by rewrite He in Hm.
Qed.

Lemma performs_if_map_err {E F A} w ok plan (f : E → F) (m : io fs E A) :
  performs_if w ok plan m → performs_if w ok plan (io_map_err f m).
Proof.
  intros (H1 & H2 & H3). split; [by apply emits_map_err|]. split.
  - intros a w' Hm%io_map_err_Ok. eauto.
  - intros Hok Hr. destruct (H3 Hok Hr) as (a & w' & Hm). exists a, w'. unfold io_map_err. by rewrite Hm.
Qed.

Lemma performs_if_bind {E A B} w (ok1 ok2 : Prop) p1 p2 (m : io fs E A) (f : A → io fs E B) :
  performs_if w ok1 p1 m → (∀ a w', m w = (Ok a, w') → performs_if w' ok2 p2 (f a)) →
  performs_if w (ok1 ∧ ok2) (p1 ++ p2) (m ≫= f).
Proof.
  intros (He & H1 & H2) Hf. split; [apply emits_bind; [done|]; intros; by apply Hf|]. split.
  - intros b w' (a & w1 & Hm & Hb)%io_bind_Ok. split; [eauto|]. by eapply Hf.
  - intros [Hok1 Hok2] [Hr1 Hr2]%ready_app. destruct (H2 Hok1 Hr1) as (a & w1 & Hm).
    destruct (Hf a w1 Hm) as (_ & _ & H3). pose proof (emits_Ok _ _ _ _ _ He Hm) as Hw.
    destruct (H3 Hok2 (ready_wrote _ _ _ _ Hw Hr2)) as (b & w2 & Hb).
    exists b, w2. by rewrite (io_bind_run _ _ _ _ _ Hm).
Qed.

Lemma performs_if_step {E A B} w0 w (ok1 ok2 : Prop) p1 p2 (m : io fs E A) (f : A → io fs E B) :
  agrees w0 w → performs_if w ok1 p1 m → (∀ a w', agrees w0 w' → performs_if w' ok2 p2 (f a)) →
  performs_if w (ok1 ∧ ok2) (p1 ++ p2) (m ≫= f).
Proof.
  intros Ha Hm Hf. apply performs_if_bind; [done|]. intros a w' Hw'. apply Hf.
  eapply agrees_wrote; [done|]. destruct Hm as [He _]. by eapply emits_Ok.
Qed.

(** ** Which operations a computation may make *)

Section only.
Context (P : fs_op → Prop).

(** Whatever happens, all operations that [m] makes satisfy [P]. *)
Definition only {E A} (m : io fs E A) : Prop :=
  ∀ w, ∃ ops, journal (m w).2 = journal w ++ ops ∧ Forall P ops.

Lemma only_ret {E A} (a : A) : only (E:=E) (mret a).
Proof. intros w. exists []. by rewrite app_nil_r. Qed.

Lemma only_pure {E A} (m : outcome E A) : only (pure m).
Proof. intros w. exists []. by rewrite app_nil_r. Qed.

Lemma only_bind {E A B} (m : io fs E A) (f : A → io fs E B) :
  only m → (∀ a, only (f a)) → only (m ≫= f).
Proof.
  intros Hm Hf w. destruct (Hm w) as (o1 & H1 & P1). unfold mbind, io_bind.
  destruct (m w) as [[a|e|] w1]; [|by exists o1..].
  cbn in H1. destruct (Hf a w1) as (o2 & H2 & P2). exists (o1 ++ o2).
  rewrite H2, H1, app_assoc. split; [done|by apply Forall_app].
Qed.

Lemma only_map_err {E F A} (f : E → F) (m : io fs E A) : only m → only (io_map_err f m).
Proof. exact id. Qed.

Lemma only_if_exists {E A} p (m1 m2 : io fs E A) :
  only m1 → only m2 → only (if_exists p m1 m2).
Proof. intros H1 H2 w. unfold if_exists. by destruct (exists_ p w). Qed.

Lemma only_silent {E A} (m : io fs E A) : (∀ w, journal (m w).2 = journal w) → only m.
Proof. intros Hm w. exists []. by rewrite app_nil_r. Qed.

Lemma only_write_str p d : P (OpWrite p d) → only (write_cgroup_file_str p d).
Proof.
  intros Hp w. pose proof (emits_write_str w p d) as He. unfold emits in He.
  destruct (write_cgroup_file_str p d w) as [[[]|e|] w1]; [..|done].
  - destruct He as [Hj _]. exists [OpWrite p d]. split; [done|by apply Forall_singleton].
  - destruct He as (k & Hj & _). exists (writes (take k [(p, d)])). split; [done|].
    destruct k as [|k]; [constructor|]. rewrite take_ge by (cbn; lia). by apply Forall_singleton.
Qed.

Lemma only_read p : only (read_cgroup_file p).
Proof.
  apply only_silent. intros w. unfold read_cgroup_file, os_read, attempt, act, io_map_err, mbind, io_bind.
  by destruct (refuse _ _ _).
Qed.

Lemma only_create_dir p : P (OpMkdir p) → only (os_create_dir p).
Proof.
  intros Hp w. unfold os_create_dir, attempt, act, mbind, io_bind.
  destruct (refuse _ _ _); [exists []; by rewrite app_nil_r|].
  destruct (exists_ _ _); [exists []; by rewrite app_nil_r|].
  exists [OpMkdir p]. split; [done|by apply Forall_singleton].
Qed.

Lemma only_make_dir p : P (OpMkdir p) → only (make_dir p).
Proof.
  intros Hp w. destruct (only_create_dir p Hp w) as (ops & Hj & Ho). exists ops. split; [|done].
  unfold make_dir. by destruct (os_create_dir p w) as [[u|e|] w1].
Qed.

(** Directories are only made on the way to [p]. *)
Lemma only_create_dir_all n p : (∀ q, q `prefix_of` p → P (OpMkdir q)) → only (create_dir_all n p).
Proof.
  revert p. induction n as [|n IH]; intros p Hp w; cbn [create_dir_all];
    destruct (only_create_dir p (Hp p ltac:(done)) w) as (ops & Hj & Ho);
    destruct (os_create_dir p w) as [[u|e|] w1]; cbn [fst snd] in *; try by exists ops.
  all: destruct (is_not_found e); [|by exists ops]; destruct (parent p) as [q|] eqn:Hq; try by exists ops.
  assert (q `prefix_of` p) as Hpre.
  { unfold parent in Hq. destruct (last p) as [[]|]; simplify_eq; apply prefix_take. }
  destruct (only_bind (create_dir_all n q) (λ _, make_dir p)) with (w := w1) as (o2 & Hj2 & Ho2).
  - apply IH. intros q' Hq'. apply Hp. by etrans.
  - intros _. by apply only_make_dir, Hp.
  - exists (ops ++ o2). rewrite Hj2, Hj, app_assoc. split; [done|by apply Forall_app].
Qed.

Lemma only_metadata p : only (os_metadata p).
Proof.
  apply only_silent. intros w. unfold os_metadata, attempt, act, mbind, io_bind.
  by destruct (refuse _ _ _).
Qed.
End only.

(** ** Removing directories and killing processes *)

Local Open Scope Z_scope.

(** The milliseconds spent sleeping. *)
Definition slept (ops : list fs_op) : Z :=
  foldr (λ op t, match op with OpSleep ms => ms + t | _ => t end) 0 ops.

(** One attempt of [remove_dir]. *)
Lemma remove_dir_cases p w :
  ∃ r w', os_remove_dir p w = (r, w') ∧
    ((r = Ok () ∧ journal w' = journal w ++ [OpRmdir p] ∧ p ∉ dirs w') ∨
     ((∃ e, r = Err e) ∧ journal w' = journal w)).
Proof.
  unfold os_remove_dir, attempt, act, mbind, io_bind.
  destruct (refuse _ _ _); [eexists _, _; split; [done|]; right; eauto|].
  cbn. case_bool_decide; eexists _, _; (split; [done|]); [left|right; eauto].
  split; [done|]. split; [done|]. cbn. set_solver.
Qed.

(** The delay after the next failed attempt, and the sum of the delays. *)
Definition next_delay (a d : Z) (l : option Z) : Z :=
  match l with
  | Some l => if l <? d * (a + 1) then l else d * (a + 1)
  | None => d * (a + 1)
  end.

Fixpoint total_delay (n : nat) (a d : Z) (l : option Z) : Z :=
  match n with O => 0 | S n => d + total_delay n (a + 1) (next_delay a d l) l end.

Lemma total_delay_nonneg n a d l :
  0 ≤ a → 0 ≤ d → from_option (λ l, 0 ≤ l) True l → 0 ≤ total_delay n a d l.
Proof.
  revert a d. induction n as [|n IH]; intros a d Ha Hd Hl; cbn; [lia|].
  assert (0 ≤ next_delay a d l).
  { unfold next_delay. destruct l; [cbn in Hl; case_match|]; nia. }
  pose proof (IH (a + 1) (next_delay a d l) ltac:(lia) ltac:(lia) Hl). lia.
Qed.

Lemma delete_loop_spec n p a d l w :
  0 ≤ a → 0 ≤ d → from_option (λ l, 0 ≤ l) True l →
  ∃ r w' ops, delete_loop n p a d l w = (r, w') ∧ journal w' = journal w ++ ops ∧
    slept ops ≤ total_delay n a d l ∧
    match r with
    | Ok _ => (p ∉ dirs w') ∧ last ops = Some (OpRmdir p)
    | Err e => e = WOther TimedOut p
    | Panic => False
    end.
Proof.
  intros Ha Hd Hl. revert a d w Ha Hd. induction n as [|n IH]; intros a d w Ha Hd; cbn [delete_loop].
  { eexists _, _, []. split; [done|]. by rewrite app_nil_r. }
  assert (0 ≤ next_delay a d l).
  { unfold next_delay. destruct l; [cbn in Hl; case_match|]; nia. }
  destruct (remove_dir_cases p w) as (r & w1 & -> & [(-> & Hj & Hp)|[[e ->] Hj]]).
  - eexists _, _, [_]. split; [done|]. split; [done|]. split; [|done].
    by apply (total_delay_nonneg (S n)).
  - set (w2 := record (OpSleep d) (dirs w1) (files w1) w1).
    destruct (IH (a + 1) (next_delay a d l) w2) as (r & w3 & ops & Hl3 & Hj3 & Ht & Hr);
      [lia..|].
    exists r, w3, (OpSleep d :: ops). split; [exact Hl3|]. split.
    + rewrite Hj3. cbn. by rewrite Hj, <- app_assoc.
    + split.
      { change (d + slept ops ≤ d + total_delay n (a + 1) (next_delay a d l) l). lia. }
      destruct r as [u|e'|]; [|done..]. destruct Hr as [Hp Hlast].
      split; [done|]. by rewrite last_cons, Hlast.
Qed.

(** It only sleeps and removes the directory. *)
Lemma delete_loop_only n p a d l :
  only (λ op, op = OpRmdir p ∨ ∃ ms, op = OpSleep ms) (delete_loop n p a d l).
Proof.
  revert a d. induction n as [|n IH]; intros a d w; cbn [delete_loop]; [exists []; by rewrite app_nil_r|].
  destruct (remove_dir_cases p w) as (r & w1 & -> & [(-> & Hj & _)|[[e ->] Hj]]).
  - exists [OpRmdir p]. split; [done|]. apply Forall_singleton. by left.
  - edestruct (IH (a + 1)) as (ops & Hj2 & Ho). exists (OpSleep d :: ops).
    split; [etrans; [exact Hj2|]|constructor; [right; by exists d|done]].
    cbn. by rewrite Hj, <- app_assoc.
Qed.

Lemma kill_all_Ok procs_path ls w w' :
  kill_all procs_path ls w = (Ok (), w') →
  ∃ ps, mapM (parse_signed 32) ls = Ok ps ∧ journal w' = journal w ++ (OpKill <$> ps).
Proof.
  revert w. induction ls as [|l ls IH]; intros w; cbn [kill_all].
  { intros [= <-]. exists []. by rewrite app_nil_r. }
  intros (pid & w1 & Hp & Hk)%io_bind_Ok. apply io_bind_Ok in Hk as ([] & w2 & Hs & Hk).
  injection Hs as <-. destruct (IH _ Hk) as (ps & Hps & Hj).
  unfold pure in Hp. destruct (parse_signed 32 l) as [z|e|] eqn:Hz; cbn in Hp; simplify_eq.
  exists (pid :: ps). cbn [mapM]. rewrite Hz. run. rewrite Hps. run. split; [done|].
  rewrite Hj. cbn. by rewrite <- app_assoc.
Qed.

Local Close Scope Z_scope.

(** ** [write_cgroup_file_by_line] *)

Lemma fmap_chars_of_chars ls : chars <$> map of_chars ls = ls.
Proof. induction ls as [|l ls IH]; [done|]. cbn. rewrite chars_of_chars. f_equal. apply IH. Qed.

(** One write per line.  [write_cgroup_file_by_line] makes one write for each
    line of the data; the writes put together are the data, and a line feed
    occurs in a write only at its end.  If the environment refuses nothing and
    the file is there, all writes are made; otherwise those made are the first
    ones. *)
Theorem write_by_line_spec w p data :
  let ls := split_inclusive LF data in
  concat (chars <$> ls) = chars data ∧
  Forall (λ l, ∀ i, chars l !! i = Some LF → S i = length (chars l)) ls ∧
  emits w ((p,.) <$> ls) (write_cgroup_file_by_line p data) ∧
  (ready [(p, data)] w → ∃ w', write_cgroup_file_by_line p data w = (Ok (), w')).
Proof.
  intros ls. split; [|split; [|split]].
  - unfold ls, split_inclusive. rewrite fmap_chars_of_chars. apply concat_split_inclusive_chars.
  - unfold ls, split_inclusive. apply Forall_forall. intros l Hl i Hi.
    eapply split_inclusive_chars_piece; [|exact Hi].
    rewrite <- (fmap_chars_of_chars (split_inclusive_chars LF (chars data))).
    by apply list_elem_of_fmap_2.
  - apply (emits_bind w []); [apply emits_map_err, emits_open|].
    intros _ w' _. apply performs_emits, performs_write_lines.
  - intros Hr. unfold write_cgroup_file_by_line.
    rewrite (io_bind_run _ _ w () (tick w))
      by (unfold io_map_err; by rewrite (performs_open w p data)).
    destruct (performs_write_lines (tick w) p ls) as [_ Hl].
    destruct Hl as ([] & w' & Hw'); [|by exists w'].
    destruct Hr as (Hc & Hk & [Hp _]%Forall_cons).
    split; [done|]. split; [done|]. apply Forall_fmap, Forall_true. by intros l.
Qed.

(** A regular file system with two files. *)
Definition example_fs (fl : list (Path * string)) : fs := {|
  dirs := {[ components "/sys/fs/cgroup" ]};
  files := list_to_map fl; journal := []; clock := 0;
  refuse := λ _ _, None; kernel := λ _ p d m, alter (λ _, d) p m;
  iface := ["cgroup.procs"; "cgroup.subtree_control"] |}.

Lemma example_ready fl plan :
  Forall (λ pd : write, is_Some ((list_to_map fl : gmap Path string) !! pd.1)) plan →
  ready plan (example_fs fl).
Proof.
  intros Hplan. split; [done|]. split; [|done]. intros n p d m q. cbn.
  destruct (decide (p = q)) as [->|Hne]; [|by rewrite lookup_alter_ne].
  by rewrite lookup_alter_eq, fmap_is_Some.
Qed.

Lemma write_by_line_spec_witness :
  let p := components "/sys/fs/cgroup/c/io.max" in
  ∃ w', write_cgroup_file_by_line p "8:0 rbps=1
8:1 rbps=2" (example_fs [(p, "")]) = (Ok (), w').
Proof.
  intros p. apply (write_by_line_spec (example_fs [(p, "")])). apply example_ready.
  apply Forall_singleton. vm_compute. by eexists.
Defined.
