(* ===== verification/CgroupTree.v ===== *)
(** * CgroupTree: the processes of a tree of cgroups

    Models [get_all_pids] and [walk_dir] of [crates/libcgroups/src/common.rs], which collect
    the processes of a cgroup and of all cgroups below it. *)
From S2P Require Import Prelude Text Paths CgroupFs.
Local Open Scope string_scope.
Local Open Scope list_scope.
Local Open Scope Z_scope.

(** The directories among the entries of a directory. *)
Definition subdirs (w : fs) (p : Path) : list Path :=
  filter (λ q, parent q = Some p) (elements (dirs w)).

(** [fs::read_dir], restricted to the entries that are directories *)
Definition os_read_dir (p : Path) : io fs IoError (list Path) :=
  _ ← attempt (OpRead p);
  act (λ w, (if bool_decide (p ∈ dirs w) then Ok (subdirs w p) else Err (OsError ENOENT), w)).

Fixpoint parse_pids (file_path : Path) (ls : list string) : outcome WrappedIoError (list Z) :=
  match ls with
  | [] => Ok []
  | line :: ls =>
      pid ← map_err (λ _, WOther InvalidData file_path) (parse_signed 32 line);
      rest ← parse_pids file_path ls;
      Ok (pid :: rest)
  end.

(** The lines of an open file, up to the first read that fails
    ([lines().map_while(Result::ok)]). *)
Definition read_lines (p : Path) : wio (list string) := λ w,
  match os_read p w with
  | (Ok content, w) => (Ok (lines content), w)
  | (Err _, w) => (Ok [], w)
  | (Panic, w) => (Panic, w)
  end.

(** The closure of [get_all_pids]: the processes of one cgroup. *)
Definition pids_of (p : Path) : wio (list Z) :=
  let file_path := join_name_of p CGROUP_PROCS in
  if_exists file_path
    (_ ← io_map_err (λ err, WOpen err file_path) (os_open file_path);
     ls ← read_lines file_path;
     pure (parse_pids file_path ls))
    (mret []).

(** The results of a computation on each element of a list, put together. *)
Definition collect {E A B} (f : A → io fs E (list B)) : list A → io fs E (list B) :=
  fix go l := match l with
  | [] => mret []
  | x :: l => a ← f x; b ← go l; mret (a ++ b)
  end.

(** [walk_dir] with the closure of [get_all_pids]; [n] bounds the depth. *)
Fixpoint walk_dir (n : nat) (path : Path) : wio (list Z) :=
  match n with
  | O => pure Panic
  | S n =>
      own ← pids_of path;
      below ← (entries ← io_map_err (λ err, WRead err path) (os_read_dir path);
               collect (walk_dir n) entries);
      mret (own ++ below)
  end.

(** One more than the length of the longest path. *)
Definition height (ds : gset Path) : nat := S (max_list (length <$> elements ds)).

Definition get_all_pids (path : Path) : wio (list Z) := λ w, walk_dir (height (dirs w)) path w.

(** ** What is collected *)

(** Everything but the time is the same. *)
Definition still (w w' : fs) : Prop :=
  dirs w' = dirs w ∧ files w' = files w ∧ journal w' = journal w ∧ refuse w' = refuse w.

Lemma still_refl w : still w w.
Proof. by repeat split. Qed.

Lemma still_trans w1 w2 w3 : still w1 w2 → still w2 w3 → still w1 w3.
Proof. unfold still. intros (?&?&?&?) (?&?&?&?). repeat split; congruence. Qed.

(** A process that the file of a cgroup lists. *)
Definition lists (w : fs) (q : Path) (pid : Z) : Prop :=
  ∃ content line, files w !! join_name_of q CGROUP_PROCS = Some content ∧
    line ∈ lines content ∧ parse_signed 32 line = Ok pid.

(** A computation that reads only: every result is listed at or below [p], and when nothing
    is refused and all files are legible it gives a result, with all that is listed. *)
Definition legible (w : fs) : Prop :=
  (∀ n op, refuse w n op = None) ∧ (∀ q, join_name_of q CGROUP_PROCS ∉ dirs w) ∧
  ∀ q content line, q ∈ dirs w → files w !! join_name_of q CGROUP_PROCS = Some content →
    line ∈ lines content → is_ok (parse_signed 32 line) = true.

Definition finds (w : fs) (Q : Z → Prop) (m : wio (list Z)) : Prop :=
  match m w with
  | (Ok l, w') => still w w' ∧ (∀ z, z ∈ l → Q z) ∧ (legible w → ∀ z, Q z → z ∈ l)
  | (Err _, w') => still w w' ∧ ¬ legible w
  | (Panic, _) => False
  end.

Lemma legible_still w w' : still w w' → legible w' ↔ legible w.
Proof. intros (H1 & H2 & _ & H4). unfold legible. by rewrite H1, H2, H4. Qed.

Lemma finds_ext w Q Q' m : (∀ z, Q z ↔ Q' z) → finds w Q m → finds w Q' m.
Proof.
  intros HQ. unfold finds. destruct (m w) as [[l|e|] w']; [|done..].
  intros (H1 & H2 & H3). split; [done|]. split; [intros z Hz; by apply HQ, H2|].
  intros Hl z Hz. by apply H3, HQ.
Qed.

Lemma finds_app w Q1 Q2 m f :
  finds w Q1 m → (∀ w', still w w' → finds w' Q2 f) →
  finds w (λ z, Q1 z ∨ Q2 z) (a ← m; b ← f; mret (a ++ b)).
Proof.
  unfold finds, mbind, io_bind. intros Hm Hf.
  destruct (m w) as [[l1|e|] w1]; [|done..]. destruct Hm as (Hs1 & Ha1 & Hb1).
  specialize (Hf w1 Hs1). destruct (f w1) as [[l2|e|] w2]; cbn; [|split|done].
  - destruct Hf as (Hs2 & Ha2 & Hb2). split; [by eapply still_trans|]. rewrite (legible_still w w1) in Hb2 by done.
    split; [intros z [?|?]%elem_of_app; auto|]. intros Hl z [?|?]; apply elem_of_app; auto.
  - by eapply still_trans; [|apply Hf].
  - rewrite <- (legible_still w w1) by done. apply Hf.
Qed.

Lemma finds_after {A} w w1 Q (r : wio A) a f :
  r w = (Ok a, w1) → still w w1 → finds w1 Q (f a) → finds w Q (r ≫= f).
Proof.
  intros Hr Hs Hf. unfold finds, mbind, io_bind in *. rewrite Hr.
  destruct (f a w1) as [[l|e|] w2]; [destruct Hf as (? & ? & Hl)|destruct Hf as [? Hl]|done];
    rewrite (legible_still w w1) in Hl by done; split_and!; try done; by eapply still_trans.
Qed.

Lemma finds_collect w (Q : Path → Z → Prop) f l :
  (∀ x w', x ∈ l → still w w' → finds w' (Q x) (f x)) →
  finds w (λ z, ∃ x, x ∈ l ∧ Q x z) (collect f l).
Proof.
  revert w. induction l as [|x l IH]; intros w Hf.
  { split; [apply still_refl|]. split; [by intros z ?%not_elem_of_nil|]. intros _ z (x & Hx & _). set_solver. }
  apply (finds_ext _ (λ z, Q x z ∨ ∃ y, y ∈ l ∧ Q y z)); [set_solver|].
  apply (finds_app w _ _ (f x) (collect f l)); [apply Hf; [set_solver|apply still_refl]|].
  intros w' Hw'. apply IH. intros y w2 Hy Hw2. apply Hf; [set_solver|]. by eapply still_trans.
Qed.

Lemma parse_pids_spec p ls :
  match parse_pids p ls with
  | Ok l => ∀ z, z ∈ l ↔ ∃ line, line ∈ ls ∧ parse_signed 32 line = Ok z
  | Err _ => ∃ line, line ∈ ls ∧ is_ok (parse_signed 32 line) = false
  | Panic => False
  end.
Proof.
  induction ls as [|line ls IH]; cbn [parse_pids]; [set_solver|].
  destruct (parse_signed 32 line) as [z|e|] eqn:Hz; cbn [map_err]; run.
  - destruct (parse_pids p ls) as [l|e|]; run; [|destruct IH as (l' & ? & ?); exists l'; split; [set_solver|done]|done].
    intros y. rewrite elem_of_cons, IH. split.
    + intros [->|(l' & ? & ?)]; [exists line|exists l']; (split; [set_solver|done]).
    + intros (l' & [->|?]%elem_of_cons & ?); [left; congruence|right; eauto].
  - exists line. split; [set_solver|]. by rewrite Hz.
  - by destruct (parse_signed_no_panic _ _ Hz).
Qed.

Lemma os_open_cases p w :
  os_open p w = (Ok (), tick w) ∨
  ∃ e, os_open p w = (Err e, tick w) ∧ (refuse w (clock w) (OpOpen p) ≠ None ∨ files w !! p = None).
Proof.
  unfold os_open, attempt, act, mbind, io_bind. destruct (refuse w _ _); cbn; [right; eexists; split; [done|by left]|].
  case_bool_decide as Hf; [by left|right]. eexists. split; [done|]. right. by apply eq_None_not_Some.
Qed.

Lemma os_read_cases p w :
  (∃ s, files w !! p = Some s ∧ os_read p w = (Ok s, tick w)) ∨
  ∃ e, os_read p w = (Err e, tick w) ∧ (refuse w (clock w) (OpRead p) ≠ None ∨ files w !! p = None).
Proof.
  unfold os_read, attempt, act, mbind, io_bind. destruct (refuse w _ _); cbn; [right; eexists; split; [done|by left]|].
  destruct (files w !! p) as [s|]; [left; by exists s|right]. eexists. split; [done|by right].
Qed.

Lemma still_tick w : still w (tick w).
Proof. by repeat split. Qed.

Lemma read_pids_finds w p :
  p ∈ dirs w →
  finds w (lists w p) (ls ← read_lines (join_name_of p CGROUP_PROCS); pure (parse_pids (join_name_of p CGROUP_PROCS) ls)).
Proof.
  intros Hp. unfold finds, mbind, io_bind, read_lines, pure. set (fp := join_name_of p CGROUP_PROCS).
  destruct (os_read_cases fp w) as [(s & Hf & ->)|(e & -> & He)].
  - pose proof (parse_pids_spec fp (lines s)) as Hs. destruct (parse_pids fp (lines s)) as [l|e|]; [|split|done].
    + split; [apply still_tick|]. split.
      * intros z (line & ? & ?)%Hs. by exists s, line.
      * intros _ z (s' & line & Hf' & ? & ?). fold fp in Hf'. simplify_eq. apply Hs. eauto.
    + apply still_tick.
    + destruct Hs as (line & Hl & Hn). intros (_ & _ & Hok). by rewrite (Hok p s line) in Hn.
  - split; [apply still_tick|]. split; [by intros z ?%not_elem_of_nil|].
    intros (Hr & _) z (s & line & Hf & _). fold fp in Hf. destruct He as [He|He]; [by destruct He|congruence].
Qed.

Lemma pids_of_finds w p : p ∈ dirs w → finds w (lists w p) (pids_of p).
Proof.
  intros Hp. unfold pids_of. set (fp := join_name_of p CGROUP_PROCS).
  unfold finds, if_exists. destruct (exists_ fp w) eqn:Hx.
  - unfold mbind at 1, io_bind at 1, io_map_err. destruct (os_open_cases fp w) as [Ho|(e & Ho & He)]; rewrite Ho; cbn.
    + pose proof (read_pids_finds (tick w) p Hp) as Hr. fold fp in Hr. unfold finds in Hr.
      unfold mbind, io_bind in *. exact Hr.
    + split; [apply still_tick|]. intros (Hr & Hnd & _). destruct He as [He|He]; [by destruct He|].
      apply orb_true_iff in Hx as [Hx%bool_decide_eq_true|Hx%bool_decide_eq_true].
      * by apply (Hnd p).
      * rewrite He in Hx. by destruct Hx.
  - cbn. split; [apply still_refl|]. split; [by intros z ?%not_elem_of_nil|].
    intros _ z (s & line & Hf & _). apply orb_false_iff in Hx as [_ Hx%bool_decide_eq_false].
    destruct Hx. by exists s.
Qed.

(** [q] is reached from [p] over directories that are there. *)
Definition under (w : fs) (p q : Path) : Prop :=
  q ∈ dirs w ∧ p `prefix_of` q ∧
  ∀ e, p `prefix_of` e → e `prefix_of` q → e ∈ dirs w ∧ (e ≠ p → is_Some (parent e)).

Lemma parent_take q p : parent q = Some p → ∃ c, q = p ++ [c].
Proof.
  unfold parent. destruct (last q) as [c|] eqn:Hl; [|done]. apply last_Some in Hl as [l ->].
  intros Hp. exists c. destruct c; simplify_eq; by rewrite length_app, Nat.add_sub, take_app_length.
Qed.

Lemma under_child w p q :
  under w p q → q = p ∨ ∃ e, e ∈ subdirs w p ∧ under w e q.
Proof.
  intros (Hq & [k ->] & Hall). destruct k as [|c k]; [left; by rewrite app_nil_r|right].
  exists (p ++ [c]).
  assert (p ++ [c] ∈ dirs w ∧ (p ++ [c] ≠ p → is_Some (parent (p ++ [c])))) as [He Hpar].
  { apply Hall; [by apply prefix_app_r|]. exists k. by rewrite <- app_assoc. }
  assert (p ++ [c] ≠ p) as Hne by (intros E%(f_equal length); rewrite length_app in E; cbn in E; lia).
  split.
  - apply list_elem_of_filter. split; [|by apply elem_of_elements].
    destruct (Hpar Hne) as [p' Hp']. rewrite Hp'. apply parent_take in Hp' as [c' Heq].
    by apply app_inj_tail in Heq as [-> _].
  - split; [done|]. split; [exists k; by rewrite <- app_assoc|]. intros e He1 He2.
    destruct (Hall e) as [H1 H2]; [|done|]; [etrans; [|exact He1]; by apply prefix_app_r|].
    split; [done|]. intros Hn. apply H2. intros ->. destruct He1 as [k' Hk'].
    apply (f_equal length) in Hk'. rewrite !length_app in Hk'. cbn in Hk'. lia.
Qed.

Lemma child_under w p e q : p ∈ dirs w → e ∈ subdirs w p → under w e q → under w p q.
Proof.
  intros Hp [Hpar He%elem_of_elements]%list_elem_of_filter (Hq & Hpre & Hall).
  pose proof (parent_take _ _ Hpar) as [c Hc]. subst e.
  split; [done|]. split; [etrans; [|exact Hpre]; by apply prefix_app_r|].
  intros e He1 He2. destruct He1 as [[|c' k] ->]; [rewrite app_nil_r; done|].
  destruct Hpre as [k1 ->]. destruct He2 as [k2 Hk]. rewrite <- !app_assoc in Hk.
  apply app_inv_head in Hk. cbn in Hk. injection Hk as -> ->.
  destruct (Hall (p ++ c' :: k)) as [H1 H2]; [exists k; by rewrite <- app_assoc|by exists k2; rewrite <- !app_assoc|].
  split; [done|]. intros _. destruct (decide (p ++ c' :: k = p ++ [c'])) as [->|Hn]; [by exists p|by apply H2].
Qed.

Lemma under_still w w' p q : still w w' → under w' p q ↔ under w p q.
Proof. intros (H1 & _). unfold under. by rewrite H1. Qed.

Lemma lists_still w w' q z : still w w' → lists w' q z ↔ lists w q z.
Proof. intros (_ & H2 & _). unfold lists. by rewrite H2. Qed.

Lemma read_dir_cases w p : p ∈ dirs w →
  os_read_dir p w = (Ok (subdirs w p), tick w) ∨
  (∃ e, os_read_dir p w = (Err e, tick w) ∧ refuse w (clock w) (OpRead p) ≠ None).
Proof.
  intros Hp. unfold os_read_dir, attempt, act, mbind, io_bind.
  destruct (refuse w _ _); cbn; [right; eexists; done|left].
  by rewrite bool_decide_eq_true_2.
Qed.

(** The walk collects what is listed in the cgroups under [p]. *)
Definition collects (w : fs) (p : Path) (z : Z) : Prop := ∃ q, under w p q ∧ lists w q z.

Lemma collects_still w w' p z : still w w' → collects w' p z ↔ collects w p z.
Proof.
  intros Hs. unfold collects. split; intros (q & Hu & Hl); exists q;
    by rewrite (under_still w w'), (lists_still w w') in *.
Qed.

Lemma under_refl w p : p ∈ dirs w → under w p p.
Proof.
  intros Hp. split; [done|]. split; [done|]. intros e [k1 ->] [k2 Hk].
  assert (k1 = []) as ->.
  { apply (f_equal length) in Hk. rewrite !length_app in Hk. destruct k1; [done|cbn in Hk; lia]. }
  by rewrite app_nil_r.
Qed.

Lemma walk_dir_finds n : ∀ w p,
  p ∈ dirs w → (∀ q, under w p q → (length q < length p + n)%nat) →
  finds w (collects w p) (walk_dir n p).
Proof.
  induction n as [|n IH]; intros w p Hp Hn.
  { specialize (Hn p (under_refl w p Hp)). lia. }
  apply (finds_ext _ (λ z, lists w p z ∨ ∃ e, e ∈ subdirs w p ∧ collects w e z)).
  { intros z. split.
    - intros [Hl|(e & He & q & Hu & Hl)]; [exists p; split; [by apply under_refl|done]|].
      exists q. split; [by eapply child_under|done].
    - intros (q & [->|(e & He & Hu)]%under_child & Hl); [by left|right]. exists e. split; [done|]. by exists q. }
  apply finds_app; [by apply pids_of_finds|]. intros w1 Hs1.
  assert (p ∈ dirs w1) as Hp1 by (by destruct Hs1 as [-> _]).
  assert (subdirs w1 p = subdirs w p) as Hsub by (unfold subdirs; by destruct Hs1 as [-> _]).
  destruct (read_dir_cases w1 p Hp1) as [Hr|(e & Hr & He)].
  - apply (finds_after _ (tick w1) _ _ (subdirs w p)); [|apply still_tick|].
    { unfold io_map_err. by rewrite Hr, Hsub. }
    apply finds_collect. intros e w2 He Hs2.
    assert (still w w2) as Hs by (by eapply still_trans; [|eapply still_trans; [apply still_tick|]]).
    apply (finds_ext _ (collects w2 e)); [intros z; by apply collects_still|].
    apply list_elem_of_filter in He as [Hpar He%elem_of_elements].
    apply IH; [by destruct Hs as [-> _]|]. intros q Hu. rewrite (under_still w w2) in Hu by done.
    assert (under w p q) as Hq%Hn by (eapply child_under; [done| |done]; apply list_elem_of_filter; by rewrite elem_of_elements).
    apply parent_take in Hpar as [c ->]. rewrite length_app. cbn. lia.
  - unfold finds, mbind, io_bind, io_map_err. rewrite Hr. cbn. split; [apply still_tick|]. by intros [? _]; destruct He.
Qed.

Lemma height_spec ds q : q ∈ ds → (length q < height ds)%nat.
Proof.
  intros Hq. unfold height. apply le_n_S, max_list_elem_of_le. apply list_elem_of_fmap. exists q.
  split; [done|]. by apply elem_of_elements.
Qed.

(** Reading the processes of one cgroup changes nothing, whether or not it exists. *)
Lemma pids_of_reads p w : (pids_of p w).1 ≠ Panic ∧ still w (pids_of p w).2.
Proof.
  unfold pids_of, if_exists. destruct (exists_ _ w); [|by split].
  unfold mbind, io_bind, io_map_err.
  destruct (os_open_cases (join_name_of p CGROUP_PROCS) w) as [->|(e & -> & _)]; [|split; [done|apply still_tick]].
  cbn. unfold read_lines.
  destruct (os_read_cases (join_name_of p CGROUP_PROCS) (tick w)) as [(s & _ & ->)|(e & -> & _)]; cbn;
    (split; [|by eapply still_trans; apply still_tick]);
    (match goal with |- context [parse_pids ?q ?l] =>
       pose proof (parse_pids_spec q l) as Hp; by destruct (parse_pids q l) end || done).
Qed.

(** Without knowing whether the cgroup exists. *)
Lemma get_all_pids_total p w :
  match get_all_pids p w with
  | (Ok pids, w') => still w w' ∧ ∀ z, z ∈ pids → collects w p z
  | (Err _, w') => still w w'
  | (Panic, _) => False
  end.
Proof.
  destruct (decide (p ∈ dirs w)) as [Hp|Hp].
  - assert (∀ q, under w p q → (length q < length p + height (dirs w))%nat) as Hh
      by (intros q (Hq & _); apply height_spec in Hq; lia).
    pose proof (walk_dir_finds (height (dirs w)) w p Hp Hh) as Hf. unfold finds, get_all_pids in *.
    destruct (walk_dir _ p w) as [[l|e|] w1]; naive_solver.
  - unfold get_all_pids, height. cbn [walk_dir]. unfold mbind, io_bind, io_map_err.
    destruct (pids_of_reads p w) as [Hnp Hs]. destruct (pids_of p w) as [[l|e|] w1]; cbn in Hnp, Hs; [|done..].
    unfold os_read_dir, attempt, act, mbind, io_bind.
    destruct Hs as (Hd & ? & ? & ?). destruct (refuse w1 _ _); cbn; [by repeat split|].
    rewrite bool_decide_eq_false_2 by (by rewrite Hd). by repeat split.
Qed.

(** The processes of a container.  [get_all_pids] on a cgroup changes nothing.  All that it
    returns is listed in the [cgroup.procs] of the cgroup or of one below it.  It fails only if
    the environment refuses an operation or a file is not a list of numbers; otherwise it
    returns all the processes that are listed, at every depth. *)
Theorem get_all_pids_spec p w :
  p ∈ dirs w →
  match get_all_pids p w with
  | (Ok pids, w') => still w w' ∧ (∀ z, z ∈ pids → collects w p z) ∧ (legible w → ∀ z, collects w p z → z ∈ pids)
  | (Err _, w') => still w w' ∧ ¬ legible w
  | (Panic, _) => False
  end.
Proof.
  intros Hp. apply (walk_dir_finds (height (dirs w)) w p Hp).
  intros q (Hq & _). apply height_spec in Hq. lia.
Qed.

Definition example_tree : fs := MkFs
  {[components "/sys/fs/cgroup/c"; components "/sys/fs/cgroup/c/d"; components "/sys/fs/cgroup/e"]}
  (list_to_map [(components "/sys/fs/cgroup/c/cgroup.procs", "17
42
"); (components "/sys/fs/cgroup/c/d/cgroup.procs", "99"); (components "/sys/fs/cgroup/e/cgroup.procs", "7")])
  [] 0 (λ _ _, None) (λ _ _ _ m, m) [].

Lemma get_all_pids_spec_witness :
  match get_all_pids (components "/sys/fs/cgroup/c") example_tree with
  | (Ok pids, _) => pids = [17; 42; 99] ∧ ∀ z, z ∈ pids → collects example_tree (components "/sys/fs/cgroup/c") z
  | _ => False
  end.
Proof.
  pose proof (get_all_pids_spec (components "/sys/fs/cgroup/c") example_tree) as Hs.
  specialize (Hs ltac:(apply (bool_decide_unpack _); vm_compute; exact I)).
  assert ((get_all_pids (components "/sys/fs/cgroup/c") example_tree).1 = Ok [17; 42; 99]) as Hr by (by vm_compute).
  destruct (get_all_pids _ _) as [r w]. cbn in Hr. subst r. split; [done|]. apply Hs.
Defined.
