(* ===== verification/Stats.v ===== *)
(** * Stats: the statistics of a cgroup

    Models [crates/libcgroups/src/stats.rs] and the [StatsProvider]s of the controllers of both
    hierarchies: the parsers of the formats of the kernel and what is collected from which file.
    The theorems are round trips: the text that the kernel prints for a table is parsed back to
    the table. *)
From S2P Require Import Prelude Text Paths CgroupFs CgroupTree.
Local Open Scope string_scope.
Local Open Scope list_scope.
Local Open Scope Z_scope.

(** ** Parsers ([stats.rs]) *)

Definition parse_value (value : string) : outcome IntErrorKind Z := parse_unsigned 64 value.

Definition U64_MAX : Z := 2 ^ 64 - 1.

Definition parse_single_value (file_path : Path) : wio Z :=
  value ← read_cgroup_file file_path;
  let value := trim value in
  if bool_decide (value = "max") then mret U64_MAX
  else pure (map_err (λ _, WOther InvalidData file_path) (parse_unsigned 64 value)).

Inductive ParseFlatKeyedDataError : Type :=
  | FlatWrappedIo (e : WrappedIoError)
  | FlatDoesNotConform (path : Path)
  | FlatFailedToParse (value : string) (path : Path) (err : IntErrorKind).

(** One line ["key value"]. *)
Definition flat_line (file_path : Path) (entry : string) (stats : gmap string Z) :
    outcome ParseFlatKeyedDataError (gmap string Z) :=
  match split_ascii_whitespace entry with
  | [k; v] =>
      v' ← map_err (FlatFailedToParse k file_path) (parse_unsigned 64 v);
      Ok (<[k := v']> stats)
  | _ => Err (FlatDoesNotConform file_path)
  end.

Definition parse_flat_keyed_data (file_path : Path) : io fs ParseFlatKeyedDataError (gmap string Z) :=
  keyed_data ← io_map_err FlatWrappedIo (read_cgroup_file file_path);
  pure (for_each (flat_line file_path) (lines keyed_data) ∅).

Inductive ParseNestedKeyedDataError : Type :=
  | NestedWrappedIo (e : WrappedIoError)
  | NestedDoesNotConform (path : Path).

(** One line ["key field=value .."]. *)
Definition nested_line (file_path : Path) (entry : string) (stats : gmap string (list string)) :
    outcome ParseNestedKeyedDataError (gmap string (list string)) :=
  match split_ascii_whitespace entry with
  | k :: ((_ :: _) as fields) =>
      if forallb (contains_char "=") fields then Ok (<[k := fields]> stats)
      else Err (NestedDoesNotConform file_path)
  | _ => Err (NestedDoesNotConform file_path)
  end.

Definition parse_nested_keyed_data (file_path : Path) :
    io fs ParseNestedKeyedDataError (gmap string (list string)) :=
  keyed_data ← io_map_err NestedWrappedIo (read_cgroup_file file_path);
  pure (for_each (nested_line file_path) (lines keyed_data) ∅).

Inductive ParseDeviceNumberError : Type :=
  | TooManyNumbers (device : string) (numbers : nat)
  | MalformedNumber (device : string) (err : IntErrorKind).

Definition parse_device_number (device : string) : outcome ParseDeviceNumberError (Z * Z) :=
  let numbers := split_terminator ":" device in
  match numbers with
  | [a; b] =>
      major ← map_err (MalformedNumber device) (parse_unsigned 64 a);
      minor ← map_err (MalformedNumber device) (parse_unsigned 64 b);
      Ok (major, minor)
  | _ => Err (TooManyNumbers device (length numbers))
  end.

Record PidStats : Type := MkPidStats { pids_current : Z; pids_limit : Z }.

Inductive PidStatsError : Type :=
  | PidsWrappedIo (e : WrappedIoError)
  | ParseCurrent (err : IntErrorKind)
  | ParseLimit (err : IntErrorKind).

Definition pid_stats (cgroup_path : Path) : io fs PidStatsError PidStats :=
  current ← io_map_err PidsWrappedIo (read_cgroup_file (join_name_of cgroup_path "pids.current"));
  current ← pure (map_err ParseCurrent (parse_unsigned 64 (trim current)));
  limit ← io_map_err PidsWrappedIo (read_cgroup_file (join_name_of cgroup_path "pids.max"));
  if negb (bool_decide (trim limit = "max")) then
    limit ← pure (map_err ParseLimit (parse_unsigned 64 (trim limit)));
    mret (MkPidStats current limit)
  else mret (MkPidStats current 0).

Inductive SupportedPageSizesError : Type :=
  | PageSizesIo (e : IoError)
  | PageSizesParse (value : string) (err : IntErrorKind)
  | PageSizesFailed (dir_name : string).

(** [str::strip_suffix] *)
Definition strip_suffix (suffix s : string) : option string :=
  if ends_with suffix s then Some (of_chars (take (String.length s - String.length suffix) (chars s)))
  else None.

Definition extract_page_size (dir_name : string) : outcome SupportedPageSizesError string :=
  match strip_prefix "hugepages-" dir_name ≫= strip_suffix "kB" with
  | Some size =>
      n ← map_err (PageSizesParse size) (parse_unsigned 64 size);
      Ok (if Z.shiftl 1 20 <=? n then pretty (Z.shiftr n 20) +:+ "GB"
          else if Z.shiftl 1 10 <=? n then pretty (Z.shiftr n 10) +:+ "MB"
          else pretty n +:+ "KB")
  | None => Err (PageSizesFailed dir_name)
  end.

Definition HUGEPAGES : Path := components "/sys/kernel/mm/hugepages".

(** The names of the directories in [HUGEPAGES]. *)
Definition entry_name (p : Path) : option string :=
  match last p with Some (Normal n) => Some n | _ => None end.

Definition supported_page_sizes : io fs SupportedPageSizesError (list string) :=
  entries ← io_map_err PageSizesIo (os_read_dir HUGEPAGES);
  pure (mapM (λ e, dir_name ← unwrap (entry_name e); extract_page_size dir_name) entries).

(** *** Pressure stall information *)

(** [f64] and its [FromStr]; zero is its default. *)
Class Float64 : Type := {
  f64 : Type; f64_zero : f64; parse_f64 : string → option f64 }.

Section psi.
Context `{Float64}.

Record PSIData : Type := MkPSIData { avg10 : f64; avg60 : f64; avg300 : f64 }.
Record PSIStats : Type := MkPSIStats { some_ : PSIData; full : PSIData }.

Definition psi_data_default : PSIData := MkPSIData f64_zero f64_zero f64_zero.
Definition psi_stats_default : PSIStats := MkPSIStats psi_data_default psi_data_default.

Definition psi_field (path : Path) (kv : string) (d : PSIData) : outcome WrappedIoError PSIData :=
  match split_once "=" kv with
  | Some (k, v) =>
      if bool_decide (k = "avg10") then
        v ← ok_or (parse_f64 v) (WOther InvalidData path); Ok (MkPSIData v (avg60 d) (avg300 d))
      else if bool_decide (k = "avg60") then
        v ← ok_or (parse_f64 v) (WOther InvalidData path); Ok (MkPSIData (avg10 d) v (avg300 d))
      else if bool_decide (k = "avg300") then
        v ← ok_or (parse_f64 v) (WOther InvalidData path); Ok (MkPSIData (avg10 d) (avg60 d) v)
      else Ok d
  | None => Ok d
  end.

Definition parse_psi (stat_line : string) (path : Path) : outcome WrappedIoError PSIData :=
  for_each (psi_field path) (split_ascii_whitespace stat_line) psi_data_default.

(** [&line[0..4]] panics if the line is shorter. *)
Definition psi_line (path : Path) (line : string) (stats : PSIStats) : outcome WrappedIoError PSIStats :=
  if (String.length line <? 4)%nat then Panic
  else
    let head := of_chars (take 4 (chars line)) in
    let rest := of_chars (drop 4 (chars line)) in
    if bool_decide (head = "some") then d ← parse_psi rest path; Ok (MkPSIStats d (full stats))
    else if bool_decide (head = "full") then d ← parse_psi rest path; Ok (MkPSIStats (some_ stats) d)
    else Ok stats.

Definition psi_stats (psi_file : Path) : wio PSIStats :=
  psi ← read_cgroup_file psi_file;
  pure (for_each (psi_line psi_file) (lines psi) psi_stats_default).
End psi.

(** ** What is reported *)

Record CpuUsage : Type := MkCpuUsage {
  usage_total : Z; usage_user : Z; usage_kernel : Z;
  per_core_usage_total : list Z; per_core_usage_user : list Z; per_core_usage_kernel : list Z }.

Record CpuThrottling : Type := MkThrottling { periods : Z; throttled_periods : Z; throttled_time : Z }.

Record MemoryData : Type := MkMemoryData {
  md_usage : Z; md_max_usage : Z; md_fail_count : Z; md_limit : Z }.

Record BlkioDeviceStat : Type := MkDeviceStat {
  bd_major : Z; bd_minor : Z; op_type : option string; bd_value : Z }.

Record HugeTlbStats : Type := MkHugeTlbStats { ht_usage : Z; ht_max_usage : Z; ht_fail_count : Z }.

Definition memory_data_default : MemoryData := MkMemoryData 0 0 0 0.

Section records.
Context `{Float64}.

Record CpuStats : Type := MkCpuStats { cpu_usage : CpuUsage; throttling : CpuThrottling; cpu_psi : PSIStats }.

Record MemoryStats : Type := MkMemoryStats {
  ms_memory : MemoryData; ms_memswap : MemoryData; ms_kernel : MemoryData; ms_kernel_tcp : MemoryData;
  ms_cache : Z; ms_hierarchy : bool; ms_stats : gmap string Z; ms_psi : PSIStats }.

Record BlkioStats : Type := MkBlkioStats {
  service_bytes : list BlkioDeviceStat; serviced : list BlkioDeviceStat; time : list BlkioDeviceStat;
  sectors : list BlkioDeviceStat; service_time : list BlkioDeviceStat; wait_time : list BlkioDeviceStat;
  queued : list BlkioDeviceStat; merged : list BlkioDeviceStat; io_psi : PSIStats }.

Record Stats : Type := MkStats {
  st_cpu : CpuStats; st_pids : PidStats; st_hugetlb : gmap string HugeTlbStats;
  st_blkio : BlkioStats; st_memory : MemoryStats }.

Definition cpu_usage_default : CpuUsage := MkCpuUsage 0 0 0 [] [] [].

(** [Stats::default()] *)
Definition stats_default : Stats := {|
  st_cpu := MkCpuStats cpu_usage_default (MkThrottling 0 0 0) psi_stats_default;
  st_pids := MkPidStats 0 0; st_hugetlb := ∅;
  st_blkio := MkBlkioStats [] [] [] [] [] [] [] [] psi_stats_default;
  st_memory := MkMemoryStats memory_data_default memory_data_default memory_data_default
    memory_data_default 0 false ∅ psi_stats_default |}.
End records.

(** [Display for BlkioDeviceStat] *)
Definition device_stat_fmt (d : BlkioDeviceStat) : string :=
  match op_type d with
  | Some op => pretty (bd_major d) +:+ ":" +:+ pretty (bd_minor d) +:+ " " +:+ op +:+ " " +:+ pretty (bd_value d)
  | None => pretty (bd_major d) +:+ ":" +:+ pretty (bd_minor d) +:+ " " +:+ pretty (bd_value d)
  end.

(** [*stat_table.get(name).ok_or_else(..)?] *)
Definition get_field {E} (missing : string → E) (table : gmap string Z) (name : string) : outcome E Z :=
  ok_or (table !! name) (missing name).

(** ** cgroup v1 *)

Module V1Stats.
Section v1.
Context `{Float64}.

(** [v1/cpu.rs] *)
Inductive V1CpuStatsError : Type :=
  | CpuParseData (e : ParseFlatKeyedDataError)
  | CpuMissingField (field : string) (path : Path).

Definition cpu_stats (cgroup_path : Path) : io fs V1CpuStatsError CpuThrottling :=
  let stat_path := join_name_of cgroup_path "cpu.stat" in
  stat_table ← io_map_err CpuParseData (parse_flat_keyed_data stat_path);
  let get := get_field (λ f, CpuMissingField f stat_path) stat_table in
  pure (p ← get "nr_periods"; t ← get "nr_throttled"; tt ← get "throttled_time"; Ok (MkThrottling p t tt)).

(** [v1/cpuacct.rs] *)
Inductive V1CpuAcctStatsError : Type :=
  | AcctWrappedIo (e : WrappedIoError)
  | AcctParseData (e : ParseFlatKeyedDataError)
  | AcctMissingField (field : string) (path : Path)
  | ParseTotalCpu (err : IntErrorKind)
  | FailedToParseField (mode : string) (path : Path) (err : IntErrorKind)
  | ParsePerCore (err : IntErrorKind).

(** Sets the total, the user and the kernel usage. *)
Definition get_total_cpu_usage (cgroup_path : Path) : io fs V1CpuAcctStatsError (Z * Z * Z) :=
  let stat_file_path := join_name_of cgroup_path "cpuacct.stat" in
  stat_table ← io_map_err AcctParseData (parse_flat_keyed_data stat_file_path);
  let get := get_field (λ f, AcctMissingField f stat_file_path) stat_table in
  user ← pure (get "user");
  kernel ← pure (get "system");
  total ← io_map_err AcctWrappedIo (read_cgroup_file (join_name_of cgroup_path "cpuacct.usage"));
  total ← pure (map_err ParseTotalCpu (parse_unsigned 64 (trim total)));
  mret (total, user, kernel).

(** One line of the usage per core, which is skipped if it does not have three fields. *)
Definition per_core_line (path : Path) (entry : string) (acc : list Z * list Z) :
    outcome V1CpuAcctStatsError (list Z * list Z) :=
  match split_ascii_whitespace entry with
  | [_; u; k] =>
      u ← map_err (FailedToParseField "user" path) (parse_unsigned 64 u);
      k ← map_err (FailedToParseField "kernel" path) (parse_unsigned 64 k);
      Ok (acc.1 ++ [u], acc.2 ++ [k])
  | _ => Ok acc
  end.

(** The usage per core: total, user and kernel. *)
Definition get_per_core_usage (cgroup_path : Path) : io fs V1CpuAcctStatsError (list Z * list Z * list Z) :=
  let path := join_name_of cgroup_path "cpuacct.usage_all" in
  all_content ← io_map_err AcctWrappedIo (read_cgroup_file path);
  per_core ← pure (for_each (per_core_line path) (drop 1 (lines all_content)) ([], []));
  percpu_content ← io_map_err AcctWrappedIo (read_cgroup_file (join_name_of cgroup_path "cpuacct.usage_percpu"));
  total ← pure (map_err ParsePerCore (mapM (parse_unsigned 64) (split_ascii_whitespace percpu_content)));
  mret (total, per_core.1, per_core.2).

Definition cpuacct_stats (cgroup_path : Path) : io fs V1CpuAcctStatsError CpuUsage :=
  t ← get_total_cpu_usage cgroup_path;
  c ← get_per_core_usage cgroup_path;
  mret (MkCpuUsage t.1.1 t.1.2 t.2 c.1.1 c.1.2 c.2).

(** [v1/memory.rs] *)
Inductive V1MemoryStatsError : Type :=
  | MemStatsWrappedIo (e : WrappedIoError)
  | MemStatsParse (e : ParseFlatKeyedDataError).

Definition get_memory_data (cgroup_path : Path) (file_prefix : string) : wio MemoryData :=
  usage ← parse_single_value (join_name_of cgroup_path (file_prefix +:+ ".usage_in_bytes"));
  max_usage ← parse_single_value (join_name_of cgroup_path (file_prefix +:+ ".max_usage_in_bytes"));
  limit ← parse_single_value (join_name_of cgroup_path (file_prefix +:+ ".limit_in_bytes"));
  fail_count ← parse_single_value (join_name_of cgroup_path (file_prefix +:+ ".failcnt"));
  mret (MkMemoryData usage max_usage fail_count limit).

Definition hierarchy_enabled (cgroup_path : Path) : wio bool :=
  hierarchy ← read_cgroup_file (join_name_of cgroup_path "memory.use_hierarchy");
  mret (bool_decide (trim hierarchy = "1")).

(** [stats["cache"]] panics if the table has no such entry. *)
Definition memory_stats (cgroup_path : Path) : io fs V1MemoryStatsError MemoryStats :=
  memory ← io_map_err MemStatsWrappedIo (get_memory_data cgroup_path "memory");
  memswap ← io_map_err MemStatsWrappedIo (get_memory_data cgroup_path "memory.memsw");
  kernel ← io_map_err MemStatsWrappedIo (get_memory_data cgroup_path "memory.kmem");
  kernel_tcp ← io_map_err MemStatsWrappedIo (get_memory_data cgroup_path "memory.kmem.tcp");
  hierarchy ← io_map_err MemStatsWrappedIo (hierarchy_enabled cgroup_path);
  stats ← io_map_err MemStatsParse (parse_flat_keyed_data (join_name_of cgroup_path "memory.stat"));
  cache ← pure (unwrap (stats !! "cache"));
  mret (MkMemoryStats memory memswap kernel kernel_tcp cache hierarchy stats psi_stats_default).

(** [v1/hugetlb.rs] *)
Inductive V1HugeTlbStatsError : Type :=
  | HugeWrappedIo (e : WrappedIoError)
  | HugePageSizes (e : SupportedPageSizesError)
  | HugeParse (err : IntErrorKind).

(** [m.or_else(|_| f)] on a computation *)
Definition or_else {E A} (m f : io fs E A) : io fs E A := λ w,
  match m w with (Err _, w) => f w | r => r end.

(** The usage, and the prefix of the files where it was found. *)
Definition read_usage (cgroup_path : Path) (page_size suffix : string) : wio (string * string) :=
  let rsvd := "hugetlb." +:+ page_size +:+ ".rsvd" in
  let plain := "hugetlb." +:+ page_size in
  or_else
    (c ← read_cgroup_file (join_name_of cgroup_path (rsvd +:+ suffix)); mret (rsvd, c))
    (c ← read_cgroup_file (join_name_of cgroup_path (plain +:+ suffix)); mret (plain, c)).

Definition stats_for_page_size (cgroup_path : Path) (page_size : string) :
    io fs V1HugeTlbStatsError HugeTlbStats :=
  u ← io_map_err HugeWrappedIo (read_usage cgroup_path page_size ".usage_in_bytes");
  usage ← pure (map_err HugeParse (parse_unsigned 64 (trim u.2)));
  max_content ← io_map_err HugeWrappedIo
    (read_cgroup_file (join_name_of cgroup_path (u.1 +:+ ".max_usage_in_bytes")));
  max_usage ← pure (map_err HugeParse (parse_unsigned 64 (trim max_content)));
  failcnt_content ← io_map_err HugeWrappedIo (read_cgroup_file (join_name_of cgroup_path (u.1 +:+ ".failcnt")));
  fail_count ← pure (map_err HugeParse (parse_unsigned 64 (trim failcnt_content)));
  mret (MkHugeTlbStats usage max_usage fail_count).

(** [for x in l { m.insert(x, f(x)?) }] *)
Fixpoint insert_each {E B} (f : string → io fs E B) (l : list string) (m : gmap string B) : io fs E (gmap string B) :=
  match l with
  | [] => mret m
  | x :: l => b ← f x; insert_each f l (<[x := b]> m)
  end.

Definition hugetlb_stats (cgroup_path : Path) : io fs V1HugeTlbStatsError (gmap string HugeTlbStats) :=
  page_sizes ← io_map_err HugePageSizes supported_page_sizes;
  insert_each (stats_for_page_size cgroup_path) page_sizes ∅.

(** [v1/blkio.rs] *)
Inductive V1BlkioStatsError : Type :=
  | BlkioWrappedIo (e : WrappedIoError)
  | FailedParseValue (value : string) (path : Path) (err : IntErrorKind)
  | FailedParseNumber (e : ParseDeviceNumberError).

Definition blkio_line (blkio_file : Path) (entry : string) (stats : list BlkioDeviceStat) :
    outcome V1BlkioStatsError (list BlkioDeviceStat) :=
  let entry_fields := split_ascii_whitespace entry in
  if (length entry_fields <=? 2)%nat then Ok stats
  else
    d ← map_err FailedParseNumber (parse_device_number (default "" (entry_fields !! 0%nat)));
    if (length entry_fields =? 3)%nat then
      let v := default "" (entry_fields !! 2%nat) in
      value ← map_err (FailedParseValue v blkio_file) (parse_unsigned 64 v);
      Ok (stats ++ [MkDeviceStat d.1 d.2 (entry_fields !! 1%nat) value])
    else
      let v := default "" (entry_fields !! 1%nat) in
      value ← map_err (FailedParseValue v blkio_file) (parse_unsigned 64 v);
      Ok (stats ++ [MkDeviceStat d.1 d.2 None value]).

Definition parse_blkio_file (blkio_file : Path) : io fs V1BlkioStatsError (list BlkioDeviceStat) :=
  content ← io_map_err BlkioWrappedIo (read_cgroup_file blkio_file);
  pure (for_each (blkio_line blkio_file) (lines content) []).

Definition get_throttling_policy_stats (p : Path) : io fs V1BlkioStatsError BlkioStats :=
  service_bytes ← parse_blkio_file (join_name_of p "blkio.throttle.io_service_bytes");
  serviced ← parse_blkio_file (join_name_of p "blkio.throttle.io_serviced");
  mret (MkBlkioStats service_bytes serviced [] [] [] [] [] [] psi_stats_default).

Definition get_weight_division_policy_stats (p : Path) : io fs V1BlkioStatsError BlkioStats :=
  time ← parse_blkio_file (join_name_of p "blkio.time_recursive");
  sectors ← parse_blkio_file (join_name_of p "blkio.sectors_recursive");
  service_bytes ← parse_blkio_file (join_name_of p "blkio.io_service_bytes_recursive");
  serviced ← parse_blkio_file (join_name_of p "blkio.io_serviced_recursive");
  service_time ← parse_blkio_file (join_name_of p "blkio.io_service_time_recursive");
  wait_time ← parse_blkio_file (join_name_of p "blkio.io_wait_time_recursive");
  queued ← parse_blkio_file (join_name_of p "blkio.io_queued_recursive");
  merged ← parse_blkio_file (join_name_of p "blkio.io_merged_recursive");
  mret (MkBlkioStats service_bytes serviced time sectors service_time wait_time queued merged psi_stats_default).

Definition blkio_stats (cgroup_path : Path) : io fs V1BlkioStatsError BlkioStats :=
  if_exists (join_name_of cgroup_path "blkio.weight") (get_weight_division_policy_stats cgroup_path)
    (get_throttling_policy_stats cgroup_path).
End v1.
End V1Stats.

(** ** cgroup v2 *)

Module V2Stats.
Section v2.
Context `{Float64}.

(** [v2/cpu.rs] *)
Inductive V2CpuStatsError : Type :=
  | CpuWrappedIo (e : WrappedIoError)
  | CpuParse (e : ParseFlatKeyedDataError)
  | CpuMissing (field : string) (path : Path).

(** [*= 1000] at [u64], which wraps around in a release build *)
Definition to_nanoseconds (v : Z) : Z := uwrap 64 (v * 1000).

Definition cpu_stats (cgroup_path : Path) : io fs V2CpuStatsError CpuStats :=
  let stats_path := join_name_of cgroup_path "cpu.stat" in
  stats_table ← io_map_err CpuParse (parse_flat_keyed_data stats_path);
  let get := get_field (λ f, CpuMissing f stats_path) stats_table in
  total ← pure (get "usage_usec");
  user ← pure (get "user_usec");
  kernel ← pure (get "system_usec");
  let or_zero name := default 0 (stats_table !! name) in
  psi ← io_map_err CpuWrappedIo (psi_stats (join_name_of cgroup_path "cpu.pressure"));
  mret (MkCpuStats
    (MkCpuUsage (to_nanoseconds total) (to_nanoseconds user) (to_nanoseconds kernel) [] [] [])
    (MkThrottling (or_zero "nr_periods") (or_zero "nr_throttled") (to_nanoseconds (or_zero "throttled_usec")))
    psi).

(** [v2/memory.rs] *)
Inductive V2MemoryStatsError : Type :=
  | MemWrappedIo (e : WrappedIoError)
  | MemParse (e : ParseFlatKeyedDataError).

(** [.unwrap_or(0)] on a computation *)
Definition unwrap_or_zero {E F} (m : io fs E Z) : io fs F Z := λ w,
  (match (m w).1 with Ok v => Ok v | Err _ => Ok 0 | Panic => Panic end, (m w).2).

Definition get_memory_data (cgroup_path : Path) (file_prefix fail_event : string) :
    io fs V2MemoryStatsError MemoryData :=
  usage ← io_map_err MemWrappedIo (parse_single_value (join_name_of cgroup_path (file_prefix +:+ ".current")));
  limit ← io_map_err MemWrappedIo (parse_single_value (join_name_of cgroup_path (file_prefix +:+ ".max")));
  max_usage ← unwrap_or_zero (parse_single_value (join_name_of cgroup_path (file_prefix +:+ ".peak")));
  events ← io_map_err MemParse (parse_flat_keyed_data (join_name_of cgroup_path (file_prefix +:+ ".events")));
  mret (MkMemoryData usage max_usage (default 0 (events !! fail_event)) limit).

Definition memory_stats (cgroup_path : Path) : io fs V2MemoryStatsError MemoryStats :=
  memory ← get_memory_data cgroup_path "memory" "oom";
  memswap ← get_memory_data cgroup_path "memory.swap" "fail";
  stats ← io_map_err MemParse (parse_flat_keyed_data (join_name_of cgroup_path "memory.stat"));
  psi ← io_map_err MemWrappedIo (psi_stats (join_name_of cgroup_path "memory.pressure"));
  mret (MkMemoryStats memory memswap memory_data_default memory_data_default 0 true stats psi).

(** [v2/io.rs] *)
Inductive V2IoStatsError : Type :=
  | IoWrappedIo (e : WrappedIoError)
  | IoParseNested (e : ParseNestedKeyedDataError)
  | IoParseDevice (e : ParseDeviceNumberError)
  | IoParseInt (err : IntErrorKind).

(** [&value[n..]], which panics beyond the end *)
Definition slice_from (n : nat) (s : string) : outcome V2IoStatsError string :=
  if (String.length s <? n)%nat then Panic else Ok (of_chars (drop n (chars s))).

(** One field of a device, for the bytes and for the operations. *)
Definition io_field (d : Z * Z) (value : string) (acc : list BlkioDeviceStat * list BlkioDeviceStat) :
    outcome V2IoStatsError (list BlkioDeviceStat * list BlkioDeviceStat) :=
  let stat n op := s ← slice_from n value; v ← map_err IoParseInt (parse_value s);
                   Ok (MkDeviceStat d.1 d.2 (Some op) v) in
  if starts_with "rbytes" value then st ← stat 7%nat "read"; Ok (acc.1 ++ [st], acc.2)
  else if starts_with "wbytes" value then st ← stat 7%nat "write"; Ok (acc.1 ++ [st], acc.2)
  else if starts_with "rios" value then st ← stat 5%nat "read"; Ok (acc.1, acc.2 ++ [st])
  else if starts_with "wios" value then st ← stat 5%nat "write"; Ok (acc.1, acc.2 ++ [st])
  else Ok acc.

Definition io_entry (entry : string * list string) (acc : list BlkioDeviceStat * list BlkioDeviceStat) :
    outcome V2IoStatsError (list BlkioDeviceStat * list BlkioDeviceStat) :=
  d ← map_err IoParseDevice (parse_device_number entry.1);
  for_each (io_field d) entry.2 acc.

(** The entries of the table come in the order of the hash map. *)
Definition io_stats (cgroup_path : Path) : io fs V2IoStatsError BlkioStats :=
  keyed_data ← io_map_err IoParseNested (parse_nested_keyed_data (join_name_of cgroup_path "io.stat"));
  acc ← pure (for_each io_entry (map_to_list keyed_data) ([], []));
  psi ← io_map_err IoWrappedIo (psi_stats (join_name_of cgroup_path "io.pressure"));
  mret (MkBlkioStats acc.1 acc.2 [] [] [] [] [] [] psi).

(** [v2/hugetlb.rs] *)
Inductive V2HugeTlbStatsError : Type :=
  | HtWrappedIo (e : WrappedIoError)
  | HtPageSizes (e : SupportedPageSizesError)
  | ParseMax (path : Path) (err : IntErrorKind).

Definition stats_for_page_size (cgroup_path : Path) (page_size : string) : io fs V2HugeTlbStatsError HugeTlbStats :=
  e ← io_map_err HtWrappedIo (V1Stats.read_usage cgroup_path page_size ".events");
  let '(file_prefix, events) := e in
  let path := join_name_of cgroup_path (file_prefix +:+ ".events") in
  fail_count ← pure
    (match head (List.filter (starts_with "max") (lines events)) with
     | Some l => map_err (ParseMax path) (parse_unsigned 64 (trim (of_chars (drop 3 (chars l)))))
     | None => Ok 0
     end);
  usage ← io_map_err HtWrappedIo (parse_single_value (join_name_of cgroup_path (file_prefix +:+ ".current")));
  mret (MkHugeTlbStats usage 0 fail_count).

Definition hugetlb_stats (cgroup_path : Path) : io fs V2HugeTlbStatsError (gmap string HugeTlbStats) :=
  page_sizes ← io_map_err HtPageSizes supported_page_sizes;
  V1Stats.insert_each (stats_for_page_size cgroup_path) page_sizes ∅.

(** [Manager::stats] of [v2/manager.rs] *)
Inductive V2StatsError : Type :=
  | CpuStatsError (e : V2CpuStatsError) | HugeTlbStatsError (e : V2HugeTlbStatsError)
  | PidsStatsError (e : PidStatsError) | MemoryStatsError (e : V2MemoryStatsError)
  | IoStatsError (e : V2IoStatsError).

(** In the order of [CONTROLLER_TYPES]. *)
Definition manager_stats (full_path : Path) : io fs V2StatsError Stats :=
  cpu ← io_map_err CpuStatsError (cpu_stats full_path);
  hugetlb ← io_map_err HugeTlbStatsError (hugetlb_stats full_path);
  blkio ← io_map_err IoStatsError (io_stats full_path);
  memory ← io_map_err MemoryStatsError (memory_stats full_path);
  pids ← io_map_err PidsStatsError (pid_stats full_path);
  mret (MkStats cpu pids hugetlb blkio memory).
End v2.
End V2Stats.

(** ** Properties of the parsers *)

(** The flat keyed format: a line for each key. *)
Definition flat_text (l : list (string * Z)) : string :=
  unlines ((λ kv, String.concat " " [kv.1; pretty kv.2]) <$> l).

Lemma flat_line_print p k v m :
  word k → in_u 64 v → flat_line p (String.concat " " [k; pretty v]) m = Ok (<[k := v]> m).
Proof.
  intros Hk Hv. unfold flat_line. rewrite split_words by (repeat constructor; try apply Hk; apply pretty_word, Hv).
  rewrite parse_unsigned_pretty_Z by done. done.
Qed.

Lemma flat_lines_print p l :
  NoDup l.*1 → Forall (λ kv, word kv.1 ∧ in_u 64 kv.2) l →
  for_each (flat_line p) ((λ kv, String.concat " " [kv.1; pretty kv.2]) <$> l) ∅ = Ok (list_to_map l).
Proof.
  induction l as [|[k v] l IH] using rev_ind; intros Hnd Hl; [done|].
  apply Forall_app in Hl as [Hl [[Hk Hv] _]%Forall_cons].
  rewrite fmap_app in Hnd. apply NoDup_app in Hnd as (Hnd & Hdisj & _).
  rewrite fmap_app, for_each_app, IH by done. run. cbn [fmap list_fmap for_each fst snd] in *.
  rewrite flat_line_print by done. run. f_equal. symmetry. apply list_to_map_snoc. set_solver.
Qed.

Lemma flat_text_lines l :
  Forall (λ kv, word kv.1 ∧ in_u 64 kv.2) l →
  lines (flat_text l) = (λ kv, String.concat " " [kv.1; pretty kv.2]) <$> l.
Proof.
  intros Hl. apply lines_unlines, Forall_fmap. eapply Forall_impl; [exact Hl|]. intros [k v] [Hk Hv].
  apply words_one_line. repeat constructor; try apply Hk; apply pretty_word, Hv.
Qed.

(** A line that conforms. *)
Definition conforms (entry : string) : Prop :=
  ∃ k v z, split_ascii_whitespace entry = [k; v] ∧ parse_unsigned 64 v = Ok z.

Lemma flat_line_ok p entry m : ok_iff (flat_line p entry m) (conforms entry).
Proof.
  unfold ok_iff, flat_line, conforms.
  destruct (split_ascii_whitespace entry) as [|k [|v [|]]]; try by intros (? & ? & ? & [=] & _).
  destruct (parse_unsigned 64 v) as [z|e|] eqn:Hv; cbn [map_err]; run.
  - by exists k, v, z.
  - intros (? & ? & ? & [= -> ->] & Hz). congruence.
  - by destruct (parse_unsigned_no_panic _ _ Hv).
Qed.

(** Flat keyed files.  A table that the kernel prints with one line for each key is read back as
    the same table.  Any file is read without a panic: if the file can be read, the result is a
    table exactly when every line has two fields, the second of which is a 64-bit number. *)
Theorem flat_keyed_roundtrip file w :
  refuse w (clock w) (OpRead file) = None →
  (∀ l, files w !! file = Some (flat_text l) → NoDup l.*1 → Forall (λ kv, word kv.1 ∧ in_u 64 kv.2) l →
     parse_flat_keyed_data file w = (Ok (list_to_map l), tick w)) ∧
  (∀ s, files w !! file = Some s → ok_iff (parse_flat_keyed_data file w).1 (Forall conforms (lines s))).
Proof.
  intros Hr. assert (∀ s, files w !! file = Some s →
    parse_flat_keyed_data file w = (for_each (flat_line file) (lines s) ∅, tick w)) as Hread.
  { intros s Hs. unfold parse_flat_keyed_data, read_cgroup_file, os_read, attempt, act, io_map_err, mbind, io_bind.
    rewrite Hr. cbn. by rewrite Hs. }
  split.
  - intros l Hf Hnd Hl. rewrite (Hread _ Hf), flat_text_lines by done. by rewrite flat_lines_print.
  - intros s Hs. rewrite (Hread _ Hs). cbn [fst]. apply ok_iff_for_each. intros. apply flat_line_ok.
Qed.

Definition example_stat : Path := components "/sys/fs/cgroup/c/cpu.stat".

Lemma flat_keyed_roundtrip_witness :
  let l := [("usage_usec", 120034); ("nr_periods", 0)] in
  let w := example_fs [(example_stat, flat_text l)] in
  parse_flat_keyed_data example_stat w = (Ok (list_to_map l), tick w).
Proof.
  intros l w. apply (flat_keyed_roundtrip example_stat w); [done|by vm_compute| |].
  - cbn. apply (bool_decide_unpack _). by vm_compute.
  - repeat constructor; try done.
Defined.

(** *** Devices *)

Lemma colon_word s : word s → all_digits (chars s) → ":"%char ∉ chars s.
Proof.
  intros _ Hd Hin. unfold all_digits in Hd. rewrite Forall_forall in Hd. apply Hd in Hin. by destruct Hin.
Qed.

Lemma pretty_digits z : 0 ≤ z → all_digits (chars (pretty z)).
Proof. intros Hz. rewrite pretty_nonneg by done. apply pretty_N_digits. Qed.

Definition device_fmt (major minor : Z) : string := pretty major +:+ ":" +:+ pretty minor.

Lemma parse_device_number_fmt a b :
  in_u 64 a → in_u 64 b → parse_device_number (device_fmt a b) = Ok (a, b).
Proof.
  intros Ha Hb. unfold parse_device_number, device_fmt, split_terminator.
  change (pretty a +:+ ":" +:+ pretty b) with (pretty a +:+ String ":" (pretty b)).
  rewrite (split_on_app ":" (pretty a) (pretty b)) by (apply colon_word; [apply pretty_word, Ha|apply pretty_digits, Ha]).
  rewrite split_on_none by (apply colon_word; [apply pretty_word, Hb|apply pretty_digits, Hb]).
  rewrite bool_decide_eq_false_2.
  - by rewrite !parse_unsigned_pretty_Z.
  - cbn. intros [= Hn]. by apply (pretty_word b (proj1 Hb)).
Qed.

Lemma device_word a b : 0 ≤ a → 0 ≤ b → word (device_fmt a b).
Proof.
  intros Ha Hb. unfold device_fmt, word. rewrite !chars_app. split.
  - intros Hn%(f_equal chars). rewrite !chars_app in Hn. destruct (chars (pretty a)); done.
  - apply Forall_app. split; [apply pretty_word, Ha|]. constructor; [done|]. apply pretty_word, Hb.
Qed.

(** A device statistic as [Display] prints it is a line of words. *)
Definition stat_words (d : BlkioDeviceStat) : list string :=
  device_fmt (bd_major d) (bd_minor d) :: option_list (op_type d) ++ [pretty (bd_value d)].

Lemma device_stat_fmt_words d : device_stat_fmt d = String.concat " " (stat_words d).
Proof.
  unfold device_stat_fmt, stat_words, device_fmt. destruct (op_type d); cbn [option_list app String.concat];
    by rewrite ?string_app_assoc.
Qed.

Definition printable (d : BlkioDeviceStat) : Prop :=
  in_u 64 (bd_major d) ∧ in_u 64 (bd_minor d) ∧ in_u 64 (bd_value d) ∧ from_option word True (op_type d).

Lemma stat_words_words d : printable d → Forall word (stat_words d).
Proof.
  intros (H1 & H2 & H3 & H4). unfold stat_words. constructor; [apply device_word; [apply H1|apply H2]|].
  apply Forall_app. split; [by destruct (op_type d); repeat constructor; try apply H4|].
  apply Forall_singleton, pretty_word, H3.
Qed.

Lemma blkio_line_print p d acc :
  printable d →
  V1Stats.blkio_line p (device_stat_fmt d) acc = Ok (acc ++ filter (λ d, is_Some (op_type d)) [d]).
Proof.
  intros Hd. rewrite device_stat_fmt_words. unfold V1Stats.blkio_line.
  rewrite split_words by (by apply stat_words_words). cbv zeta. destruct Hd as (H1 & H2 & H3 & _).
  unfold stat_words. destruct d as [a b [op|] v]; cbn [op_type bd_major bd_minor bd_value option_list app] in *.
  - change (device_fmt a b :: option_list (Some op) ++ [pretty v]) with [device_fmt a b; op; pretty v].
    change (default "" ([device_fmt a b; op; pretty v] !! 0%nat)) with (device_fmt a b).
    change (default "" ([device_fmt a b; op; pretty v] !! 2%nat)) with (pretty v). cbn [length Nat.leb Nat.eqb].
    rewrite parse_device_number_fmt by done. run. rewrite parse_unsigned_pretty_Z by done. run.
    rewrite filter_cons_True by done. done.
  - change (device_fmt a b :: option_list None ++ [pretty v]) with [device_fmt a b; pretty v].
    change (length [device_fmt a b; pretty v] <=? 2)%nat with true. cbv iota. rewrite filter_cons_False by (by intros [? ?]). by rewrite filter_nil, app_nil_r.
Qed.

(** Statistics of block devices on cgroup v1.  A file that lists device statistics as [Display]
    prints them is read back as the list of those that name an operation; the statistics without
    one, which the kernel prints in two fields, are left out. *)
Theorem blkio_roundtrip file l w :
  refuse w (clock w) (OpRead file) = None → Forall printable l →
  files w !! file = Some (unlines (device_stat_fmt <$> l)) →
  V1Stats.parse_blkio_file file w = (Ok (filter (λ d, is_Some (op_type d)) l), tick w).
Proof.
  intros Hr Hl Hf. unfold V1Stats.parse_blkio_file, read_cgroup_file, os_read, attempt, act, io_map_err, mbind, io_bind.
  rewrite Hr. cbn. rewrite Hf. cbn. unfold pure. f_equal. rewrite lines_unlines.
  - clear Hf. change (Ok (filter (λ d, is_Some (op_type d)) l) : outcome V1Stats.V1BlkioStatsError _)
      with (Ok ([] ++ filter (λ d, is_Some (op_type d)) l) : outcome V1Stats.V1BlkioStatsError _).
    generalize ([] : list BlkioDeviceStat) as acc.
    induction Hl as [|d l Hd Hl IH]; intros acc; [by rewrite app_nil_r|].
    cbn [fmap list_fmap for_each]. rewrite blkio_line_print by done. run. rewrite IH, <- app_assoc. f_equal. f_equal.
    by rewrite <- filter_app.
  - apply Forall_fmap. eapply Forall_impl; [exact Hl|]. intros d Hd. unfold compose.
    rewrite device_stat_fmt_words. by apply words_one_line, stat_words_words.
Qed.

Lemma blkio_roundtrip_witness :
  let file := components "/sys/fs/cgroup/blkio/c/blkio.throttle.io_serviced" in
  let read := MkDeviceStat 8 0 (Some "Read") 12 in
  let w := example_fs [(file, unlines (device_stat_fmt <$> [read; MkDeviceStat 8 16 None 99]))] in
  V1Stats.parse_blkio_file file w = (Ok [read], tick w).
Proof.
  intros file read w.
  apply (blkio_roundtrip file [read; MkDeviceStat 8 16 None 99] w); [done| |by vm_compute].
  repeat constructor; done.
Defined.

(** Pressure files: a line of fewer than four characters is a panic. *)
Lemma psi_short_line `{Float64} file w s l :
  refuse w (clock w) (OpRead file) = None → files w !! file = Some s → head (lines s) = Some l →
  (String.length l < 4)%nat → (psi_stats file w).1 = Panic.
Proof.
  intros Hr Hf Hl Hlen. unfold psi_stats, read_cgroup_file, os_read, attempt, act, io_map_err, mbind, io_bind.
  rewrite Hr. cbn. rewrite Hf. cbn. unfold pure. destruct (lines s) as [|l' ls]; [done|].
  injection Hl as ->. cbn [for_each]. unfold psi_line. by rewrite (proj2 (Nat.ltb_lt _ _)).
Qed.

(** The sizes of huge pages, as the kernel names their files. *)
Lemma extract_page_size_spec n :
  in_u 64 n →
  extract_page_size ("hugepages-" +:+ pretty n +:+ "kB")
  = Ok (if 1048576 <=? n then pretty (n / 1048576) +:+ "GB"
        else if 1024 <=? n then pretty (n / 1024) +:+ "MB" else pretty n +:+ "KB").
Proof.
  intros Hn. unfold extract_page_size.
  change (strip_prefix "hugepages-" ("hugepages-" +:+ pretty n +:+ "kB")) with (Some (pretty n +:+ "kB")).
  cbn [mbind option_bind]. unfold strip_suffix. rewrite ends_with_app.
  rewrite (proj2 (drop_suffix _ _)), of_chars_chars. rewrite parse_unsigned_pretty_Z by done.
  assert (Z.shiftr n 20 = n / 1048576) as E1 by (by rewrite Z.shiftr_div_pow2).
  assert (Z.shiftr n 10 = n / 1024) as E2 by (by rewrite Z.shiftr_div_pow2).
  rewrite <- E1, <- E2. done.
Qed.
