(* ===== verification/V2Controllers.v ===== *)
(** * V2Controllers: resource limits on cgroup v2

    Models the controllers of [crates/libcgroups/src/v2] that write resource
    limits into cgroup files: [cpu.rs], [cpuset.rs], [hugetlb.rs], [io.rs],
    [memory.rs], [pids.rs] and [unified.rs].  Each controller is a computation on
    the file system of [CgroupFs]; its specification is a plan, the list of
    writes that the configuration asks for. *)
From S2P Require Import Prelude Text Paths CgroupFs.
Local Open Scope string_scope.
Local Open Scope list_scope.
Local Open Scope Z_scope.

(** ** The configuration ([oci_spec::runtime]), as the values of its getters *)

Record LinuxCpu : Type := MkCpu {
  shares : option Z; quota : option Z; burst : option Z; period : option Z;
  realtime_runtime : option Z; realtime_period : option Z;
  cpus : option string; mems : option string; idle : option Z }.

Record LinuxMemory : Type := MkMemory {
  limit : option Z; reservation : option Z; swap : option Z;
  kernel_mem : option Z; kernel_tcp : option Z; swappiness : option Z }.

Record LinuxHugepageLimit : Type := MkHugepage { page_size : string; hp_limit : Z }.

Record LinuxWeightDevice : Type := MkWeightDevice {
  wd_major : Z; wd_minor : Z; wd_weight : option Z }.

Record LinuxThrottleDevice : Type := MkThrottleDevice {
  td_major : Z; td_minor : Z; td_rate : Z }.

Record LinuxBlockIo : Type := MkBlockIo {
  weight : option Z; leaf_weight : option Z;
  weight_device : option (list LinuxWeightDevice);
  throttle_read_bps_device : option (list LinuxThrottleDevice);
  throttle_write_bps_device : option (list LinuxThrottleDevice);
  throttle_read_iops_device : option (list LinuxThrottleDevice);
  throttle_write_iops_device : option (list LinuxThrottleDevice) }.

(** The resources of a container.  [unified] is the hash map in its iteration
    order. *)
Record LinuxResources : Type := MkResources {
  cpu : option LinuxCpu; memory : option LinuxMemory; pids : option Z;
  hugepage_limits : option (list LinuxHugepageLimit); block_io : option LinuxBlockIo;
  unified : option (list (string * string)) }.

(** A configuration that is absent or present. *)
Definition when_some {E A} (o : option A) (f : A → io fs E ()) : io fs E () :=
  match o with Some a => f a | None => mret () end.

(** [for x in l { f(x)?; }] *)
Fixpoint for_in {E A} (l : list A) (f : A → io fs E ()) : io fs E () :=
  match l with [] => mret () | x :: l => _ ← f x; for_in l f end.

Lemma performs_when_some {E A} w (plan : A → list write) (o : option A)
    (f : A → io fs E ()) :
  (∀ a, o = Some a → performs w (plan a) (f a)) →
  performs w (from_option plan [] o) (when_some o f).
Proof. destruct o; intros Hf; [by apply Hf|apply performs_ret]. Qed.

Lemma performs_for_in {E A} w (plan : A → list write) (l : list A) (f : A → io fs E ()) :
  (∀ w a, a ∈ l → performs w (plan a) (f a)) → performs w (l ≫= plan) (for_in l f).
Proof.
  revert w. induction l as [|a l IH]; intros w Hf; [apply performs_ret|].
  rewrite bind_cons. apply performs_bind; [apply Hf; set_solver|].
  intros _ w' _. apply IH. set_solver.
Qed.

Lemma performs_if_when_some {E A} w (ok : A → Prop) (plan : A → list write) (o : option A)
    (f : A → io fs E ()) :
  (∀ a, o = Some a → performs_if w (ok a) (plan a) (f a)) →
  performs_if w (∀ a, o = Some a → ok a) (from_option plan [] o) (when_some o f).
Proof.
  destruct o as [a|]; intros Hf; [|by apply performs_if_ok; [|apply performs_ret] ].
  eapply performs_if_iff; [|by apply Hf]. split; [by intros ? ? [= <-]|intros H; by apply H].
Qed.

Lemma performs_if_for_in {E A} w0 w (ok : A → Prop) (plan : A → list write) (l : list A) (f : A → io fs E ()) :
  agrees w0 w → (∀ w a, agrees w0 w → a ∈ l → performs_if w (ok a) (plan a) (f a)) →
  performs_if w (Forall ok l) (l ≫= plan) (for_in l f).
Proof.
  revert w. induction l as [|a l IH]; intros w Ha Hf; [by apply performs_if_ok; [|apply performs_ret] |].
  rewrite bind_cons. eapply performs_if_iff; [symmetry; apply Forall_cons|].
  apply (performs_if_step w0); [done|apply Hf; [done|set_solver]|].
  intros _ w' Ha'. apply IH; [done|]. intros w'' b ??. apply Hf; [done|set_solver].
Qed.

(** ** [cpu.rs] *)

Module Cpu.
Definition CGROUP_CPU_WEIGHT : string := "cpu.weight".
Definition CGROUP_CPU_MAX : string := "cpu.max".
Definition CGROUP_CPU_BURST : string := "cpu.max.burst".
Definition CGROUP_CPU_IDLE : string := "cpu.idle".
Definition UNRESTRICTED_QUOTA : string := "max".
Definition MAX_CPU_WEIGHT : Z := 10000.

Inductive V2CpuControllerError : Type :=
  | CpuWrappedIo (e : WrappedIoError)
  | RealtimeV2.

Section cpu.
(** The value of [10f64.powf((l * l + 125.0 * l) / 612.0 - 7.0 / 34.0).ceil() as u64]
    with [l = (shares as f64).log2()], which floating-point hardware and libm
    compute. *)
Context (shares_curve : Z → Z).

Definition convert_shares_to_cgroup2 (shares : Z) : Z :=
  if shares =? 0 then 0
  else if shares <=? 2 then 1
  else if 262144 <=? shares then MAX_CPU_WEIGHT
  else Z.max 1 (Z.min MAX_CPU_WEIGHT (shares_curve shares)).

Definition is_realtime_requested (cpu : LinuxCpu) : bool :=
  bool_decide (is_Some (realtime_period cpu)) || bool_decide (is_Some (realtime_runtime cpu)).

Definition create_period_only_value (cpu_max_file : Path) (period : Z) :
    io fs V2CpuControllerError (option string) :=
  old_cpu_max ← io_map_err CpuWrappedIo (read_cgroup_file cpu_max_file);
  mret (match split_whitespace old_cpu_max with
        | old_quota :: _ => Some (old_quota +:+ " " +:+ pretty period)
        | [] => None
        end).

(** The part of [apply] after the weight. *)
Definition apply_max (path : Path) (cpu : LinuxCpu) : io fs V2CpuControllerError () :=
  let cpu_max_file := join_name_of path CGROUP_CPU_MAX in
  new_cpu_max ←
    match quota cpu, period cpu with
    | None, Some period => create_period_only_value cpu_max_file period
    | Some quota, None =>
        mret (Some (if 0 <? quota then pretty quota else UNRESTRICTED_QUOTA))
    | Some quota, Some period =>
        mret (Some ((if 0 <? quota then pretty quota else UNRESTRICTED_QUOTA)
                    +:+ " " +:+ pretty period))
    | None, None => mret None
    end;
  _ ← when_some new_cpu_max (λ cpu_max,
        io_map_err CpuWrappedIo (write_cgroup_file_str cpu_max_file cpu_max));
  _ ← when_some (burst cpu) (λ burst,
        io_map_err CpuWrappedIo (write_cgroup_file (join_name_of path CGROUP_CPU_BURST) burst));
  when_some (idle cpu) (λ idle,
        io_map_err CpuWrappedIo (write_cgroup_file (join_name_of path CGROUP_CPU_IDLE) idle)).

Definition apply (path : Path) (cpu : LinuxCpu) : io fs V2CpuControllerError () :=
  _ ← pure (if is_realtime_requested cpu then
              let runtime := default 0 (realtime_runtime cpu) in
              let period := default 0 (realtime_period cpu) in
              if (0 <? runtime) || (0 <? period) then Err RealtimeV2 else Ok ()
            else Ok ());
  _ ← when_some (shares cpu) (λ shares,
        let shares := convert_shares_to_cgroup2 shares in
        if negb (shares =? 0)
        then io_map_err CpuWrappedIo
               (write_cgroup_file (join_name_of path CGROUP_CPU_WEIGHT) shares)
        else mret ());
  apply_max path cpu.

(** ** What the configuration asks for *)

Definition weight_plan (path : Path) (s : Z) : list write :=
  if s =? 0 then []
  else [(join_name_of path CGROUP_CPU_WEIGHT, pretty (convert_shares_to_cgroup2 s))].

(** The new limit, given the one in force: a missing quota keeps the old one. *)
Definition cpu_max (cpu : LinuxCpu) (old : string) : option string :=
  let quota_str q := if 0 <? q then pretty q else UNRESTRICTED_QUOTA in
  match quota cpu, period cpu with
  | None, None => None
  | Some q, None => Some (quota_str q)
  | Some q, Some p => Some (quota_str q +:+ " " +:+ pretty p)
  | None, Some p => (λ q, q +:+ " " +:+ pretty p) <$> head (split_whitespace old)
  end.

Definition plan (path : Path) (cpu : LinuxCpu) (old : string) : list write :=
  from_option (weight_plan path) [] (shares cpu)
  ++ from_option (λ v, [(join_name_of path CGROUP_CPU_MAX, v)]) [] (cpu_max cpu old)
  ++ from_option (λ b, [(join_name_of path CGROUP_CPU_BURST, pretty b)]) [] (burst cpu)
  ++ from_option (λ i, [(join_name_of path CGROUP_CPU_IDLE, pretty i)]) [] (idle cpu).

(** Real-time scheduling is refused; zero values mean that it is not asked for. *)
Definition realtime (cpu : LinuxCpu) : bool :=
  (0 <? default 0 (realtime_runtime cpu)) || (0 <? default 0 (realtime_period cpu)).

Lemma convert_range s : 0 ≤ s →
  (s = 0 ∧ convert_shares_to_cgroup2 s = 0) ∨
  (0 < s ∧ 1 ≤ convert_shares_to_cgroup2 s ≤ MAX_CPU_WEIGHT).
Proof.
  intros Hs. unfold convert_shares_to_cgroup2, MAX_CPU_WEIGHT.
  destruct (Z.eqb_spec s 0); [by left|right]. split; [lia|].
  repeat case_match; lia.
Qed.

(** A limit without quota needs the limit in force. *)
Definition needs_old (cpu : LinuxCpu) : Prop := quota cpu = None ∧ is_Some (period cpu).

Lemma max_performs w path cpu old :
  (needs_old cpu → files w !! join_name_of path CGROUP_CPU_MAX = Some old
                   ∨ files w !! join_name_of path CGROUP_CPU_MAX = None) →
  performs_if w (needs_old cpu → is_Some (files w !! join_name_of path CGROUP_CPU_MAX))
    (from_option (λ v, [(join_name_of path CGROUP_CPU_MAX, v)]) [] (cpu_max cpu old)
     ++ from_option (λ b, [(join_name_of path CGROUP_CPU_BURST, pretty b)]) [] (burst cpu)
     ++ from_option (λ i, [(join_name_of path CGROUP_CPU_IDLE, pretty i)]) [] (idle cpu))
    (apply_max path cpu).
Proof.
  intros Hold. unfold apply_max.
  eapply performs_if_iff; [apply (right_id True (∧))|]. apply (performs_if_bind w _ _ []).
  { unfold create_period_only_value, needs_old.
    destruct (quota cpu), (period cpu); try (apply performs_if_ok; [by intros [? [? ?]]|apply performs_ret]).
    eapply performs_if_iff; [apply (right_id True (∧))|]. apply (performs_if_bind w _ _ []);
      [|intros; apply performs_if_ok, performs_ret; done].
    split; [apply emits_map_err, emits_read|split].
    - intros s w' Hr%io_map_err_Ok _. apply read_cgroup_file_Ok in Hr as [-> _]. done.
    - intros Hf. by apply performs_map_err, performs_read, Hf. }
  intros v w1 Hv.
  assert (v = cpu_max cpu old) as ->.
  { unfold cpu_max. destruct (quota cpu) eqn:Hq, (period cpu) eqn:Hp; try by injection Hv as <- _.
    unfold create_period_only_value in Hv. apply io_bind_Ok in Hv as (s & w2 & Hr%io_map_err_Ok & Hv).
    injection Hv as <- _. apply read_cgroup_file_Ok in Hr as [Hrd _].
    destruct Hold as [Hold|Hold]; [by split; [|rewrite Hp]|..]; rewrite Hold in Hrd; simplify_eq.
    by destruct (split_whitespace s). }
  apply performs_if_ok; [done|].
  apply performs_bind; [|intros _ w2 _; apply performs_bind; [|intros _ w3 _]];
    apply performs_when_some; intros; apply performs_map_err;
    apply performs_write_str || apply performs_write_file.
Qed.

(** The sections that are accepted: without real-time scheduling, and with the limit in force
    to be read if it is needed. *)
Definition accepted (w : fs) (path : Path) (cpu : LinuxCpu) : Prop :=
  realtime cpu = false ∧ (needs_old cpu → is_Some (files w !! join_name_of path CGROUP_CPU_MAX)).

Lemma cpu_apply_performs w path cpu :
  (∀ s, shares cpu = Some s → 0 ≤ s) → stable (kernel w) →
  (∀ n d m, kernel w n (join_name_of path CGROUP_CPU_WEIGHT) d m
              !! join_name_of path CGROUP_CPU_MAX
            = m !! join_name_of path CGROUP_CPU_MAX) →
  performs_if w (accepted w path cpu)
    (plan path cpu (default "" (files w !! join_name_of path CGROUP_CPU_MAX))) (apply path cpu).
Proof.
  intros Hs Hst Hk. unfold apply, plan, accepted. apply (performs_if_bind w _ _ []).
  { match goal with |- performs_if _ _ _ (pure ?r) =>
      assert (r = if realtime cpu then Err RealtimeV2 else Ok ()) as -> end.
    { unfold realtime, is_realtime_requested. by destruct (realtime_period cpu), (realtime_runtime cpu). }
    destruct (realtime cpu); [apply performs_if_refused; [done|by eexists]|].
    apply performs_if_ok; [done|]. by apply performs_pure. }
  intros u w0 Hw0. apply (f_equal snd) in Hw0. cbn in Hw0. subst w0.
  eapply performs_if_iff; [apply (left_id True (∧))|].
  assert (performs w (from_option (weight_plan path) [] (shares cpu))
    (when_some (shares cpu) (λ shares,
        let shares := convert_shares_to_cgroup2 shares in
        if negb (shares =? 0)
        then io_map_err CpuWrappedIo (write_cgroup_file (join_name_of path CGROUP_CPU_WEIGHT) shares)
        else mret ()))) as Hweight.
  { apply performs_when_some. intros s Hcs. specialize (Hs s Hcs). unfold weight_plan.
    destruct (convert_range s Hs) as [[-> ->]|[Hpos Hr]]; [apply performs_ret|].
    rewrite !(proj2 (Z.eqb_neq _ _)) by lia. apply performs_map_err, performs_write_file. }
  apply performs_if_bind; [by apply performs_if_ok|]. intros u1 w1 Hw1.
  assert (files w1 !! join_name_of path CGROUP_CPU_MAX = files w !! join_name_of path CGROUP_CPU_MAX) as Hsame.
  { unfold when_some, mret, io_ret in Hw1.
    destruct (shares cpu) as [s|]; [|by simplify_eq/=].
    destruct (negb _); [|by simplify_eq/=]. apply io_map_err_Ok in Hw1.
    destruct u1. apply write_cgroup_file_str_Ok in Hw1 as ->. apply Hk. }
  rewrite <- Hsame. apply max_performs. intros _. destruct (files w1 !! _); [by left|by right].
Qed.
End cpu.
End Cpu.

(** ** [cpuset.rs] and [pids.rs] *)

Module CpuSet.
Definition CGROUP_CPUSET_CPUS : string := "cpuset.cpus".
Definition CGROUP_CPUSET_MEMS : string := "cpuset.mems".

Definition apply (path : Path) (cpuset : LinuxCpu) : wio () :=
  _ ← when_some (cpus cpuset) (λ cpus,
        write_cgroup_file_str (join_name_of path CGROUP_CPUSET_CPUS) cpus);
  when_some (mems cpuset) (λ mems,
        write_cgroup_file_str (join_name_of path CGROUP_CPUSET_MEMS) mems).

Definition plan (path : Path) (c : LinuxCpu) : list write :=
  from_option (λ v, [(join_name_of path CGROUP_CPUSET_CPUS, v)]) [] (cpus c)
  ++ from_option (λ v, [(join_name_of path CGROUP_CPUSET_MEMS, v)]) [] (mems c).

Lemma cpuset_apply_performs w path c : performs w (plan path c) (apply path c).
Proof.
  apply performs_bind; [|intros _ w' _]; apply performs_when_some; intros;
    apply performs_write_str.
Qed.
End CpuSet.

Module Pids.
(** [limit] is an [i64]: 0 means 1, a negative limit is no limit. *)
Definition apply (root_path : Path) (pids_limit : Z) : wio () :=
  let limit := if pids_limit =? 0 then "1"
               else if 1 <=? pids_limit then pretty pids_limit else "max" in
  write_cgroup_file_str (join_name_of root_path "pids.max") limit.

Definition plan (path : Path) (l : Z) : list write :=
  [(join_name_of path "pids.max", if l <? 0 then "max" else pretty (Z.max 1 l))].

Lemma pids_apply_performs w path l : performs w (plan path l) (apply path l).
Proof.
  unfold plan, apply. destruct (Z.eqb_spec l 0) as [->|]; [apply performs_write_str|].
  destruct (Z.leb_spec 1 l); destruct (Z.ltb_spec l 0); try lia;
    [rewrite Z.max_r by lia|]; apply performs_write_str.
Qed.
End Pids.

(** ** [memory.rs] *)

Module Memory.
Definition CGROUP_MEMORY_SWAP : string := "memory.swap.max".
Definition CGROUP_MEMORY_MAX : string := "memory.max".
Definition CGROUP_MEMORY_LOW : string := "memory.low".

Inductive V2MemoryControllerError : Type :=
  | MemoryWrappedIo (e : WrappedIoError)
  | MemoryValue (v : Z)
  | SwapValue (v : Z)
  | SwapTooSmall (swap limit : Z)
  | SwapWithoutLimit
  | MemoryReservation (v : Z).

Definition set (path : Path) (val : Z) : wio () :=
  if val =? 0 then mret ()
  else if val =? -1 then write_cgroup_file_str path "max"
  else write_cgroup_file path val.

Definition set_swap (path : Path) (val : Z) : wio () := λ w,
  let swap_path := join_name_of path CGROUP_MEMORY_SWAP in
  match (if val =? -1 then write_cgroup_file_str swap_path "max"
         else write_cgroup_file swap_path val) w with
  | (Err err, w) =>
      if negb ((val =? -1) || (val =? 0)) || negb (is_not_found (inner err))
      then (Err err, w) else (Ok (), w)
  | r => r
  end.

Definition apply (path : Path) (memory : LinuxMemory) : io fs V2MemoryControllerError () :=
  if negb (bool_decide (is_Some (reservation memory)))
     && negb (bool_decide (is_Some (limit memory)))
     && negb (bool_decide (is_Some (swap memory)))
  then mret ()
  else
    _ ← match limit memory with
        | Some limit =>
            if limit <? -1 then pure (Err (MemoryValue limit))
            else
              match swap memory with
              | Some swap =>
                  if swap <? -1 then pure (Err (SwapValue swap))
                  else
                    _ ← (if (swap =? -1) || (limit =? -1) then
                           if negb (swap =? 0)
                           then io_map_err MemoryWrappedIo (set_swap path swap) else mret ()
                         else if swap <? limit then pure (Err (SwapTooSmall swap limit))
                         else if negb (swap =? 0)
                         then io_map_err MemoryWrappedIo (set_swap path (swap - limit))
                         else mret ());
                    io_map_err MemoryWrappedIo (set (join_name_of path CGROUP_MEMORY_MAX) limit)
              | None =>
                  _ ← (if limit =? -1 then io_map_err MemoryWrappedIo (set_swap path (-1))
                       else mret ());
                  io_map_err MemoryWrappedIo (set (join_name_of path CGROUP_MEMORY_MAX) limit)
              end
        | None =>
            if bool_decide (is_Some (swap memory)) then pure (Err SwapWithoutLimit)
            else mret ()
        end;
    when_some (reservation memory) (λ reservation,
      if reservation <? -1 then pure (Err (MemoryReservation reservation))
      else io_map_err MemoryWrappedIo (set (join_name_of path CGROUP_MEMORY_LOW) reservation)).

(** ** What the configuration asks for

    The runtime specification counts memory and swap together, cgroup v2 apart. *)

(** The configurations that are refused. *)
Definition refused (m : LinuxMemory) : option V2MemoryControllerError :=
  match limit m, swap m with
  | None, Some _ => Some SwapWithoutLimit
  | None, None => None
  | Some l, s =>
      if l <? -1 then Some (MemoryValue l)
      else match s with
           | None => None
           | Some s =>
               if s <? -1 then Some (SwapValue s)
               else if (0 <=? s) && (0 <=? l) && (s <? l) then Some (SwapTooSmall s l)
               else None
           end
  end.

(** The swap limit in force: memory and swap together less memory, or no limit. *)
Definition swap_target (m : LinuxMemory) : option Z :=
  match limit m, swap m with
  | Some l, Some s =>
      if s =? 0 then None
      else if (s =? -1) || (l =? -1) then Some s else Some (s - l)
  | Some l, None => if l =? -1 then Some (-1) else None
  | None, _ => None
  end.

Definition limit_str (v : Z) : string := if v =? -1 then "max" else pretty v.

Definition set_plan (path : Path) (v : Z) : list write :=
  if v =? 0 then [] else [(path, limit_str v)].

(** No write for swap that is disabled or without limit, where there is no swap file. *)
Definition swap_plan (path : Path) (w : fs) (v : Z) : list write :=
  let p := join_name_of path CGROUP_MEMORY_SWAP in
  if ((v =? -1) || (v =? 0)) && negb (bool_decide (is_Some (files w !! p))) then [] else [(p, limit_str v)].

Definition limits_plan (path : Path) (w : fs) (m : LinuxMemory) : list write :=
  from_option (swap_plan path w) [] (swap_target m)
  ++ from_option (set_plan (join_name_of path CGROUP_MEMORY_MAX)) [] (limit m).

Definition plan (path : Path) (w : fs) (m : LinuxMemory) : list write :=
  limits_plan path w m
  ++ from_option (set_plan (join_name_of path CGROUP_MEMORY_LOW)) [] (reservation m).

(** The configurations that are accepted. *)
Definition accepted (m : LinuxMemory) : Prop :=
  refused m = None ∧ ∀ r, reservation m = Some r → -1 ≤ r.

Lemma set_performs w path v : performs w (set_plan path v) (set path v).
Proof.
  unfold set_plan, set, limit_str. destruct (v =? 0); [apply performs_ret|].
  destruct (v =? -1); [apply performs_write_str|apply performs_write_file].
Qed.

Lemma set_swap_performs w path v :
  (∀ n op, refuse w n op ≠ Some ENOENT) → performs w (swap_plan path w v) (set_swap path v).
Proof.
  intros Hn. set (p := join_name_of path CGROUP_MEMORY_SWAP).
  assert ((if v =? -1 then write_cgroup_file_str p "max" else write_cgroup_file p v)
          = write_cgroup_file_str p (limit_str v)) as Heq
    by (unfold limit_str; by destruct (v =? -1)).
  destruct (performs_write_str w p (limit_str v)) as [He Hc].
  unfold performs, emits, set_swap, swap_plan in *. fold p. rewrite Heq.
  case_bool_decide as Hf; cbn [negb]; rewrite ?andb_false_r, ?andb_true_r.
  - destruct (write_cgroup_file_str p (limit_str v) w) as [[[]|e|] w1] eqn:Hw; [by eauto| |done].
    assert (is_not_found (inner e) = false) as -> by (by apply (not_found_write w p (limit_str v) e w1)).
    rewrite orb_true_r. split; [done|]. intros Hr. by destruct (Hc Hr) as (? & ? & ?).
  - assert (∃ n, write_cgroup_file_str p (limit_str v) w = (Err (WOpen (OsError n) p), tick w) ∧
      ((∀ n op, refuse w n op = None) → n = ENOENT)) as (n & Hw & Hno).
    { unfold write_cgroup_file_str, os_open, attempt, act, io_map_err, mbind, io_bind.
      destruct (refuse w (clock w) (OpOpen p)) as [n|] eqn:Hr; cbn; [|rewrite bool_decide_eq_false_2 by done]; cbn.
      - exists n. split; [done|]. intros H0. by rewrite H0 in Hr.
      - by exists ENOENT. }
    rewrite Hw in *. destruct ((v =? -1) || (v =? 0)); cbn [negb orb andb inner].
    + destruct (negb (is_not_found (OsError n))) eqn:Hnf; cbn.
      * split; [exists 0%nat; exact (wrote_nil w)|]. intros (H0 & _). by rewrite (Hno H0) in Hnf.
      * split; [exact (wrote_nil w)|]. eauto.
    + split; [done|]. intros (_ & _ & [Hp _]%Forall_cons). done.
Qed.

Lemma memory_apply_refused w path m e : refused m = Some e → apply path m w = (Err e, w).
Proof.
  unfold refused, apply. destruct m as [l r s]. cbn [limit swap reservation].
  destruct l as [l|], s as [s|]; intros Hr; try done.
  - rewrite (bool_decide_eq_true_2 (is_Some (Some l))) by done. rewrite andb_false_r. cbn [andb].
    destruct (Z.ltb_spec l (-1)); simplify_eq; [done|].
    destruct (Z.ltb_spec s (-1)); simplify_eq; [done|].
    destruct (Z.leb_spec 0 s), (Z.leb_spec 0 l); cbn in Hr; try done.
    destruct (Z.ltb_spec s l); simplify_eq.
    rewrite (proj2 (Z.eqb_neq s (-1))), (proj2 (Z.eqb_neq l (-1))) by lia. cbn [orb].
    done.
  - rewrite (bool_decide_eq_true_2 (is_Some (Some l))) by done. rewrite andb_false_r. cbn [andb].
    destruct (Z.ltb_spec l (-1)); simplify_eq; done.
  - injection Hr as <-. rewrite (bool_decide_eq_true_2 (is_Some (Some s))) by done. by rewrite andb_false_r.
Qed.

(** The swap limit and the memory limit, for a configuration that is not refused. *)
Definition apply_limits (path : Path) (memory : LinuxMemory) : io fs V2MemoryControllerError () :=
  apply path (MkMemory (limit memory) None (swap memory) None None None).

Lemma apply_limits_eq path m w :
  apply path m w =
  (_ ← apply_limits path m;
   when_some (reservation m) (λ reservation,
     if reservation <? -1 then pure (Err (MemoryReservation reservation))
     else io_map_err MemoryWrappedIo (set (join_name_of path CGROUP_MEMORY_LOW) reservation))) w.
Proof.
  assert (∀ (L R : io fs V2MemoryControllerError ()) w, (_ ← L; R) w = (_ ← (_ ← L; mret ()); R) w) as Hassoc.
  { intros L R w'. unfold mbind, io_bind. by destruct (L w') as [[[]|e|] ?]. }
  unfold apply_limits, apply. cbn [limit swap reservation].
  destruct (limit m) as [l|], (swap m) as [s|], (reservation m) as [r|]; try apply Hassoc; done.
Qed.

Lemma apply_limits_performs w path m :
  refused m = None → (∀ n op, refuse w n op ≠ Some ENOENT) →
  performs w (limits_plan path w m) (apply_limits path m).
Proof.
  intros Href Hn. unfold apply_limits, apply, limits_plan. cbn [limit swap reservation].
  destruct (negb _ && _ && _) eqn:Hnone.
  { unfold swap_target. destruct (limit m) as [l|], (swap m) as [s|]; cbn in Hnone; try done. apply performs_ret. }
  clear Hnone. rewrite <- (app_nil_r (_ ++ _)). apply performs_bind; [|intros _ w' _; apply performs_ret].
  unfold refused in Href. unfold swap_target in *. destruct (limit m) as [l|], (swap m) as [s|];
    try done; [..|apply performs_ret].
  - destruct (Z.ltb_spec l (-1)); [done|]. destruct (Z.ltb_spec s (-1)); [done|].
    apply performs_bind; [|intros; apply performs_map_err, set_performs].
    destruct (Z.eqb_spec s 0) as [->|].
    + destruct (Z.eqb_spec l (-1)); cbn; [apply performs_ret|].
      destruct (Z.leb_spec 0 l); [|lia]. cbn in Href. destruct (Z.ltb_spec 0 l); [done|].
      apply performs_ret.
    + destruct ((s =? -1) || (l =? -1)) eqn:Hm1; cbn; [by apply performs_map_err, set_swap_performs|].
      apply orb_false_iff in Hm1 as [?%Z.eqb_neq ?%Z.eqb_neq].
      destruct (Z.leb_spec 0 s), (Z.leb_spec 0 l); try lia. cbn in Href.
      destruct (Z.ltb_spec s l); [done|]. by apply performs_map_err, set_swap_performs.
  - destruct (Z.ltb_spec l (-1)); [done|].
    apply performs_bind; [|intros; apply performs_map_err, set_performs].
    destruct (l =? -1); [by apply performs_map_err, set_swap_performs|apply performs_ret].
Qed.

Lemma memory_apply_performs w path m :
  (∀ n op, refuse w n op ≠ Some ENOENT) →
  performs_if w (accepted m) (plan path w m) (apply path m).
Proof.
  intros Hn. unfold accepted. destruct (refused m) as [e|] eqn:Href.
  { apply performs_if_refused; [by intros [? _]|]. exists e. by apply memory_apply_refused. }
  eapply performs_if_iff; [symmetry; apply (left_id True (∧)) || (split; [by intros [_ ?]|by split])|].
  unfold performs_if, emits, plan. rewrite apply_limits_eq.
  eapply performs_if_iff; [apply (left_id True (∧))|].
  apply performs_if_bind; [by apply performs_if_ok, apply_limits_performs|]. intros _ w' _.
  apply performs_if_when_some. intros r _. destruct (Z.ltb_spec r (-1)).
  - apply performs_if_refused; [lia|]. by eexists.
  - apply performs_if_ok; [lia|]. apply performs_map_err, set_performs.
Qed.

(** A reservation below -1 is refused after the limits have been written. *)
Lemma memory_reservation_refused w path m r :
  (∀ n op, refuse w n op ≠ Some ENOENT) → refused m = None → reservation m = Some r → r < -1 →
  ready (limits_plan path w m) w →
  ∃ w', apply path m w = (Err (MemoryReservation r), w') ∧ wrote (limits_plan path w m) w w'.
Proof.
  intros Hn Href Hr Hlt Hready. destruct (apply_limits_performs w path m Href Hn) as [He Hc].
  destruct (Hc Hready) as ([] & w' & Hm). exists w'. rewrite apply_limits_eq.
  rewrite (io_bind_run _ _ _ _ _ Hm), Hr. cbn. rewrite (proj2 (Z.ltb_lt _ _)) by done.
  split; [done|]. by eapply emits_Ok.
Qed.
End Memory.

(** ** [hugetlb.rs] *)

Module HugeTlb.
Inductive V2HugeTlbControllerError : Type :=
  | HugeTlbWrappedIo (e : WrappedIoError)
  | MalformedPageSize (page_size : string) (err : IntErrorKind + ()).

(** [MustBePowerOfTwo] is the right side of the error. *)
Definition is_power_of_two (number : Z) : bool :=
  negb (number =? 0) && (Z.land number (Z.max 0 (number - 1)) =? 0).

Definition page_size_raw (h : LinuxHugepageLimit) : string :=
  of_chars (take_while is_ascii_digit (chars (page_size h))).

Definition apply (root_path : Path) (hugetlb : LinuxHugepageLimit) :
    io fs V2HugeTlbControllerError () :=
  let raw := page_size_raw hugetlb in
  size ← pure (map_err (λ err, MalformedPageSize raw (inl err)) (parse_unsigned 64 raw));
  if negb (is_power_of_two size) then pure (Err (MalformedPageSize raw (inr ())))
  else
    _ ← io_map_err HugeTlbWrappedIo
      (write_cgroup_file (join_name_of root_path ("hugetlb." +:+ page_size hugetlb +:+ ".max"))
         (hp_limit hugetlb));
    let rsvd_file_path :=
      join_name_of root_path ("hugetlb." +:+ page_size hugetlb +:+ ".rsvd.max") in
    if_exists rsvd_file_path
      (io_map_err HugeTlbWrappedIo (write_cgroup_file rsvd_file_path (hp_limit hugetlb)))
      (mret ()).

Lemma is_power_of_two_spec n : 0 ≤ n → is_power_of_two n = true ↔ ∃ k, 0 ≤ k ∧ n = 2 ^ k.
Proof.
  intros Hn. unfold is_power_of_two. rewrite andb_true_iff, negb_true_iff, Z.eqb_neq, Z.eqb_eq.
  split.
  - intros [Hnz Hland]. exists (Z.log2 n). split; [apply Z.log2_nonneg|].
    destruct (decide (n = 2 ^ Z.log2 n)) as [|Hne]; [done|exfalso].
    destruct (Z.log2_spec n) as [Hlo Hhi]; [lia|]. rewrite Z.max_r in Hland by lia.
    assert (Z.log2 (n - 1) = Z.log2 n) as Hlog.
    { apply Z.log2_unique; [apply Z.log2_nonneg|lia]. }
    assert (Z.testbit (Z.land n (n - 1)) (Z.log2 n) = true) as Hbit.
    { rewrite Z.land_spec, Z.bit_log2 by lia. rewrite <- Hlog.
      rewrite Z.bit_log2; [done|]. pose proof (Z.log2_nonneg n).
      assert (1 ≤ 2 ^ Z.log2 n) by (apply (Z.pow_le_mono_r 2 0); lia). lia. }
    by rewrite Hland, Z.bits_0 in Hbit.
  - intros (k & Hk & ->). assert (1 ≤ 2 ^ k) by (apply (Z.pow_le_mono_r 2 0); lia).
    split; [lia|]. rewrite Z.max_r by lia.
    replace (2 ^ k - 1) with (Z.ones k) by (rewrite Z.ones_equiv; lia).
    rewrite Z.land_ones by lia. apply Z.mod_same. lia.
Qed.

(** The size prefix of a huge page name is a power of two. *)
Definition well_formed (h : LinuxHugepageLimit) : Prop :=
  ∃ k, 0 ≤ k ∧ parse_unsigned 64 (page_size_raw h) = Ok (2 ^ k).

Definition plan (path : Path) (w : fs) (h : LinuxHugepageLimit) : list write :=
  let rsvd := join_name_of path ("hugetlb." +:+ page_size h +:+ ".rsvd.max") in
  (join_name_of path ("hugetlb." +:+ page_size h +:+ ".max"), pretty (hp_limit h))
  :: (if exists_ rsvd w then [(rsvd, pretty (hp_limit h))] else []).

(** The limit, and the same value in the reservation file when there is one. *)
Lemma performs_pair {E} w (f : WrappedIoError → E) p q d :
  stable (kernel w) →
  performs w ((p, d) :: (if exists_ q w then [(q, d)] else []))
    (_ ← io_map_err f (write_cgroup_file_str p d);
     if_exists q (io_map_err f (write_cgroup_file_str q d)) (mret ())).
Proof.
  intros Hst. apply (performs_bind w [_]); [apply performs_map_err, performs_write_str|].
  intros u w1 Hw1.
  pose proof (performs_emits _ _ _ (performs_map_err w _ f _ (performs_write_str w p d))) as Hem.
  apply (emits_Ok _ _ _ _ _ Hem) in Hw1. rewrite <- (exists_wrote _ _ _ q Hw1 Hst).
  unfold performs, emits, if_exists. destruct (exists_ q w1);
    [apply performs_map_err, performs_write_str|apply (performs_ret w1 ())].
Qed.

Lemma hugetlb_apply_performs w path h :
  stable (kernel w) → well_formed h → performs w (plan path w h) (apply path h).
Proof.
  intros Hst (k & Hk & Hp). unfold apply, plan. apply (performs_bind w []).
  { apply performs_pure. by rewrite Hp. }
  intros size w0 Hs. rewrite Hp in Hs. injection Hs as <- <-.
  rewrite (proj2 (is_power_of_two_spec (2 ^ k) ltac:(lia))) by (by exists k).
  by apply performs_pair.
Qed.

Lemma page_size_cases h :
  ¬ well_formed h →
  (∃ size, parse_unsigned 64 (page_size_raw h) = Ok size ∧ is_power_of_two size = false) ∨
  (∃ e, parse_unsigned 64 (page_size_raw h) = Err e).
Proof.
  intros Hwf. destruct (parse_unsigned 64 (page_size_raw h)) as [size|e|] eqn:Hp; [left|right; eauto|].
  - exists size. split; [done|]. destruct (is_power_of_two size) eqn:H2; [exfalso|done].
    apply is_power_of_two_spec in H2 as (k & Hk & ->); [by apply Hwf; exists k|].
    by eapply parse_unsigned_nonneg.
  - by destruct (parse_unsigned_no_panic _ _ Hp).
Qed.

(** Any other page size is refused and nothing is written. *)
Lemma hugetlb_apply_refused w path h :
  ¬ well_formed h → ∃ e, apply path h w = (Err (MalformedPageSize (page_size_raw h) e), w).
Proof.
  intros [(size & Hp & H2)|[e Hp]]%page_size_cases; unfold apply, mbind, io_bind, pure;
    rewrite Hp; cbn; [rewrite H2|]; by eexists.
Qed.

#[local] Instance well_formed_dec h : Decision (well_formed h).
Proof.
  destruct (parse_unsigned 64 (page_size_raw h)) as [size|e|] eqn:Hp.
  - destruct (is_power_of_two size) eqn:H2; [left|right].
    + assert (0 ≤ size) by (by eapply parse_unsigned_nonneg).
      apply is_power_of_two_spec in H2 as (k & Hk & ->); [|done]. by exists k.
    + intros (k & Hk & Heq). simplify_eq. enough (is_power_of_two (2 ^ k) = true) by congruence.
      apply is_power_of_two_spec; [lia|]. by exists k.
  - right. intros (k & Hk & Heq). congruence.
  - right. intros (k & Hk & Heq). congruence.
Qed.

Lemma hugetlb_apply_if w path h :
  stable (kernel w) → performs_if w (well_formed h) (plan path w h) (apply path h).
Proof.
  intros Hs. destruct (decide (well_formed h)).
  - by apply performs_if_ok, hugetlb_apply_performs.
  - apply performs_if_refused; [done|]. destruct (hugetlb_apply_refused w path h) as [e He]; [done|]. eauto.
Qed.
End HugeTlb.

(** ** [io.rs] *)

Module Io.
Definition CGROUP_BFQ_IO_WEIGHT : string := "io.bfq.weight".
Definition CGROUP_IO_WEIGHT : string := "io.weight".

Inductive V2IoControllerError : Type :=
  | IoWrappedIo (e : WrappedIoError)
  | LeafWeight
  | InvalidWeight (w : Z).

(** [(1 + (u32::from(v) - 10) * 9999 / 990) as u16], with the wrap-around of
    [u32] and [u16] arithmetic *)
Definition convert_cfq_io_weight_to_bfq (v : Z) : Z :=
  if v =? 0 then 0
  else uwrap 16 (1 + uwrap 32 (uwrap 32 (v - 10) * 9999) / 990).

Definition io_max_path (path : Path) : Path := join_name_of path "io.max".

Definition device (major minor : Z) : string := pretty major +:+ ":" +:+ pretty minor.

Definition throttle (root_path : Path) (what : string) (o : option (list LinuxThrottleDevice)) :
    io fs V2IoControllerError () :=
  when_some o (λ l, for_in l (λ d,
    io_map_err IoWrappedIo (write_cgroup_file_str (io_max_path root_path)
      (device (td_major d) (td_minor d) +:+ " " +:+ what +:+ "=" +:+ pretty (td_rate d))))).

Definition apply (root_path : Path) (blkio : LinuxBlockIo) : io fs V2IoControllerError () :=
  _ ← pure (if default 0 (leaf_weight blkio) >? 0 then Err LeafWeight else Ok ());
  _ ← when_some (weight blkio) (λ io_weight,
        if negb (io_weight =? 0) then
          if negb ((10 <=? io_weight) && (io_weight <=? 1000))
          then pure (Err (InvalidWeight io_weight))
          else
            let cgroup_file := join_name_of root_path CGROUP_BFQ_IO_WEIGHT in
            if_exists cgroup_file
              (io_map_err IoWrappedIo (write_cgroup_file cgroup_file io_weight))
              (io_map_err IoWrappedIo
                 (write_cgroup_file (join_name_of root_path CGROUP_IO_WEIGHT)
                    (convert_cfq_io_weight_to_bfq io_weight)))
        else mret ());
  _ ← when_some (weight_device blkio) (λ l, for_in l (λ wd,
        when_some (wd_weight wd) (λ weight,
          io_map_err IoWrappedIo
            (write_cgroup_file_str (join_name_of root_path CGROUP_BFQ_IO_WEIGHT)
               (device (wd_major wd) (wd_minor wd) +:+ " " +:+ pretty weight)))));
  _ ← throttle root_path "rbps" (throttle_read_bps_device blkio);
  _ ← throttle root_path "wbps" (throttle_write_bps_device blkio);
  _ ← throttle root_path "riops" (throttle_read_iops_device blkio);
  throttle root_path "wiops" (throttle_write_iops_device blkio).

(** ** What the configuration asks for *)

Definition weight_ok (v : Z) : bool := (v =? 0) || ((10 <=? v) && (v <=? 1000)).

Definition accepted (b : LinuxBlockIo) : bool :=
  negb (default 0 (leaf_weight b) >? 0) && weight_ok (default 0 (weight b)).

Definition weight_plan (path : Path) (w : fs) (v : Z) : list write :=
  if v =? 0 then []
  else if exists_ (join_name_of path CGROUP_BFQ_IO_WEIGHT) w
  then [(join_name_of path CGROUP_BFQ_IO_WEIGHT, pretty v)]
  else [(join_name_of path CGROUP_IO_WEIGHT, pretty (1 + (v - 10) * 9999 / 990))].

Definition device_weight_plan (path : Path) (wd : LinuxWeightDevice) : list write :=
  from_option (λ v, [(join_name_of path CGROUP_BFQ_IO_WEIGHT,
                      device (wd_major wd) (wd_minor wd) +:+ " " +:+ pretty v)])
    [] (wd_weight wd).

Definition throttle_plan (path : Path) (what : string) (d : LinuxThrottleDevice) : list write :=
  [(io_max_path path,
    device (td_major d) (td_minor d) +:+ " " +:+ what +:+ "=" +:+ pretty (td_rate d))].

Definition plan (path : Path) (w : fs) (b : LinuxBlockIo) : list write :=
  from_option (weight_plan path w) [] (weight b)
  ++ from_option (λ l, l ≫= device_weight_plan path) [] (weight_device b)
  ++ from_option (λ l, l ≫= throttle_plan path "rbps") [] (throttle_read_bps_device b)
  ++ from_option (λ l, l ≫= throttle_plan path "wbps") [] (throttle_write_bps_device b)
  ++ from_option (λ l, l ≫= throttle_plan path "riops") [] (throttle_read_iops_device b)
  ++ from_option (λ l, l ≫= throttle_plan path "wiops") [] (throttle_write_iops_device b).

(** In the range that is accepted, the conversion is the linear map from
    [10, 1000] onto [1, 10000], without wrap-around. *)
Lemma convert_weight v :
  10 ≤ v ≤ 1000 →
  convert_cfq_io_weight_to_bfq v = 1 + (v - 10) * 9999 / 990 ∧
  1 ≤ convert_cfq_io_weight_to_bfq v ≤ 10000.
Proof.
  intros Hv. unfold convert_cfq_io_weight_to_bfq.
  rewrite (proj2 (Z.eqb_neq v 0)) by lia.
  assert (0 ≤ (v - 10) * 9999 / 990 ≤ 9999).
  { split; [apply Z.div_pos; lia|]. apply Z.div_le_upper_bound; lia. }
  rewrite (uwrap_small 32 (v - 10)), (uwrap_small 32), (uwrap_small 16)
    by (unfold in_u; lia). lia.
Qed.

Lemma throttle_performs w path what o :
  performs w (from_option (λ l, l ≫= throttle_plan path what) [] o) (throttle path what o).
Proof.
  apply performs_when_some. intros l _. apply performs_for_in. intros w' d _.
  apply performs_map_err, performs_write_str.
Qed.

Lemma io_apply_performs w path b : accepted b = true → performs w (plan path w b) (apply path b).
Proof.
  intros [Hl Hw]%andb_true_iff. unfold apply, plan. apply (performs_bind w []).
  { apply performs_pure. by destruct (_ >? _). }
  intros u w0 Hw0. apply (f_equal snd) in Hw0. cbn in Hw0. subst w0.
  apply performs_bind; [|intros _ w1 _; apply performs_bind].
  - apply performs_when_some. intros v Hv. rewrite Hv in Hw. cbn in Hw. unfold weight_plan.
    unfold weight_ok in Hw. destruct (Z.eqb_spec v 0); [apply performs_ret|].
    cbn [orb negb] in *. rewrite Hw. apply andb_true_iff in Hw as [?%Z.leb_le ?%Z.leb_le].
    cbn [negb]. destruct (convert_weight v) as [<- _]; [lia|].
    unfold performs, emits, if_exists. destruct (exists_ _ w);
      apply performs_map_err, performs_write_file.
  - apply performs_when_some. intros l _. apply performs_for_in. intros w' d _.
    apply (performs_when_some w' (λ v, [(_, _)])). intros v _.
    apply performs_map_err, performs_write_str.
  - intros _ w2 _. repeat (apply performs_bind; [|intros ???]); apply throttle_performs.
Qed.

Lemma io_apply_refused w path b :
  accepted b = false → ∃ e, apply path b w = (Err e, w).
Proof.
  unfold accepted. intros [Hl|Hw]%andb_false_iff.
  - apply negb_false_iff in Hl. unfold apply, pure, mbind, io_bind. rewrite Hl. by eexists.
  - unfold apply, pure, mbind, io_bind. destruct (default 0 (leaf_weight b) >? 0); [by eexists|].
    destruct (weight b) as [v|]; [|done]. cbn in Hw. unfold weight_ok in Hw.
    apply orb_false_iff in Hw as [Hz Hw]. cbn. rewrite Hz, Hw. by eexists.
Qed.

Lemma io_apply_if w path b : performs_if w (accepted b = true) (plan path w b) (apply path b).
Proof.
  destruct (accepted b) eqn:Hb; [by apply performs_if_ok, io_apply_performs|].
  apply performs_if_refused; [done|]. by apply io_apply_refused.
Qed.
End Io.

(** ** [unified.rs] *)

Module Unified.
Inductive V2UnifiedError : Type :=
  | UnifiedWrappedIo (e : WrappedIoError)
  | SubsystemNotAvailable (subsystem : string) (err : WrappedIoError)
  | InvalidFilename (filename : string)
  | InvalidFormat (filename : string).

Definition apply_one (cgroup_path : Path) (controllers : list string)
    (kv : string * string) : io fs V2UnifiedError () :=
  let '(cgroup_file, value) := kv in
  if contains_char "/"%char cgroup_file then pure (Err (InvalidFilename cgroup_file))
  else if negb (contains_char "."%char cgroup_file) || starts_with "." cgroup_file
  then pure (Err (InvalidFormat cgroup_file))
  else
    io_map_err (λ err,
      let subsystem := from_option fst cgroup_file (split_once "."%char cgroup_file) in
      if bool_decide (subsystem ∈ controllers) then UnifiedWrappedIo err
      else SubsystemNotAvailable subsystem err)
      (write_cgroup_file_by_line (join_name_of cgroup_path cgroup_file) value).

Definition apply_impl (unified : list (string * string)) (cgroup_path : Path)
    (controllers : list string) : io fs V2UnifiedError () :=
  for_in unified (apply_one cgroup_path controllers).

Definition valid_name (f : string) : bool :=
  negb (contains_char "/"%char f) && contains_char "."%char f && negb (starts_with "." f).

Definition plan_one (path : Path) (kv : string * string) : list write :=
  (join_name_of path kv.1,.) <$> split_inclusive LF kv.2.

Lemma write_by_line_performs w p data :
  performs_if w (is_Some (files w !! p)) ((p,.) <$> split_inclusive LF data) (write_cgroup_file_by_line p data).
Proof.
  unfold write_cgroup_file_by_line. eapply performs_if_iff; [apply (right_id True (∧))|].
  apply (performs_if_bind w _ _ []); [apply performs_if_map_err|].
  - split; [apply emits_open|]. split; [by intros a w' [? _]%os_open_Ok|].
    intros Hp (Hc & Hs & _). exists (), (tick w). apply (performs_open w p ""). split; [done|]. split; [done|].
    by apply Forall_singleton.
  - intros _ w' _. apply performs_if_ok; [done|]. apply performs_write_lines.
Qed.

(** A unified entry can only name a file directly in the container's cgroup. *)
Lemma valid_name_component f path : valid_name f = true → join_name_of path f = path ++ [Normal f].
Proof.
  intros [[Hs Hd]%andb_true_iff Hp]%andb_true_iff. apply negb_true_iff in Hs, Hp.
  apply bool_decide_eq_false in Hs. unfold join_name_of, components.
  rewrite split_on_none by done.
  assert (f ≠ "" ∧ f ≠ "." ∧ f ≠ "..") as (H1 & H2 & H3)
    by (repeat split; intros ->; done).
  rewrite (bool_decide_eq_false_2 (f = "")), (bool_decide_eq_false_2 (f = ".")) by done.
  unfold piece_component. rewrite !bool_decide_eq_false_2 by done. apply join_name.
Qed.

(** An entry that is accepted: it names a file that is there. *)
Definition accepted (w : fs) (path : Path) (kv : string * string) : Prop :=
  valid_name kv.1 = true ∧ is_Some (files w !! (path ++ [Normal kv.1])).

Lemma unified_apply_performs w0 w path cs u :
  stable (kernel w0) → agrees w0 w →
  performs_if w (Forall (accepted w0 path) u) (u ≫= plan_one path) (apply_impl u path cs).
Proof.
  intros Hst Ha. apply (performs_if_for_in w0); [done|]. clear w Ha. intros w [f v] Ha _.
  unfold accepted, apply_one, plan_one. cbn [fst snd].
  destruct (valid_name f) eqn:Hf.
  - eapply performs_if_iff; [|].
    2:{ pose proof Hf as Hf'. unfold valid_name in Hf'.
        apply andb_true_iff in Hf' as [[->%negb_true_iff ->]%andb_true_iff ->%negb_true_iff].
        apply performs_if_map_err, write_by_line_performs. }
    rewrite valid_name_component by done. rewrite (agrees_files w0) by done. tauto.
  - apply performs_if_refused; [by intros [? _]|]. unfold valid_name in Hf.
    destruct (contains_char "/" f); [by eexists|]. cbn in Hf.
    destruct (contains_char "." f), (starts_with "." f); cbn in *; try done; by eexists.
Qed.
End Unified.

(** ** Properties *)

(** C11: memory limits.  A limit, a swap limit or a pair of them that cannot be is refused with
    its error before anything is written.  Otherwise [apply] writes exactly the swap limit (the
    combined limit less the memory limit), the memory limit and the reservation that the
    configuration asks for, in this order, or a first part of them if the kernel refuses a
    write, and succeeds if the kernel refuses none.  Two exceptions: without a swap file, swap
    that is disabled or without limit is not written; and a reservation below -1 makes [apply]
    fail, but only after the two limits have been written.  The environment is one that reports
    no file as missing that is there. *)
Theorem memory_apply_spec w path m :
  (∀ n op, refuse w n op ≠ Some ENOENT) →
  (∀ e, Memory.refused m = Some e → Memory.apply path m w = (Err e, w)) ∧
  performs_if w (Memory.accepted m) (Memory.plan path w m) (Memory.apply path m) ∧
  (∀ r, Memory.refused m = None → reservation m = Some r → r < -1 → ready (Memory.limits_plan path w m) w →
   ∃ w', Memory.apply path m w = (Err (Memory.MemoryReservation r), w') ∧
         wrote (Memory.limits_plan path w m) w w').
Proof.
  intros Hn. split; [|split].
  - intros e. apply Memory.memory_apply_refused.
  - by apply Memory.memory_apply_performs.
  - intros r. by apply Memory.memory_reservation_refused.
Qed.

Definition example_cgroup : Path := components "/sys/fs/cgroup/c".

Definition example_memory : LinuxMemory :=
  MkMemory (Some 1048576) (Some 524288) (Some 1048576) None None None.

(** Without a swap file, the memory limit and the reservation are written. *)
Lemma memory_apply_spec_witness :
  performs_if (example_fs [(join_name_of example_cgroup "memory.max", "max")]) (Memory.accepted example_memory)
    [(join_name_of example_cgroup "memory.max", "1048576");
     (join_name_of example_cgroup "memory.low", "524288")]
    (Memory.apply example_cgroup example_memory).
Proof.
  apply (memory_apply_spec (example_fs [(join_name_of example_cgroup "memory.max", "max")])
    example_cgroup example_memory). done.
Defined.

(** CPU shares become a weight that the kernel accepts.  A shares value of 0
    leaves the weight unset; every other value, however large and whatever the
    floating-point curve gives, becomes a weight between 1 and 10000; the
    extremes of the v1 range are mapped to the extremes of the v2 range. *)
Theorem cpu_weight_range shares_curve s :
  0 ≤ s →
  (Cpu.convert_shares_to_cgroup2 shares_curve s = 0 ↔ s = 0) ∧
  (0 < s → 1 ≤ Cpu.convert_shares_to_cgroup2 shares_curve s ≤ Cpu.MAX_CPU_WEIGHT) ∧
  Cpu.convert_shares_to_cgroup2 shares_curve 2 = 1 ∧
  Cpu.convert_shares_to_cgroup2 shares_curve 262144 = 10000.
Proof.
  intros Hs. destruct (Cpu.convert_range shares_curve s Hs) as [[-> Hc]|[Hpos Hr]].
  - rewrite Hc. split; [done|]. split; [lia|done].
  - split; [lia|]. split; [done|done].
Qed.

Lemma cpu_weight_range_witness :
  1 ≤ Cpu.convert_shares_to_cgroup2 (λ s, s - 924) 1024 ≤ Cpu.MAX_CPU_WEIGHT.
Proof. apply cpu_weight_range; lia. Defined.

(** Block I/O weights.  On the accepted range the conversion to [io.weight]
    is the linear map onto 1 to 10000: it does not wrap around in its [u32] and
    [u16] arithmetic, it is monotone, and it maps the bounds to the bounds.
    Outside the range, and with a leaf weight, the controller reports an error
    and writes nothing. *)
Theorem io_weight_conversion :
  (∀ v, 10 ≤ v ≤ 1000 → Io.convert_cfq_io_weight_to_bfq v = 1 + (v - 10) * 9999 / 990) ∧
  (∀ v v', 10 ≤ v ≤ v' → v' ≤ 1000 →
     1 ≤ Io.convert_cfq_io_weight_to_bfq v ≤ Io.convert_cfq_io_weight_to_bfq v' ≤ 10000) ∧
  Io.convert_cfq_io_weight_to_bfq 10 = 1 ∧ Io.convert_cfq_io_weight_to_bfq 1000 = 10000 ∧
  (∀ w path b, Io.accepted b = false → ∃ e, Io.apply path b w = (Err e, w)).
Proof.
  split; [intros v Hv; by apply Io.convert_weight|]. split; [|split; [done|split; [done|]]].
  - intros v v' Hv Hv'. destruct (Io.convert_weight v) as [Hc Hr]; [lia|].
    destruct (Io.convert_weight v') as [Hc' Hr']; [lia|]. split; [lia|]. split; [|lia].
    rewrite Hc, Hc'. apply Zplus_le_compat_l, Z.div_le_mono; lia.
  - apply Io.io_apply_refused.
Qed.

(** Huge page limits.  The limit of a page size whose number is a power of
    two is written, to the reservation file too when the kernel has one; any
    other page size is refused and nothing is written. *)
Theorem hugetlb_apply_spec w path h :
  stable (kernel w) →
  (HugeTlb.well_formed h → performs w (HugeTlb.plan path w h) (HugeTlb.apply path h)) ∧
  (¬ HugeTlb.well_formed h →
   ∃ e, HugeTlb.apply path h w =
     (Err (HugeTlb.MalformedPageSize (HugeTlb.page_size_raw h) e), w)).
Proof.
  intros Hs. split; [by apply HugeTlb.hugetlb_apply_performs|apply HugeTlb.hugetlb_apply_refused].
Qed.

Lemma hugetlb_apply_spec_witness :
  performs (example_fs []) [(join_name_of example_cgroup "hugetlb.2MB.max", "4194304")]
    (HugeTlb.apply example_cgroup (MkHugepage "2MB" 4194304)).
Proof.
  apply (hugetlb_apply_spec (example_fs []) example_cgroup (MkHugepage "2MB" 4194304)).
  - apply (example_ready [] []). constructor.
  - exists 1. split; [lia|]. vm_compute. reflexivity.
Defined.
