(* ===== verification/V2Manager.v ===== *)
(** * V2Manager: the cgroup v2 manager

    Models [crates/libcgroups/src/v2/manager.rs], [v2/util.rs]
    ([get_available_controllers]), [v2/controller_type.rs] and [v2/freezer.rs]:
    creating a cgroup and moving a process into it, applying the limits of
    [V2Controllers], freezing, and removing the cgroup. *)
From S2P Require Import Prelude Text Paths CgroupFs CgroupTree V2Controllers.
Local Open Scope string_scope.
Local Open Scope list_scope.
Local Open Scope Z_scope.

(** ** Controllers ([controller_type.rs], [util.rs]) *)

Inductive ControllerType : Type := TCpu | TCpuSet | TIo | TMemory | THugeTlb | TPids.

#[global] Instance ControllerType_eq_dec : EqDecision ControllerType.
Proof. solve_decision. Defined.

(** [Display for ControllerType] *)
Definition controller_fmt (c : ControllerType) : string :=
  match c with
  | TCpu => "cpu" | TCpuSet => "cpuset" | TIo => "io"
  | TMemory => "memory" | THugeTlb => "hugetlb" | TPids => "pids"
  end.

Definition CONTROLLER_TYPES : list ControllerType :=
  [TCpu; TCpuSet; THugeTlb; TIo; TMemory; TPids].

Definition CGROUP_CONTROLLERS : string := "cgroup.controllers".
Definition CGROUP_SUBTREE_CONTROL : string := "cgroup.subtree_control".
Definition CGROUP_KILL : string := "cgroup.kill".

Inductive V2FreezerError : Type :=
  | FreezerWrappedIo (e : WrappedIoError)
  | NotSupported (e : WrappedIoError)
  | ExpectedToBe (expected actual : FreezerState)
  | UnknownState (state : string)
  | Timeout (ms : Z)
  | InvalidUtf8.

Inductive V2ManagerError : Type :=
  | WrappedIo (e : WrappedIoError)
  | ManagerJoinSafely (e : JoinSafelyError)
  | DoesNotExist (p : Path)
  | CpuController (e : Cpu.V2CpuControllerError)
  | CpuSetController (e : WrappedIoError)
  | HugeTlbController (e : HugeTlb.V2HugeTlbControllerError)
  | IoController (e : Io.V2IoControllerError)
  | MemoryController (e : Memory.V2MemoryControllerError)
  | PidsController (e : WrappedIoError)
  | UnifiedController (e : Unified.V2UnifiedError)
  | FreezerController (e : V2FreezerError)
  | DevicesController.

Abbreviation mio A := (io fs V2ManagerError A).

Definition controller_of (name : string) : option ControllerType :=
  if bool_decide (name = "cpu") then Some TCpu
  else if bool_decide (name = "cpuset") then Some TCpuSet
  else if bool_decide (name = "hugetlb") then Some THugeTlb
  else if bool_decide (name = "io") then Some TIo
  else if bool_decide (name = "memory") then Some TMemory
  else if bool_decide (name = "pids") then Some TPids
  else None.

Definition get_available_controllers (root_path : Path) : mio (list ControllerType) :=
  let controllers_path := join_name_of root_path CGROUP_CONTROLLERS in
  if_exists controllers_path
    (content ← io_map_err WrappedIo (read_cgroup_file controllers_path);
     mret (omap controller_of (split_whitespace content)))
    (pure (Err (DoesNotExist controllers_path))).

(** ** The manager *)

Record Manager : Type := MkManager {
  root_path : Path; cgroup_path : Path; full_path : Path; rootless : bool }.

Definition manager_new (root_path cgroup_path : Path) : outcome V2ManagerError Manager :=
  let cgroup_path := clean_cgroup_path cgroup_path in
  full_path ← map_err ManagerJoinSafely (join_safely root_path cgroup_path);
  Ok {| root_path := root_path; cgroup_path := cgroup_path; full_path := full_path;
        rootless := false |}.

Definition with_rootless (m : Manager) (r : bool) : Manager :=
  MkManager (root_path m) (cgroup_path m) (full_path m) r.

Definition is_permission_error (err : WrappedIoError) : bool :=
  bool_decide (raw_os_error (inner err) = Some EROFS)
  || bool_decide (raw_os_error (inner err) = Some EACCES).

(** Best effort: errors are ignored. *)
Fixpoint enable_controllers (path : Path) (controllers : list string) {E} : io fs E () :=
  match controllers with
  | [] => mret ()
  | controller :: controllers => λ w,
      let w' :=
        (write_cgroup_file_str (join_name_of path CGROUP_SUBTREE_CONTROL) controller w).2 in
      enable_controllers path controllers w'
  end.

Definition attach_pid (m : Manager) (pid : Z) : mio () := λ w,
  match write_cgroup_file (join_name_of (full_path m) CGROUP_PROCS) pid w with
  | (Ok _, w) => (Ok (), w)
  | (Err err, w) =>
      if rootless m && is_permission_error err then (Ok (), w) else (Err (WrappedIo err), w)
  | (Panic, w) => (Panic, w)
  end.

(** The loop over the components of the cgroup path; [false] when it returned
    early because the process has to stay where it is. *)
Fixpoint create_loop (m : Manager) (controllers : list string) (current_path : Path)
    (components : Path) : mio bool :=
  match components with
  | [] => mret true
  | component :: components => λ w,
      let current_path := join current_path [component] in
      let next : mio bool :=
        _ ← (if bool_decide (components = []) then mret ()
             else enable_controllers current_path controllers);
        create_loop m controllers current_path components in
      match io_map_err (λ err, WCreateDir err current_path) (os_create_dir current_path) w with
      | (Ok _, w) =>
          (_ ← io_map_err (λ err, WrappedIo (WOther err current_path)) (os_metadata current_path);
           next) w
      | (Err err, w) =>
          if is_already_exists (inner err) then next w
          else if rootless m && is_permission_error err then (Ok false, w)
          else (Err (WrappedIo err), w)
      | (Panic, w) => (Panic, w)
      end
  end.

Definition create_unified_cgroup (m : Manager) (pid : Z) : mio () :=
  available ← get_available_controllers (root_path m);
  let controllers := (λ c, "+" +:+ controller_fmt c) <$> available in
  _ ← enable_controllers (root_path m) controllers;
  done_ ← create_loop m controllers (root_path m)
            (filter (λ c, c ≠ RootDir) (cgroup_path m));
  if (done_ : bool) then attach_pid m pid else mret ().

Definition add_task (m : Manager) (pid : Z) : mio () :=
  if_exists (full_path m) (attach_pid m pid) (create_unified_cgroup m pid).

Definition get_all_pids (m : Manager) : mio (list Z) :=
  io_map_err WrappedIo (CgroupTree.get_all_pids (full_path m)).

(** [fs::write] of the kill file *)
Definition write_kill (kill_file : Path) : mio () :=
  io_map_err (λ err, WrappedIo (WWrite err kill_file "1"))
    (_ ← os_open kill_file; os_write kill_file "1").

Definition remove (m : Manager) : mio () :=
  if_exists (full_path m)
    (let kill_file := join_name_of (full_path m) CGROUP_KILL in
     _ ← if_exists kill_file
           (write_kill kill_file)
           (let procs_path := join_name_of (full_path m) CGROUP_PROCS in
            procs ← io_map_err (λ err, WrappedIo (WRead err procs_path)) (os_read procs_path);
            io_map_err WrappedIo (kill_all procs_path (lines procs)));
     io_map_err WrappedIo (delete_with_retry (full_path m) 4 (Some 100)))
    (mret ()).

(** *** Applying limits *)

Section apply.
(** The device controller is eBPF code, see [Devices]; the conversion of CPU
    shares is floating-point code, see [Cpu.convert_shares_to_cgroup2]. *)
Context (shares_curve : Z → Z) (devices_apply : Path → mio ()).

Definition apply_controller (res : LinuxResources) (full_path : Path) (c : ControllerType) :
    mio () :=
  match c with
  | TCpu => io_map_err CpuController
      (when_some (cpu res) (Cpu.apply shares_curve full_path))
  | TCpuSet => io_map_err CpuSetController
      (when_some (cpu res) (CpuSet.apply full_path))
  | THugeTlb => io_map_err HugeTlbController
      (when_some (hugepage_limits res) (λ l, for_in l (HugeTlb.apply full_path)))
  | TIo => io_map_err IoController (when_some (block_io res) (Io.apply full_path))
  | TMemory => io_map_err MemoryController (when_some (memory res) (Memory.apply full_path))
  | TPids => io_map_err PidsController (when_some (pids res) (Pids.apply full_path))
  end.

Definition manager_apply (m : Manager) (res : LinuxResources) : mio () :=
  _ ← for_in CONTROLLER_TYPES (apply_controller res (full_path m));
  _ ← devices_apply (full_path m);
  controllers ← get_available_controllers (root_path m);
  io_map_err UnifiedController
    (when_some (unified res) (λ u,
       Unified.apply_impl u (full_path m) (controller_fmt <$> controllers))).

(** Everything that the resources ask for, as one list of writes. *)
Definition resources_plan (m : Manager) (res : LinuxResources) (w : fs) : list write :=
  let p := full_path m in
  from_option (λ c, Cpu.plan shares_curve p c (default "" (files w !! join_name_of p Cpu.CGROUP_CPU_MAX))) [] (cpu res)
  ++ from_option (CpuSet.plan p) [] (cpu res)
  ++ from_option (λ l, l ≫= HugeTlb.plan p w) [] (hugepage_limits res)
  ++ from_option (Io.plan p w) [] (block_io res)
  ++ from_option (Memory.plan p w) [] (memory res)
  ++ from_option (Pids.plan p) [] (pids res)
  ++ from_option (λ u, u ≫= Unified.plan_one p) [] (unified res).

(** The resources that are accepted: no real-time scheduling, page sizes that are powers of
    two, block I/O weights in their range, memory limits that fit together, and unified
    entries for files of the cgroup.  The list of the controllers must be there, and the CPU
    limit in force where a period is given without quota. *)
Record valid_resources (m : Manager) (res : LinuxResources) (w : fs) : Prop := MkValidResources {
  vr_cpu : ∀ c, cpu res = Some c → Cpu.accepted w (full_path m) c;
  vr_hugetlb : ∀ l, hugepage_limits res = Some l → Forall HugeTlb.well_formed l;
  vr_io : ∀ b, block_io res = Some b → Io.accepted b = true;
  vr_memory : ∀ mem, memory res = Some mem → Memory.accepted mem;
  vr_controllers : is_Some (files w !! join_name_of (root_path m) CGROUP_CONTROLLERS);
  vr_unified : ∀ u, unified res = Some u → Forall (Unified.accepted w (full_path m)) u }.

(** The kernel and the environment: writing a file makes and removes none, a write to the
    weight does not change the limit in force, and no file is reported as missing that is
    there. *)
Definition sane (m : Manager) (w : fs) : Prop :=
  stable (kernel w) ∧ (∀ n op, refuse w n op ≠ Some ENOENT) ∧
  (∀ n d f, kernel w n (join_name_of (full_path m) Cpu.CGROUP_CPU_WEIGHT) d f
              !! join_name_of (full_path m) Cpu.CGROUP_CPU_MAX
            = f !! join_name_of (full_path m) Cpu.CGROUP_CPU_MAX).

Lemma hugetlb_performs w0 w path l :
  stable (kernel w0) → agrees w0 w →
  performs_if w (Forall HugeTlb.well_formed l) (l ≫= HugeTlb.plan path w0) (for_in l (HugeTlb.apply path)).
Proof.
  intros Hs Ha. apply (performs_if_for_in w0); [done|]. clear w Ha. intros w h Ha _. pose proof Ha as (_ & Hk & _).
  assert (HugeTlb.plan path w0 h = HugeTlb.plan path w h) as ->
    by (unfold HugeTlb.plan; by rewrite (agrees_exists w0 w)).
  apply HugeTlb.hugetlb_apply_if. by rewrite Hk.
Qed.

Lemma io_plan_exists path w w0 b :
  (∀ p, exists_ p w = exists_ p w0) → Io.plan path w b = Io.plan path w0 b.
Proof. intros Hex. unfold Io.plan, Io.weight_plan. by rewrite Hex. Qed.

Lemma memory_plan_files path w w0 mem :
  (∀ p, is_Some (files w !! p) ↔ is_Some (files w0 !! p)) → Memory.plan path w mem = Memory.plan path w0 mem.
Proof.
  intros Hf. unfold Memory.plan, Memory.limits_plan. do 2 f_equal. destruct (Memory.swap_target mem); [|done]. cbn.
  unfold Memory.swap_plan. by rewrite (bool_decide_ext _ _ (Hf _)).
Qed.

(** The plan of one controller, and what it accepts. *)
Definition controller_plan (m : Manager) (res : LinuxResources) (w : fs)
    (c : ControllerType) : list write :=
  let p := full_path m in
  match c with
  | TCpu => from_option (λ c, Cpu.plan shares_curve p c (default "" (files w !! join_name_of p Cpu.CGROUP_CPU_MAX)))
              [] (cpu res)
  | TCpuSet => from_option (CpuSet.plan p) [] (cpu res)
  | THugeTlb => from_option (λ l, l ≫= HugeTlb.plan p w) [] (hugepage_limits res)
  | TIo => from_option (Io.plan p w) [] (block_io res)
  | TMemory => from_option (Memory.plan p w) [] (memory res)
  | TPids => from_option (Pids.plan p) [] (pids res)
  end.

Definition controller_accepts (m : Manager) (res : LinuxResources) (w : fs) (c : ControllerType) : Prop :=
  match c with
  | TCpu => ∀ c, cpu res = Some c → Cpu.accepted w (full_path m) c
  | THugeTlb => ∀ l, hugepage_limits res = Some l → Forall HugeTlb.well_formed l
  | TIo => ∀ b, block_io res = Some b → Io.accepted b = true
  | TMemory => ∀ mem, memory res = Some mem → Memory.accepted mem
  | TCpuSet | TPids => True
  end.

Lemma cpu_performs m res w :
  sane m w → (∀ c s, cpu res = Some c → shares c = Some s → 0 ≤ s) →
  performs_if w (controller_accepts m res w TCpu) (controller_plan m res w TCpu)
    (apply_controller res (full_path m) TCpu).
Proof.
  intros (Hs & _ & Hk) Hsh. apply performs_if_map_err, performs_if_when_some. intros c Hc.
  apply Cpu.cpu_apply_performs; [|done..]. intros s. by apply Hsh.
Qed.

Lemma controller_performs m res w0 w c :
  sane m w0 → agrees w0 w → c ≠ TCpu →
  performs_if w (controller_accepts m res w0 c) (controller_plan m res w0 c) (apply_controller res (full_path m) c).
Proof.
  intros (Hs & Hn & _) Ha Hc. pose proof Ha as (Hr & Hk & _ & _).
  destruct c; [done|..]; apply performs_if_map_err; cbn [controller_plan controller_accepts].
  - apply performs_if_ok; [done|]. apply performs_when_some. intros c' _. apply CpuSet.cpuset_apply_performs.
  - apply performs_if_when_some. intros b Hb.
    rewrite <- (io_plan_exists _ w w0) by (intros; by apply agrees_exists). apply Io.io_apply_if.
  - apply performs_if_when_some. intros mem Hm.
    rewrite <- (memory_plan_files _ w w0) by (intros; by apply agrees_files).
    apply Memory.memory_apply_performs. by rewrite Hr.
  - apply performs_if_when_some. intros l Hl. by apply hugetlb_performs.
  - apply performs_if_ok; [done|]. apply performs_when_some. intros l _. apply Pids.pids_apply_performs.
Qed.

Lemma controllers_performs m res w0 w cs :
  sane m w0 → agrees w0 w → TCpu ∉ cs →
  performs_if w (Forall (controller_accepts m res w0) cs) (cs ≫= controller_plan m res w0)
    (for_in cs (apply_controller res (full_path m))).
Proof.
  intros Hs Ha Hc. apply (performs_if_for_in w0); [done|]. intros w' c Ha' Hin.
  apply controller_performs; [done..|]. by intros ->.
Qed.

Lemma available_performs w root :
  performs_if w (is_Some (files w !! join_name_of root CGROUP_CONTROLLERS)) [] (get_available_controllers root).
Proof.
  unfold performs_if, emits, get_available_controllers, if_exists.
  destruct (exists_ (join_name_of root CGROUP_CONTROLLERS) w) eqn:Hex.
  - eapply performs_if_iff; [apply (right_id True (∧))|].
    apply (performs_if_bind w _ _ []); [|intros; apply performs_if_ok, performs_ret; done].
    apply performs_if_map_err. split; [apply emits_read|]. split; [by intros s w' [-> _]%read_cgroup_file_Ok|].
    intros Hf. by apply performs_read.
  - apply (performs_if_refused w); [|by eexists]. intros Hf. unfold exists_ in Hex.
    by rewrite (bool_decide_eq_true_2 (is_Some _)), orb_true_r in Hex.
Qed.

Lemma manager_apply_performs m res w :
  sane m w → (∀ c s, cpu res = Some c → shares c = Some s → 0 ≤ s) →
  (∀ w, performs w [] (devices_apply (full_path m))) →
  performs_if w (valid_resources m res w) (resources_plan m res w) (manager_apply m res).
Proof.
  intros Hs Hsh Hdev. pose proof Hs as (Hst & _). pose proof (agrees_refl w) as Ha.
  replace (resources_plan m res w) with
    ((controller_plan m res w TCpu
      ++ ([TCpuSet; THugeTlb; TIo; TMemory; TPids] ≫= controller_plan m res w))
     ++ [] ++ [] ++ from_option (λ u, u ≫= Unified.plan_one (full_path m)) [] (unified res)).
  2:{ unfold resources_plan. cbn [mbind list_bind controller_plan app].
      by rewrite app_nil_r, <- !app_assoc. }
  eapply performs_if_iff; cycle 1.
  { unfold manager_apply. apply (performs_if_step w); [done..| |].
    { apply (performs_if_step w); [done..|by apply cpu_performs|].
      intros _ w' Ha'. apply (controllers_performs m res w w' [TCpuSet; THugeTlb; TIo; TMemory; TPids]); [done..|set_solver by done]. }
    intros _ w1 Ha1. apply (performs_if_step w _ True); [done..|by apply performs_if_ok; [|apply Hdev] |].
    intros _ w2 Ha2. apply (performs_if_step w); [done..| |].
    { eapply performs_if_iff; [|apply available_performs]. by apply (agrees_files w). }
    intros cs w3 Ha3. apply performs_if_map_err, performs_if_when_some. intros u Hu.
    by apply Unified.unified_apply_performs. }
  rewrite !Forall_cons, Forall_nil. cbn [controller_accepts]. split.
  - intros ((? & _ & ? & ? & ? & _) & _ & ? & ?). by constructor.
  - intros []. tauto.
Qed.
End apply.

(** *** Creating a cgroup and moving a process into it *)

Lemma only_enable P path cs {E} :
  (∀ c, c ∈ cs → P (OpWrite (join_name_of path CGROUP_SUBTREE_CONTROL) c)) →
  only P (E:=E) (enable_controllers path cs).
Proof.
  induction cs as [|c cs IH]; intros Hcs; [apply only_ret|]. intros w. cbn.
  destruct (only_write_str P _ c (Hcs c ltac:(set_solver)) w) as (o1 & H1 & P1).
  destruct (IH ltac:(set_solver) 
    (write_cgroup_file_str (join_name_of path CGROUP_SUBTREE_CONTROL) c w).2) as (o2 & H2 & P2).
  exists (o1 ++ o2). rewrite H2, H1, app_assoc. split; [done|by apply Forall_app].
Qed.

(** What [add_task] may do: create directories from the root down to the
    cgroup, enable controllers in the root and in directories strictly above
    the cgroup, and write the process to the cgroup. *)
Definition task_op (m : Manager) (pid : Z) (op : fs_op) : Prop :=
  match op with
  | OpMkdir p => ∃ l1 l2, full_path m = p ++ l2 ∧ p = root_path m ++ l1 ∧ l1 ≠ []
  | OpWrite p d =>
      (p = join_name_of (full_path m) CGROUP_PROCS ∧ d = pretty pid) ∨
      (∃ dir l1 l2, p = join_name_of dir CGROUP_SUBTREE_CONTROL ∧
         full_path m = dir ++ l2 ∧ dir = root_path m ++ l1 ∧ (dir = root_path m ∨ l2 ≠ []))
  | _ => False
  end.

Lemma attach_pid_only m pid : only (task_op m pid) (attach_pid m pid).
Proof.
  intros w. unfold attach_pid.
  destruct (only_write_str (task_op m pid) (join_name_of (full_path m) CGROUP_PROCS) (pretty pid))
    with (w := w) as (ops & Hj & Ho); [by left|].
  unfold write_cgroup_file. destruct (write_cgroup_file_str _ _ w) as [[[]|e|] w1]; cbn in *;
    [by exists ops| |by exists ops]. destruct (_ && _); by exists ops.
Qed.

Lemma create_loop_only m pid cs current names :
  (∃ l1, current = root_path m ++ l1) → full_path m = current ++ fmap Normal names →
  only (task_op m pid) (create_loop m cs current (fmap Normal names)).
Proof.
  revert current. induction names as [|n names IH]; intros current [l1 Hcur] Hfull;
    [apply only_ret|].
  cbn [create_loop fmap list_fmap]. rewrite join_name. set (cur := current ++ [Normal n]).
  assert (full_path m = cur ++ fmap Normal names) as Hfull'
    by (unfold cur; rewrite <- app_assoc; exact Hfull).
  assert (cur = root_path m ++ l1 ++ [Normal n]) as Hcur'
    by (unfold cur; by rewrite Hcur, <- app_assoc).
  set (next := (if bool_decide _ then _ else _) ≫= _).
  assert (only (task_op m pid) next) as Hnext.
  { apply only_bind; [|intros _; apply IH; eauto]. case_bool_decide as Hn; [apply only_ret|].
    apply only_enable. intros c _. right. exists cur, (l1 ++ [Normal n]), (fmap Normal names).
    split; [done|]. split; [done|]. split; [done|]. right. done. }
  intros w. pose proof (only_create_dir (task_op m pid) cur) as Hmk.
  destruct (Hmk ltac:(eexists _, _; split; [done|]; split; [done|]; by destruct l1) w)
    as (o1 & H1 & P1).
  unfold io_map_err at 1. destruct (os_create_dir cur w) as [[[]|e|] w1]; cbn in *.
  - destruct (only_bind (task_op m pid)
      (io_map_err (λ err, WrappedIo (WOther err cur)) (os_metadata cur)) (λ _, next)
      (only_metadata _ cur) (λ _, Hnext) w1) as (o2 & H2 & P2).
    exists (o1 ++ o2). rewrite H2, H1, app_assoc. split; [done|by apply Forall_app].
  - destruct (is_already_exists e); [|destruct (_ && _); by exists o1].
    destruct (Hnext w1) as (o2 & H2 & P2). exists (o1 ++ o2).
    rewrite H2, H1, app_assoc. split; [done|by apply Forall_app].
  - by exists o1.
Qed.

Lemma manager_new_paths root cg m :
  manager_new root cg = Ok m →
  root_path m = root ∧ full_path m = root ++ fmap Normal (walk [] cg) ∧
  filter (λ c, c ≠ RootDir) (cgroup_path m) = fmap Normal (walk [] cg).
Proof.
  unfold manager_new. rewrite join_safely_names, walk_clean. intros [= <-].
  cbn [root_path full_path cgroup_path]. split; [done|]. split; [done|].
  rewrite clean_cgroup_path_names, filter_app.
  replace (filter _ (root_of _)) with (@nil Component) by (by destruct (bool_decide _)).
  cbn [app]. induction (walk [] cg) as [|n l IH]; [done|].
  by rewrite fmap_cons, filter_cons_True, IH by done.
Qed.

Lemma attach_pid_Ok m pid w w' :
  rootless m = false → attach_pid m pid w = (Ok (), w') →
  last (journal w') = Some (OpWrite (join_name_of (full_path m) CGROUP_PROCS) (pretty pid)).
Proof.
  intros Hr. unfold attach_pid, write_cgroup_file.
  pose proof (emits_write_str w (join_name_of (full_path m) CGROUP_PROCS) (pretty pid)) as He.
  unfold emits in He. destruct (write_cgroup_file_str _ _ w) as [[[]|e|] w1]; [| |done].
  - intros [= <-]. destruct He as [-> _]. by rewrite last_app.
  - by rewrite Hr.
Qed.

Lemma create_loop_true m cs cur comps w b w' :
  rootless m = false → create_loop m cs cur comps w = (Ok b, w') → b = true.
Proof.
  intros Hr. revert cur w. induction comps as [|c comps IH]; intros cur w; cbn [create_loop].
  { by intros [= <- _]. }
  destruct (io_map_err _ _ w) as [[[]|e|] w1]; [|destruct (is_already_exists _)|done].
  - intros ([] & w2 & _ & Hn)%io_bind_Ok. apply io_bind_Ok in Hn as ([] & w3 & _ & Hn). eauto.
  - intros Hn. apply io_bind_Ok in Hn as ([] & w3 & _ & Hn). eauto.
  - by rewrite Hr.
Qed.

Lemma add_task_only m pid :
  (∃ names, full_path m = root_path m ++ fmap Normal names ∧
     filter (λ c, c ≠ RootDir) (cgroup_path m) = fmap Normal names) →
  only (task_op m pid) (add_task m pid).
Proof.
  intros (names & Hfull & Hcg). apply only_if_exists; [apply attach_pid_only|].
  apply only_bind.
  { apply only_if_exists; [|apply only_pure]. apply only_bind; [apply only_read|].
    intros. apply only_ret. }
  intros cs. apply only_bind.
  { apply only_enable. intros c _. right. exists (root_path m), [], (fmap Normal names).
    rewrite app_nil_r. auto. }
  intros _. rewrite Hcg. apply only_bind.
  { apply create_loop_only; [exists []; by rewrite app_nil_r|done]. }
  intros []; [apply attach_pid_only|apply only_ret].
Qed.

(** The last thing that [add_task] does, unless the manager is rootless. *)
Lemma add_task_last m pid w w' :
  rootless m = false → add_task m pid w = (Ok (), w') →
  last (journal w') = Some (OpWrite (join_name_of (full_path m) CGROUP_PROCS) (pretty pid)).
Proof.
  intros Hr. unfold add_task, if_exists. destruct (exists_ _ w); [by apply attach_pid_Ok|].
  unfold create_unified_cgroup. intros (cs & w1 & _ & Hw)%io_bind_Ok.
  apply io_bind_Ok in Hw as ([] & w2 & _ & Hw). apply io_bind_Ok in Hw as (b & w3 & Hl & Hw).
  apply create_loop_true in Hl as ->; [|done]. by eapply attach_pid_Ok.
Qed.

(** Adding a process stays inside the cgroup.  Whatever the cgroup path in
    the configuration is and whatever the environment refuses, [add_task] only
    creates directories from the root down to the container's cgroup, enables
    controllers only in the root and in directories strictly above the cgroup
    (the kernel forbids it in a cgroup that holds processes), and writes the
    process only to the cgroup's own [cgroup.procs].  Unless the manager is
    rootless, success means that this write was made, as the last operation. *)
Theorem add_task_confined root cg m0 r pid :
  manager_new root cg = Ok m0 →
  let m := with_rootless m0 r in
  only (task_op m pid) (add_task m pid) ∧
  (r = false → ∀ w w', add_task m pid w = (Ok (), w') →
   last (journal w') = Some (OpWrite (join_name_of (full_path m) CGROUP_PROCS) (pretty pid))).
Proof.
  intros (Hroot & Hfull & Hcg)%manager_new_paths m. split.
  - apply add_task_only. exists (walk [] cg). cbn. by rewrite Hfull, Hroot.
  - intros -> w w'. by apply add_task_last.
Qed.

Lemma add_task_confined_witness :
  let m := with_rootless (MkManager (components "/sys/fs/cgroup") (components "/a/b")
    (components "/sys/fs/cgroup/a/b") false) false in
  only (task_op m 4711) (add_task m 4711).
Proof.
  apply (add_task_confined (components "/sys/fs/cgroup") (components "/../a/./b")). 
  vm_compute. reflexivity.
Defined.

(** A run: the parent is created and gets the controllers, the cgroup itself is
    created and gets the process. *)
Lemma add_task_example :
  let root := components "/sys/fs/cgroup" in
  let w := example_fs [(join_name_of root CGROUP_CONTROLLERS, "cpuset cpu io rdma");
                       (join_name_of root CGROUP_SUBTREE_CONTROL, "")] in
  let ctl p := join_name_of (components p) CGROUP_SUBTREE_CONTROL in
  (m ← manager_new root (components "/a/b"); Ok (journal (add_task m 4711 w).2)) =
  Ok [OpWrite (ctl "/sys/fs/cgroup") "+cpuset"; OpWrite (ctl "/sys/fs/cgroup") "+cpu";
      OpWrite (ctl "/sys/fs/cgroup") "+io";
      OpMkdir (components "/sys/fs/cgroup/a");
      OpWrite (ctl "/sys/fs/cgroup/a") "+cpuset"; OpWrite (ctl "/sys/fs/cgroup/a") "+cpu";
      OpWrite (ctl "/sys/fs/cgroup/a") "+io";
      OpMkdir (components "/sys/fs/cgroup/a/b");
      OpWrite (components "/sys/fs/cgroup/a/b/cgroup.procs") "4711"].
Proof. vm_compute. reflexivity. Qed.

(** *** The limits of a container *)

(** C18: all limits of a container are applied.  Whatever the resources are and whatever the
    kernel refuses, [Manager::apply] makes the writes that the resources ask for and no
    others: CPU weight, bandwidth, burst and idle, cpuset, huge pages, block I/O, memory,
    process limit, and the unified entries line by line, in this order.  If a controller
    refuses the resources, or the kernel one of the writes, an error is returned and a first
    part of the writes has been made; [apply] succeeds only with [valid_resources], and does
    so if the kernel refuses nothing.  Swap that is disabled or without limit is not asked for
    where there is no swap file.  The device filter is assumed to write no cgroup files, and
    the environment to be [sane]. *)
Theorem manager_apply_spec shares_curve devices_apply m res w :
  sane m w → (∀ c s, cpu res = Some c → shares c = Some s → 0 ≤ s) →
  (∀ w, performs w [] (devices_apply (full_path m))) →
  performs_if w (valid_resources m res w) (resources_plan shares_curve m res w)
    (manager_apply shares_curve devices_apply m res).
Proof. apply manager_apply_performs. Qed.

Definition example_manager : Manager :=
  MkManager (components "/sys/fs/cgroup") (components "/c") (components "/sys/fs/cgroup/c") false.

Definition example_resources : LinuxResources := {|
  cpu := Some (MkCpu (Some 1024) None None (Some 50000) None None (Some "0-3") None None);
  memory := Some (MkMemory (Some 1048576) None (Some 1048576) None None None);
  pids := Some 0;
  hugepage_limits := Some [MkHugepage "2MB" 4194304];
  block_io := Some (MkBlockIo (Some 500) None None (Some [MkThrottleDevice 8 0 1024])
    None None None);
  unified := Some [("memory.high", "900000")] |}.

Definition example_world : fs :=
  example_fs (((λ n, (join_name_of (components "/sys/fs/cgroup/c") n, "max 100000")) <$>
    ["cpu.weight"; "cpu.max"; "cpuset.cpus"; "hugetlb.2MB.max"; "io.weight"; "io.max";
     "memory.swap.max"; "memory.max"; "pids.max"; "memory.high"])
    ++ [(join_name_of (components "/sys/fs/cgroup") CGROUP_CONTROLLERS, "cpu io memory")]).

Lemma manager_apply_spec_witness :
  performs_if example_world (valid_resources example_manager example_resources example_world)
    ((λ nd, (join_name_of (components "/sys/fs/cgroup/c") nd.1, nd.2)) <$>
      [("cpu.weight", "100"); ("cpu.max", "max 50000"); ("cpuset.cpus", "0-3");
       ("hugetlb.2MB.max", "4194304"); ("io.weight", "4950"); ("io.max", "8:0 rbps=1024");
       ("memory.swap.max", "0"); ("memory.max", "1048576"); ("pids.max", "1");
       ("memory.high", "900000")])
    (manager_apply (λ s, s - 924) (λ _, mret ()) example_manager example_resources).
Proof.
  apply (manager_apply_spec (λ s, s - 924) (λ _, mret ()) example_manager example_resources example_world).
  - split; [|split; [done|]].
    + apply (example_ready _ []). constructor.
    + intros n d f. cbn. by rewrite lookup_alter_ne.
  - intros c s [= <-] [= <-]. done.
  - intros w. apply performs_ret.
Defined.

(** The resources of the example are accepted. *)
Lemma example_resources_valid : valid_resources example_manager example_resources example_world.
Proof.
  split.
  - intros c [= <-]. split; [done|]. intros _. vm_compute. by eexists.
  - intros l [= <-]. apply Forall_singleton. exists 1. split; [lia|]. vm_compute. reflexivity.
  - intros b [= <-]. reflexivity.
  - intros mem [= <-]. by split.
  - vm_compute. by eexists.
  - intros u [= <-]. apply Forall_singleton. split; [reflexivity|]. vm_compute. by eexists.
Qed.

(** *** Removing a cgroup *)

(** What is done to the processes of a cgroup before it is removed. *)
Definition kills (m : Manager) (w : fs) (ops : list fs_op) : Prop :=
  let kill_file := join_name_of (full_path m) CGROUP_KILL in
  if exists_ kill_file w then ops = [OpWrite kill_file "1"]
  else ∃ content ps, files w !! join_name_of (full_path m) CGROUP_PROCS = Some content ∧
    mapM (parse_signed 32) (lines content) = Ok ps ∧ ops = OpKill <$> ps.

Lemma write_kill_Ok p w w' :
  write_kill p w = (Ok (), w') → journal w' = journal w ++ [OpWrite p "1"].
Proof.
  unfold write_kill, io_map_err.
  assert (emits w [(p, "1")] (_ ← os_open p; os_write p "1")) as He.
  { apply (emits_bind w [] [(p, "1")]); [apply emits_open|]. intros. apply emits_write. }
  destruct ((_ ← os_open p; os_write p "1") w) as [[[]|e|] w1] eqn:Hw; cbn; intros [= <-].
  by destruct (emits_Ok _ _ _ _ _ He Hw) as [-> _].
Qed.

(** Removing a cgroup.  When [remove] succeeds on a cgroup that exists, all
    its processes were killed first, through [cgroup.kill] where the kernel has
    it and one by one otherwise, and then its directory was removed.  The
    directory is tried four times, with at most 100 milliseconds of waiting in
    all. *)
Theorem remove_spec m w w' :
  remove m w = (Ok (), w') → exists_ (full_path m) w = true →
  (full_path m ∉ dirs w') ∧
  ∃ ks ds, journal w' = journal w ++ ks ++ ds ∧ kills m w ks ∧
    last ds = Some (OpRmdir (full_path m)) ∧ slept ds ≤ 100.
Proof.
  unfold remove, if_exists at 1. intros Hr Hex. rewrite Hex in Hr.
  apply io_bind_Ok in Hr as ([] & w1 & Hk & Hd).
  destruct (delete_loop_spec 4 (full_path m) 0 10 (Some 100) w1)
    as (r & w2 & ds & Hl & Hj & Ht & Hp); [done..|].
  unfold io_map_err, delete_with_retry in Hd. rewrite Hl in Hd.
  destruct r as [[]|e|]; cbn in Hd; simplify_eq. destruct Hp as [Hp Hlast]. split; [done|].
  assert (∃ ks, journal w1 = journal w ++ ks ∧ kills m w ks) as (ks & Hjk & Hks).
  { unfold kills, if_exists in *. destruct (exists_ (join_name_of _ CGROUP_KILL) w).
    - exists [OpWrite (join_name_of (full_path m) CGROUP_KILL) "1"]. split; [|done].
      by apply write_kill_Ok.
    - apply io_bind_Ok in Hk as (content & w3 & Hread & Hk).
      assert (files w !! join_name_of (full_path m) CGROUP_PROCS = Some content ∧ w3 = tick w)
        as [Hf ->].
      { apply read_cgroup_file_Ok. unfold read_cgroup_file, io_map_err in *.
        by destruct (os_read _ w) as [[?|?|] ?]; cbn in *; simplify_eq. }
      assert (kill_all (join_name_of (full_path m) CGROUP_PROCS) (lines content) (tick w) = (Ok (), w1)) as Hk'.
      { unfold io_map_err in Hk. by destruct (kill_all _ _ _) as [[[]|?|] ?]; cbn in *; simplify_eq. }
      apply kill_all_Ok in Hk' as (ps & Hps & Hj1). exists (OpKill <$> ps).
      split; [exact Hj1|]. eauto. }
  exists ks, ds. rewrite Hj, Hjk, <- app_assoc. auto.
Qed.

Lemma remove_spec_witness :
  let p := components "/sys/fs/cgroup" in
  let m := MkManager [] p p false in
  let w := example_fs [(join_name_of p CGROUP_PROCS, "17
42
")] in
  let w' := (remove m w).2 in
  (p ∉ dirs w') ∧
  ∃ ks ds, journal w' = journal w ++ ks ++ ds ∧ kills m w ks ∧
    last ds = Some (OpRmdir p) ∧ slept ds ≤ 100.
Proof. intros p m w w'. apply (remove_spec m w w'); vm_compute; reflexivity. Defined.

(** *** Freezing ([freezer.rs]) *)

Section freezer.
(** The text that [cgroup.events] holds at each poll; the kernel updates it while
    the processes of the cgroup come to a stop. *)
Context (events : nat → string).

Definition CGROUP_FREEZE : string := "cgroup.freeze".
Definition MAX_ITER : nat := 1000.
Definition WAIT_TIME : Z := 10.

(** The lines of one pass over the file, up to the one that says it. *)
Definition frozen_line (content : string) : option string :=
  head (List.filter (starts_with "frozen ") (split_inclusive LF content)).

Fixpoint wait_loop (fuel : nat) (iter : nat) : outcome V2FreezerError FreezerState :=
  match fuel with
  | O => Err (Timeout (WAIT_TIME * Z.of_nat MAX_ITER))
  | S fuel =>
      match frozen_line (events iter) with
      | None => Ok Undefined
      | Some line =>
          if starts_with "frozen 1" line then Ok Frozen else wait_loop fuel (S iter)
      end
  end.

(** Polls [cgroup.events] until it says ["frozen 1"]. *)
Definition wait_frozen : outcome V2FreezerError FreezerState := wait_loop MAX_ITER 0.

Definition read_freezer_state (path : Path) : io fs V2FreezerError FreezerState :=
  let target := join_name_of path CGROUP_FREEZE in
  _ ← io_map_err (λ err, FreezerWrappedIo (WOpen err target)) (os_open target);
  content ← io_map_err (λ err, FreezerWrappedIo (WRead err target)) (os_read target);
  match chars content with
  | [] => pure (Err (FreezerWrappedIo (WRead UnexpectedEof target)))
  | c :: _ =>
      if negb (utf8_valid (as_bytes (String c EmptyString))) then pure (Err InvalidUtf8)
      else if Ascii.eqb c "0" then mret Thawed
      else if Ascii.eqb c "1" then pure wait_frozen
      else pure (Err (UnknownState (String c EmptyString)))
  end.

Definition freezer_apply (freezer_state : FreezerState) (path : Path) :
    io fs V2FreezerError () :=
  let go (state_str : string) : io fs V2FreezerError () := λ w,
    let target := join_name_of path CGROUP_FREEZE in
    match os_open target w with
    | (Err err, w) =>
        if decide (freezer_state = Frozen)
        then (Err (NotSupported (WOpen err target)), w) else (Ok (), w)
    | (Panic, w) => (Panic, w)
    | (Ok _, w) =>
        (_ ← io_map_err (λ err, FreezerWrappedIo (WWrite err target state_str))
               (os_write target state_str);
         actual_state ← read_freezer_state path;
         if decide (actual_state = freezer_state) then mret ()
         else pure (Err (ExpectedToBe freezer_state actual_state))) w
    end in
  match freezer_state with
  | Undefined => mret ()
  | Frozen => go "1"
  | Thawed => go "0"
  end.

Definition freeze (m : Manager) (state : FreezerState) : mio () :=
  io_map_err FreezerController (freezer_apply state (full_path m)).

(** The kernel has said that the cgroup is frozen. *)
Definition says_frozen (content : string) : Prop :=
  ∃ line, frozen_line content = Some line ∧ starts_with "frozen 1" line = true.

(** It has said that it is not frozen yet. *)
Definition says_not_yet (content : string) : Prop :=
  ∃ line, frozen_line content = Some line ∧ starts_with "frozen 1" line = false.

Lemma wait_loop_sound fuel iter :
  wait_loop fuel iter = Ok Frozen → ∃ i, (iter ≤ i < iter + fuel)%nat ∧ says_frozen (events i).
Proof.
  revert iter. induction fuel as [|fuel IH]; intros iter; cbn; [done|].
  destruct (frozen_line (events iter)) as [line|] eqn:Hl; [|done].
  destruct (starts_with "frozen 1" line) eqn:Hs.
  - intros _. exists iter. split; [lia|]. by exists line.
  - intros (i & Hi & Hf)%IH. exists i. split; [lia|done].
Qed.

Lemma wait_loop_complete fuel iter k :
  (k < fuel)%nat → (∀ i, (iter ≤ i < iter + k)%nat → says_not_yet (events i)) →
  says_frozen (events (iter + k)) → wait_loop fuel iter = Ok Frozen.
Proof.
  revert fuel iter. induction k as [|k IH]; intros fuel iter Hk Hno Hf;
    (destruct fuel as [|fuel]; [lia|]); cbn.
  - rewrite Nat.add_0_r in Hf. destruct Hf as (line & -> & ->). done.
  - destruct (Hno iter) as (line & -> & ->); [lia|]. apply IH; [lia|intros; apply Hno; lia|].
    by rewrite Nat.add_succ_r in Hf.
Qed.

Lemma freeze_frozen_Ok m w w' :
  freeze m Frozen w = (Ok (), w') →
  journal w' = journal w ++ [OpWrite (join_name_of (full_path m) CGROUP_FREEZE) "1"] ∧
  ∃ i, (i < MAX_ITER)%nat ∧ says_frozen (events i).
Proof.
  unfold freeze, freezer_apply, io_map_err at 1.
  set (t := join_name_of (full_path m) CGROUP_FREEZE).
  pose proof (emits_open w t) as Hop. unfold emits in Hop.
  destruct (os_open t w) as [[[]|e|] w1]; cbn; [|done..].
  match goal with |- context [@mbind _ _ _ _ ?f ?m w1] =>
    destruct (@mbind (io fs V2FreezerError) _ _ _ f m w1) as [[[]|e|] w2] eqn:Hrun end;
    cbn; [intros [= <-]|done..].
  apply io_bind_Ok in Hrun as ([] & w3 & Hw & Hrun).
  apply io_bind_Ok in Hrun as (st & w4 & Hr & Hst).
  destruct (decide (st = Frozen)) as [->|]; [|done]. injection Hst as <-.
  assert (emits w1 [(t, "1")] (io_map_err (λ err, FreezerWrappedIo (WWrite err t "1"))
    (os_write t "1"))) as He by apply emits_map_err, emits_write.
  apply (emits_Ok _ _ _ _ _ He) in Hw.
  destruct (wrote_trans _ _ _ _ _ Hop Hw) as [Hj _].
  unfold read_freezer_state in Hr. fold t in Hr.
  apply io_bind_Ok in Hr as ([] & w5 & Ho & Hr). apply io_bind_Ok in Hr as (s & w6 & Hs & Hr).
  assert (emits w3 [] (io_map_err (λ err, FreezerWrappedIo (WOpen err t)) (os_open t))) as He5
    by apply emits_map_err, emits_open.
  apply (emits_Ok _ _ _ _ _ He5) in Ho.
  assert (emits w5 [] (io_map_err (λ err, FreezerWrappedIo (WRead err t)) (os_read t))) as He6
    by apply emits_map_err, emits_os_read.
  apply (emits_Ok _ _ _ _ _ He6) in Hs.
  destruct (wrote_trans _ _ _ _ _ Ho Hs) as [Hj2 _].
  destruct (chars s) as [|c l]; [done|]. destruct (negb _); [done|].
  destruct (Ascii.eqb c "0"); [done|]. destruct (Ascii.eqb c "1"); [|done].
  unfold pure in Hr. injection Hr as Hwait <-. split.
  - rewrite Hj2, Hj. by rewrite app_nil_r.
  - destruct (wait_loop_sound MAX_ITER 0 Hwait) as (i & Hi & Hf). exists i. split; [lia|done].
Qed.
End freezer.

(** Freezing waits for the kernel.  When [freeze] to the frozen state
    succeeds, it has written ["1"] to [cgroup.freeze] and nothing else, and within
    the 1000 polls the kernel has reported the cgroup as frozen.  Conversely, if
    nothing is refused, the kernel reads the state back, and it reports the
    cgroup as frozen at one of the polls after having reported that it is not
    frozen yet, then [freeze] succeeds. *)
Theorem freeze_spec events m w k :
  (∀ w', freeze events m Frozen w = (Ok (), w') →
     journal w' = journal w ++ [OpWrite (join_name_of (full_path m) CGROUP_FREEZE) "1"] ∧
     ∃ i, (i < MAX_ITER)%nat ∧ says_frozen (events i)) ∧
  (ready [(join_name_of (full_path m) CGROUP_FREEZE, "1")] w →
   (∀ n f, is_Some (f !! join_name_of (full_path m) CGROUP_FREEZE) →
      kernel w n (join_name_of (full_path m) CGROUP_FREEZE) "1" f
        !! join_name_of (full_path m) CGROUP_FREEZE = Some "1") →
   (k < MAX_ITER)%nat → (∀ i, (i < k)%nat → says_not_yet (events i)) →
   says_frozen (events k) →
   ∃ w', freeze events m Frozen w = (Ok (), w')).
Proof.
  split; [intros w'; apply freeze_frozen_Ok|]. intros Hr Hk Hlt Hno Hf.
  assert (wait_frozen events = Ok Frozen) as Hwait.
  { apply (wait_loop_complete events MAX_ITER 0 k); [done|intros; apply Hno; lia|done]. }
  unfold freeze, freezer_apply, io_map_err at 1.
  set (t := join_name_of (full_path m) CGROUP_FREEZE) in *.
  rewrite (performs_open w t "1") by done. destruct Hr as (Hc & _ & [Ht _]%Forall_cons).
  set (w1 := tick w).
  set (w2 := record (OpWrite t "1") (dirs w) (kernel w (S (clock w1)) t "1" (files w)) (tick w1)).
  rewrite (io_bind_run _ _ w1 () w2).
  2:{ unfold io_map_err, os_write, attempt, act, mbind, io_bind.
      change (refuse w1) with (refuse w). by rewrite Hc. }
  assert (files w2 !! t = Some "1") as Hf2 by (by apply Hk).
  assert (read_freezer_state events (full_path m) w2 = (Ok Frozen, tick (tick w2))) as Hread.
  { unfold read_freezer_state. fold t.
    rewrite (io_bind_run _ _ w2 () (tick w2)).
    2:{ unfold io_map_err, os_open, attempt, act, mbind, io_bind.
        change (refuse w2) with (refuse w). rewrite Hc. cbn [files tick].
        by rewrite bool_decide_eq_true_2 by (rewrite Hf2; by eexists). }
    rewrite (io_bind_run _ _ (tick w2) "1" (tick (tick w2))).
    2:{ unfold io_map_err, os_read, attempt, act, mbind, io_bind.
        change (refuse (tick w2)) with (refuse w). rewrite Hc. cbn [files tick].
        by rewrite Hf2. }
    change (pure (wait_frozen events) (tick (tick w2)) = (Ok Frozen, tick (tick w2))).
    unfold pure. by rewrite Hwait. }
  rewrite (io_bind_run _ _ w2 Frozen _ Hread). by eexists.
Qed.

Definition example_events (i : nat) : string :=
  if (i <? 3)%nat then "populated 1
frozen 0
" else "populated 1
frozen 1
".

Lemma freeze_spec_witness :
  let p := join_name_of (full_path example_manager) CGROUP_FREEZE in
  ∃ w', freeze example_events example_manager Frozen (example_fs [(p, "0")]) = (Ok (), w').
Proof.
  intros p.
  destruct (freeze_spec example_events example_manager (example_fs [(p, "0")]) 3) as [_ H].
  apply H.
  - apply example_ready, Forall_singleton. vm_compute. by eexists.
  - intros n f [v Hv]. change (alter (λ _, "1") p f !! p = Some "1").
    rewrite lookup_alter_eq. fold p in Hv. by rewrite Hv.
  - unfold MAX_ITER. lia.
  - intros i Hi. assert (i = 0 ∨ i = 1 ∨ i = 2)%nat as [-> | [-> | -> ] ] by lia;
      eexists; (split; [vm_compute; reflexivity|reflexivity]).
  - eexists. split; [vm_compute; reflexivity|reflexivity].
Defined.
