(* ===== verification/V1.v ===== *)
(** * V1: resource limits on cgroup v1

    Models the controllers of [crates/libcgroups/src/v1] that write limits: [cpu.rs],
    [cpuset.rs], [memory.rs], [pids.rs], [hugetlb.rs], [blkio.rs], [devices.rs],
    [network_classifier.rs], [network_priority.rs] and [freezer.rs].  As for cgroup v2,
    a controller is a computation on the file system of [CgroupFs] and its specification
    is the list of writes that the configuration asks for. *)
From S2P Require Import Prelude Text Paths Bpf Devices CgroupFs V2Controllers.
Local Open Scope string_scope.
Local Open Scope list_scope.
Local Open Scope Z_scope.

(** ** The configuration

    The fields that only cgroup v1 reads are added to those of [LinuxResources]. *)

Record LinuxInterfacePriority : Type := MkPriority { if_name : string; priority : Z }.

Record LinuxNetwork : Type := MkNetwork {
  class_id : option Z; priorities : option (list LinuxInterfacePriority) }.

Record V1Resources : Type := MkV1 {
  v1_resources :> LinuxResources;
  network : option LinuxNetwork; v1_devices : option (list LinuxDeviceCgroup) }.

(** [ControllerOpt] *)
Record ControllerOpt : Type := MkOpt {
  resources : V1Resources; disable_oom_killer : bool; freezer_state : option FreezerState }.

(** One write for each element of a list. *)
Lemma performs_each {E A} w (g : A → write) (l : list A) (f : A → io fs E ()) :
  (∀ w a, performs w [g a] (f a)) → performs w (g <$> l) (for_in l f).
Proof.
  intros Hf. revert w. induction l as [|a l IH]; intros w; [apply performs_ret|].
  apply (performs_bind w [_]); [apply Hf|]. intros _ w' _. apply IH.
Qed.

(** ** [cpu.rs] *)

Module Cpu1.
Definition CGROUP_CPU_SHARES : string := "cpu.shares".
Definition CGROUP_CPU_QUOTA : string := "cpu.cfs_quota_us".
Definition CGROUP_CPU_PERIOD : string := "cpu.cfs_period_us".
Definition CGROUP_CPU_BURST : string := "cpu.cfs_burst_us".
Definition CGROUP_CPU_RT_RUNTIME : string := "cpu.rt_runtime_us".
Definition CGROUP_CPU_RT_PERIOD : string := "cpu.rt_period_us".
Definition CGROUP_CPU_IDLE : string := "cpu.idle".

Definition needs_to_handle (o : ControllerOpt) : option LinuxCpu :=
  match cpu (resources o) with
  | Some cpu =>
      if bool_decide (is_Some (shares cpu)) || bool_decide (is_Some (period cpu))
         || bool_decide (is_Some (quota cpu)) || bool_decide (is_Some (realtime_period cpu))
         || bool_decide (is_Some (realtime_runtime cpu)) || bool_decide (is_Some (idle cpu))
      then Some cpu else None
  | None => None
  end.

(** A value that is written unless it is absent or zero. *)
Definition nonzero (root_path : Path) (file : string) (v : option Z) : wio () :=
  when_some v (λ v, if negb (v =? 0) then write_cgroup_file (join_name_of root_path file) v else mret ()).

Definition apply (root_path : Path) (cpu : LinuxCpu) : wio () :=
  _ ← nonzero root_path CGROUP_CPU_SHARES (shares cpu);
  _ ← nonzero root_path CGROUP_CPU_PERIOD (period cpu);
  _ ← nonzero root_path CGROUP_CPU_QUOTA (quota cpu);
  _ ← when_some (burst cpu) (write_cgroup_file (join_name_of root_path CGROUP_CPU_BURST));
  _ ← nonzero root_path CGROUP_CPU_RT_RUNTIME (realtime_runtime cpu);
  _ ← nonzero root_path CGROUP_CPU_RT_PERIOD (realtime_period cpu);
  when_some (idle cpu) (write_cgroup_file (join_name_of root_path CGROUP_CPU_IDLE)).

Definition controller_apply (o : ControllerOpt) (cgroup_root : Path) : wio () :=
  when_some (needs_to_handle o) (apply cgroup_root).

Definition nonzero_plan (path : Path) (file : string) (v : option Z) : list write :=
  from_option (λ v, if v =? 0 then [] else [(join_name_of path file, pretty v)]) [] v.

Definition value_plan (path : Path) (file : string) (v : option Z) : list write :=
  from_option (λ v, [(join_name_of path file, pretty v)]) [] v.

Definition plan (path : Path) (c : LinuxCpu) : list write :=
  nonzero_plan path CGROUP_CPU_SHARES (shares c) ++ nonzero_plan path CGROUP_CPU_PERIOD (period c)
  ++ nonzero_plan path CGROUP_CPU_QUOTA (quota c) ++ value_plan path CGROUP_CPU_BURST (burst c)
  ++ nonzero_plan path CGROUP_CPU_RT_RUNTIME (realtime_runtime c)
  ++ nonzero_plan path CGROUP_CPU_RT_PERIOD (realtime_period c) ++ value_plan path CGROUP_CPU_IDLE (idle c).

Lemma nonzero_performs w path file v : performs w (nonzero_plan path file v) (nonzero path file v).
Proof.
  apply performs_when_some. intros z _. destruct (z =? 0); [apply performs_ret|apply performs_write_file].
Qed.

Lemma value_performs w path file v :
  performs w (value_plan path file v) (when_some v (write_cgroup_file (join_name_of path file))).
Proof. apply performs_when_some. intros z _. apply performs_write_file. Qed.

Lemma cpu1_apply_performs w path c : performs w (plan path c) (apply path c).
Proof.
  unfold plan, apply. do 3 (apply performs_bind; [apply nonzero_performs|intros _ ? _]).
  apply performs_bind; [apply value_performs|intros _ ? _].
  do 2 (apply performs_bind; [apply nonzero_performs|intros _ ? _]). apply value_performs.
Qed.

(** A burst is only applied together with another limit. *)
Lemma burst_alone_ignored o c path w :
  cpu (resources o) = Some c → shares c = None → period c = None → quota c = None →
  realtime_period c = None → realtime_runtime c = None → idle c = None →
  controller_apply o path w = (Ok (), w).
Proof. intros Hc H1 H2 H3 H4 H5 H6. unfold controller_apply, needs_to_handle. by rewrite Hc, H1, H2, H3, H4, H5, H6. Qed.
End Cpu1.

(** ** [controller_type.rs] and [util.rs] *)

Inductive ControllerType : Type :=
  | CtCpu | CtCpuAcct | CtCpuSet | CtDevices | CtHugeTlb | CtPids | CtPerfEvent | CtMemory
  | CtBlkio | CtNetworkPriority | CtNetworkClassifier | CtFreezer.

#[global] Instance ControllerType_eq_dec : EqDecision ControllerType.
Proof. solve_decision. Defined.

Definition controller_to_string (c : ControllerType) : string :=
  match c with
  | CtCpu => "cpu" | CtCpuAcct => "cpuacct" | CtCpuSet => "cpuset" | CtDevices => "devices"
  | CtHugeTlb => "hugetlb" | CtPids => "pids" | CtPerfEvent => "perf_event" | CtMemory => "memory"
  | CtBlkio => "blkio" | CtNetworkPriority => "net_prio" | CtNetworkClassifier => "net_cls"
  | CtFreezer => "freezer"
  end.

Definition CONTROLLERS : list ControllerType :=
  [CtCpu; CtCpuAcct; CtCpuSet; CtDevices; CtHugeTlb; CtMemory; CtPids; CtPerfEvent; CtBlkio;
   CtNetworkPriority; CtNetworkClassifier; CtFreezer].

(** A line of [/proc/self/mountinfo], as [procfs] parses it. *)
Record MountInfo : Type := MkMountInfo { fs_type : string; mount_point : Path }.

(** The errors of other crates are not told apart. *)
Inductive V1MountPointError : Type :=
  | MpIo | MpMountInfo | MpNotFound (subsystem : ControllerType) | MpPathrs.

(** [Path::ends_with] *)
Definition path_ends_with (p q : Path) : bool := bool_decide (drop (length p - length q) p = q).

Module Util.
Section util.
(** The mount table: it cannot be opened, or it is a list of lines, each of which may be
    unreadable. *)
Context (mountinfo : outcome V1MountPointError (list (outcome V1MountPointError MountInfo))).

Definition list_subsystem_mount_points : outcome V1MountPointError (list Path) :=
  lines ← mountinfo;
  for_each (λ r mount_points,
    m ← r;
    Ok (if bool_decide (fs_type m = "cgroup") then mount_points ++ [mount_point m] else mount_points))
    lines [].

(** The names of the directories that a subsystem is mounted at. *)
Definition mount_names (subsystem_name : string) : list string :=
  if bool_decide (subsystem_name = "net_cls") then ["net_cls,net_prio"; "net_prio,net_cls"; "net_cls"]
  else if bool_decide (subsystem_name = "net_prio") then ["net_cls,net_prio"; "net_prio,net_cls"; "net_prio"]
  else if bool_decide (subsystem_name = "cpu") then ["cpu,cpuacct"; "cpu"]
  else if bool_decide (subsystem_name = "cpuacct") then ["cpu,cpuacct"; "cpuacct"]
  else [subsystem_name].

Definition is_mount_of (subsystem : ControllerType) (m : MountInfo) : bool :=
  bool_decide (fs_type m = "cgroup")
  && existsb (λ s, path_ends_with (mount_point m) (components s)) (mount_names (controller_to_string subsystem)).

Fixpoint find_mount (subsystem : ControllerType) (ls : list (outcome V1MountPointError MountInfo)) :
    outcome V1MountPointError Path :=
  match ls with
  | [] => Err (MpNotFound subsystem)
  | r :: ls =>
      m ← r;
      if is_mount_of subsystem m then Ok (mount_point m) else find_mount subsystem ls
  end.

Definition get_subsystem_mount_point (subsystem : ControllerType) : outcome V1MountPointError Path :=
  lines ← mountinfo; find_mount subsystem lines.

Definition list_supported_mount_points : list (ControllerType * Path) :=
  omap (λ c, match get_subsystem_mount_point c with Ok p => Some (c, p) | _ => None end) CONTROLLERS.
End util.
End Util.

(** ** [controller.rs] *)

(** [Controller::add_task], for all controllers but [CpuSet] *)
Definition controller_add_task (pid : Z) (cgroup_path : Path) : wio () :=
  _ ← io_map_err (λ err, WCreateDir err cgroup_path) (create_dir_all (length cgroup_path) cgroup_path);
  write_cgroup_file (join_name_of cgroup_path CGROUP_PROCS) pid.

(** ** [cpuset.rs] *)

Module CpuSet1.
Definition CGROUP_CPUSET_CPUS : string := "cpuset.cpus".
Definition CGROUP_CPUSET_MEMS : string := "cpuset.mems".

Inductive V1CpuSetControllerError : Type :=
  | CpuSet1WrappedIo (e : WrappedIoError)
  | BadCgroupPath (path : Path)
  | EmptyParent
  | CpuSet1MountPoint (e : V1MountPointError).

Abbreviation cpuset_io A := (io fs V1CpuSetControllerError A).

Definition needs_to_handle (o : ControllerOpt) : option LinuxCpu :=
  match cpu (resources o) with
  | Some cpuset =>
      if bool_decide (is_Some (cpus cpuset)) || bool_decide (is_Some (mems cpuset)) then Some cpuset else None
  | None => None
  end.

Definition apply (cgroup_path : Path) (cpuset : LinuxCpu) : cpuset_io () :=
  _ ← when_some (cpus cpuset) (λ cpus,
        io_map_err CpuSet1WrappedIo (write_cgroup_file_str (join_name_of cgroup_path CGROUP_CPUSET_CPUS) cpus));
  when_some (mems cpuset) (λ mems,
    io_map_err CpuSet1WrappedIo (write_cgroup_file_str (join_name_of cgroup_path CGROUP_CPUSET_MEMS) mems)).

Definition controller_apply (o : ControllerOpt) (cgroup_path : Path) : cpuset_io () :=
  when_some (needs_to_handle o) (apply cgroup_path).

(** The loop of [ensure_not_empty] over the components below the mount point. *)
Fixpoint inherit (cgroup_path : Path) (interface_file : string) (current : Path) (cs : Path) : cpuset_io () :=
  match cs with
  | [] => mret ()
  | component :: cs =>
      parent_value ← io_map_err (λ err, CpuSet1WrappedIo (WRead err cgroup_path))
        (os_read (join_name_of current interface_file));
      if bool_decide (trim parent_value = "") then pure (Err EmptyParent)
      else
        let current := join current [component] in
        let child_path := join_name_of current interface_file in
        child_value ← io_map_err (λ err, CpuSet1WrappedIo (WRead err child_path)) (os_read child_path);
        _ ← (if bool_decide (trim child_value = "")
             then io_map_err CpuSet1WrappedIo (write_cgroup_file_str child_path parent_value)
             else mret ());
        inherit cgroup_path interface_file current cs
  end.

Section add_task.
Context (mountinfo : outcome V1MountPointError (list (outcome V1MountPointError MountInfo))).

Definition ensure_not_empty (cgroup_path : Path) (interface_file : string) : cpuset_io () :=
  current ← pure (map_err CpuSet1MountPoint (Util.get_subsystem_mount_point mountinfo CtCpuSet));
  relative_cgroup_path ← pure (ok_or (strip_path_prefix current cgroup_path) (BadCgroupPath cgroup_path));
  inherit cgroup_path interface_file current relative_cgroup_path.

Definition add_task (pid : Z) (cgroup_path : Path) : cpuset_io () :=
  _ ← io_map_err (λ err, CpuSet1WrappedIo (WCreateDir err cgroup_path))
        (create_dir_all (length cgroup_path) cgroup_path);
  _ ← ensure_not_empty cgroup_path CGROUP_CPUSET_CPUS;
  _ ← ensure_not_empty cgroup_path CGROUP_CPUSET_MEMS;
  io_map_err CpuSet1WrappedIo (write_cgroup_file (join_name_of cgroup_path CGROUP_PROCS) pid).
End add_task.

Definition plan (path : Path) (c : LinuxCpu) : list write := CpuSet.plan path c.

Lemma cpuset1_apply_performs w path c : performs w (plan path c) (apply path c).
Proof.
  apply performs_bind; [|intros _ w' _];
    apply performs_when_some; intros s _; apply performs_map_err, performs_write_str.
Qed.

(** *** Inherited values *)

(** A kernel that stores what is written. *)
Definition stores (w : fs) : Prop := ∀ n p d m, kernel w n p d m = <[p := d]> m.

Definition level (current : Path) (file : string) (names : list string) (i : nat) : Path :=
  current ++ (Normal <$> take i names) ++ [Normal file].

(** What a value becomes below a parent with the value [v]. *)
Definition inherited (v c : string) : string := if bool_decide (trim c = "") then v else c.

Lemma level_join current file names :
  components file = [Normal file] → join_name_of current file = level current file names 0.
Proof. intros Hf. unfold join_name_of, level. rewrite Hf. apply join_name. Qed.

Lemma level_S current file n names i :
  level current file (n :: names) (S i) = level (join current [Normal n]) file names i.
Proof. unfold level. rewrite join_name. cbn. by rewrite <- app_assoc. Qed.

Lemma level_length current file names i :
  (i ≤ length names)%nat → length (level current file names i) = (length current + i + 1)%nat.
Proof. intros Hi. unfold level. rewrite !length_app, length_fmap, length_take_le by done. cbn. lia. Qed.

(** One step: the value of the child is filled in from the parent. *)
Lemma fill_step w child v c w' :
  stores w → files w !! child = Some c →
  (if bool_decide (trim c = "") then io_map_err CpuSet1WrappedIo (write_cgroup_file_str child v) else mret ()) w
    = (Ok (), w') →
  stores w' ∧ files w' !! child = Some (inherited v c) ∧
  (∀ q, q ≠ child → files w' !! q = files w !! q).
Proof.
  intros Hst Hc. unfold inherited. case_bool_decide as Ht; [|by intros [= <-]].
  intros Hw%io_map_err_Ok. pose proof (write_cgroup_file_str_Ok _ _ _ _ Hw) as Hf.
  pose proof (emits_Ok _ _ _ _ _ (emits_write_str w child v) Hw) as (_ & _ & _ & Hk & _).
  unfold stores in *. rewrite Hst in Hf. rewrite Hf. split; [by rewrite Hk|].
  split; [apply lookup_insert_eq|]. intros q Hq. by apply lookup_insert_ne.
Qed.

(** The loop leaves a value in every directory: a blank one takes over that of its parent. *)
Lemma inherit_spec cg file names : components file = [Normal file] → ∀ current w w',
  stores w → inherit cg file current (Normal <$> names) w = (Ok (), w') →
  stores w' ∧
  (∀ q c, files w !! q = Some c → trim c ≠ "" → files w' !! q = Some c) ∧
  (∀ q, (∀ i, (i < length names)%nat → q ≠ level current file names (S i)) → files w' !! q = files w !! q) ∧
  ∀ i, (i < length names)%nat → ∃ v c,
    files w' !! level current file names i = Some v ∧ trim v ≠ "" ∧
    files w !! level current file names (S i) = Some c ∧
    files w' !! level current file names (S i) = Some (inherited v c).
Proof.
  intros Hfile. induction names as [|n names IH]; intros current w w' Hst; cbn [fmap list_fmap inherit].
  { intros [= <-]. repeat split; [done..|]. cbn. lia. }
  intros (v & w1 & [Hv ->]%io_map_err_Ok%os_read_Ok & Hrest)%io_bind_Ok.
  destruct (bool_decide (trim v = "")) eqn:Hb; [done|]. apply bool_decide_eq_false in Hb.
  apply io_bind_Ok in Hrest as (c & w1 & [Hc ->]%io_map_err_Ok%os_read_Ok & Hrest).
  apply io_bind_Ok in Hrest as ([] & w2 & Hfill & Hloop).
  set (child := join_name_of (join current [Normal n]) file) in *.
  apply (fill_step _ _ v c) in Hfill as (Hst2 & Hc2 & Ho2); [|done..].
  destruct (IH _ _ _ Hst2 Hloop) as (Hst' & Hkeep & Hother & Hlev).
  assert (child = level (join current [Normal n]) file names 0) as Hch by (by apply level_join).
  assert (trim (inherited v c) ≠ "") as Hne by (unfold inherited; by case_bool_decide).
  assert (∀ q x, files w !! q = Some x → trim x ≠ "" → files w' !! q = Some x) as Hall.
  { intros q x Hq Hx. apply Hkeep; [|done]. destruct (decide (q = child)) as [->|]; [|by rewrite Ho2].
    rewrite Hc2. cbn in Hc. assert (c = x) as -> by congruence. unfold inherited. by rewrite bool_decide_eq_false_2. }
  split; [done|]. split; [done|]. split.
  - intros q Hq. rewrite Hother, Ho2; [done| |].
    + rewrite Hch, <- level_S. apply Hq. cbn. lia.
    + intros i Hi. rewrite <- level_S. apply Hq. cbn. lia.
  - intros [|i] Hi.
    + exists v, c. rewrite level_S, <- Hch, <- (level_join current) by done.
      split; [by apply Hall|]. split; [done|]. split; [done|]. by apply Hkeep.
    + rewrite !level_S. cbn in Hi. destruct (Hlev i) as (v' & c' & H1 & H2 & H3 & H4); [lia|].
      exists v', c'. split; [done|]. split; [done|]. split; [|done]. rewrite <- H3, Ho2; [done|].
      rewrite Hch. intros Heq%(f_equal length). rewrite !level_length in Heq by lia. lia.
Qed.

End CpuSet1.

(** ** [pids.rs], [network_classifier.rs], [network_priority.rs], [devices.rs] *)

Module Pids1.
Definition CGROUP_PIDS_MAX : string := "pids.max".

Definition apply (root_path : Path) (pids_limit : Z) : wio () :=
  let limit := if 0 <? pids_limit then pretty pids_limit else "max" in
  write_cgroup_file_str (join_name_of root_path CGROUP_PIDS_MAX) limit.

Definition controller_apply (o : ControllerOpt) (cgroup_root : Path) : wio () :=
  when_some (pids (resources o)) (apply cgroup_root).

Definition plan (path : Path) (l : Z) : list write :=
  [(join_name_of path CGROUP_PIDS_MAX, if 0 <? l then pretty l else "max")].
End Pids1.

Module NetworkClassifier.
Definition apply (root_path : Path) (network : LinuxNetwork) : wio () :=
  when_some (class_id network) (write_cgroup_file (join_name_of root_path "net_cls.classid")).

Definition controller_apply (o : ControllerOpt) (cgroup_root : Path) : wio () :=
  when_some (network (resources o)) (apply cgroup_root).

Definition plan (path : Path) (n : LinuxNetwork) : list write :=
  Cpu1.value_plan path "net_cls.classid" (class_id n).
End NetworkClassifier.

(** The types of [oci_spec] print themselves. *)
Class OciDisplay : Type := {
  priority_to_string : LinuxInterfacePriority → string;
  device_to_string : LinuxDeviceCgroup → string }.

Module NetworkPriority.
Section network_priority.
Context `{OciDisplay}.

Definition apply (root_path : Path) (network : LinuxNetwork) : wio () :=
  when_some (priorities network) (λ ni_priorities,
    let priorities := String.concat "" (priority_to_string <$> ni_priorities) in
    write_cgroup_file_str (join_name_of root_path "net_prio.ifpriomap") (trim priorities)).

Definition controller_apply (o : ControllerOpt) (cgroup_root : Path) : wio () :=
  when_some (network (resources o)) (apply cgroup_root).

Definition plan (path : Path) (n : LinuxNetwork) : list write :=
  from_option (λ l, [(join_name_of path "net_prio.ifpriomap",
    trim (String.concat "" (priority_to_string <$> l)))]) [] (priorities n).
End network_priority.
End NetworkPriority.

Module Devices1.
Section devices.
Context `{OciDisplay, OciDevices}.

Definition apply_device (device : LinuxDeviceCgroup) (cgroup_root : Path) : wio () :=
  let path := if allow device then join_name_of cgroup_root "devices.allow"
              else join_name_of cgroup_root "devices.deny" in
  write_cgroup_file_str path (device_to_string device).

Definition controller_apply (o : ControllerOpt) (cgroup_root : Path) : wio () :=
  _ ← when_some (v1_devices (resources o)) (λ devices,
        for_in devices (λ d, apply_device d cgroup_root));
  for_in ((cgroup_of_device <$> default_devices) ++ default_allow_devices)
    (λ d, apply_device d cgroup_root).

(** The rules of the container, then the defaults. *)
Definition rules (o : ControllerOpt) : list LinuxDeviceCgroup :=
  default [] (v1_devices (resources o)) ++ (cgroup_of_device <$> default_devices) ++ default_allow_devices.

Definition plan (path : Path) (o : ControllerOpt) : list write :=
  (λ d, (join_name_of path (if allow d then "devices.allow" else "devices.deny"), device_to_string d))
  <$> rules o.

Lemma apply_devices_performs w path (l : list LinuxDeviceCgroup) :
  performs w ((λ d, (join_name_of path (if allow d then "devices.allow" else "devices.deny"), device_to_string d)) <$> l)
    (for_in l (λ d, apply_device d path)).
Proof.
  apply performs_each. intros w' d. unfold apply_device. destruct (allow d); apply performs_write_str.
Qed.

Lemma devices1_apply_performs w path o : performs w (plan path o) (controller_apply o path).
Proof.
  unfold plan, rules, controller_apply. rewrite fmap_app. apply performs_bind; [|intros _ ? _; apply apply_devices_performs].
  destruct (v1_devices (resources o)) as [l|]; [apply apply_devices_performs|apply performs_ret].
Qed.
End devices.
End Devices1.

(** ** [blkio.rs] *)

Module Blkio.
Definition BLKIO_THROTTLE_READ_BPS : string := "blkio.throttle.read_bps_device".
Definition BLKIO_THROTTLE_WRITE_BPS : string := "blkio.throttle.write_bps_device".
Definition BLKIO_THROTTLE_READ_IOPS : string := "blkio.throttle.read_iops_device".
Definition BLKIO_THROTTLE_WRITE_IOPS : string := "blkio.throttle.write_iops_device".
Definition BLKIO_WEIGHT : string := "blkio.weight".
Definition BLKIO_BFQ_WEIGHT : string := "blkio.bfq.weight".

(** [format!("{}:{} {}", d.major(), d.minor(), d.rate())] *)
Definition rate_line (d : LinuxThrottleDevice) : string :=
  Io.device (td_major d) (td_minor d) +:+ " " +:+ pretty (td_rate d).

Definition throttle (root_path : Path) (file : string) (o : option (list LinuxThrottleDevice)) : wio () :=
  when_some o (λ l, for_in l (λ d, write_cgroup_file_str (join_name_of root_path file) (rate_line d))).

Definition apply (root_path : Path) (blkio : LinuxBlockIo) : wio () :=
  _ ← when_some (weight blkio) (λ blkio_weight,
        if negb (blkio_weight =? 0) then
          let cgroup_file := join_name_of root_path BLKIO_WEIGHT in
          if_exists cgroup_file (write_cgroup_file cgroup_file blkio_weight)
            (write_cgroup_file (join_name_of root_path BLKIO_BFQ_WEIGHT) blkio_weight)
        else mret ());
  _ ← throttle root_path BLKIO_THROTTLE_READ_BPS (throttle_read_bps_device blkio);
  _ ← throttle root_path BLKIO_THROTTLE_WRITE_BPS (throttle_write_bps_device blkio);
  _ ← throttle root_path BLKIO_THROTTLE_READ_IOPS (throttle_read_iops_device blkio);
  throttle root_path BLKIO_THROTTLE_WRITE_IOPS (throttle_write_iops_device blkio).

Definition controller_apply (o : ControllerOpt) (cgroup_root : Path) : wio () :=
  when_some (block_io (resources o)) (apply cgroup_root).

Definition weight_plan (path : Path) (w : fs) (v : Z) : list write :=
  if v =? 0 then []
  else [(join_name_of path (if exists_ (join_name_of path BLKIO_WEIGHT) w
                            then BLKIO_WEIGHT else BLKIO_BFQ_WEIGHT), pretty v)].

Definition throttle_plan (path : Path) (file : string) (o : option (list LinuxThrottleDevice)) : list write :=
  from_option (fmap (λ d, (join_name_of path file, rate_line d))) [] o.

Definition plan (path : Path) (w : fs) (b : LinuxBlockIo) : list write :=
  from_option (weight_plan path w) [] (weight b)
  ++ throttle_plan path BLKIO_THROTTLE_READ_BPS (throttle_read_bps_device b)
  ++ throttle_plan path BLKIO_THROTTLE_WRITE_BPS (throttle_write_bps_device b)
  ++ throttle_plan path BLKIO_THROTTLE_READ_IOPS (throttle_read_iops_device b)
  ++ throttle_plan path BLKIO_THROTTLE_WRITE_IOPS (throttle_write_iops_device b).

Lemma throttle1_performs w path file o : performs w (throttle_plan path file o) (throttle path file o).
Proof. apply performs_when_some. intros l _. apply performs_each. intros w' d. apply performs_write_str. Qed.

Lemma blkio_apply_performs w path b : performs w (plan path w b) (apply path b).
Proof.
  apply performs_bind; [|intros _ ? _; do 3 (apply performs_bind; [apply throttle1_performs|intros _ ? _]); apply throttle1_performs].
  apply performs_when_some. intros v _. unfold weight_plan. destruct (v =? 0); [apply performs_ret|].
  unfold performs, emits, if_exists. cbn [negb]. destruct (exists_ _ _); apply performs_write_file.
Qed.
End Blkio.

(** ** [hugetlb.rs] *)

Module HugeTlb1.
Inductive V1HugeTlbControllerError : Type :=
  | HugeTlb1WrappedIo (e : WrappedIoError)
  | MalformedPageSize1 (page_size : string) (err : IntErrorKind + ()).

Definition is_power_of_two (number : Z) : bool :=
  negb (number =? 0) && (Z.land number (Z.max 0 (number - 1)) =? 0).

Definition apply (root_path : Path) (hugetlb : LinuxHugepageLimit) : io fs V1HugeTlbControllerError () :=
  let raw_page_size := of_chars (take_while is_ascii_digit (chars (page_size hugetlb))) in
  size ← pure (map_err (λ err, MalformedPageSize1 raw_page_size (inl err)) (parse_unsigned 64 raw_page_size));
  if negb (is_power_of_two size) then pure (Err (MalformedPageSize1 raw_page_size (inr ())))
  else
    _ ← io_map_err HugeTlb1WrappedIo
      (write_cgroup_file (join_name_of root_path ("hugetlb." +:+ page_size hugetlb +:+ ".limit_in_bytes"))
         (hp_limit hugetlb));
    let rsvd_file_path :=
      join_name_of root_path ("hugetlb." +:+ page_size hugetlb +:+ ".rsvd.limit_in_bytes") in
    if_exists rsvd_file_path
      (io_map_err HugeTlb1WrappedIo (write_cgroup_file rsvd_file_path (hp_limit hugetlb)))
      (mret ()).

Definition needs_to_handle (o : ControllerOpt) : option (list LinuxHugepageLimit) :=
  match hugepage_limits (resources o) with
  | Some l => if negb (bool_decide (l = [])) then Some l else None
  | None => None
  end.

Definition controller_apply (o : ControllerOpt) (cgroup_root : Path) : io fs V1HugeTlbControllerError () :=
  when_some (needs_to_handle o) (λ l, for_in l (apply cgroup_root)).

Definition plan (path : Path) (w : fs) (h : LinuxHugepageLimit) : list write :=
  let rsvd := join_name_of path ("hugetlb." +:+ page_size h +:+ ".rsvd.limit_in_bytes") in
  (join_name_of path ("hugetlb." +:+ page_size h +:+ ".limit_in_bytes"), pretty (hp_limit h))
  :: (if exists_ rsvd w then [(rsvd, pretty (hp_limit h))] else []).

Lemma well_formed_dec h : HugeTlb.well_formed h ∨ ¬ HugeTlb.well_formed h.
Proof.
  destruct (parse_unsigned 64 (HugeTlb.page_size_raw h)) as [size|e|] eqn:Hp.
  2, 3: right; intros (k & _ & Hk); congruence.
  destruct (HugeTlb.is_power_of_two size) eqn:H2.
  - left. apply HugeTlb.is_power_of_two_spec in H2 as (k & Hk & ->); [by exists k|by eapply parse_unsigned_nonneg].
  - right. intros (k & Hk & Hp'). assert (size = 2 ^ k) as -> by congruence.
    rewrite (proj2 (HugeTlb.is_power_of_two_spec (2 ^ k) ltac:(lia))) in H2; [done|by exists k].
Qed.

Lemma hugetlb1_apply_performs w path h :
  stable (kernel w) → HugeTlb.well_formed h → performs w (plan path w h) (apply path h).
Proof.
  intros Hst (k & Hk & Hp). unfold apply, plan. apply (performs_bind w []).
  { apply performs_pure. unfold HugeTlb.page_size_raw in Hp. by rewrite Hp. }
  intros size w0 Hs. unfold HugeTlb.page_size_raw in Hp. rewrite Hp in Hs. injection Hs as <- <-.
  change (is_power_of_two (2 ^ k)) with (HugeTlb.is_power_of_two (2 ^ k)).
  rewrite (proj2 (HugeTlb.is_power_of_two_spec (2 ^ k) ltac:(lia))) by (by exists k).
  by apply HugeTlb.performs_pair.
Qed.

Lemma hugetlb1_apply_refused w path h :
  ¬ HugeTlb.well_formed h →
  ∃ e, apply path h w = (Err (MalformedPageSize1 (HugeTlb.page_size_raw h) e), w).
Proof.
  intros [(size & Hp & H2)|[e Hp]]%HugeTlb.page_size_cases; unfold apply, mbind, io_bind, pure;
    unfold HugeTlb.page_size_raw in *; rewrite Hp; cbn [map_err].
  - change (is_power_of_two size) with (HugeTlb.is_power_of_two size). rewrite H2. by eexists.
  - by eexists.
Qed.
End HugeTlb1.

(** ** [memory.rs] *)

Module Memory1.
Definition CGROUP_MEMORY_SWAP_LIMIT : string := "memory.memsw.limit_in_bytes".
Definition CGROUP_MEMORY_LIMIT : string := "memory.limit_in_bytes".
Definition CGROUP_MEMORY_USAGE : string := "memory.usage_in_bytes".
Definition CGROUP_MEMORY_MAX_USAGE : string := "memory.max_usage_in_bytes".
Definition CGROUP_MEMORY_SWAPPINESS : string := "memory.swappiness".
Definition CGROUP_MEMORY_RESERVATION : string := "memory.soft_limit_in_bytes".
Definition CGROUP_MEMORY_OOM_CONTROL : string := "memory.oom_control".
Definition CGROUP_KERNEL_MEMORY_LIMIT : string := "memory.kmem.limit_in_bytes".
Definition CGROUP_KERNEL_TCP_MEMORY_LIMIT : string := "memory.kmem.tcp.limit_in_bytes".

Inductive MalformedThing : Type := Limit | Usage | MaxUsage.

Inductive V1MemoryControllerError : Type :=
  | Memory1WrappedIo (e : WrappedIoError)
  | SwappinessOutOfRange (supplied : Z)
  | MalformedValue (thing : MalformedThing) (limit : string) (path : Path) (err : IntErrorKind)
  | UnableToSet (target current peak : Z).

Abbreviation mem_io A := (io fs V1MemoryControllerError A).

Definition EBUSY : Z := 16.

(** Opens and reads a file; [max] stands for the largest value. *)
Definition read_value (thing : MalformedThing) (largest : Z) (parse : string → outcome IntErrorKind Z)
    (path : Path) : mem_io Z :=
  _ ← io_map_err (λ err, Memory1WrappedIo (WOpen err path)) (os_open path);
  contents ← io_map_err (λ err, Memory1WrappedIo (WRead err path)) (os_read path);
  let contents := trim contents in
  if bool_decide (contents = "max") then mret largest
  else pure (map_err (MalformedValue thing contents path) (parse contents)).

Definition get_memory_usage (cgroup_root : Path) : mem_io Z :=
  read_value Usage (2 ^ 64 - 1) (parse_unsigned 64) (join_name_of cgroup_root CGROUP_MEMORY_USAGE).

Definition get_memory_max_usage (cgroup_root : Path) : mem_io Z :=
  read_value MaxUsage (2 ^ 64 - 1) (parse_unsigned 64) (join_name_of cgroup_root CGROUP_MEMORY_MAX_USAGE).

Definition get_memory_limit (cgroup_root : Path) : mem_io Z :=
  read_value Limit (2 ^ 63 - 1) (parse_signed 64) (join_name_of cgroup_root CGROUP_MEMORY_LIMIT).

Definition set (val : Z) (path : Path) : wio () :=
  let data := pretty val in
  _ ← io_map_err (λ err, WOpen err path) (os_open path);
  io_map_err (λ err, WWrite err path data) (os_write path data).

(** The report when the kernel cannot shrink the cgroup below the new limit. *)
Definition unable_to_set (val : Z) (cgroup_root : Path) : mem_io () :=
  usage ← get_memory_usage cgroup_root;
  max_usage ← get_memory_max_usage cgroup_root;
  pure (Err (UnableToSet val usage max_usage)).

Definition set_memory (val : Z) (cgroup_root : Path) : mem_io () :=
  if val =? 0 then mret ()
  else λ w,
    match set val (join_name_of cgroup_root CGROUP_MEMORY_LIMIT) w with
    | (Ok _, w) => (Ok (), w)
    | (Err e, w) =>
        match raw_os_error (inner e) with
        | Some code =>
            if code =? EBUSY then unable_to_set val cgroup_root w
            else (Err (Memory1WrappedIo e), w)
        | None => (Err (Memory1WrappedIo e), w)
        end
    | (Panic, w) => (Panic, w)
    end.

Definition set_swap (swap : Z) (cgroup_root : Path) : mem_io () :=
  if swap =? 0 then mret ()
  else io_map_err Memory1WrappedIo
    (write_cgroup_file (join_name_of cgroup_root CGROUP_MEMORY_SWAP_LIMIT) swap).

Definition set_memory_and_swap (limit swap : Z) (is_updated : bool) (cgroup_root : Path) : mem_io () :=
  _ ← (if is_updated then
         _ ← set_swap swap cgroup_root;
         set_memory limit cgroup_root
       else mret ());
  _ ← set_memory limit cgroup_root;
  set_swap swap cgroup_root.

Definition apply (resource : LinuxMemory) (cgroup_root : Path) : mem_io () :=
  match limit resource with
  | Some limit =>
      current_limit ← get_memory_limit cgroup_root;
      match swap resource with
      | Some swap =>
          let is_updated := (swap =? -1) || (current_limit <? swap) in
          set_memory_and_swap limit swap is_updated cgroup_root
      | None =>
          if limit =? -1 then set_memory_and_swap limit (-1) true cgroup_root
          else
            let is_updated := current_limit <? 0 in
            set_memory_and_swap limit 0 is_updated cgroup_root
      end
  | None =>
      match swap resource with
      | Some swap => set_memory_and_swap 0 swap false cgroup_root
      | None => set_memory_and_swap 0 0 false cgroup_root
      end
  end.

Definition set_oom_control (cgroup_root : Path) (disable_oom_killer : bool) : wio () :=
  if disable_oom_killer then write_cgroup_file (join_name_of cgroup_root CGROUP_MEMORY_OOM_CONTROL) 1
  else write_cgroup_file (join_name_of cgroup_root CGROUP_MEMORY_OOM_CONTROL) 0.

Definition controller_apply (o : ControllerOpt) (cgroup_root : Path) : mem_io () :=
  when_some (memory (resources o)) (λ memory,
    let reservation := default 0 (reservation memory) in
    _ ← apply memory cgroup_root;
    _ ← (if negb (reservation =? 0) then
           io_map_err Memory1WrappedIo
             (write_cgroup_file (join_name_of cgroup_root CGROUP_MEMORY_RESERVATION) reservation)
         else mret ());
    _ ← io_map_err Memory1WrappedIo (set_oom_control cgroup_root (disable_oom_killer o));
    _ ← when_some (swappiness memory) (λ swappiness,
          if swappiness <=? 100 then
            io_map_err Memory1WrappedIo
              (write_cgroup_file (join_name_of cgroup_root CGROUP_MEMORY_SWAPPINESS) swappiness)
          else pure (Err (SwappinessOutOfRange swappiness)));
    _ ← when_some (kernel_mem memory) (λ kmem,
          io_map_err Memory1WrappedIo
            (write_cgroup_file (join_name_of cgroup_root CGROUP_KERNEL_MEMORY_LIMIT) kmem));
    when_some (kernel_tcp memory) (λ tcp_mem,
      io_map_err Memory1WrappedIo
        (write_cgroup_file (join_name_of cgroup_root CGROUP_KERNEL_TCP_MEMORY_LIMIT) tcp_mem))).

(** *** Specification

    The writes for a limit and a memory-and-swap limit.  [updated] says that the latter
    has to be raised first. *)
Definition limit_plan (path : Path) (v : Z) : list write := Cpu1.nonzero_plan path CGROUP_MEMORY_LIMIT (Some v).
Definition swap_plan (path : Path) (v : Z) : list write := Cpu1.nonzero_plan path CGROUP_MEMORY_SWAP_LIMIT (Some v).

Definition both_plan (path : Path) (limit swap : Z) (updated : bool) : list write :=
  (if updated then swap_plan path swap ++ limit_plan path limit else [])
  ++ limit_plan path limit ++ swap_plan path swap.

(** Which limits are set, and whether memory-and-swap goes first, from the current limit. *)
Definition limits (m : LinuxMemory) (current : Z) : Z * Z * bool :=
  match limit m, swap m with
  | Some l, Some s => (l, s, (s =? -1) || (current <? s))
  | Some l, None => if l =? -1 then (-1, -1, true) else (l, 0, current <? 0)
  | None, s => (0, default 0 s, false)
  end.

Definition apply_plan (path : Path) (m : LinuxMemory) (current : Z) : list write :=
  let '(l, s, updated) := limits m current in both_plan path l s updated.

(** What a limit file holds. *)
Definition limit_value (contents : string) : option Z :=
  if bool_decide (trim contents = "max") then Some (2 ^ 63 - 1)
  else match parse_signed 64 (trim contents) with Ok v => Some v | _ => None end.

Lemma emits_quiet {E A} w (m : io fs E A) r w' :
  emits w [] m → m w = (r, w') → wrote [] w w' ∧ r ≠ Panic.
Proof.
  unfold emits. intros He Hm. rewrite Hm in He. destruct r; [done| |done].
  destruct He as [k Hk]. by rewrite take_nil in Hk.
Qed.

Lemma emits_read_value w thing m parse p :
  (∀ s, parse s ≠ Panic) → emits w [] (read_value thing m parse p).
Proof.
  intros Hp. apply (emits_bind w [] []); [apply emits_map_err, emits_open|]. intros _ w1 _.
  apply (emits_bind w1 [] []); [apply emits_map_err, emits_os_read|]. intros s w2 _.
  cbv zeta. case_bool_decide; [apply emits_ret|]. specialize (Hp (trim s)).
  destruct (parse (trim s)); [apply emits_ret|apply emits_err|done].
Qed.

Lemma unable_to_set_emits w v path :
  match unable_to_set v path w with (Err _, w') => wrote [] w w' | _ => False end.
Proof.
  assert (emits w [] (unable_to_set v path)) as Hb.
  { do 2 (apply (emits_bind _ [] []); [apply emits_read_value, parse_unsigned_no_panic|intros ? ? _]).
    apply emits_err. }
  destruct (unable_to_set v path w) as [r w'] eqn:Hr.
  destruct (emits_quiet _ _ _ _ Hb Hr) as [Hw Hp]. destruct r as [u|e'|]; [|done..].
  by apply io_bind_Ok in Hr as (? & ? & _ & (? & ? & _ & [=])%io_bind_Ok).
Qed.

Lemma set_memory_performs w v path : performs w (limit_plan path v) (set_memory v path).
Proof.
  unfold limit_plan, Cpu1.nonzero_plan, set_memory. cbn [from_option].
  destruct (v =? 0); [apply performs_ret|].
  set (p := join_name_of path CGROUP_MEMORY_LIMIT).
  destruct (performs_write_str w p (pretty v)) as [He Hc]. split.
  - unfold emits in *. change (set v p w) with (write_cgroup_file_str p (pretty v) w).
    destruct (write_cgroup_file_str p (pretty v) w) as [[u|e|] w1]; [done| |done].
    destruct He as [k Hk]. destruct (raw_os_error (inner e)) as [c|]; [|by exists k].
    destruct (c =? EBUSY); [|by exists k]. pose proof (unable_to_set_emits w1 v path) as Hb.
    destruct (unable_to_set v path w1) as [[u|e'|] w2]; [done| |done]. exists k.
    rewrite <- (app_nil_r (take k _)). by eapply wrote_trans.
  - intros Hr. destruct (Hc Hr) as ([] & w1 & Hm). exists (), w1.
    change (set v p w) with (write_cgroup_file_str p (pretty v) w). by rewrite Hm.
Qed.

Lemma set_swap1_performs w v path : performs w (swap_plan path v) (set_swap v path).
Proof.
  unfold swap_plan, Cpu1.nonzero_plan, set_swap. cbn [from_option].
  destruct (v =? 0); [apply performs_ret|]. apply performs_map_err, performs_write_file.
Qed.

Lemma set_memory_and_swap_performs w l s b path :
  performs w (both_plan path l s b) (set_memory_and_swap l s b path).
Proof.
  apply performs_bind.
  - destruct b; [|apply performs_ret]. apply performs_bind; [apply set_swap1_performs|].
    intros _ w1 _. apply set_memory_performs.
  - intros _ w1 _. apply performs_bind; [apply set_memory_performs|]. intros _ w2 _. apply set_swap1_performs.
Qed.

Lemma get_memory_limit_performs w path s v :
  files w !! join_name_of path CGROUP_MEMORY_LIMIT = Some s → limit_value s = Some v →
  performs w [] (get_memory_limit path) ∧
  ∀ a w', get_memory_limit path w = (Ok a, w') → a = v.
Proof.
  intros Hf Hs. unfold limit_value in Hs. split.
  - apply (performs_bind w [] []); [apply performs_map_err, performs_os_open; by exists s|].
    intros _ w1 [_ ->]%io_map_err_Ok%os_open_Ok.
    apply (performs_bind _ [] []); [apply performs_map_err, performs_os_read; by exists s|].
    intros c w2 [Hr ->]%io_map_err_Ok%os_read_Ok. assert (c = s) as -> by (cbn in Hr; congruence).
    cbv zeta. case_bool_decide; [apply performs_ret|].
    destruct (parse_signed 64 (trim s)); [apply performs_ret|done..].
  - intros a w' (u & w1 & [_ ->]%io_map_err_Ok%os_open_Ok
      & (c & w2 & [Hr ->]%io_map_err_Ok%os_read_Ok & Hp)%io_bind_Ok)%io_bind_Ok.
    assert (c = s) as -> by (cbn in Hr; congruence).
    cbv zeta in Hp. case_bool_decide; [injection Hp as <- _; by injection Hs|].
    destruct (parse_signed 64 (trim s)); [|done..]. injection Hp as <- _. by injection Hs.
Qed.

(** If the file shows no limit, it is an error. *)
Lemma get_memory_limit_illegible w path :
  files w !! join_name_of path CGROUP_MEMORY_LIMIT ≫= limit_value = None →
  match get_memory_limit path w with (Err _, w') => wrote [] w w' | _ => False end.
Proof.
  intros Hn. assert (emits w [] (get_memory_limit path)) as He by apply emits_read_value, parse_signed_no_panic.
  destruct (get_memory_limit path w) as [r w'] eqn:Hr.
  destruct (emits_quiet _ _ _ _ He Hr) as [Hw Hp]. destruct r as [v| |]; [|done..].
  apply io_bind_Ok in Hr as (u & w1 & [_ ->]%io_map_err_Ok%os_open_Ok & Hr).
  apply io_bind_Ok in Hr as (c & w2 & [Hf ->]%io_map_err_Ok%os_read_Ok & Hp'). cbn in Hf.
  rewrite Hf in Hn. cbn in Hn. unfold limit_value in Hn. cbv zeta in Hp'.
  case_bool_decide; [done|]. by destruct (parse_signed 64 (trim c)).
Qed.

(** [apply] makes the writes for the limit that the file shows. *)
Lemma memory1_apply_performs w path m cur :
  (is_Some (limit m) → files w !! join_name_of path CGROUP_MEMORY_LIMIT ≫= limit_value = Some cur) →
  performs w (apply_plan path m cur) (apply m path).
Proof.
  intros Hcur. unfold apply_plan, limits, apply. destruct (limit m) as [l|].
  - specialize (Hcur (mk_is_Some _ _ eq_refl)). apply bind_Some in Hcur as (s & Hf & Hs).
    destruct (get_memory_limit_performs w path s cur Hf Hs) as [Hp Hv].
    apply (performs_bind w []); [done|]. intros a w' ->%Hv.
    destruct (swap m) as [sw|]; [apply set_memory_and_swap_performs|].
    destruct (Z.eqb_spec l (-1)) as [->|]; apply set_memory_and_swap_performs.
  - destruct (swap m); apply set_memory_and_swap_performs.
Qed.

(** Everything that the controller writes. *)
Definition extra_plan (path : Path) (o : ControllerOpt) (m : LinuxMemory) : list write :=
  Cpu1.nonzero_plan path CGROUP_MEMORY_RESERVATION (reservation m)
  ++ [(join_name_of path CGROUP_MEMORY_OOM_CONTROL, pretty (if disable_oom_killer o then 1 else 0 : Z))]
  ++ Cpu1.value_plan path CGROUP_MEMORY_SWAPPINESS (swappiness m)
  ++ Cpu1.value_plan path CGROUP_KERNEL_MEMORY_LIMIT (kernel_mem m)
  ++ Cpu1.value_plan path CGROUP_KERNEL_TCP_MEMORY_LIMIT (kernel_tcp m).

Definition controller_plan (path : Path) (o : ControllerOpt) (cur : Z) : list write :=
  from_option (λ m, apply_plan path m cur ++ extra_plan path o m) [] (memory (resources o)).

Definition swappiness_ok (o : ControllerOpt) : bool :=
  from_option (λ m, from_option (λ v, v <=? 100) true (swappiness m)) true (memory (resources o)).

Lemma swappiness_performs w path v :
  let m := if v <=? 100 then
             io_map_err Memory1WrappedIo (write_cgroup_file (join_name_of path CGROUP_MEMORY_SWAPPINESS) v)
           else pure (Err (SwappinessOutOfRange v)) in
  let p := [(join_name_of path CGROUP_MEMORY_SWAPPINESS, pretty v)] in
  emits w p m ∧ ((v <=? 100) = true → performs w p m).
Proof.
  cbv zeta. destruct (v <=? 100); [|split; [apply emits_err|done]].
  split; [apply performs_emits|intros _]; apply performs_map_err, performs_write_file.
Qed.

Lemma reservation_performs w path m :
  performs w (Cpu1.nonzero_plan path CGROUP_MEMORY_RESERVATION (reservation m))
    (if negb (default 0 (reservation m) =? 0) then
       io_map_err Memory1WrappedIo
         (write_cgroup_file (join_name_of path CGROUP_MEMORY_RESERVATION) (default 0 (reservation m)))
     else mret ()).
Proof.
  destruct (reservation m) as [r|]; [|apply performs_ret]. cbn.
  destruct (r =? 0); [apply performs_ret|apply performs_map_err, performs_write_file].
Qed.

Lemma oom_control_performs w path (b : bool) :
  performs w [(join_name_of path CGROUP_MEMORY_OOM_CONTROL, pretty (if b then 1 else 0 : Z))]
    (io_map_err Memory1WrappedIo (set_oom_control path b)).
Proof. apply performs_map_err. destruct b; apply performs_write_file. Qed.

Lemma optional_performs w path file v :
  performs w (Cpu1.value_plan path file v)
    (when_some v (λ v : Z, io_map_err Memory1WrappedIo (write_cgroup_file (join_name_of path file) v))).
Proof. apply performs_when_some. intros z _. apply performs_map_err, performs_write_file. Qed.

(** The controller as a whole.  An invalid swappiness is only reported when the limits
    have been written. *)
Lemma memory1_controller_performs w path o cur :
  (∀ m, memory (resources o) = Some m → is_Some (limit m) →
     files w !! join_name_of path CGROUP_MEMORY_LIMIT ≫= limit_value = Some cur) →
  emits w (controller_plan path o cur) (controller_apply o path) ∧
  (swappiness_ok o = true → performs w (controller_plan path o cur) (controller_apply o path)).
Proof.
  intros Hcur. unfold controller_plan, extra_plan, controller_apply, swappiness_ok.
  destruct (memory (resources o)) as [m|]; [|split; [apply emits_ret|intros _; apply performs_ret]].
  pose proof (memory1_apply_performs w path m cur (Hcur m eq_refl)) as Ha. cbn [from_option when_some].
  split; [|intros Hok].
  - apply emits_bind; [by apply performs_emits|intros _ w1 _].
    apply emits_bind; [apply performs_emits, reservation_performs|intros _ w2 _].
    apply emits_bind; [apply performs_emits, oom_control_performs|intros _ w3 _].
    apply emits_bind; [destruct (swappiness m); [apply (proj1 (swappiness_performs _ _ _))|apply emits_ret]|intros _ w4 _].
    apply emits_bind; [apply performs_emits, optional_performs|intros _ w5 _].
    apply performs_emits, optional_performs.
  - apply performs_bind; [done|intros _ w1 _]. apply performs_bind; [apply reservation_performs|intros _ w2 _].
    apply performs_bind; [apply oom_control_performs|intros _ w3 _].
    apply performs_bind; [destruct (swappiness m); [by apply (proj2 (swappiness_performs _ _ _))|apply performs_ret]|intros _ w4 _].
    apply performs_bind; [apply optional_performs|intros _ w5 _]. apply optional_performs.
Qed.

(** *** The rule of the kernel

    The kernel counts in pages and takes no memory limit above the memory-and-swap limit,
    in whichever order they are written. *)
Section kernel_rule.
Context (page : Z).

Definition MAX_PAGES : Z := (2 ^ 63 - 1) / page.

Definition pages (v : Z) : Z := if v =? -1 then MAX_PAGES else Z.min (v / page) MAX_PAGES.

Definition kernel_step (path : Path) (st : Z * Z) (wr : write) : option (Z * Z) :=
  let '(lim, memsw) := st in
  match parse_signed 64 wr.2 with
  | Ok v =>
      if bool_decide (wr.1 = join_name_of path CGROUP_MEMORY_LIMIT) then
        if pages v <=? memsw then Some (pages v, memsw) else None
      else if bool_decide (wr.1 = join_name_of path CGROUP_MEMORY_SWAP_LIMIT) then
        if lim <=? pages v then Some (lim, pages v) else None
      else None
  | _ => None
  end.

Definition kernel_run (path : Path) (plan : list write) (st : Z * Z) : option (Z * Z) :=
  foldl (λ o wr, o ≫= λ st, kernel_step path st wr) (Some st) plan.

Definition in_i64 (v : Z) : Prop := - 2 ^ 63 ≤ v < 2 ^ 63.

Lemma step_limit path lim memsw v : in_i64 v → pages v ≤ memsw →
  kernel_step path (lim, memsw) (join_name_of path CGROUP_MEMORY_LIMIT, pretty v) = Some (pages v, memsw).
Proof.
  intros Hv Hle. unfold kernel_step. cbn [fst snd].
  rewrite (parse_signed_pretty 64), bool_decide_eq_true_2 by done. by rewrite (proj2 (Z.leb_le _ _)).
Qed.

Lemma step_swap path lim memsw v : in_i64 v → lim ≤ pages v →
  kernel_step path (lim, memsw) (join_name_of path CGROUP_MEMORY_SWAP_LIMIT, pretty v) = Some (lim, pages v).
Proof.
  intros Hv Hle. unfold kernel_step. cbn [fst snd]. rewrite (parse_signed_pretty 64) by done.
  rewrite bool_decide_eq_false_2, bool_decide_eq_true_2; [by rewrite (proj2 (Z.leb_le _ _))|done|].
  unfold join_name_of. change (components CGROUP_MEMORY_LIMIT) with [Normal CGROUP_MEMORY_LIMIT].
  change (components CGROUP_MEMORY_SWAP_LIMIT) with [Normal CGROUP_MEMORY_SWAP_LIMIT].
  rewrite !join_name. by intros [_ [=]]%app_inj_tail.
Qed.

Lemma run_cons path plan st st' wr :
  kernel_step path st wr = Some st' → kernel_run path (wr :: plan) st = kernel_run path plan st'.
Proof. intros Hs. unfold kernel_run. cbn. by rewrite Hs. Qed.

(** Both limits, valid and not zero: the order of the writes suits the kernel. *)
Lemma both_accepted path l s lim memsw :
  0 < page → in_i64 l → in_i64 s → l ≠ 0 → s ≠ 0 → -1 ≤ l →
  s = -1 ∨ (0 < l ∧ l ≤ s) → lim ≤ memsw → lim ≤ MAX_PAGES →
  kernel_run path (both_plan path l s ((s =? -1) || (lim * page <? s))) (lim, memsw)
  = Some (pages l, pages s).
Proof.
  intros Hp Hl Hs Hl0 Hs0 Hl1 Hv Hle Hmax.
  assert (pages l ≤ pages s) as Hls.
  { unfold pages. destruct Hv as [->|[H0 H1]]; [cbn; case_match; lia|].
    rewrite (proj2 (Z.eqb_neq l (-1))), (proj2 (Z.eqb_neq s (-1))) by lia.
    apply Z.min_le_compat_r, Z.div_le_mono; lia. }
  unfold both_plan, limit_plan, swap_plan, Cpu1.nonzero_plan. cbn [from_option].
  rewrite (proj2 (Z.eqb_neq l 0)), (proj2 (Z.eqb_neq s 0)) by done.
  destruct ((s =? -1) || (lim * page <? s)) eqn:Hu; cbn [app].
  - assert (lim ≤ pages s).
    { unfold pages. destruct (s =? -1) eqn:Hm; [done|]. cbn in Hu. apply Z.ltb_lt in Hu.
      apply Z.min_glb; [|done]. apply Z.div_le_lower_bound; lia. }
    rewrite (run_cons _ _ _ (lim, pages s)) by (by apply step_swap).
    do 2 rewrite (run_cons _ _ _ (pages l, pages s)) by (by apply step_limit).
    by rewrite (run_cons _ _ _ (pages l, pages s)) by (by apply step_swap).
  - apply orb_false_iff in Hu as [Hm Hu]. apply Z.ltb_ge in Hu. apply Z.eqb_neq in Hm.
    assert (pages s ≤ lim).
    { unfold pages. rewrite (proj2 (Z.eqb_neq s (-1))) by done.
      etrans; [apply Z.le_min_l|]. apply Z.div_le_upper_bound; lia. }
    rewrite (run_cons _ _ _ (pages l, memsw)) by (apply step_limit; [done|lia]).
    by rewrite (run_cons _ _ _ (pages l, pages s)) by (by apply step_swap).
Qed.
End kernel_rule.
End Memory1.

(** ** [freezer.rs] *)

Module Freezer1.
Definition CGROUP_FREEZER_STATE : string := "freezer.state".
Definition FREEZER_STATE_THAWED : string := "THAWED".
Definition FREEZER_STATE_FROZEN : string := "FROZEN".
Definition FREEZER_STATE_FREEZING : string := "FREEZING".

Inductive V1FreezerControllerError : Type :=
  | Freezer1WrappedIo (e : WrappedIoError)
  | UnexpectedState (state : string)
  | UnableToFreeze.

Abbreviation freezer_io A := (io fs V1FreezerControllerError A).

(** [let _ = m;] *)
Definition ignore {E F A} (m : io fs E A) : io fs F () := λ w,
  (match (m w).1 with Panic => Panic | _ => Ok () end, (m w).2).

Definition state_file (cgroup_root : Path) : Path := join_name_of cgroup_root CGROUP_FREEZER_STATE.

Definition read_freezer_state (cgroup_root : Path) : wio string :=
  _ ← io_map_err (λ err, WOpen err cgroup_root) (os_open (state_file cgroup_root));
  io_map_err (λ err, WRead err cgroup_root) (os_read (state_file cgroup_root)).

(** Iteration [i] of the loop, up to the state that is read. *)
Definition freeze_round (i : Z) (cgroup_root : Path) : freezer_io string :=
  _ ← (if i mod 50 =? 49 then
         _ ← ignore (write_cgroup_file_str (state_file cgroup_root) FREEZER_STATE_THAWED);
         os_sleep 10
       else mret ());
  _ ← io_map_err Freezer1WrappedIo
        (write_cgroup_file_str (state_file cgroup_root) FREEZER_STATE_FROZEN);
  _ ← (if i mod 25 =? 24 then os_sleep 10 else mret ());
  io_map_err Freezer1WrappedIo (read_freezer_state cgroup_root).

(** The iterations from [i] on; [n] are left. *)
Fixpoint freeze_loop (n : nat) (i : Z) (cgroup_root : Path) : freezer_io () :=
  match n with
  | O => pure (Err UnableToFreeze)
  | S n =>
      r ← freeze_round i cgroup_root;
      if bool_decide (trim r = FREEZER_STATE_FREEZING) then freeze_loop n (i + 1) cgroup_root
      else if bool_decide (trim r = FREEZER_STATE_FROZEN) then mret ()
      else pure (Err (UnexpectedState r))
  end.

Definition apply (freezer_state : FreezerState) (cgroup_root : Path) : freezer_io () :=
  match freezer_state with
  | Undefined => mret ()
  | Thawed => io_map_err Freezer1WrappedIo
      (write_cgroup_file_str (state_file cgroup_root) FREEZER_STATE_THAWED)
  | Frozen => λ w,
      let '(r, w) := freeze_loop 1000 0 cgroup_root w in
      if is_err r
      then (r, (write_cgroup_file_str (state_file cgroup_root) FREEZER_STATE_THAWED w).2)
      else (r, w)
  end.

Definition controller_apply (o : ControllerOpt) (cgroup_root : Path) : freezer_io () :=
  _ ← io_map_err (λ err, Freezer1WrappedIo (WCreateDir err cgroup_root))
        (create_dir_all (length cgroup_root) cgroup_root);
  when_some (freezer_state o) (λ s, apply s cgroup_root).

(** *** Bounds *)

(** What a part of the loop did: the operations [ops], and no file came or went. *)
Definition after (w w' : fs) (ops : list fs_op) : Prop :=
  journal w' = journal w ++ ops ∧ refuse w' = refuse w ∧ kernel w' = kernel w ∧
  (∀ q, stable (kernel w) → is_Some (files w' !! q) ↔ is_Some (files w !! q)).

Lemma after_nil w : after w w [].
Proof. unfold after. by rewrite app_nil_r. Qed.

Lemma after_trans w1 w2 w3 o1 o2 : after w1 w2 o1 → after w2 w3 o2 → after w1 w3 (o1 ++ o2).
Proof.
  intros (H1 & H2 & H3 & H4) (H5 & H6 & H7 & H8). unfold after. rewrite H5, H1, H6, H7, app_assoc.
  do 3 (split; [done|]). intros q Hs. rewrite H8 by (by rewrite H3). by apply H4.
Qed.

Lemma after_wrote w w' plan : wrote plan w w' → after w w' (writes plan).
Proof.
  intros Hw. pose proof Hw as (H1 & _ & H2 & H3 & _). split; [done|]. split; [done|]. split; [done|].
  intros q. by apply (wrote_files _ _ _ q Hw).
Qed.

Lemma ready_after w w' ops plan : after w w' ops → ready plan w → ready plan w'.
Proof.
  intros (_ & Hr & Hk & Hf) (H1 & H2 & H3). unfold ready. rewrite Hr, Hk.
  split; [done|]. split; [done|]. eapply Forall_impl; [exact H3|]. intros [q d]. by apply Hf.
Qed.

Section bounds.
Context (root : Path).

(** What freezing may do, how often it asked for it, and for how long the loop sleeps. *)
Definition freezer_op (op : fs_op) : Prop :=
  op = OpWrite (state_file root) FREEZER_STATE_FROZEN ∨
  op = OpWrite (state_file root) FREEZER_STATE_THAWED ∨ op = OpSleep 10.

Definition freezes (ops : list fs_op) : nat :=
  length (filter (λ op, op = OpWrite (state_file root) FREEZER_STATE_FROZEN) ops).

Definition nap (i : Z) : Z := (if i mod 50 =? 49 then 10 else 0) + (if i mod 25 =? 24 then 10 else 0).

Fixpoint naps (n : nat) (i : Z) : Z := match n with O => 0 | S n => nap i + naps n (i + 1) end.

Definition spends {A} (t : Z) (c : nat) (m : freezer_io A) (w : fs) (Q : A → fs → Prop) : Prop :=
  ∃ r w' ops, m w = (r, w') ∧ after w w' ops ∧ Forall freezer_op ops ∧ slept ops ≤ t ∧
    (freezes ops ≤ c)%nat ∧
    match r with
    | Ok a => freezes ops = c ∧ Q a w'
    | Err e => e ≠ UnableToFreeze
    | Panic => False
    end.

Local Ltac parts := split; [done|split; [done|split; [done|split; [lia|split; [lia|]]]]].

Lemma slept_app o1 o2 : slept (o1 ++ o2) = slept o1 + slept o2.
Proof. unfold slept. induction o1 as [|op o1 IH]; [done|]. cbn. destruct op; lia. Qed.

Lemma freezes_app o1 o2 : freezes (o1 ++ o2) = (freezes o1 + freezes o2)%nat.
Proof. unfold freezes. by rewrite filter_app, length_app. Qed.

Lemma spends_bind {A B} t1 t2 c1 c2 (m : freezer_io A) (f : A → freezer_io B) w Q1 Q2 :
  0 ≤ t2 → spends t1 c1 m w Q1 → (∀ a w', Q1 a w' → spends t2 c2 (f a) w' Q2) →
  spends (t1 + t2) (c1 + c2) (m ≫= f) w Q2.
Proof.
  intros Ht (r & w1 & o1 & Hm & Ha & Ho & Hs & Hfr & Hr) Hf. unfold spends, mbind, io_bind. rewrite Hm.
  destruct r as [a|e|]; [|exists (Err e), w1, o1; by parts|done].
  destruct Hr as [Hc HQ].
  destruct (Hf a w1 HQ) as (r & w2 & o2 & -> & Ha2 & Ho2 & Hs2 & Hfr2 & Hr2).
  exists r, w2, (o1 ++ o2). split; [done|]. split; [by eapply after_trans|].
  split; [by apply Forall_app|]. rewrite slept_app, freezes_app. split; [lia|]. split; [lia|].
  destruct r as [b|e|]; [|done..]. split; [lia|]. apply Hr2.
Qed.

Lemma spends_ret w : spends 0 0 (mret ()) w (λ _ _, True).
Proof. exists (Ok ()), w, []. split; [done|]. split; [apply after_nil|]. split; [constructor|]. done. Qed.

Lemma spends_sleep w : spends 10 0 (os_sleep 10) w (λ _ _, True).
Proof.
  eexists (Ok ()), _, [OpSleep 10]. split; [done|]. split; [by repeat split|].
  split; [apply Forall_singleton; by do 2 right|]. done.
Qed.

(** The world after a write that was made or not. *)
Lemma write_after p d w : ∃ r w' ops, write_cgroup_file_str p d w = (r, w') ∧ after w w' ops ∧
  match r with Ok _ => ops = [OpWrite p d] | Err _ => ops = [] ∨ ops = [OpWrite p d] | Panic => False end.
Proof.
  pose proof (emits_write_str w p d) as He. unfold emits in He.
  destruct (write_cgroup_file_str p d w) as [[u|e|] w1]; [..|done].
  - exists (Ok u), w1, [OpWrite p d]. split; [done|]. split; [by apply (after_wrote _ _ [(p, d)])|done].
  - destruct He as [k Hk%after_wrote]. exists (Err e), w1, (writes (take k [(p, d)])).
    split; [done|]. split; [done|]. destruct k as [|k]; [by left|right; by destruct k].
Qed.

Lemma spends_freeze w :
  spends 0 1 (io_map_err Freezer1WrappedIo (write_cgroup_file_str (state_file root) FREEZER_STATE_FROZEN)) w
    (λ _ _, True).
Proof.
  destruct (write_after (state_file root) FREEZER_STATE_FROZEN w) as (r & w' & ops & Hw & Ha & Hr).
  exists (map_err Freezer1WrappedIo r), w', ops. unfold io_map_err. rewrite Hw. split; [done|]. split; [done|].
  assert (∀ op, op = OpWrite (state_file root) FREEZER_STATE_FROZEN → Forall freezer_op [op]) as Hop.
  { intros op ->. apply Forall_singleton. by left. }
  destruct r as [u|e|]; [|destruct Hr as [->| ->]|done].
  - subst ops. split; [by apply Hop|]. split; [done|].
    assert (freezes [OpWrite (state_file root) FREEZER_STATE_FROZEN] = 1%nat) as ->; [|done].
    unfold freezes. by rewrite filter_cons_True.
  - split; [constructor|]. split; [done|]. split; [cbn; lia|done].
  - split; [by apply Hop|]. split; [done|]. split; [|done]. unfold freezes. by rewrite filter_cons_True.
Qed.

Lemma spends_thaw w :
  spends 0 0 (ignore (write_cgroup_file_str (state_file root) FREEZER_STATE_THAWED)) w (λ _ _, True).
Proof.
  destruct (write_after (state_file root) FREEZER_STATE_THAWED w) as (r & w' & ops & Hw & Ha & Hr).
  exists (Ok ()), w', ops. unfold ignore. rewrite Hw. split; [by destruct r|]. split; [done|].
  assert (ops = [] ∨ ops = [OpWrite (state_file root) FREEZER_STATE_THAWED]) as [->| ->].
  { destruct r; [by right|done|done]. }
  - split; [constructor|]. done.
  - split; [apply Forall_singleton; by right; left|]. split; [done|].
    assert (freezes [OpWrite (state_file root) FREEZER_STATE_THAWED] = 0%nat) as ->; [|done].
    unfold freezes. by rewrite filter_cons_False.
Qed.

Lemma spends_read w :
  spends 0 0 (io_map_err Freezer1WrappedIo (read_freezer_state root)) w
    (λ s w', files w' !! state_file root = Some s).
Proof.
  assert (emits w [] (read_freezer_state root)) as He.
  { apply (emits_bind w [] []); [apply emits_map_err, emits_open|]. intros _ w' _. apply emits_map_err, emits_os_read. }
  destruct (read_freezer_state root w) as [r w'] eqn:Hr.
  destruct (Memory1.emits_quiet _ _ _ _ He Hr) as [Hw%after_wrote Hp].
  exists (map_err Freezer1WrappedIo r), w', []. unfold io_map_err. rewrite Hr. split; [done|].
  split; [done|]. split; [constructor|]. do 2 (split; [done|]). destruct r as [s|e|]; [|done..].
  split; [done|]. apply io_bind_Ok in Hr as (u & w1 & [_ ->]%io_map_err_Ok%os_open_Ok & Hr).
  by apply io_map_err_Ok, os_read_Ok in Hr as [? ->].
Qed.

Lemma spends_round i w :
  spends (nap i) 1 (freeze_round i root) w (λ s w', files w' !! state_file root = Some s).
Proof.
  replace (nap i) with ((if i mod 50 =? 49 then 10 else 0) + (0 + ((if i mod 25 =? 24 then 10 else 0) + 0)))
    by (unfold nap; lia).
  apply (spends_bind _ _ 0 1 _ _ w (λ _ _, True)); [by repeat case_match| |intros _ w1 _].
  { case_match; [|apply spends_ret]. apply (spends_bind 0 10 0 0 _ _ w (λ _ _, True)); [done|apply spends_thaw|].
    intros _ w1 _. apply spends_sleep. }
  apply (spends_bind _ _ 1 0 _ _ w1 (λ _ _, True)); [by case_match|apply spends_freeze|intros _ w2 _].
  apply (spends_bind _ _ 0 0 _ _ w2 (λ _ _, True)); [done|case_match; [apply spends_sleep|apply spends_ret]|].
  intros _ w3 _. apply spends_read.
Qed.

Lemma naps_nonneg n i : 0 ≤ naps n i.
Proof.
  revert i. induction n as [|n IH]; intros i; cbn; [done|]. specialize (IH (i + 1)).
  unfold nap. repeat case_match; lia.
Qed.

(** The loop: at most [n] requests to freeze; success means that the state file says so,
    and giving up that all requests were made. *)
Lemma freeze_loop_spec n i w :
  ∃ r w' ops, freeze_loop n i root w = (r, w') ∧ after w w' ops ∧ Forall freezer_op ops ∧
    slept ops ≤ naps n i ∧ (freezes ops ≤ n)%nat ∧
    match r with
    | Ok _ => ∃ s, files w' !! state_file root = Some s ∧ trim s = FREEZER_STATE_FROZEN
    | Err e => e = UnableToFreeze → freezes ops = n
    | Panic => False
    end.
Proof.
  revert i w. induction n as [|n IH]; intros i w; cbn [freeze_loop naps].
  { exists (Err UnableToFreeze), w, []. split; [done|]. split; [apply after_nil|]. split; [constructor|]. done. }
  pose proof (naps_nonneg n (i + 1)) as Hn.
  destruct (spends_round i w) as (r & w1 & o1 & Hm & Ha & Ho & Hs & Hfr & Hr).
  unfold mbind, io_bind. rewrite Hm. destruct r as [s|e|]; [|exists (Err e), w1, o1|done].
  2:{ by parts. }
  destruct Hr as [Hc Hs1]. case_bool_decide as H1; [|case_bool_decide as H2].
  - destruct (IH (i + 1) w1) as (r & w2 & o2 & -> & Ha2 & Ho2 & Hs2 & Hfr2 & Hr2).
    exists r, w2, (o1 ++ o2). split; [done|]. split; [by eapply after_trans|].
    split; [by apply Forall_app|]. rewrite slept_app, freezes_app. split; [lia|]. split; [lia|].
    destruct r as [b|e|]; [done| |done]. intros He. rewrite Hc. f_equal. by apply Hr2.
  - exists (Ok ()), w1, o1. parts. by exists s.
  - exists (Err (UnexpectedState s)), w1, o1. by parts.
Qed.

(** The last operation that was tried is to write [data], and the file is not there or the
    environment refused to open it or to take the data. *)
Definition refused_write (data : string) (w w' : fs) : Prop :=
  files w' !! state_file root = None ∨
  ∃ n, clock w' = S n ∧
    (is_Some (refuse w n (OpOpen (state_file root))) ∨ is_Some (refuse w n (OpWrite (state_file root) data))).

Lemma write_refused data w r w' :
  write_cgroup_file_str (state_file root) data w = (r, w') → is_ok r = true ∨ refused_write data w w'.
Proof.
  unfold write_cgroup_file_str, os_open, os_write, io_map_err, attempt, act, mbind, io_bind.
  destruct (refuse w (clock w) _) eqn:Ho; cbn.
  { intros [= <- <-]. right. right. exists (clock w). split; [done|]. left. by eexists. }
  case_bool_decide as Hf; cbn.
  - destruct (refuse w (S (clock w)) _) eqn:Hw; cbn; intros [= <- <-]; [|by left].
    right. right. exists (S (clock w)). split; [done|]. right. by eexists.
  - intros [= <- <-]. right. left. cbn. by apply eq_None_not_Some.
Qed.

Lemma open_ready p w : refuse w (clock w) (OpOpen p) = None → is_Some (files w !! p) → os_open p w = (Ok (), tick w).
Proof.
  intros Hr Hf. unfold os_open, attempt, act, mbind, io_bind. rewrite Hr. cbn.
  by rewrite bool_decide_eq_true_2.
Qed.

Lemma write_ready p d w : refuse w (clock w) (OpWrite p d) = None →
  os_write p d w = (Ok (), record (OpWrite p d) (dirs w) (kernel w (S (clock w)) p d (files w)) (tick w)).
Proof. intros Hr. unfold os_write, attempt, act, mbind, io_bind. by rewrite Hr. Qed.

Lemma read_ready p s w : refuse w (clock w) (OpRead p) = None → files w !! p = Some s → os_read p w = (Ok s, tick w).
Proof.
  intros Hr Hf. unfold os_read, attempt, act, mbind, io_bind. rewrite Hr. cbn. by rewrite Hf.
Qed.

(** A kernel that freezes at once. *)
Lemma freeze_at_once n i w :
  i mod 50 ≠ 49 → i mod 25 ≠ 24 →
  ready [(state_file root, FREEZER_STATE_FROZEN)] w →
  (∀ n m, trim <$> kernel w n (state_file root) FREEZER_STATE_FROZEN m !! state_file root
          = Some FREEZER_STATE_FROZEN) →
  ∃ w', freeze_loop (S n) i root w = (Ok (), w') ∧
    journal w' = journal w ++ [OpWrite (state_file root) FREEZER_STATE_FROZEN].
Proof.
  intros Hi1%Z.eqb_neq Hi2%Z.eqb_neq (Hr & Hst & Hf) Hk. rewrite Forall_singleton in Hf. cbn [freeze_loop].
  set (w1 := record (OpWrite (state_file root) FREEZER_STATE_FROZEN) (dirs w)
    (kernel w (S (S (clock w))) (state_file root) FREEZER_STATE_FROZEN (files w)) (tick (tick w))).
  destruct (fmap_Some_1 _ _ _ (Hk (S (S (clock w))) (files w))) as (s & Hs & Htrim).
  assert (freeze_round i root w = (Ok s, tick (tick w1))) as Hround.
  { assert (is_Some (files w1 !! state_file root)) as Hs1 by by exists s.
    unfold freeze_round, read_freezer_state, write_cgroup_file_str. rewrite Hi1, Hi2.
    unfold mret, io_ret, mbind, io_bind, io_map_err.
    rewrite (open_ready _ w) by (exact Hf || apply Hr). cbn [fst snd map_err].
    rewrite (write_ready _ _ (tick w)) by apply Hr. cbn [fst snd map_err].
    change (record _ _ _ _) with w1. rewrite (open_ready _ w1) by (exact Hs1 || apply Hr). cbn [fst snd map_err].
    by rewrite (read_ready _ s (tick w1)) by (exact Hs || apply Hr). }
  unfold mbind, io_bind. rewrite Hround. rewrite bool_decide_eq_false_2 by by rewrite <- Htrim.
  rewrite bool_decide_eq_true_2 by done. by eexists.
Qed.
End bounds.
End Freezer1.

(** ** Properties *)

(** Memory limits on cgroup v1.  When both a memory limit and a memory-and-swap limit are
    configured and valid (neither is zero, the former is not above the latter), then
    [Memory::apply] makes a sequence of writes that depends on the current limit, whatever the
    environment refuses stopping at the first failure, and the kernel, which takes no memory limit
    above the memory-and-swap limit at any time, accepts every one of them: whatever limits were
    in force before, afterwards the configured ones are. *)
Theorem v1_memory_order page path m l s w contents lim memsw :
  0 < page → limit m = Some l → swap m = Some s →
  Memory1.in_i64 l → Memory1.in_i64 s → l ≠ 0 → s ≠ 0 → -1 ≤ l → s = -1 ∨ (0 < l ∧ l ≤ s) →
  lim ≤ memsw → lim ≤ Memory1.MAX_PAGES page →
  files w !! join_name_of path Memory1.CGROUP_MEMORY_LIMIT = Some contents →
  Memory1.limit_value contents = Some (lim * page) →
  ∃ plan, performs w plan (Memory1.apply m path) ∧
    Memory1.kernel_run page path plan (lim, memsw) = Some (Memory1.pages page l, Memory1.pages page s).
Proof.
  intros Hp Hl Hs Hl64 Hs64 Hl0 Hs0 Hl1 Hv Hle Hmax Hf Hc.
  exists (Memory1.apply_plan path m (lim * page)). split.
  { apply Memory1.memory1_apply_performs. intros _. by rewrite Hf. }
  unfold Memory1.apply_plan, Memory1.limits. rewrite Hl, Hs. by apply Memory1.both_accepted.
Qed.

Lemma v1_memory_order_witness :
  let path := components "/sys/fs/cgroup/memory/c" in
  ∃ plan, performs (example_fs [(join_name_of path "memory.limit_in_bytes", "9223372036854771712")])
      plan (Memory1.apply (MkMemory (Some 1048576) None (Some 2097152) None None None) path) ∧
    Memory1.kernel_run 4096 path plan (2251799813685247, 2251799813685247) = Some (256, 512).
Proof.
  intros path. apply (v1_memory_order 4096 path _ 1048576 2097152 _ "9223372036854771712"
    2251799813685247 2251799813685247); try done; lia.
Defined.

(** C23: Freezing a cgroup v1.  [Freezer::apply] with [Frozen] does nothing but write the two states
    to the state file, the request to freeze at most 1000 times, and sleep, altogether for at most
    600 milliseconds, whatever the environment refuses, and it always comes to an end.  It succeeds
    only if the state file reads [FROZEN], and with a single request where the kernel freezes at
    once; it gives up only after 1000 requests.  Whenever it fails, for whatever reason, the last
    thing that it does is to thaw the cgroup, unless that very write is refused. *)
Theorem v1_freezer_spec root w :
  ∃ r w' ops, Freezer1.apply Frozen root w = (r, w') ∧ journal w' = journal w ++ ops ∧
    Forall (Freezer1.freezer_op root) ops ∧ slept ops ≤ 600 ∧ (Freezer1.freezes root ops ≤ 1000)%nat ∧
    (ready [(Freezer1.state_file root, "FROZEN")] w →
     (∀ n m, trim <$> kernel w n (Freezer1.state_file root) "FROZEN" m !! Freezer1.state_file root
             = Some "FROZEN") →
     r = Ok () ∧ ops = [OpWrite (Freezer1.state_file root) "FROZEN"]) ∧
    match r with
    | Ok _ => ∃ s, files w' !! Freezer1.state_file root = Some s ∧ trim s = "FROZEN"
    | Err e =>
        (e = Freezer1.UnableToFreeze → Freezer1.freezes root ops = 1000%nat) ∧
        (last ops = Some (OpWrite (Freezer1.state_file root) "THAWED") ∨
         Freezer1.refused_write root "THAWED" w w')
    | Panic => False
    end.
Proof.
  destruct (Freezer1.freeze_loop_spec root 1000 0 w) as (r & w1 & o1 & Hl & Ha & Ho & Hs & Hfr & Hr).
  change (Freezer1.naps 1000 0) with 600 in Hs.
  assert (ready [(Freezer1.state_file root, "FROZEN")] w →
    (∀ n m, trim <$> kernel w n (Freezer1.state_file root) "FROZEN" m !! Freezer1.state_file root
            = Some "FROZEN") →
    r = Ok () ∧ o1 = [OpWrite (Freezer1.state_file root) "FROZEN"]) as Honce.
  { intros Hrd Hk. destruct (Freezer1.freeze_at_once root 999 0 w ltac:(done) ltac:(done) Hrd Hk) as (w2 & Hl2 & Hj).
    rewrite Hl2 in Hl. injection Hl as <- <-. split; [done|]. destruct Ha as [Ha _].
    rewrite Hj in Ha. by apply app_inv_head in Ha. }
  unfold Freezer1.apply. rewrite Hl. destruct r as [u|e|]; cbn [is_err]; [|clear Hl|done].
  { exists (Ok u), w1, o1. split; [done|]. split; [apply Ha|]. done. }
  destruct (Freezer1.write_after (Freezer1.state_file root) Freezer1.FREEZER_STATE_THAWED w1) as (r & w2 & o2 & Hw & Ha2 & Hr2).
  exists (Err e), w2, (o1 ++ o2). rewrite Hw. split; [done|].
  assert (o2 = [] ∨ o2 = [OpWrite (Freezer1.state_file root) "THAWED"]) as Ho2.
  { destruct r; [by right|done|done]. }
  assert (Freezer1.freezes root o2 = 0%nat) as Hf2.
  { destruct Ho2 as [->| ->]; [done|]. unfold Freezer1.freezes. by rewrite filter_cons_False. }
  split; [apply (Freezer1.after_trans _ _ _ _ _ Ha Ha2)|].
  rewrite Freezer1.slept_app, Freezer1.freezes_app, Hf2, Nat.add_0_r.
  split; [|split; [destruct Ho2 as [->| ->]; cbn; lia|split; [done|split; [|split; [done|]]]]].
  - apply Forall_app. split; [done|].
    destruct Ho2 as [->| ->]; [constructor|apply Forall_singleton; by right; left].
  - intros Hrd Hk. by destruct (Honce Hrd Hk).
  - destruct (Freezer1.write_refused root _ _ _ _ Hw) as [Hok|Href].
    + left. destruct r; [|done..]. rewrite Hr2, last_app. done.
    + right. destruct Ha as (_ & Hre & _). unfold Freezer1.refused_write in *. by rewrite Hre in Href.
Qed.

(** The state file cannot be read: the cgroup is thawed again. *)
Lemma v1_freezer_spec_witness :
  let root := components "/sys/fs/cgroup/freezer/c" in
  let w := MkFs ∅ {[Freezer1.state_file root := "THAWED"]} [] 0
    (λ _ op, match op with OpRead _ => Some 5 | _ => None end) (λ _ p d m, <[p := d]> m) [] in
  is_err (Freezer1.apply Frozen root w).1 = true ∧
  last (journal (Freezer1.apply Frozen root w).2) = Some (OpWrite (Freezer1.state_file root) "THAWED").
Proof.
  intros root w. assert (is_err (Freezer1.apply Frozen root w).1 = true) as He by (vm_compute; reflexivity).
  split; [exact He|]. destruct (v1_freezer_spec root w) as (r & w' & ops & Ha & Hj & _ & _ & _ & _ & Hr).
  rewrite Ha in He |- *. cbn in He. destruct r as [|e|]; [discriminate| |discriminate].
  cbn [snd]. rewrite Hj. destruct Hr as [_ [Hl|Hrefused]]; [exact Hl|].
  exfalso. destruct Hrefused as [Hnone|(n & _ & [[x Hx]|[x Hx]])]; [|discriminate..].
  assert (files (Freezer1.apply Frozen root w).2 !! Freezer1.state_file root = Some "THAWED") as Hf
    by (vm_compute; reflexivity).
  rewrite Ha in Hf. cbn [snd] in Hf. rewrite Hnone in Hf. discriminate.
Defined.

(** Values that a cpuset takes over.  When [ensure_not_empty] succeeds, under a kernel that stores
    what is written, every directory from the mount point down to the cgroup has a value that is
    not blank: its own if it had one, else that of its parent.  All other files, and all files
    that held a value, are as they were. *)
Theorem cpuset_inherits mountinfo mp names file w w' :
  components file = [Normal file] →
  Util.get_subsystem_mount_point mountinfo CtCpuSet = Ok mp → CpuSet1.stores w →
  CpuSet1.ensure_not_empty mountinfo (mp ++ (Normal <$> names)) file w = (Ok (), w') →
  (∀ i, (i < length names)%nat → ∃ v c,
     files w' !! CpuSet1.level mp file names i = Some v ∧ trim v ≠ "" ∧
     files w !! CpuSet1.level mp file names (S i) = Some c ∧
     files w' !! CpuSet1.level mp file names (S i) = Some (CpuSet1.inherited v c)) ∧
  (∀ q c, files w !! q = Some c → trim c ≠ "" → files w' !! q = Some c) ∧
  (∀ q, (∀ i, (i < length names)%nat → q ≠ CpuSet1.level mp file names (S i)) → files w' !! q = files w !! q).
Proof.
  intros Hfile Hmp Hst. unfold CpuSet1.ensure_not_empty. rewrite Hmp. cbn [map_err]. rewrite io_bind_pure.
  rewrite strip_path_prefix_app. cbn [ok_or]. rewrite io_bind_pure.
  intros Hin. destruct (CpuSet1.inherit_spec _ _ _ Hfile _ _ _ Hst Hin) as (_ & H1 & H2 & H3). done.
Qed.

Definition example_mounts : outcome V1MountPointError (list (outcome V1MountPointError MountInfo)) :=
  Ok [Ok (MkMountInfo "proc" (components "/proc"));
      Ok (MkMountInfo "cgroup" (components "/sys/fs/cgroup/cpu,cpuacct"));
      Ok (MkMountInfo "cgroup" (components "/sys/fs/cgroup/cpuset"))].

Definition example_cpuset : fs := MkFs ∅
  (list_to_map [(components "/sys/fs/cgroup/cpuset/cpuset.cpus", "0-3");
    (components "/sys/fs/cgroup/cpuset/a/cpuset.cpus", " ");
    (components "/sys/fs/cgroup/cpuset/a/b/cpuset.cpus", "")]) [] 0 (λ _ _, None) (λ _ p d m, <[p := d]> m) [].

Definition example_ensure : outcome CpuSet1.V1CpuSetControllerError () * fs :=
  CpuSet1.ensure_not_empty example_mounts (components "/sys/fs/cgroup/cpuset/a/b") "cpuset.cpus" example_cpuset.

Lemma example_ensure_ok : example_ensure.1 = Ok ().
Proof. by vm_compute. Qed.

Lemma cpuset_inherits_witness :
  ∃ v c, files example_ensure.2 !! components "/sys/fs/cgroup/cpuset/a/cpuset.cpus" = Some v ∧ trim v ≠ "" ∧
    files example_cpuset !! components "/sys/fs/cgroup/cpuset/a/b/cpuset.cpus" = Some c ∧
    files example_ensure.2 !! components "/sys/fs/cgroup/cpuset/a/b/cpuset.cpus" = Some (CpuSet1.inherited v c).
Proof.
  apply (cpuset_inherits example_mounts (components "/sys/fs/cgroup/cpuset") ["a"; "b"] "cpuset.cpus"
    example_cpuset example_ensure.2) with (i := 1%nat); [done|done|done| |cbn; lia].
  change (CpuSet1.ensure_not_empty _ _ _ _) with example_ensure.
  rewrite <- example_ensure_ok. apply surjective_pairing.
Defined.
