(* ===== verification/V1Manager.v ===== *)
(** * V1Manager: the cgroup v1 manager

    Models [crates/libcgroups/src/v1/manager.rs]: finding the directory of each controller,
    applying limits, moving a process into the cgroups, removing them and freezing.  The
    controllers are those of [V1]; the mount table and the cgroups of the process are
    what [procfs] reads. *)
From S2P Require Import Prelude Text Paths Devices CgroupFs CgroupTree Stats V2Controllers V1.
Local Open Scope string_scope.
Local Open Scope list_scope.
Local Open Scope Z_scope.

(** A hash map from controllers to directories, in its iteration order. *)
Record Manager : Type := MkManager { subsystems : list (ControllerType * Path) }.

(** The errors of other crates are not told apart. *)
Inductive V1ManagerError : Type :=
  | WrappedIo (e : WrappedIoError)
  | MountPoint (e : V1MountPointError)
  | Proc
  | JoinSafely (e : JoinSafelyError)
  | CGroupRequired (c : ControllerType)
  | SubsystemDoesNotExist
  | Pathrs
  | CpuSetController (e : CpuSet1.V1CpuSetControllerError)
  | FreezerController (e : Freezer1.V1FreezerControllerError)
  | HugeTlbController (e : HugeTlb1.V1HugeTlbControllerError)
  | MemoryController (e : Memory1.V1MemoryControllerError)
  | BlkioStatsError (e : V1Stats.V1BlkioStatsError)
  | CpuStatsError (e : V1Stats.V1CpuStatsError)
  | CpuAcctStatsError (e : V1Stats.V1CpuAcctStatsError)
  | PidsStatsError (e : PidStatsError)
  | HugeTlbStatsError (e : V1Stats.V1HugeTlbStatsError)
  | MemoryStatsError (e : V1Stats.V1MemoryStatsError).

Abbreviation mio A := (io fs V1ManagerError A).

(** A line of [/proc/self/cgroup]. *)
Record ProcessCGroup : Type := MkProcessCGroup { controllers : list string; pathname : string }.

(** [HashMap::get] *)
Definition lookup_subsystem (m : Manager) (c : ControllerType) : option Path :=
  snd <$> head (filter (λ cp, cp.1 = c) (subsystems m)).

Definition needs_to_handle (c : ControllerType) (o : ControllerOpt) : bool :=
  match c with
  | CtCpu => bool_decide (is_Some (Cpu1.needs_to_handle o))
  | CtCpuAcct => false
  | CtCpuSet => bool_decide (is_Some (CpuSet1.needs_to_handle o))
  | CtDevices => true
  | CtHugeTlb => bool_decide (is_Some (HugeTlb1.needs_to_handle o))
  | CtMemory => bool_decide (is_Some (memory (resources o)))
  | CtPids => bool_decide (is_Some (pids (resources o)))
  | CtPerfEvent => false
  | CtBlkio => bool_decide (is_Some (block_io (resources o)))
  | CtNetworkPriority | CtNetworkClassifier => bool_decide (is_Some (network (resources o)))
  | CtFreezer => bool_decide (is_Some (freezer_state o))
  end.

Section manager.
(** The mount table, the cgroups of the process, and the order in which a hash map is
    iterated. *)
Context `{OciDisplay, OciDevices}.
Context (mountinfo : outcome V1MountPointError (list (outcome V1MountPointError MountInfo))).
Context (proc_cgroups : outcome V1ManagerError (list ProcessCGroup)).
Context (order : list (ControllerType * Path) → list (ControllerType * Path)).

Definition get_subsystem_path (cgroup_path : Path) (subsystem : ControllerType) :
    outcome V1ManagerError Path :=
  mount_point ← map_err MountPoint (Util.get_subsystem_mount_point mountinfo subsystem);
  cgroups ← proc_cgroups;
  cgroup ← ok_or (head (filter (λ c, controller_to_string subsystem ∈ controllers c) cgroups))
             SubsystemDoesNotExist;
  map_err JoinSafely
    (if bool_decide (cgroup_path = []) then join_safely mount_point (components (pathname cgroup))
     else join_safely mount_point cgroup_path).

Definition manager_new (cgroup_path : Path) : outcome V1ManagerError Manager :=
  Ok (MkManager (order (omap (λ subsystem,
    match get_subsystem_path cgroup_path subsystem with
    | Ok subsystem_path => Some (subsystem, subsystem_path)
    | _ => None
    end) CONTROLLERS))).

Fixpoint required_loop (m : Manager) (o : ControllerOpt) (cs : list ControllerType) :
    outcome V1ManagerError (list (ControllerType * Path)) :=
  match cs with
  | [] => Ok []
  | controller :: cs =>
      if needs_to_handle controller o then
        match lookup_subsystem m controller with
        | Some subsystem_path =>
            rest ← required_loop m o cs; Ok ((controller, subsystem_path) :: rest)
        | None => Err (CGroupRequired controller)
        end
      else required_loop m o cs
  end.

Definition get_required_controllers (m : Manager) (o : ControllerOpt) :
    outcome V1ManagerError (list (ControllerType * Path)) :=
  required ← required_loop m o CONTROLLERS; Ok (order required).

Definition get_all_pids (m : Manager) : mio (list Z) :=
  match lookup_subsystem m CtDevices with
  | Some p => io_map_err WrappedIo (CgroupTree.get_all_pids p)
  | None => pure (Err SubsystemDoesNotExist)
  end.

Definition apply_controller (o : ControllerOpt) (cp : ControllerType * Path) : mio () :=
  let '(ctrl_type, cgroup_path) := cp in
  match ctrl_type with
  | CtCpu => io_map_err WrappedIo (Cpu1.controller_apply o cgroup_path)
  | CtCpuAcct => mret ()
  | CtCpuSet => io_map_err CpuSetController (CpuSet1.controller_apply o cgroup_path)
  | CtDevices => io_map_err WrappedIo (Devices1.controller_apply o cgroup_path)
  | CtHugeTlb => io_map_err HugeTlbController (HugeTlb1.controller_apply o cgroup_path)
  | CtMemory => io_map_err MemoryController (Memory1.controller_apply o cgroup_path)
  | CtPids => io_map_err WrappedIo (Pids1.controller_apply o cgroup_path)
  | CtPerfEvent => mret ()
  | CtBlkio => io_map_err WrappedIo (Blkio.controller_apply o cgroup_path)
  | CtNetworkPriority => io_map_err WrappedIo (NetworkPriority.controller_apply o cgroup_path)
  | CtNetworkClassifier => io_map_err WrappedIo (NetworkClassifier.controller_apply o cgroup_path)
  | CtFreezer => io_map_err FreezerController (Freezer1.controller_apply o cgroup_path)
  end.

Definition manager_apply (m : Manager) (o : ControllerOpt) : mio () :=
  required ← pure (get_required_controllers m o);
  for_in required (apply_controller o).

Definition add_task_one (pid : Z) (cp : ControllerType * Path) : mio () :=
  let '(ctrl_type, cgroup_path) := cp in
  match ctrl_type with
  | CtCpuSet => io_map_err CpuSetController (CpuSet1.add_task mountinfo pid cgroup_path)
  | _ => io_map_err WrappedIo (controller_add_task pid cgroup_path)
  end.

Definition add_task (m : Manager) (pid : Z) : mio () := for_in (subsystems m) (add_task_one pid).

Definition remove_one (cgroup_path : Path) : mio () :=
  if_exists cgroup_path
    (let procs_path := join_name_of cgroup_path CGROUP_PROCS in
     procs ← io_map_err (λ err, WrappedIo (WRead err procs_path)) (os_read procs_path);
     _ ← io_map_err WrappedIo (kill_all procs_path (lines procs));
     io_map_err WrappedIo (delete_with_retry cgroup_path 4 (Some 100)))
    (mret ()).

Definition remove (m : Manager) : mio () := for_in (snd <$> subsystems m) remove_one.

(** The [ControllerOpt] of [freeze]: default resources and the state. *)
Definition freeze (m : Manager) (state : FreezerState) : mio () :=
  let controller_opt := MkOpt (MkV1 (MkResources None None None None None None) None None) false (Some state) in
  path ← pure (ok_or (lookup_subsystem m CtFreezer) SubsystemDoesNotExist);
  io_map_err FreezerController (Freezer1.controller_apply controller_opt path).


(** One controller of [stats], which fills in its part. *)
Definition stats_one `{Float64} (cp : ControllerType * Path) (st : Stats) : mio Stats :=
  let '(ctrl_type, cgroup_path) := cp in
  match ctrl_type with
  | CtCpu =>
      t ← io_map_err CpuStatsError (V1Stats.cpu_stats cgroup_path);
      mret (MkStats (MkCpuStats (cpu_usage (st_cpu st)) t (cpu_psi (st_cpu st)))
        (st_pids st) (st_hugetlb st) (st_blkio st) (st_memory st))
  | CtCpuAcct =>
      u ← io_map_err CpuAcctStatsError (V1Stats.cpuacct_stats cgroup_path);
      mret (MkStats (MkCpuStats u (throttling (st_cpu st)) (cpu_psi (st_cpu st)))
        (st_pids st) (st_hugetlb st) (st_blkio st) (st_memory st))
  | CtPids =>
      p ← io_map_err PidsStatsError (pid_stats cgroup_path);
      mret (MkStats (st_cpu st) p (st_hugetlb st) (st_blkio st) (st_memory st))
  | CtHugeTlb =>
      h ← io_map_err HugeTlbStatsError (V1Stats.hugetlb_stats cgroup_path);
      mret (MkStats (st_cpu st) (st_pids st) h (st_blkio st) (st_memory st))
  | CtBlkio =>
      b ← io_map_err BlkioStatsError (V1Stats.blkio_stats cgroup_path);
      mret (MkStats (st_cpu st) (st_pids st) (st_hugetlb st) b (st_memory st))
  | CtMemory =>
      m ← io_map_err MemoryStatsError (V1Stats.memory_stats cgroup_path);
      mret (MkStats (st_cpu st) (st_pids st) (st_hugetlb st) (st_blkio st) m)
  | _ => mret st
  end.

Fixpoint stats_loop `{Float64} (l : list (ControllerType * Path)) (st : Stats) : mio Stats :=
  match l with
  | [] => mret st
  | cp :: l => st ← stats_one cp st; stats_loop l st
  end.

Definition stats `{Float64} (m : Manager) : mio Stats := stats_loop (subsystems m) stats_default.
End manager.

(** ** Applying limits *)

Section plans.
Context `{OciDisplay, OciDevices}.

(** What a controller writes, when [cur] is the memory limit in force. *)
Definition controller_plan (o : ControllerOpt) (cur : Z) (w : fs) (cp : ControllerType * Path) : list write :=
  let '(c, p) := cp in
  match c with
  | CtCpu => from_option (Cpu1.plan p) [] (Cpu1.needs_to_handle o)
  | CtCpuSet => from_option (CpuSet1.plan p) [] (CpuSet1.needs_to_handle o)
  | CtDevices => Devices1.plan p o
  | CtHugeTlb => from_option (λ l, l ≫= HugeTlb1.plan p w) [] (HugeTlb1.needs_to_handle o)
  | CtMemory => Memory1.controller_plan p o cur
  | CtPids => from_option (Pids1.plan p) [] (pids (resources o))
  | CtBlkio => from_option (Blkio.plan p w) [] (block_io (resources o))
  | CtNetworkPriority => from_option (NetworkPriority.plan p) [] (network (resources o))
  | CtNetworkClassifier => from_option (NetworkClassifier.plan p) [] (network (resources o))
  | CtCpuAcct | CtPerfEvent | CtFreezer => []
  end.

(** A configuration that no controller refuses. *)
Definition acceptable (o : ControllerOpt) : Prop :=
  Memory1.swappiness_ok o = true ∧
  from_option (Forall HugeTlb.well_formed) True (hugepage_limits (resources o)).

(** The memory controller can read the limit in force. *)
Definition shows_limit (p : Path) (fl : gmap Path string) : Prop :=
  is_Some (fl !! join_name_of p Memory1.CGROUP_MEMORY_LIMIT ≫= Memory1.limit_value).

(** The plan that a run follows: some plan [pl] of the right form, made if the run succeeds. *)
Definition follows (o : ControllerOpt) (w0 w : fs) (cp : ControllerType * Path) (good : Prop) {E}
    (m : io fs E ()) : Prop :=
  ∃ cur, emits w (controller_plan o cur w0 cp) m ∧ (good → performs w (controller_plan o cur w0 cp) m).

Lemma follows_performs o w0 w cp good {E} (m : io fs E ()) :
  performs w (controller_plan o 0 w0 cp) m → follows o w0 w cp good m.
Proof. intros Hp. exists 0. split; [by apply performs_emits|done]. Qed.

Lemma memory_follows o w0 w p :
  follows o w0 w (CtMemory, p) (Memory1.swappiness_ok o = true ∧ shows_limit p (files w))
    (Memory1.controller_apply o p).
Proof.
  unfold follows, shows_limit. cbn [controller_plan].
  destruct (files w !! _ ≫= Memory1.limit_value) as [cur|] eqn:Hl.
  - exists cur. destruct (Memory1.memory1_controller_performs w p o cur) as [H1 H2]; [done|].
    split; [done|]. intros [? _]. by apply H2.
  - exists 0. split; [|by intros [_ [? ?]]].
    destruct (memory (resources o)) as [mem|] eqn:Hm; [destruct (limit mem) as [l|] eqn:Hlim|].
    2, 3: refine (proj1 (Memory1.memory1_controller_performs w p o 0 _)); intros m' Hm' [? ?]; congruence.
    unfold emits, Memory1.controller_apply, Memory1.apply. rewrite Hm. cbn [when_some]. rewrite Hlim.
    pose proof (Memory1.get_memory_limit_illegible w p Hl) as Hg. unfold mbind, io_bind.
    destruct (Memory1.get_memory_limit p w) as [[?|e|] w']; [done| |done]. by exists 0%nat.
Qed.

Lemma hugetlb_follows w0 w p (l : list LinuxHugepageLimit) :
  stable (kernel w0) → agrees w0 w →
  emits w (l ≫= HugeTlb1.plan p w0) (for_in l (HugeTlb1.apply p)) ∧
  (Forall HugeTlb.well_formed l → performs w (l ≫= HugeTlb1.plan p w0) (for_in l (HugeTlb1.apply p))).
Proof.
  intros Hst. revert w. induction l as [|h l IH]; intros w Ha.
  { split; [apply emits_ret|intros _; apply performs_ret]. }
  rewrite bind_cons.
  assert (HugeTlb1.plan p w0 h = HugeTlb1.plan p w h) as ->.
  { unfold HugeTlb1.plan. by rewrite (agrees_exists w0 w). }
  assert (HugeTlb.well_formed h → performs w (HugeTlb1.plan p w h) (HugeTlb1.apply p h)) as Hp.
  { apply HugeTlb1.hugetlb1_apply_performs. by destruct Ha as (_ & -> & _). }
  split.
  - apply (emits_step w0); [done| |intros _ w' Ha'; apply (proj1 (IH w' Ha'))].
    destruct (HugeTlb1.well_formed_dec h) as [Hw|Hw]; [by apply performs_emits, Hp|].
    destruct (HugeTlb1.hugetlb1_apply_refused w p h Hw) as [e He]. unfold emits. rewrite He.
    exists 0%nat. apply wrote_nil.
  - intros [Hw Hl]%Forall_cons. apply (performs_step w0); [done|by apply Hp|].
    intros _ w' Ha'. by apply (proj2 (IH w' Ha')).
Qed.

(** Every controller follows its plan. *)
Lemma controller_follows o w0 w c p :
  stable (kernel w0) → agrees w0 w → freezer_state o = None → needs_to_handle c o = true →
  follows o w0 w (c, p) (acceptable o ∧ (c = CtMemory → shows_limit p (files w))) (apply_controller o (c, p)).
Proof.
  intros Hst Ha Hfr Hn. destruct c; cbn [apply_controller]; try done.
  - apply follows_performs, performs_map_err, performs_when_some. intros c _. apply Cpu1.cpu1_apply_performs.
  - apply follows_performs, performs_map_err, performs_when_some. intros c _. apply CpuSet1.cpuset1_apply_performs.
  - apply follows_performs, performs_map_err, Devices1.devices1_apply_performs.
  - exists 0. cbn [controller_plan]. unfold HugeTlb1.controller_apply, acceptable, HugeTlb1.needs_to_handle.
    destruct (hugepage_limits (resources o)) as [l|]; [|split; [apply emits_ret|intros _; apply performs_ret]].
    destruct (negb _); [|split; [apply emits_ret|intros _; apply performs_ret]].
    destruct (hugetlb_follows w0 w p l Hst Ha) as [H1 H2]. cbn [from_option when_some].
    split; [by apply emits_map_err|]. intros [[_ Hl] _]. by apply performs_map_err, H2.
  - apply follows_performs, performs_map_err, performs_when_some. intros l _. apply performs_write_str.
  - destruct (memory_follows o w0 w p) as (cur & H1 & H2). exists cur. split; [by apply emits_map_err|].
    intros [[? _] Hm]. apply performs_map_err, H2. split; [done|]. by apply Hm.
  - apply follows_performs, performs_map_err, performs_when_some. intros b _.
    assert (Blkio.plan p w0 b = Blkio.plan p w b) as ->.
    { unfold Blkio.plan, Blkio.weight_plan. by rewrite (agrees_exists w0 w). }
    apply Blkio.blkio_apply_performs.
  - apply follows_performs, performs_map_err, performs_when_some. intros n _.
    apply performs_when_some. intros l _. apply performs_write_str.
  - apply follows_performs, performs_map_err, performs_when_some. intros n _.
    apply performs_when_some. intros z _. apply performs_write_file.
  - cbn in Hn. by rewrite Hfr in Hn.
Qed.

(** Plans for a list of controllers. *)
Definition plans_for (o : ControllerOpt) (w0 : fs) (l : list (ControllerType * Path)) (plans : list (list write)) : Prop :=
  Forall2 (λ cp pl, ∃ cur, pl = controller_plan o cur w0 cp) l plans.

Definition good (o : ControllerOpt) (w0 : fs) (l : list (ControllerType * Path)) : Prop :=
  acceptable o ∧
  ∀ p, (CtMemory, p) ∈ l → shows_limit p (files w0) ∧ kept (kernel w0) (shows_limit p).

Lemma plans_exist o w0 l : ∃ plans, plans_for o w0 l plans.
Proof.
  exists (controller_plan o 0 w0 <$> l). apply Forall2_fmap_r, Forall_Forall2_diag, Forall_true. by exists 0.
Qed.

Lemma controllers_follow o w0 l : ∀ w,
  stable (kernel w0) → agrees w0 w → freezer_state o = None →
  Forall (λ cp, needs_to_handle cp.1 o = true) l →
  ∃ plans, plans_for o w0 l plans ∧ emits w (concat plans) (for_in l (apply_controller o)) ∧
    (good o w0 l → performs w (concat plans) (for_in l (apply_controller o))).
Proof.
  induction l as [|[c p] l IH]; intros w Hst Ha Hfr Hn.
  { exists []. split; [constructor|]. split; [apply emits_ret|intros _; apply performs_ret]. }
  apply Forall_cons in Hn as [Hc Hn]. cbn [fst] in Hc.
  destruct (controller_follows o w0 w c p Hst Ha Hfr Hc) as (cur & H1 & H2).
  assert (good o w0 ((c, p) :: l) → acceptable o ∧ (c = CtMemory → shows_limit p (files w))) as Hg1.
  { intros [? Hm]. split; [done|]. intros ->. destruct (Hm p) as [Hs Hk]; [set_solver|].
    destruct Ha as (_ & _ & _ & Hf). by apply Hf. }
  assert (good o w0 ((c, p) :: l) → good o w0 l) as Hg2.
  { intros [? Hm]. split; [done|]. intros q Hq. apply Hm. set_solver. }
  assert (∃ plans, plans_for o w0 l plans ∧ ∀ w', apply_controller o (c, p) w = (Ok (), w') →
    emits w' (concat plans) (for_in l (apply_controller o)) ∧
    (good o w0 l → performs w' (concat plans) (for_in l (apply_controller o)))) as (plans & Hp & Hl).
  { destruct (apply_controller o (c, p) w) as [[[]|e|] w1] eqn:Hr.
    - destruct (IH w1) as (plans & ? & ?); [done| |done..|exists plans; split; [done|by intros w' [= <-]]].
      eapply agrees_wrote; [done|]. by eapply emits_Ok.
    - destruct (plans_exist o w0 l) as [plans ?]. exists plans. split; [done|]. by intros w' [=].
    - destruct (plans_exist o w0 l) as [plans ?]. exists plans. split; [done|]. by intros w' [=]. }
  exists (controller_plan o cur w0 (c, p) :: plans). cbn [concat for_in].
  split; [constructor; [by exists cur|done]|]. split.
  - apply emits_bind; [done|]. intros [] w' Hw'. apply (proj1 (Hl w' Hw')).
  - intros Hg. apply performs_bind; [by apply H2, Hg1|]. intros [] w' Hw'. by apply (proj2 (Hl w' Hw')), Hg2.
Qed.

(** The controllers that the configuration needs: the first that the system lacks, and the
    directories of all of them. *)
Definition missing (m : Manager) (o : ControllerOpt) (cs : list ControllerType) : option ControllerType :=
  head (filter (λ c, needs_to_handle c o = true ∧ lookup_subsystem m c = None) cs).

Definition needed (m : Manager) (o : ControllerOpt) (cs : list ControllerType) : list (ControllerType * Path) :=
  omap (λ c, if needs_to_handle c o then (c,.) <$> lookup_subsystem m c else None) cs.

Lemma required_loop_spec m o cs :
  required_loop m o cs =
    match missing m o cs with Some c => Err (CGroupRequired c) | None => Ok (needed m o cs) end.
Proof.
  unfold missing. induction cs as [|c cs IH]; [done|]. rewrite filter_cons.
  cbn [required_loop needed omap list_omap]. destruct (needs_to_handle c o) eqn:Hn; [|rewrite decide_False by (by intros [? ?]); exact IH].
  destruct (lookup_subsystem m c) as [p|] eqn:Hl; [rewrite decide_False by (by intros [? ?])|by rewrite decide_True].
  rewrite IH. by destruct (head _).
Qed.

Lemma needed_needs m o cs : Forall (λ cp, needs_to_handle cp.1 o = true) (needed m o cs).
Proof.
  apply Forall_forall. intros [c p] (c' & _ & Hc)%list_elem_of_omap. destruct (needs_to_handle c' o) eqn:Hn; [|done].
  apply fmap_Some in Hc as (q & _ & [= -> ->]). done.
Qed.
End plans.

(** ** Moving a process *)

(** What [add_task] may do for a controller: make directories on the way to the cgroup,
    fill in cpusets, and write the process into the cgroup. *)
Definition task_op (pid : Z) (cp : ControllerType * Path) (op : fs_op) : Prop :=
  (∃ q, op = OpMkdir q ∧ q `prefix_of` cp.2) ∨
  op = OpWrite (join_name_of cp.2 CGROUP_PROCS) (pretty pid) ∨
  (cp.1 = CtCpuSet ∧ ∃ q file v, op = OpWrite (join_name_of q file) v ∧ q `prefix_of` cp.2 ∧
     file ∈ [CpuSet1.CGROUP_CPUSET_CPUS; CpuSet1.CGROUP_CPUSET_MEMS]).

Lemma only_mono {E A} (P Q : fs_op → Prop) (m : io fs E A) : (∀ op, P op → Q op) → only P m → only Q m.
Proof. intros HPQ Hm w. destruct (Hm w) as (ops & Hj & Ho). exists ops. split; [done|]. by eapply Forall_impl. Qed.

Lemma inherit_only (P : fs_op → Prop) cg file names : ∀ current,
  (∀ q v, q `prefix_of` current ++ (Normal <$> names) → P (OpWrite (join_name_of q file) v)) →
  only P (CpuSet1.inherit cg file current (Normal <$> names)).
Proof.
  induction names as [|n names IH]; intros current HP; cbn [fmap list_fmap CpuSet1.inherit]; [apply only_ret|].
  apply only_bind; [apply (only_read P)|]. intros v. case_bool_decide; [apply only_pure|].
  rewrite join_name. cbv zeta. apply only_bind; [apply (only_read P)|]. intros c.
  apply only_bind.
  - case_bool_decide; [|apply only_ret]. apply only_map_err, only_write_str, HP.
    exists (Normal <$> names). by rewrite <- app_assoc.
  - intros _. apply IH. intros q v' Hq. apply HP. by rewrite <- app_assoc in Hq.
Qed.

Section add_task.
Context (mountinfo : outcome V1MountPointError (list (outcome V1MountPointError MountInfo))).

(** The directory of a controller is below its mount point. *)
Definition below_mount (cp : ControllerType * Path) : Prop :=
  ∃ mp names, Util.get_subsystem_mount_point mountinfo cp.1 = Ok mp ∧ cp.2 = mp ++ (Normal <$> names).

Lemma ensure_only P mp names file :
  Util.get_subsystem_mount_point mountinfo CtCpuSet = Ok mp →
  (∀ q v, q `prefix_of` mp ++ (Normal <$> names) → P (OpWrite (join_name_of q file) v)) →
  only P (CpuSet1.ensure_not_empty mountinfo (mp ++ (Normal <$> names)) file).
Proof.
  intros Hmp HP w. unfold CpuSet1.ensure_not_empty. rewrite Hmp. cbn [map_err]. rewrite io_bind_pure.
  rewrite strip_path_prefix_app. cbn [ok_or]. rewrite io_bind_pure. by apply inherit_only.
Qed.

Lemma add_task_one_only pid cp : below_mount cp → only (task_op pid cp) (add_task_one mountinfo pid cp).
Proof.
  intros (mp & names & Hmp & Hp). destruct cp as [c p]. cbn in Hmp, Hp.
  assert (∀ q, q `prefix_of` p → task_op pid (c, p) (OpMkdir q)) as Hdir by (intros q Hq; left; eauto).
  assert (task_op pid (c, p) (OpWrite (join_name_of p CGROUP_PROCS) (pretty pid))) as Hprocs by (right; by left).
  unfold add_task_one. destruct c.
  3:{ apply only_map_err, only_bind; [by apply only_map_err, only_create_dir_all|intros _].
      subst p. apply only_bind; [apply ensure_only; [done|]|intros _].
      { intros q v Hq. do 2 right. split; [done|]. exists q, CpuSet1.CGROUP_CPUSET_CPUS, v. set_solver. }
      apply only_bind; [apply ensure_only; [done|]|intros _].
      { intros q v Hq. do 2 right. split; [done|]. exists q, CpuSet1.CGROUP_CPUSET_MEMS, v. set_solver. }
      by apply only_map_err, only_write_str. }
  all: apply only_map_err, only_bind; [by apply only_map_err, only_create_dir_all|intros _; by apply only_write_str].
Qed.

(** A success ends with the operation [op]. *)
Definition ends {E A} (op : fs_op) (m : io fs E A) : Prop :=
  ∀ w a w', m w = (Ok a, w') → ∃ ops, journal w' = journal w ++ ops ++ [op].

Lemma ends_bind {E A B} op P (m : io fs E A) (f : A → io fs E B) :
  only P m → (∀ a, ends op (f a)) → ends op (m ≫= f).
Proof.
  intros Hm Hf w b w' (a & w1 & H1 & H2)%io_bind_Ok. destruct (Hm w) as (o1 & Hj & _). rewrite H1 in Hj. cbn in Hj.
  destruct (Hf a w1 b w' H2) as (o2 & Hj2). exists (o1 ++ o2). by rewrite Hj2, Hj, <- !app_assoc.
Qed.

Lemma ends_map_err {E F A} op (f : E → F) (m : io fs E A) : ends op m → ends op (io_map_err f m).
Proof. intros Hm w a w' Hok%io_map_err_Ok. by eapply Hm. Qed.

Lemma ends_write p d : ends (OpWrite p d) (write_cgroup_file_str p d).
Proof.
  intros w u w' Hw. exists []. by destruct (emits_Ok _ _ _ _ _ (emits_write_str w p d) Hw) as [-> _].
Qed.

(** A success means that the process is in the cgroup. *)
Lemma add_task_one_ends pid c p :
  below_mount (c, p) → ends (OpWrite (join_name_of p CGROUP_PROCS) (pretty pid)) (add_task_one mountinfo pid (c, p)).
Proof.
  intros (mp & names & Hmp & Hp). cbn in Hmp, Hp. unfold add_task_one. destruct c.
  3:{ subst p. apply ends_map_err, (ends_bind _ (λ _, True)); [by apply only_map_err, only_create_dir_all|intros _].
      do 2 (apply (ends_bind _ (λ _, True)); [by apply ensure_only|intros _]). apply ends_map_err, ends_write. }
  all: apply ends_map_err, (ends_bind _ (λ _, True)); [by apply only_map_err, only_create_dir_all|intros _; apply ends_write].
Qed.

Lemma add_tasks_only pid l (P : fs_op → Prop) :
  Forall below_mount l → (∀ cp op, cp ∈ l → task_op pid cp op → P op) →
  only P (for_in l (add_task_one mountinfo pid)).
Proof.
  intros Hb HP. induction Hb as [|cp l Hcp Hl IH]; cbn [for_in]; [apply only_ret|].
  apply only_bind; [|intros _; apply IH; set_solver].
  eapply only_mono; [|by apply add_task_one_only]. intros op. apply HP. set_solver.
Qed.

Lemma add_tasks_Ok pid l w w' :
  Forall below_mount l → for_in l (add_task_one mountinfo pid) w = (Ok (), w') →
  ∃ ops, journal w' = journal w ++ ops ∧
    ∀ c p, (c, p) ∈ l → OpWrite (join_name_of p CGROUP_PROCS) (pretty pid) ∈ ops.
Proof.
  intros Hb. revert w. induction Hb as [|[c p] l Hcp Hl IH]; intros w; cbn [for_in].
  { intros [= <-]. exists []. rewrite app_nil_r. set_solver. }
  intros ([] & w1 & H1 & H2)%io_bind_Ok. destruct (add_task_one_ends pid c p Hcp w () w1 H1) as [o1 Ho1].
  destruct (IH w1 H2) as (o2 & Hj2 & Ho2). exists (o1 ++ [OpWrite (join_name_of p CGROUP_PROCS) (pretty pid)] ++ o2).
  rewrite Hj2, Ho1, <- !app_assoc. split; [done|]. intros c' p' [[= -> ->]|?]%elem_of_cons; [set_solver|].
  specialize (Ho2 c' p'). set_solver.
Qed.
End add_task.

(** ** The directories of the manager *)

Lemma get_subsystem_path_below mountinfo proc cg c p :
  get_subsystem_path mountinfo proc cg c = Ok p → below_mount mountinfo (c, p).
Proof.
  unfold get_subsystem_path, below_mount. cbn [fst snd].
  destruct (Util.get_subsystem_mount_point mountinfo c) as [mp|e|]; cbn [map_err]; run; try done.
  destruct proc as [cgs|e|]; run; try done.
  destruct (head _) as [g|]; cbn [ok_or]; run; try done.
  case_bool_decide; rewrite join_safely_names; cbn [map_err]; intros [= <-]; eauto.
Qed.

Lemma manager_new_below mountinfo proc order cg m :
  (∀ l, order l ≡ₚ l) → manager_new mountinfo proc order cg = Ok m →
  Forall (below_mount mountinfo) (subsystems m) ∧
  ∀ c p, (c, p) ∈ subsystems m ↔ get_subsystem_path mountinfo proc cg c = Ok p ∧ c ∈ CONTROLLERS.
Proof.
  intros Hperm [= <-]. cbn [subsystems].
  assert (∀ c p, (c, p) ∈ order (omap (λ subsystem, match get_subsystem_path mountinfo proc cg subsystem with
      | Ok subsystem_path => Some (subsystem, subsystem_path) | _ => None end) CONTROLLERS)
    ↔ get_subsystem_path mountinfo proc cg c = Ok p ∧ c ∈ CONTROLLERS) as Hin.
  { intros c p. rewrite Hperm, list_elem_of_omap. split.
    - intros (c' & Hc' & Hg). destruct (get_subsystem_path mountinfo proc cg c') eqn:He; by simplify_eq.
    - intros [Hg Hc]. exists c. split; [done|]. by rewrite Hg. }
  split; [|done]. apply Forall_forall. intros [c p] [Hg _]%Hin. by eapply get_subsystem_path_below.
Qed.

(** ** Removing *)

(** A computation that removes directories and leaves the files. *)
Definition shrinks {E A} (m : io fs E A) : Prop :=
  ∀ w, dirs (m w).2 ⊆ dirs w ∧ files (m w).2 = files w.

Lemma shrinks_bind {E A B} (m : io fs E A) (f : A → io fs E B) :
  shrinks m → (∀ a, shrinks (f a)) → shrinks (m ≫= f).
Proof.
  intros Hm Hf w. unfold mbind, io_bind. destruct (Hm w) as [H1 H2].
  destruct (m w) as [[a|e|] w1]; [|done..]. destruct (Hf a w1) as [H3 H4]. cbn in *.
  split; [by etrans|congruence].
Qed.

Lemma shrinks_delete_loop n p a d l : shrinks (delete_loop n p a d l).
Proof.
  revert a d. induction n as [|n IH]; intros a d w; cbn [delete_loop]; [done|].
  assert (dirs (os_remove_dir p w).2 ⊆ dirs w ∧ files (os_remove_dir p w).2 = files w) as [H1 H2].
  { unfold os_remove_dir, attempt, act, mbind, io_bind. destruct (refuse _ _ _); [done|].
    cbn. case_bool_decide; cbn; [|done]. split; [set_solver|done]. }
  destruct (os_remove_dir p w) as [[u|e|] w1]; cbn [fst snd] in *; [done|..].
  all: edestruct (IH (a + 1)) as [H3 H4]; split; [etrans; [exact H3|done]|etrans; [exact H4|done]].
Qed.

Lemma shrinks_kill_all p ls : shrinks (kill_all p ls).
Proof.
  induction ls as [|l ls IH]; cbn [kill_all]; [done|]. apply shrinks_bind; [done|]. intros pid.
  apply shrinks_bind; [done|]. intros _. apply IH.
Qed.

Lemma shrinks_remove_one p : shrinks (remove_one p).
Proof.
  intros w. unfold remove_one, if_exists. destruct (exists_ p w); [|done]. apply shrinks_bind.
  - intros w1. unfold os_read, attempt, act, io_map_err, mbind, io_bind. by destruct (refuse _ _ _).
  - intros procs. apply shrinks_bind; [apply shrinks_kill_all|intros _]. apply shrinks_delete_loop.
Qed.

(** The processes that the [cgroup.procs] of a directory names. *)
Definition named (w : fs) (p : Path) (ps : list Z) : Prop :=
  ∃ content, files w !! join_name_of p CGROUP_PROCS = Some content ∧ mapM (parse_signed 32) (lines content) = Ok ps.

Lemma remove_one_Ok p w w' :
  remove_one p w = (Ok (), w') →
  (p ∉ dirs w') ∧ ∃ ps ds, journal w' = journal w ++ (OpKill <$> ps) ++ ds ∧
    (exists_ p w = false ∧ ps = [] ∧ ds = [] ∨ named w p ps ∧ last ds = Some (OpRmdir p)) ∧
    slept ds ≤ 100 ∧ Forall (λ op, op = OpRmdir p ∨ ∃ ms, op = OpSleep ms) ds.
Proof.
  unfold remove_one, if_exists. destruct (exists_ p w) eqn:Hex.
  2:{ intros [= <-]. apply orb_false_iff in Hex as Hd. destruct Hd as [Hd%bool_decide_eq_false _].
      split; [done|]. exists [], []. rewrite app_nil_r. split; [done|]. split; [by left|]. split; [done|constructor]. }
  intros (s & w1 & [Hs ->]%io_map_err_Ok%os_read_Ok & Hrest)%io_bind_Ok.
  apply io_bind_Ok in Hrest as ([] & w2 & Hk%io_map_err_Ok & Hd%io_map_err_Ok).
  apply kill_all_Ok in Hk as (ps & Hps & Hj).
  destruct (delete_loop_spec 4 p 0 10 (Some 100) w2) as (r & w3 & ds & Hl & Hjd & Ht & Hp); [done..|].
  unfold delete_with_retry in Hd. rewrite Hl in Hd. simplify_eq. destruct Hp as [Hp Hlast].
  split; [done|]. exists ps, ds. rewrite Hjd, Hj. cbn [journal tick]. rewrite <- app_assoc.
  split; [done|]. split; [right; split; [by exists s|done]|]. split; [done|].
  destruct (delete_loop_only 4 p 0 10 (Some 100) w2) as (ops & Hops & Ho). rewrite Hl in Hops. cbn in Hops.
  rewrite Hjd in Hops. by apply app_inv_head in Hops as <-.
Qed.

Lemma remove_all_Ok l : ∀ w w',
  for_in l remove_one w = (Ok (), w') →
  (∀ p, p ∈ l → p ∉ dirs w') ∧ ∃ ops, journal w' = journal w ++ ops ∧
    slept ops ≤ 100 * Z.of_nat (length l) ∧
    ∀ z, OpKill z ∈ ops → ∃ p ps, p ∈ l ∧ named w p ps ∧ z ∈ ps.
Proof.
  induction l as [|p l IH]; intros w w'; cbn [for_in].
  { intros [= <-]. split; [set_solver|]. exists []. rewrite app_nil_r. split; [done|]. split; [done|set_solver]. }
  intros ([] & w1 & H1 & H2)%io_bind_Ok.
  destruct (remove_one_Ok p w w1 H1) as (Hp & ps & ds & Hj & Hcase & Ht & Hds).
  destruct (IH w1 w' H2) as (Hl & ops & Hj2 & Ht2 & Hk).
  assert (dirs w' ⊆ dirs w1) as Hsub.
  { assert (shrinks (for_in l remove_one)) as Hsh.
    { clear. induction l as [|q l IH]; [done|]. apply shrinks_bind; [apply shrinks_remove_one|intros _; apply IH]. }
    specialize (Hsh w1) as [? _]. by rewrite H2 in *. }
  assert (files w1 = files w) as Hf by (specialize (shrinks_remove_one p w) as [_ ?]; by rewrite H1 in *).
  split; [set_solver|]. exists ((OpKill <$> ps) ++ ds ++ ops). rewrite Hj2, Hj, <- !app_assoc.
  split; [done|]. split.
  - rewrite !Freezer1.slept_app. cbn [length]. assert (slept (OpKill <$> ps) = 0) by (clear; by induction ps). lia.
  - intros z [Hz|[Hz|Hz]%elem_of_app]%elem_of_app.
    + apply list_elem_of_fmap in Hz as (z' & [= <-] & Hz). exists p, ps. split; [set_solver|].
      destruct Hcase as [(_ & -> & _)|[Hn _]]; [set_solver|done].
    + rewrite Forall_forall in Hds. by destruct (Hds _ Hz) as [?|[? ?]].
    + destruct (Hk z Hz) as (q & qs & Hq & Hn & ?). exists q, qs. unfold named in *. rewrite Hf in Hn. set_solver.
Qed.

(** ** Properties *)

(** Limits on cgroup v1.  If the configuration needs a controller that the system does not have,
    the first one that is missing is named and nothing is written.  Otherwise [apply] makes the
    writes of the controllers that are needed and no others, one controller after the other in some
    order, each in its own directory; a failure stops it with the first of these writes made.
    It succeeds when no page size or swappiness is invalid, the memory limit can be read, and
    nothing is refused. *)
Theorem v1_apply_spec `{OciDisplay, OciDevices} order m o w :
  (∀ l, order l ≡ₚ l) → stable (kernel w) → freezer_state o = None →
  match missing m o CONTROLLERS with
  | Some c => manager_apply order m o w = (Err (CGroupRequired c), w)
  | None => ∃ l plans, l ≡ₚ needed m o CONTROLLERS ∧ plans_for o w l plans ∧
      emits w (concat plans) (manager_apply order m o) ∧
      (good o w l → performs w (concat plans) (manager_apply order m o))
  end.
Proof.
  intros Hperm Hst Hfr. unfold manager_apply, get_required_controllers.
  rewrite required_loop_spec. destruct (missing m o CONTROLLERS) as [c|]; [done|].
  set (l := order (needed m o CONTROLLERS)).
  destruct (controllers_follow o w l w Hst (agrees_refl w) Hfr) as (plans & Hp & He & Hok).
  { unfold l. rewrite Hperm. apply needed_needs. }
  exists l, plans. split; [apply Hperm|]. split; [done|]. split; [exact He|exact Hok].
Qed.

(** Processes on cgroup v1.  The directories of a manager are below the mount points of their
    controllers.  [add_task] only makes directories on the way to them, fills in blank cpusets
    there, and writes the process into their [cgroup.procs]; if it succeeds, the process was
    written into every one of them. *)
Theorem v1_add_task_confined mountinfo proc order cg m pid :
  (∀ l, order l ≡ₚ l) → manager_new mountinfo proc order cg = Ok m →
  Forall (below_mount mountinfo) (subsystems m) ∧
  only (λ op, ∃ cp, cp ∈ subsystems m ∧ task_op pid cp op) (add_task mountinfo m pid) ∧
  ∀ w w', add_task mountinfo m pid w = (Ok (), w') → ∃ ops, journal w' = journal w ++ ops ∧
    ∀ c p, (c, p) ∈ subsystems m → OpWrite (join_name_of p CGROUP_PROCS) (pretty pid) ∈ ops.
Proof.
  intros Hperm Hm. destruct (manager_new_below _ _ _ _ _ Hperm Hm) as [Hb _].
  split; [done|]. split; [apply add_tasks_only; [done|eauto]|]. intros w w'. by apply add_tasks_Ok.
Qed.

(** Removing the cgroups of a container: when [remove] succeeds none of the directories is left,
    only processes that their [cgroup.procs] name were killed, and each directory cost at most
    100 milliseconds of waiting. *)
Theorem v1_remove_spec m w w' :
  remove m w = (Ok (), w') →
  (∀ c p, (c, p) ∈ subsystems m → p ∉ dirs w') ∧
  ∃ ops, journal w' = journal w ++ ops ∧ slept ops ≤ 100 * Z.of_nat (length (subsystems m)) ∧
    ∀ z, OpKill z ∈ ops → ∃ c p ps, (c, p) ∈ subsystems m ∧ named w p ps ∧ z ∈ ps.
Proof.
  intros Hr. destruct (remove_all_Ok _ w w' Hr) as (Hd & ops & Hj & Ht & Hk). rewrite length_fmap in Ht.
  split; [intros c p Hcp; apply Hd, list_elem_of_fmap; by exists (c, p)|]. exists ops. split; [done|]. split; [done|].
  intros z Hz. destruct (Hk z Hz) as (p & ps & ([c p'] & -> & Hcp)%list_elem_of_fmap & Hn & Hz'). by exists c, p', ps.
Qed.

(** *** Examples *)

Definition example_display : OciDisplay := {|
  priority_to_string := λ p, if_name p +:+ " " +:+ pretty (priority p);
  device_to_string := λ d, from_option pretty "*" (major d) +:+ ":" +:+ from_option pretty "*" (minor d) |}.

Definition example_opt : ControllerOpt :=
  MkOpt (MkV1 (MkResources None None (Some 64) None None None) None None) false None.

Definition example_v1 : Manager := MkManager
  [(CtPids, components "/sys/fs/cgroup/pids/c"); (CtDevices, components "/sys/fs/cgroup/devices/c")].

Lemma v1_apply_spec_witness :
  let w := example_fs [(components "/sys/fs/cgroup/pids/c/pids.max", "max")] in
  let apply := @manager_apply example_display oci_devices id example_v1 example_opt in
  ∃ l plans, l ≡ₚ [(CtDevices, components "/sys/fs/cgroup/devices/c"); (CtPids, components "/sys/fs/cgroup/pids/c")] ∧
    @plans_for example_display oci_devices example_opt w l plans ∧ emits w (concat plans) apply ∧
    (good example_opt w l → performs w (concat plans) apply).
Proof.
  intros w apply. apply (@v1_apply_spec example_display oci_devices id example_v1 example_opt w); [done| |done].
  apply (example_ready _ []). constructor.
Defined.

Definition example_proc : outcome V1ManagerError (list ProcessCGroup) :=
  Ok [MkProcessCGroup ["cpu"; "cpuacct"] "/"; MkProcessCGroup ["cpuset"] "/user"].

Lemma v1_add_task_confined_witness :
  let m := MkManager [(CtCpu, components "/sys/fs/cgroup/cpu,cpuacct/c");
    (CtCpuAcct, components "/sys/fs/cgroup/cpu,cpuacct/c"); (CtCpuSet, components "/sys/fs/cgroup/cpuset/c")] in
  Forall (below_mount example_mounts) (subsystems m) ∧
  only (λ op, ∃ cp, cp ∈ subsystems m ∧ task_op 17 cp op) (add_task example_mounts m 17).
Proof.
  intros m. destruct (v1_add_task_confined example_mounts example_proc id (components "../c") m 17) as (H1 & H2 & _);
    [done|by vm_compute|]. by split.
Defined.
