(* ===== verification/Lifecycle.v ===== *)
(** * Lifecycle: the states of a container

    Models [crates/libcontainer/src/container]: the status and its guards
    ([state.rs]), the container handle ([container.rs]) and the operations that
    move a container through its life ([container_start.rs], [container_kill.rs],
    [container_pause.rs], [container_resume.rs], [container_delete.rs]), and the
    names of signals ([signal.rs]).

    The world is what the operations act on: the saved state, the processes of
    the machine and of the container's cgroup, and a journal of the effects.
    Saving, signals, the freezer, the notify socket, hooks and removals may fail
    at any time; [fault] decides. *)
From S2P Require Import Prelude Text CgroupFs V2Manager.
Local Open Scope string_scope.
Local Open Scope list_scope.
Local Open Scope Z_scope.

(** ** Status and state ([state.rs]) *)

Inductive ContainerStatus : Type := Creating | Created | Running | Stopped | Paused.

#[global] Instance ContainerStatus_eq_dec : EqDecision ContainerStatus.
Proof. solve_decision. Defined.

Definition can_start (s : ContainerStatus) : bool := bool_decide (s = Created).

Definition can_kill (s : ContainerStatus) : bool :=
  match s with
  | Creating | Stopped => false
  | Created | Running | Paused => true
  end.

Definition can_delete (s : ContainerStatus) : bool := bool_decide (s = Stopped).
Definition can_pause (s : ContainerStatus) : bool := bool_decide (s = Running).
Definition can_resume (s : ContainerStatus) : bool := bool_decide (s = Paused).

(** The fields that the operations of this file read or write. *)
Record State : Type := MkState {
  id : string; status : ContainerStatus; pid : option Z; created : option Z;
  use_systemd : bool }.

(** [State::new] *)
Definition state_new (container_id : string) (status : ContainerStatus) (pid : option Z) :
    State :=
  {| id := container_id; status := status; pid := pid; created := None;
     use_systemd := false |}.

(** ** The world *)

(** [procfs::process::ProcState] *)
Inductive ProcState : Type :=
  | PRunning | PSleeping | PWaiting | PZombie | PStopped | PTracing | PDead
  | PWakekill | PWaking | PParked | PIdle.

#[global] Instance ProcState_eq_dec : EqDecision ProcState.
Proof. solve_decision. Defined.

Inductive CgroupSetup : Type := Hybrid | Legacy | Unified.

Inductive effect : Type :=
  | ELoadState
  | EStat (p : Z)
  | ESave (s : ContainerStatus)
  | ELoadConfig
  | ECgroupSetup
  | ECreateManager
  | EFreeze (f : FreezerState)
  | EPids
  | ESignal (p : Z) (sig : Z)
  | ENotify
  | EPoststart
  | EPoststop
  | EIntelRdt
  | ECgroupRemove
  | ERemoveRoot.

#[global] Instance effect_eq_dec : EqDecision effect.
Proof. solve_decision. Defined.

Inductive LibcontainerError : Type :=
  | IncorrectStatus (s : ContainerStatus)
  | OtherSyscall (errno : Z)
  | Other (msg : string)
  | Failed (what : effect).

Definition ESRCH : Z := 3.
Definition SIGKILL : Z := 9.

Record world : Type := MkWorld {
  disk : option State;
  root_there : bool;
  procs : Z → option ProcState;
  cgroup_procs : list Z;
  cgroup_setup : CgroupSetup;
  has_hooks : bool;
  config_there : bool;
  trail : list effect;
  time : Z;
  fault : Z → effect → option Z }.

Definition saved (s : State) (w : world) : world :=
  MkWorld (Some s) (root_there w) (procs w) (cgroup_procs w) (cgroup_setup w) (has_hooks w)
    (config_there w) (trail w) (time w) (fault w).

Definition removed (w : world) : world :=
  MkWorld None false (procs w) (cgroup_procs w) (cgroup_setup w) (has_hooks w)
    (config_there w) (trail w) (time w) (fault w).

Definition note (e : effect) (w : world) : world :=
  MkWorld (disk w) (root_there w) (procs w) (cgroup_procs w) (cgroup_setup w) (has_hooks w)
    (config_there w) (trail w ++ [e]) (time w) (fault w).

Definition advance (w : world) : world :=
  MkWorld (disk w) (root_there w) (procs w) (cgroup_procs w) (cgroup_setup w) (has_hooks w)
    (config_there w) (trail w) (time w + 1) (fault w).

Abbreviation lio A := (io world LibcontainerError A).

(** Try an operation: it fails with an error number and without effect, or it
    is noted and changes the world by [f]. *)
Definition try_ (e : effect) (f : world → world) : io world Z () := λ w,
  match fault w (time w) e with
  | Some errno => (Err errno, advance w)
  | None => (Ok (), f (note e (advance w)))
  end.

(** The same with [?] *)
Definition must (e : effect) (f : world → world) : lio () :=
  io_map_err (λ _, Failed e) (try_ e f).

(** The same with the error ignored *)
Definition attempt_ (e : effect) : lio () := λ w, (Ok (), (try_ e (λ w, w) w).2).

(** Ask for something that changes nothing. *)
Definition query {A} (e : effect) (f : world → A) : lio A := λ w,
  match fault w (time w) e with
  | Some _ => (Err (Failed e), advance w)
  | None => (Ok (f w), advance w)
  end.

(** ** The container ([container.rs]) *)

Abbreviation Container := State.

(** [Container::set_status]: the time of creation is kept from the first time. *)
Definition set_status (s : ContainerStatus) (now : Z) (c : Container) : Container :=
  MkState (id c) s (pid c)
    (match s, created c with Created, None => Some now | _, t => t end) (use_systemd c).

Definition set_pid (p : Z) (c : Container) : Container :=
  MkState (id c) (status c) (Some p) (created c) (use_systemd c).

(** [set_status(s).save()].  Saving the state succeeds or leaves the old state: that the file
    is truncated before it is written is modelled in [Hooks.save]. *)
Definition save_status (s : ContainerStatus) (c : Container) : lio Container := λ w,
  let c := set_status s (time w) c in
  (_ ← must (ESave s) (saved c); mret c) w.

(** What [refresh_status] makes of the process: [None] when there is no such
    process. *)
Definition status_of (s : ContainerStatus) (p : option ProcState) : ContainerStatus :=
  match p with
  | None | Some PZombie | Some PDead => Stopped
  | Some _ =>
      match s with
      | Creating | Created | Paused => s
      | _ => Running
      end
  end.

Definition refresh_status (c : Container) : lio Container := λ w,
  match pid c with
  | None => (Ok (set_status Stopped (time w) c), w)
  | Some p =>
      match procs w p with
      | None => (Ok (set_status Stopped (time w) c), w)
      | Some st =>
          query (EStat p) (λ w, set_status (status_of (status c) (Some st)) (time w) c) w
      end
  end.

(** [Container::load]: the saved state, refreshed. *)
Definition load : lio Container := λ w,
  match disk w with
  | None => (Err (Failed ELoadState), w)
  | Some s => refresh_status s w
  end.

(** [YoukiConfig::load], whose result here is whether there are hooks *)
Definition load_config : lio bool := λ w,
  if config_there w then query ELoadConfig has_hooks w else (Err (Failed ELoadConfig), w).

(** [create_cgroup_manager] for the container's cgroup path *)
Definition create_manager : lio () :=
  _ ← load_config;
  query ECreateManager (λ _, ()).

(** ** Start *)

Definition start (c : Container) : lio Container :=
  c ← refresh_status c;
  if negb (can_start (status c)) then pure (Err (IncorrectStatus (status c)))
  else
    hooks ← load_config;
    _ ← must ENotify (λ w, w);
    c ← save_status Running c;
    _ ← (if (hooks : bool) then must EPoststart (λ w, w) else mret ());
    mret c.

(** ** Kill *)

(** [signal::kill]; that the process does not exist is taken as success. *)
Definition send_signal (p sig : Z) : lio () := λ w,
  match try_ (ESignal p sig) (λ w, w) w with
  | (Err e, w) =>
      if e =? ESRCH then (Ok (), note (ESignal p sig) w) else (Err (OtherSyscall e), w)
  | (Ok _, w) => (Ok (), w)
  | (Panic, w) => (Panic, w)
  end.

Definition get_cgroup_setup : lio CgroupSetup := query ECgroupSetup cgroup_setup.

Definition kill_one_process (c : Container) (sig : Z) : lio () :=
  p ← pure (ok_or (pid c) (Other "container process pid not found in state"));
  _ ← send_signal p sig;
  if bool_decide (status c = Paused) && (sig =? SIGKILL) then
    setup ← get_cgroup_setup;
    match setup with
    | Legacy | Hybrid => _ ← create_manager; must (EFreeze Thawed) (λ w, w)
    | Unified => mret ()
    end
  else mret ().

Fixpoint send_signals (ps : list Z) (sig : Z) : lio () :=
  match ps with
  | [] => mret ()
  | p :: ps => _ ← send_signal p sig; send_signals ps sig
  end.

Definition get_all_pids : lio (list Z) := query EPids cgroup_procs.

Definition kill_all_processes (sig : Z) : lio () :=
  _ ← create_manager;
  _ ← attempt_ (EFreeze Frozen);
  ps ← get_all_pids;
  _ ← send_signals ps sig;
  attempt_ (EFreeze Thawed).

Definition do_kill (c : Container) (sig : Z) (all : bool) : lio () :=
  if all then kill_all_processes sig else kill_one_process c sig.

Definition kill (c : Container) (sig : Z) (all : bool) : lio Container :=
  c ← refresh_status c;
  _ ← (if can_kill (status c) then do_kill c sig all
       else if all && bool_decide (status c = Stopped) then do_kill c sig all
       else pure (Err (IncorrectStatus (status c))));
  save_status Stopped c.

(** ** Pause and resume *)

Definition pause (c : Container) : lio Container :=
  c ← refresh_status c;
  if negb (can_pause (status c)) then pure (Err (IncorrectStatus (status c)))
  else
    _ ← create_manager;
    _ ← must (EFreeze Frozen) (λ w, w);
    save_status Paused c.

Definition resume (c : Container) : lio Container :=
  c ← refresh_status c;
  if negb (can_resume (status c)) then pure (Err (IncorrectStatus (status c)))
  else
    _ ← create_manager;
    _ ← must (EFreeze Thawed) (λ w, w);
    save_status Running c.

(** ** Delete *)

(** The cgroup and the hooks; a missing configuration is not an error. *)
Definition delete_cgroup : lio () := λ w,
  match load_config w with
  | (Ok hooks, w) =>
      (_ ← query ECreateManager (λ _, ());
       _ ← must ECgroupRemove (λ w, w);
       if (hooks : bool) then must EPoststop (λ w, w) else mret ()) w
  | (Err _, w) => (Ok (), w)
  | (Panic, w) => (Panic, w)
  end.

Definition delete_root : lio () := λ w,
  if root_there w then (_ ← delete_cgroup; must ERemoveRoot removed) w else (Ok (), w).

Definition delete (c : Container) (force : bool) : lio () :=
  c ← refresh_status c;
  c ← match status c with
      | Stopped => mret c
      | Created => _ ← do_kill c SIGKILL true; save_status Stopped c
      | Creating | Running | Paused =>
          if force then _ ← do_kill c SIGKILL true; save_status Stopped c
          else pure (Err (IncorrectStatus (status c)))
      end;
  if negb (can_delete (status c)) then pure Panic
  else
    _ ← attempt_ EIntelRdt;
    delete_root.

(** ** Facts about the parts *)

(** The status that is seen after a refresh: dead processes are stopped, live
    ones keep what was saved, or are running. *)
Definition refreshed (c : Container) (w : world) : ContainerStatus :=
  status_of (status c) (pid c ≫= procs w).

(** Two worlds that differ in time only. *)
Definition same (w w' : world) : Prop :=
  ∃ t, w' = MkWorld (disk w) (root_there w) (procs w) (cgroup_procs w) (cgroup_setup w)
              (has_hooks w) (config_there w) (trail w) t (fault w).

Lemma same_refl w : same w w.
Proof. exists (time w). by destruct w. Qed.

Lemma same_advance w : same w (advance w).
Proof. by exists (time w + 1). Qed.

Lemma same_trans w1 w2 w3 : same w1 w2 → same w2 w3 → same w1 w3.
Proof. intros [t ->] [t' ->]. by exists t'. Qed.

Lemma query_spec {A} e (f : world → A) w r w' :
  query e f w = (r, w') → same w w' ∧ (r = Ok (f w) ∨ r = Err (Failed e)).
Proof.
  unfold query. destruct (fault w (time w) e); intros [= <- <-];
    (split; [apply same_advance|auto]).
Qed.

Lemma refresh_spec c w r w' :
  refresh_status c w = (r, w') →
  same w w' ∧
  match r with
  | Ok c' => ∃ t, c' = set_status (refreshed c w) t c
  | Err e => ∃ p, pid c = Some p ∧ e = Failed (EStat p)
  | Panic => False
  end.
Proof.
  unfold refresh_status, refreshed. destruct (pid c) as [p|] eqn:Hp; cbn.
  2:{ intros [= <- <-]. split; [apply same_refl|eauto]. }
  destruct (procs w p) as [st|] eqn:Hst; cbn.
  2:{ intros [= <- <-]. split; [apply same_refl|eauto]. }
  intros Hq. apply query_spec in Hq as [Hs [-> | ->]]; (split; [done|]); eauto.
Qed.

Lemma status_set_status s t c : status (set_status s t c) = s.
Proof. done. Qed.

(** A save that succeeds. *)
Lemma save_status_Ok s c w c' w' :
  save_status s c w = (Ok c', w') →
  disk w' = Some c' ∧ status c' = s ∧ pid c' = pid c ∧ id c' = id c ∧
  trail w' = trail w ++ [ESave s] ∧ root_there w' = root_there w ∧
  cgroup_procs w' = cgroup_procs w.
Proof.
  unfold save_status, must, try_, io_map_err, mbind, io_bind.
  destruct (fault w (time w) (ESave s)); [done|]. intros [= <- <-]. done.
Qed.

(** A save either leaves the old state or the new status. *)
Lemma save_status_disk s c w r w' :
  save_status s c w = (r, w') →
  disk w' = disk w ∨ ∃ c', disk w' = Some c' ∧ status c' = s.
Proof.
  unfold save_status, must, try_, io_map_err, mbind, io_bind.
  destruct (fault w (time w) (ESave s)); intros [= <- <-]; [by left|right; by eexists].
Qed.

Lemma must_spec e f w r w' :
  must e f w = (r, w') →
  (r = Ok () ∧ w' = f (note e (advance w))) ∨ (r = Err (Failed e) ∧ w' = advance w).
Proof.
  unfold must, try_, io_map_err. destruct (fault w (time w) e); intros [= <- <-]; auto.
Qed.

(** [keeps_state m]: [m] does not touch the saved state. *)
Definition keeps_state {A} (m : lio A) : Prop := ∀ w, disk (m w).2 = disk w.

Lemma keeps_bind {A B} (m : lio A) (f : A → lio B) :
  keeps_state m → (∀ a, keeps_state (f a)) → keeps_state (m ≫= f).
Proof.
  intros Hm Hf w. specialize (Hm w). unfold mbind, io_bind.
  destruct (m w) as [[a|e|] w1]; cbn in *; [|done..]. by rewrite Hf.
Qed.

Lemma keeps_ret {A} (a : A) : keeps_state (mret a).
Proof. by intros w. Qed.

Lemma keeps_pure {A} (m : outcome LibcontainerError A) : keeps_state (pure m).
Proof. by intros w. Qed.

Lemma keeps_query {A} e (f : world → A) : keeps_state (query e f).
Proof. intros w. unfold query. by destruct (fault _ _ _). Qed.

Lemma keeps_must e : keeps_state (must e (λ w, w)).
Proof. intros w. unfold must, try_, io_map_err. by destruct (fault _ _ _). Qed.

Lemma keeps_attempt e : keeps_state (attempt_ e).
Proof. intros w. unfold attempt_, try_. by destruct (fault _ _ _). Qed.

Lemma keeps_signal p sig : keeps_state (send_signal p sig).
Proof.
  intros w. unfold send_signal, try_. destruct (fault _ _ _); [by destruct (_ =? _)|done].
Qed.

Lemma keeps_load_config : keeps_state load_config.
Proof. intros w. unfold load_config. destruct (config_there w); [apply keeps_query|done]. Qed.

Lemma keeps_create_manager : keeps_state create_manager.
Proof. apply keeps_bind; [apply keeps_load_config|intros; apply keeps_query]. Qed.

Lemma keeps_signals ps sig : keeps_state (send_signals ps sig).
Proof.
  induction ps as [|p ps IH]; [apply keeps_ret|].
  apply keeps_bind; [apply keeps_signal|by intros].
Qed.

Create HintDb lifecycle.
#[export] Hint Resolve keeps_ret keeps_pure keeps_query keeps_must keeps_attempt keeps_signal
  keeps_load_config keeps_create_manager keeps_signals : lifecycle.
#[export] Hint Extern 1 (keeps_state (_ ≫= _)) => apply keeps_bind; intros : lifecycle.

Lemma keeps_do_kill c sig all : keeps_state (do_kill c sig all).
Proof.
  unfold do_kill. destruct all.
  - unfold kill_all_processes, get_all_pids. auto 10 with lifecycle.
  - unfold kill_one_process, get_cgroup_setup. apply keeps_bind; [auto with lifecycle|].
    intros p. apply keeps_bind; [auto with lifecycle|]. intros _.
    destruct (_ && _); [|auto with lifecycle].
    apply keeps_bind; [auto with lifecycle|]. intros []; auto with lifecycle.
Qed.

(** [no_panic m]: [m] returns a result or an error. *)
Definition no_panic {A} (m : lio A) : Prop := ∀ w, (m w).1 ≠ Panic.

Lemma no_panic_bind {A B} (m : lio A) (f : A → lio B) :
  no_panic m → (∀ a w w', m w = (Ok a, w') → no_panic (f a)) → no_panic (m ≫= f).
Proof.
  intros Hm Hf w. specialize (Hm w). unfold mbind, io_bind.
  destruct (m w) as [[a|e|] w1] eqn:Hmw; [by eapply Hf|done|done].
Qed.

Lemma no_panic_ret {A} (a : A) : no_panic (mret a).
Proof. by intros w. Qed.

Lemma no_panic_err {A} e : no_panic (A:=A) (pure (Err e)).
Proof. by intros w. Qed.

Lemma no_panic_ok_or {A} (o : option A) e : no_panic (pure (ok_or o e)).
Proof. intros w. by destruct o. Qed.

Lemma no_panic_query {A} e (f : world → A) : no_panic (query e f).
Proof. intros w. unfold query. by destruct (fault _ _ _). Qed.

Lemma no_panic_must e f : no_panic (must e f).
Proof. intros w. unfold must, try_, io_map_err. by destruct (fault _ _ _). Qed.

Lemma no_panic_attempt e : no_panic (attempt_ e).
Proof. by intros w. Qed.

Lemma no_panic_signal p sig : no_panic (send_signal p sig).
Proof.
  intros w. unfold send_signal, try_. destruct (fault _ _ _); [by destruct (_ =? _)|done].
Qed.

Lemma no_panic_load_config : no_panic load_config.
Proof. intros w. unfold load_config. destruct (config_there w); [apply no_panic_query|done]. Qed.

Lemma no_panic_save s c : no_panic (save_status s c).
Proof.
  intros w. unfold save_status. apply no_panic_bind; [apply no_panic_must|].
  intros. apply no_panic_ret.
Qed.

Lemma no_panic_refresh c : no_panic (refresh_status c).
Proof.
  intros w. unfold refresh_status. destruct (pid c) as [p|]; [|done].
  destruct (procs w p); [apply no_panic_query|done].
Qed.

#[export] Hint Resolve no_panic_ret no_panic_err no_panic_ok_or no_panic_query no_panic_must
  no_panic_attempt no_panic_signal no_panic_load_config no_panic_save no_panic_refresh : lifecycle.
#[export] Hint Extern 1 (no_panic (_ ≫= _)) => apply no_panic_bind; [|intros] : lifecycle.

Lemma no_panic_signals ps sig : no_panic (send_signals ps sig).
Proof. induction ps; cbn; auto with lifecycle. Qed.

#[export] Hint Resolve no_panic_signals : lifecycle.

Lemma no_panic_do_kill c sig all : no_panic (do_kill c sig all).
Proof.
  unfold do_kill, kill_all_processes, kill_one_process, create_manager, get_all_pids,
    get_cgroup_setup.
  destruct all; [auto 10 with lifecycle|].
  apply no_panic_bind; [auto with lifecycle|]. intros p _ _ _.
  apply no_panic_bind; [auto with lifecycle|]. intros _ _ _ _.
  destruct (_ && _); [|auto with lifecycle].
  apply no_panic_bind; [auto with lifecycle|]. intros [] _ _ _; auto with lifecycle.
Qed.

#[export] Hint Resolve no_panic_do_kill : lifecycle.

(** ** Commands *)

Inductive command : Type := Start | Kill (sig : Z) (all : bool) | Pause | Resume.

Definition run_command (cmd : command) (c : Container) : lio Container :=
  match cmd with
  | Start => start c
  | Kill sig all => kill c sig all
  | Pause => pause c
  | Resume => resume c
  end.

(** In which status a command is allowed, and the status it leads to. *)
Definition allowed (cmd : command) (s : ContainerStatus) : bool :=
  match cmd, s with
  | Start, Created => true
  | Kill _ _, (Created | Running | Paused) => true
  | Kill _ true, Stopped => true
  | Pause, Running => true
  | Resume, Paused => true
  | _, _ => false
  end.

Definition target (cmd : command) : ContainerStatus :=
  match cmd with Start | Resume => Running | Kill _ _ => Stopped | Pause => Paused end.

Lemma no_panic_command cmd c : no_panic (run_command cmd c).
Proof.
  destruct cmd as [|sig all| |]; cbn [run_command];
    unfold start, kill, pause, resume, create_manager;
    (apply no_panic_bind; [auto with lifecycle|]; intros c1 _ _ _).
  - destruct (negb _); [auto with lifecycle|].
    apply no_panic_bind; [auto with lifecycle|]. intros hooks _ _ _.
    apply no_panic_bind; [auto with lifecycle|]. intros _ _ _ _.
    apply no_panic_bind; [auto with lifecycle|]. intros c2 _ _ _.
    destruct hooks; auto with lifecycle.
  - apply no_panic_bind; [|auto with lifecycle].
    destruct (can_kill _); [auto with lifecycle|]. destruct (_ && _); auto with lifecycle.
  - destruct (negb _); auto 8 with lifecycle.
  - destruct (negb _); auto 8 with lifecycle.
Qed.

(** A command that is not allowed. *)
Lemma command_refused cmd c c1 w w1 :
  refresh_status c w = (Ok c1, w1) → allowed cmd (status c1) = false →
  run_command cmd c w = (Err (IncorrectStatus (status c1)), w1).
Proof.
  intros Hr Ha.
  destruct cmd as [|sig all| |]; cbn [run_command];
    unfold start, kill, pause, resume; rewrite (io_bind_run _ _ _ _ _ Hr);
    destruct (status c1) eqn:Hs; try done; destruct all; done.
Qed.

(** The end of a command that succeeds: the status is saved, and nothing but
    hooks runs after that. *)
Lemma command_saves cmd c w c' w' :
  run_command cmd c w = (Ok c', w') →
  ∃ c1 w1, refresh_status c w = (Ok c1, w1) ∧ disk w' = Some c' ∧ status c' = target cmd ∧
    pid c' = pid c1.
Proof.
  destruct cmd as [|sig all| |]; cbn [run_command]; unfold start, kill, pause, resume;
    intros (c1 & w1 & Hr & Hrest)%io_bind_Ok; exists c1, w1; (split; [done|]).
  - destruct (negb _); [done|].
    apply io_bind_Ok in Hrest as (hooks & w2 & _ & Hrest).
    apply io_bind_Ok in Hrest as ([] & w3 & _ & Hrest).
    apply io_bind_Ok in Hrest as (c4 & w4 & Hsave & Hrest).
    apply io_bind_Ok in Hrest as ([] & w5 & Hh & Hrest). injection Hrest as <- <-.
    apply save_status_Ok in Hsave as (Hd & Hs & Hp & _).
    assert (disk w5 = disk w4) as ->; [|done].
    destruct hooks; [|by injection Hh as <-].
    change w5 with (Ok (E:=LibcontainerError) (), w5).2. rewrite <- Hh. apply keeps_must.
  - apply io_bind_Ok in Hrest as ([] & w2 & _ & Hsave).
    apply save_status_Ok in Hsave as (? & ? & ? & _). done.
  - destruct (negb _); [done|]. apply io_bind_Ok in Hrest as ([] & w2 & _ & Hrest).
    apply io_bind_Ok in Hrest as ([] & w3 & _ & Hsave).
    apply save_status_Ok in Hsave as (? & ? & ? & _). done.
  - destruct (negb _); [done|]. apply io_bind_Ok in Hrest as ([] & w2 & _ & Hrest).
    apply io_bind_Ok in Hrest as ([] & w3 & _ & Hsave).
    apply save_status_Ok in Hsave as (? & ? & ? & _). done.
Qed.

(** C12: commands follow the life cycle.  A command succeeds only in a status that
    allows it, and then the saved state is the new status (start: created to
    running; pause: running to paused; resume: paused to running; kill: to
    stopped) of the same process.  In any other status the command returns that
    status as an error and neither the saved state nor anything else is
    touched.  Commands do not panic. *)
Theorem command_transitions cmd c w r w' :
  run_command cmd c w = (r, w') →
  match r with
  | Ok c' => allowed cmd (refreshed c w) = true ∧ disk w' = Some c' ∧
             status c' = target cmd ∧ pid c' = pid c
  | Err e => (allowed cmd (refreshed c w) = false →
              same w w' ∧ (e = IncorrectStatus (refreshed c w) ∨
                           ∃ p, pid c = Some p ∧ e = Failed (EStat p)))
  | Panic => False
  end.
Proof.
  intros Hrun. assert (r ≠ Panic) as Hnp.
  { pose proof (no_panic_command cmd c w) as Hn. by rewrite Hrun in Hn. }
  destruct (refresh_status c w) as [[c1|e|] w1] eqn:Hr.
  - pose proof (refresh_spec c w _ w1 Hr) as [Hsame [t Ht]].
    destruct (allowed cmd (refreshed c w)) eqn:Ha.
    + destruct r as [c'|e|]; [|done..]. split; [done|].
      destruct (command_saves cmd c w c' w' Hrun) as (c2 & w2 & Hr2 & Hd & Hs & Hp).
      rewrite Hr in Hr2. injection Hr2 as <- <-. subst c1. done.
    + rewrite (command_refused cmd c c1 w w1 Hr) in Hrun by (by rewrite Ht).
      injection Hrun as <- <-. intros _. split; [done|]. left. by rewrite Ht.
  - pose proof (refresh_spec c w _ w1 Hr) as [Hsame Hp].
    assert (run_command cmd c w = (Err e, w1)) as Hrun'.
    { destruct cmd; cbn [run_command]; unfold start, kill, pause, resume, mbind, io_bind;
        by rewrite Hr. }
    rewrite Hrun in Hrun'. injection Hrun' as -> ->. auto.
  - by apply refresh_spec in Hr as [_ ?].
Qed.

Definition example_state : State := MkState "c1" Created (Some 4711) (Some 0) false.

Definition example_life : world :=
  MkWorld (Some example_state) true (λ p, if p =? 4711 then Some PSleeping else None)
    [4711; 4712] Unified false true [] 0 (λ _ _, None).

Lemma command_transitions_witness :
  allowed Start (refreshed example_state example_life) = true ∧
  disk (run_command Start example_state example_life).2 =
    Some (MkState "c1" Running (Some 4711) (Some 0) false) ∧
  status (MkState "c1" Running (Some 4711) (Some 0) false) = target Start ∧
  pid (MkState "c1" Running (Some 4711) (Some 0) false) = pid example_state.
Proof.
  apply (command_transitions Start example_state example_life
    (Ok (MkState "c1" Running (Some 4711) (Some 0) false))). vm_compute. reflexivity.
Defined.

(** ** Sequences of commands

    Every command of the runtime is a process of its own: it loads the saved
    state and runs one operation.  In between, processes come and go. *)

Inductive event : Type := EvCommand (cmd : command) (ok : bool) | EvDelete | EvEnv.

#[global] Instance command_eq_dec : EqDecision command.
Proof. solve_decision. Defined.

#[global] Instance event_eq_dec : EqDecision event.
Proof. solve_decision. Defined.

Inductive step : world → event → world → Prop :=
  | step_command cmd w r w' :
      (c ← load; run_command cmd c) w = (r, w') → step w (EvCommand cmd (is_ok r)) w'
  | step_delete force w r w' :
      (c ← load; delete c force) w = (r, w') → step w EvDelete w'
  | step_env w procs' cgroup' hooks' conf' time' fault' :
      step w EvEnv (MkWorld (disk w) (root_there w) procs' cgroup' (cgroup_setup w) hooks' conf'
        (trail w) time' fault').

Inductive steps : world → list event → world → Prop :=
  | steps_nil w : steps w [] w
  | steps_cons w1 e w2 es w3 : step w1 e w2 → steps w2 es w3 → steps w1 (e :: es) w3.

(** No created container is saved. *)
Definition not_fresh (w : world) : Prop := ∀ s, disk w = Some s → status s ≠ Created.

(** [m] does not make a container fresh. *)
Definition ages {A} (m : lio A) : Prop := ∀ w, disk (m w).2 = disk w ∨ not_fresh (m w).2.

Lemma ages_keeps {A} (m : lio A) : keeps_state m → ages m.
Proof. intros Hm w. left. apply Hm. Qed.

Lemma ages_bind {A B} (m : lio A) (f : A → lio B) :
  ages m → (∀ a, ages (f a)) → ages (m ≫= f).
Proof.
  intros Hm Hf w. specialize (Hm w). unfold mbind, io_bind.
  destruct (m w) as [[a|e|] w1]; cbn in *; [|done..].
  destruct (Hf a w1) as [Hd|Hd]; [|by right].
  destruct Hm as [Hm|Hm]; [left; by rewrite Hd|right]. intros s. rewrite Hd. apply Hm.
Qed.

Lemma ages_save s c : s ≠ Created → ages (save_status s c).
Proof.
  intros Hs w. destruct (save_status s c w) as [r w'] eqn:Hw. cbn.
  destruct (save_status_disk s c w r w' Hw) as [Hd|(c' & Hd & Hst)]; [by left|right].
  intros s'. rewrite Hd. intros [= <-]. congruence.
Qed.

Lemma keeps_refresh c : keeps_state (refresh_status c).
Proof.
  intros w. destruct (refresh_status c w) as [r w'] eqn:Hr.
  by apply refresh_spec in Hr as [[t ->] _].
Qed.

Lemma keeps_load : keeps_state load.
Proof. intros w. unfold load. destruct (disk w) eqn:Hd; [by rewrite keeps_refresh|done]. Qed.

#[export] Hint Resolve ages_keeps ages_save keeps_refresh keeps_load keeps_do_kill : lifecycle.
#[export] Hint Extern 1 (ages (_ ≫= _)) => apply ages_bind; [|intros] : lifecycle.

Lemma ages_command cmd c : ages (run_command cmd c).
Proof.
  destruct cmd as [|sig all| |]; cbn [run_command]; unfold start, kill, pause, resume;
    (apply ages_bind; [auto with lifecycle|]; intros c1).
  - destruct (negb _); [auto with lifecycle|].
    apply ages_bind; [auto with lifecycle|]. intros hooks.
    apply ages_bind; [auto with lifecycle|]. intros _.
    apply ages_bind; [by apply ages_save|]. intros c2. destruct hooks; auto with lifecycle.
  - apply ages_bind; [|intros; by apply ages_save].
    destruct (can_kill _); [auto with lifecycle|]. destruct (_ && _); auto with lifecycle.
  - destruct (negb _); [auto with lifecycle|].
    repeat (apply ages_bind; [auto with lifecycle|intros _]). by apply ages_save.
  - destruct (negb _); [auto with lifecycle|].
    repeat (apply ages_bind; [auto with lifecycle|intros _]). by apply ages_save.
Qed.

Lemma keeps_delete_cgroup : keeps_state delete_cgroup.
Proof.
  intros w. unfold delete_cgroup. pose proof (keeps_load_config w) as Hc.
  destruct (load_config w) as [[hooks|e|] w1]; cbn in *; [|done..]. rewrite <- Hc.
  apply keeps_bind; [auto with lifecycle|]. intros _.
  apply keeps_bind; [auto with lifecycle|]. intros _. destruct hooks; auto with lifecycle.
Qed.

Lemma ages_delete c force : ages (delete c force).
Proof.
  unfold delete. apply ages_bind; [auto with lifecycle|]. intros c1. apply ages_bind.
  - assert (ages (_ ← do_kill c1 SIGKILL true; save_status Stopped c1)) as Hk.
    { apply ages_bind; [auto with lifecycle|]. intros. by apply ages_save. }
    destruct (status c1), force; auto with lifecycle.
  - intros c2. destruct (negb _); [auto with lifecycle|].
    apply ages_bind; [auto with lifecycle|]. intros _ w. unfold delete_root.
    destruct (root_there w); [|by left]. apply ages_bind.
    + apply ages_keeps, keeps_delete_cgroup.
    + intros _ w1. unfold must, try_, io_map_err. destruct (fault _ _ _); [by left|].
      right. by intros s.
Qed.

(** What is loaded from a state that is not fresh is not fresh. *)
Lemma load_not_fresh w c w' :
  not_fresh w → load w = (Ok c, w') → status c ≠ Created ∧ same w w'.
Proof.
  unfold load. intros Hn. destruct (disk w) as [s|] eqn:Hd; [|done].
  intros [Hs [t ->]]%refresh_spec. split; [|done]. cbn. specialize (Hn s Hd).
  unfold refreshed, status_of. destruct (pid s ≫= procs w) as [[]|]; by destruct (status s).
Qed.

Lemma step_not_fresh w e w' :
  step w e w' → not_fresh w → not_fresh w' ∧ e ≠ EvCommand Start true.
Proof.
  destruct 1 as [cmd w r w' Hrun|force w r w' Hrun|]; intros Hn; [| |done].
  - assert (ages (c ← load; run_command cmd c)) as Ha
      by (apply ages_bind; [auto with lifecycle|intros; apply ages_command]).
    specialize (Ha w). rewrite Hrun in Ha. cbn in Ha. split.
    { destruct Ha as [Ha|Ha]; [|done]. intros s. rewrite Ha. apply Hn. }
    intros [= -> Hok]. destruct r as [c'|e|]; [|done..].
    apply io_bind_Ok in Hrun as (c & w1 & Hl & Hrun).
    destruct (load_not_fresh w c w1 Hn Hl) as [Hc _].
    apply (command_saves Start) in Hrun as Hsave.
    destruct Hsave as (c1 & w2 & Hr & _).
    pose proof (refresh_spec c w1 _ w2 Hr) as [_ [t Ht]].
    rewrite (command_refused Start c c1 w1 w2 Hr) in Hrun; [done|].
    subst c1. cbn. unfold refreshed, status_of.
    destruct (pid c ≫= procs w1) as [[]|]; by destruct (status c).
  - assert (ages (c ← load; delete c force)) as Ha
      by (apply ages_bind; [auto with lifecycle|intros; apply ages_delete]).
    specialize (Ha w). rewrite Hrun in Ha. cbn in Ha. split; [|done].
    destruct Ha as [Ha|Ha]; [|done]. intros s. rewrite Ha. apply Hn.
Qed.

Lemma step_ok_not_fresh w cmd w' : step w (EvCommand cmd true) w' → not_fresh w'.
Proof.
  intros Hs. inversion Hs as [cmd' w0 r w1 Hrun He Heq| |]; subst.
  destruct r as [c'|e|]; [|done..].
  apply io_bind_Ok in Hrun as (c & w1 & Hl & Hrun).
  destruct (command_saves cmd c w1 c' w' Hrun) as (_ & _ & _ & Hd & Hst & _).
  intros s. rewrite Hd. intros [= <-]. rewrite Hst. by destruct cmd.
Qed.

Lemma steps_not_fresh w es w' :
  steps w es w' → not_fresh w → EvCommand Start true ∉ es.
Proof.
  induction 1 as [w|w1 e w2 es w3 Hs Hss IH]; intros Hn; [set_solver|].
  destruct (step_not_fresh w1 e w2 Hs Hn) as [Hn2 He]. specialize (IH Hn2). set_solver.
Qed.

(** C19: a container is started at most once.  In any sequence of commands and
    changes of the environment, with any failures, once a command has succeeded
    (a start in particular), no later start succeeds. *)
Theorem start_succeeds_once w es1 cmd es2 w' :
  steps w (es1 ++ EvCommand cmd true :: es2) w' → EvCommand Start true ∉ es2.
Proof.
  revert w. induction es1 as [|e es1 IH]; intros w Hs; inversion Hs as [|? ? w2 ? ? Hs1 Hs2]; subst.
  - by eapply steps_not_fresh, step_ok_not_fresh.
  - by eapply IH.
Qed.

Lemma start_succeeds_once_witness : EvCommand Start true ∉ [EvCommand Start false].
Proof.
  set (w1 := ((c ← load; run_command Start c) example_life).2).
  set (w2 := ((c ← load; run_command Start c) w1).2).
  apply (start_succeeds_once example_life [] Start [EvCommand Start false] w2).
  eapply steps_cons; [exact (step_command Start example_life _ w1 eq_refl)|].
  eapply steps_cons; [exact (step_command Start w1 _ w2 eq_refl)|]. constructor.
Defined.

(** A signal that does not end the process spoils a created container.  [kill]
    saves the status stopped whatever the signal is.  If the process of a created
    container survives the signal (an ignored or caught signal, or signal 0), the
    next refresh takes it for running, although the user's program was never
    started, and [start] is refused from then on. *)
Theorem kill_spoils_created c p st sig w :
  disk w = Some c → status c = Created → pid c = Some p →
  procs w p = Some st → st ≠ PZombie → st ≠ PDead → (∀ t e, fault w t e = None) →
  ∃ c' w', kill c sig false w = (Ok c', w') ∧ status c' = Stopped ∧ procs w' p = Some st ∧
    ∃ w'', (c ← load; start c) w' = (Err (IncorrectStatus Running), w'') ∧
           ENotify ∉ drop (length (trail w)) (trail w'').
Proof.
  intros Hd Hs Hp Hst Hz Hdead Hf. destruct w as [d rt ps cp cs hh ct tr tm fl].
  cbn in Hd, Hst, Hf. subst d. destruct c as [i s pd cr us]. cbn in Hs, Hp. subst s pd.
  eexists _, _. split.
  { unfold kill, do_kill, refresh_status, query, kill_one_process, send_signal, save_status, must, try_,
      io_map_err, mret, io_ret, pure, mbind, io_bind.
    cbn [pid procs]. rewrite Hst. cbn [fault]. rewrite Hf.
    destruct st; try done; cbn; rewrite Hf; cbn;
      rewrite (bool_decide_eq_false_2 (Created = Paused)) by done; cbn; rewrite Hf; done. }
  cbn. split; [done|]. split; [done|]. eexists.
  unfold load, start, refresh_status, query, mbind, io_bind.
  destruct st; try done; cbn; rewrite Hst; cbn; rewrite Hf; cbn; rewrite Hst; cbn; rewrite Hf; cbn;
    (split; [done|]); cbn; rewrite <- app_assoc, drop_app_length; cbn; set_solver by done.
Qed.

Lemma kill_spoils_created_witness :
  ∃ c' w', kill example_state 0 false example_life = (Ok c', w') ∧ status c' = Stopped ∧
    procs w' 4711 = Some PSleeping ∧
    ∃ w'', (c ← load; start c) w' = (Err (IncorrectStatus Running), w'') ∧
           ENotify ∉ drop (length (trail example_life)) (trail w'').
Proof.
  apply (kill_spoils_created example_state 4711 PSleeping 0 example_life); done.
Defined.

(** ** Deletion *)

Lemma send_signals_Ok ps sig w w' :
  send_signals ps sig w = (Ok (), w') →
  trail w' = trail w ++ ((λ p, ESignal p sig) <$> ps) ∧ disk w' = disk w ∧
  root_there w' = root_there w.
Proof.
  revert w. induction ps as [|p ps IH]; intros w; cbn [send_signals].
  { intros [= <-]. by rewrite app_nil_r. }
  intros ([] & w1 & Hs & Hr)%io_bind_Ok. apply IH in Hr as (Ht & Hd & Hrt).
  unfold send_signal, try_ in Hs.
  assert (trail w1 = trail w ++ [ESignal p sig] ∧ disk w1 = disk w ∧ root_there w1 = root_there w)
    as (H1 & H2 & H3).
  { destruct (fault _ _ _) as [e|]; [destruct (e =? ESRCH)|]; by simplify_eq. }
  rewrite Ht, Hd, Hrt, H1, H2, H3, <- app_assoc. done.
Qed.

(** What an attempted effect leaves behind. *)
Lemma attempt_spec e w :
  ∃ l, (l = [] ∨ l = [e]) ∧ trail (attempt_ e w).2 = trail w ++ l ∧
    cgroup_procs (attempt_ e w).2 = cgroup_procs w ∧
    root_there (attempt_ e w).2 = root_there w ∧ disk (attempt_ e w).2 = disk w.
Proof.
  unfold attempt_, try_. destruct (fault _ _ _).
  - exists []. rewrite app_nil_r. auto.
  - exists [e]. auto.
Qed.

Lemma load_config_same w r w' : load_config w = (r, w') → same w w'.
Proof.
  unfold load_config. destruct (config_there w); [by intros [? _]%query_spec|].
  intros [= _ <-]. apply same_refl.
Qed.

(** Killing all processes signals every process of the cgroup. *)
Lemma kill_all_processes_Ok sig w w' :
  kill_all_processes sig w = (Ok (), w') →
  ∃ pre post, trail w' = trail w ++ pre ++ ((λ p, ESignal p sig) <$> cgroup_procs w) ++ post ∧
    (pre = [] ∨ pre = [EFreeze Frozen]) ∧ (post = [] ∨ post = [EFreeze Thawed]) ∧
    root_there w' = root_there w.
Proof.
  unfold kill_all_processes. intros ([] & w1 & Hc & Hr)%io_bind_Ok.
  assert (same w w1) as [t ->].
  { apply io_bind_Ok in Hc as (h & w2 & Hl & Hq). apply load_config_same in Hl.
    apply query_spec in Hq as [Hq _]. by eapply same_trans. }
  set (w1 := MkWorld _ _ _ _ _ _ _ _ _ _) in Hr.
  apply io_bind_Ok in Hr as ([] & w2 & Hf & Hr).
  destruct (attempt_spec (EFreeze Frozen) w1) as (pre & Hpre & Htr & Hcp & Hrt & _).
  rewrite Hf in Htr, Hcp, Hrt. cbn in Htr, Hcp, Hrt.
  apply io_bind_Ok in Hr as (ps & w3 & Hp & Hr).
  apply query_spec in Hp as [[t3 ->] [[= ->]|?]]; [|done].
  apply io_bind_Ok in Hr as ([] & w4 & Hs & Hr).
  apply send_signals_Ok in Hs as (Hst & _ & Hrt4). cbn in Hst, Hrt4.
  destruct (attempt_spec (EFreeze Thawed) w4) as (post & Hpost & Htr5 & _ & Hrt5 & _).
  rewrite Hr in Htr5, Hrt5. cbn in Htr5, Hrt5. exists pre, post.
  rewrite Htr5, Hst, Htr, Hcp, Hrt5, Hrt4, Hrt, <- !app_assoc. done.
Qed.

Lemma no_panic_delete c force : no_panic (delete c force).
Proof.
  unfold delete. apply no_panic_bind; [auto with lifecycle|]. intros c1 _ _ _.
  assert (no_panic (_ ← do_kill c1 SIGKILL true; save_status Stopped c1)) as Hk
    by auto with lifecycle.
  apply no_panic_bind; [destruct (status c1), force; auto with lifecycle|].
  intros c2 w w' Hc2.
  assert (status c2 = Stopped) as ->.
  { assert (∀ w, (_ ← do_kill c1 SIGKILL true; save_status Stopped c1) w = (Ok c2, w') →
      status c2 = Stopped) as Hsave.
    { intros w1 ([] & w2 & _ & Hs)%io_bind_Ok. by apply save_status_Ok in Hs as (_ & ? & _). }
    destruct (status c1) eqn:Hs1, force; try done; try (by eapply Hsave);
      injection Hc2 as <- _; done. }
  apply no_panic_bind; [auto with lifecycle|]. intros _ _ _ _ w1. unfold delete_root.
  destruct (root_there w1); [|done]. apply no_panic_bind; [|auto with lifecycle].
  intros w2. unfold delete_cgroup. pose proof (no_panic_load_config w2) as Hl.
  destruct (load_config w2) as [[hooks|e|] w3]; [|done|done].
  apply no_panic_bind; [auto with lifecycle|]. intros _ _ _ _.
  apply no_panic_bind; [auto with lifecycle|]. intros _ _ _ _. destruct hooks; auto with lifecycle.
Qed.

(** The end of a deletion that succeeds: the directory is removed last. *)
Lemma delete_root_Ok w w' :
  delete_root w = (Ok (), w') →
  ∃ l, trail w' = trail w ++ l ∧
    (if root_there w then disk w' = None ∧ last l = Some ERemoveRoot else l = []) ∧
    root_there w' = false.
Proof.
  unfold delete_root. destruct (root_there w) eqn:Hroot.
  2:{ intros [= <-]. exists []. by rewrite app_nil_r. }
  intros ([] & w1 & Hc & Hr)%io_bind_Ok.
  assert (∃ l, trail w1 = trail w ++ l) as [l Hl].
  { unfold delete_cgroup in Hc. destruct (load_config w) as [[hooks|e|] w2] eqn:Hlc; [| |done].
    - apply load_config_same in Hlc as [t ->].
      apply io_bind_Ok in Hc as ([] & w3 & Hq & Hc). apply query_spec in Hq as [[t3 ->] _].
      apply io_bind_Ok in Hc as ([] & w4 & Hm & Hc).
      apply must_spec in Hm as [[_ ->]|[? _]]; [|done].
      destruct hooks; [|injection Hc as <-; by eexists].
      apply must_spec in Hc as [[_ ->]|[? _]]; [|done]. eexists. cbn. by rewrite <- app_assoc.
    - apply load_config_same in Hlc as [t ->]. injection Hc as <-. exists []. by rewrite app_nil_r. }
  apply must_spec in Hr as [[_ ->]|[? _]]; [|done]. exists (l ++ [ERemoveRoot]). cbn.
  rewrite Hl, <- app_assoc. split; [done|]. by rewrite last_snoc.
Qed.

(** Killing everything and saving the status. *)
Lemma kill_and_save_Ok c w c' w' :
  (_ ← do_kill c SIGKILL true; save_status Stopped c) w = (Ok c', w') →
  ∃ kills, trail w' = trail w ++ kills ∧ root_there w' = root_there w ∧
    last kills = Some (ESave Stopped) ∧
    ∀ p, p ∈ cgroup_procs w → ESignal p SIGKILL ∈ kills.
Proof.
  intros ([] & w1 & Hk & Hs)%io_bind_Ok.
  apply kill_all_processes_Ok in Hk as (pre & post & Ht & _ & _ & Hrt).
  apply save_status_Ok in Hs as (_ & _ & _ & _ & Ht2 & Hrt2 & _).
  exists ((pre ++ ((λ p, ESignal p SIGKILL) <$> cgroup_procs w) ++ post) ++ [ESave Stopped]).
  rewrite Ht2, Ht, Hrt2, Hrt, last_snoc, <- !app_assoc. do 3 (split; [done|]).
  intros p Hp. rewrite !elem_of_app. right. left. by apply (list_elem_of_fmap_2 (λ p, ESignal p SIGKILL)).
Qed.

(** Deleting a container.  Deletion never panics, in particular its own check
    that the container is stopped holds.  Without force, a creating, running or
    paused container is not touched.  When deletion succeeds, either the
    container was already stopped or every process of its cgroup was sent
    [SIGKILL] and the stopped status saved; and after that, as the last step,
    the container's directory was removed if it existed. *)
Theorem delete_spec c force w r w' :
  delete c force w = (r, w') →
  match r with
  | Ok _ =>
      root_there w' = false ∧
      ∃ kills rest, trail w' = trail w ++ kills ++ rest ∧
        (root_there w = true → disk w' = None ∧ last rest = Some ERemoveRoot) ∧
        if decide (refreshed c w = Stopped) then kills = []
        else (refreshed c w = Created ∨ force = true) ∧
             last kills = Some (ESave Stopped) ∧
             ∀ p, p ∈ cgroup_procs w → ESignal p SIGKILL ∈ kills
  | Err e => force = false → can_delete (refreshed c w) = false →
             refreshed c w ≠ Created → same w w'
  | Panic => False
  end.
Proof.
  intros Hdel. assert (r ≠ Panic) as Hnp.
  { pose proof (no_panic_delete c force w) as Hn. by rewrite Hdel in Hn. }
  unfold delete in Hdel. destruct (refresh_status c w) as [r1 w1] eqn:Hr.
  pose proof (refresh_spec c w r1 w1 Hr) as [Hsame Hr1].
  destruct r1 as [c1|e1|]; [|unfold mbind, io_bind in Hdel; rewrite Hr in Hdel;
    injection Hdel as <- <-; done|done].
  rewrite (io_bind_run _ _ _ _ _ Hr) in Hdel. destruct Hr1 as [t ->].
  destruct r as [[]|e|]; [| |done].
  - apply io_bind_Ok in Hdel as (c2 & w2 & Hk & Hrest). cbn [status set_status] in Hk.
    destruct (negb _); [done|]. apply io_bind_Ok in Hrest as ([] & w3 & Hi & Hd).
    destruct (attempt_spec EIntelRdt w2) as (li & _ & Hti & _ & Hri & _).
    rewrite Hi in Hti, Hri. cbn in Hti, Hri.
    apply delete_root_Ok in Hd as (l & Htl & Hl & Hroot). split; [done|].
    assert (∃ kills, trail w2 = trail w1 ++ kills ∧ root_there w2 = root_there w1 ∧
      if decide (refreshed c w = Stopped) then kills = []
      else (refreshed c w = Created ∨ force = true) ∧ last kills = Some (ESave Stopped) ∧
           ∀ p, p ∈ cgroup_procs w1 → ESignal p SIGKILL ∈ kills) as (kills & Ht2 & Hr2 & Hkills).
    { destruct (decide (refreshed c w = Stopped)) as [Hst|Hst].
      - rewrite Hst in Hk. injection Hk as _ <-. exists []. by rewrite app_nil_r.
      - destruct (refreshed c w); try done; [destruct force; [|done]|
          |destruct force; [|done]|destruct force; [|done]];
          apply kill_and_save_Ok in Hk as (kills & ? & ? & ? & ?); exists kills; auto. }
    destruct Hsame as [t1 ->]. exists kills, (li ++ l). rewrite Htl, Hti, Ht2, <- !app_assoc.
    split; [done|]. split; [|done]. intros Hrt. rewrite Hri, Hr2 in Hl. cbn in Hl. rewrite Hrt in Hl.
    destruct Hl as [? Hlast]. split; [done|]. rewrite last_app. by rewrite Hlast.
  - intros -> Hcd Hcr. cbn [status set_status] in Hdel.
    destruct (refreshed c w); cbn in Hcd; try done; unfold mbind, io_bind, pure in Hdel;
      injection Hdel as _ <-; done.
Qed.

Lemma delete_spec_witness :
  root_there (delete example_state false example_life).2 = false ∧
  ∃ kills rest, trail (delete example_state false example_life).2 =
      trail example_life ++ kills ++ rest ∧
    (root_there example_life = true →
     disk (delete example_state false example_life).2 = None ∧ last rest = Some ERemoveRoot) ∧
    if decide (refreshed example_state example_life = Stopped) then kills = []
    else (refreshed example_state example_life = Created ∨ false = true) ∧
         last kills = Some (ESave Stopped) ∧
         ∀ p, p ∈ cgroup_procs example_life → ESignal p SIGKILL ∈ kills.
Proof.
  apply (delete_spec example_state false example_life (Ok ())). vm_compute. reflexivity.
Defined.

(** ** Signal names ([signal.rs]) *)

(** [nix::sys::signal::Signal] *)
Inductive NixSignal : Type :=
  | SHUP | SINT | SQUIT | SILL | SBUS | SABRT | STRAP | SFPE | SKILL | SUSR1 | SSEGV | SUSR2
  | SPIPE | SALRM | STERM | SSTKFLT | SCHLD | SCONT | SSTOP | STSTP | STTIN | STTOU | SURG
  | SXCPU | SXFSZ | SVTALRM | SPROF | SWINCH | SIO | SPWR | SSYS.

#[global] Instance NixSignal_eq_dec : EqDecision NixSignal.
Proof. solve_decision. Defined.

(** The numbers of the signals on Linux (x86, ARM and most others), signal(7). *)
Definition signal_number (s : NixSignal) : Z :=
  match s with
  | SHUP => 1 | SINT => 2 | SQUIT => 3 | SILL => 4 | SBUS => 7
  | SABRT => 6 | STRAP => 5 | SFPE => 8 | SKILL => 9 | SUSR1 => 10
  | SSEGV => 11 | SUSR2 => 12 | SPIPE => 13 | SALRM => 14 | STERM => 15
  | SSTKFLT => 16 | SCHLD => 17 | SCONT => 18 | SSTOP => 19 | STSTP => 20
  | STTIN => 21 | STTOU => 22 | SURG => 23 | SXCPU => 24 | SXFSZ => 25
  | SVTALRM => 26 | SPROF => 27 | SWINCH => 28 | SIO => 29 | SPWR => 30
  | SSYS => 31
  end.

(** [str::to_ascii_uppercase] *)
Definition ascii_upper (c : ascii) : ascii :=
  let n := nat_of_ascii c in
  if ((97 <=? n) && (n <=? 122))%nat then ascii_of_nat (n - 32) else c.

Definition to_ascii_uppercase (s : string) : string := of_chars (map ascii_upper (chars s)).

(** The strings that the source lists, in its order. *)
Definition signal_table : list (list string * NixSignal) := [
  (["1"; "HUP"; "SIGHUP"], SHUP);
  (["2"; "INT"; "SIGINT"], SINT);
  (["3"; "QUIT"; "SIGQUIT"], SQUIT);
  (["4"; "ILL"; "SIGILL"], SILL);
  (["5"; "BUS"; "SIGBUS"], SBUS);
  (["6"; "ABRT"; "IOT"; "SIGABRT"; "SIGIOT"], SABRT);
  (["7"; "TRAP"; "SIGTRAP"], STRAP);
  (["8"; "FPE"; "SIGFPE"], SFPE);
  (["9"; "KILL"; "SIGKILL"], SKILL);
  (["10"; "USR1"; "SIGUSR1"], SUSR1);
  (["11"; "SEGV"; "SIGSEGV"], SSEGV);
  (["12"; "USR2"; "SIGUSR2"], SUSR2);
  (["13"; "PIPE"; "SIGPIPE"], SPIPE);
  (["14"; "ALRM"; "SIGALRM"], SALRM);
  (["15"; "TERM"; "SIGTERM"], STERM);
  (["16"; "STKFLT"; "SIGSTKFLT"], SSTKFLT);
  (["17"; "CHLD"; "SIGCHLD"], SCHLD);
  (["18"; "CONT"; "SIGCONT"], SCONT);
  (["19"; "STOP"; "SIGSTOP"], SSTOP);
  (["20"; "TSTP"; "SIGTSTP"], STSTP);
  (["21"; "TTIN"; "SIGTTIN"], STTIN);
  (["22"; "TTOU"; "SIGTTOU"], STTOU);
  (["23"; "URG"; "SIGURG"], SURG);
  (["24"; "XCPU"; "SIGXCPU"], SXCPU);
  (["25"; "XFSZ"; "SIGXFSZ"], SXFSZ);
  (["26"; "VTALRM"; "SIGVTALRM"], SVTALRM);
  (["27"; "PROF"; "SIGPROF"], SPROF);
  (["28"; "WINCH"; "SIGWINCH"], SWINCH);
  (["29"; "IO"; "SIGIO"], SIO);
  (["30"; "PWR"; "SIGPWR"], SPWR);
  (["31"; "SYS"; "SIGSYS"], SSYS)].

(** [TryFrom<&str> for Signal] *)
Definition signal_try_from (s : string) : outcome string NixSignal :=
  let u := to_ascii_uppercase s in
  match List.find (λ row, bool_decide (u ∈ row.1)) signal_table with
  | Some (_, sig) => Ok sig
  | None => Err s
  end.

(** Signal numbers and names.  A decimal number from 1 to 31 is read as the
    signal with that number on Linux, except that 5 and 7 are exchanged: ["5"] is
    read as [SIGBUS], which is signal 7, and ["7"] as [SIGTRAP], which is signal 5.
    Every name in the table is read in upper and in lower case alike. *)
Theorem signal_numbers :
  (∀ n, 1 ≤ n ≤ 31 → ∃ s, signal_try_from (pretty n) = Ok s ∧
     signal_number s = if n =? 5 then 7 else if n =? 7 then 5 else n) ∧
  Forall (λ row : list string * NixSignal, Forall (λ name,
    signal_try_from name = Ok row.2 ∧
    signal_try_from (of_chars (map (λ c, if ((65 <=? nat_of_ascii c) && (nat_of_ascii c <=? 90))%nat
      then ascii_of_nat (nat_of_ascii c + 32) else c) (chars name))) = Ok row.2) row.1) signal_table.
Proof.
  split.
  - intros n Hn. assert (n ∈ seqZ 1 31) as Hin by (apply elem_of_seqZ; lia). revert Hin.
    vm_compute seqZ. clear Hn. intros Hin.
    repeat (apply elem_of_cons in Hin as [->|Hin]; [eexists; split; vm_compute; reflexivity|]).
    by apply elem_of_nil in Hin.
  - repeat (apply Forall_cons; split); try apply Forall_nil_2; vm_compute; done.
Qed.
