(* ===== verification/SystemdProps.v ===== *)
(** * SystemdProps: resource limits as systemd unit properties

    Models the controllers of [crates/libcgroups/src/systemd] that translate the
    resources of a container into properties of its unit: [cpu.rs], [cpuset.rs],
    [memory.rs], [pids.rs], [io.rs] and [unified.rs].  The properties are a map
    from names to D-Bus variants, as in the source. *)
From S2P Require Import Prelude Text Paths CgroupFs V2Controllers Dbus DbusMessage DbusConn.
Local Open Scope string_scope.
Local Open Scope list_scope.
Local Open Scope Z_scope.

Abbreviation props := (gmap string Variant).

Definition U64_MAX : Z := 2 ^ 64 - 1.

(** ** [cpu.rs] *)

Module SCpu.
Definition CPU_WEIGHT : string := "CPUWeight".
Definition CPU_QUOTA : string := "CPUQuotaPerSecUSec".
Definition CPU_PERIOD : string := "CPUQuotaPeriodUSec".
Definition MICROSECS_PER_SEC : Z := 1000000.

Inductive SystemdCpuError : Type := RealtimeSystemd.

Section cpu.
(** See [Cpu.shares_curve]; here the result is not clamped. *)
Context (shares_curve : Z → Z).

Definition sd_convert_shares (shares : Z) : Z :=
  if shares =? 0 then 0
  else if shares <=? 2 then 1
  else if 262144 <=? shares then 10000
  else shares_curve shares.

(** Multiplication at [u64] wraps, or panics in a debug build; division by zero
    panics. *)
Definition sd_quota (cpu : LinuxCpu) : outcome SystemdCpuError Z :=
  match quota cpu with
  | Some q =>
      if 0 <? q then
        let p := default 100000 (period cpu) in
        if p =? 0 then Panic else Ok (uwrap 64 (uwrap 64 q * MICROSECS_PER_SEC) / p)
      else Ok U64_MAX
  | None => Ok U64_MAX
  end.

Definition sd_period (cpu : LinuxCpu) : Z :=
  match period cpu with Some p => if 0 <? p then p else 100000 | None => 100000 end.

Definition sd_cpu_apply (cpu : LinuxCpu) (properties : props) : outcome SystemdCpuError props :=
  _ ← (if Cpu.is_realtime_requested cpu then
         if (0 <? default 0 (realtime_runtime cpu)) || (0 <? default 0 (realtime_period cpu))
         then Err RealtimeSystemd else Ok ()
       else Ok ());
  let properties :=
    match shares cpu with
    | Some s =>
        let w := sd_convert_shares s in
        if negb (w =? 0) then <[CPU_WEIGHT := VU64 (UInt w)]> properties else properties
    | None => properties
    end in
  q ← sd_quota cpu;
  Ok (<[CPU_PERIOD := VU64 (UInt (sd_period cpu))]> (<[CPU_QUOTA := VU64 (UInt q)]> properties)).
End cpu.
End SCpu.

(** ** [memory.rs] and [pids.rs] *)

Module SMemory.
Definition MEMORY_MIN : string := "MemoryMin".
Definition MEMORY_LOW : string := "MemoryLow".
Definition MEMORY_HIGH : string := "MemoryHigh".
Definition MEMORY_MAX : string := "MemoryMax".
Definition MEMORY_SWAP : string := "MemorySwapMax".

Inductive SystemdMemoryError : Type :=
  | ReservationValue (v : Z)
  | MemoryLimit (v : Z)
  | SSwapValue (swap : Z) (limit : string).

(** A positive value, or -1 for no limit; anything else is an error. *)
Definition sd_value {E} (v : Z) (e : E) : outcome E Variant :=
  if 1 <=? v then Ok (VU64 (UInt v))
  else if v =? -1 then Ok (VU64 (UInt U64_MAX))
  else Err e.

Definition apply_swap (swap limit : option Z) (properties : props) :
    outcome SystemdMemoryError props :=
  let error s := Err (SSwapValue s (from_option pretty "none" limit)) in
  let insert v := Ok (<[MEMORY_SWAP := VU64 (UInt v)]> properties) in
  match limit, swap with
  | Some l, None => if l =? -1 then insert U64_MAX else Ok properties
  | None, None => Ok properties
  | _, Some s =>
      if s =? -1 then insert U64_MAX
      else if s =? 0 then error s
      else
        match limit with
        | None => if 1 <=? s then error s else Ok properties
        | Some l =>
            if ((l =? 0) || (l =? -1)) && (1 <=? s) then error s
            else if l <=? s then insert (uwrap 64 (s - l))
            else Ok properties
        end
  end.

Definition sd_memory_apply (memory : LinuxMemory) (properties : props) :
    outcome SystemdMemoryError props :=
  properties ← match reservation memory with
               | Some r => v ← sd_value r (ReservationValue r); Ok (<[MEMORY_LOW := v]> properties)
               | None => Ok properties
               end;
  properties ← match limit memory with
               | Some l => v ← sd_value l (MemoryLimit l); Ok (<[MEMORY_MAX := v]> properties)
               | None => Ok properties
               end;
  apply_swap (swap memory) (limit memory) properties.
End SMemory.

Module SPids.
Definition TASKS_MAX : string := "TasksMax".

Definition sd_pids_apply (pids_limit : Z) (properties : props) : props :=
  <[TASKS_MAX := VU64 (UInt (if 0 <? pids_limit then pids_limit else U64_MAX))]> properties.
End SPids.

(** ** [io.rs] *)

Module SIo.
Inductive SystemdIoError : Type := DeviceNotFound (major minor : Z).

Section io.
(** The name of a device below [/sys/dev], as [fs::read_link] finds it. *)
Context (link_name : string → option string).

Definition dev_path_from_major_minor (major minor : Z) : option string :=
  let num := pretty major +:+ ":" +:+ pretty minor in
  match link_name ("/sys/dev/block/" +:+ num) with
  | Some name => Some ("/dev/" +:+ name)
  | None =>
      match link_name ("/sys/dev/char/" +:+ num) with
      | Some name => Some ("/dev/" +:+ name)
      | None => None
      end
  end.

Definition device_limit (d : LinuxThrottleDevice) :
    outcome SystemdIoError (Structure u64) :=
  match dev_path_from_major_minor (td_major d) (td_minor d) with
  | Some dev => Ok (MkStructure dev (UInt (td_rate d)))
  | None => Err (DeviceNotFound (td_major d) (td_minor d))
  end.

Definition apply_limits (devices : option (list LinuxThrottleDevice)) (k : string)
    (properties : props) : outcome SystemdIoError props :=
  match devices with
  | None => Ok properties
  | Some devices =>
      limits ← mapM device_limit devices;
      Ok (if bool_decide (limits = []) then properties
          else <[k := VArrayStructU64 limits]> properties)
  end.

Definition sd_io_apply (blkio : LinuxBlockIo) (properties : props) :
    outcome SystemdIoError props :=
  properties ← apply_limits (throttle_read_bps_device blkio) "IOReadBandwidthMax" properties;
  properties ← apply_limits (throttle_write_bps_device blkio) "IOWriteBandwidthMax" properties;
  properties ← apply_limits (throttle_read_iops_device blkio) "IOReadIOPSMax" properties;
  apply_limits (throttle_write_iops_device blkio) "IOWriteIOPSMax" properties.
End io.
End SIo.

(** ** [cpuset.rs] *)

(** [usize::checked_add] on a 64-bit machine. *)
Definition checked_add (a b : Z) : option Z :=
  if a + b <? 2 ^ 64 then Some (a + b) else None.

(** The operations of the [fixedbitset] crate that the controller uses; [None]
    stands for the panic on a bit beyond the length. *)
Class FixedBitSet (T : Type) : Type := {
  with_capacity : Z → T;
  bs_len : T → Z;
  contains : T → Z → bool;
  grow : T → Z → T;
  bs_set : T → Z → option T;
  set_range : T → Z → Z → option T;
  as_slice : T → list Z
}.

(** What the crate documents of them.  A block of [as_slice] has 64 bits, the
    first bit of the set is the least significant bit of the first block. *)
Class FixedBitSetLaws (T : Type) `{FixedBitSet T} : Prop := {
  len_with_capacity n : bs_len (with_capacity n) = n;
  contains_with_capacity n i : contains (with_capacity n) i = false;
  len_grow b n : bs_len (grow b n) = Z.max (bs_len b) n;
  contains_grow b n i : contains (grow b n) i = contains b i;
  set_ok b i : 0 ≤ i < bs_len b → ∃ b', bs_set b i = Some b' ∧ bs_len b' = bs_len b ∧
    ∀ j, contains b' j = (j =? i) || contains b j;
  set_range_ok b s e : 0 ≤ s ≤ e → e ≤ bs_len b →
    ∃ b', set_range b s e = Some b' ∧ bs_len b' = bs_len b ∧
    ∀ j, contains b' j = ((s <=? j) && (j <? e)) || contains b j;
  slice_blocks b : Forall (in_u 64) (as_slice b);
  slice_contains b i : 0 ≤ i →
    contains b i = from_option (λ blk, Z.testbit blk (i mod 64)) false
                     (as_slice b !! Z.to_nat (i / 64))
}.

Module SCpuSet.
Definition ALLOWED_CPUS : string := "AllowedCPUs".
Definition ALLOWED_NODES : string := "AllowedMemoryNodes".

Inductive BitmaskError : Type :=
  | InvalidIndex (err : IntErrorKind) (index : string)
  | InvalidRange (range : string).

Inductive SystemdCpuSetError : Type :=
  | OldSystemd
  | CpusBitmask (e : BitmaskError)
  | MemoryNodesBitmask (e : BitmaskError).

Definition parse_index (s : string) : outcome BitmaskError Z :=
  map_err (λ err, InvalidIndex err s) (parse_unsigned 64 s).

(** [u64::to_be_bytes], [n] bytes. *)
Fixpoint to_be_bytes (n : nat) (z : Z) : list Z :=
  match n with
  | O => []
  | S n => to_be_bytes n (z / 256) ++ [z mod 256]
  end.

Fixpoint skip_zeros (l : list Z) : list Z :=
  match l with
  | b :: l' => if b =? 0 then skip_zeros l' else l
  | [] => []
  end.

Section cpuset.
Context {T : Type} `{FixedBitSet T}.

(** The body of the loop over the pieces of the list. *)
Definition add_piece (piece : string) (bitset : T) : outcome BitmaskError T :=
  let cpu_set := trim piece in
  if bool_decide (cpu_set = "") then Ok bitset
  else
    match trim <$> split_on "-"%char cpu_set with
    | [] => Panic
    | [cpu] =>
        cpu_index ← parse_index cpu;
        bitset ← (if bs_len bitset <=? cpu_index then
                    n ← ok_or (checked_add cpu_index 1) (InvalidRange cpu_set);
                    Ok (grow bitset n)
                  else Ok bitset);
        unwrap (bs_set bitset cpu_index)
    | cpu0 :: cpu1 :: _ =>
        start_index ← parse_index cpu0;
        end_index ← parse_index cpu1;
        if end_index <? start_index then Err (InvalidRange cpu_set)
        else
          e ← ok_or (checked_add end_index 1) (InvalidRange cpu_set);
          let bitset := if bs_len bitset <=? end_index then grow bitset e else bitset in
          unwrap (set_range bitset start_index e)
    end.

Definition to_bitmask (range : string) : outcome BitmaskError (list Z) :=
  bitset ← for_each add_piece (split_terminator ","%char range) (with_capacity 8);
  Ok (skip_zeros (rev (as_slice bitset) ≫= to_be_bytes 8)).

Definition mask_of (l : list Z) : Variant := VArrayU64 (UInt <$> l).

Definition sd_cpuset_apply (cpu : LinuxCpu) (systemd_version : Z) (properties : props) :
    outcome SystemdCpuSetError props :=
  if systemd_version <=? 243 then Err OldSystemd
  else
    properties ← match cpus cpu with
                 | Some cpus =>
                     m ← map_err CpusBitmask (to_bitmask cpus);
                     Ok (<[ALLOWED_CPUS := mask_of m]> properties)
                 | None => Ok properties
                 end;
    match mems cpu with
    | Some mems =>
        m ← map_err MemoryNodesBitmask (to_bitmask mems);
        Ok (<[ALLOWED_NODES := mask_of m]> properties)
    | None => Ok properties
    end.
End cpuset.
End SCpuSet.

(** ** [unified.rs] *)

Module SUnified.
Inductive SystemdUnifiedError : Type :=
  | CpuWeight (err : IntErrorKind) (value : string)
  | CpuMax (value : string)
  | CpuQuota (err : IntErrorKind) (value : string)
  | CpuPeriod (err : IntErrorKind) (value : string)
  | UOldSystemd (name : string)
  | CpuSetCpu (e : SCpuSet.BitmaskError)
  | UMemory (err : IntErrorKind) (name value : string)
  | PidsMax (err : IntErrorKind) (value : string)
  | UInvalidFilename (filename : string)
  | UInvalidFormat (filename : string).

Section unified.
Context {T : Type} `{FixedBitSet T} (shares_curve : Z → Z).

Definition apply_cpu_max (value : string) (properties : props) :
    outcome SystemdUnifiedError props :=
  let parts := split_whitespace value in
  match parts with
  | [q] | [q; _] =>
      quota ← map_err (λ err, CpuQuota err q) (parse_unsigned 64 q);
      let properties := <[SCpu.CPU_QUOTA := VU64 (UInt quota)]> properties in
      match parts with
      | [_; p] =>
          period ← map_err (λ err, CpuPeriod err p) (parse_unsigned 64 p);
          Ok (<[SCpu.CPU_PERIOD := VU64 (UInt period)]> properties)
      | _ => Ok properties
      end
  | _ => Err (CpuMax value)
  end.

Definition apply_cpuset (name key : string) (systemd_version : Z) (value : string)
    (properties : props) : outcome SystemdUnifiedError props :=
  if systemd_version <=? 243 then Err (UOldSystemd name)
  else
    bitmask ← map_err CpuSetCpu (SCpuSet.to_bitmask value);
    Ok (<[key := SCpuSet.mask_of bitmask]> properties).

Definition apply_memory (name key value : string) (properties : props) :
    outcome SystemdUnifiedError props :=
  v ← map_err (λ err, UMemory err name value) (parse_unsigned 64 value);
  Ok (<[key := VU64 (UInt v)]> properties).

(** One entry of the map. *)
Definition apply_entry (systemd_version : Z) (kv : string * string) (properties : props) :
    outcome SystemdUnifiedError props :=
  let '(k, value) := kv in
  if contains_char "/"%char k then Err (UInvalidFilename k)
  else if negb (contains_char "."%char k) || starts_with "." k then Err (UInvalidFormat k)
  else if bool_decide (k = "cpu.weight") then
    shares ← map_err (λ err, CpuWeight err value) (parse_unsigned 64 value);
    Ok (<[SCpu.CPU_WEIGHT := VU64 (UInt (SCpu.sd_convert_shares shares_curve shares))]> properties)
  else if bool_decide (k = "cpu.max") then apply_cpu_max value properties
  else if bool_decide (k = "cpuset.cpus")
  then apply_cpuset k SCpuSet.ALLOWED_CPUS systemd_version value properties
  else if bool_decide (k = "cpuset.mems")
  then apply_cpuset k SCpuSet.ALLOWED_NODES systemd_version value properties
  else if bool_decide (k = "memory.min") then apply_memory k SMemory.MEMORY_MIN value properties
  else if bool_decide (k = "memory.low") then apply_memory k SMemory.MEMORY_LOW value properties
  else if bool_decide (k = "memory.high") then apply_memory k SMemory.MEMORY_HIGH value properties
  else if bool_decide (k = "memory.max") then apply_memory k SMemory.MEMORY_MAX value properties
  else if bool_decide (k = "pids.max") then
    pids ← map_err (λ err, PidsMax err value) (parse_signed 64 (trim value));
    Ok (<[SPids.TASKS_MAX := VU64 (UInt (uwrap 64 pids))]> properties)
  else Ok properties.

(** [unified] is the hash map in its iteration order. *)
Definition sd_unified_apply (unified : list (string * string)) (systemd_version : Z)
    (properties : props) : outcome SystemdUnifiedError props :=
  for_each (apply_entry systemd_version) unified properties.
End unified.
End SUnified.

(** ** Words *)

(** Two numbers with a space between them. *)
Lemma split_whitespace_pair (a b : N) :
  split_whitespace (pretty a +:+ " " +:+ pretty b) = [pretty a; pretty b].
Proof.
  unfold split_whitespace.
  assert (∀ n : N, Forall is_ascii (chars (pretty n)) ∧
    Forall (λ g, is_whitespace g = false) ((λ c, [c]) <$> chars (pretty n))) as Hdig.
  { intros n. rewrite Forall_fmap, <- Forall_and. eapply Forall_impl; [apply pretty_N_digits|].
    intros c. apply digit_ascii. }
  assert (∀ n : N, rev ((λ c, [c]) <$> chars (pretty n)) ++ [] ≠ []) as Hne.
  { intros n. destruct (pretty_N_head n) as (c & l & -> & _). cbn. rewrite app_nil_r. by intros [? ?]%app_nil. }
  rewrite char_bytes_ascii, !chars_app, !fmap_app
    by (rewrite !chars_app, !Forall_app; split; [apply Hdig|split; [by repeat constructor|apply Hdig]]).
  rewrite words_chars_app by apply Hdig. cbn [chars fmap list_fmap app words_chars].
  change (is_whitespace [" "%char]) with true. cbv iota. rewrite decide_False by apply Hne.
  rewrite <- (app_nil_r ((λ c, [c]) <$> chars (pretty b))), words_chars_app by apply Hdig.
  cbn [words_chars]. rewrite decide_False by apply Hne. cbn [map]. unfold compose.
  by rewrite !app_nil_r, !rev_involutive, !concat_singletons, !of_chars_chars.
Qed.

(** ** Bit masks *)

Definition be_value (l : list Z) : Z := foldl (λ acc b, acc * 256 + b) 0 l.

(** The ranges that a list of cpus or memory nodes names, both ends included:
    the reference that [to_bitmask] is compared with. *)
Definition piece_range (piece : string) : outcome SCpuSet.BitmaskError (list (Z * Z)) :=
  let cpu_set := trim piece in
  if bool_decide (cpu_set = "") then Ok []
  else
    '(a, b) ← match trim <$> split_on "-"%char cpu_set with
              | [] => Panic
              | [c] => i ← SCpuSet.parse_index c; Ok (i, i)
              | c0 :: c1 :: _ => a ← SCpuSet.parse_index c0; b ← SCpuSet.parse_index c1; Ok (a, b)
              end;
    if (b <? a) || (b =? U64_MAX) then Err (SCpuSet.InvalidRange cpu_set) else Ok [(a, b)].

Definition listed (range : string) : outcome SCpuSet.BitmaskError (list (Z * Z)) :=
  for_each (λ p acc, r ← piece_range p; Ok (acc ++ r)) (split_terminator ","%char range) [].

Definition in_ranges (l : list (Z * Z)) (i : Z) : bool :=
  existsb (λ r, (r.1 <=? i) && (i <=? r.2)) l.

Lemma be_value_snoc l b : be_value (l ++ [b]) = be_value l * 256 + b.
Proof. unfold be_value. by rewrite foldl_snoc. Qed.

Lemma be_value_app l1 l2 :
  be_value (l1 ++ l2) = be_value l1 * 256 ^ Z.of_nat (length l2) + be_value l2.
Proof.
  induction l2 as [|b l2 IH] using rev_ind; [rewrite app_nil_r; cbn; lia|].
  rewrite app_assoc, !be_value_snoc, IH, length_app. cbn [length].
  rewrite Nat2Z.inj_add, Z.pow_add_r by lia. change (256 ^ Z.of_nat 1) with 256. lia.
Qed.

Lemma length_to_be_bytes n z : length (SCpuSet.to_be_bytes n z) = n.
Proof. revert z. induction n as [|n IH]; intros z; cbn; [done|]. rewrite length_app, IH. cbn. lia. Qed.

Lemma to_be_bytes_value n z : 0 ≤ z → be_value (SCpuSet.to_be_bytes n z) = z mod 256 ^ Z.of_nat n.
Proof.
  revert z. induction n as [|n IH]; intros z Hz; cbn [SCpuSet.to_be_bytes].
  { rewrite Z.mod_1_r. done. }
  rewrite be_value_snoc, IH by (apply Z.div_pos; lia).
  rewrite Nat2Z.inj_succ, Z.pow_succ_r, Z.rem_mul_r by lia. lia.
Qed.

Lemma to_be_bytes_bytes n z : Forall (in_u 8) (SCpuSet.to_be_bytes n z).
Proof.
  revert z. induction n as [|n IH]; intros z; cbn; [constructor|].
  apply Forall_app; split; [done|]. apply Forall_singleton. apply Z.mod_pos_bound. lia.
Qed.

Lemma skip_zeros_value l : be_value (SCpuSet.skip_zeros l) = be_value l.
Proof.
  induction l as [|b l IH]; [done|]. cbn [SCpuSet.skip_zeros].
  by destruct (Z.eqb_spec b 0) as [->|].
Qed.

Lemma skip_zeros_head l : head (SCpuSet.skip_zeros l) ≠ Some 0.
Proof. induction l as [|b l IH]; cbn; [done|]. destruct (Z.eqb_spec b 0); [done|cbn; congruence]. Qed.

Lemma skip_zeros_Forall P l : Forall P l → Forall P (SCpuSet.skip_zeros l).
Proof. induction 1 as [|b l Hb Hl IH]; cbn; [constructor|]. destruct (b =? 0); [done|by constructor]. Qed.

(** Bit [i] of the big-endian bytes of 64-bit blocks. *)
Lemma blocks_testbit bs i :
  Forall (in_u 64) bs → 0 ≤ i →
  Z.testbit (be_value (rev bs ≫= SCpuSet.to_be_bytes 8)) i =
  from_option (λ blk, Z.testbit blk (i mod 64)) false (bs !! Z.to_nat (i / 64)).
Proof.
  intros Hbs. revert i. induction Hbs as [|b bs Hb Hbs IH]; intros i Hi; [by rewrite Z.bits_0|].
  cbn [rev]. rewrite bind_app, be_value_app. cbn [mbind list_bind].
  rewrite app_nil_r, length_to_be_bytes, to_be_bytes_value by apply Hb.
  change (256 ^ Z.of_nat 8) with (2 ^ 64). rewrite (Z.mod_small b) by apply Hb.
  destruct (decide (i < 64)) as [Hlt|Hge].
  - rewrite (Z.div_small i), (Z.mod_small i) by lia. cbn.
    rewrite <- (Z.mod_pow2_bits_low _ 64) by lia.
    by rewrite Z.add_comm, Z_mod_plus_full, Z.mod_small by apply Hb.
  - replace i with ((i - 64) + 64) at 1 by lia.
    rewrite <- Z.div_pow2_bits, Z.div_add_l, (Z.div_small b), Z.add_0_r by (apply Hb || lia).
    rewrite IH by lia.
    replace (i mod 64) with ((i - 64) mod 64) by (Z.to_euclidean_division_equations; lia).
    by replace (Z.to_nat (i / 64)) with (S (Z.to_nat ((i - 64) / 64)))
      by (Z.to_euclidean_division_equations; lia).
Qed.

(** An index fits a machine word. *)
Lemma parse_index_range s i : SCpuSet.parse_index s = Ok i → 0 ≤ i ≤ U64_MAX.
Proof.
  unfold SCpuSet.parse_index, U64_MAX. destruct (parse_unsigned 64 s) as [z| |] eqn:Hz; [|done..].
  cbn. intros [= ->]. apply parse_unsigned_bound in Hz; lia.
Qed.

Lemma checked_succ i :
  i ≤ U64_MAX → checked_add i 1 = if i =? U64_MAX then None else Some (i + 1).
Proof.
  unfold checked_add, U64_MAX. intros Hi.
  destruct (Z.ltb_spec (i + 1) (2 ^ 64)), (Z.eqb_spec i (2 ^ 64 - 1)); try done; lia.
Qed.

Section bitmask.
Context {T : Type} `{FixedBitSet T, !FixedBitSetLaws T}.

(** Room for a bit is made by growing the set, which keeps its elements. *)
Lemma grow_spec (b : T) i :
  let b1 := if bs_len b <=? i then grow b (i + 1) else b in
  bs_len b ≤ U64_MAX → i < U64_MAX →
  i < bs_len b1 ≤ U64_MAX ∧ ∀ j, contains b1 j = contains b j.
Proof.
  intros b1 Hb Hi. unfold b1. destruct (Z.leb_spec (bs_len b) i); [|split; [lia|done]].
  split; [rewrite len_grow; lia|intros; apply contains_grow].
Qed.

(** The bit set after a piece: its range is added, or the same error is met. *)
Lemma add_piece_spec piece (b : T) :
  bs_len b ≤ U64_MAX →
  match piece_range piece with
  | Ok l => ∃ b', SCpuSet.add_piece piece b = Ok b' ∧ bs_len b' ≤ U64_MAX ∧
              ∀ i, contains b' i = in_ranges l i || contains b i
  | Err e => SCpuSet.add_piece piece b = Err e
  | Panic => SCpuSet.add_piece piece b = Panic
  end.
Proof.
  intros Hlen. unfold piece_range, SCpuSet.add_piece.
  destruct (bool_decide _); [by exists b|].
  destruct (trim <$> _) as [|c0 [|c1 cs]]; [done| |].
  - destruct (SCpuSet.parse_index c0) as [i| |] eqn:Hi; run; [|done..].
    apply parse_index_range in Hi. rewrite Z.ltb_irrefl, checked_succ by lia. cbn [orb].
    destruct (Z.eqb_spec i U64_MAX) as [->|Hne].
    { by destruct (Z.leb_spec (bs_len b) U64_MAX); [|lia]. }
    destruct (grow_spec b i) as [Hb1 Hc]; [lia..|].
    set (b1 := if bs_len b <=? i then grow b (i + 1) else b) in *.
    destruct (set_ok b1 i) as (b2 & Hset & Hl2 & Hc2); [lia|]. exists b2.
    assert ((if bs_len b <=? i then Ok (grow b (i + 1)) else Ok b)
            = Ok (E:=SCpuSet.BitmaskError) b1) as Hok by (unfold b1; by case_match).
    cbn [ok_or]. run. rewrite Hok. run. rewrite Hset. split_and!; [done|lia|].
    intros j. rewrite Hc2, Hc. cbn. rewrite orb_false_r. f_equal.
    destruct (Z.eqb_spec j i), (Z.leb_spec i j), (Z.leb_spec j i); try done; lia.
  - destruct (SCpuSet.parse_index c0) as [s| |] eqn:Hs; run; [|done..].
    destruct (SCpuSet.parse_index c1) as [e| |] eqn:He; run; [|done..].
    apply parse_index_range in Hs, He. rewrite checked_succ by lia.
    destruct (Z.ltb_spec e s); cbn [orb]; [done|].
    destruct (Z.eqb_spec e U64_MAX) as [->|Hne]; [done|]. cbn [ok_or]. run.
    destruct (grow_spec b e) as [Hb1 Hc]; [lia..|].
    set (b1 := if bs_len b <=? e then grow b (e + 1) else b) in *.
    destruct (set_range_ok b1 s (e + 1)) as (b2 & Hset & Hl2 & Hc2); [lia..|]. exists b2.
    rewrite Hset. split_and!; [done|lia|].
    intros j. rewrite Hc2, Hc. cbn. rewrite orb_false_r. f_equal. f_equal.
    destruct (Z.ltb_spec j (e + 1)), (Z.leb_spec j e); try done; lia.
Qed.

(** Neither side panics. *)
Lemma piece_range_no_panic piece : piece_range piece ≠ Panic.
Proof.
  assert (∀ s, SCpuSet.parse_index s ≠ Panic) as Hp.
  { intros s. unfold SCpuSet.parse_index. pose proof (parse_unsigned_no_panic 64 s).
    by destruct (parse_unsigned 64 s). }
  unfold piece_range. destruct (bool_decide _); [done|].
  assert (split_on "-"%char (trim piece) ≠ []) as Hne.
  { unfold split_on. destruct (chars _) as [|c l]; cbn; [done|]. by repeat case_match. }
  destruct (split_on _ _) as [|c0 [|c1 cs]]; [done|..]; cbn [fmap list_fmap].
  - pose proof (Hp (trim c0)). destruct (SCpuSet.parse_index (trim c0)); run; [|done..].
    by case_match.
  - pose proof (Hp (trim c0)). destruct (SCpuSet.parse_index (trim c0)); run; [|done..].
    pose proof (Hp (trim c1)). destruct (SCpuSet.parse_index (trim c1)); run; [|done..].
    by case_match.
Qed.

(** The loop over the pieces, against the reference. *)
Lemma add_pieces_spec pieces (b : T) acc :
  bs_len b ≤ U64_MAX → (∀ i, contains b i = in_ranges acc i) →
  match for_each (λ p acc, r ← piece_range p; Ok (acc ++ r)) pieces acc with
  | Ok l => ∃ b', for_each SCpuSet.add_piece pieces b = Ok b' ∧
              ∀ i, contains b' i = in_ranges l i
  | Err e => for_each SCpuSet.add_piece pieces b = Err e
  | Panic => False
  end.
Proof.
  revert b acc. induction pieces as [|p pieces IH]; intros b acc Hb Hc; cbn [for_each].
  { by exists b. }
  pose proof (add_piece_spec p b Hb) as Hp. pose proof (piece_range_no_panic p).
  destruct (piece_range p) as [l|e|]; run; [|by rewrite Hp|done].
  destruct Hp as (b' & -> & Hb' & Hc'). run. apply IH; [done|].
  intros i. rewrite Hc', Hc. unfold in_ranges. by rewrite existsb_app, orb_comm.
Qed.

Lemma to_bitmask_listed range :
  match listed range with
  | Ok l => ∃ mask, SCpuSet.to_bitmask range = Ok mask ∧ Forall (in_u 8) mask ∧
              head mask ≠ Some 0 ∧ ∀ i, 0 ≤ i → Z.testbit (be_value mask) i = in_ranges l i
  | Err e => SCpuSet.to_bitmask range = Err e
  | Panic => False
  end.
Proof.
  pose proof (add_pieces_spec (split_terminator ","%char range) (with_capacity 8) []) as Hs.
  unfold listed, SCpuSet.to_bitmask.
  destruct (for_each (λ p acc, _) _ _) as [l|e|].
  - destruct Hs as (b & -> & Hc); [by rewrite len_with_capacity|apply contains_with_capacity|].
    run. eexists. split; [done|]. split_and!.
    + apply skip_zeros_Forall. apply Forall_bind, Forall_true. intros. apply to_be_bytes_bytes.
    + apply skip_zeros_head.
    + intros i Hi. rewrite skip_zeros_value, blocks_testbit by (done || apply slice_blocks).
      by rewrite <- Hc, slice_contains.
  - rewrite Hs; [done|by rewrite len_with_capacity|apply contains_with_capacity].
  - apply Hs; [by rewrite len_with_capacity|apply contains_with_capacity].
Qed.
End bitmask.

(** ** An instance: a set as its length and a number *)

Record zbits : Type := ZBits { zlen : Z; zval : Z }.

Fixpoint zblocks (n : nat) (z : Z) : list Z :=
  match n with O => [] | S n => z mod 2 ^ 64 :: zblocks n (z / 2 ^ 64) end.

#[export] Instance zbits_set : FixedBitSet zbits := {
  with_capacity n := ZBits n 0;
  bs_len := zlen;
  contains b i := (i <? zlen b) && Z.testbit (zval b) i;
  grow b n := ZBits (Z.max (zlen b) n) (Z.land (zval b) (Z.ones (Z.max 0 (zlen b))));
  bs_set b i := if i <? zlen b then Some (ZBits (zlen b) (Z.lor (zval b) (2 ^ i))) else None;
  set_range b s e :=
    if e <=? zlen b
    then Some (ZBits (zlen b) (Z.lor (zval b) (Z.shiftl (Z.ones (e - s)) s))) else None;
  as_slice b := zblocks (Z.to_nat ((zlen b + 63) / 64))
                  (Z.land (zval b) (Z.ones (Z.max 0 (zlen b))))
}.

Lemma zblocks_range n z : Forall (in_u 64) (zblocks n z).
Proof.
  revert z. induction n as [|n IH]; intros z; cbn [zblocks]; constructor; [|done].
  apply Z.mod_pos_bound. lia.
Qed.

Lemma zblocks_testbit n z i :
  0 ≤ i < 64 * Z.of_nat n →
  from_option (λ blk, Z.testbit blk (i mod 64)) false (zblocks n z !! Z.to_nat (i / 64))
  = Z.testbit z i.
Proof.
  revert z i. induction n as [|n IH]; intros z i Hi; [lia|]. cbn [zblocks].
  destruct (decide (i < 64)).
  - rewrite (Z.div_small i), (Z.mod_small i) by lia.
    change (Z.testbit (z mod 2 ^ 64) i = Z.testbit z i). by rewrite Z.mod_pow2_bits_low by lia.
  - replace (Z.to_nat (i / 64)) with (S (Z.to_nat ((i - 64) / 64)))
      by (Z.to_euclidean_division_equations; lia).
    replace (i mod 64) with ((i - 64) mod 64) by (Z.to_euclidean_division_equations; lia).
    cbn [lookup list_lookup]. rewrite IH by lia. rewrite Z.div_pow2_bits by lia. f_equal. lia.
Qed.

Lemma zblocks_beyond n z i : 64 * Z.of_nat n ≤ i → zblocks n z !! Z.to_nat (i / 64) = None.
Proof.
  intros Hi. apply lookup_ge_None_2.
  assert (∀ z, length (zblocks n z) = n) as -> by (clear; induction n; cbn; auto).
  Z.to_euclidean_division_equations; lia.
Qed.

#[export] Instance zbits_laws : FixedBitSetLaws zbits.
Proof.
  split; cbn.
  - done.
  - intros n i. by rewrite Z.bits_0, andb_false_r.
  - done.
  - intros b n i. destruct (decide (0 ≤ i)).
    + rewrite Z.land_spec. destruct (Z.ltb_spec i (zlen b)).
      * rewrite Z.ones_spec_low by lia. destruct (Z.ltb_spec i (Z.max (zlen b) n)); [|lia].
        by rewrite andb_true_r.
      * rewrite Z.ones_spec_high by lia. by rewrite !andb_false_r.
    + rewrite !Z.testbit_neg_r by lia. by rewrite !andb_false_r.
  - intros b i Hi. destruct (Z.ltb_spec i (zlen b)); [|lia]. eexists. split; [done|]. split; [done|].
    intros j. cbn. rewrite Z.lor_spec. destruct (Z.eqb_spec j i) as [->|Hj].
    + rewrite Z.pow2_bits_true by lia. destruct (Z.ltb_spec i (zlen b)); [|lia].
      by rewrite orb_true_r.
    + by rewrite Z.pow2_bits_false, orb_false_r by lia.
  - intros b s e Hs He. destruct (Z.leb_spec e (zlen b)); [|lia]. eexists. split; [done|].
    split; [done|]. intros j. cbn. rewrite Z.lor_spec. destruct (decide (0 ≤ j)).
    + rewrite Z.shiftl_spec by lia. destruct (Z.leb_spec s j).
      * rewrite Z.testbit_ones_nonneg by lia.
        destruct (Z.ltb_spec (j - s) (e - s)), (Z.ltb_spec j e), (Z.ltb_spec j (zlen b)); try lia;
          by rewrite ?orb_true_r, ?orb_false_r.
      * rewrite (Z.testbit_neg_r _ (j - s)) by lia. by rewrite orb_false_r.
    + rewrite !Z.testbit_neg_r by lia. destruct (Z.leb_spec s j); [lia|]. by rewrite !andb_false_r.
  - intros b. apply zblocks_range.
  - intros b i Hi. set (n := Z.to_nat ((zlen b + 63) / 64)).
    destruct (decide (i < 64 * Z.of_nat n)).
    + rewrite zblocks_testbit by lia. rewrite Z.land_spec, Z.testbit_ones_nonneg by lia.
      rewrite andb_comm. f_equal. destruct (Z.ltb_spec i (zlen b)), (Z.ltb_spec i (Z.max 0 (zlen b)));
        try done; lia.
    + rewrite zblocks_beyond by lia. destruct (Z.ltb_spec i (zlen b)); [|done].
      exfalso. unfold n in *. Z.to_euclidean_division_equations; lia.
Qed.

(** ** Properties *)

Lemma mask_bytes_ok k mask :
  Forall (in_u 8) mask → ∃ bytes, mask_bytes k (UInt <$> mask) = Ok bytes.
Proof.
  intros Hm. unfold mask_bytes. rewrite rev_alt. fold (reverse (UInt (w:=64) <$> mask)).
  rewrite <- fmap_reverse. apply Forall_reverse in Hm. induction Hm as [|b l Hb Hl [bytes IH]]; [by eexists|].
  cbn. destruct (decide _) as [|Hn]; [|by destruct Hn]. run. cbn in IH. rewrite IH. by eexists.
Qed.

Lemma mask_value_of mask : mask_value (UInt <$> mask) = be_value mask.
Proof.
  unfold mask_value, be_value. generalize 0.
  induction mask as [|b l IH]; intros acc; cbn; [done|apply IH].
Qed.

(** C13: a cpu list, from the configuration to the bus.  The list is read as the
    ranges of [listed], or refused with the same error; what systemd receives as
    [AllowedCPUs] is a byte array whose bit [i] is set exactly for the cpus [i]
    of the list.  No list makes the conversion panic. *)
Theorem allowed_cpus_on_wire {T} `{FixedBitSet T, !FixedBitSetLaws T} cpu v ps range :
  243 < v → cpus cpu = Some range → mems cpu = None →
  match listed range with
  | Ok l => ∃ mask bytes,
      SCpuSet.sd_cpuset_apply (T:=T) cpu v ps = Ok (<[SCpuSet.ALLOWED_CPUS := SCpuSet.mask_of mask]> ps) ∧
      wire_property (SCpuSet.ALLOWED_CPUS, SCpuSet.mask_of mask)
        = Ok (MkStructure SCpuSet.ALLOWED_CPUS (VArrayU8 bytes)) ∧
      Forall (λ b, in_u 8 (uval b)) bytes ∧
      ∀ i, 0 ≤ i → Z.testbit (wire_value bytes) i = in_ranges l i
  | Err e => SCpuSet.sd_cpuset_apply (T:=T) cpu v ps = Err (SCpuSet.CpusBitmask e)
  | Panic => False
  end.
Proof.
  intros Hv Hc Hm. pose proof (to_bitmask_listed (T:=T) range) as Hb.
  unfold SCpuSet.sd_cpuset_apply. rewrite Hc, Hm. destruct (Z.leb_spec v 243); [lia|].
  destruct (listed range) as [l|e|]; [|by rewrite Hb|done].
  destruct Hb as (mask & -> & Hbytes & _ & Hbits).
  destruct (mask_bytes_ok SCpuSet.ALLOWED_CPUS mask Hbytes) as [bytes Hw].
  destruct (mask_bytes_value _ _ _ Hw) as [Hf Hval]. exists mask, bytes.
  split_and!; [done| |done|].
  - unfold wire_property, SCpuSet.mask_of. cbn [SCpuSet.ALLOWED_CPUS bool_decide decide orb].
    rewrite bool_decide_eq_true_2 by done. cbn [orb]. by rewrite Hw.
  - intros i Hi. rewrite Hval, mask_value_of. by apply Hbits.
Qed.

Definition example_cpus (range : string) : LinuxCpu :=
  MkCpu None None None None None None (Some range) None None.

Lemma allowed_cpus_on_wire_witness :
  listed "0-2, 9" = Ok [(0, 2); (9, 9)] ∧
  SCpuSet.to_bitmask (T:=zbits) "0-2, 9" = Ok [2; 7] ∧
  ∃ mask bytes,
    SCpuSet.sd_cpuset_apply (T:=zbits) (example_cpus "0-2, 9") 250 ∅
      = Ok (<[SCpuSet.ALLOWED_CPUS := SCpuSet.mask_of mask]> ∅) ∧
    wire_property (SCpuSet.ALLOWED_CPUS, SCpuSet.mask_of mask)
      = Ok (MkStructure SCpuSet.ALLOWED_CPUS (VArrayU8 bytes)) ∧
    Forall (λ b, in_u 8 (uval b)) bytes ∧
    ∀ i, 0 ≤ i → Z.testbit (wire_value bytes) i = in_ranges [(0, 2); (9, 9)] i.
Proof.
  split; [reflexivity|]. split; [vm_compute; reflexivity|].
  exact (allowed_cpus_on_wire (T:=zbits) (example_cpus "0-2, 9") 250 ∅ "0-2, 9"
           eq_refl eq_refl eq_refl).
Defined.

(** The files of cgroup v2 that systemd writes for the memory properties. *)
Definition value_str (v : Variant) : string :=
  match v with
  | VU64 v => if uval v =? U64_MAX then "max" else pretty (uval v)
  | _ => ""
  end.

Definition memory_files (path : Path) (ps : props) : list write :=
  let file name k :=
    from_option (λ v, [(join_name_of path name, value_str v)]) [] (ps !! k) in
  file Memory.CGROUP_MEMORY_SWAP SMemory.MEMORY_SWAP
  ++ file Memory.CGROUP_MEMORY_MAX SMemory.MEMORY_MAX
  ++ file Memory.CGROUP_MEMORY_LOW SMemory.MEMORY_LOW.

Definition i64_opt (o : option Z) : Prop := from_option (λ v, - 2 ^ 63 ≤ v < 2 ^ 63) True o.

(** One value, as a property and as the content of a file. *)
Lemma sd_value_str {E} v (e : E) x :
  v < 2 ^ 63 → SMemory.sd_value v e = Ok x → v ≠ 0 ∧ value_str x = Memory.limit_str v.
Proof.
  unfold SMemory.sd_value, Memory.limit_str. intros Hv.
  destruct (Z.leb_spec 1 v).
  - intros [= <-]. split; [lia|]. cbn. unfold U64_MAX.
    destruct (Z.eqb_spec v (2 ^ 64 - 1)), (Z.eqb_spec v (-1)); try lia; done.
  - destruct (Z.eqb_spec v (-1)) as [->|]; [|done]. intros [= <-]. by split.
Qed.

(** The swap limit, for a memory limit that has been accepted. *)
Lemma apply_swap_target m ps ps' :
  i64_opt (limit m) → i64_opt (swap m) → (∀ l, limit m = Some l → 1 ≤ l ∨ l = -1) →
  Memory.refused m = None → SMemory.apply_swap (swap m) (limit m) ps = Ok ps' →
  match Memory.swap_target m with
  | Some v => ∃ x, ps' = <[SMemory.MEMORY_SWAP := x]> ps ∧ value_str x = Memory.limit_str v
  | None => ps' = ps
  end.
Proof.
  intros Hl Hs Hacc Href. destruct m as [[l|] r [s|]]; cbn in *; try done.
  - specialize (Hacc l eq_refl). unfold SMemory.apply_swap.
    destruct (Z.eqb_spec s (-1)) as [->|].
    { intros [= <-]. cbn. eauto. }
    destruct (Z.eqb_spec s 0) as [->|]; [done|].
    destruct (Z.eqb_spec l 0), (Z.eqb_spec l (-1)); cbn [orb andb]; try lia.
    { destruct (Z.leb_spec 1 s); [done|]. exfalso. revert Href.
      destruct (Z.ltb_spec l (-1)), (Z.ltb_spec s (-1)); try done; lia. }
    revert Href. destruct (Z.ltb_spec l (-1)), (Z.ltb_spec s (-1)); try done.
    destruct (Z.leb_spec 0 s), (Z.leb_spec 0 l), (Z.ltb_spec s l); cbn; try done; try lia.
    destruct (Z.leb_spec l s); [|lia]. intros _ [= <-]. eexists. split; [done|].
    unfold value_str, Memory.limit_str, U64_MAX, uwrap. cbn [uval].
    rewrite Z.mod_small by lia.
    destruct (Z.eqb_spec (s - l) (2 ^ 64 - 1)), (Z.eqb_spec (s - l) (-1)); try lia; done.
  - unfold SMemory.apply_swap. destruct (l =? -1); intros [= <-]; eauto.
  - unfold SMemory.apply_swap. by intros [= <-].
Qed.

Lemma set_plan_value path name v x :
  v ≠ 0 ∧ value_str x = Memory.limit_str v →
  Memory.set_plan (join_name_of path name) v = [(join_name_of path name, value_str x)].
Proof. intros [Hv ->]. unfold Memory.set_plan. by destruct (Z.eqb_spec v 0). Qed.

(** Memory limits through systemd and through the cgroup file system.  For a
    configuration that both accept, and a kernel with a swap file, the properties given to systemd stand for
    exactly the writes that the cgroup v2 memory controller makes itself: the
    same swap, memory and reservation limits. *)
Theorem memory_managers_agree path w m ps :
  is_Some (files w !! join_name_of path Memory.CGROUP_MEMORY_SWAP) →
  i64_opt (limit m) → i64_opt (swap m) → i64_opt (reservation m) →
  Memory.refused m = None → SMemory.sd_memory_apply m ∅ = Ok ps →
  memory_files path ps = Memory.plan path w m.
Proof.
  intros Hsw Hl Hs Hr Href Happ. unfold SMemory.sd_memory_apply in Happ.
  apply bind_Ok in Happ as (p1 & H1 & Happ). apply bind_Ok in Happ as (p2 & H2 & Happ).
  assert (∀ l, limit m = Some l → 1 ≤ l ∨ l = -1) as Hacc.
  { intros l Hl'. rewrite Hl' in H2. unfold SMemory.sd_value in H2.
    destruct (Z.leb_spec 1 l); [by left|]. destruct (Z.eqb_spec l (-1)); [by right|done]. }
  apply apply_swap_target in Happ; [|done..].
  unfold memory_files, Memory.plan, Memory.limits_plan. rewrite <- app_assoc. f_equal; [|f_equal].
  - destruct (Memory.swap_target m) as [v|].
    + destruct Happ as (x & -> & Hx). rewrite lookup_insert_eq. cbn. rewrite Hx. unfold Memory.swap_plan.
      by rewrite (bool_decide_eq_true_2 (is_Some _)), andb_false_r.
    + subst ps. destruct (limit m), (reservation m); simplify_eq/=;
        repeat (apply bind_Ok in H1 as (? & ? & H1)); repeat (apply bind_Ok in H2 as (? & ? & H2));
        simplify_eq/=; by simplify_map_eq.
  - assert (ps !! SMemory.MEMORY_MAX = p2 !! SMemory.MEMORY_MAX) as ->.
    { destruct (Memory.swap_target m); [destruct Happ as (? & -> & _)|subst]; by simplify_map_eq. }
    destruct (limit m) as [l|].
    + apply bind_Ok in H2 as (x & Hx & [= <-]). rewrite lookup_insert_eq. cbn.
      symmetry. eapply set_plan_value, sd_value_str; [|exact Hx]. apply Hl.
    + injection H2 as <-. destruct (reservation m); [apply bind_Ok in H1 as (? & _ & H1)|];
        simplify_eq/=; by simplify_map_eq.
  - assert (ps !! SMemory.MEMORY_LOW = p1 !! SMemory.MEMORY_LOW) as ->.
    { assert (p2 !! SMemory.MEMORY_LOW = p1 !! SMemory.MEMORY_LOW) as <-.
      { destruct (limit m); [apply bind_Ok in H2 as (? & _ & H2)|]; simplify_eq/=; by simplify_map_eq. }
      destruct (Memory.swap_target m); [destruct Happ as (? & -> & _)|subst]; by simplify_map_eq. }
    destruct (reservation m) as [r|].
    + apply bind_Ok in H1 as (x & Hx & [= <-]). rewrite lookup_insert_eq. cbn.
      symmetry. eapply set_plan_value, sd_value_str; [|exact Hx]. apply Hr.
    + by injection H1 as <-.
Qed.

Lemma memory_managers_agree_witness :
  memory_files [] (<[SMemory.MEMORY_SWAP := VU64 (UInt 500)]>
                     (<[SMemory.MEMORY_MAX := VU64 (UInt 1000)]> ∅))
  = Memory.plan [] (example_fs [(join_name_of [] Memory.CGROUP_MEMORY_SWAP, "max")])
      (MkMemory (Some 1000) None (Some 1500) None None None).
Proof.
  apply (memory_managers_agree [] (example_fs [(join_name_of [] Memory.CGROUP_MEMORY_SWAP, "max")])
           (MkMemory (Some 1000) None (Some 1500) None None None)).
  - vm_compute. by eexists.
  - cbn. lia.
  - cbn. lia.
  - done.
  - reflexivity.
  - reflexivity.
Defined.

(** A CPU quota with a period of zero.  The controller divides by the period
    that the configuration gives and panics; a few lines further down it takes a
    period of zero for a missing one. *)
Theorem zero_period_panics curve cpu ps q :
  Cpu.realtime cpu = false → quota cpu = Some q → 0 < q → period cpu = Some 0 →
  SCpu.sd_cpu_apply curve cpu ps = Panic ∧ SCpu.sd_period cpu = 100000.
Proof.
  intros Hrt Hq Hpos Hp. unfold SCpu.sd_cpu_apply, SCpu.sd_quota, SCpu.sd_period.
  fold (Cpu.realtime cpu). rewrite Hrt, Hq, Hp. destruct (Z.ltb_spec 0 q); [|lia].
  split; [|done]. by destruct (Cpu.is_realtime_requested cpu).
Qed.

Definition example_quota (q p : Z) : LinuxCpu :=
  MkCpu None (Some q) None (Some p) None None None None None.

Lemma zero_period_panics_witness :
  SCpu.sd_cpu_apply (λ s, s) (example_quota 50000 0) ∅ = Panic.
Proof. refine (proj1 (zero_period_panics _ _ _ 50000 _ _ _ _)); done. Defined.

(** The same CPU limit given in two ways.  As [quota] and [period] of the cpu
    resources it becomes the microseconds per second that systemd expects; as
    [cpu.max] of the unified resources the quota is passed on as it is, for the
    same period.  Half a cpu becomes a twentieth of one with the usual period. *)
Theorem unified_cpu_max_unscaled {T} `{FixedBitSet T} curve v ps (q p : N) :
  let q' := Z.of_N q in let p' := Z.of_N p in
  0 < q' → q' * 1000000 < 2 ^ 64 → 0 < p' < 2 ^ 64 →
  ∃ ps1 ps2,
    SCpu.sd_cpu_apply curve (example_quota q' p') ps = Ok ps1 ∧
    SUnified.sd_unified_apply (T:=T) curve [("cpu.max", pretty q +:+ " " +:+ pretty p)] v ps
      = Ok ps2 ∧
    ps1 !! SCpu.CPU_PERIOD = Some (VU64 (UInt p')) ∧
    ps2 !! SCpu.CPU_PERIOD = Some (VU64 (UInt p')) ∧
    ps1 !! SCpu.CPU_QUOTA = Some (VU64 (UInt (q' * 1000000 / p'))) ∧
    ps2 !! SCpu.CPU_QUOTA = Some (VU64 (UInt q')).
Proof.
  intros q' p' Hq Hov Hp. unfold SCpu.sd_cpu_apply, SCpu.sd_quota, SCpu.sd_period.
  change (Cpu.is_realtime_requested (example_quota q' p')) with false.
  cbn [example_quota quota period shares default]. unfold id.
  destruct (Z.ltb_spec 0 q'); [|lia]. destruct (Z.eqb_spec p' 0); [lia|].
  destruct (Z.ltb_spec 0 p'); [|lia].
  unfold uwrap, SCpu.MICROSECS_PER_SEC. rewrite (Z.mod_small q') by lia.
  rewrite Z.mod_small by lia. eexists _, _. split; [reflexivity|].
  split.
  { cbn [SUnified.sd_unified_apply for_each SUnified.apply_entry].
    change (SUnified.apply_entry curve v ("cpu.max", pretty q +:+ " " +:+ pretty p) ps)
      with (SUnified.apply_cpu_max (pretty q +:+ " " +:+ pretty p) ps).
    unfold SUnified.apply_cpu_max. rewrite split_whitespace_pair.
    rewrite !parse_unsigned_pretty by (unfold q', p' in *; lia). reflexivity. }
  by simplify_map_eq.
Qed.

Lemma unified_cpu_max_unscaled_witness :
  ∃ ps1 ps2,
    SCpu.sd_cpu_apply (λ s, s) (example_quota 50000 100000) ∅ = Ok ps1 ∧
    SUnified.sd_unified_apply (T:=zbits) (λ s, s) [("cpu.max", "50000 100000")] 250 ∅ = Ok ps2 ∧
    ps1 !! SCpu.CPU_PERIOD = Some (VU64 (UInt 100000)) ∧
    ps2 !! SCpu.CPU_PERIOD = Some (VU64 (UInt 100000)) ∧
    ps1 !! SCpu.CPU_QUOTA = Some (VU64 (UInt 500000)) ∧
    ps2 !! SCpu.CPU_QUOTA = Some (VU64 (UInt 50000)).
Proof.
  exact (unified_cpu_max_unscaled (T:=zbits) (λ s, s) 250 ∅ 50000 100000
           eq_refl eq_refl (conj eq_refl eq_refl)).
Defined.
