(* ===== verification/SystemdDevices.v ===== *)
(** * SystemdDevices: device rules as systemd unit properties

    Models [crates/libcgroups/src/systemd/devices.rs]: the rules of a container become the
    properties [DevicePolicy] and [DeviceAllow] of its unit.  The specification is the
    policy of the eBPF program ([Devices]): what systemd grants for the properties must not
    be more than that. *)
From S2P Require Import Prelude Text Bpf Devices Paths CgroupFs V2Controllers Dbus DbusMessage DbusConn SystemdProps.
Local Open Scope string_scope.
Local Open Scope list_scope.
Local Open Scope Z_scope.

Definition PROC_DEVICES : string := "/proc/devices".

Inductive SystemdDevicesError : Type :=
  | ProcDevices (path : string) (err : IoError)
  | UnsupportedDeviceType (t : LinuxDeviceType).

(** ** [Access] *)

Record Access : Type := MkAccess { read : bool; write : bool; mknod : bool }.

Definition access_default : Access := MkAccess false false false.

Definition access_is_empty (a : Access) : bool := negb (read a || write a || mknod a).

Definition add_flag (a : Access) (flag : ascii) : Access :=
  if bool_decide (flag = "r"%char) then MkAccess true (write a) (mknod a)
  else if bool_decide (flag = "w"%char) then MkAccess (read a) true (mknod a)
  else if bool_decide (flag = "m"%char) then MkAccess (read a) (write a) true
  else a.

Definition access_add (access : string) (a : Access) : Access := foldl add_flag a (chars access).

Definition access_fmt (a : Access) : string :=
  of_chars (omap (λ '(granted, flag), if granted : bool then Some flag else None)
              [(read a, "r"%char); (write a, "w"%char); (mknod a, "m"%char)]).

(** ** [BTreeMap]: a list that is sorted by its keys *)

Fixpoint btree_entry {A} (d : A) (f : A → A) (k : string) (m : list (string * A)) :
    list (string * A) :=
  match m with
  | [] => [(k, f d)]
  | (k', a) :: m' =>
      match String.compare k k' with
      | Eq => (k', f a) :: m'
      | Lt => (k, f d) :: m
      | Gt => (k', a) :: btree_entry d f k m'
      end
  end.

(** ** The names of [/proc/devices] *)

Section group.
Context (section_header prefix : string) (major : Z).

(** The group that a line of the section names, if its number is the one looked for. *)
Definition group_of (trimmed : string) : option string :=
  match split_once " "%char trimmed with
  | Some (maj_str, name) =>
      match parse_unsigned 64 (trim maj_str) with
      | Ok maj =>
          let name := trim name in
          if (maj =? major) && negb (contains_char "/"%char name)
          then Some (prefix +:+ "-" +:+ name) else None
      | _ => None
      end
  | None => None
  end.

Fixpoint group_loop (in_section : bool) (ls : list string) : option string :=
  match ls with
  | [] => None
  | line :: ls =>
      let trimmed := trim line in
      if bool_decide (trimmed = section_header) then group_loop true ls
      else if in_section then
        if bool_decide (trimmed = "") then group_loop false ls
        else match group_of trimmed with
             | Some g => Some g
             | None => group_loop true ls
             end
      else group_loop false ls
  end.
End group.

Definition find_device_group_in (content : string) (t : LinuxDeviceType) (major : Z) :
    option string :=
  match t with
  | TypC => group_loop "Character devices:" "char" major false (lines content)
  | TypB => group_loop "Block devices:" "block" major false (lines content)
  | _ => None
  end.

Section devices.
(** What [fs::read_to_string] returns for a path, and which device nodes exist. *)
Context `{OciDevices} (read_to_string : string → outcome IoError string) (node_exists : string → bool).

Definition find_device_group (path : string) (t : LinuxDeviceType) (major : Z) :
    outcome SystemdDevicesError (option string) :=
  content ← map_err (ProcDevices path) (read_to_string path);
  Ok (find_device_group_in content t major).

Definition type_prefix (t : LinuxDeviceType) : outcome SystemdDevicesError string :=
  match t with
  | TypC => Ok "char"
  | TypB => Ok "block"
  | _ => Err (UnsupportedDeviceType t)
  end.

Definition non_negative (n : option Z) : option Z :=
  match n with Some n => if 0 <=? n then Some n else None | None => None end.

(** The path of the entry for a rule; [None] if the rule is skipped. *)
Definition entry_path (proc_devices : string) (systemd_version : Z) (t : LinuxDeviceType)
    (prefix : string) (major minor : option Z) : outcome SystemdDevicesError (option string) :=
  match major, minor with
  | None, None => Ok (Some (prefix +:+ "-*"))
  | None, Some _ => Ok None
  | Some major, None =>
      if 240 <=? systemd_version then Ok (Some (prefix +:+ "-" +:+ pretty major))
      else find_device_group proc_devices t (uwrap 64 major)
  | Some major, Some minor =>
      let node := "/dev/" +:+ prefix +:+ "/" +:+ pretty major +:+ ":" +:+ pretty minor in
      if (systemd_version <? 240) && negb (node_exists node) then Ok None else Ok (Some node)
  end.

(** The body of the loop over the rules. *)
Definition allow_rule (proc_devices : string) (systemd_version : Z) (rule : LinuxDeviceCgroup)
    (allowed : list (string * Access)) : outcome SystemdDevicesError (list (string * Access)) :=
  let t := rule_typ rule in
  prefix ← type_prefix t;
  let major := non_negative (Devices.major rule) in
  let minor := non_negative (Devices.minor rule) in
  match Devices.access rule with
  | None => Ok allowed
  | Some access =>
      path ← entry_path proc_devices systemd_version t prefix major minor;
      Ok (match path with
          | None => allowed
          | Some path => btree_entry access_default (access_add access) path allowed
          end)
  end.

Definition set_policy (policy : string) (allow_list : list (Structure string)) (properties : props) :
    props :=
  <["DeviceAllow" := VArrayStructSS allow_list]> (<["DevicePolicy" := VString policy]> properties).

Definition apply_devices_from (proc_devices : string) (devices : option (list LinuxDeviceCgroup))
    (systemd_version : Z) (properties : props) : outcome SystemdDevicesError props :=
  let devices := default [] devices in
  let emulator := emulator_add_rules (with_default_allow false) devices in
  let has_deny_rule := existsb (λ rule, negb (allow rule)) (rules emulator) in
  if default_allow emulator && negb has_deny_rule then Ok (set_policy "auto" [] properties)
  else if has_deny_rule then Ok (set_policy "strict" [] properties)
  else
    let emulator := foldl emulator_add_rule emulator
      (map cgroup_of_device Devices.default_devices ++ default_allow_devices) in
    allowed ← for_each (allow_rule proc_devices systemd_version) (rules emulator) [];
    let allow_list :=
      (λ '(path, access), MkStructure path (access_fmt access))
        <$> filter (λ '(_, access), access_is_empty access = false) allowed in
    Ok (set_policy "strict" allow_list properties).

Definition apply_devices := apply_devices_from PROC_DEVICES.
End devices.

(** ** What systemd grants

    An entry of [DeviceAllow] names all devices of a type, the devices of a type with one
    major number, or one device node, and the accesses that it grants; with the policy
    [auto] and no entry everything is granted (systemd.resource-control(5)). *)
Inductive device_pattern : Type :=
  | AllOf (t : LinuxDeviceType)
  | MajorOf (t : LinuxDeviceType) (maj : Z)
  | NodeOf (t : LinuxDeviceType) (maj min : Z).

Definition kind_name (t : LinuxDeviceType) : string :=
  match t with TypC => "char" | _ => "block" end.

Definition pattern_path (p : device_pattern) : string :=
  match p with
  | AllOf t => kind_name t +:+ "-*"
  | MajorOf t maj => kind_name t +:+ "-" +:+ pretty maj
  | NodeOf t maj min => "/dev/" +:+ kind_name t +:+ "/" +:+ pretty maj +:+ ":" +:+ pretty min
  end.

Definition pattern_covers (p : device_pattern) (t : LinuxDeviceType) (maj min : Z) : Prop :=
  match p with
  | AllOf t' => t' = t
  | MajorOf t' maj' => t' = t ∧ maj' = maj
  | NodeOf t' maj' min' => t' = t ∧ maj' = maj ∧ min' = min
  end.

Definition systemd_grants (ps : props) (t : LinuxDeviceType) (maj min : Z) (acc : string) : Prop :=
  ∃ l, ps !! "DeviceAllow" = Some (VArrayStructSS l) ∧
    (ps !! "DevicePolicy" = Some (VString "auto") ∧ l = [] ∨
     ∃ p e, e ∈ l ∧ key e = pattern_path p ∧ pattern_covers p t maj min ∧
       covers_access (val e) acc = true).

(** Character or block. *)
Definition node_type (t : LinuxDeviceType) : Prop := t = TypC ∨ t = TypB.

(** *** Patterns are told apart by their paths *)

Definition pattern_ok (p : device_pattern) : Prop :=
  match p with
  | AllOf t => node_type t
  | MajorOf t maj => node_type t ∧ 0 ≤ maj
  | NodeOf t maj min => node_type t ∧ 0 ≤ maj ∧ 0 ≤ min
  end.

Lemma pretty_no_char c z : 0 ≤ z → digit c = None → c ∉ chars (pretty z).
Proof.
  intros Hz Hc Hin. rewrite pretty_nonneg in Hin by done.
  destruct (pretty_N_digits (Z.to_N z)) as [Hd _].
  destruct (proj1 (Forall_forall _ _) Hd _ Hin) as [d Hd']. congruence.
Qed.

Lemma numbers_inj a b a' b' : 0 ≤ a → 0 ≤ a' → 0 ≤ b → 0 ≤ b' →
  pretty a +:+ ":" +:+ pretty b = pretty a' +:+ ":" +:+ pretty b' → a = a' ∧ b = b'.
Proof.
  intros Ha Ha' Hb Hb' Heq. apply (f_equal (split_on ":"%char)) in Heq.
  change (":" +:+ pretty b) with (String ":" (pretty b)) in Heq.
  change (":" +:+ pretty b') with (String ":" (pretty b')) in Heq.
  rewrite !split_on_app, !(split_on_none ":"%char) in Heq by by apply pretty_no_char.
  split; apply (inj (pretty (A:=Z))); congruence.
Qed.

Lemma pattern_path_inj p p' : pattern_ok p → pattern_ok p' → pattern_path p = pattern_path p' → p = p'.
Proof.
  assert (∀ n : Z, 0 ≤ n → "*" ≠ pretty n) as Hstar.
  { intros n Hn Heq. apply (pretty_no_char "*"%char n); [done..|]. rewrite <- Heq. left. }
  destruct p as [t|t a|t a b], p' as [t'|t' a'|t' a' b']; cbn; intros Hp Hp' Heq; destruct_and?;
    repeat match goal with H : node_type _ |- _ => destruct H as [-> | ->] end;
    cbn in Heq; try discriminate Heq; repeat injection Heq as Heq; try done.
  all: try (by destruct (Hstar a')). all: try (by destruct (Hstar a)).
  all: try (f_equal; by apply (inj pretty)).
  all: destruct (numbers_inj a b a' b') as [-> ->]; done.
Qed.

(** *** Accesses *)

Definition has (a : Access) (c : ascii) : Prop :=
  c = "r"%char ∧ read a = true ∨ c = "w"%char ∧ write a = true ∨ c = "m"%char ∧ mknod a = true.

Lemma add_flag_has a f c : has (add_flag a f) c ↔ has a c ∨ c = f ∧ acc_char c.
Proof.
  unfold add_flag, has, acc_char. repeat case_bool_decide; subst; cbn; naive_solver.
Qed.

Lemma access_add_has s a c : has (access_add s a) c ↔ has a c ∨ c ∈ chars s ∧ acc_char c.
Proof.
  unfold access_add. revert a. induction (chars s) as [|f l IH]; intros a; cbn [foldl]; [set_solver|].
  rewrite IH, add_flag_has. set_solver.
Qed.

Lemma access_fmt_has a c : c ∈ chars (access_fmt a) ↔ has a c.
Proof.
  unfold access_fmt, has. rewrite chars_of_chars.
  destruct a as [[] [] []]; cbn; set_solver.
Qed.

Lemma access_empty_has a : access_is_empty a = false ↔ ∃ c, has a c.
Proof.
  unfold access_is_empty, has. destruct a as [[] [] []]; cbn; split; try done; naive_solver.
Qed.

Lemma covers_access_spec s acc : covers_access s acc = true ↔ ∀ c, c ∈ chars acc → c ∈ chars s.
Proof.
  unfold covers_access. rewrite forallb_forall. setoid_rewrite <- list_elem_of_In.
  by setoid_rewrite bool_decide_eq_true.
Qed.

(** A list with an entry for a path that has all of some letters. *)
Definition carries (m : list (string * Access)) (p : string) (acc : list ascii) : Prop :=
  ∃ a, (p, a) ∈ m ∧ ∀ c, c ∈ acc → has a c.

Lemma btree_entry_old s k m p acc :
  carries m p acc → carries (btree_entry access_default (access_add s) k m) p acc.
Proof.
  intros (a & Ha & Hacc). induction m as [|[k' a'] m IH]; [by apply elem_of_nil in Ha|]. cbn.
  destruct (String.compare k k') eqn:Hk.
  - apply elem_of_cons in Ha as [[= -> ->]|Ha].
    + exists (access_add s a'). split; [left|]. intros c Hc. rewrite access_add_has. auto.
    + exists a. split; [by right|done].
  - exists a. split; [by right|done].
  - apply elem_of_cons in Ha as [[= -> ->]|Ha]; [exists a'; split; [left|done]|].
    destruct (IH Ha) as (b & Hb & Hacc'). exists b. split; [by right|done].
Qed.

Lemma btree_entry_new s k m acc :
  (∀ c, c ∈ acc → c ∈ chars s ∧ acc_char c) →
  carries (btree_entry access_default (access_add s) k m) k acc.
Proof.
  intros Hacc. induction m as [|[k' a'] m IH]; cbn.
  { exists (access_add s access_default). split; [left|]. intros c Hc. rewrite access_add_has. auto. }
  destruct (String.compare k k') eqn:Hk.
  - apply String.compare_eq_iff in Hk as ->. exists (access_add s a'). split; [left|].
    intros c Hc. rewrite access_add_has. auto.
  - exists (access_add s access_default). split; [left|]. intros c Hc. rewrite access_add_has. auto.
  - destruct IH as (b & Hb & Hacc'). exists b. split; [by right|done].
Qed.

Lemma btree_entry_only s k m p c :
  carries (btree_entry access_default (access_add s) k m) p [c] →
  carries m p [c] ∨ p = k ∧ c ∈ chars s ∧ acc_char c.
Proof.
  intros (a & Ha & Hc). specialize (Hc c ltac:(left)).
  induction m as [|[k' a'] m IH]; cbn in Ha.
  { apply list_elem_of_singleton in Ha as [= -> ->]. apply access_add_has in Hc as [Hc|Hc]; [|auto].
    unfold has in Hc; cbn in Hc; naive_solver. }
  assert (∀ b, (p, b) ∈ (k', a') :: m → has b c → carries ((k', a') :: m) p [c]) as Hin
    by (intros b ? ?; exists b; split; [done|]; by intros ? ->%list_elem_of_singleton).
  destruct (String.compare k k') eqn:Hk.
  - apply String.compare_eq_iff in Hk as <-. apply elem_of_cons in Ha as [[= -> ->]|Ha].
    + apply access_add_has in Hc as [Hc|Hc]; [left; apply (Hin a'); [left|done]|auto].
    + left. apply (Hin a); [by right|done].
  - apply elem_of_cons in Ha as [[= -> ->]|Ha]; [|left; by apply (Hin a)].
    apply access_add_has in Hc as [Hc|Hc]; [unfold has in Hc; cbn in Hc; naive_solver|auto].
  - apply elem_of_cons in Ha as [[= -> ->]|Ha]; [left; apply (Hin a'); [left|done]|].
    destruct (IH Ha) as [(b & Hb & Hbc)|?]; [left|by right].
    apply (Hin b); [by right|]. apply Hbc. left.
Qed.

(** *** From rules to entries *)

Section rules.
Context `{OciDevices}.

Definition rule_pattern (rule : LinuxDeviceCgroup) : option device_pattern :=
  match non_negative (Devices.major rule), non_negative (Devices.minor rule) with
  | None, None => Some (AllOf (rule_typ rule))
  | None, Some _ => None
  | Some maj, None => Some (MajorOf (rule_typ rule) maj)
  | Some maj, Some min => Some (NodeOf (rule_typ rule) maj min)
  end.

Lemma covers_number_non_negative o n :
  covers_number o n = from_option (λ m, m =? n) true (non_negative o).
Proof.
  destruct o as [m|]; [|done]. cbn. destruct (Z.leb_spec 0 m); cbn.
  - by replace (m <? 0) with false by lia.
  - by replace (m <? 0) with true by lia.
Qed.

Lemma rule_pattern_covers rule p t maj min acc :
  rule_pattern rule = Some p →
  covers rule t maj min acc = true ↔
  pattern_covers p t maj min ∧ covers_access (default "" (Devices.access rule)) acc = true.
Proof.
  unfold covers, rule_pattern. rewrite !covers_number_non_negative, !andb_true_iff, bool_decide_eq_true.
  destruct (non_negative (Devices.major rule)), (non_negative (Devices.minor rule));
    intros [= <-]; cbn; rewrite ?Z.eqb_eq; naive_solver.
Qed.

Lemma rule_pattern_ok rule p : node_type (rule_typ rule) → rule_pattern rule = Some p → pattern_ok p.
Proof.
  unfold rule_pattern, non_negative. intros Ht.
  destruct (Devices.major rule) as [a|], (Devices.minor rule) as [b|];
    repeat (case_match; try discriminate); intros [= <-]; cbn; simplify_eq; auto with lia.
Qed.

(** A device has the numbers of a node. *)
Lemma pattern_covers_ok p t maj min :
  node_type t → 0 ≤ maj → 0 ≤ min → pattern_covers p t maj min → pattern_ok p.
Proof. destruct p; cbn; naive_solver. Qed.

Context (rts : string → outcome IoError string) (ne : string → bool) (pd : string) (v : Z).
Hypothesis recent : 240 ≤ v.

Lemma allow_rule_recent rule m :
  allow_rule rts ne pd v rule m =
  match rule_typ rule with
  | TypC | TypB =>
      Ok (match Devices.access rule, rule_pattern rule with
          | Some s, Some p => btree_entry access_default (access_add s) (pattern_path p) m
          | _, _ => m
          end)
  | t => Err (UnsupportedDeviceType t)
  end.
Proof.
  unfold allow_rule, rule_pattern, entry_path.
  replace (240 <=? v) with true by lia. replace (v <? 240) with false by lia.
  destruct (rule_typ rule) eqn:Ht; cbn; try done; destruct (Devices.access rule); try done;
    destruct (non_negative (Devices.major rule)), (non_negative (Devices.minor rule)); done.
Qed.

Lemma allow_rules_ok rs m :
  ok_iff (for_each (allow_rule rts ne pd v) rs m) (Forall (λ rule, node_type (rule_typ rule)) rs).
Proof.
  apply ok_iff_for_each. intros rule m' _. rewrite allow_rule_recent. unfold node_type.
  destruct (rule_typ rule); cbn; naive_solver.
Qed.

Lemma allow_rules_old rs : ∀ m m' p acc,
  for_each (allow_rule rts ne pd v) rs m = Ok m' → carries m p acc → carries m' p acc.
Proof.
  induction rs as [|rule rs IH]; intros m m' p acc; cbn; [by intros [= ->]|].
  intros (m1 & Hm1 & Hrest)%bind_Ok Hc. eapply IH; [exact Hrest|]. revert Hm1.
  rewrite allow_rule_recent. destruct (rule_typ rule); try done; intros [= <-];
    repeat case_match; try done; by apply btree_entry_old.
Qed.

(** Every entry comes from rules, and every rule that has a pattern is in an entry. *)
Lemma allow_rules_complete rs : ∀ m m' rule s p acc,
  for_each (allow_rule rts ne pd v) rs m = Ok m' →
  rule ∈ rs → Devices.access rule = Some s → rule_pattern rule = Some p →
  (∀ c, c ∈ acc → c ∈ chars s ∧ acc_char c) → carries m' (pattern_path p) acc.
Proof.
  induction rs as [|r rs IH]; intros m m' rule s p acc; cbn; [by intros _ ?%elem_of_nil|].
  intros (m1 & Hm1 & Hrest)%bind_Ok Hin Hs Hp Hacc. apply elem_of_cons in Hin as [-> | Hin]; [|by eauto].
  eapply allow_rules_old; [exact Hrest|]. revert Hm1. rewrite allow_rule_recent, Hs, Hp.
  destruct (rule_typ r); try done; intros [= <-]; by apply btree_entry_new.
Qed.

Lemma allow_rules_sound rs : ∀ m m' path c,
  for_each (allow_rule rts ne pd v) rs m = Ok m' → carries m' path [c] →
  carries m path [c] ∨
  ∃ rule s p, rule ∈ rs ∧ Devices.access rule = Some s ∧ rule_pattern rule = Some p ∧
    path = pattern_path p ∧ c ∈ chars s ∧ acc_char c.
Proof.
  induction rs as [|r rs IH]; intros m m' path c; cbn; [intros [= ->]; auto|].
  intros (m1 & Hm1 & Hrest)%bind_Ok Hc.
  destruct (IH _ _ _ _ Hrest Hc) as [Hold|(rule & s & p & Hin & Hr)].
  - revert Hm1. rewrite allow_rule_recent. destruct (rule_typ r); try done; intros [= <-];
      (destruct (Devices.access r) as [s|] eqn:Hs; [|auto]);
      (destruct (rule_pattern r) as [p|] eqn:Hp; [|auto]);
      (apply btree_entry_only in Hold as [?|(-> & ? & ?)]; [auto|]); right; exists r, s, p;
      split_and!; auto; left.
  - right. exists rule, s, p. split; [by right|done].
Qed.
End rules.

Section policy.
Context `{OciDevices}.

Lemma emulator_plain em rs :
  Forall (λ r, rule_typ r ≠ TypA ∧ is_Some (Devices.access r)) rs →
  emulator_add_rules em rs = {| default_allow := default_allow em; rules := rules em ++ rs |}.
Proof.
  unfold emulator_add_rules. induction rs as [|r rs IH] using rev_ind.
  { destruct em. intros _. cbn. by rewrite app_nil_r. }
  intros [Hrs [[Ht [s Hs]] _]%Forall_cons]%Forall_app. rewrite foldl_snoc, IH by done.
  unfold emulator_add_rule. rewrite bool_decide_eq_false_2, Hs by done. cbn. by rewrite <- app_assoc.
Qed.

(** Rules that only allow: an access is allowed if one of them covers it. *)
Lemma verdict_allowing rs d t maj min acc :
  Forall (λ r, allow r = true) rs →
  verdict rs d t maj min acc = true ↔ d = true ∨ ∃ r, r ∈ rs ∧ covers r t maj min acc = true.
Proof.
  intros Hrs. unfold verdict. destruct (List.find _ _) as [r|] eqn:Hf.
  - apply find_some in Hf as [Hin Hc]. rewrite <- in_rev, <- list_elem_of_In in Hin.
    rewrite (proj1 (Forall_forall _ _) Hrs r) by done. naive_solver.
  - split; [by left|]. intros [?|(r & Hin & Hc)]; [done|].
    eapply find_none in Hf; [by rewrite Hc in Hf|]. by rewrite <- in_rev, <- list_elem_of_In.
Qed.

Hypothesis Hdev : devices_converted.

Lemma default_rules_ok :
  Forall (λ r, allow r = true ∧ node_type (rule_typ r) ∧ is_Some (Devices.access r) ∧
               rule_pattern r ≠ None) default_rules.
Proof.
  apply Forall_app. split; [apply Forall_map|]; unfold node_type.
  - unfold rule_typ, rule_pattern.
    repeat apply Forall_cons_2; try apply Forall_nil_2;
      match goal with |- context [cgroup_of_device ?d] => destruct (Hdev d) as (-> & -> & -> & -> & ->) end;
      cbn; split_and!; eauto; done.
  - repeat apply Forall_cons_2; try apply Forall_nil_2; cbn; split_and!; eauto; done.
Qed.

Lemma emulator_defaults em :
  emulator_add_rules em default_rules = {| default_allow := default_allow em; rules := rules em ++ default_rules |}.
Proof.
  apply emulator_plain. eapply Forall_impl; [exact default_rules_ok|].
  intros r (_ & [Ht|Ht] & ? & _); by rewrite Ht.
Qed.

Context (rts : string → outcome IoError string) (ne : string → bool) (pd : string) (v : Z).
Hypothesis recent : 240 ≤ v.

(** The entries for rules that only allow. *)
Lemma allow_list_grants rs allowed (ps : props) t maj min acc :
  Forall (λ r, allow r = true ∧ node_type (rule_typ r)) rs →
  for_each (allow_rule rts ne pd v) rs [] = Ok allowed →
  node_type t → 0 ≤ maj → 0 ≤ min →
  let ps' := set_policy "strict" ((λ '(path, access), MkStructure path (access_fmt access))
               <$> filter (λ '(_, access), access_is_empty access = false) allowed) ps in
  (systemd_grants ps' t maj min acc → ∀ c, c ∈ chars acc →
     verdict rs false t maj min (String c "") = true) ∧
  (acc ≠ "" → Forall acc_char (chars acc) → Forall (λ r, Devices.access r ≠ None ∧ rule_pattern r ≠ None) rs →
   verdict rs false t maj min acc = true → systemd_grants ps' t maj min acc).
Proof.
  intros Hrs Hall Ht Hmaj Hmin ps'. unfold systemd_grants, ps', set_policy.
  rewrite lookup_insert_eq, lookup_insert_ne, lookup_insert_eq by done.
  assert (Forall (λ r, allow r = true) rs) as Hallow by (eapply Forall_impl; [done|naive_solver]).
  split.
  - intros (l & [= <-] & [[? _]|(p & e & He & Hkey & Hcov & Hacc)]) c Hc; [done|].
    apply list_elem_of_fmap in He as ([path a] & -> & Ha). apply list_elem_of_filter in Ha as [_ Ha].
    cbn in Hkey, Hacc. subst path.
    assert (carries allowed (pattern_path p) [c]) as Hcar.
    { exists a. split; [done|]. intros ? ->%list_elem_of_singleton. apply access_fmt_has.
      by apply (covers_access_spec _ acc). }
    destruct (allow_rules_sound rts ne pd v recent _ _ _ _ _ Hall Hcar)
      as [(? & ?%elem_of_nil & _)|(rule & s & p' & Hin & Hs & Hp' & Hpath & Hcs & _)]; [done|].
    apply pattern_path_inj in Hpath as ->; [|by apply (pattern_covers_ok _ t maj min)|].
    2:{ eapply rule_pattern_ok; [|done]. by eapply (proj1 (Forall_forall _ _) Hrs). }
    apply verdict_allowing; [done|]. right. exists rule. split; [done|].
    eapply rule_pattern_covers; [done|]. split; [done|]. rewrite Hs. apply covers_access_spec.
    by intros ? ->%list_elem_of_singleton.
  - intros Hne Hch Hexp Hv. apply verdict_allowing in Hv as [?|(rule & Hin & Hc)]; [done| |done].
    eapply (proj1 (Forall_forall _ _)) in Hexp as [Hs Hp]; [|done].
    destruct (Devices.access rule) as [s|] eqn:Hs'; [|done]. destruct (rule_pattern rule) as [p|] eqn:Hp'; [|done].
    pose proof Hc as Hc'. eapply rule_pattern_covers in Hc' as [Hcov Hacc]; [|done]. rewrite Hs' in Hacc.
    rewrite covers_access_spec in Hacc. cbn in Hacc.
    destruct (allow_rules_complete rts ne pd v recent _ _ _ _ _ _ (chars acc) Hall Hin Hs' Hp') as (a & Ha & Hhas).
    { intros c Hin'. split; [by apply Hacc|]. by eapply (proj1 (Forall_forall _ _) Hch). }
    eexists. split; [done|]. right. exists p, (MkStructure (pattern_path p) (access_fmt a)).
    split_and!; [|done..|apply covers_access_spec; intros c ?; by apply access_fmt_has, Hhas].
    apply list_elem_of_fmap. exists (pattern_path p, a). split; [done|]. apply list_elem_of_filter.
    split; [|done]. apply access_empty_has. destruct acc as [|c ?]; [done|]. exists c. apply Hhas. left.
Qed.

Lemma device_allow_list rs ps :
  Forall (λ r, allow r = true) rs → Forall (λ r, Devices.access r ≠ None) rs →
  let r := allowed ← for_each (allow_rule rts ne pd v) (rs ++ default_rules) [];
           Ok (set_policy "strict" ((λ '(path, access), MkStructure path (access_fmt access))
                 <$> filter (λ '(_, access), access_is_empty access = false) allowed) ps) in
  ok_iff r (Forall (λ rule, node_type (rule_typ rule)) rs) ∧
  ∀ ps' t maj min acc,
    r = Ok ps' → node_type t → 0 ≤ maj → 0 ≤ min →
    let allowed := verdict (rs ++ default_rules) false t maj min in
    (systemd_grants ps' t maj min acc → ∀ c, c ∈ chars acc → allowed (String c "") = true) ∧
    (acc ≠ "" → Forall acc_char (chars acc) →
     Forall (λ rule, allow rule = true ∧ rule_pattern rule ≠ None) rs →
     allowed acc = true → systemd_grants ps' t maj min acc).
Proof.
  intros Hal Hacc r. pose proof default_rules_ok as Hdef.
  pose proof (allow_rules_ok rts ne pd v recent (rs ++ default_rules) []) as Hok.
  eapply (ok_iff_mono _ _ (Forall (λ rule, node_type (rule_typ rule)) rs)) in Hok.
  2:{ rewrite Forall_app. split; [naive_solver|]. intros ?. split; [done|].
      eapply Forall_impl; [exact Hdef|]. naive_solver. }
  unfold r. split.
  { by destruct (for_each _ _ _); cbn in Hok |- *. }
  intros ps' t maj min acc (allowed & Hfor & [= <-])%bind_Ok Ht Hmaj Hmin. cbn zeta.
  rewrite Hfor in Hok. cbn in Hok.
  destruct (allow_list_grants (rs ++ default_rules) allowed ps t maj min acc) as [Hs Hc]; [|done..|].
  { apply Forall_app. split; [by apply Forall_and|]. eapply Forall_impl; [exact Hdef|]. naive_solver. }
  split; [exact Hs|]. intros Hne Hch Hexp. apply Hc; [done..|]. apply Forall_app. split.
  - rewrite Forall_forall in Hacc. apply Forall_forall. rewrite Forall_forall in Hexp. naive_solver.
  - eapply Forall_impl; [exact Hdef|]. cbn. intros x (_ & _ & [? ->] & ?). done.
Qed.
End policy.

(** The emulated rules of a container, before the default devices are added. *)
Definition emulated `{OciDevices} (devices : option (list LinuxDeviceCgroup)) : Emulator :=
  emulator_add_rules (with_default_allow false) (default [] devices).

Lemma existsb_deny rs : existsb (λ rule, negb (allow rule)) rs = true ↔ ¬ Forall (λ r, allow r = true) rs.
Proof.
  rewrite existsb_exists, Forall_forall. setoid_rewrite <- list_elem_of_In. setoid_rewrite negb_true_iff.
  split; [intros (r & Hr & Ha) Hall; by rewrite Hall in Ha|]. intros Hn.
  destruct (decide (Exists (λ r, allow r = false) rs)) as [(r & ? & ?)%Exists_exists|He]; [by exists r|].
  destruct Hn. intros r Hr. apply not_false_is_true. intros Hf. apply He, Exists_exists. by exists r.
Qed.

Lemma emulated_access `{OciDevices} devices : Forall (λ rule, Devices.access rule ≠ None) (rules (emulated devices)).
Proof.
  unfold emulated, emulator_add_rules. induction (default [] devices) as [|r rs IH] using rev_ind; [constructor|].
  rewrite foldl_snoc. unfold emulator_add_rule at 1. case_bool_decide; [constructor|].
  destruct (Devices.access r) eqn:Hr; [|done]. apply Forall_app. split; [done|]. apply Forall_singleton. by rewrite Hr.
Qed.

(** The properties sent to systemd.  For systemd 240 and later they are computed for
    all rules except those for unbuffered and pipe devices, which are an error unless the
    rules are not sent at all (everything is allowed, or there is a rule that denies).
    What systemd grants for the properties is allowed, letter by letter, by the policy
    that the eBPF program implements; and if the rules only allow, and none is for all
    major numbers with a fixed minor number, systemd grants all that the policy allows. *)
Theorem device_allow_sound `{OciDevices} rts ne pd v devices ps :
  devices_converted →
  240 ≤ v →
  let em := emulated devices in
  let r := apply_devices_from rts ne pd devices v ps in
  ok_iff r (default_allow em = true ∨ ¬ Forall (λ rule, allow rule = true) (rules em)
            ∨ Forall (λ rule, node_type (rule_typ rule)) (rules em)) ∧
  ∀ ps' t maj min acc,
    r = Ok ps' → node_type t → 0 ≤ maj → 0 ≤ min →
    let allowed := policy (default [] devices ++ default_rules) false t maj min in
    (systemd_grants ps' t maj min acc → ∀ c, c ∈ chars acc → allowed (String c "") = true) ∧
    (acc ≠ "" → Forall acc_char (chars acc) →
     Forall (λ rule, allow rule = true ∧ rule_pattern rule ≠ None) (rules em) →
     allowed acc = true → systemd_grants ps' t maj min acc).
Proof.
  intros Hdev Hv em r. pose proof (default_rules_ok Hdev) as Hdef.
  assert (Hacc : Forall (λ rule, Devices.access rule ≠ None) (rules em)) by apply emulated_access.
  assert (∀ t maj min acc, policy (default [] devices ++ default_rules) false t maj min acc =
            verdict (rules em ++ default_rules) (default_allow em) t maj min acc) as Hpol.
  { intros. rewrite policy_app. pose proof (emulator_policy em default_rules t maj min acc) as He.
    rewrite (emulator_defaults Hdev) in He. cbn [rules default_allow] in He. rewrite He. f_equal. symmetry. apply (emulator_policy (with_default_allow false)). }
  assert (Forall (λ r, allow r = true) (rules em) → Forall (λ r, allow r = true) (rules em ++ default_rules)) as Happ
    by (intros; apply Forall_app; split; [done|]; eapply Forall_impl; [exact Hdef|]; naive_solver).
  unfold r, apply_devices_from. fold (emulated devices). fold em. fold default_rules.
  destruct (existsb _ (rules em)) eqn:Hdeny; [rewrite andb_false_r|rewrite andb_true_r].
  { apply existsb_deny in Hdeny. split; [cbn; auto|]. intros ps' t maj min acc [= <-] _ _ _. cbn zeta.
    split; [|intros _ _ Hexp; destruct Hdeny; eapply Forall_impl; [exact Hexp|]; naive_solver].
    intros (l & Hl & Hg) c Hc. unfold set_policy in *.
    rewrite lookup_insert_eq in Hl. rewrite lookup_insert_ne, lookup_insert_eq in Hg by done.
    destruct Hg as [[? _]|(? & ? & He & _)]; [done|]. injection Hl as <-. by apply elem_of_nil in He. }
  apply not_true_iff_false in Hdeny. rewrite existsb_deny in Hdeny. apply dec_stable in Hdeny.
  destruct (default_allow em) eqn:Hd.
  2:{ change (foldl emulator_add_rule em default_rules) with (emulator_add_rules em default_rules).
      rewrite (emulator_defaults Hdev). cbn [rules].
      destruct (device_allow_list Hdev rts ne pd v Hv (rules em) ps Hdeny Hacc) as [Hok Hgr]. split.
      - eapply ok_iff_mono; [|exact Hok]. split; [by auto|]. intros [?|[?|?]]; done.
      - intros ps' t maj min acc. setoid_rewrite Hpol. apply Hgr. }
  split; [cbn; auto|]. intros ps' t maj min acc [= <-] _ _ _. cbn zeta.
  split; [intros _ c _; rewrite Hpol; apply verdict_allowing; auto|]. intros _ _ _ _.
  exists []. unfold set_policy. rewrite lookup_insert_eq, lookup_insert_ne, lookup_insert_eq by done. auto.
Qed.

Definition block_rule (access : string) : LinuxDeviceCgroup :=
  {| allow := true; typ := Some TypB; major := Some 8; minor := Some 0; access := Some access |}.

Definition no_files (path : string) : outcome IoError string := Err (OsError ENOENT).

Definition example_properties : props :=
  match apply_devices no_files (λ _, false) (Some [block_rule "r"; block_rule "w"]) 245 ∅ with
  | Ok ps => ps
  | _ => ∅
  end.

Lemma device_allow_sound_witness :
  systemd_grants example_properties TypB 8 0 "r" ∧
  policy ([block_rule "r"; block_rule "w"] ++ default_rules) false TypB 8 0 "w" = true.
Proof.
  assert (240 ≤ 245) as Hv by lia.
  pose proof (device_allow_sound no_files (λ _, false) PROC_DEVICES 245 (Some [block_rule "r"; block_rule "w"]) ∅
    ltac:(done) Hv) as [_ Hgr].
  specialize (Hgr example_properties TypB 8 0 "r" ltac:(vm_compute; reflexivity) ltac:(by right)
    ltac:(lia) ltac:(lia)) as [_ Hgr].
  split; [|vm_compute; reflexivity]. apply Hgr; [done| | |vm_compute; reflexivity].
  - repeat constructor; by left.
  - vm_compute. repeat constructor; done.
Defined.

(** Two rules for one device, one for reading and one for writing: systemd is sent one entry
    and grants opening for both, which the eBPF program denies, as no rule covers both. *)
Lemma split_access_differs :
  systemd_grants example_properties TypB 8 0 "rw" ∧
  policy ([block_rule "r"; block_rule "w"] ++ default_rules) false TypB 8 0 "rw" = false.
Proof.
  split; [|vm_compute; reflexivity]. eexists. split; [vm_compute; reflexivity|]. right.
  exists (NodeOf TypB 8 0), (MkStructure "/dev/block/8:0" "rw").
  split_and!; [left|vm_compute; reflexivity|done|vm_compute; reflexivity].
Qed.
