(* ===== verification/SystemdManager.v ===== *)
(** * SystemdManager: cgroups through systemd

    Models [crates/libcgroups/src/systemd/manager.rs]: connecting to systemd with retries,
    putting a process into a transient unit, applying limits as unit properties, and
    removing the unit.  The client is an interface, the trait [SystemdClient]; the D-Bus
    connection is an instance of it. *)
From S2P Require Import Prelude Text Paths Bpf Devices CgroupFs CgroupTree Stats V2Controllers V2Manager Dbus DbusMessage DbusConn SystemdProps SystemdDevices.
From S2P Require BpfAttach.
Local Open Scope string_scope.
Local Open Scope list_scope.
Local Open Scope Z_scope.

(** ** The client *)

Class SystemdClient (C : Type) : Type := {
  c_unit_exists : string → io C Empty_set bool;
  c_start_unit : string → Z → string → string → io C SystemdClientError ();
  c_stop_unit : string → io C SystemdClientError ();
  c_set_properties : string → list (string * Variant) → io C SystemdClientError ();
  c_version : io C SystemdClientError Z;
  c_cgroup_root : io C SystemdClientError Path;
  c_add_process : string → string → Z → io C SystemdClientError ();
}.

(** The characters of a UTF-8 string, each as its bytes. *)
Definition is_continuation (c : ascii) : bool :=
  let n := Z.of_N (Ascii.N_of_ascii c) in (128 <=? n) && (n <? 192).

Fixpoint utf8_chars (l : list ascii) : list (list ascii) :=
  match l with
  | [] => []
  | c :: l =>
      match utf8_chars l with
      | (d :: ds) :: rest => if is_continuation d then (c :: d :: ds) :: rest else [c] :: (d :: ds) :: rest
      | rest => [c] :: rest
      end
  end.

Fixpoint skip_while {A} (f : A → bool) (l : list A) : list A :=
  match l with x :: l' => if f x then skip_while f l' else l | [] => [] end.

Fixpoint keep_while {A} (f : A → bool) (l : list A) : list A :=
  match l with x :: l' => if f x then x :: keep_while f l' else [] | [] => [] end.

(** [char::is_alphabetic] and [char::is_numeric], which are tables of Unicode. *)
Class CharTables : Type := {
  is_alphabetic : list ascii → bool;
  is_numeric : list ascii → bool;
}.

Definition parse_systemd_version `{CharTables} (version : string) : outcome SystemdClientError Z :=
  map_err (λ _, SystemdVersion)
    (parse_unsigned 32 (of_chars (concat (keep_while is_numeric (skip_while is_alphabetic (utf8_chars (chars version))))))).

Definition systemd_version `{CharTables} : client_io Z :=
  version ← proxy_version create_proxy;
  pure (parse_systemd_version version).

#[global] Instance dbus_client `{CharTables} : SystemdClient (DbusConnection * sock) := {|
  c_unit_exists := transient_unit_exists;
  c_start_unit := start_transient_unit;
  c_stop_unit := stop_transient_unit;
  c_set_properties := set_unit_properties;
  c_version := systemd_version;
  c_cgroup_root := (root ← control_cgroup_root; mret (components root));
  c_add_process := add_process_to_unit;
|}.

(** ** The manager *)

Definition CONNECT_MAX_RETRIES : nat := 7.
Definition CONNECT_BASE_DELAY_MS : Z := 100.
Definition CONNECT_JITTER_DIVISOR : Z := 8.

Inductive SystemdManagerError : Type :=
  | SWrappedIo (e : WrappedIoError)
  | SPath (e : PathManagerError)
  | SClient (e : SystemdClientError)
  | SJoinSafely (e : JoinSafelyError)
  | SFileNotFound (p : Path)
  | BadDelegationBoundary (boundary cgroup : Path)
  | SV2Manager (e : V2ManagerError)
  | SV2Stats (e : V2Stats.V2StatsError)
  | WaitForProcessInCgroupTimeout (pid : string)
  | SCpuError (e : SCpu.SystemdCpuError)
  | SCpuSetError (e : SCpuSet.SystemdCpuSetError)
  | SDevicesError (e : SystemdDevicesError)
  | SEbpfDevices (e : BpfAttach.DevicesControllerError)
  | SIoError (e : SIo.SystemdIoError)
  | SMemoryError (e : SMemory.SystemdMemoryError)
  | SUnifiedError (e : SUnified.SystemdUnifiedError)
  | SystemdNotAvailable.

Record SystemdManager : Type := MkSystemdManager {
  sm_root_path : Path;
  sm_cgroups_path : Path;
  sm_full_path : Path;
  sm_destructured_path : CgroupsPath;
  sm_container_name : string;
  sm_sub_cgroup : string;
  sm_unit_name : string;
  sm_fs_manager : Manager;
  sm_delegation_boundary : Path;
  sm_wait_timeout : Z;
  sm_rootless : bool;
}.

Definition sm_with_rootless (m : SystemdManager) (r : bool) : SystemdManager :=
  MkSystemdManager (sm_root_path m) (sm_cgroups_path m) (sm_full_path m) (sm_destructured_path m)
    (sm_container_name m) (sm_sub_cgroup m) (sm_unit_name m) (sm_fs_manager m)
    (sm_delegation_boundary m) (sm_wait_timeout m) r.

(** *** Connecting *)

Definition is_eagain (e : SystemdManagerError) : bool :=
  match e with SClient (DBus (Nix errno)) => errno =? EAGAIN | _ => false end.

(** The delay before the next attempt; the jitter comes from the nanoseconds of the clock, or
    is zero if the clock is before 1970. *)
Definition backoff (subsec_nanos : option Z) (retry : nat) : Z :=
  let delay_ms := uwrap 64 (Z.shiftl CONNECT_BASE_DELAY_MS (Z.of_nat retry)) in
  let jitter_ms := match subsec_nanos with
                   | Some n => n mod (1 + delay_ms / CONNECT_JITTER_DIVISOR)
                   | None => 0
                   end in
  delay_ms + jitter_ms.

Section connect.
Context {C : Type} `{SystemdClient C}.
(** Attempt number [i] to connect; the clock after it; [Display] of an error. *)
Context (try_connect : nat → outcome SystemdClientError C) (subsec_nanos : nat → option Z)
  (show : SystemdManagerError → string).

(** [Manager::construct_cgroups_path], with what the client answers. *)
Definition ask_cgroups_path (cp : CgroupsPath) (sub_cgroup : string) (client : C) :
    outcome SystemdManagerError (Path * Path) * C :=
  match expand_slice (cp_parent cp) with
  | Ok _ =>
      match c_cgroup_root client with
      | (Ok systemd_root, client) => (map_err SPath (construct_cgroups_path cp systemd_root sub_cgroup), client)
      | (Err e, client) => (Err (SClient e), client)
      | (Panic, client) => (Panic, client)
      end
  | Err e => (Err (SPath e), client)
  | Panic => (Panic, client)
  end.

Definition make_manager (root_path cgroups_path boundary : Path) (container_name : string) (timeout : Z)
    (cp : CgroupsPath) (sub_cgroup : string) : outcome SystemdManagerError SystemdManager :=
  full_path ← map_err SJoinSafely (join_safely root_path cgroups_path);
  fs_manager ← map_err SV2Manager (manager_new root_path cgroups_path);
  Ok (MkSystemdManager root_path cgroups_path full_path cp container_name sub_cgroup (get_unit_name cp)
        fs_manager boundary timeout false).

(** One attempt: connect, and ask for the control group of systemd. *)
Definition connect_once (retry : nat) (cp : CgroupsPath) (sub_cgroup : string) :
    outcome SystemdManagerError (Path * Path * C) :=
  client ← map_err SClient (try_connect retry);
  let '(r, client) := ask_cgroups_path cp sub_cgroup client in
  '(cgroups_path, boundary) ← r;
  Ok (cgroups_path, boundary, client).

(** [n] attempts are left.  The world is the list of the delays slept so far. *)
Fixpoint connect_loop (n retry : nat) (last_err : option SystemdManagerError) (root_path : Path)
    (container_name : string) (timeout : Z) (cp : CgroupsPath) (sub_cgroup : string) :
    io (list Z) SystemdManagerError (SystemdManager * C) :=
  match n with
  | O => pure (Err (SClient (DBus (ConnectionError
      ("dbus connection failed after " +:+ pretty (Z.of_nat CONNECT_MAX_RETRIES) +:+ " retries: "
       +:+ from_option show "unknown error" last_err)))))
  | S n => λ slept,
      match connect_once retry cp sub_cgroup with
      | Ok (cgroups_path, boundary, client) =>
          (m ← make_manager root_path cgroups_path boundary container_name timeout cp sub_cgroup;
           Ok (m, client), slept)
      | Panic => (Panic, slept)
      | Err e =>
          if negb (is_eagain e) then (Err e, slept)
          else
            let is_last := (S retry =? CONNECT_MAX_RETRIES)%nat in
            let slept := if is_last then slept else slept ++ [backoff (subsec_nanos retry) retry] in
            connect_loop n (S retry) (Some e) root_path container_name timeout cp sub_cgroup slept
      end
  end.

Definition systemd_manager_new (root_path : Path) (cgroups_path container_name : string) (use_system : bool)
    (timeout : Z) : io (list Z) SystemdManagerError (SystemdManager * C) :=
  destructured ← pure (map_err (SPath ∘ CgroupsPathErr) (cgroups_path_try_from cgroups_path));
  let destructured := ensure_parent_unit destructured use_system in
  let '(name, sub_cgroup) := split_sub_cgroup (cp_name destructured) in
  let destructured := MkCgroupsPath (cp_parent destructured) (cp_prefix destructured) name in
  connect_loop CONNECT_MAX_RETRIES 0 None root_path container_name timeout destructured sub_cgroup.
End connect.

(** *** Operations

    The world of a manager: its client, the cgroup file system, and the eBPF programs of
    the kernel.  After a call of the client and during a sleep other processes, systemd
    above all, may change the cgroup file system. *)
Record sworld (C B : Type) : Type := MkSworld { s_client : C; s_fs : fs; s_bpf : B }.
Arguments MkSworld {C B} _ _ _.
Arguments s_client {C B} _.
Arguments s_fs {C B} _.
Arguments s_bpf {C B} _.

(** What the controllers of the container are given. *)
Record SystemdResources : Type := MkSystemdResources {
  sr_resources : LinuxResources;
  sr_devices : option (list LinuxDeviceCgroup) }.

Inductive SControllerType : Type := CtCpu | CtCpuSet | CtDevices | CtIo | CtMemory | CtPids.

Definition scontroller_fmt (c : SControllerType) : string :=
  match c with
  | CtCpu => "cpu" | CtCpuSet => "cpuset" | CtDevices => "devices"
  | CtIo => "io" | CtMemory => "memory" | CtPids => "pids"
  end.

Definition SCONTROLLER_TYPES : list SControllerType := [CtCpu; CtCpuSet; CtDevices; CtIo; CtMemory; CtPids].

Section properties_of.
Context `{OciDevices} {T : Type} `{FixedBitSet T} (shares_curve : Z → Z)
  (link_name : string → option string)
  (read_to_string : string → outcome IoError string) (node_exists : string → bool).

(** [Controller::apply] of each controller: the section of the resources that it reads. *)
Definition scontroller_apply (o : SystemdResources) (v : Z) (c : SControllerType) (ps : props) :
    outcome SystemdManagerError props :=
  let res := sr_resources o in
  match c with
  | CtCpu => match cpu res with
             | Some cpu => map_err SCpuError (SCpu.sd_cpu_apply shares_curve cpu ps)
             | None => Ok ps end
  | CtCpuSet => match cpu res with
                | Some cpu => map_err SCpuSetError (SCpuSet.sd_cpuset_apply cpu v ps)
                | None => Ok ps end
  | CtDevices => map_err SDevicesError
                   (SystemdDevices.apply_devices read_to_string node_exists (sr_devices o) v ps)
  | CtPids => match pids res with
              | Some limit => Ok (SPids.sd_pids_apply limit ps)
              | None => Ok ps end
  | CtMemory => match memory res with
                | Some memory => map_err SMemoryError (SMemory.sd_memory_apply memory ps)
                | None => Ok ps end
  | CtIo => match block_io res with
            | Some blkio => map_err SIoError (SIo.sd_io_apply link_name blkio ps)
            | None => Ok ps end
  end.

(** The properties that [apply] collects. *)
Definition unit_properties (o : SystemdResources) (v : Z) : outcome SystemdManagerError props :=
  ps ← for_each (scontroller_apply o v) SCONTROLLER_TYPES ∅;
  match unified (sr_resources o) with
  | Some u => map_err SUnifiedError (SUnified.sd_unified_apply shares_curve u v ps)
  | None => Ok ps
  end.
End properties_of.

(** The controllers that can be enabled. *)
Definition scontroller_of (name : string) : option SControllerType :=
  if bool_decide (name = "cpu") then Some CtCpu
  else if bool_decide (name = "memory") then Some CtMemory
  else if bool_decide (name = "pids") then Some CtPids
  else None.

Definition s_available_controllers (m : SystemdManager) (cgroups_path : Path) :
    io fs SystemdManagerError (list SControllerType) :=
  let controllers_path := join_name_of (join (sm_root_path m) cgroups_path) CGROUP_CONTROLLERS in
  if_exists controllers_path
    (content ← io_map_err SWrappedIo (read_cgroup_file controllers_path);
     mret (omap scontroller_of (split_whitespace content)))
    (pure (Err (SFileNotFound controllers_path))).

Definition write_controllers (path : Path) (controllers : list string) : io fs SystemdManagerError () :=
  io_each (λ c, io_map_err SWrappedIo (write_cgroup_file_str (join_name_of path CGROUP_SUBTREE_CONTROL) c))
    controllers.

(** The walk down from the delegation boundary; it ends where a directory is missing. *)
Fixpoint attach_loop (current_path : Path) (controllers : list string) (components : Path) :
    io fs SystemdManagerError () :=
  match components with
  | [] => mret ()
  | component :: components =>
      let current_path := join current_path [component] in
      if_exists current_path
        (_ ← (if bool_decide (components = []) then mret () else write_controllers current_path controllers);
         attach_loop current_path controllers components)
        (mret ())
  end.

Definition ensure_controllers_attached (m : SystemdManager) : io fs SystemdManagerError () :=
  full_boundary_path ← pure (map_err SJoinSafely (join_safely (sm_root_path m) (sm_delegation_boundary m)));
  available ← s_available_controllers m full_boundary_path;
  let controllers := (λ c, "+" +:+ scontroller_fmt c) <$> available in
  _ ← write_controllers full_boundary_path controllers;
  components ← pure (ok_or (strip_path_prefix (sm_delegation_boundary m) (sm_cgroups_path m))
                       (BadDelegationBoundary (sm_delegation_boundary m) (sm_cgroups_path m)));
  attach_loop full_boundary_path controllers (filter (λ c, c ≠ RootDir) components).

Section operations.
Context {C B : Type} `{SystemdClient C}.
(** What other processes do to the file system, which may depend on what systemd was told. *)
Context (others : C → fs → fs).

Abbreviation sio A := (io (sworld C B) SystemdManagerError A).

Definition on_fs {E A} (f : E → SystemdManagerError) (m : io fs E A) : sio A := λ w,
  let '(r, v) := m (s_fs w) in (map_err f r, MkSworld (s_client w) v (s_bpf w)).

Definition on_client {E A} (f : E → SystemdManagerError) (m : io C E A) : sio A := λ w,
  let '(r, c) := m (s_client w) in (map_err f r, MkSworld c (others c (s_fs w)) (s_bpf w)).

Definition on_bpf {E A} (f : E → SystemdManagerError) (m : io B E A) : sio A := λ w,
  let '(r, b) := m (s_bpf w) in (map_err f r, MkSworld (s_client w) (s_fs w) b).

Definition no_error {A} (e : Empty_set) : A := match e with end.

(** [thread::sleep], while others go on. *)
Definition s_sleep (ms : Z) : sio () := λ w,
  let v := (os_sleep (E:=Empty_set) ms (s_fs w)).2 in
  (Ok (), MkSworld (s_client w) (others (s_client w) v) (s_bpf w)).

Section wait.
(** The time since the start at the beginning of turn [i] of the loop. *)
Context (elapsed : nat → Z).

(** An error that means that the cgroup is not set up yet. *)
Definition not_yet (e : V2ManagerError) : bool :=
  match e with WrappedIo (WRead _ _) => true | _ => false end.

(** The result of one poll: found, not found, or an error. *)
Definition poll (m : SystemdManager) (pid : Z) : sio bool := λ w,
  match V2Manager.get_all_pids (sm_fs_manager m) (s_fs w) with
  | (r, v) =>
      let w := MkSworld (s_client w) v (s_bpf w) in
      match r with
      | Ok pids => (Ok (bool_decide (pid ∈ pids)), w)
      | Err e => if not_yet e then (Ok false, w) else (Err (SV2Manager e), w)
      | Panic => (Panic, w)
      end
  end.

Fixpoint wait_loop (fuel i : nat) (m : SystemdManager) (pid : Z) : sio () :=
  match fuel with
  | O => pure Panic
  | S fuel =>
      if elapsed i <? sm_wait_timeout m then
        found ← poll m pid;
        if (found : bool) then mret ()
        else _ ← s_sleep 20; wait_loop fuel (S i) m pid
      else pure (Err (WaitForProcessInCgroupTimeout (pretty pid)))
  end.

(** Each turn takes 20 ms at least. *)
Definition wait_for_process_in_cgroup (m : SystemdManager) (pid : Z) : sio () :=
  wait_loop (S (S (Z.to_nat (sm_wait_timeout m / 20)))) 0 m pid.

Definition s_add_task (m : SystemdManager) (pid : Z) : sio () :=
  if pid =? -1 then mret ()
  else
    found ← on_client no_error (c_unit_exists (sm_unit_name m));
    if (found : bool) then
      on_client SClient (c_add_process (sm_unit_name m) (sm_sub_cgroup m) (uwrap 32 pid))
    else
      _ ← on_client SClient (c_start_unit (sm_container_name m) (uwrap 32 pid)
                               (cp_parent (sm_destructured_path m)) (sm_unit_name m));
      wait_for_process_in_cgroup m pid.
End wait.

(** The properties of the resources for a version of systemd, the order in which the hash
    map is sent, and the eBPF controller. *)
Section apply.
Context (properties_of : SystemdResources → Z → outcome SystemdManagerError props)
  (order : props → list (string * Variant))
  (apply_devices : Path → option (list LinuxDeviceCgroup) → io B BpfAttach.DevicesControllerError ()).

(** Errors are ignored if [ignore]. *)
Definition forgive (ignore : bool) (m : sio ()) : sio () := λ w,
  match m w with
  | (Err err, w) => if ignore then (Ok (), w) else (Err err, w)
  | r => r
  end.

Definition s_apply (m : SystemdManager) (o : SystemdResources) : sio () :=
  v ← on_client SClient c_version;
  properties ← pure (properties_of o v);
  _ ← (if bool_decide (properties = ∅) then mret ()
       else
         _ ← on_fs Datatypes.id (ensure_controllers_attached m);
         on_client SClient (c_set_properties (sm_unit_name m) (order properties)));
  forgive (sm_rootless m) (on_bpf SEbpfDevices (apply_devices (sm_full_path m) (sr_devices o))).
End apply.

Definition s_remove (m : SystemdManager) : sio () :=
  found ← on_client no_error (c_unit_exists (sm_unit_name m));
  if (found : bool) then on_client SClient (c_stop_unit (sm_unit_name m)) else mret ().

Definition s_freeze (events : nat → string) (m : SystemdManager) (state : FreezerState) : sio () :=
  on_fs SV2Manager (V2Manager.freeze events (sm_fs_manager m) state).

Definition s_stats `{Float64} (m : SystemdManager) : sio Stats :=
  on_fs SV2Stats (V2Stats.manager_stats (full_path (sm_fs_manager m))).

Definition s_get_all_pids (m : SystemdManager) : sio (list Z) :=
  on_fs SWrappedIo (CgroupTree.get_all_pids (sm_full_path m)).
End operations.

(** ** Connecting *)

Section connecting.
Context {C : Type} `{SystemdClient C}.
Context (try_connect : nat → outcome SystemdClientError C) (subsec_nanos : nat → option Z)
  (show : SystemdManagerError → string).

Definition eagain_at (cp : CgroupsPath) (sub : string) (i : nat) : Prop :=
  ∃ e, connect_once try_connect i cp sub = Err e ∧ is_eagain e = true.

Definition delays (n : nat) : list Z := (λ i, backoff (subsec_nanos i) i) <$> seq 0 n.

(** How a sequence of attempts ends, [k] being the first that did not time out. *)
Definition connected (root : Path) (name : string) (timeout : Z) (cp : CgroupsPath) (sub : string)
    (k : nat) (r : outcome SystemdManagerError (SystemdManager * C)) : Prop :=
  match connect_once try_connect k cp sub with
  | Ok (cg, boundary, c) =>
      r = (m ← make_manager root cg boundary name timeout cp sub; Ok (m, c))
  | Err e => is_eagain e = false ∧ r = Err e
  | Panic => r = Panic
  end.

Lemma connect_loop_spec root name timeout cp sub n : ∀ retry last slept,
  (n + retry = CONNECT_MAX_RETRIES)%nat →
  slept = delays (min retry 6) →
  (∀ i, (i < retry)%nat → eagain_at cp sub i) →
  let r := connect_loop try_connect subsec_nanos show n retry last root name timeout cp sub slept in
  ∃ k, (k ≤ 7)%nat ∧ (∀ i, (i < k)%nat → eagain_at cp sub i) ∧ r.2 = delays (min k 6) ∧
    (if decide (k = 7%nat) then ∃ msg, r.1 = Err (SClient (DBus (ConnectionError msg)))
     else connected root name timeout cp sub k r.1).
Proof.
  induction n as [|n IH]; intros retry last slept Hn -> Hpast.
  { unfold CONNECT_MAX_RETRIES in Hn. cbn in Hn. subst retry. exists 7%nat.
    split_and!; [done..|]. by eexists. }
  cbv zeta. cbn [connect_loop]. unfold connected.
  destruct (connect_once try_connect retry cp sub) as [[[cg b] c]|e|] eqn:Honce.
  - exists retry. unfold CONNECT_MAX_RETRIES in Hn. rewrite decide_False by lia. split_and!; [lia|done..|].
    by rewrite Honce.
  - destruct (is_eagain e) eqn:He; cbn [negb].
    + eapply IH.
      * lia.
      * unfold CONNECT_MAX_RETRIES in *. destruct (Nat.eqb_spec (S retry) 7) as [Heq|Hne].
        -- by replace (min (S retry) 6) with (min retry 6) by lia.
        -- replace (min (S retry) 6) with (S retry) by lia. replace (min retry 6) with retry by lia.
           unfold delays. by rewrite seq_S, fmap_app.
      * intros i Hi. destruct (decide (i = retry)) as [->|]; [by exists e|]. apply Hpast. lia.
    + exists retry. unfold CONNECT_MAX_RETRIES in Hn. rewrite decide_False by lia. split_and!; [lia|done..|].
      by rewrite Honce.
  - exists retry. unfold CONNECT_MAX_RETRIES in Hn. rewrite decide_False by lia. split_and!; [lia|done..|].
    by rewrite Honce.
Qed.

Lemma backoff_range ns i : (i < 6)%nat →
  let d := 100 * 2 ^ Z.of_nat i in d ≤ backoff ns i ≤ d + d / 8.
Proof.
  intros Hi d. unfold backoff.
  assert (uwrap 64 (Z.shiftl CONNECT_BASE_DELAY_MS (Z.of_nat i)) = d) as ->.
  { rewrite Z.shiftl_mul_pow2 by lia. apply uwrap_small.
    do 6 (destruct i as [|i]; [by vm_compute|]). lia. }
  unfold CONNECT_JITTER_DIVISOR. assert (0 ≤ d / 8) as Hd by (apply Z.div_pos; lia).
  destruct ns as [n|]; [|lia]. pose proof (Z.mod_pos_bound n (1 + d / 8)). lia.
Qed.

Lemma delays_sum n : (n ≤ 6)%nat → foldr Z.add 0 (delays n) ≤ 7087.
Proof.
  intros Hn. unfold delays.
  pose proof (backoff_range (subsec_nanos 0%nat) 0 ltac:(lia)) as H0.
  pose proof (backoff_range (subsec_nanos 1%nat) 1 ltac:(lia)) as H1.
  pose proof (backoff_range (subsec_nanos 2%nat) 2 ltac:(lia)) as H2.
  pose proof (backoff_range (subsec_nanos 3%nat) 3 ltac:(lia)) as H3.
  pose proof (backoff_range (subsec_nanos 4%nat) 4 ltac:(lia)) as H4.
  pose proof (backoff_range (subsec_nanos 5%nat) 5 ltac:(lia)) as H5.
  change (100 * 2 ^ Z.of_nat 0) with 100 in H0. change (100 * 2 ^ Z.of_nat 1) with 200 in H1.
  change (100 * 2 ^ Z.of_nat 2) with 400 in H2. change (100 * 2 ^ Z.of_nat 3) with 800 in H3.
  change (100 * 2 ^ Z.of_nat 4) with 1600 in H4. change (100 * 2 ^ Z.of_nat 5) with 3200 in H5.
  cbv zeta in *. do 7 (destruct n as [|n]; [cbn [seq fmap list_fmap foldr]; Z.to_euclidean_division_equations; lia|]).
  lia.
Qed.

(** The cgroup is below the delegation boundary, and its directory below the root. *)
Definition sm_wf (m : SystemdManager) : Prop :=
  sm_full_path m = full_path (sm_fs_manager m) ∧
  sm_full_path m = sm_root_path m ++ (Normal <$> walk [] (sm_cgroups_path m)) ∧
  ∃ names, sm_cgroups_path m = sm_delegation_boundary m ++ (Normal <$> names).

Lemma connect_once_below i cp sub cg boundary c :
  connect_once try_connect i cp sub = Ok (cg, boundary, c) → ∃ names, cg = boundary ++ (Normal <$> names).
Proof.
  unfold connect_once. intros (c0 & _ & Hask)%bind_Ok. unfold ask_cgroups_path in Hask.
  destruct (expand_slice (cp_parent cp)) as [p|e|] eqn:Hs; [|done..].
  destruct (c_cgroup_root c0) as [[root|e|] c1]; [|done..].
  destruct (construct_cgroups_path cp root sub) as [[cg' b']|e|] eqn:Hc; [|done..].
  cbn in Hask. injection Hask as -> -> _. unfold construct_cgroups_path in Hc.
  rewrite Hs in Hc. cbn in Hc. do 3 (rewrite join_safely_names in Hc; cbn in Hc).
  injection Hc as <- <-. rewrite <- !app_assoc, <- !fmap_app. by eexists.
Qed.

Lemma make_manager_wf root cg boundary name timeout cp sub names :
  cg = boundary ++ (Normal <$> names) →
  ∃ m, make_manager root cg boundary name timeout cp sub = Ok m ∧ sm_wf m ∧
    sm_root_path m = root ∧ sm_unit_name m = get_unit_name cp ∧ sm_sub_cgroup m = sub ∧
    sm_rootless m = false.
Proof.
  intros ->. unfold make_manager, manager_new. rewrite !join_safely_names, walk_clean. cbn.
  eexists. split; [done|]. split; [|done]. split_and!; cbn; [done..|by eexists].
Qed.

(** C25: connecting to systemd.  At most seven attempts are made, all but the last of which
    timed out, with growing delays between them of at most 7087 ms in total; an attempt
    that fails in another way ends the connecting with its error.  The manager that is
    made has its cgroup below the control group of systemd and its directory below the
    root, the same for systemd and for the cgroup v2 manager. *)
Theorem systemd_new_spec root path name use_system timeout cp :
  cgroups_path_try_from path = Ok cp →
  let cp := ensure_parent_unit cp use_system in
  let sub := (split_sub_cgroup (cp_name cp)).2 in
  let cp := MkCgroupsPath (cp_parent cp) (cp_prefix cp) (split_sub_cgroup (cp_name cp)).1 in
  let r := systemd_manager_new try_connect subsec_nanos show root path name use_system timeout [] in
  foldr Z.add 0 r.2 ≤ 7087 ∧
  ∃ k, (k ≤ 7)%nat ∧ (∀ i, (i < k)%nat → eagain_at cp sub i) ∧ r.2 = delays (min k 6) ∧
    (if decide (k = 7%nat) then ∃ msg, r.1 = Err (SClient (DBus (ConnectionError msg)))
     else
       match connect_once try_connect k cp sub with
       | Ok (cg, boundary, c) =>
           ∃ m, r.1 = Ok (m, c) ∧ sm_wf m ∧ sm_root_path m = root ∧
             sm_unit_name m = get_unit_name cp ∧ sm_sub_cgroup m = sub
       | Err e => is_eagain e = false ∧ r.1 = Err e
       | Panic => r.1 = Panic
       end).
Proof.
  intros Hcp cp1 sub cp2 r.
  assert (r = connect_loop try_connect subsec_nanos show CONNECT_MAX_RETRIES 0 None root name timeout cp2 sub []) as ->.
  { unfold r, systemd_manager_new. rewrite Hcp. cbn [map_err]. rewrite io_bind_pure.
    fold cp1. unfold sub, cp2. by destruct (split_sub_cgroup (cp_name cp1)). }
  destruct (connect_loop_spec root name timeout cp2 sub CONNECT_MAX_RETRIES 0 None []) as (k & Hk & Hpast & Hs & Hres);
    [done|done|lia|].
  split; [rewrite Hs; apply delays_sum; lia|]. exists k. split_and!; [done..|].
  case_decide; [done|]. unfold connected in Hres.
  destruct (connect_once try_connect k cp2 sub) as [[[cg b] c]|e|] eqn:Honce; [|done..].
  destruct (connect_once_below _ _ _ _ _ _ Honce) as [names Hcg].
  destruct (make_manager_wf root cg b name timeout cp2 sub names Hcg) as (m & Hm & Hwf & Hroot & Hun & Hsub & _).
  exists m. rewrite Hres, Hm. done.
Qed.
End connecting.

(** The retries do not cover the system bus.  A failure to connect to it, a time-out
    included, is reported as a missing bus unless the private socket of systemd is tried,
    so that the manager gives up after the first attempt. *)
Theorem system_bus_not_retried `{CharTables} os_connect path_exists env_var is_root ns show root path name timeout cp e :
  (addr ← get_system_bus_address path_exists env_var; conn_new os_connect addr 0 true) = Err e →
  is_root && path_exists SYSTEMD_PRIVATE_SOCKET = false →
  cgroups_path_try_from path = Ok cp →
  systemd_manager_new (λ _, new_system os_connect path_exists env_var is_root) ns show root path name true timeout []
  = (Err (SClient (DBus (BusAddressError "could not connect to system bus or systemd private socket"))), []).
Proof.
  intros Hconn Hpriv Hcp. unfold systemd_manager_new. rewrite Hcp. cbn [map_err]. rewrite io_bind_pure.
  destruct (split_sub_cgroup _) as [n sub]. cbn [CONNECT_MAX_RETRIES connect_loop]. unfold connect_once, new_system.
  by rewrite Hconn, Hpriv.
Qed.

(** ** Adding a process *)

Section adding.
Context {C B : Type} `{SystemdClient C} (others : C → fs → fs).
Implicit Types w : sworld C B.

Lemma poll_cases m pid w :
  ∃ v, s_client (poll m pid w).2 = s_client w ∧ s_bpf (poll m pid w).2 = s_bpf w ∧
    s_fs (poll m pid w).2 = v ∧ still (s_fs w) v ∧
    match (poll m pid w).1 with
    | Ok true => collects v (full_path (sm_fs_manager m)) pid
    | Panic => False
    | _ => True
    end.
Proof.
  unfold poll, V2Manager.get_all_pids, io_map_err.
  pose proof (get_all_pids_total (full_path (sm_fs_manager m)) (s_fs w)) as Ht.
  destruct (CgroupTree.get_all_pids _ _) as [[l|e|] v]; [|exists v; cbn|done].
  - destruct Ht as [Hs Hl]. exists v. cbn. split_and!; [done..|]. case_bool_decide as Hin; [|done].
    apply (collects_still (s_fs w)); auto.
  - by destruct e.
Qed.

Context (elapsed : nat → Z).
Hypothesis slow : ∀ i, elapsed i + 20 ≤ elapsed (S i).
Hypothesis start : 0 ≤ elapsed 0%nat.

Lemma elapsed_bound i : 20 * Z.of_nat i ≤ elapsed i.
Proof. induction i as [|i IH]; [lia|]. pose proof (slow i). lia. Qed.

Lemma wait_loop_spec m pid fuel : ∀ i w,
  sm_wait_timeout m < 20 * Z.of_nat (i + fuel) →
  let r := wait_loop others elapsed (S fuel) i m pid w in
  s_client r.2 = s_client w ∧ s_bpf r.2 = s_bpf w ∧ r.1 ≠ Panic ∧
  (r.1 = Ok () → collects (s_fs r.2) (full_path (sm_fs_manager m)) pid).
Proof.
  induction fuel as [|fuel IH]; intros i w Hfuel; cbv zeta; cbn [wait_loop];
    pose proof (elapsed_bound i) as Hi.
  { replace (elapsed i <? sm_wait_timeout m) with false by lia. done. }
  destruct (elapsed i <? sm_wait_timeout m); [|done].
  destruct (poll_cases m pid w) as (v & Hc & Hb & Hv & _ & Hres). unfold mbind, io_bind.
  destruct (poll m pid w) as [[[]|e|] w1]; cbn in Hc, Hb, Hv, Hres; [by subst v| |by subst v|done].
  subst v. unfold s_sleep. rewrite <- Hc, <- Hb.
  destruct (IH (S i) (MkSworld (s_client w1) (others (s_client w1)
    (os_sleep (E:=Empty_set) 20 (s_fs w1)).2) (s_bpf w1)) ltac:(lia)) as (Hc' & Hb' & Hp & Hok).
  done.
Qed.

(** Adding a process through systemd.  The process -1 changes nothing.  If the unit
    exists the process is given to systemd, and that is all.  If not, the unit is started
    with the process, and success means that the process was seen in the cgroup or below
    it; the waiting ends by the time-out at the latest. *)
Theorem systemd_add_task_spec m pid w :
  let r := s_add_task others elapsed m pid w in
  if decide (pid = -1) then r = (Ok (), w)
  else
    match c_unit_exists (sm_unit_name m) (s_client w) with
    | (Ok true, c) =>
        (map_err SClient (c_add_process (sm_unit_name m) (sm_sub_cgroup m) (uwrap 32 pid) c).1,
         (c_add_process (sm_unit_name m) (sm_sub_cgroup m) (uwrap 32 pid) c).2) = (r.1, s_client r.2)
    | (Ok false, c) =>
        match c_start_unit (sm_container_name m) (uwrap 32 pid) (cp_parent (sm_destructured_path m))
                (sm_unit_name m) c with
        | (Ok _, c) => s_client r.2 = c ∧ r.1 ≠ Panic ∧
            (r.1 = Ok () → collects (s_fs r.2) (full_path (sm_fs_manager m)) pid)
        | (Err e, c) => r.1 = Err (SClient e) ∧ s_client r.2 = c
        | (Panic, _) => r.1 = Panic
        end
    | (Err e, _) => match e with end
    | (Panic, _) => r.1 = Panic
    end.
Proof.
  cbv zeta. unfold s_add_task. case_decide as Hpid; [by subst pid|].
  replace (pid =? -1) with false by lia. unfold mbind, io_bind, on_client.
  destruct (c_unit_exists _ _) as [[[]|[]|] c]; cbn; [|..|done].
  - by destruct (c_add_process _ _ _ _) as [r c'].
  - destruct (c_start_unit _ _ _ _ c) as [[u|e|] c']; cbn; [|done..].
    destruct (wait_loop_spec m pid (S (Z.to_nat (sm_wait_timeout m / 20))) 0
      (MkSworld c' (others c' (others c (s_fs w))) (s_bpf w))) as (Hc & _ & Hp & Hok).
    { destruct (decide (0 ≤ sm_wait_timeout m)).
      - rewrite Nat.add_0_l, Nat2Z.inj_succ, Z2Nat.id by (apply Z.div_pos; lia).
        Z.to_euclidean_division_equations; lia.
      - lia. }
    done.
Qed.
End adding.

(** ** Applying limits *)

(** Properties are only added. *)
Definition grows {E} (f : props → outcome E props) : Prop :=
  ∀ ps ps' k, f ps = Ok ps' → is_Some (ps !! k) → is_Some (ps' !! k).

Lemma grows_ret {E} : grows (E:=E) (λ ps, Ok ps).
Proof. by intros ps ps' k [= <-]. Qed.

Lemma grows_insert {E} (i : string) (x : Variant) : grows (E:=E) (λ ps, Ok (<[i := x]> ps)).
Proof. intros ps ps' k [= <-] Hk. apply lookup_insert_is_Some'. auto. Qed.

Lemma grows_err {E} (e : E) : grows (λ _, Err e).
Proof. by intros ps ps' k. Qed.

Lemma grows_bind {E A} (m : outcome E A) (f : A → props → outcome E props) :
  (∀ a, grows (f a)) → grows (λ ps, m ≫= λ a, f a ps).
Proof. intros Hf ps ps' k (a & _ & Ha)%bind_Ok. by apply (Hf a). Qed.

Lemma grows_then {E} (f g : props → outcome E props) :
  grows f → grows g → grows (λ ps, f ps ≫= g).
Proof. intros Hf Hg ps ps' k (ps1 & H1 & H2)%bind_Ok Hk. eapply Hg; [done|]. by eapply Hf. Qed.

Lemma grows_map_err {E F} (h : E → F) f : grows f → grows (λ ps, map_err h (f ps)).
Proof. intros Hf ps ps' k Hm. destruct (f ps) eqn:Hps; [|done..]. injection Hm as <-. by eapply Hf. Qed.

Lemma grows_for_each {E A} (f : A → props → outcome E props) l :
  (∀ x, x ∈ l → grows (f x)) → grows (for_each f l).
Proof.
  induction l as [|x l IH]; intros Hf; [apply grows_ret|]. cbn [for_each].
  apply grows_then; [apply Hf; left|]. apply IH. intros y Hy. apply Hf. by right.
Qed.

Create HintDb grows.
#[local] Hint Resolve grows_ret grows_insert grows_err : grows.

Ltac grow :=
  repeat first [progress auto with grows | apply grows_bind; intros | apply grows_then | apply grows_map_err
               | match goal with |- grows (λ ps, match ?x with _ => _ end) => destruct x end].

Section grow.
Context `{OciDevices} {T : Type} `{FixedBitSet T} (shares_curve : Z → Z) (link_name : string → option string)
  (rts : string → outcome IoError string) (ne : string → bool).

Lemma limits_grow ds k : grows (SIo.apply_limits link_name ds k).
Proof.
  unfold SIo.apply_limits. destruct ds as [ds|]; [|apply grows_ret].
  apply grows_bind. intros l. destruct (bool_decide _); auto with grows.
Qed.

Lemma memory_grow m : grows (SMemory.sd_memory_apply m).
Proof.
  unfold SMemory.sd_memory_apply, SMemory.apply_swap. apply grows_then; [grow|]. apply grows_then; [grow|].
  grow.
Qed.

Lemma unified_grow u v : grows (SUnified.sd_unified_apply shares_curve u v).
Proof.
  apply grows_for_each. intros [k x] _.
  unfold SUnified.apply_entry, SUnified.apply_cpu_max, SUnified.apply_cpuset, SUnified.apply_memory.
  grow. intros ps ps' j [= <-] Hj. rewrite !lookup_insert_is_Some'. auto.
Qed.

(** The device policy is among the properties. *)
Lemma unit_properties_policy o v ps :
  unit_properties shares_curve link_name rts ne o v = Ok ps → is_Some (ps !! "DevicePolicy").
Proof.
  unfold unit_properties. intros (ps1 & Hfor & Huni)%bind_Ok.
  assert (is_Some (ps1 !! "DevicePolicy")) as Hps1.
  2:{ revert Huni. destruct (unified _) as [u|]; [|by intros [= <-]]. intros Hu.
      eapply (grows_map_err SUnifiedError _ (unified_grow u v)); [exact Hu|done]. }
  change SCONTROLLER_TYPES with ([CtCpu; CtCpuSet; CtDevices] ++ [CtIo; CtMemory; CtPids]) in Hfor.
  rewrite for_each_app in Hfor. apply bind_Ok in Hfor as (ps0 & Hdev & Hfor).
  eapply grows_for_each; [|exact Hfor|].
  - intros c Hc. unfold scontroller_apply.
    repeat (apply elem_of_cons in Hc as [->|Hc]); [| | |by apply elem_of_nil in Hc].
    + destruct (block_io _); [|apply grows_ret]. apply grows_map_err. unfold SIo.sd_io_apply.
      do 3 (apply grows_then; [apply limits_grow|]). apply limits_grow.
    + destruct (memory _); [|apply grows_ret]. apply grows_map_err, memory_grow.
    + destruct (pids _); [|apply grows_ret]. apply grows_insert.
  - change [CtCpu; CtCpuSet; CtDevices] with ([CtCpu; CtCpuSet] ++ [CtDevices]) in Hdev.
    rewrite for_each_app in Hdev. apply bind_Ok in Hdev as (ps2 & _ & Hdev). cbn [for_each] in Hdev.
    apply bind_Ok in Hdev as (ps3 & Hdev & [= ->]). unfold scontroller_apply in Hdev.
    destruct (SystemdDevices.apply_devices _ _ _ _ _) as [ps4| |] eqn:Ha; [|done..]. injection Hdev as ->.
    unfold SystemdDevices.apply_devices, apply_devices_from in Ha.
    assert (∀ s l, is_Some (set_policy s l ps2 !! "DevicePolicy")) as Hset.
    { intros ? ?. unfold set_policy. rewrite lookup_insert_ne, lookup_insert_eq by done. by eexists. }
    destruct (default_allow _ && _); [injection Ha as <-; apply Hset|].
    destruct (existsb _ _); [injection Ha as <-; apply Hset|].
    apply bind_Ok in Ha as (? & _ & [= <-]). apply Hset.
Qed.
End grow.

(** What enabling the controllers may write: a controller, at the delegation boundary or in a
    directory below it that is strictly above the cgroup. *)
Definition boundary_op (m : SystemdManager) (op : fs_op) : Prop :=
  ∃ dir rest c, op = OpWrite (join_name_of dir CGROUP_SUBTREE_CONTROL) ("+" +:+ scontroller_fmt c) ∧
    sm_full_path m = dir ++ rest ∧
    let boundary := sm_root_path m ++ (Normal <$> walk [] (sm_delegation_boundary m)) in
    boundary `prefix_of` dir ∧ (dir = boundary ∨ rest ≠ []).

Lemma write_controllers_only P path cs :
  (∀ c, c ∈ cs → P (OpWrite (join_name_of path CGROUP_SUBTREE_CONTROL) c)) → only P (write_controllers path cs).
Proof.
  unfold write_controllers. induction cs as [|c cs IH]; intros Hcs; [apply only_ret|]. cbn [io_each].
  apply only_bind; [apply only_map_err, only_write_str, Hcs; left|]. intros _. apply IH.
  intros c' Hc'. apply Hcs. by right.
Qed.

Lemma attach_loop_only m cs names cur :
  sm_full_path m = cur ++ (Normal <$> names) →
  sm_root_path m ++ (Normal <$> walk [] (sm_delegation_boundary m)) `prefix_of` cur →
  only (boundary_op m) (attach_loop cur ((λ c, "+" +:+ scontroller_fmt c) <$> cs) (Normal <$> names)).
Proof.
  revert cur. induction names as [|n names IH]; intros cur Hfull Hpre; [apply only_ret|].
  cbn [fmap list_fmap attach_loop]. rewrite join_name. apply only_if_exists; [|apply only_ret].
  assert (sm_full_path m = (cur ++ [Normal n]) ++ (Normal <$> names)) as Hfull' by (by rewrite <- app_assoc).
  assert (sm_root_path m ++ (Normal <$> walk [] (sm_delegation_boundary m)) `prefix_of` cur ++ [Normal n]) as Hpre'
    by (by apply prefix_app_r).
  apply only_bind; [|intros _; by apply IH].
  case_bool_decide as Hn; [apply only_ret|]. apply write_controllers_only.
  intros c (ct & -> & _)%list_elem_of_fmap. exists (cur ++ [Normal n]), (Normal <$> names), ct. auto.
Qed.

Lemma only_ok {E A B} P (a : A) (f : A → io fs E B) : only P (f a) → only P (pure (Ok a) ≫= f).
Proof. exact id. Qed.

Lemma filter_names (names : list string) : filter (λ c, c ≠ RootDir) (Normal <$> names) = Normal <$> names.
Proof. induction names as [|n names IH]; [done|]. by rewrite fmap_cons, filter_cons_True, IH by done. Qed.

Lemma ensure_confined m : sm_wf m → only (boundary_op m) (ensure_controllers_attached m).
Proof.
  intros (_ & Hfull & [names Hcg]). unfold ensure_controllers_attached.
  rewrite Hcg, strip_path_prefix_app, join_safely_names. cbn [map_err ok_or].
  assert (sm_full_path m = (sm_root_path m ++ (Normal <$> walk [] (sm_delegation_boundary m))) ++ (Normal <$> names)) as Hf.
  { rewrite Hfull, Hcg. unfold walk. rewrite foldl_app. fold (walk [] (sm_delegation_boundary m)).
    fold (walk (walk [] (sm_delegation_boundary m)) (Normal <$> names)).
    by rewrite walk_names, fmap_app, app_assoc. }
  apply only_ok, only_bind.
  { apply only_if_exists; [|apply only_pure]. apply only_bind; [apply only_map_err, only_read|].
    intros; apply only_ret. }
  intros cs. cbv zeta. apply only_bind.
  - apply write_controllers_only. intros c (ct & -> & _)%list_elem_of_fmap.
    eexists _, (Normal <$> names), ct. split; [done|]. split; [exact Hf|]. split; [done|by left].
  - intros _. apply only_ok.
    rewrite filter_names. by apply attach_loop_only.
Qed.

Section applying.
Context {C B : Type} `{SystemdClient C} (others : C → fs → fs).
Context `{OciDevices} {T : Type} `{FixedBitSet T} (shares_curve : Z → Z) (link_name : string → option string)
  (rts : string → outcome IoError string) (ne : string → bool)
  (order : props → list (string * Variant))
  (apply_devices : Path → option (list LinuxDeviceCgroup) → io B BpfAttach.DevicesControllerError ()).

(** The operations in the journal are those of the manager. *)
Hypothesis journal_ours : ∀ c v, journal (others c v) = journal v.

(** C26: applying limits through systemd.  The properties are computed before anything is
    done: if the resources cannot be expressed, systemd is only asked for its version, and
    neither the cgroups nor the eBPF programs change.  Otherwise controllers are enabled,
    only from the delegation boundary down to above the cgroup; on success all properties,
    with a device policy among them, have been sent in one message, and the device filter
    has been put in place after it, or its failure was ignored for a rootless container.
    If sending fails the device filter is not touched. *)
Theorem systemd_apply_spec m o (w : sworld C B) :
  sm_wf m →
  let r := s_apply others (unit_properties shares_curve link_name rts ne) order apply_devices m o w in
  match c_version (s_client w) with
  | (Ok v, c) =>
      match unit_properties shares_curve link_name rts ne o v with
      | Ok ps =>
          is_Some (ps !! "DevicePolicy") ∧
          (∃ ops, journal (s_fs r.2) = journal (s_fs w) ++ ops ∧ Forall (boundary_op m) ops) ∧
          let sent := c_set_properties (sm_unit_name m) (order ps) c in
          let filtered := apply_devices (sm_full_path m) (sr_devices o) (s_bpf w) in
          (r.1 = Ok () → sent = (Ok (), s_client r.2) ∧ s_bpf r.2 = filtered.2 ∧
             (filtered.1 = Ok () ∨ sm_rootless m = true ∧ is_err filtered.1 = true)) ∧
          (sent.1 ≠ Ok () → r.1 ≠ Ok () ∧ s_bpf r.2 = s_bpf w)
      | Err e => r.1 = Err e ∧ s_client r.2 = c ∧ s_bpf r.2 = s_bpf w ∧ journal (s_fs r.2) = journal (s_fs w)
      | Panic => r.1 = Panic
      end
  | (Err e, c) => r.1 = Err (SClient e) ∧ s_bpf r.2 = s_bpf w ∧ journal (s_fs r.2) = journal (s_fs w)
  | (Panic, _) => r.1 = Panic
  end.
Proof.
  intros Hwf r. subst r.
  pose proof (λ v ps, unit_properties_policy shares_curve link_name rts ne o v ps) as Hpols.
  generalize dependent (unit_properties shares_curve link_name rts ne). intros U Hpols.
  unfold s_apply, on_client, mbind, io_bind.
  destruct (c_version (s_client w)) as [[v|e|] c]; cbn; [|by rewrite ?journal_ours..].
  destruct (U o v) as [ps|e|] eqn:Hps; cbn; [|by rewrite ?journal_ours..].
  pose proof (Hpols _ _ Hps) as Hpol. split; [done|].
  rewrite bool_decide_eq_false_2 by (intros ->; rewrite lookup_empty in Hpol; by destruct Hpol).
  destruct (ensure_confined m Hwf (others c (s_fs w))) as (ops & Hj & Hops). unfold on_fs. cbn [s_fs s_client s_bpf].
  destruct (ensure_controllers_attached m (others c (s_fs w))) as [[[]|e|] v1]; cbn in Hj |- *;
    rewrite journal_ours in Hj; [|split; [by exists ops|done]..].
  destruct (c_set_properties _ (order ps) c) as [[[]|e|] c1] eqn:Hset; cbn;
    [|rewrite ?journal_ours; split; [by exists ops|done]..].
  unfold forgive, on_bpf. cbn. destruct (apply_devices _ _ (s_bpf w)) as [[[]|e|] b]; cbn.
  - rewrite journal_ours. split; [by exists ops|]. split; [auto|done].
  - destruct (sm_rootless m) eqn:Hr; cbn; rewrite journal_ours; (split; [by exists ops|]);
      split; auto; done.
  - rewrite journal_ours. split; [by exists ops|done].
Qed.
End applying.

(** ** Examples *)

(** A client that remembers the units that were started. *)
Definition unit_client : SystemdClient (list string) := {|
  c_unit_exists name c := (Ok (bool_decide (name ∈ c)), c);
  c_start_unit _ _ _ name c := (Ok (), name :: c);
  c_stop_unit name c := (Ok (), filter (λ n, n ≠ name) c);
  c_set_properties _ _ c := (Ok (), c);
  c_version c := (Ok 245, c);
  c_cgroup_root c := (Ok (components "/"), c);
  c_add_process _ _ _ c := (Ok (), c);
|}.

(** The first attempt times out. *)
Definition slow_bus (i : nat) : outcome SystemdClientError (list string) :=
  match i with O => Err (nix_err EAGAIN) | _ => Ok [] end.

Definition example_new :=
  systemd_manager_new (H:=unit_client) slow_bus (λ _, Some 5) (λ _, "") (components "/sys/fs/cgroup")
    "system.slice:youki:abc" "abc" true 5000 [].

Lemma systemd_new_spec_witness :
  example_new.2 = [105] ∧ foldr Z.add 0 example_new.2 ≤ 7087 ∧
  match example_new.1 with
  | Ok (m, _) => sm_unit_name m = "youki-abc.scope"
  | _ => False
  end.
Proof.
  destruct (systemd_new_spec (H:=unit_client) slow_bus (λ _, Some 5) (λ _, "") (components "/sys/fs/cgroup")
    "system.slice:youki:abc" "abc" true 5000 (MkCgroupsPath "system.slice" "youki" "abc") eq_refl) as [Hle _].
  split; [vm_compute; reflexivity|]. split; [exact Hle|vm_compute; reflexivity].
Defined.

Definition example_smanager : SystemdManager :=
  match example_new.1 with
  | Ok (m, _) => m
  | _ => MkSystemdManager [] [] [] (MkCgroupsPath "" "" "") "" "" "" (MkManager [] [] [] false) [] 0 false
  end.

#[local] Instance no_tables : CharTables := {| is_alphabetic _ := false; is_numeric _ := false |}.

Lemma system_bus_not_retried_witness :
  systemd_manager_new (λ _, new_system (λ _, Err (nix_err EAGAIN)) (λ _, true) (λ _, None) false)
    (λ _, None) (λ _, "") (components "/sys/fs/cgroup") "system.slice:youki:abc" "abc" true 5000 []
  = (Err (SClient (DBus (BusAddressError "could not connect to system bus or systemd private socket"))), []).
Proof.
  by apply (system_bus_not_retried _ _ _ _ _ _ _ _ _ _ (MkCgroupsPath "system.slice" "youki" "abc") (nix_err EAGAIN)).
Defined.

(** systemd puts process 42 into the unit when it is started. *)
Definition unit_dir : Path := components "/sys/fs/cgroup/system.slice/youki-abc.scope".

Definition example_others (c : list string) (v : fs) : fs :=
  if bool_decide (c = []) then v
  else MkFs ({[unit_dir]} ∪ dirs v) (<[join_name_of unit_dir CGROUP_PROCS := "42"]> (files v)) (journal v) (clock v)
         (refuse v) (kernel v) (iface v).

Definition example_sworld : sworld (list string) () := MkSworld [] (example_fs []) ().

Lemma systemd_add_task_spec_witness :
  ∃ w', s_add_task (H:=unit_client) example_others (λ i, 20 * Z.of_nat i) example_smanager 42 example_sworld = (Ok (), w') ∧
    collects (s_fs w') unit_dir 42.
Proof.
  pose proof (systemd_add_task_spec (H:=unit_client) example_others (λ i, 20 * Z.of_nat i)
    ltac:(intros i; cbv beta; lia) ltac:(cbv beta; lia) example_smanager 42 example_sworld) as Hspec.
  assert ((s_add_task (H:=unit_client) example_others (λ i, 20 * Z.of_nat i) example_smanager 42 example_sworld).1 = Ok ())
    as Hok by (vm_compute; reflexivity).
  destruct (s_add_task _ _ _ _ _) as [r w']. cbn in Hok. subst r. exists w'. split; [done|].
  cbn in Hspec. destruct Hspec as (_ & _ & Hc). by apply Hc.
Defined.

Definition no_filter (p : Path) (ds : option (list LinuxDeviceCgroup)) :
    io () BpfAttach.DevicesControllerError () :=
  λ b, (Err (BpfAttach.DNix EACCES), b).

Definition no_limits : SystemdResources :=
  MkSystemdResources (MkResources None None None None None None) None.

Definition example_apply_world : sworld (list string) () :=
  MkSworld [] (example_fs [(join_name_of (components "/sys/fs/cgroup") CGROUP_CONTROLLERS, "cpu io memory");
                           (join_name_of (components "/sys/fs/cgroup") CGROUP_SUBTREE_CONTROL, "")]) ().

Lemma systemd_apply_spec_witness :
  let m := sm_with_rootless example_smanager true in
  let r := s_apply (H:=unit_client) (λ _ v, v) (unit_properties (T:=zbits) Datatypes.id (λ _, None) no_files (λ _, false))
             map_to_list no_filter m no_limits example_apply_world in
  r.1 = Ok () ∧ Forall (boundary_op m) (journal (s_fs r.2)).
Proof.
  intros m r.
  assert (sm_wf m) as Hwf by (split_and!; [vm_compute; reflexivity..|]; exists ["system.slice"; "youki-abc.scope"]; vm_compute; reflexivity).
  pose proof (systemd_apply_spec (H:=unit_client) (T:=zbits) (λ _ v, v) Datatypes.id (λ _, None) no_files (λ _, false)
    map_to_list no_filter ltac:(done) m no_limits example_apply_world Hwf) as Hspec.
  assert (r.1 = Ok ()) as Hok by (vm_compute; reflexivity). split; [done|].
  assert (is_ok (unit_properties (T:=zbits) Datatypes.id (λ _, None) no_files (λ _, false) no_limits 245) = true) as Hps
    by (vm_compute; reflexivity).
  cbn [c_version unit_client] in Hspec. destruct (unit_properties _ _ _ _ no_limits 245) as [ps| |]; [|done..].
  destruct Hspec as (_ & (ops & Hj & Hops) & _). unfold r. rewrite Hj. exact Hops.
Defined.
