(* ===== verification/Seccomp.v ===== *)
(** * Seccomp: the filter generator of [experiment/seccomp]

    Models [instruction/inst.rs], [consts.rs], [arch.rs] and [seccomp.rs]: a
    seccomp configuration becomes a plan, and the plan a classic BPF program that
    the kernel runs on every system call.  The kernel's machine is the interface
    [CbpfVm], with the documented semantics of the instructions used here as
    laws; [interp_cbpf] is a machine that satisfies them. *)
From S2P Require Import Prelude.
From stdpp Require Import sorting.
Local Open Scope string_scope.
Local Open Scope list_scope.
Local Open Scope Z_scope.

(** ** Instructions ([inst.rs], [consts.rs]) *)

Record Instruction : Type := MkInstruction {
  code : Z;                 (* c_ushort *)
  offset_jump_true : Z;     (* c_uchar *)
  offset_jump_false : Z;    (* c_uchar *)
  multiuse_field : Z        (* c_uint *)
}.

Definition BPF_LD : Z := 0.
Definition BPF_JMP : Z := 5.
Definition BPF_RET : Z := 6.
Definition BPF_W : Z := 0.
Definition BPF_ABS : Z := 32.
Definition BPF_JEQ : Z := 16.
Definition BPF_JGT : Z := 32.
Definition BPF_JGE : Z := 48.
Definition BPF_JSET : Z := 64.
Definition BPF_K : Z := 0.
Definition BPF_JMP_MAX : Z := 255.

Definition SECCOMP_RET_ALLOW : Z := 2147418112.
Definition SECCOMP_RET_ERRNO : Z := 327680.
Definition SECCOMP_RET_KILL_THREAD : Z := 0.
Definition SECCOMP_RET_KILL_PROCESS : Z := 2147483648.
Definition SECCOMP_RET_LOG : Z := 2147221504.
Definition SECCOMP_RET_TRACE : Z := 2146435072.
Definition SECCOMP_RET_TRAP : Z := 196608.
Definition SECCOMP_RET_USER_NOTIF : Z := 2143289344.

Definition AUDIT_ARCH_X86_64 : Z := 3221225534.
Definition AUDIT_ARCH_AARCH64 : Z := 3221225655.
Definition X32_SYSCALL_BIT : Z := 1073741824.
Definition ENOSYS : Z := 38.

Definition stmt (c k : Z) : Instruction := MkInstruction c 0 0 k.
Definition jump (c jt jf k : Z) : Instruction := MkInstruction (Z.lor BPF_JMP c) jt jf k.

Inductive SeccompCompareOp : Type :=
  NotEqual | LessThan | LessOrEqual | Equal | GreaterOrEqual | GreaterThan | MaskedEqual.

Inductive SeccompError : Type :=
  | Apply (msg : string)
  | InvalidArgumentSize
  | InvalidDefaultAction
  | InvalidSystemCall.

Definition seccomp_data_nr_offset : Z := 0.
Definition seccomp_data_arch_offset : Z := 4.

Definition seccomp_data_args_offset (index : Z) : outcome SeccompError Z :=
  if (0 <=? index) && (index <=? 5) then Ok (16 + index * 8) else Err InvalidArgumentSize.

(** ** The architecture check ([arch.rs]) *)

Inductive Arch : Type := X86 | AArch64.

Definition arch_id (arc : Arch) : Z :=
  match arc with X86 => AUDIT_ARCH_X86_64 | AArch64 => AUDIT_ARCH_AARCH64 end.

Definition LD_ABS : Z := Z.lor (Z.lor BPF_LD BPF_W) BPF_ABS.
Definition RET_K : Z := Z.lor BPF_RET BPF_K.

Definition gen_validate (arc : Arch) (def_action : Z) (jump_num : nat) : list Instruction :=
  let arch := arch_id arc in
  if Z.of_nat jump_num <=? BPF_JMP_MAX then [
    stmt LD_ABS seccomp_data_arch_offset;
    jump (Z.lor (Z.lor BPF_JMP BPF_JEQ) BPF_K) 0 (uwrap 8 (Z.of_nat jump_num + 3)) arch;
    stmt LD_ABS seccomp_data_nr_offset;
    jump (Z.lor (Z.lor BPF_JMP BPF_JGE) BPF_K) 0 1 X32_SYSCALL_BIT;
    stmt RET_K (Z.lor SECCOMP_RET_ERRNO ENOSYS) ]
  else [
    stmt LD_ABS seccomp_data_arch_offset;
    jump (Z.lor (Z.lor BPF_JMP BPF_JEQ) BPF_K) 1 0 arch;
    stmt RET_K def_action;
    stmt LD_ABS seccomp_data_nr_offset;
    jump (Z.lor (Z.lor BPF_JMP BPF_JGE) BPF_K) 0 1 X32_SYSCALL_BIT;
    stmt RET_K (Z.lor SECCOMP_RET_ERRNO ENOSYS) ].

(** ** Rules ([seccomp.rs]) *)

Record SyscallArgs : Type := MkArgs {
  arg0 : Z; arg1 : Z; arg2 : Z; arg3 : Z; arg4 : Z; arg5 : Z }.

Record Rule : Type := MkRule {
  syscall : list Z;
  action : Z;
  errno_ret : Z;
  check_arg_syscall : list Z;
  arg_cnt : option Z;
  args : option SyscallArgs;
  op : option SeccompCompareOp;
  is_notify : bool
}.

Definition rule_default : Rule := MkRule [] 0 0 [] None None None false.

Definition jump_cnt (rule : Rule) (jump_num : nat) : outcome SeccompError Z :=
  match arg_cnt rule with
  | None => Ok (uwrap 8 (Z.of_nat jump_num))
  | Some _ =>
      op ← unwrap (op rule);
      Ok (match op with
          | Equal | NotEqual | MaskedEqual => uwrap 8 (Z.of_nat jump_num + 4)
          | GreaterThan | GreaterOrEqual | LessThan | LessOrEqual =>
              uwrap 8 (Z.of_nat jump_num + 5)
          end)
  end.

Definition JEQ_K : Z := Z.lor BPF_JEQ BPF_K.
Definition JGT_K : Z := Z.lor BPF_JGT BPF_K.
Definition JGE_K : Z := Z.lor BPF_JGE BPF_K.
Definition JSET_K : Z := Z.lor BPF_JSET BPF_K.

(** The instructions for one comparison: [nr] is the system call number, [hi] and
    [lo] the halves of the value, [offset] the place of the argument. *)
Definition compare_code (op : SeccompCompareOp) (nr offset hi lo : Z) : list Instruction :=
  match op with
  | NotEqual => [
      jump JEQ_K 0 4 nr; stmt LD_ABS (offset + 4); jump JEQ_K 0 3 hi;
      stmt LD_ABS offset; jump JEQ_K 0 1 lo ]
  | LessThan => [
      jump JEQ_K 0 5 nr; stmt LD_ABS (offset + 4); jump JGE_K 0 4 hi; jump JEQ_K 0 2 hi;
      stmt LD_ABS offset; jump JGE_K 0 1 lo ]
  | LessOrEqual => [
      jump JEQ_K 0 5 nr; stmt LD_ABS (offset + 4); jump JGE_K 0 4 hi; jump JEQ_K 0 2 hi;
      stmt LD_ABS offset; jump JGT_K 0 1 lo ]
  | Equal => [
      jump JEQ_K 0 4 nr; stmt LD_ABS (offset + 4); jump JEQ_K 0 2 hi;
      stmt LD_ABS offset; jump JEQ_K 1 0 lo ]
  | GreaterOrEqual => [
      jump JEQ_K 0 5 nr; stmt LD_ABS (offset + 4); jump JGT_K 4 0 hi; jump JEQ_K 0 2 hi;
      stmt LD_ABS offset; jump JGE_K 1 0 lo ]
  | GreaterThan => [
      jump JEQ_K 0 5 nr; stmt LD_ABS (offset + 4); jump JGT_K 4 0 hi; jump JEQ_K 0 2 hi;
      stmt LD_ABS offset; jump JGE_K 1 0 lo ]
  | MaskedEqual => [
      jump JEQ_K 0 4 nr; stmt LD_ABS (offset + 4); jump JSET_K 3 0 hi;
      stmt LD_ABS offset; jump JSET_K 1 0 lo ]
  end.

Definition build_instruction_with_args (rule : Rule) (nr : Z) :
    outcome SeccompError (list Instruction) :=
  index ← unwrap (arg_cnt rule);
  offset ← seccomp_data_args_offset index;
  op ← unwrap (op rule);
  args ← unwrap (args rule);
  Ok (compare_code op (uwrap 32 nr) offset (uwrap 32 (Z.shiftr (arg0 args) 32))
        (uwrap 32 (arg0 args))).

Definition build_instruction (rule : Rule) (jump_num : nat) (nr : Z) :
    outcome SeccompError (list Instruction) :=
  if bool_decide (is_Some (arg_cnt rule)) && bool_decide (nr ∈ check_arg_syscall rule)
  then build_instruction_with_args rule nr
  else
    jt ← jump_cnt rule jump_num;
    Ok [jump JEQ_K jt 0 (uwrap 32 nr)].

(** ** The program *)

(** One chunk of system calls; what is left of the chunk gives the jump. *)
Fixpoint syscall_to_bpf_chunk (rule : Rule) (chunk : list Z) :
    outcome SeccompError (list Instruction) :=
  match chunk with
  | [] => Ok []
  | nr :: rest =>
      c ← build_instruction rule (length chunk) nr;
      bpf ← syscall_to_bpf_chunk rule rest;
      Ok (c ++ bpf)
  end.

(** [slice::chunks]; each chunk takes an element, so the length is enough fuel. *)
Fixpoint chunks_go {A} (fuel n : nat) (l : list A) : list (list A) :=
  match fuel, l with
  | S fuel, _ :: _ => take n l :: chunks_go fuel n (drop n l)
  | _, _ => []
  end.

Definition chunks {A} (n : nat) (l : list A) : list (list A) := chunks_go (length l) n l.

Fixpoint build_chunks (rule : Rule) (action : Z) (cs : list (list Z)) :
    outcome SeccompError (list Instruction) :=
  match cs with
  | [] => Ok []
  | c :: cs =>
      bpf ← syscall_to_bpf_chunk rule c;
      rest ← build_chunks rule action cs;
      Ok (bpf ++ (if bool_decide (cs = []) then [] else [stmt RET_K action]) ++ rest)
  end.

Definition build_syscall_section (rule : Rule) (action : Z) :
    outcome SeccompError (list Instruction) :=
  build_chunks rule action (chunks 254 (syscall rule)).

Record SeccompProgramPlan : Type := MkPlan {
  arc : Arch;
  def_action : Z;
  def_errno_ret : Z;
  flags : list Z;
  rule : Rule
}.

Definition plan_default : SeccompProgramPlan := MkPlan X86 0 0 [] rule_default.

(** [TryFrom<SeccompProgramPlan> for Vec<Instruction>] *)
Definition program_of_plan (inst_data : SeccompProgramPlan) :
    outcome SeccompError (list Instruction) :=
  bpf_prog ← build_syscall_section (rule inst_data) (action (rule inst_data));
  Ok (gen_validate (arc inst_data) (def_action inst_data) (length bpf_prog)
      ++ bpf_prog
      ++ [stmt RET_K (def_action inst_data); stmt RET_K (action (rule inst_data))]).

(** ** From the configuration to the plan *)

Inductive LinuxSeccompAction : Type :=
  | ScmpActKill | ScmpActTrap | ScmpActErrno | ScmpActTrace | ScmpActAllow
  | ScmpActKillProcess | ScmpActNotify | ScmpActLog | ScmpActKillThread.

Inductive LinuxSeccompOperator : Type :=
  ScmpCmpNe | ScmpCmpLt | ScmpCmpLe | ScmpCmpEq | ScmpCmpGe | ScmpCmpGt | ScmpCmpMaskedEq.

Inductive LinuxSeccompFilterFlag : Type :=
  FlagLog | FlagTsync | FlagSpecAllow | FlagWaitKillableRecv.

(** The two architectures that are supported, and the others. *)
Inductive OciSpecArch : Type := ScmpArchX86_64 | ScmpArchAarch64 | ScmpArchOther (n : nat).

#[global] Instance OciSpecArch_eq_dec : EqDecision OciSpecArch.
Proof. solve_decision. Defined.

Record LinuxSeccompArg : Type := MkSeccompArg {
  sa_index : Z; sa_value : Z; sa_value_two : option Z; sa_op : LinuxSeccompOperator }.

Record LinuxSyscall : Type := MkSyscall {
  sc_names : list string; sc_action : LinuxSeccompAction; sc_errno_ret : option Z;
  sc_args : option (list LinuxSeccompArg) }.

Record LinuxSeccomp : Type := MkSeccomp {
  default_action : LinuxSeccompAction; default_errno_ret : option Z;
  architectures : option (list OciSpecArch);
  seccomp_flags : option (list LinuxSeccompFilterFlag);
  syscalls : option (list LinuxSyscall) }.

#[global] Instance LinuxSeccompAction_eq_dec : EqDecision LinuxSeccompAction.
Proof. solve_decision. Defined.

(** [From<SeccompActionWrapper> for u32] *)
Definition action_u32 (a : LinuxSeccompAction) : Z :=
  match a with
  | ScmpActKill => SECCOMP_RET_KILL_THREAD
  | ScmpActTrap => SECCOMP_RET_TRAP
  | ScmpActErrno => SECCOMP_RET_ERRNO
  | ScmpActTrace => SECCOMP_RET_TRACE
  | ScmpActAllow => SECCOMP_RET_ALLOW
  | ScmpActKillProcess => SECCOMP_RET_KILL_PROCESS
  | ScmpActNotify => SECCOMP_RET_USER_NOTIF
  | ScmpActLog => SECCOMP_RET_LOG
  | ScmpActKillThread => SECCOMP_RET_KILL_THREAD
  end.

(** [From<LinuxSeccompOperator> for SeccompCompareOp] *)
Definition compare_op (o : LinuxSeccompOperator) : SeccompCompareOp :=
  match o with
  | ScmpCmpNe => NotEqual
  | ScmpCmpLt => LessThan
  | ScmpCmpLe => LessOrEqual
  | ScmpCmpEq => Equal
  | ScmpCmpGe => GreaterOrEqual
  | ScmpCmpGt => GreaterThan
  | ScmpCmpMaskedEq => MaskedEqual
  end.

Definition check_seccomp (seccomp : LinuxSeccomp) : outcome SeccompError () :=
  if bool_decide (default_action seccomp = ScmpActNotify) then Err InvalidDefaultAction
  else
    match syscalls seccomp with
    | None => Ok ()
    | Some l =>
        for_each (λ sc _,
          if bool_decide (sc_action sc = ScmpActNotify)
          then for_each (λ name _, if bool_decide (name = "write") then Err InvalidSystemCall
                                   else Ok ()) (sc_names sc) ()
          else Ok ()) l ()
    end.

Definition flag_bits (f : LinuxSeccompFilterFlag) : Z :=
  match f with
  | FlagLog => 2
  | FlagTsync => 1
  | FlagSpecAllow => 4
  | FlagWaitKillableRecv => 32
  end.

Section plan.
(** [LinuxSeccompAction::as_u32] of the [oci_spec] crate, and the tables of the
    [syscalls] crate. *)
Context (as_u32 : LinuxSeccompAction → Z → Z) (sysno : Arch → string → option Z).

Definition get_syscall_number (arc : Arch) (name : string) : option Z := sysno arc name.

(** The comparison of an argument; each replaces the one before. *)
Definition set_arg (r : Rule) (a : LinuxSeccompArg) : Rule :=
  MkRule (syscall r) (action r) (errno_ret r) (check_arg_syscall r)
    (Some (uwrap 8 (sa_index a)))
    (Some (match sa_value_two a with
           | Some two => MkArgs (sa_value a) two 0 0 0 0
           | None => MkArgs (sa_value a) 0 0 0 0 0
           end))
    (Some (compare_op (sa_op a))) (is_notify r).

Definition add_name (arc : Arch) (sc : LinuxSyscall) (name : string) (r : Rule) :
    outcome SeccompError Rule :=
  nr ← unwrap (get_syscall_number arc name);
  let r := MkRule (syscall r ++ [nr]) (action r) (errno_ret r) (check_arg_syscall r)
             (arg_cnt r) (args r) (op r) (is_notify r) in
  match sc_args sc with
  | None => Ok r
  | Some args_ =>
      if (6 <? length (option_list (sc_args sc)))%nat then Err InvalidArgumentSize
      else
        nr ← unwrap (get_syscall_number arc name);
        let r := MkRule (syscall r) (action r) (errno_ret r) (check_arg_syscall r ++ [nr])
                   (arg_cnt r) (args r) (op r) (is_notify r) in
        Ok (foldl set_arg r args_)
  end.

Definition add_syscall (arc : Arch) (sc : LinuxSyscall) (r : Rule) : outcome SeccompError Rule :=
  let notify := action r =? SECCOMP_RET_USER_NOTIF in
  let act :=
    if bool_decide (sc_action sc = ScmpActErrno)
    then from_option (as_u32 (sc_action sc)) (action r) (sc_errno_ret sc)
    else action_u32 (sc_action sc) in
  let r := MkRule (syscall r) act (errno_ret r) (check_arg_syscall r) (arg_cnt r) (args r)
             (op r) notify in
  r ← for_each (add_name arc sc) (sc_names sc) r;
  Ok (MkRule (merge_sort Z.le (syscall r)) (action r) (errno_ret r) (check_arg_syscall r)
        (arg_cnt r) (args r) (op r) (is_notify r)).

Definition plan_arch (archs : option (list OciSpecArch)) : Arch :=
  foldl (λ arc a, match a with
                  | ScmpArchX86_64 => X86
                  | ScmpArchAarch64 => AArch64
                  | ScmpArchOther _ => arc
                  end) X86 (default [] archs).

(** [TryFrom<LinuxSeccomp> for SeccompProgramPlan] *)
Definition plan_of_seccomp (seccomp : LinuxSeccomp) : outcome SeccompError SeccompProgramPlan :=
  _ ← check_seccomp seccomp;
  let def :=
    if bool_decide (default_action seccomp = ScmpActErrno)
    then from_option (as_u32 (default_action seccomp)) 0 (default_errno_ret seccomp)
    else action_u32 (default_action seccomp) in
  let fl := flag_bits <$> default [] (seccomp_flags seccomp) in
  let arc := plan_arch (architectures seccomp) in
  r ← for_each (add_syscall arc) (default [] (syscalls seccomp)) rule_default;
  Ok (MkPlan arc def 0 fl r).
End plan.

(** ** The machine *)

Record SeccompData : Type := MkData {
  nr : Z; d_arch : Z; instruction_pointer : Z; d_args : list Z }.

Definition data_wf (d : SeccompData) : Prop :=
  in_u 32 (nr d) ∧ in_u 32 (d_arch d) ∧ length (d_args d) = 6%nat ∧ Forall (in_u 64) (d_args d).

(** The 32-bit word at an offset of the structure, on a little-endian machine. *)
Definition word_at (d : SeccompData) (k : Z) : option Z :=
  if k =? 0 then Some (nr d)
  else if k =? 4 then Some (d_arch d)
  else if k =? 8 then Some (uwrap 32 (instruction_pointer d))
  else if k =? 12 then Some (Z.shiftr (instruction_pointer d) 32)
  else if (16 <=? k) && (k mod 4 =? 0) then
    (λ a, if k mod 8 =? 0 then uwrap 32 a else Z.shiftr a 32)
      <$> (d_args d !! Z.to_nat ((k - 16) / 8))
  else None.

(** What the kernel checks when a filter is installed: jumps stay inside the
    program, loads inside the data, and the program ends with a return. *)
Definition insn_ok (i : Instruction) (left : nat) : bool :=
  if Z.land (code i) 7 =? BPF_JMP then
    (offset_jump_true i <? Z.of_nat left) && (offset_jump_false i <? Z.of_nat left)
    && (0 <=? offset_jump_true i) && (0 <=? offset_jump_false i)
  else if code i =? LD_ABS then
    (0 <=? multiuse_field i) && (multiuse_field i <? 64) && (multiuse_field i mod 4 =? 0)
  else code i =? RET_K.

Fixpoint insns_ok (p : list Instruction) : bool :=
  match p with
  | [] => true
  | i :: p => insn_ok i (length p) && insns_ok p
  end.

Definition checked (p : list Instruction) : bool :=
  (length p <=? 4096)%nat && insns_ok p
  && match last p with Some i => code i =? RET_K | None => false end.

(** [cbpf_from p a d] is the result of running [p], the instructions that are
    left, with [a] in the accumulator. *)
Class CbpfVm : Type := {
  seccomp_run : list Instruction → SeccompData → option Z;
  cbpf_from : list Instruction → Z → SeccompData → option Z
}.

Class CbpfVmLaws `{CbpfVm} : Prop := {
  run_start p d : checked p = true → seccomp_run p d = cbpf_from p 0 d;
  run_ld k p a d v : word_at d k = Some v → cbpf_from (stmt LD_ABS k :: p) a d = cbpf_from p v d;
  run_jeq jt jf k p a d : cbpf_from (jump JEQ_K jt jf k :: p) a d
    = cbpf_from (drop (Z.to_nat (if a =? k then jt else jf)) p) a d;
  run_jgt jt jf k p a d : cbpf_from (jump JGT_K jt jf k :: p) a d
    = cbpf_from (drop (Z.to_nat (if k <? a then jt else jf)) p) a d;
  run_jge jt jf k p a d : cbpf_from (jump JGE_K jt jf k :: p) a d
    = cbpf_from (drop (Z.to_nat (if k <=? a then jt else jf)) p) a d;
  run_jset jt jf k p a d : cbpf_from (jump JSET_K jt jf k :: p) a d
    = cbpf_from (drop (Z.to_nat (if negb (Z.land a k =? 0) then jt else jf)) p) a d;
  run_ret k p a d : cbpf_from (stmt RET_K k :: p) a d = Some k
}.

(** An executable machine; every instruction shortens the program. *)
Fixpoint interp_go (fuel : nat) (p : list Instruction) (a : Z) (d : SeccompData) : option Z :=
  match fuel, p with
  | S fuel, i :: p =>
      let branch (b : bool) :=
        interp_go fuel
          (drop (Z.to_nat (if b then offset_jump_true i else offset_jump_false i)) p) a d in
      let k := multiuse_field i in
      if code i =? LD_ABS then v ← word_at d k; interp_go fuel p v d
      else if code i =? RET_K then Some k
      else if code i =? Z.lor BPF_JMP JEQ_K then branch (a =? k)
      else if code i =? Z.lor BPF_JMP JGT_K then branch (k <? a)
      else if code i =? Z.lor BPF_JMP JGE_K then branch (k <=? a)
      else if code i =? Z.lor BPF_JMP JSET_K then branch (negb (Z.land a k =? 0))
      else None
  | _, _ => None
  end.

#[export] Instance interp_cbpf : CbpfVm := {
  seccomp_run p d := if checked p then interp_go (length p) p 0 d else None;
  cbpf_from p a d := interp_go (length p) p a d
}.

Lemma interp_go_fuel n p a d :
  (length p ≤ n)%nat → interp_go n p a d = interp_go (length p) p a d.
Proof.
  revert p a d. induction n as [n IH] using lt_wf_ind; intros [|i p] a d Hn.
  { by destruct n. }
  destruct n as [|n]; cbn in Hn; [lia|]. cbn [interp_go length].
  assert (∀ q b, (length q ≤ length p)%nat → interp_go n q b d = interp_go (length p) q b d) as Hq.
  { intros q b Hq. rewrite (IH n) by lia. symmetry.
    destruct (decide (length p = n)) as [->|]; [by apply IH; lia|]. apply IH; lia. }
  destruct (code i =? LD_ABS); [destruct (word_at d _); cbn; [by apply Hq|done]|].
  repeat (case_match; [first [done|apply Hq; rewrite length_drop; lia]|]). done.
Qed.

#[export] Instance interp_cbpf_laws : CbpfVmLaws.
Proof.
  assert (∀ n (p : list Instruction) a d,
    interp_go (length p) (drop n p) a d = interp_go (length (drop n p)) (drop n p) a d) as Hd.
  { intros. apply interp_go_fuel. rewrite length_drop. lia. }
  split; intros; cbn [seccomp_run cbpf_from interp_cbpf length interp_go]; try apply Hd; try done.
  - by case_match.
  - match goal with Hw : word_at _ _ = _ |- _ =>
      change (multiuse_field (stmt LD_ABS k)) with k; rewrite Hw end. done.
Qed.

(** ** Running the parts of a program *)

(** Take a jump whose distance is a literal. *)
Ltac take_jump :=
  repeat match goal with
  | |- context [drop (Z.to_nat ?z) ?l] =>
      let n := eval vm_compute in (Z.to_nat z) in
      change (drop (Z.to_nat z) l) with (drop n l); cbn [drop]; rewrite ?drop_0
  end.

Section run.
Context `{CbpfVm, !CbpfVmLaws}.

(** A chunk without argument checks: the jump of a match goes over the one
    instruction that follows the chunk. *)
Fixpoint plain_chunk (l : list Z) : list Instruction :=
  match l with
  | [] => []
  | x :: l' => jump JEQ_K (Z.of_nat (length l)) 0 x :: plain_chunk l'
  end.

Lemma length_plain_chunk l : length (plain_chunk l) = length l.
Proof. induction l as [|x l IH]; cbn; [done|]. by rewrite IH. Qed.

Lemma chunk_plain r l :
  arg_cnt r = None → Forall (in_u 32) l → (length l ≤ 255)%nat →
  syscall_to_bpf_chunk r l = Ok (plain_chunk l).
Proof.
  intros Hr Hl. induction Hl as [|x l Hx Hl IH]; intros Hlen; [done|].
  cbn [syscall_to_bpf_chunk plain_chunk]. cbn [length] in Hlen.
  unfold build_instruction, jump_cnt. rewrite Hr.
  rewrite bool_decide_eq_false_2 by (by intros [? ?]). cbn [andb]. run.
  rewrite IH by lia. run. unfold uwrap. rewrite (Z.mod_small x) by apply Hx.
  rewrite Z.mod_small by (cbn [length]; lia). done.
Qed.

Lemma run_plain_chunk l i post a d :
  cbpf_from (plain_chunk l ++ i :: post) a d
  = if bool_decide (a ∈ l) then cbpf_from post a d else cbpf_from (i :: post) a d.
Proof.
  induction l as [|x l IH]; [done|]. cbn [plain_chunk app].
  rewrite run_jeq. destruct (Z.eqb_spec a x) as [->|Hne].
  - rewrite bool_decide_eq_true_2 by set_solver. f_equal.
    rewrite Nat2Z.id. cbn [length].
    rewrite drop_app_ge by (rewrite length_plain_chunk; lia).
    rewrite length_plain_chunk. by replace (S (length l) - length l)%nat with 1%nat by lia.
  - change (Z.to_nat 0) with 0%nat. rewrite drop_0, IH.
    by rewrite (bool_decide_ext (a ∈ x :: l) (a ∈ l)) by set_solver.
Qed.

(** The checks before the rules, for an architecture that is the expected one. *)
Lemma run_validate_same arc def n rest d :
  d_arch d = arch_id arc →
  cbpf_from (gen_validate arc def n ++ rest) 0 d
  = if X32_SYSCALL_BIT <=? nr d then Some (Z.lor SECCOMP_RET_ERRNO ENOSYS)
    else cbpf_from rest (nr d) d.
Proof.
  intros Ha. unfold gen_validate.
  change (Z.lor (Z.lor BPF_JMP BPF_JEQ) BPF_K) with (Z.lor BPF_JMP JEQ_K).
  change (Z.lor (Z.lor BPF_JMP BPF_JGE) BPF_K) with (Z.lor BPF_JMP JGE_K).
  destruct (_ <=? BPF_JMP_MAX); cbn [app];
    rewrite (run_ld _ _ _ _ (d_arch d)) by done;
    change (jump (Z.lor BPF_JMP JEQ_K)) with (jump JEQ_K);
    change (jump (Z.lor BPF_JMP JGE_K)) with (jump JGE_K);
    rewrite run_jeq, Ha, Z.eqb_refl; take_jump;
    rewrite (run_ld _ _ _ _ (nr d)) by done; rewrite run_jge;
    destruct (X32_SYSCALL_BIT <=? nr d); take_jump; try apply run_ret; done.
Qed.

(** For another architecture, as long as the distance to the default action fits
    a byte; otherwise it wraps around. *)
Lemma run_validate_other arc def n rest d :
  d_arch d ≠ arch_id arc → Z.of_nat n ≤ BPF_JMP_MAX →
  cbpf_from (gen_validate arc def n ++ rest) 0 d
  = cbpf_from (drop (Z.to_nat (uwrap 8 (Z.of_nat n + 3)))
      (stmt LD_ABS seccomp_data_nr_offset :: jump JGE_K 0 1 X32_SYSCALL_BIT
       :: stmt RET_K (Z.lor SECCOMP_RET_ERRNO ENOSYS) :: rest)) (d_arch d) d.
Proof.
  intros Ha Hn. unfold gen_validate. destruct (Z.leb_spec (Z.of_nat n) BPF_JMP_MAX); [|lia].
  cbn [app]. rewrite (run_ld _ _ _ _ (d_arch d)) by done.
  change (jump (Z.lor (Z.lor BPF_JMP BPF_JEQ) BPF_K)) with (jump JEQ_K).
  change (jump (Z.lor (Z.lor BPF_JMP BPF_JGE) BPF_K)) with (jump JGE_K).
  rewrite run_jeq. by destruct (Z.eqb_spec (d_arch d) (arch_id arc)).
Qed.

Lemma run_validate_far arc def n rest d :
  d_arch d ≠ arch_id arc → BPF_JMP_MAX < Z.of_nat n →
  cbpf_from (gen_validate arc def n ++ rest) 0 d = Some def.
Proof.
  intros Ha Hn. unfold gen_validate. destruct (Z.leb_spec (Z.of_nat n) BPF_JMP_MAX); [lia|].
  cbn [app]. rewrite (run_ld _ _ _ _ (d_arch d)) by done.
  change (jump (Z.lor (Z.lor BPF_JMP BPF_JEQ) BPF_K)) with (jump JEQ_K).
  rewrite run_jeq. destruct (Z.eqb_spec (d_arch d) (arch_id arc)); [done|]. take_jump.
  apply run_ret.
Qed.
End run.

(** ** Programs that the kernel accepts *)

(** [insns_ok] with [n] instructions behind. *)
Fixpoint insns_ok_before (n : nat) (p : list Instruction) : bool :=
  match p with
  | [] => true
  | i :: p => insn_ok i (length p + n) && insns_ok_before n p
  end.

Lemma filter_insns_ok_app p q : insns_ok (p ++ q) = insns_ok_before (length q) p && insns_ok q.
Proof.
  induction p as [|i p IH]; cbn; [done|]. by rewrite length_app, IH, andb_assoc.
Qed.

Lemma insn_ok_jump c jt jf k n :
  c ∈ [JEQ_K; JGT_K; JGE_K; JSET_K] → 0 ≤ jt < Z.of_nat n → 0 ≤ jf < Z.of_nat n →
  insn_ok (jump c jt jf k) n = true.
Proof.
  intros Hc ??. unfold insn_ok.
  assert ((Z.land (code (jump c jt jf k)) 7 =? BPF_JMP) = true) as ->.
  { by decompose_list_elem_of; subst. }
  cbn [jump offset_jump_true offset_jump_false]. lia.
Qed.

Lemma insn_ok_ld k n : 0 ≤ k < 64 → k mod 4 = 0 → insn_ok (stmt LD_ABS k) n = true.
Proof.
  intros Hk Hm. unfold insn_ok. cbn [stmt code multiuse_field].
  change (Z.land LD_ABS 7 =? BPF_JMP) with false. change (LD_ABS =? LD_ABS) with true.
  cbv iota. rewrite Hm. cbn [Z.eqb]. lia.
Qed.

Lemma plain_chunk_ok n l : (2 ≤ n)%nat → insns_ok_before n (plain_chunk l) = true.
Proof.
  intros Hn. induction l as [|x l IH]; [done|]. cbn [plain_chunk insns_ok_before].
  rewrite insn_ok_jump, IH; [done|set_solver| |]; rewrite length_plain_chunk; cbn [length]; lia.
Qed.

Lemma validate_ok n arc def k : (2 ≤ n)%nat → (k + 2 ≤ n)%nat →
  insns_ok_before n (gen_validate arc def k) = true.
Proof.
  intros Hn Hk. unfold gen_validate.
  change (jump (Z.lor (Z.lor BPF_JMP BPF_JEQ) BPF_K)) with (jump JEQ_K).
  change (jump (Z.lor (Z.lor BPF_JMP BPF_JGE) BPF_K)) with (jump JGE_K).
  destruct (_ <=? _); cbn [insns_ok_before length];
    rewrite !insn_ok_jump; try set_solver; try lia; try done.
  unfold uwrap. pose proof (Z.mod_pos_bound (Z.of_nat k + 3) (2 ^ 8)).
  pose proof (Z.mod_le (Z.of_nat k + 3) (2 ^ 8)). lia.
Qed.

Lemma last_ret p q k : last (p ++ q ++ [stmt RET_K k]) = Some (stmt RET_K k).
Proof. by rewrite app_assoc, last_snoc. Qed.

(** ** What a rule asks for *)

(** The verdict for a rule without argument checks. *)
Definition rule_policy (arc : Arch) (def act : Z) (l : list Z) (d : SeccompData) : Z :=
  if negb (d_arch d =? arch_id arc) then def
  else if X32_SYSCALL_BIT <=? nr d then Z.lor SECCOMP_RET_ERRNO ENOSYS
  else if bool_decide (nr d ∈ l) then act else def.

Lemma section_plain r a :
  arg_cnt r = None → Forall (in_u 32) (syscall r) → (length (syscall r) ≤ 254)%nat →
  build_syscall_section r a = Ok (plain_chunk (syscall r)).
Proof.
  intros Hr Hl Hlen. unfold build_syscall_section, chunks.
  destruct (syscall r) as [|x l] eqn:Hs; [done|].
  cbn [length chunks_go]. rewrite (take_ge (x :: l)), (drop_ge (x :: l)) by done.
  assert (chunks_go (length l) 254 ([] : list Z) = []) as -> by (by destruct (length l)).
  cbn [build_chunks]. rewrite chunk_plain by (done || lia). run.
  rewrite bool_decide_eq_true_2 by done. by rewrite !app_nil_r.
Qed.

Lemma length_validate a def n : (length (gen_validate a def n) ≤ 6)%nat.
Proof. unfold gen_validate. case_match; cbn; lia. Qed.

Section programs.
Context `{CbpfVm, !CbpfVmLaws}.
Variable plan : SeccompProgramPlan.
Let l : list Z := syscall (rule plan).
Let act : Z := action (rule plan).
Hypothesis Hargs : arg_cnt (rule plan) = None.
Hypothesis Hrange : Forall (in_u 32) l.

Lemma program_plain :
  (length l ≤ 254)%nat →
  program_of_plan plan = Ok (gen_validate (arc plan) (def_action plan) (length l)
    ++ plain_chunk l ++ [stmt RET_K (def_action plan); stmt RET_K act]).
Proof.
  intros Hlen. unfold program_of_plan. rewrite section_plain by done. run.
  by rewrite length_plain_chunk.
Qed.

Lemma program_plain_checked :
  (length l ≤ 254)%nat →
  checked (gen_validate (arc plan) (def_action plan) (length l)
    ++ plain_chunk l ++ [stmt RET_K (def_action plan); stmt RET_K act]) = true.
Proof.
  intros Hlen. unfold checked. rewrite !filter_insns_ok_app, !length_app, length_plain_chunk. cbn [length].
  rewrite validate_ok, plain_chunk_ok by lia.
  change [stmt RET_K (def_action plan); stmt RET_K act]
    with ([stmt RET_K (def_action plan)] ++ [stmt RET_K act]).
  rewrite (app_assoc (plain_chunk l)), last_ret.
  pose proof (length_validate (arc plan) (def_action plan) (length l)).
  rewrite (proj2 (Nat.leb_le _ _)) by lia. reflexivity.
Qed.

(** Calls of the expected architecture, for up to 254 system calls. *)
Lemma run_program_same p d :
  (length l ≤ 254)%nat → program_of_plan plan = Ok p → d_arch d = arch_id (arc plan) →
  seccomp_run p d = Some (rule_policy (arc plan) (def_action plan) act l d).
Proof.
  intros Hlen Hp Ha. rewrite program_plain in Hp by done. injection Hp as <-.
  rewrite run_start by (by apply program_plain_checked).
  rewrite run_validate_same by done. unfold rule_policy. rewrite Ha, Z.eqb_refl. cbn [negb].
  case_match; [done|]. rewrite run_plain_chunk, !run_ret. by case_match.
Qed.
End programs.

(** The filter of a rule that lists up to 252 system calls and checks no
    arguments.  A program is generated and accepted by the kernel; a call of
    another architecture gets the default action, a call of the x32 ABI fails
    with [ENOSYS], a listed call gets the action of the rule, and every other
    call the default action. *)
Lemma filter_implements_rule `{CbpfVm, !CbpfVmLaws} plan :
  arg_cnt (rule plan) = None → Forall (in_u 32) (syscall (rule plan)) →
  (length (syscall (rule plan)) ≤ 252)%nat →
  ∃ p, program_of_plan plan = Ok p ∧ checked p = true ∧
    ∀ d, seccomp_run p d
         = Some (rule_policy (arc plan) (def_action plan) (action (rule plan))
                   (syscall (rule plan)) d).
Proof.
  intros Hargs Hrange Hlen. eexists. split; [apply program_plain; (done || lia)|].
  split; [apply program_plain_checked; lia|]. intros d.
  destruct (Z.eqb_spec (d_arch d) (arch_id (arc plan))) as [Ha|Ha].
  { eapply run_program_same; [done..|lia| |done]. apply program_plain; (done || lia). }
  rewrite run_start by (apply program_plain_checked; lia).
  rewrite run_validate_other by (done || unfold BPF_JMP_MAX; lia).
  unfold rule_policy, uwrap. rewrite Z.mod_small by lia.
  apply Z.eqb_neq in Ha. rewrite Ha. cbn [negb].
  replace (Z.to_nat (Z.of_nat (length (syscall (rule plan))) + 3))
    with (S (S (S (length (syscall (rule plan)))))) by lia.
  cbn [drop]. rewrite drop_app_ge by (rewrite length_plain_chunk; lia).
  rewrite length_plain_chunk, Nat.sub_diag. apply run_ret.
Qed.

Definition example_rule (l : list Z) : Rule :=
  MkRule l SECCOMP_RET_ALLOW 0 [] None None None false.

Definition example_plan (l : list Z) : SeccompProgramPlan :=
  MkPlan X86 SECCOMP_RET_KILL_PROCESS 0 [] (example_rule l).

(** ** Long rules *)

Lemma chunks_go_nil {A} fuel n : chunks_go fuel n ([] : list A) = [].
Proof. by destruct fuel. Qed.

Lemma chunks_go_Forall {A} fuel n (l : list A) :
  Forall (λ c, (length c ≤ n)%nat) (chunks_go fuel n l).
Proof.
  revert l. induction fuel as [|fuel IH]; intros [|x l]; cbn; [constructor..|].
  constructor; [apply firstn_le_length|apply IH].
Qed.

Lemma chunks_go_all {A} (P : A → Prop) fuel n (l : list A) :
  Forall P l → Forall (Forall P) (chunks_go fuel n l).
Proof.
  revert l. induction fuel as [|fuel IH]; intros [|x l] Hl; cbn; [constructor..|].
  constructor; [by apply Forall_take|]. by apply IH, Forall_drop.
Qed.

Lemma chunks_go_sum {A} fuel n (l : list A) :
  (0 < n)%nat → (sum_list_with (λ c, S (length c)) (chunks_go fuel n l) ≤ 2 * length l)%nat.
Proof.
  intros Hn. revert l. induction fuel as [|fuel IH]; intros [|x l]; cbn [chunks_go sum_list_with];
    [cbn; lia..|].
  specialize (IH (drop n (x :: l))). rewrite length_drop in IH. rewrite length_take.
  cbn [length] in *. lia.
Qed.

(** The code of several chunks, with a return between them. *)
Fixpoint plain_chunks (act : Z) (cs : list (list Z)) : list Instruction :=
  match cs with
  | [] => []
  | c :: cs =>
      plain_chunk c ++ (if bool_decide (cs = []) then [] else [stmt RET_K act])
      ++ plain_chunks act cs
  end.

Lemma build_chunks_plain r act cs :
  arg_cnt r = None → Forall (λ c, (length c ≤ 254)%nat ∧ Forall (in_u 32) c) cs →
  build_chunks r act cs = Ok (plain_chunks act cs).
Proof.
  intros Hr Hcs. induction Hcs as [|c cs [Hc Hr'] Hcs IH]; [done|]. cbn [build_chunks].
  rewrite chunk_plain by (done || lia). run. rewrite IH. done.
Qed.

Lemma plain_chunks_ok n act cs : (2 ≤ n)%nat → insns_ok_before n (plain_chunks act cs) = true.
Proof.
  intros Hn. induction cs as [|c cs IH]; [done|]. cbn [plain_chunks].
  assert (∀ p q, insns_ok_before n (p ++ q)
                 = insns_ok_before (length q + n) p && insns_ok_before n q) as Happ.
  { intros p q. induction p as [|i p IHp]; cbn; [done|].
    by rewrite length_app, IHp, <- andb_assoc, Nat.add_assoc. }
  rewrite !Happ, plain_chunk_ok, IH by lia. by case_match.
Qed.

Lemma length_plain_chunks act cs :
  (length (plain_chunks act cs) ≤ sum_list_with (λ c, S (length c)) cs)%nat.
Proof.
  induction cs as [|c cs IH]; cbn [plain_chunks sum_list_with length]; [lia|].
  rewrite !length_app, length_plain_chunk. case_match; cbn [length]; lia.
Qed.

(** With 253 system calls, the distance from the architecture check to the default
    action wraps around. *)
Lemma wrapped_arch_check `{CbpfVm, !CbpfVmLaws} plan p d :
  arg_cnt (rule plan) = None → Forall (in_u 32) (syscall (rule plan)) →
  length (syscall (rule plan)) = 253%nat → program_of_plan plan = Ok p →
  nr d < X32_SYSCALL_BIT → nr d ∈ syscall (rule plan) →
  seccomp_run p d = Some (action (rule plan)).
Proof.
  intros Hargs Hrange Hlen Hp Hx Hin.
  rewrite (program_plain plan Hargs Hrange) in Hp by lia. injection Hp as <-.
  rewrite run_start by (apply program_plain_checked; lia).
  assert (∀ q, q = stmt LD_ABS seccomp_data_nr_offset :: jump JGE_K 0 1 X32_SYSCALL_BIT
         :: stmt RET_K (Z.lor SECCOMP_RET_ERRNO ENOSYS)
         :: plain_chunk (syscall (rule plan)) ++ [stmt RET_K (def_action plan);
                                                   stmt RET_K (action (rule plan))] →
       ∀ a, cbpf_from q a d = Some (action (rule plan))) as Hrest.
  { intros q -> a. rewrite (run_ld _ _ _ _ (nr d)) by done. rewrite run_jge.
    destruct (Z.leb_spec X32_SYSCALL_BIT (nr d)); [lia|]. take_jump.
    rewrite run_plain_chunk, bool_decide_eq_true_2 by done. apply run_ret. }
  destruct (Z.eqb_spec (d_arch d) (arch_id (arc plan))) as [Ha|Ha].
  - rewrite run_validate_same by done. destruct (Z.leb_spec X32_SYSCALL_BIT (nr d)); [lia|].
    rewrite run_plain_chunk, bool_decide_eq_true_2 by done. apply run_ret.
  - rewrite run_validate_other by (done || unfold BPF_JMP_MAX; lia). apply Hrest.
    rewrite Hlen. change (Z.to_nat (uwrap 8 (Z.of_nat 253 + 3))) with 0%nat. apply drop_0.
Qed.

(** The program of a rule with more than 254 system calls. *)
Lemma program_long plan :
  arg_cnt (rule plan) = None → Forall (in_u 32) (syscall (rule plan)) →
  (254 < length (syscall (rule plan)) ≤ 2000)%nat →
  let act := action (rule plan) in
  ∃ n rest, program_of_plan plan = Ok (gen_validate (arc plan) (def_action plan) n
      ++ plain_chunk (take 254 (syscall (rule plan))) ++ stmt RET_K act :: rest) ∧
    checked (gen_validate (arc plan) (def_action plan) n
      ++ plain_chunk (take 254 (syscall (rule plan))) ++ stmt RET_K act :: rest) = true.
Proof.
  intros Hargs Hrange Hlen act. set (l := syscall (rule plan)) in *.
  set (cs := chunks 254 l). set (q := plain_chunks act cs).
  assert (build_syscall_section (rule plan) act = Ok q) as Hsec.
  { apply build_chunks_plain; [done|]. apply Forall_and. split; [apply chunks_go_Forall|].
    by apply chunks_go_all. }
  assert (∃ rest, q = plain_chunk (take 254 l) ++ stmt RET_K act :: rest) as [rest Hq].
  { unfold q, cs, chunks. destruct l as [|x l']; [cbn in Hlen; lia|].
    cbn [length chunks_go plain_chunks].
    destruct (chunks_go (length l') 254 (drop 254 (x :: l'))) eqn:Hc.
    - destruct l' as [|y l'']; [cbn in Hlen; lia|]. cbn [length chunks_go] in Hc.
      assert (length (drop 254 (x :: y :: l'')) ≠ 0%nat) by (rewrite length_drop; lia).
      by destruct (drop 254 (x :: y :: l'')).
    - rewrite bool_decide_eq_false_2 by done. eexists. reflexivity. }
  exists (length q), (rest ++ [stmt RET_K (def_action plan); stmt RET_K act]).
  assert (plain_chunk (take 254 l) ++ stmt RET_K act :: rest
            ++ [stmt RET_K (def_action plan); stmt RET_K act]
          = q ++ [stmt RET_K (def_action plan); stmt RET_K act]) as Heq
    by (rewrite Hq, <- app_assoc; done).
  rewrite Heq. split; [unfold program_of_plan; fold act; rewrite Hsec; done|].
  unfold checked. rewrite !filter_insns_ok_app, !length_app. cbn [length].
  rewrite validate_ok by lia. unfold q at 3. rewrite plain_chunks_ok by lia.
  change [stmt RET_K (def_action plan); stmt RET_K act]
    with ([stmt RET_K (def_action plan)] ++ [stmt RET_K act]).
  rewrite (app_assoc q), last_ret.
  pose proof (length_validate (arc plan) (def_action plan) (length q)).
  assert (length q ≤ 2 * length l)%nat.
  { etrans; [apply length_plain_chunks|]. apply chunks_go_sum. lia. }
  rewrite (proj2 (Nat.leb_le _ _)) by lia. reflexivity.
Qed.

(** Two defects of the generator for long rules.  With 253 system calls the
    distance of the architecture check wraps around to zero, and a listed number
    gets the action of the rule in whatever architecture the call is made.  With
    more than 254 system calls the return between two chunks is reached by the
    calls that the first chunk does not list: every call outside the first 254
    gets the action of the rule, listed or not. *)
Theorem long_rule_defects `{CbpfVm, !CbpfVmLaws} plan :
  let l := syscall (rule plan) in
  arg_cnt (rule plan) = None → Forall (in_u 32) l →
  (length l = 253 ∨ 254 < length l ≤ 2000)%nat →
  ∃ p, program_of_plan plan = Ok p ∧ checked p = true ∧
    ∀ d, nr d < X32_SYSCALL_BIT →
      (length l = 253%nat → nr d ∈ l → seccomp_run p d = Some (action (rule plan))) ∧
      ((254 < length l)%nat → d_arch d = arch_id (arc plan) → nr d ∉ take 254 l →
       seccomp_run p d = Some (action (rule plan))).
Proof.
  intros l Hargs Hrange [Hlen|Hlen].
  - eexists. split; [apply program_plain; (done || unfold l in *; lia)|].
    split; [apply program_plain_checked; unfold l in *; lia|]. intros d Hx.
    split; [|unfold l in *; lia]. intros _ Hin.
    eapply wrapped_arch_check; try done. apply program_plain; (done || unfold l in *; lia).
  - destruct (program_long plan Hargs Hrange Hlen) as (n & rest & Hp & Hc).
    eexists. split; [exact Hp|]. split; [exact Hc|]. intros d Hx.
    split; [unfold l in *; lia|]. intros _ Ha Hin.
    rewrite run_start, run_validate_same by done.
    destruct (Z.leb_spec X32_SYSCALL_BIT (nr d)); [lia|].
    rewrite run_plain_chunk, bool_decide_eq_false_2 by done. apply run_ret.
Qed.

(** An unlisted call, 400, is allowed by a rule for the calls 0 to 299. *)
Lemma long_rule_defects_witness :
  ∃ p, program_of_plan (example_plan (seqZ 0 300)) = Ok p ∧ checked p = true ∧
    seccomp_run p (MkData 400 AUDIT_ARCH_X86_64 0 []) = Some SECCOMP_RET_ALLOW.
Proof.
  destruct (long_rule_defects (example_plan (seqZ 0 300))) as (p & Hp & Hc & Hd).
  - reflexivity.
  - cbn [example_plan example_rule rule syscall]. apply Forall_forall. intros x Hx.
    apply elem_of_seqZ in Hx. unfold in_u. lia.
  - right. cbn [example_plan example_rule rule syscall]. rewrite length_seqZ. lia.
  - exists p. split; [done|]. split; [done|]. apply (Hd (MkData 400 AUDIT_ARCH_X86_64 0 [])).
    + done.
    + cbn [example_plan example_rule rule syscall]. rewrite length_seqZ. lia.
    + done.
    + cbn [example_plan example_rule rule syscall nr]. intros Hx.
      apply elem_of_take in Hx as (i & Hi & _). apply lookup_seqZ in Hi. lia.
Defined.

(** ** Argument checks *)

(** What the generated comparison computes, on the halves of argument and value. *)
Definition halves_cmp (op : SeccompCompareOp) (ahi alo hi lo : Z) : bool :=
  match op with
  | NotEqual => negb ((ahi =? hi) && (alo =? lo))
  | LessThan => (ahi <? hi) || ((ahi =? hi) && (alo <? lo))
  | LessOrEqual => (ahi <? hi) || ((ahi =? hi) && (alo <=? lo))
  | Equal => (ahi =? hi) && (alo =? lo)
  | GreaterOrEqual | GreaterThan => (hi <? ahi) || ((ahi =? hi) && (lo <=? alo))
  | MaskedEqual => negb (Z.land ahi hi =? 0) || negb (Z.land alo lo =? 0)
  end.

(** The comparison that is asked for; [value] is a mask for [MaskedEqual]. *)
Definition meant_cmp (op : SeccompCompareOp) (arg value value_two : Z) : bool :=
  match op with
  | NotEqual => negb (arg =? value)
  | LessThan => arg <? value
  | LessOrEqual => arg <=? value
  | Equal => arg =? value
  | GreaterOrEqual => value <=? arg
  | GreaterThan => value <? arg
  | MaskedEqual => Z.land arg value =? value_two
  end.

Section compare.
Context `{CbpfVm, !CbpfVmLaws}.

Lemma run_compare op x off hi lo def act d ahi alo :
  word_at d (off + 4) = Some ahi → word_at d off = Some alo →
  cbpf_from (compare_code op x off hi lo ++ [stmt RET_K def; stmt RET_K act]) (nr d) d
  = Some (if (nr d =? x) && halves_cmp op ahi alo hi lo then act else def).
Proof.
  intros Hhi Hlo.
  destruct op; cbn [compare_code app halves_cmp]; rewrite run_jeq;
    destruct (nr d =? x); cbn [andb]; take_jump; try apply run_ret;
    rewrite (run_ld _ _ _ _ ahi) by done;
    rewrite ?run_jeq, ?run_jge, ?run_jgt, ?run_jset;
    repeat (match goal with
      | |- context [drop (Z.to_nat (if ?b then _ else _))] => destruct b eqn:?; take_jump
      | |- context [cbpf_from (stmt LD_ABS off :: _)] => rewrite (run_ld _ _ _ _ alo) by done
      | |- _ => rewrite ?run_jeq, ?run_jge, ?run_jgt, ?run_jset, ?run_ret
      end); f_equal.
  all: repeat match goal with |- context [if ?b then _ else _] => destruct b eqn:?; try done end.
  all: lia.
Qed.
End compare.

Lemma halves_meant op arg value two :
  in_u 64 arg → in_u 64 value → op ≠ GreaterThan → op ≠ MaskedEqual →
  halves_cmp op (Z.shiftr arg 32) (uwrap 32 arg) (uwrap 32 (Z.shiftr value 32)) (uwrap 32 value)
  = meant_cmp op arg value two.
Proof.
  intros Ha Hv ??. unfold in_u, uwrap in *. rewrite !Z.shiftr_div_pow2 by lia.
  rewrite (Z.mod_small (value / 2 ^ 32)) by (split; [apply Z.div_pos|apply Z.div_lt_upper_bound]; lia).
  destruct op; try done; cbn [halves_cmp meant_cmp]; apply eq_true_iff_eq;
    rewrite ?orb_true_iff, ?andb_true_iff, ?negb_true_iff, ?andb_false_iff, ?Z.eqb_eq, ?Z.eqb_neq,
      ?Z.ltb_lt, ?Z.leb_le; Z.to_euclidean_division_equations; lia.
Qed.

Lemma greater_than_halves arg value :
  in_u 64 arg → in_u 64 value →
  halves_cmp GreaterThan (Z.shiftr arg 32) (uwrap 32 arg) (uwrap 32 (Z.shiftr value 32))
    (uwrap 32 value) = (value <=? arg).
Proof. intros. by apply (halves_meant GreaterOrEqual _ _ 0). Qed.

(** A rule for one system call with one argument check. *)
Definition checked_rule (x act i : Z) (a : SyscallArgs) (o : SeccompCompareOp) : Rule :=
  MkRule [x] act 0 [x] (Some i) (Some a) (Some o) false.

(** The verdict when the check of the argument has the result [holds]. *)
Definition arg_policy (arc : Arch) (def act x : Z) (holds : bool) (d : SeccompData) : Z :=
  if negb (d_arch d =? arch_id arc) then def
  else if X32_SYSCALL_BIT <=? nr d then Z.lor SECCOMP_RET_ERRNO ENOSYS
  else if (nr d =? x) && holds then act else def.

Lemma word_at_arg d i arg :
  0 ≤ i ≤ 5 → d_args d !! Z.to_nat i = Some arg →
  word_at d (16 + i * 8 + 4) = Some (Z.shiftr arg 32) ∧
  word_at d (16 + i * 8) = Some (uwrap 32 arg).
Proof.
  intros Hi Ha.
  assert (∀ r, r = 4 ∨ r = 0 →
    word_at d (16 + i * 8 + r) = Some (if r =? 0 then uwrap 32 arg else Z.shiftr arg 32)) as Hw.
  { intros r Hr. unfold word_at.
    rewrite (proj2 (Z.eqb_neq _ 0)), (proj2 (Z.eqb_neq _ 4)), (proj2 (Z.eqb_neq _ 8)),
      (proj2 (Z.eqb_neq _ 12)), (proj2 (Z.leb_le 16 _)) by lia.
    replace ((16 + i * 8 + r - 16) / 8) with i by (Z.to_euclidean_division_equations; lia).
    replace ((16 + i * 8 + r) mod 4) with 0 by (Z.to_euclidean_division_equations; lia).
    replace ((16 + i * 8 + r) mod 8) with r by (Z.to_euclidean_division_equations; lia).
    by rewrite Ha. }
  split; [by apply (Hw 4); left|]. rewrite <- (Z.add_0_r (16 + i * 8)). by apply (Hw 0); right.
Qed.

Section argument.
Context `{CbpfVm, !CbpfVmLaws}.

Lemma run_checked_rule arc def e fl x act i a o d arg :
  in_u 32 x → 0 ≤ i ≤ 5 → d_args d !! Z.to_nat i = Some arg →
  ∃ p, program_of_plan (MkPlan arc def e fl (checked_rule x act i a o)) = Ok p ∧
    checked p = true ∧
    seccomp_run p d = Some (arg_policy arc def act x
      (halves_cmp o (Z.shiftr arg 32) (uwrap 32 arg) (uwrap 32 (Z.shiftr (arg0 a) 32))
         (uwrap 32 (arg0 a))) d).
Proof.
  intros Hx Hi Harg. destruct (word_at_arg d i arg Hi Harg) as [Hhi Hlo].
  set (c := compare_code o x (16 + i * 8) (uwrap 32 (Z.shiftr (arg0 a) 32)) (uwrap 32 (arg0 a))).
  assert (build_syscall_section (checked_rule x act i a o) act = Ok c) as Hsec.
  { unfold build_syscall_section, chunks. cbn [checked_rule syscall length chunks_go take drop
      build_chunks syscall_to_bpf_chunk]. unfold build_instruction. cbn [arg_cnt check_arg_syscall].
    rewrite !bool_decide_eq_true_2 by (done || set_solver). cbn [andb].
    unfold build_instruction_with_args, seccomp_data_args_offset.
    cbn [checked_rule arg_cnt unwrap op args]. run.
    destruct (Z.leb_spec 0 i), (Z.leb_spec i 5); try lia. cbn [andb]. run.
    assert (uwrap 32 x = x) as -> by (by apply Z.mod_small). by rewrite !app_nil_r. }
  eexists. split; [unfold program_of_plan; cbn [rule action checked_rule]; rewrite Hsec; done|].
  cbn [Seccomp.arc def_action rule action checked_rule].
  assert (length c = 5 ∨ length c = 6)%nat as Hlen by (unfold c; destruct o; cbn; auto).
  assert (insns_ok_before 2 c = true) as Hok.
  { unfold c. destruct o; cbn [compare_code insns_ok_before length];
      by rewrite !insn_ok_jump, !insn_ok_ld
        by (set_solver || lia || (Z.to_euclidean_division_equations; lia)). }
  assert (checked (gen_validate arc def (length c) ++ c ++ [stmt RET_K def; stmt RET_K act]) = true)
    as Hchk.
  { unfold checked. rewrite !filter_insns_ok_app, !length_app. cbn [length]. rewrite validate_ok, Hok by lia.
    change [stmt RET_K def; stmt RET_K act] with ([stmt RET_K def] ++ [stmt RET_K act]).
    rewrite (app_assoc c), last_ret. pose proof (length_validate arc def (length c)).
    rewrite (proj2 (Nat.leb_le _ _)) by lia. reflexivity. }
  split; [done|]. rewrite run_start by done. unfold arg_policy.
  destruct (Z.eqb_spec (d_arch d) (arch_id arc)) as [Ha|Ha]; cbn [negb].
  - rewrite run_validate_same by done. case_match; [done|]. by apply run_compare.
  - rewrite run_validate_other by (done || unfold BPF_JMP_MAX; lia).
    unfold uwrap at 1. rewrite Z.mod_small by lia.
    replace (Z.to_nat (Z.of_nat (length c) + 3)) with (S (S (S (length c)))) by lia.
    cbn [drop]. rewrite drop_app_length. apply run_ret.
Qed.
End argument.

(** The filter of a rule that checks an argument of its only system call.
    For all comparisons but two, the call gets the action of the rule exactly
    when the comparison of the 64-bit argument holds.  [GreaterThan] is a defect:
    it also holds for an argument that is equal to the value. *)
Theorem argument_filter `{CbpfVm, !CbpfVmLaws} arc def e fl x act i a o d arg :
  in_u 32 x → 0 ≤ i ≤ 5 → d_args d !! Z.to_nat i = Some arg →
  in_u 64 arg → in_u 64 (arg0 a) →
  ∃ p, program_of_plan (MkPlan arc def e fl (checked_rule x act i a o)) = Ok p ∧
    checked p = true ∧
    (o ≠ GreaterThan → o ≠ MaskedEqual →
     seccomp_run p d = Some (arg_policy arc def act x (meant_cmp o arg (arg0 a) (arg1 a)) d)) ∧
    (o = GreaterThan →
     seccomp_run p d = Some (arg_policy arc def act x (arg0 a <=? arg) d)).
Proof.
  intros Hx Hi Harg Ha Hv.
  destruct (run_checked_rule arc def e fl x act i a o d arg Hx Hi Harg) as (p & Hp & Hc & Hrun).
  exists p. split_and!; [done..| |].
  - intros. by rewrite Hrun, (halves_meant o arg _ (arg1 a)).
  - intros ->. by rewrite Hrun, greater_than_halves.
Qed.

(** With the value 5, an argument of 5 counts as greater than 5. *)
Lemma argument_filter_witness :
  let d := MkData 135 AUDIT_ARCH_X86_64 0 [5; 0; 0; 0; 0; 0] in
  ∃ p, program_of_plan (MkPlan X86 SECCOMP_RET_KILL_PROCESS 0 []
         (checked_rule 135 SECCOMP_RET_ALLOW 0 (MkArgs 5 0 0 0 0 0) GreaterThan)) = Ok p ∧
    checked p = true ∧
    (GreaterThan ≠ GreaterThan → GreaterThan ≠ MaskedEqual →
     seccomp_run p d = Some (arg_policy X86 SECCOMP_RET_KILL_PROCESS SECCOMP_RET_ALLOW 135
                               (meant_cmp GreaterThan 5 5 0) d)) ∧
    (GreaterThan = GreaterThan → seccomp_run p d = Some SECCOMP_RET_ALLOW).
Proof.
  apply (argument_filter X86 SECCOMP_RET_KILL_PROCESS 0 [] 135 SECCOMP_RET_ALLOW 0
           (MkArgs 5 0 0 0 0 0) GreaterThan (MkData 135 AUDIT_ARCH_X86_64 0 [5; 0; 0; 0; 0; 0]) 5).
  - done.
  - done.
  - reflexivity.
  - done.
  - done.
Defined.

(** ** The plan of a configuration *)

Definition example_sysno (arc : Arch) (name : string) : option Z :=
  if bool_decide (name = "read") then Some 0
  else if bool_decide (name = "write") then Some 1 else None.

(** The entries share one action, that of the last entry: a system call that is
    to be allowed is killed when a later entry kills another one. *)
Example entries_share_one_action :
  let config := MkSeccomp ScmpActErrno None None None
    (Some [MkSyscall ["read"] ScmpActAllow None None;
           MkSyscall ["write"] ScmpActKillProcess None None]) in
  ∃ r, plan_of_seccomp (λ _ e, e) example_sysno config = Ok (MkPlan X86 0 0 [] r) ∧
    syscall r = [0; 1] ∧ action r = SECCOMP_RET_KILL_PROCESS.
Proof. eexists. split; [vm_compute; reflexivity|]. done. Qed.

(** A name that the table does not have makes the conversion panic. *)
Example unknown_name_panics :
  plan_of_seccomp (λ _ e, e) example_sysno
    (MkSeccomp ScmpActAllow None None None
       (Some [MkSyscall ["open_by_magic"] ScmpActKill None None])) = Panic.
Proof. reflexivity. Qed.

Section config.
Context (as_u32 : LinuxSeccompAction → Z → Z) (sysno : Arch → string → option Z).
Variable arc : Arch.

Definition numbers (names : list string) : list Z := omap (sysno arc) names.

Lemma add_names sc names r :
  sc_args sc = None → Forall (λ n, is_Some (sysno arc n)) names →
  for_each (add_name sysno arc sc) names r
  = Ok (MkRule (syscall r ++ numbers names) (action r) (errno_ret r) (check_arg_syscall r)
          (arg_cnt r) (args r) (op r) (is_notify r)).
Proof.
  intros Hsc Hn. revert r. induction Hn as [|n names [k Hk] Hn IH]; intros r.
  { cbn. rewrite app_nil_r. by destruct r. }
  cbn [for_each].
  assert (add_name sysno arc sc n r
          = Ok (MkRule (syscall r ++ [k]) (action r) (errno_ret r) (check_arg_syscall r)
                  (arg_cnt r) (args r) (op r) (is_notify r))) as ->.
  { unfold add_name, get_syscall_number. rewrite Hk. cbn [unwrap]. run. by rewrite Hsc. }
  run. rewrite IH. cbn [syscall action errno_ret check_arg_syscall arg_cnt args op is_notify].
  unfold numbers. cbn. by rewrite Hk, <- app_assoc.
Qed.

(** The verdict of the kernel that an action stands for, as a number of its interface.  An
    action [ScmpActErrno] without an error number leaves the verdict 0, which kills the
    thread; with one it has the value that [oci_spec] gives it. *)
Definition enforced (a : LinuxSeccompAction) (errno : option Z) : Z :=
  match a, errno with
  | ScmpActErrno, Some e => as_u32 ScmpActErrno e
  | ScmpActErrno, None | ScmpActKill, _ | ScmpActKillThread, _ => 0
  | ScmpActKillProcess, _ => 2 ^ 31
  | ScmpActTrap, _ => 3 * 2 ^ 16
  | ScmpActNotify, _ => 2 ^ 31 - 2 ^ 22
  | ScmpActTrace, _ => 2 ^ 31 - 2 ^ 20
  | ScmpActLog, _ => 2 ^ 31 - 2 ^ 18
  | ScmpActAllow, _ => 2 ^ 31 - 2 ^ 16
  end.

(** An entry of the list: an action, with an error number, for some calls, whatever their
    arguments. *)
Definition plain_entry (a : LinuxSeccompAction) (errno : option Z) (sc : LinuxSyscall) : Prop :=
  sc_action sc = a ∧ sc_errno_ret sc = errno ∧ sc_args sc = None ∧
  Forall (λ n, is_Some (sysno arc n)) (sc_names sc).

Lemma action_enforced a errno before :
  before = 0 ∨ before = enforced a errno →
  (if bool_decide (a = ScmpActErrno) then from_option (as_u32 a) before errno else action_u32 a) = enforced a errno.
Proof. destruct a, errno; cbn; by intros [->| ->]. Qed.

Lemma add_syscalls a errno entries r :
  Forall (plain_entry a errno) entries → arg_cnt r = None → action r = 0 ∨ action r = enforced a errno →
  ∃ r', for_each (add_syscall as_u32 sysno arc) entries r = Ok r' ∧ arg_cnt r' = None ∧
    syscall r' ≡ₚ syscall r ++ numbers (entries ≫= sc_names) ∧
    (entries ≠ [] → action r' = enforced a errno).
Proof.
  intros He. revert r. induction He as [|sc entries (Hact & Herr & Hargs & Hnames) He IH]; intros r Hr Ha.
  { exists r. cbn. by rewrite app_nil_r. }
  cbn [for_each].
  assert (∃ n, add_syscall as_u32 sysno arc sc r
    = Ok (MkRule (merge_sort Z.le (syscall r ++ numbers (sc_names sc))) (enforced a errno) (errno_ret r)
            (check_arg_syscall r) (arg_cnt r) (args r) (op r) n)) as [n ->].
  { unfold add_syscall. rewrite Hact, Herr, action_enforced, add_names by done. by eexists. }
  run.
  match goal with |- context [for_each _ entries ?x] => destruct (IH x) as (r' & Hrun & Hc & Hp & Hx) end.
  { done. }
  { by right. }
  exists r'. split_and!; [exact Hrun|exact Hc| |].
  - rewrite Hp. cbn [syscall]. rewrite merge_sort_Permutation, <- app_assoc. f_equiv.
    unfold numbers. by rewrite <- omap_app.
  - intros _. destruct entries as [|sc' entries]; [|by apply Hx].
    cbn in Hrun. injection Hrun as <-. done.
Qed.
End config.

Lemma rule_policy_perm arc def act l l' d :
  l ≡ₚ l' → rule_policy arc def act l d = rule_policy arc def act l' d.
Proof.
  intros Hp. unfold rule_policy.
  by rewrite (bool_decide_ext (nr d ∈ l) (nr d ∈ l')) by (by rewrite Hp).
Qed.

(** The architecture that is filtered: the last of the listed ones that is supported, and
    x86-64 if there is none. *)
Definition filtered_arch (config : LinuxSeccomp) : Arch :=
  match last (filter (λ a, a = ScmpArchX86_64 ∨ a = ScmpArchAarch64) (default [] (architectures config))) with
  | Some ScmpArchAarch64 => AArch64
  | _ => X86
  end.

Lemma plan_arch_filtered config : plan_arch (architectures config) = filtered_arch config.
Proof.
  unfold plan_arch, filtered_arch. generalize (default [] (architectures config)). intros l.
  induction l as [|x l IH] using rev_ind; [done|]. rewrite foldl_app, filter_app. cbn [foldl].
  destruct x; [rewrite (filter_cons_True _ _ []), filter_nil by auto; by rewrite last_snoc..|].
  rewrite (filter_cons_False _ _ []), filter_nil, app_nil_r by (by intros [[=]|[=]]). exact IH.
Qed.

(** C5: from the configuration to the verdict of the kernel.  A configuration
    that gives one action, with one error number, to up to 252 known system calls and checks
    no arguments becomes a program that the kernel accepts.  A call of another architecture
    gets the default action, a call of the x32 ABI fails with [ENOSYS], a call
    that is named gets the action, and every other call the default action.  The verdict of
    an action is [enforced]: the action [ScmpActErrno] without an error number, for which
    the runtime specification has [EPERM], kills the thread. *)
Theorem config_filter `{CbpfVm, !CbpfVmLaws} as_u32 sysno config a errno entries :
  let arc := filtered_arch config in
  let names := entries ≫= sc_names in
  check_seccomp config = Ok () → syscalls config = Some entries →
  Forall (plain_entry sysno arc a errno) entries →
  Forall (in_u 32) (numbers sysno arc names) → (length (numbers sysno arc names) ≤ 252)%nat →
  ∃ plan p, plan_of_seccomp as_u32 sysno config = Ok plan ∧ program_of_plan plan = Ok p ∧
    checked p = true ∧
    ∀ d, seccomp_run p d
         = Some (rule_policy arc (enforced as_u32 (default_action config) (default_errno_ret config))
                   (enforced as_u32 a errno) (numbers sysno arc names) d).
Proof.
  intros arc names Hchk Hs He Hr Hlen.
  destruct (add_syscalls as_u32 sysno arc a errno entries rule_default He eq_refl (or_introl eq_refl))
    as (r & Hrun & Hargs & Hp & Hact). cbn [rule_default syscall app] in Hp. fold names in Hp.
  set (plan := MkPlan arc (enforced as_u32 (default_action config) (default_errno_ret config)) 0
                 (flag_bits <$> default [] (seccomp_flags config)) r).
  destruct (filter_implements_rule plan) as (p & Hprog & Hc & Hv).
  { done. }
  { cbn [plan rule]. by rewrite Hp. }
  { cbn [plan rule]. by rewrite Hp. }
  exists plan, p. split_and!; [|exact Hprog|exact Hc|].
  - unfold plan_of_seccomp. rewrite Hchk, Hs, action_enforced by auto. run.
    cbn [default]. unfold id. rewrite plan_arch_filtered. fold arc. rewrite Hrun. reflexivity.
  - intros d. rewrite Hv. cbn [plan Seccomp.arc def_action rule]. f_equal.
    rewrite (rule_policy_perm _ _ _ _ _ d Hp).
    destruct entries as [|sc entries]; [|by rewrite Hact].
    unfold rule_policy. cbn [names numbers mbind list_bind omap list_omap].
    by rewrite bool_decide_eq_false_2 by set_solver.
Qed.

Lemma config_filter_witness :
  let config := MkSeccomp ScmpActErrno None (Some [ScmpArchX86_64]) None
                  (Some [MkSyscall ["write"; "read"] ScmpActAllow None None]) in
  ∃ plan p, plan_of_seccomp (λ _ e, e) example_sysno config = Ok plan ∧
    program_of_plan plan = Ok p ∧ checked p = true ∧
    ∀ d, seccomp_run p d = Some (rule_policy X86 SECCOMP_RET_KILL_THREAD SECCOMP_RET_ALLOW
                                   [1; 0] d).
Proof.
  apply (config_filter (λ _ e, e) example_sysno
    (MkSeccomp ScmpActErrno None (Some [ScmpArchX86_64]) None
       (Some [MkSyscall ["write"; "read"] ScmpActAllow None None]))
    ScmpActAllow None [MkSyscall ["write"; "read"] ScmpActAllow None None]).
  - reflexivity.
  - reflexivity.
  - constructor; [|constructor]. split; [done|]. split; [done|]. split; [done|].
    constructor; [by eexists|]. constructor; [by eexists|]. constructor.
  - change (Forall (in_u 32) [1; 0]). by repeat constructor.
  - change (2 ≤ 252)%nat. lia.
Defined.
