(* ===== verification/Spec.v ===== *)
(** * Spec: the parts of the OCI configuration that libcontainer reads, and the
    namespaces of a container

    The records hold the values of the getters of [oci_spec::runtime]; hash maps
    are lists in their iteration order.  The second half models
    [libcontainer/src/namespaces.rs]. *)
From S2P Require Import Prelude.
Local Open Scope string_scope.
Local Open Scope list_scope.

(** ** The configuration *)

Inductive LinuxNamespaceType : Type :=
  NsMount | NsCgroup | NsUts | NsIpc | NsUser | NsPid | NsNetwork | NsTime.

#[global] Instance LinuxNamespaceType_eq_dec : EqDecision LinuxNamespaceType.
Proof. solve_decision. Defined.

#[global] Instance LinuxNamespaceType_countable : Countable LinuxNamespaceType.
Proof.
  refine (inj_countable'
    (λ t, match t with
          | NsMount => 0 | NsCgroup => 1 | NsUts => 2 | NsIpc => 3
          | NsUser => 4 | NsPid => 5 | NsNetwork => 6 | NsTime => 7
          end%nat)
    (λ n, match n with
          | 0 => NsMount | 1 => NsCgroup | 2 => NsUts | 3 => NsIpc
          | 4 => NsUser | 5 => NsPid | 6 => NsNetwork | _ => NsTime
          end%nat) _).
  by intros [].
Defined.

Record LinuxNamespace : Type := MkNamespace {
  ns_typ : LinuxNamespaceType; ns_path : option string }.

Record LinuxIdMapping : Type := MkIdMapping { host_id : Z; container_id : Z; map_size : Z }.

Record LinuxTimeOffset : Type := MkTimeOffset { secs : option Z; nanosecs : option Z }.

Record LinuxNetDevice : Type := MkNetDevice { net_name : option string }.

Inductive LinuxSchedulerPolicy : Type :=
  SchedOther | SchedFifo | SchedRr | SchedBatch | SchedIso | SchedIdle | SchedDeadline.

#[global] Instance LinuxSchedulerPolicy_eq_dec : EqDecision LinuxSchedulerPolicy.
Proof. solve_decision. Defined.

Record Scheduler : Type := MkScheduler {
  policy : LinuxSchedulerPolicy; nice : option Z; sched_priority : option Z;
  runtime : option Z; deadline : option Z; sched_period : option Z }.

Record User : Type := MkUser {
  uid : Z; gid : Z; umask : option Z; additional_gids : option (list Z) }.

(** [args_given] and [has_capabilities] are whether these parts are present; the CPU
    affinity has the masks before and after the move to the cgroup. *)
Record Process : Type := MkProcess {
  terminal : option bool; user : User; args_given : bool; cwd : string;
  no_new_privileges : option bool; has_capabilities : bool; rlimits : option (list Z);
  scheduler : option Scheduler; io_priority : option Z; apparmor_profile : option string;
  exec_cpu_affinity : option (option string * option string) }.

Record Mount : Type := MkMount {
  destination : string; source : option string;
  mount_typ : option string; options : option (list string);
  mount_uid_mappings : option (list LinuxIdMapping);
  mount_gid_mappings : option (list LinuxIdMapping) }.

(** [seccomp_notify] is [seccomp::is_notify] of the seccomp section, and
    [personality_flags] whether the flags of the personality section are not empty. *)
Record Linux : Type := MkLinux {
  namespaces : option (list LinuxNamespace);
  uid_mappings : option (list LinuxIdMapping);
  gid_mappings : option (list LinuxIdMapping);
  time_offsets : option (list (string * LinuxTimeOffset));
  net_devices : option (list (string * LinuxNetDevice));
  sysctls : option (list (string * string));
  masked_paths : option (list string);
  readonly_paths : option (list string);
  seccomp_notify : option bool;
  clos_id : option string;
  personality_flags : option bool;
  has_resources : bool;
  has_memory_policy : bool }.

(** [root_readonly] is [readonly] of the root section, false when absent there. *)
Record Spec : Type := MkSpec {
  linux : option Linux; process : option Process; root_readonly : option bool;
  has_hooks : bool; mounts : option (list Mount);
  hostname : option string; domainname : option string }.

(** ** Namespaces *)

Abbreviation Namespaces := (gmap LinuxNamespaceType LinuxNamespace).

(** [get_clone_flag] is a bijection of the types onto clone flags; the map is kept
    by type.  A type that occurs twice keeps its last entry. *)
Definition namespaces_try_from (l : option (list LinuxNamespace)) : Namespaces :=
  foldl (λ m ns, <[ns_typ ns := ns]> m) ∅ (default [] l).

Definition ORDERED_NAMESPACES : list LinuxNamespaceType :=
  [NsUser; NsPid; NsUts; NsIpc; NsNetwork; NsCgroup; NsMount; NsTime].

(** The namespaces that [apply_namespaces] enters, in order. *)
Definition namespaces_to_enter (m : Namespaces) (filter_ : LinuxNamespaceType → bool) :
    list LinuxNamespace :=
  omap (λ t, if filter_ t then m !! t else None) ORDERED_NAMESPACES.

(** The entry that [iter().find] gives. *)
Definition find_namespace (t : LinuxNamespaceType) (l : list LinuxNamespace) :
    option LinuxNamespace :=
  List.find (λ ns, bool_decide (ns_typ ns = t)) l.

Lemma foldl_insert_lookup l (m : Namespaces) t :
  NoDup (ns_typ <$> l) →
  foldl (λ m ns, <[ns_typ ns := ns]> m) m l !! t
  = match find_namespace t l with Some ns => Some ns | None => m !! t end.
Proof.
  revert m. induction l as [|ns l IH]; intros m Hnd; [done|]. cbn in Hnd.
  apply NoDup_cons in Hnd as [Hni Hnd]. cbn [foldl find_namespace List.find].
  rewrite IH by done. fold (find_namespace t l).
  destruct (bool_decide_reflect (ns_typ ns = t)) as [<-|Hne].
  - assert (find_namespace (ns_typ ns) l = None) as ->; [|by rewrite lookup_insert_eq].
    apply eq_None_ne_Some. intros ns' Hf. apply find_some in Hf as [Hin Ht].
    apply bool_decide_eq_true in Ht. apply Hni. rewrite <- Ht.
    apply list_elem_of_fmap. exists ns'. split; [done|]. by apply list_elem_of_In.
  - by rewrite lookup_insert_ne.
Qed.

#[global] Arguments find_namespace : simpl never.

(** Without duplicates, the hash map and a search of the list agree. *)
Lemma namespaces_lookup l t :
  NoDup (ns_typ <$> default [] l) →
  namespaces_try_from l !! t = find_namespace t (default [] l).
Proof.
  intros Hnd. unfold namespaces_try_from. rewrite foldl_insert_lookup by done.
  by destruct (find_namespace _ _).
Qed.

(** The namespaces are entered in the fixed order, each at most once; user and
    process namespaces come first, the time namespace last. *)
Lemma namespaces_to_enter_spec m f :
  (∀ t ns, m !! t = Some ns → ns_typ ns = t) →
  ns_typ <$> namespaces_to_enter m f
  = filter (λ t, f t = true ∧ is_Some (m !! t)) ORDERED_NAMESPACES.
Proof.
  intros Hm. unfold namespaces_to_enter. induction ORDERED_NAMESPACES as [|t l IH]; [done|].
  cbn [omap list_omap]. rewrite filter_cons. destruct (f t) eqn:Hf, (m !! t) as [ns|] eqn:Ht.
  - rewrite decide_True by (by split; [|eexists]). cbn. by rewrite (Hm t ns), IH.
  - by rewrite decide_False by (by intros [_ [? ?] ]).
  - by rewrite decide_False by (by intros [? _]).
  - by rewrite decide_False by (by intros [? _]).
Qed.
