(* ===== verification/Validator.v ===== *)
(** * Validator: the checks on a configuration before a container is created

    Models [libcontainer/src/validator.rs], [container/mount_validation.rs] and the
    validation part of [user_ns.rs].  What the checks read from the system (the
    network namespace of a path, whether the runtime is in a user namespace) is
    the record [env]. *)
From S2P Require Import Prelude Text Paths Spec.
Local Open Scope string_scope.
Local Open Scope list_scope.
Local Open Scope Z_scope.

Inductive ErrInvalidSpec : Type :=
  | DuplicateNamespace (t : LinuxNamespaceType)
  | IoPriority
  | SchedulerError (msg : string)
  | MountIdmapNonBind | MountIdmapMissingMappings | MountIdmapUnsupported | MountIdmapRootless
  | InvalidNetNsPath (e : string)
  | HostnameWithoutUTS | DomainnameWithoutUTS
  | UserMappingsWithoutNamespace
  | SysEntriesWithoutMntNamespace
  | SysctlNotAllowedInHostIpc (s : string)
  | SysctlNotAllowedInHostNet (s : string)
  | SysctlConflictsWithOci (s field : string)
  | SysctlNotAllowedInHostUser (s : string)
  | SysctlNotInSeparateNamespace (s : string)
  | InvalidIntelRdtClosId
  | TimeNamespace | TimeOffsetsWithPath
  | NetDevicesNoNetNamespace | NetDevicesRootlessNotSupported
  | NetDevicesInvalidDeviceName (s : string)
  | IOError
  | NoUserNamespace.

(** [net_ns_stat p] is the identity of the namespace file [p] (device and inode),
    or an error message; [in_new_userns] is [utils::is_in_new_userns]. *)
Record env : Type := MkEnv {
  net_ns_stat : string → string + (Z * Z);
  in_new_userns : option bool }.

Abbreviation check := (outcome ErrInvalidSpec ()).

Definition spec_namespaces (spec : Spec) : option (list LinuxNamespace) :=
  linux spec ≫= namespaces.

Definition has_namespace (t : LinuxNamespaceType) (l : option (list LinuxNamespace)) : bool :=
  existsb (λ ns, bool_decide (ns_typ ns = t)) (default [] l).

Definition nonempty {A} (o : option (list A)) : bool :=
  negb (bool_decide (default [] o = [])).

(** ** [validator.rs] *)

Definition validate_namespace_types (spec : Spec) : check :=
  match spec_namespaces spec with
  | None => Ok ()
  | Some l =>
      _ ← for_each (λ ns (seen : list LinuxNamespaceType),
            if bool_decide (ns_typ ns ∈ seen) then Err (DuplicateNamespace (ns_typ ns))
            else Ok (ns_typ ns :: seen)) l [];
      Ok ()
  end.

Definition IFNAMSIZ : nat := 16.

Definition dev_valid_name (name : string) : bool :=
  if bool_decide (name = "") || (IFNAMSIZ <=? String.length name)%nat then false
  else if bool_decide (name = ".") || bool_decide (name = "..") then false
  else negb (existsb (λ c, bool_decide (code_point c = 47) || bool_decide (code_point c = 58) || is_whitespace c)
               (char_bytes (chars name))).

Definition validate_spec_for_net_devices (spec : Spec) (is_rootless : bool) : check :=
  match linux spec ≫= net_devices with
  | None | Some [] => Ok ()
  | Some devices =>
      if negb (has_namespace NsNetwork (spec_namespaces spec)) then Err NetDevicesNoNetNamespace
      else if is_rootless then Err NetDevicesRootlessNotSupported
      else
        for_each (λ d _,
          if negb (dev_valid_name d.1) then Err (NetDevicesInvalidDeviceName d.1)
          else
            match net_name d.2 with
            | Some n => if negb (dev_valid_name n) then Err (NetDevicesInvalidDeviceName n) else Ok ()
            | None => Ok ()
            end) devices ()
  end.

Definition validate_spec_for_uts_namespace (spec : Spec) : check :=
  if negb (has_namespace NsUts (spec_namespaces spec)) then
    if bool_decide (is_Some (hostname spec)) then Err HostnameWithoutUTS
    else if bool_decide (is_Some (domainname spec)) then Err DomainnameWithoutUTS
    else Ok ()
  else Ok ().

Definition validate_spec_for_new_user_ns (e : env) (spec : Spec) (is_rootless : bool) : check :=
  let has_user := has_namespace NsUser (spec_namespaces spec) in
  _ ← (if negb has_user then
         if nonempty (linux spec ≫= uid_mappings) || nonempty (linux spec ≫= gid_mappings)
         then Err UserMappingsWithoutNamespace else Ok ()
       else Ok ());
  in_user_ns ← ok_or (in_new_userns e) IOError;
  if is_rootless && negb in_user_ns && negb has_user then Err NoUserNamespace else Ok ().

Definition validate_spec_for_mnt_namespace (spec : Spec) : check :=
  if negb (has_namespace NsMount (spec_namespaces spec)) then
    if nonempty (linux spec ≫= masked_paths) || nonempty (linux spec ≫= readonly_paths)
    then Err SysEntriesWithoutMntNamespace else Ok ()
  else Ok ().

(** [str::replace] of one character by another *)
Definition replace_char (a b : ascii) (s : string) : string :=
  of_chars (map (λ c, if Ascii.eqb c a then b else c) (chars s)).

Definition valid_ipc_sysctls : list string := [
  "kernel.msgmax"; "kernel.msgmnb"; "kernel.msgmni"; "kernel.sem"; "kernel.shmall";
  "kernel.shmmax"; "kernel.shmmni"; "kernel.shm_rmid_forced" ].

Definition is_host_net_ns (e : env) (path : string) : outcome ErrInvalidSpec bool :=
  match net_ns_stat e "/proc/self/ns/net" with
  | inl err => Err (InvalidNetNsPath err)
  | inr host =>
      match net_ns_stat e path with
      | inl err => Err (InvalidNetNsPath err)
      | inr target => Ok (bool_decide (host = target))
      end
  end.

(** Whether network settings are those of the host. *)
Definition computed_host_net (e : env) (l : option (list LinuxNamespace)) :
    outcome ErrInvalidSpec bool :=
  match find_namespace NsNetwork (default [] l) with
  | None => Ok true
  | Some ns =>
      match ns_path ns with
      | None => Ok false
      | Some p => if bool_decide (p = "") then Ok false else is_host_net_ns e p
      end
  end.

(** One key; the state is [is_host_net_cache]. *)
Definition check_sysctl (e : env) (l : option (list LinuxNamespace)) (k : string)
    (cache : option bool) : outcome ErrInvalidSpec (option bool) :=
  let s := replace_char "/" "." k in
  if bool_decide (s ∈ valid_ipc_sysctls) || starts_with "fs.mqueue." s then
    if negb (has_namespace NsIpc l) then Err (SysctlNotAllowedInHostIpc s) else Ok cache
  else if starts_with "net." s then
    is_host_net ← match cache with
                  | Some b => Ok b
                  | None => computed_host_net e l
                  end;
    if (is_host_net : bool) then Err (SysctlNotAllowedInHostNet s) else Ok (Some is_host_net)
  else if has_namespace NsUts l && bool_decide (s = "kernel.domainname") then Ok cache
  else if has_namespace NsUts l && bool_decide (s = "kernel.hostname") then
    Err (SysctlConflictsWithOci s "hostname")
  else if starts_with "user." s then
    if negb (has_namespace NsUser l) then Err (SysctlNotAllowedInHostUser s) else Ok cache
  else Err (SysctlNotInSeparateNamespace s).

Definition validate_spec_for_sysctl (e : env) (spec : Spec) : check :=
  match linux spec ≫= sysctls with
  | None => Ok ()
  | Some l =>
      _ ← for_each (λ kv, check_sysctl e (spec_namespaces spec) kv.1) l None;
      Ok ()
  end.

Definition validate_spec_for_scheduler (spec : Spec) : check :=
  match process spec ≫= scheduler with
  | None => Ok ()
  | Some s =>
      let p := policy s in
      _ ← (if bool_decide (p = SchedOther) || bool_decide (p = SchedBatch) then
             match nice s with
             | Some n => if negb ((-20 <=? n) && (n <=? 19))
                         then Err (SchedulerError ("invalid scheduler.nice: '" +:+ pretty n
                                              +:+ "', must be within -20 to 19")) else Ok ()
             | None => Ok ()
             end
           else Ok ());
      _ ← match sched_priority s with
          | Some n => if negb (n =? 0) && negb (bool_decide (p = SchedFifo))
                         && negb (bool_decide (p = SchedRr))
                      then Err (SchedulerError
                             "scheduler.priority can only be specified for SchedFIFO or SchedRR policy") else Ok ()
          | None => Ok ()
          end;
      let set o := from_option (λ r, negb (r =? 0)) false o in
      if negb (bool_decide (p = SchedDeadline))
         && (set (runtime s) || set (deadline s) || set (sched_period s))
      then Err (SchedulerError
             "scheduler runtime/deadline/period can only be specified for SchedDeadline policy") else Ok ()
  end.

Definition validate_spec_for_io_priority (spec : Spec) : check :=
  match process spec ≫= io_priority with
  | Some p => if negb ((0 <=? p) && (p <=? 7)) then Err IoPriority else Ok ()
  | None => Ok ()
  end.

Definition validate_spec_for_intel_rdt (spec : Spec) : check :=
  match linux spec ≫= clos_id with
  | Some c =>
      if bool_decide (c = ".") || bool_decide (c = "..")
         || ((1 <? String.length c)%nat && contains_char "/" c)
      then Err InvalidIntelRdtClosId else Ok ()
  | None => Ok ()
  end.

Definition validate_spec_for_time_namespace (spec : Spec) : check :=
  match linux spec with
  | Some l =>
      if bool_decide (is_Some (time_offsets l)) then
        ns ← ok_or (find_namespace NsTime (default [] (namespaces l))) TimeNamespace;
        if bool_decide (is_Some (ns_path ns)) then Err TimeOffsetsWithPath else Ok ()
      else Ok ()
  | None => Ok ()
  end.

(** ** [mount_validation.rs] *)

Definition container_userns_has_mappings (l : option Linux) : bool :=
  match l with
  | None => false
  | Some l =>
      match namespaces l with
      | None => false
      | Some nss =>
          match find_namespace NsUser nss with
          | None => false
          | Some ns =>
              if bool_decide (is_Some (ns_path ns)) then true
              else nonempty (uid_mappings l) && nonempty (gid_mappings l)
          end
      end
  end.

Definition validate_mount_mappings (m : Mount) : outcome ErrInvalidSpec bool :=
  match mount_uid_mappings m, mount_gid_mappings m with
  | Some u, Some g =>
      if nonempty (Some u) && nonempty (Some g) then Ok true else Err MountIdmapMissingMappings
  | None, None => Ok false
  | _, _ => Err MountIdmapMissingMappings
  end.

Definition has_option (m : Mount) (names : list string) : bool :=
  existsb (λ o, bool_decide (o ∈ names)) (default [] (options m)).

Definition wants_idmap (m : Mount) : bool :=
  has_option m ["idmap"; "ridmap"]
  || (bool_decide (is_Some (mount_uid_mappings m)) || bool_decide (is_Some (mount_gid_mappings m))).

Definition validate_idmapped_mount (can_use_container_userns is_rootless : bool) (m : Mount) :
    check :=
  if negb (wants_idmap m) then Ok ()
  else
    let is_bind := bool_decide (mount_typ m = Some "bind") || has_option m ["bind"; "rbind"] in
    if negb is_bind then Err MountIdmapNonBind
    else if is_rootless then Err MountIdmapRootless
    else
      has_mount_mappings ← validate_mount_mappings m;
      if negb has_mount_mappings && negb can_use_container_userns
      then Err MountIdmapMissingMappings
      else Err MountIdmapUnsupported.

Definition validate_idmapped_mounts (ms : list Mount) (l : option Linux) (is_rootless : bool) :
    check :=
  let can := container_userns_has_mappings l in
  for_each (λ m _, validate_idmapped_mount can is_rootless m) ms ().

(** [Validator::validate_spec]; the check of mount destinations only warns. *)
Definition validate_spec (e : env) (spec : Spec) (is_rootless : bool) : check :=
  _ ← validate_namespace_types spec;
  _ ← validate_spec_for_uts_namespace spec;
  _ ← validate_spec_for_mnt_namespace spec;
  _ ← validate_spec_for_sysctl e spec;
  _ ← validate_spec_for_scheduler spec;
  _ ← validate_spec_for_io_priority spec;
  _ ← validate_spec_for_intel_rdt spec;
  _ ← validate_spec_for_time_namespace spec;
  _ ← match mounts spec with
      | Some ms => validate_idmapped_mounts ms (linux spec) is_rootless
      | None => Ok ()
      end;
  _ ← validate_spec_for_net_devices spec is_rootless;
  validate_spec_for_new_user_ns e spec is_rootless.

(** ** [user_ns.rs] *)

Module UserNs.
Inductive ValidateSpecError : Type :=
  | MissingLinux
  | NoUIDMappings | NoGIDMapping | NoMountSpec | UnprivilegedUser
  | GidNotMapped (g : Z)
  | ParseID (e : IntErrorKind)
  | MountGidMapping (g : Z)
  | MountUidMapping (u : Z)
  | OtherIO.

Inductive MappingError : Type := BinaryNotFound | NoPathEnv | Execute | NoIDMapping | WriteIDMapping.

(** The sum is at [u32] and wraps (it panics in a debug build). *)
Definition is_id_mapped (id : Z) (l : list LinuxIdMapping) : bool :=
  existsb (λ m, (container_id m <=? id) && (id <=? uwrap 32 (container_id m + map_size m))) l.

(** One option of one mount: the number after [uid=] or [gid=] is mapped. *)
Definition check_mount_option (prefix : string) (l : list LinuxIdMapping)
    (e : Z → ValidateSpecError) (opt : string) : outcome ValidateSpecError () :=
  match strip_prefix prefix opt with
  | None => Ok ()
  | Some n =>
      id ← map_err ParseID (parse_unsigned 32 n);
      if is_id_mapped id l then Ok () else Err (e id)
  end.

Definition validate_mounts_for_new_user_ns (ms : list Mount) (us gs : list LinuxIdMapping) :
    outcome ValidateSpecError () :=
  for_each (λ m _,
    for_each (λ opt _,
      _ ← check_mount_option "uid=" us MountUidMapping opt;
      check_mount_option "gid=" gs MountGidMapping opt) (default [] (options m)) ()) ms ().

(** [rootless] is the result of [utils::rootless_required]. *)
Definition validate_spec_for_new_user_ns (rootless : option bool) (spec : Spec) :
    outcome ValidateSpecError () :=
  l ← ok_or (linux spec) MissingLinux;
  gs ← ok_or (gid_mappings l) NoGIDMapping;
  us ← ok_or (uid_mappings l) NoUIDMappings;
  if bool_decide (us = []) then Err NoUIDMappings
  else if bool_decide (gs = []) then Err NoGIDMapping
  else
    ms ← ok_or (mounts spec) NoMountSpec;
    _ ← validate_mounts_for_new_user_ns ms us gs;
    match process spec ≫= (additional_gids ∘ user) with
    | None => Ok ()
    | Some gids =>
        r ← ok_or rootless OtherIO;
        match negb r, gids with
        | true, _ :: _ =>
            for_each (λ g _, if is_id_mapped g gs then Ok () else Err (GidNotMapped g)) gids ()
        | false, _ :: _ => Err UnprivilegedUser
        | _, [] => Ok ()
        end
    end.

(** Whether a user namespace is created: it is requested, without a path. *)
Definition creates_user_ns (user_namespace : option LinuxNamespace) : bool :=
  from_option (λ ns, negb (bool_decide (is_Some (ns_path ns)))) false user_namespace.

Record UserNamespaceConfig : Type := MkUserNs {
  newuidmap : option Path; newgidmap : option Path;
  u_uid_mappings : option (list LinuxIdMapping); u_gid_mappings : option (list LinuxIdMapping);
  user_namespace : option LinuxNamespace;
  privileged : bool }.

Inductive UserNamespaceError : Type :=
  | UMissingLinux
  | InvalidSpec (e : ValidateSpecError)
  | IDMapping (e : MappingError)
  | UOtherIO.

Section lookup.
(** [$PATH], which directory entries exist, and [utils::rootless_required]. *)
Context (path_env : option string) (exists_ : Path → bool) (rootless : option bool).

Definition lookup_map_binary (binary : string) : outcome MappingError (option Path) :=
  paths ← ok_or path_env NoPathEnv;
  Ok (List.find exists_
        (map (λ p, join (components p) (components binary)) (split_terminator ":"%char paths))).

Definition lookup_map_binaries (l : Linux) : outcome MappingError (option (Path * Path)) :=
  if (length (default [] (uid_mappings l)) <=? 1)%nat
     && (length (default [] (gid_mappings l)) <=? 1)%nat
  then Ok None
  else
    uidmap ← lookup_map_binary "newuidmap";
    gidmap ← lookup_map_binary "newgidmap";
    match uidmap, gidmap with
    | Some u, Some g => Ok (Some (u, g))
    | _, _ => Err BinaryNotFound
    end.

(** [UserNamespaceConfig::new] *)
Definition user_ns_new (spec : Spec) : outcome UserNamespaceError (option UserNamespaceConfig) :=
  l ← ok_or (linux spec) UMissingLinux;
  let user_namespace := namespaces_try_from (namespaces l) !! NsUser in
  if creates_user_ns user_namespace then
    _ ← map_err InvalidSpec (validate_spec_for_new_user_ns rootless spec);
    r ← ok_or rootless UOtherIO;
    b ← map_err IDMapping (lookup_map_binaries l);
    Ok (Some (MkUserNs (fst <$> b) (snd <$> b) (uid_mappings l) (gid_mappings l)
                       user_namespace (negb r)))
  else Ok None.
End lookup.

(** What [write_id_mapping] does to the system: it writes the map file itself or
    runs a helper.  [None] is a file that is not written or a helper that cannot be
    run; a helper that ran gives its exit status, which is not looked at. *)
Inductive map_action : Type :=
  | WriteMapFile (map_file : Path) (content : string)
  | RunHelper (binary : Path) (args : list string).

Definition mapping_args (m : LinuxIdMapping) : list string :=
  [pretty (container_id m); pretty (host_id m); pretty (map_size m)].

Definition mapping_action (pid : Z) (map_file : Path) (l : list LinuxIdMapping)
    (map_binary : option Path) : outcome MappingError map_action :=
  match l with
  | [] => Err NoIDMapping
  | [m] => Ok (WriteMapFile map_file (String.concat " " (mapping_args m)))
  | _ => b ← unwrap map_binary; Ok (RunHelper b (pretty pid :: l ≫= mapping_args))
  end.

Definition write_id_mapping (sys : map_action → option Z) (pid : Z) (map_file : Path)
    (l : list LinuxIdMapping) (map_binary : option Path) : outcome MappingError () :=
  a ← mapping_action pid map_file l map_binary;
  match sys a, a with
  | Some _, _ => Ok ()
  | None, WriteMapFile _ _ => Err WriteIDMapping
  | None, RunHelper _ _ => Err Execute
  end.

Definition map_path (pid : Z) (name : string) : Path :=
  join (join (components "/proc") (components (pretty pid))) (components name).

Definition write_uid_mapping (sys : map_action → option Z) (c : UserNamespaceConfig) (pid : Z) :
    outcome UserNamespaceError () :=
  match u_uid_mappings c with
  | Some l => map_err IDMapping (write_id_mapping sys pid (map_path pid "uid_map") l (newuidmap c))
  | None => Ok ()
  end.

Definition write_gid_mapping (sys : map_action → option Z) (c : UserNamespaceConfig) (pid : Z) :
    outcome UserNamespaceError () :=
  match u_gid_mappings c with
  | Some l => map_err IDMapping (write_id_mapping sys pid (map_path pid "gid_map") l (newgidmap c))
  | None => Ok ()
  end.
End UserNs.

(** ** Kernel parameters, [sysctl] of [process/init/process.rs]

    [write_param] opens a path below the root of procfs for writing and writes a
    value; procfs is opened through [pathrs], so it is a parameter. *)
Definition sysctl_path (kernel_param : string) : Path :=
  join (components "sys") (components (replace_char "." "/" kernel_param)).

Definition sysctl {W E} (write_param : Path → string → W → outcome E W)
    (kernel_params : list (string * string)) (w : W) : outcome E W :=
  for_each (λ kv, write_param (sysctl_path kv.1) kv.2) kernel_params w.

(** ** What the validation of a configuration promises *)

Definition types (spec : Spec) : list LinuxNamespaceType :=
  ns_typ <$> default [] (spec_namespaces spec).

(** The network namespace of the container is not the one of the runtime. *)
Definition private_net (e : env) (spec : Spec) : Prop :=
  ∃ ns, find_namespace NsNetwork (default [] (spec_namespaces spec)) = Some ns ∧
    (ns_path ns = None ∨ ns_path ns = Some "" ∨
     ∃ p host target, ns_path ns = Some p ∧ net_ns_stat e "/proc/self/ns/net" = inr host ∧
       net_ns_stat e p = inr target ∧ host ≠ target).

(** The parameters of an IPC namespace, other than those of its message queues *)
Definition ipc_parameters : list string :=
  ["kernel.msgmax"; "kernel.msgmnb"; "kernel.msgmni"; "kernel.sem"; "kernel.shmall"; "kernel.shmmax";
   "kernel.shmmni"; "kernel.shm_rmid_forced"].

(** A kernel parameter of a namespace that the configuration lists; the network namespace
    is not the one of the runtime. *)
Definition sysctl_allowed (e : env) (spec : Spec) (k : string) : Prop :=
  let s := replace_char "/" "." k in
  ((s ∈ ipc_parameters ∨ ∃ r, s = "fs.mqueue." +:+ r) ∧ NsIpc ∈ types spec)
  ∨ ((∃ r, s = "net." +:+ r) ∧ private_net e spec)
  ∨ (s = "kernel.domainname" ∧ NsUts ∈ types spec)
  ∨ ((∃ r, s = "user." +:+ r) ∧ NsUser ∈ types spec).

Definition valid_scheduler (s : Scheduler) : Prop :=
  (policy s = SchedOther ∨ policy s = SchedBatch → ∀ n, nice s = Some n → -20 ≤ n ≤ 19) ∧
  (policy s ≠ SchedFifo → policy s ≠ SchedRr → ∀ n, sched_priority s = Some n → n = 0) ∧
  (policy s ≠ SchedDeadline →
     ∀ o n, o ∈ [runtime s; deadline s; sched_period s] → o = Some n → n = 0).

Definition valid_clos_id (c : string) : Prop :=
  c ≠ "." ∧ c ≠ ".." ∧ (c = "/" ∨ "/"%char ∉ chars c).

(** A name of at most 15 bytes, not a directory entry of every directory, without slash,
    colon and white space. *)
Record valid_name (n : string) : Prop := MkValidName {
  name_length : (0 < String.length n)%nat ∧ (String.length n < 16)%nat;
  name_dots : (n ≠ ".") ∧ (n ≠ "..");
  name_chars : ∀ c, c ∈ code_points n → c ≠ 47 ∧ c ≠ 58 ∧ c ∉ white_space }.

Definition valid_device (d : string * LinuxNetDevice) : Prop :=
  valid_name d.1 ∧ ∀ n, net_name d.2 = Some n → valid_name n.

(** A mount that asks for no mapping of its own *)
Definition not_idmapped (m : Mount) : Prop :=
  mount_uid_mappings m = None ∧ mount_gid_mappings m = None ∧
  ("idmap" ∉ default [] (options m)) ∧ ("ridmap" ∉ default [] (options m)).

Record valid_config (e : env) (spec : Spec) (is_rootless : bool) : Prop := MkValid {
  v_types : NoDup (types spec);
  v_uts : is_Some (hostname spec) ∨ is_Some (domainname spec) → NsUts ∈ types spec;
  v_mnt : nonempty (linux spec ≫= masked_paths) ∨ nonempty (linux spec ≫= readonly_paths) →
          NsMount ∈ types spec;
  v_sysctl : ∀ k v, (k, v) ∈ default [] (linux spec ≫= sysctls) → sysctl_allowed e spec k;
  v_scheduler : ∀ s, process spec ≫= scheduler = Some s → valid_scheduler s;
  v_io : ∀ p, process spec ≫= io_priority = Some p → 0 ≤ p ≤ 7;
  v_rdt : ∀ c, linux spec ≫= clos_id = Some c → valid_clos_id c;
  v_time : is_Some (linux spec ≫= time_offsets) →
           find_namespace NsTime (default [] (spec_namespaces spec))
           = Some (MkNamespace NsTime None);
  v_mounts : ∀ m, m ∈ default [] (mounts spec) → not_idmapped m;
  v_net : ∀ d, d ∈ default [] (linux spec ≫= net_devices) →
          NsNetwork ∈ types spec ∧ is_rootless = false ∧ valid_device d;
  v_mappings : nonempty (linux spec ≫= uid_mappings) ∨ nonempty (linux spec ≫= gid_mappings) →
               NsUser ∈ types spec;
  v_userns : is_Some (in_new_userns e) ∧
             (is_rootless → in_new_userns e = Some true ∨ NsUser ∈ types spec) }.

(** ** Each check accepts exactly what it should *)

Lemma strip_prefix_Some p s r : strip_prefix p s = Some r ↔ s = p +:+ r.
Proof.
  revert s. induction p as [|c p IH]; intros s; [by split; intros [= ->]|].
  change (String c p +:+ r) with (String c (p +:+ r)).
  destruct s as [|d s]; cbn; [done|].
  destruct (Ascii.eqb_spec c d) as [->|Hne].
  - rewrite IH. split; [by intros ->|by intros [= ->]].
  - split; [done|]. intros [= -> _]. done.
Qed.

Lemma starts_with_spec p s : starts_with p s = true ↔ ∃ r, s = p +:+ r.
Proof.
  unfold starts_with. destruct (strip_prefix p s) as [r|] eqn:Hr.
  - apply strip_prefix_Some in Hr. naive_solver.
  - split; [done|]. intros [r Hs%strip_prefix_Some]. congruence.
Qed.

Lemma has_namespace_spec t spec :
  has_namespace t (spec_namespaces spec) = true ↔ t ∈ types spec.
Proof.
  unfold has_namespace, types. rewrite existsb_exists, list_elem_of_fmap.
  setoid_rewrite list_elem_of_In. setoid_rewrite bool_decide_eq_true. naive_solver.
Qed.

Lemma has_namespace_false t spec :
  has_namespace t (spec_namespaces spec) = false ↔ t ∉ types spec.
Proof. rewrite <- has_namespace_spec. by destruct (has_namespace _ _). Qed.

(** Turn the boolean tests of a check into the propositions they decide. *)
Ltac tests :=
  repeat match goal with
  | H : has_namespace _ _ = true |- _ => apply has_namespace_spec in H
  | H : has_namespace _ _ = false |- _ => apply has_namespace_false in H
  | H : negb _ = true |- _ => apply negb_true_iff in H
  | H : negb _ = false |- _ => apply negb_false_iff in H
  | H : _ && _ = true |- _ => apply andb_true_iff in H as [? ?]
  | H : _ && _ = false |- _ => apply andb_false_iff in H
  | H : _ || _ = true |- _ => apply orb_true_iff in H
  | H : _ || _ = false |- _ => apply orb_false_iff in H as [? ?]
  | H : bool_decide _ = true |- _ => apply bool_decide_eq_true in H
  | H : bool_decide _ = false |- _ => apply bool_decide_eq_false in H
  | H : starts_with _ _ = true |- _ => apply starts_with_spec in H
  end.

Lemma types_ok spec : ok_iff (validate_namespace_types spec) (NoDup (types spec)).
Proof.
  unfold validate_namespace_types, types.
  destruct (spec_namespaces spec) as [l|]; cbn; [|constructor].
  assert (∀ seen, ok_iff
    (for_each (λ ns (seen : list LinuxNamespaceType),
       if bool_decide (ns_typ ns ∈ seen) then Err (DuplicateNamespace (ns_typ ns))
       else Ok (ns_typ ns :: seen)) l seen)
    (NoDup (ns_typ <$> l) ∧ ∀ t, t ∈ ns_typ <$> l → t ∉ seen)) as Hok.
  { induction l as [|ns l IH]; intros seen; cbn; [split; [constructor|by inversion 1]|].
    case_bool_decide; cbn; [set_solver|].
    eapply ok_iff_mono; [|apply IH]. rewrite NoDup_cons. set_solver. }
  specialize (Hok []). destruct (for_each _ l []); cbn in *; set_solver.
Qed.

Lemma uts_ok spec :
  ok_iff (validate_spec_for_uts_namespace spec)
    (is_Some (hostname spec) ∨ is_Some (domainname spec) → NsUts ∈ types spec).
Proof.
  unfold validate_spec_for_uts_namespace.
  repeat case_match; tests; cbn; tauto.
Qed.

Lemma mnt_ok spec :
  ok_iff (validate_spec_for_mnt_namespace spec)
    (nonempty (linux spec ≫= masked_paths) ∨ nonempty (linux spec ≫= readonly_paths) →
     NsMount ∈ types spec).
Proof.
  unfold validate_spec_for_mnt_namespace.
  repeat case_match; tests; cbn; rewrite ?Is_true_true; intuition congruence.
Qed.

Lemma nonzero_spec (o : option Z) :
  from_option (λ r, negb (r =? 0)) false o = false ↔ ∀ n, o = Some n → n = 0.
Proof. destruct o as [r|]; cbn; [rewrite negb_false_iff, Z.eqb_eq|]; naive_solver. Qed.

Lemma scheduler_ok spec :
  ok_iff (validate_spec_for_scheduler spec)
    (∀ s, process spec ≫= scheduler = Some s → valid_scheduler s).
Proof.
  unfold validate_spec_for_scheduler. destruct (process spec ≫= scheduler) as [s|]; [|done].
  eapply ok_iff_mono with (P := valid_scheduler s);
    [split; [by intros H ? [= <-]|by intros H; apply H]|].
  apply ok_iff_bind; [|intros _ _; apply ok_iff_bind; [|intros _ _] ].
  - destruct (nice s) as [n|]; [|by case_match].
    destruct (Z.leb_spec (-20) n), (Z.leb_spec n 19), (policy s); cbn;
      first [by intros [[=]|[=]]|intros _ ? [= <-]; lia
            |intros Hn; specialize (Hn ltac:(auto) n eq_refl); lia].
  - destruct (sched_priority s) as [n|]; [|done].
    destruct (Z.eqb_spec n 0) as [->|Hne], (policy s); cbn;
      first [by intros _ _ ? [= <-]|by intros []|by intros _ []
            |by intros Hn; apply Hne, Hn].
  - assert ((∀ o n, o ∈ [runtime s; deadline s; sched_period s] → o = Some n → n = 0) ↔
      from_option (λ r, negb (r =? 0)) false (runtime s)
      || from_option (λ r, negb (r =? 0)) false (deadline s)
      || from_option (λ r, negb (r =? 0)) false (sched_period s) = false) as ->.
    { rewrite !orb_false_iff, !nonzero_spec. set_unfold. naive_solver. }
    destruct (_ || _), (policy s); cbn;
      first [done|by intros []|by intros Hn; specialize (Hn ltac:(done))].
Qed.

Lemma io_ok spec :
  ok_iff (validate_spec_for_io_priority spec)
    (∀ p, process spec ≫= io_priority = Some p → 0 ≤ p ≤ 7).
Proof.
  unfold validate_spec_for_io_priority. destruct (process spec ≫= io_priority) as [p|]; [|done].
  case_match; tests; cbn; [|naive_solver lia]. intros H'. specialize (H' p eq_refl). lia.
Qed.

Lemma rdt_ok spec :
  ok_iff (validate_spec_for_intel_rdt spec)
    (∀ c, linux spec ≫= clos_id = Some c → valid_clos_id c).
Proof.
  unfold validate_spec_for_intel_rdt. destruct (linux spec ≫= clos_id) as [c|]; [|done].
  assert ((∀ c', Some c = Some c' → valid_clos_id c') ↔ valid_clos_id c) as ->
    by (split; [by intros H; apply H|by intros H ? [= <-]]).
  unfold valid_clos_id, contains_char.
  assert (c = "/" ∨ "/"%char ∉ chars c ↔
    (1 <? String.length c)%nat && bool_decide ("/"%char ∈ chars c) = false) as ->.
  { rewrite andb_false_iff, Nat.ltb_ge, bool_decide_eq_false.
    destruct c as [|a [|b c]]; cbn [String.length chars]; [set_solver by lia| |].
    - split; [intros; left; lia|intros _]. destruct (decide (a = "/"%char)) as [->|];
        [by left|right]. intros ?%list_elem_of_singleton. done.
    - split; [intros [[=]|?]; by right|intros [?|?]; [lia|by right]]. }
  destruct (_ && _), (bool_decide_reflect (c = ".")), (bool_decide_reflect (c = ".."));
    cbn; intuition congruence.
Qed.

Lemma time_ok spec :
  ok_iff (validate_spec_for_time_namespace spec)
    (is_Some (linux spec ≫= time_offsets) →
     find_namespace NsTime (default [] (spec_namespaces spec)) = Some (MkNamespace NsTime None)).
Proof.
  unfold validate_spec_for_time_namespace, spec_namespaces.
  destruct (linux spec) as [l|]; cbn; [|by intros [? [=]]].
  case_match; tests; [|by intros ?].
  destruct (find_namespace NsTime _) as [[t p]|] eqn:Hf; cbn; [|intros Hn; by specialize (Hn H)].
  apply find_some in Hf as [_ Ht%bool_decide_eq_true]. cbn in Ht. subst t.
  destruct p; cbn; [|done]. intros Hn. by specialize (Hn H).
Qed.

Lemma has_option_spec m names :
  has_option m names = true ↔ ∃ o, o ∈ default [] (options m) ∧ o ∈ names.
Proof.
  unfold has_option. rewrite existsb_exists. split; intros (o & Ho & Hin); exists o.
  - apply list_elem_of_In in Ho. by apply bool_decide_eq_true in Hin.
  - apply list_elem_of_In in Ho. by rewrite bool_decide_eq_true.
Qed.

Lemma wants_idmap_spec m : wants_idmap m = false ↔ not_idmapped m.
Proof.
  unfold wants_idmap, not_idmapped. destruct (has_option m ["idmap"; "ridmap"]) eqn:Ho; cbn.
  - apply has_option_spec in Ho as (o & Ho & Hin). split; [done|]. intros (_ & _ & H1 & H2).
    apply elem_of_cons in Hin as [->|Hin]; [done|]. by apply list_elem_of_singleton in Hin as ->.
  - rewrite orb_false_iff, !bool_decide_eq_false, <- !eq_None_not_Some. split; [|by intros (? & ? & _)].
    intros [??]. split_and!; [done..| |]; intros Hin; enough (false = true) by done;
      rewrite <- Ho; apply has_option_spec; set_solver.
Qed.

Lemma idmapped_mount_ok can rootless m :
  ok_iff (validate_idmapped_mount can rootless m) (not_idmapped m).
Proof.
  eapply ok_iff_mono; [apply wants_idmap_spec|]. unfold validate_idmapped_mount. destruct (wants_idmap m); [|done].
  unfold validate_mount_mappings. repeat case_match; cbn; try done; by case_match.
Qed.

Lemma dev_valid_name_spec n : dev_valid_name n = true ↔ valid_name n.
Proof.
  unfold dev_valid_name. split.
  - intros Hn. repeat case_match; tests; [done..|].
    split.
    + match goal with H : (IFNAMSIZ <=? _)%nat = false |- _ => apply Nat.leb_gt in H; unfold IFNAMSIZ in H end.
      destruct n; [done|]. cbn [String.length] in *. lia.
    + done.
    + intros c (g & -> & Hg)%list_elem_of_fmap.
      assert (bool_decide (code_point g = 47) || bool_decide (code_point g = 58) || is_whitespace g = false) as Hf.
      { apply not_true_iff_false. intros Ht. enough (true = false) by done. rewrite <- Hn. symmetry.
        apply existsb_exists. exists g. by rewrite <- list_elem_of_In. }
      unfold is_whitespace in Hf. by tests.
  - intros [Hl [H1 H2] Hc]. rewrite bool_decide_eq_false_2 by (intros ->; cbn in Hl; lia).
    rewrite (proj2 (Nat.leb_gt _ _)) by (unfold IFNAMSIZ; lia). rewrite !bool_decide_eq_false_2 by done. cbn.
    apply negb_true_iff, not_true_iff_false. intros (g & Hg & Ht)%existsb_exists.
    apply list_elem_of_In in Hg. destruct (Hc (code_point g)) as (? & ? & ?); [by apply list_elem_of_fmap_2|].
    unfold is_whitespace in Ht. by repeat (case_bool_decide; try done).
Qed.

Lemma net_ok spec rootless :
  ok_iff (validate_spec_for_net_devices spec rootless)
    (∀ d, d ∈ default [] (linux spec ≫= net_devices) →
     NsNetwork ∈ types spec ∧ rootless = false ∧ valid_device d).
Proof.
  unfold validate_spec_for_net_devices.
  destruct (linux spec ≫= net_devices) as [[|d0 l]|];
    [cbn; by inversion 1| |cbn; by inversion 1].
  change (default [] (Some (d0 :: l))) with (d0 :: l).
  generalize (d0 :: l) (list_elem_of_here d0 l). intros ds Hd0.
  case_match; tests; [intros Hn; by destruct (Hn d0)|]. destruct rootless.
  { intros Hn. by destruct (Hn d0) as (_ & [=] & _). }
  eapply ok_iff_mono; [|apply (ok_iff_for_each valid_device)].
  { rewrite Forall_forall. naive_solver. }
  intros [d n] _ _. unfold valid_device. cbn.
  setoid_rewrite <- dev_valid_name_spec. destruct (dev_valid_name d) eqn:Hd; cbn; [|naive_solver].
  destruct (net_name n) as [n'|]; [|done]. destruct (dev_valid_name n') eqn:Hn; cbn.
  - split; [done|by intros ? [= <-]].
  - intros [_ Hv]. specialize (Hv n' eq_refl). congruence.
Qed.

Lemma userns_ok e spec rootless :
  ok_iff (validate_spec_for_new_user_ns e spec rootless)
    ((nonempty (linux spec ≫= uid_mappings) ∨ nonempty (linux spec ≫= gid_mappings) →
        NsUser ∈ types spec) ∧
     is_Some (in_new_userns e) ∧
     (rootless → in_new_userns e = Some true ∨ NsUser ∈ types spec)).
Proof.
  unfold validate_spec_for_new_user_ns. apply ok_iff_bind; [|intros _ _; apply ok_iff_bind].
  - repeat case_match; tests; cbn; rewrite ?Is_true_true; intuition congruence.
  - destruct (in_new_userns e); cbn; [by eexists|by intros []].
  - intros b Hb. destruct (in_new_userns e) as [b'|]; simplify_eq/=.
    destruct rootless, b, (has_namespace NsUser _) eqn:Hu; tests; cbn; intuition congruence.
Qed.

(** ** Kernel parameters *)

Lemma computed_host_net_ok e spec :
  computed_host_net e (spec_namespaces spec) = Ok false ↔ private_net e spec.
Proof.
  unfold computed_host_net, private_net.
  destruct (find_namespace NsNetwork _) as [ns|]; [|split; [done|by intros (? & [=] & _)]].
  destruct (ns_path ns) as [p|] eqn:Hp; [|split; [eauto|done]].
  case_bool_decide as Hpe; [subst; split; [eauto 10|done]|]. unfold is_host_net_ns.
  destruct (net_ns_stat e "/proc/self/ns/net") as [|host] eqn:Hh,
    (net_ns_stat e p) as [|target] eqn:Ht; try (split; [done|];
    intros (ns' & [= <-] & [?|[?|(p' & h & t & ? & ? & ? & ?)]]); congruence).
  case_bool_decide as Heq; (split; intros Hx; [|]); try done.
  - destruct Hx as (ns' & [= <-] & [?|[?|(p' & h & t & ? & ? & ? & ?)]]); congruence.
  - exists ns. split; [done|]. right. right. exists p, host, target. done.
Qed.

(** The kinds of parameters exclude each other. *)
Inductive param_kind : Type := KIpc | KNet | KDomain | KUser | KOther.

Definition kind_of (s : string) : param_kind :=
  if bool_decide (s ∈ valid_ipc_sysctls) || starts_with "fs.mqueue." s then KIpc
  else if starts_with "net." s then KNet
  else if bool_decide (s = "kernel.domainname") then KDomain
  else if starts_with "user." s then KUser
  else KOther.

Lemma kind_of_net r : kind_of ("net." +:+ r) = KNet.
Proof. done. Qed.

Lemma kind_of_user r : kind_of ("user." +:+ r) = KUser.
Proof. done. Qed.

Lemma kind_ipc s : kind_of s = KIpc ↔ s ∈ ipc_parameters ∨ ∃ r, s = "fs.mqueue." +:+ r.
Proof.
  change ipc_parameters with valid_ipc_sysctls. rewrite <- starts_with_spec. unfold kind_of.
  destruct (bool_decide_reflect (s ∈ valid_ipc_sysctls)), (starts_with "fs.mqueue." s); cbn;
    repeat case_match; intuition congruence.
Qed.

Definition kind_allowed (e : env) (spec : Spec) (k : param_kind) : Prop :=
  match k with
  | KIpc => NsIpc ∈ types spec
  | KNet => private_net e spec
  | KDomain => NsUts ∈ types spec
  | KUser => NsUser ∈ types spec
  | KOther => False
  end.

Lemma sysctl_allowed_kind e spec k :
  sysctl_allowed e spec k ↔ kind_allowed e spec (kind_of (replace_char "/" "." k)).
Proof.
  unfold sysctl_allowed. set (s := replace_char "/" "." k). rewrite <- kind_ipc. split.
  - intros [[-> ?]|[[[r ->] ?]|[[-> ?]|[[r ->] ?]]]]; done.
  - destruct (kind_of s) eqn:Hk; [eauto|..]; unfold kind_of in Hk;
      repeat case_match; simplify_eq; tests; eauto 6; done.
Qed.

Definition cache_ok (e : env) (spec : Spec) (cache : option bool) : Prop :=
  ∀ b, cache = Some b → computed_host_net e (spec_namespaces spec) = Ok b.

Lemma check_sysctl_cache e spec k cache cache' :
  cache_ok e spec cache → check_sysctl e (spec_namespaces spec) k cache = Ok cache' →
  cache_ok e spec cache'.
Proof.
  unfold check_sysctl. intros Hc Hk. repeat (case_match; simplify_eq; try done).
  - cbn in Hk. case_match; simplify_eq. by apply Hc.
  - apply bind_Ok in Hk as (b & Hb & Hk). destruct b; simplify_eq. by intros b [= <-].
Qed.

Lemma check_sysctl_ok e spec k cache :
  cache_ok e spec cache →
  ok_iff (check_sysctl e (spec_namespaces spec) k cache) (sysctl_allowed e spec k).
Proof.
  intros Hc. rewrite sysctl_allowed_kind. unfold check_sysctl, kind_of.
  set (s := replace_char "/" "." k).
  destruct (bool_decide _ || starts_with "fs.mqueue." s); [case_match; by tests|].
  destruct (starts_with "net." s).
  - assert (match cache with Some b => Ok b | None => computed_host_net e (spec_namespaces spec) end
            = computed_host_net e (spec_namespaces spec)) as ->
      by (destruct cache; [symmetry; by apply Hc|done]).
    cbn [kind_allowed]. rewrite <- computed_host_net_ok.
    destruct (computed_host_net _ _) as [[]|err|] eqn:Hh; cbn; try done.
    unfold computed_host_net, is_host_net_ns in Hh. repeat case_match; done.
  - destruct (has_namespace NsUts _) eqn:Hu; cbn.
    + case_bool_decide; [by tests|]. case_bool_decide as Hh; [by rewrite Hh; cbn; intros []|].
      destruct (starts_with "user." s); [case_match; by tests|by intros []].
    + destruct (starts_with "user." s) eqn:Hs; case_bool_decide as Hd;
        [by rewrite Hd in Hs|case_match; by tests|by tests|by intros []].
Qed.

Lemma sysctl_ok e spec :
  ok_iff (validate_spec_for_sysctl e spec)
    (∀ k v, (k, v) ∈ default [] (linux spec ≫= sysctls) → sysctl_allowed e spec k).
Proof.
  unfold validate_spec_for_sysctl. destruct (linux spec ≫= sysctls) as [l|];
    [|cbn; by inversion 1].
  assert (ok_iff (for_each (λ kv, check_sysctl e (spec_namespaces spec) kv.1) l None)
    (Forall (λ kv, sysctl_allowed e spec kv.1) l)) as Hok.
  { apply (ok_iff_for_each_inv (cache_ok e spec)); [|eauto using check_sysctl_cache|done].
    intros kv c _ Hc. by apply check_sysctl_ok. }
  revert Hok. rewrite Forall_forall.
  assert ((∀ x, x ∈ l → sysctl_allowed e spec x.1) ↔
          ∀ k v, (k, v) ∈ default [] (Some l) → sysctl_allowed e spec k) as ->.
  { split; [intros Hx k v ?; by apply (Hx (k, v))|intros Hx [k v] ?; by apply (Hx k v)]. }
  by destruct (for_each _ _ _).
Qed.

Lemma idmapped_ok spec rootless :
  ok_iff (match mounts spec with
          | Some ms => validate_idmapped_mounts ms (linux spec) rootless
          | None => Ok ()
          end) (∀ m, m ∈ default [] (mounts spec) → not_idmapped m).
Proof.
  destruct (mounts spec) as [ms|]; [|cbn; by inversion 1].
  eapply ok_iff_mono; [|apply ok_iff_for_each; intros m _ _; apply idmapped_mount_ok].
  by rewrite Forall_forall.
Qed.

Lemma validate_spec_ok e spec is_rootless :
  ok_iff (validate_spec e spec is_rootless) (valid_config e spec is_rootless).
Proof.
  eapply ok_iff_mono; cycle 1.
  { unfold validate_spec.
    repeat lazymatch goal with |- ok_iff (_ ≫= _) _ => apply ok_iff_bind; [|intros _ _] end;
    [apply types_ok|apply uts_ok|apply mnt_ok|apply sysctl_ok|apply scheduler_ok|apply io_ok
    |apply rdt_ok|apply time_ok|apply idmapped_ok|apply net_ok|apply userns_ok]. }
  split; [|by intros []]. intros (? & ? & ? & ? & ? & ? & ? & ? & ? & ? & ? & ?). by constructor.
Qed.

(** C4: [Validator::validate_spec] never panics and accepts exactly the valid
    configurations: no namespace type twice, hostname and domainname only with a UTS
    namespace, masked and read-only paths only with a mount namespace, only kernel
    parameters of namespaces that are listed (and of a network namespace that is not the one
    of the runtime), scheduler and I/O priority in their ranges, a class of service that is
    one file name, time offsets only for a new time namespace, no idmapped mount, network
    devices with names the kernel can take and a network namespace, mappings only with a user namespace, and a rootless
    container only inside a user namespace. *)
Theorem validate_spec_accepts e spec is_rootless :
  ok_iff (validate_spec e spec is_rootless) (valid_config e spec is_rootless).
Proof. apply validate_spec_ok. Qed.

(** ** Where kernel parameters are written *)

Definition clean_name (n : string) : Prop := n ≠ "" ∧ ("."%char ∉ chars n) ∧ ("/"%char ∉ chars n).

(** A file below [/proc/sys], reached by plain names only, of a network namespace that is
    new or another one than that of the runtime, or of an IPC, UTS or user namespace that
    the configuration lists.  The code does not ask whether a namespace of the last three
    kinds is new: one that is joined by its path may be the one of the host. *)
Definition namespaced_path (e : env) (spec : Spec) (p : Path) : Prop :=
  ∃ names : list string, p = fmap Normal ("sys" :: names) ∧ Forall clean_name names ∧
    (((∃ x, names = ["kernel"; x] ∧ ("kernel." +:+ x) ∈ ipc_parameters)
      ∨ ∃ r, names = "fs" :: "mqueue" :: r) ∧ NsIpc ∈ types spec
    ∨ (∃ r, names = "net" :: r) ∧ private_net e spec
    ∨ names = ["kernel"; "domainname"] ∧ NsUts ∈ types spec
    ∨ (∃ r, names = "user" :: r) ∧ NsUser ∈ types spec).

Lemma split_chars_swap l :
  split_chars "/" (map (λ c, if Ascii.eqb c "." then "/"%char else c) l)
  = split_chars "." (map (λ c, if Ascii.eqb c "/" then "."%char else c) l).
Proof.
  induction l as [|c l IH]; [done|]. cbn [map split_chars]. rewrite IH.
  destruct (Ascii.eqb_spec c "."), (Ascii.eqb_spec c "/"); subst; try done.
  destruct (Ascii.eqb_spec c "."), (Ascii.eqb_spec c "/"); done.
Qed.

Lemma split_chars_no_sep sep l p : p ∈ split_chars sep l → sep ∉ p.
Proof.
  revert p. induction l as [|c l IH]; intros p; cbn; [intros ->%list_elem_of_singleton; set_solver|].
  destruct (Ascii.eqb_spec c sep) as [->|Hne].
  - intros [->|?]%elem_of_cons; [set_solver|auto].
  - destruct (split_chars sep l) as [|q qs]; [intros ->%list_elem_of_singleton; set_solver|].
    intros [->|?]%elem_of_cons; [|set_solver]. specialize (IH q). set_solver.
Qed.

Lemma split_on_no_sep sep s p : p ∈ split_on sep s → sep ∉ chars p.
Proof.
  unfold split_on. intros (l & -> & Hl)%list_elem_of_fmap.
  rewrite (chars_of_chars l). by eapply split_chars_no_sep.
Qed.

Lemma split_on_swap k :
  split_on "/" (replace_char "." "/" k) = split_on "." (replace_char "/" "." k).
Proof. unfold split_on, replace_char. by rewrite !chars_of_chars, split_chars_swap. Qed.

Lemma piece_component_clean n : "."%char ∉ chars n →
  piece_component n = if bool_decide (n = "") then None else Some (Normal n).
Proof.
  intros Hn. unfold piece_component. case_bool_decide; [done|].
  rewrite !bool_decide_eq_false_2; [done|intros ->; cbn in Hn; set_solver..].
Qed.

Lemma pieces_clean (ps : list string) : (∀ n, n ∈ ps → "."%char ∉ chars n) →
  omap piece_component ps = Normal <$> filter (λ n, n ≠ "") ps.
Proof.
  induction ps as [|n ps IH]; intros Hps; [done|].
  cbn [omap list_omap]. rewrite piece_component_clean by set_solver. rewrite IH by set_solver.
  destruct (decide (n = "")) as [->|Hne].
  - by rewrite filter_cons_False by (intros []; done).
  - by rewrite filter_cons_True, bool_decide_eq_false_2 by done.
Qed.

(** The names of a parameter's path are the pieces of its dotted form. *)
Lemma sysctl_path_names k p ps :
  split_on "." (replace_char "/" "." k) = p :: ps → p ≠ "" →
  let names := p :: filter (λ n, n ≠ "") ps in
  sysctl_path k = fmap Normal ("sys" :: names) ∧ Forall clean_name names.
Proof.
  intros Hs Hp names.
  assert (∀ n, n ∈ p :: ps → ("."%char ∉ chars n) ∧ ("/"%char ∉ chars n)) as Hclean.
  { intros n Hn. split; eapply split_on_no_sep;
      [rewrite <- Hs in Hn; exact Hn|rewrite <- Hs, <- split_on_swap in Hn; exact Hn]. }
  assert (components (replace_char "." "/" k) = Normal <$> names) as Hc.
  { unfold components. rewrite split_on_swap, Hs. rewrite bool_decide_eq_false_2 by done.
    destruct (Hclean p) as [Hd _]; [set_solver|].
    rewrite (bool_decide_eq_false_2 (p = ".")) by (intros ->; cbn in Hd; set_solver).
    rewrite piece_component_clean, bool_decide_eq_false_2 by done.
    rewrite pieces_clean; [done|]. intros n Hn. apply Hclean. set_solver. }
  unfold sysctl_path. rewrite Hc, join_names. split; [done|].
  apply Forall_forall. intros n Hn. assert (n ≠ "" ∧ n ∈ p :: ps) as [Hne Hin].
  { subst names. rewrite elem_of_cons, list_elem_of_filter in *. naive_solver. }
  destruct (Hclean n Hin). done.
Qed.

Lemma sysctl_path_private e spec k : sysctl_allowed e spec k → namespaced_path e spec (sysctl_path k).
Proof.
  unfold sysctl_allowed. set (s := replace_char "/" "." k).
  assert (∀ p ps, split_on "." s = p :: ps → p ≠ "" → let names := p :: filter (λ n, n ≠ "") ps in
    sysctl_path k = fmap Normal ("sys" :: names) ∧ Forall clean_name names) as Hn
    by (intros; by apply sysctl_path_names).
  clearbody s. intros [[Hs Hns]|[[[r ->] Hns]|[[-> Hns]|[[r ->] Hns]]]].
  - destruct Hs as [Hs|[r ->]].
    + unfold ipc_parameters in Hs. unfold namespaced_path.
      decompose_list_elem_of; subst s;
        (edestruct Hn as [Hp Hc]; [reflexivity|done|]; eexists; split; [exact Hp|];
         split; [exact Hc|]; left; split; [|done]; left; eexists; split; [reflexivity|];
         apply (bool_decide_unpack _); reflexivity).
    + destruct (Hn "fs" ("mqueue" :: split_on "." r)) as [Hp Hc]; [|done|].
      { etrans; [apply (split_on_app "." "fs" ("mqueue." +:+ r)); cbn; set_solver|].
        by rewrite <- (split_on_app "." "mqueue" r) by (cbn; set_solver). }
      eexists. split; [exact Hp|]. split; [exact Hc|]. left. split; [|done]. right.
      rewrite filter_cons_True by done. by eexists.
  - destruct (Hn "net" (split_on "." r)) as [Hp Hc];
      [apply (split_on_app "." "net" r); cbn; set_solver|done|].
    eexists. split; [exact Hp|]. split; [exact Hc|]. right. left. by split; [eexists|].
  - edestruct Hn as [Hp Hc]; [reflexivity|done|].
    eexists. split; [exact Hp|]. split; [exact Hc|]. right. right. left. by split.
  - destruct (Hn "user" (split_on "." r)) as [Hp Hc];
      [apply (split_on_app "." "user" r); cbn; set_solver|done|].
    eexists. split; [exact Hp|]. split; [exact Hc|]. right. right. right. by split; [eexists|].
Qed.

Lemma for_each_ext {E A S} (f g : A → S → outcome E S) l s :
  (∀ x s, x ∈ l → f x s = g x s) → for_each f l s = for_each g l s.
Proof.
  revert s. induction l as [|x l IH]; intros s Hfg; [done|]. cbn.
  rewrite Hfg by set_solver. destruct (g x s); cbn; [apply IH; set_solver|done..].
Qed.

(** C15: for a configuration that passes validation, [sysctl] writes only files of
    [/proc/sys] that are parameters of a namespace which the configuration lists, and, for
    the network, of one that is not the namespace of the runtime; it reaches them by plain
    names.  The outcome does not depend on what writing any other path would do. *)
Theorem sysctl_confined {W E} e spec is_rootless params
    (write write' : Path → string → W → outcome E W) (w : W) :
  validate_spec e spec is_rootless = Ok () →
  linux spec ≫= sysctls = Some params →
  (∀ p v w, namespaced_path e spec p → write p v w = write' p v w) →
  sysctl write params w = sysctl write' params w.
Proof.
  intros Hv Hp Hw. pose proof (sysctl_ok e spec) as Hok.
  unfold validate_spec in Hv. do 3 apply bind_Ok in Hv as (_ & _ & Hv).
  apply bind_Ok in Hv as ([] & Hs & _). rewrite Hs, Hp in Hok. cbn in Hok.
  apply for_each_ext. intros [k v] w' Hkv. apply Hw, sysctl_path_private. by apply (Hok k v).
Qed.

Definition example_linux : Linux := MkLinux
  (Some [MkNamespace NsMount None; MkNamespace NsNetwork None; MkNamespace NsIpc None])
  None None None None (Some [("net.ipv4/ip_forward", "1"); ("kernel.shmmax", "65536")])
  (Some ["/proc/kcore"]) None None None None false false.

Definition example_spec : Spec := MkSpec (Some example_linux) None None false None None None.

Definition example_env : env := MkEnv (λ _, inl "ENOENT") (Some false).

(** A writer that records the paths, and one that refuses paths outside [sys]. *)
Lemma sysctl_confined_witness :
  sysctl (E:=()) (λ p v w, Ok ((p, v) :: w)) [("net.ipv4/ip_forward", "1"); ("kernel.shmmax", "65536")] []
  = sysctl (λ p v w, if bool_decide (head p = Some (Normal "sys")) then Ok ((p, v) :: w) else Err ())
      [("net.ipv4/ip_forward", "1"); ("kernel.shmmax", "65536")] [].
Proof.
  apply (sysctl_confined example_env example_spec false);
    [vm_compute; reflexivity|reflexivity|].
  by intros p v w (names & -> & _).
Defined.

(** A parameter of the IPC namespace of another process, for example of the host, is accepted. *)
Example joined_ipc_accepted :
  validate_spec example_env
    (MkSpec (Some (MkLinux (Some [MkNamespace NsIpc (Some "/proc/1/ns/ipc")]) None None None None
       (Some [("kernel.shmmax", "65536")]) None None None None None false false)) None None false None None None)
    false = Ok ().
Proof. reflexivity. Qed.

(** A name with a no-break space (U+00A0) is refused. *)
Example no_break_space : dev_valid_name (String "e" (of_chars (encode_char 160))) = false.
Proof. reflexivity. Qed.

(** ** User namespaces *)

Module UserNsProps.
Import UserNs.

(** Identifier [id] of the container stands for an identifier of the host. *)
Definition maps_id (id : Z) (m : LinuxIdMapping) : Prop :=
  container_id m ≤ id < container_id m + map_size m.

(** [is_id_mapped] accepts every mapped identifier, and also the one after the end
    of each mapping, which is not mapped: the comparison includes the upper bound. *)
Theorem is_id_mapped_bounds id l :
  Forall (λ m, in_u 32 (container_id m) ∧ in_u 32 (map_size m) ∧
               in_u 32 (container_id m + map_size m)) l →
  is_id_mapped id l = true ↔
  ∃ m, m ∈ l ∧ (maps_id id m ∨ id = container_id m + map_size m).
Proof.
  intros Hl. rewrite Forall_forall in Hl. unfold is_id_mapped. rewrite existsb_exists.
  setoid_rewrite <- list_elem_of_In.
  split; intros (m & Hm & Hid); exists m; (split; [done|]);
    destruct (Hl m Hm) as (Hc & Hs & Hcs); rewrite andb_true_iff, uwrap_small in * by done;
    unfold maps_id, in_u in *; lia.
Qed.

Definition one_mapping : list LinuxIdMapping := [MkIdMapping 100000 0 65536].

(** Group 65536 passes for a mapping of the groups 0 to 65535. *)
Lemma is_id_mapped_bounds_witness :
  is_id_mapped 65536 one_mapping = true ∧ ∀ m, m ∈ one_mapping → ¬ maps_id 65536 m.
Proof.
  split.
  - apply (is_id_mapped_bounds 65536 one_mapping).
    + apply Forall_singleton. unfold in_u. cbn. lia.
    + exists (MkIdMapping 100000 0 65536). split; [by left|]. right. reflexivity.
  - intros m ->%list_elem_of_singleton. unfold maps_id. cbn. lia.
Defined.

Lemma lookup_map_binaries_long path_env exists_ l b mappings :
  lookup_map_binaries path_env exists_ l = Ok b →
  uid_mappings l = Some mappings ∨ gid_mappings l = Some mappings →
  (2 ≤ length mappings)%nat → is_Some b.
Proof.
  unfold lookup_map_binaries. intros Hb Hm Hlen. case_match eqn:Hc.
  - apply andb_true_iff in Hc as [H1%Nat.leb_le H2%Nat.leb_le].
    destruct Hm as [Hm|Hm]; rewrite Hm in *; cbn in *; lia.
  - apply bind_Ok in Hb as (u & _ & (g & _ & Hb)%bind_Ok). by repeat case_match; simplify_eq.
Qed.

Lemma write_id_mapping_total sys pid f mappings binary :
  mappings ≠ [] → ((2 ≤ length mappings)%nat → is_Some binary) →
  ∃ a, mapping_action pid f mappings binary = Ok a ∧
    write_id_mapping sys pid f mappings binary ≠ Panic ∧
    (is_Some (sys a) → write_id_mapping sys pid f mappings binary = Ok ()).
Proof.
  intros Hne Hb. unfold write_id_mapping.
  assert (∃ a, mapping_action pid f mappings binary = Ok a) as [a Ha].
  { destruct mappings as [|m [|m' l]]; [done|by eexists|].
    destruct Hb as [b ->]; [cbn; lia|]. by eexists. }
  exists a. split; [done|]. rewrite Ha. cbn.
  split; [by destruct (sys a), a|by intros [z ->]].
Qed.

Lemma check_mount_option_no_panic prefix l e opt : check_mount_option prefix l e opt ≠ Panic.
Proof.
  unfold check_mount_option. destruct (strip_prefix prefix opt); [|done].
  apply bind_no_panic; [apply map_err_no_panic, parse_unsigned_no_panic|]. intros id _. by case_match.
Qed.

Lemma validate_new_user_ns_no_panic rootless spec : validate_spec_for_new_user_ns rootless spec ≠ Panic.
Proof.
  unfold validate_spec_for_new_user_ns.
  do 3 (apply bind_no_panic; [apply ok_or_no_panic|intros ? _]). do 2 (case_match; [done|]).
  apply bind_no_panic; [apply ok_or_no_panic|intros ms _]. apply bind_no_panic.
  - unfold validate_mounts_for_new_user_ns. apply for_each_no_panic. intros m _. apply for_each_no_panic.
    intros opt _. apply bind_no_panic; [|intros _ _]; apply check_mount_option_no_panic.
  - intros _ _. case_match; [|done]. apply bind_no_panic; [apply ok_or_no_panic|intros r _].
    destruct (negb r), l; try done. apply (for_each_no_panic (λ g _, _)). intros g _. by case_match.
Qed.

Lemma user_ns_new_no_panic path_env exists_ rootless spec : user_ns_new path_env exists_ rootless spec ≠ Panic.
Proof.
  unfold user_ns_new. apply bind_no_panic; [apply ok_or_no_panic|intros l _]. case_match; [|done].
  apply bind_no_panic; [apply map_err_no_panic, validate_new_user_ns_no_panic|intros _ _].
  apply bind_no_panic; [apply ok_or_no_panic|intros r _]. apply bind_no_panic; [|done]. apply map_err_no_panic.
  unfold lookup_map_binaries, lookup_map_binary. case_match; [done|].
  do 2 (apply bind_no_panic; [apply bind_no_panic; [apply ok_or_no_panic|done]|intros ? _]). by repeat case_match.
Qed.

(** What [user_ns_new] establishes for each of the two lists of mappings. *)
Definition mapping_ready (mappings : option (list LinuxIdMapping)) (binary : option Path) : Prop :=
  ∃ l, mappings = Some l ∧ l ≠ [] ∧ ((2 ≤ length l)%nat → is_Some binary).

Lemma user_ns_new_ready path_env exists_ rootless spec c :
  user_ns_new path_env exists_ rootless spec = Ok (Some c) →
  mapping_ready (u_uid_mappings c) (newuidmap c) ∧ mapping_ready (u_gid_mappings c) (newgidmap c).
Proof.
  unfold user_ns_new. intros (l & Hl & Hc)%bind_Ok. case_match; [|done].
  apply bind_Ok in Hc as ([] & Hv & (r & _ & (b & Hb & [= <-])%bind_Ok)%bind_Ok). cbn.
  destruct (validate_spec_for_new_user_ns rootless spec) eqn:Hs; simplify_eq/=.
  destruct (lookup_map_binaries path_env exists_ l) as [b'| |] eqn:Hlk; simplify_eq/=.
  unfold validate_spec_for_new_user_ns in Hs. destruct (linux spec); simplify_eq/=.
  apply bind_Ok in Hs as (gs & Hgs & (us & Hus & Hs)%bind_Ok).
  destruct (gid_mappings l) eqn:Hg, (uid_mappings l) eqn:Hu; simplify_eq/=.
  repeat (case_bool_decide; [done|]).
  split; (eexists; split; [done|]; split; [done|]; intros Hlen; apply fmap_is_Some;
          eapply lookup_map_binaries_long; [exact Hlk| |exact Hlen]; auto).
Qed.

(** C20: when [UserNamespaceConfig::new] gives a configuration, writing its mappings
    neither panics at the missing path of a helper nor finds an empty list, and
    succeeds whenever the map files can be written and the helpers executed, whatever
    their exit status. *)
Theorem user_ns_mappings_total path_env exists_ rootless spec c sys pid :
  user_ns_new path_env exists_ rootless spec = Ok (Some c) →
  write_uid_mapping sys c pid ≠ Panic ∧ write_gid_mapping sys c pid ≠ Panic ∧
  ((∀ a, is_Some (sys a)) →
   write_uid_mapping sys c pid = Ok () ∧ write_gid_mapping sys c pid = Ok ()).
Proof.
  intros [(us & Hus & Hune & Hub) (gs & Hgs & Hgne & Hgb)]%user_ns_new_ready.
  unfold write_uid_mapping, write_gid_mapping. rewrite Hus, Hgs.
  edestruct (write_id_mapping_total sys pid (map_path pid "uid_map") us) as (a & _ & Hp & Hok);
    [done|exact Hub|].
  edestruct (write_id_mapping_total sys pid (map_path pid "gid_map") gs) as (a' & _ & Hp' & Hok');
    [done|exact Hgb|].
  split; [by destruct (write_id_mapping sys pid (map_path pid "uid_map") _ _)|].
  split; [by destruct (write_id_mapping sys pid (map_path pid "gid_map") _ _)|].
  intros Hs. by rewrite Hok, Hok'.
Qed.

Definition userns_spec : Spec := MkSpec
  (Some (MkLinux (Some [MkNamespace NsUser None])
    (Some [MkIdMapping 1000 0 1; MkIdMapping 100000 1 65535]) (Some one_mapping)
    None None None None None None None None false false))
  None None false (Some []) None None.

(** The helper [newuidmap] fails with status 1, which goes unnoticed. *)
Lemma user_ns_mappings_total_witness : ∃ c,
  user_ns_new (Some "/usr/bin:/bin:") (λ _, true) (Some false) userns_spec = Ok (Some c) ∧
  write_uid_mapping (λ _, Some 1) c 42 = Ok () ∧ write_gid_mapping (λ _, Some 1) c 42 = Ok ().
Proof.
  eexists. split; [vm_compute; reflexivity|].
  refine (proj2 (proj2 (user_ns_mappings_total (Some "/usr/bin:/bin:") (λ _, true) (Some false)
    userns_spec _ (λ _, Some 1) 42 _)) _); [vm_compute; reflexivity|by intros; eexists].
Defined.
End UserNsProps.
