(* ===== verification/Protocol.v ===== *)
(** * Protocol: the three processes that create a container, and their channels

    Models [libcontainer/src/process/message.rs], [process/channel.rs] and
    [libcontainer/src/channel.rs], and what the code relies on of the kernel: a
    forked process holds copies of its parent's senders, a receiver of an empty
    channel waits while some process holds a sender and then finds the channel
    broken, and the senders of a process are closed when it exits.

    The code of a process is a tree of the operations it performs, [proc].  The
    processes run in any order; which operations fail, and which processes are
    killed, is decided by an oracle.  The second half shows that the order does not
    matter: for one oracle, all runs are equally long and end in the same state. *)
From stdpp Require Import relations.
From S2P Require Import Prelude Spec.
Local Open Scope string_scope.
Local Open Scope list_scope.

(** ** Messages *)

Inductive MountIdMapUsernsSource : Type :=
  | Mappings (uid_mappings gid_mappings : list LinuxIdMapping)
  | ContainerUserns.

Record MountIdMap : Type := MkMountIdMap {
  userns_source : MountIdMapUsernsSource; apply_idmap_recursively : bool }.

Record MountMsg : Type := MkMountMsg {
  mount_source : string; idmap : option MountIdMap; clone_mount_tree_recursively : bool }.

Inductive Message : Type :=
  | IntermediateReady (pid : Z)
  | InitReady
  | WriteMapping | MappingWritten
  | WriteTimeOffsets | TimeOffsetsWritten
  | SeccompNotify | SeccompNotifyDone
  | SetupNetworkDeviceReady
  | MoveNetworkDevice (addrs : list (string * list string))
  | AskMountFd (m : MountMsg) | MountFdReply
  | ExecFailed (err : string)
  | OtherError (err : string)
  | MountFdError (err : string)
  | HookRequest | HookDone.

(** A message and whether a file descriptor is attached to it. *)
Abbreviation packet := (Message * bool)%type.

(** ** Processes and channels *)

Inductive who : Type := Main | Inter | Init.

#[global] Instance who_eq_dec : EqDecision who.
Proof. solve_decision. Defined.

(** [intermediate_main], [init_main], the channel of the intermediate process and the
    one of the init process. *)
Inductive chan : Type := InterMain | InitMain | ToInter | ToInit.

#[global] Instance chan_eq_dec : EqDecision chan.
Proof. solve_decision. Defined.

Definition who_eqb (w v : who) : bool :=
  match w, v with Main, Main | Inter, Inter | Init, Init => true | _, _ => false end.

Lemma who_eqb_eq w v : who_eqb w v = true ↔ w = v.
Proof. by destruct w, v. Qed.

Definition writer (c : chan) : who :=
  match c with InterMain => Inter | InitMain => Init | ToInter | ToInit => Main end.

Definition reader (c : chan) : who :=
  match c with InterMain | InitMain => Main | ToInter => Inter | ToInit => Init end.

(** Main forks the intermediate process, which forks the init process. *)
Definition child (w : who) : option who :=
  match w with Main => Some Inter | Inter => Some Init | Init => None end.

(** ** The code of a process

    [Do es k] performs the effects [es] one after the other, up to the first that
    fails, and [Ignore es p] does not look whether they fail; [If] looks
    at the configuration; [Recv] gives [None] for a broken channel or a failed system call. *)
Inductive proc (E R : Type) : Type :=
  | Done (r : R)
  | Do (es : list E) (k : bool → proc E R)
  | Ignore (es : list E) (p : proc E R)
  | If (b : bool) (p q : proc E R)
  | Send (c : chan) (p : packet) (k : bool → proc E R)
  | Recv (c : chan) (k : option packet → proc E R)
  | Close (c : chan) (k : bool → proc E R)
  | Fork (p : proc E R) (k : option Z → proc E R)
  | Wait (w : who) (k : bool → proc E R).
Arguments Done {E R}.
Arguments Do {E R}.
Arguments Ignore {E R}.
Arguments If {E R}.
Arguments Send {E R}.
Arguments Recv {E R}.
Arguments Close {E R}.
Arguments Fork {E R}.
Arguments Wait {E R}.

(** ** Computations of a process

    Code that returns a [Result]: what to do with its value, and with its error. *)
Definition prog (E R Err A : Type) : Type := (A → proc E R) → (Err → proc E R) → proc E R.

#[global] Instance prog_ret E R Err : MRet (prog E R Err) := λ A a k _, k a.
#[global] Instance prog_bind E R Err : MBind (prog E R Err) := λ A B f m k e, m (λ a, f a k e) e.

(** The errors of the channels, and those of the processes as far as they are told
    apart here. *)
Inductive perr : Type :=
  | EffectFailed
  | ReceiveError (msg : string)
  | SendError
  | CloseError
  | UnexpectedMessage (expected : string) (received : Message)
  | UnexpectedInitMessage (received : Message)
  | ExecError (err : string)
  | ProcessOtherError (err : string)
  | MissingSeccompFds
  | MissingMountFds
  | MountFdFailed (err : string)
  | NetworkDeviceSetup (msg : string)
  | CloneFailed
  | WaitIntermediateProcess
  | MissingSpec (field : string)
  | InvalidSetting (field : string).

Section ops.
Context {E R : Type}.
Abbreviation P := (prog E R perr).

Definition throw {A} (x : perr) : P A := λ _ e, e x.

(** Effects whose failure is an error, and effects whose failure is ignored. *)
Definition act (es : list E) : P () := λ k e, Do es (λ ok, if ok then k () else e EffectFailed).
Definition act_ (es : list E) : P () := λ k _, Ignore es (k ()).
Definition test (es : list E) : P bool := λ k _, Do es k.

(** A condition of the configuration. *)
Definition when (b : bool) (m : P ()) : P () := λ k e, If b (m k e) (k ()).

(** [Sender::send] and [Sender::send_fds] *)
Definition send (c : chan) (m : Message) : P () :=
  λ k e, Send c (m, false) (λ ok, if ok then k () else e SendError).
Definition send_fds (c : chan) (m : Message) : P () :=
  λ k e, Send c (m, true) (λ ok, if ok then k () else e SendError).
(** An operation whose error is only logged. *)
Definition logged (m : P ()) : P () := λ k _, m k (λ _, k ()).

Definition close (c : chan) : P () :=
  λ k e, Close c (λ ok, if ok then k () else e CloseError).

(** [Receiver::recv] *)
Definition recv_with_fds (c : chan) (waiting : string) : P packet :=
  λ k e, Recv c (λ o, match o with Some p => k p | None => e (ReceiveError waiting) end).
Definition recv (c : chan) (waiting : string) : P Message :=
  p ← recv_with_fds c waiting; mret p.1.

Definition fork (p : proc E R) : P Z :=
  λ k e, Fork p (λ o, match o with Some pid => k pid | None => e CloneFailed end).

Definition waitpid (w : who) : P () :=
  λ k e, Wait w (λ ok, if ok then k () else e WaitIntermediateProcess).

(** ** The typed ends of the channels, [process/channel.rs] *)

Definition identifier_mapping_request : P () := send InterMain WriteMapping.
Definition time_offset_request : P () := send InterMain WriteTimeOffsets.
Definition intermediate_ready (pid : Z) : P () := send InterMain (IntermediateReady pid).
Definition seccomp_notify_request : P () := send_fds InitMain SeccompNotify.
Definition network_setup_ready : P () := send InitMain SetupNetworkDeviceReady.
(** The message carries the descriptor of the terminal, if there is one. *)
Definition init_ready (pty : bool) : P () :=
  λ k e, Send InitMain (InitReady, pty) (λ ok, if ok then k () else e SendError).
Definition hook_request : P () := send InitMain HookRequest.
Definition request_mount_fd (m : MountMsg) : P () := send InitMain (AskMountFd m).
Definition exec_failed (err : string) : P () := send InitMain (ExecFailed err).
Definition send_error (err : string) : P () := send InterMain (OtherError err).

(** [MainReceiver::check_for_process_error] *)
Definition check_for_process_error (m : Message) : P Message :=
  match m with
  | ExecFailed err => throw (ExecError err)
  | OtherError err => throw (ProcessOtherError err)
  | m => mret m
  end.

Definition wait_for_intermediate_ready : P Z :=
  m ← recv InterMain "waiting for intermediate process";
  m ← check_for_process_error m;
  match m with
  | IntermediateReady pid => mret pid
  | m => throw (UnexpectedMessage "IntermediateReady" m)
  end.

Definition wait_for_mapping_request : P () :=
  m ← recv InterMain "waiting for mapping request";
  m ← check_for_process_error m;
  match m with WriteMapping => mret () | m => throw (UnexpectedMessage "WriteMapping" m) end.

Definition wait_for_time_offset_request : P () :=
  m ← recv InterMain "waiting for time offset request";
  m ← check_for_process_error m;
  match m with
  | WriteTimeOffsets => mret ()
  | m => throw (UnexpectedMessage "WriteTimeOffsets" m)
  end.

Definition wait_for_mount_fd_request : P MountMsg :=
  m ← recv InitMain "waiting for mount fd request";
  m ← check_for_process_error m;
  match m with AskMountFd req => mret req | m => throw (UnexpectedMessage "AskMountFd" m) end.

Definition wait_for_seccomp_request : P () :=
  p ← recv_with_fds InitMain "waiting for seccomp request";
  m ← check_for_process_error p.1;
  match m with
  | SeccompNotify => if p.2 : bool then mret () else throw MissingSeccompFds
  | m => throw (UnexpectedMessage "SeccompNotify" m)
  end.

Definition wait_for_network_setup_ready : P () :=
  m ← recv InitMain "waiting for init ready";
  m ← check_for_process_error m;
  match m with
  | SetupNetworkDeviceReady => mret ()
  | m => throw (UnexpectedMessage "SetupNetworkDeviceReady" m)
  end.

Definition wait_for_init_ready : P bool :=
  p ← recv_with_fds InitMain "waiting for init ready";
  m ← check_for_process_error p.1;
  match m with InitReady => mret p.2 | m => throw (UnexpectedMessage "InitReady" m) end.

Definition wait_for_hook_request : P () :=
  m ← recv InitMain "waiting for hook request";
  m ← check_for_process_error m;
  match m with HookRequest => mret () | m => throw (UnexpectedMessage "HookRequest" m) end.

Definition recv_init_message : P packet :=
  p ← recv_with_fds InitMain "waiting for init message";
  m ← check_for_process_error p.1;
  mret (m, p.2).

Definition mapping_written : P () := send ToInter MappingWritten.
Definition time_offsets_written : P () := send ToInter TimeOffsetsWritten.

Definition wait_for_mapping_ack : P () :=
  m ← recv ToInter "waiting for mapping ack";
  match m with MappingWritten => mret () | m => throw (UnexpectedMessage "MappingWritten" m) end.

Definition wait_for_time_offsets_ack : P () :=
  m ← recv ToInter "waiting for time offsets ack";
  match m with
  | TimeOffsetsWritten => mret ()
  | m => throw (UnexpectedMessage "TimeOffsetsWritten" m)
  end.

Definition seccomp_notify_done : P () := send ToInit SeccompNotifyDone.
Definition hook_done : P () := send ToInit HookDone.
Definition move_network_device (addrs : list (string * list string)) : P () :=
  send ToInit (MoveNetworkDevice addrs).

Definition send_mount_fd_reply : P () := send_fds ToInit MountFdReply.
Definition send_mount_fd_error (err : string) : P () := send ToInit (MountFdError err).

Definition wait_for_mount_fd_reply : P () :=
  p ← recv_with_fds ToInit "waiting for mount fd reply";
  match p.1 with
  | MountFdReply => if p.2 : bool then mret () else throw MissingMountFds
  | MountFdError err => throw (MountFdFailed err)
  | m => throw (UnexpectedMessage "MountFdReply" m)
  end.

Definition wait_for_seccomp_request_done : P () :=
  m ← recv ToInit "waiting for seccomp request";
  match m with
  | SeccompNotifyDone => mret ()
  | m => throw (UnexpectedMessage "SeccompNotifyDone" m)
  end.

Definition wait_for_move_network_device : P (list (string * list string)) :=
  m ← recv ToInit "waiting for mapping request";
  match m with
  | MoveNetworkDevice addrs => mret addrs
  | m => throw (UnexpectedMessage "MoveNetworkDevice" m)
  end.

Definition wait_for_hook_request_done : P () :=
  m ← recv ToInit "waiting for hook done";
  match m with HookDone => mret () | m => throw (UnexpectedMessage "HookDone" m) end.
End ops.

(** ** The system of processes *)

Inductive exit_status (R : Type) : Type := Returned (r : R) | WasKilled.
Arguments Returned {R}.
Arguments WasKilled {R}.

(** [n] counts the operations that the process has performed. *)
Inductive status (E R : Type) : Type :=
  | Absent
  | Running (n : nat) (p : proc E R)
  | Exited (x : exit_status R).
Arguments Absent {E R}.
Arguments Running {E R}.
Arguments Exited {E R}.

Record tri (A : Type) : Type := Tri { t_main : A; t_inter : A; t_init : A }.
Arguments Tri {A}.
Arguments t_main {A}.
Arguments t_inter {A}.
Arguments t_init {A}.

Definition tget {A} (w : who) (t : tri A) : A :=
  match w with Main => t_main t | Inter => t_inter t | Init => t_init t end.

Definition tset {A} (w : who) (a : A) (t : tri A) : tri A :=
  match w with
  | Main => Tri a (t_inter t) (t_init t)
  | Inter => Tri (t_main t) a (t_init t)
  | Init => Tri (t_main t) (t_inter t) a
  end.

Record quad (A : Type) : Type := Quad { q_inter_main : A; q_init_main : A; q_inter : A; q_init : A }.
Arguments Quad {A}.
Arguments q_inter_main {A}.
Arguments q_init_main {A}.
Arguments q_inter {A}.
Arguments q_init {A}.

Definition qget {A} (c : chan) (q : quad A) : A :=
  match c with
  | InterMain => q_inter_main q | InitMain => q_init_main q
  | ToInter => q_inter q | ToInit => q_init q
  end.

Definition qset {A} (c : chan) (a : A) (q : quad A) : quad A :=
  match c with
  | InterMain => Quad a (q_init_main q) (q_inter q) (q_init q)
  | InitMain => Quad (q_inter_main q) a (q_inter q) (q_init q)
  | ToInter => Quad (q_inter_main q) (q_init_main q) a (q_init q)
  | ToInit => Quad (q_inter_main q) (q_init_main q) (q_inter q) a
  end.

(** The processes, the messages under way, and which process holds which senders. *)
Record state (E R : Type) : Type := State {
  procs : tri (status E R); queues : quad (list packet); held : tri (quad bool) }.
Arguments State {E R}.
Arguments procs {E R}.
Arguments queues {E R}.
Arguments held {E R}.

(** What happens to an operation. *)
Inductive fate : Type := Success | Failure | Killed.

Definition no_senders : quad bool := Quad false false false false.
Definition all_senders : quad bool := Quad true true true true.

Section system.
Context {E R : Type} (pid_of : who → Z).
Implicit Types (s : state E R) (p : proc E R).

Definition sender_open (c : chan) s : bool :=
  qget c (t_main (held s)) || qget c (t_inter (held s)) || qget c (t_init (held s)).

Definition set_proc (w : who) (x : status E R) s : state E R :=
  State (tset w x (procs s)) (queues s) (held s).

Definition set_queue (c : chan) (l : list packet) s : state E R :=
  State (procs s) (qset c l (queues s)) (held s).

Definition set_held (w : who) (h : quad bool) s : state E R :=
  State (procs s) (queues s) (tset w h (held s)).

Definition is_exited (x : status E R) : bool := match x with Exited _ => true | _ => false end.
Definition is_absent (x : status E R) : bool := match x with Absent => true | _ => false end.

Definition ok (o : fate) : bool := match o with Success => true | _ => false end.

(** What an operation does, and how the process goes on. *)
Inductive action : Type := Nothing | Push (c : chan) (m : packet) | Pop (c : chan)
  | Drop (c : chan) | Spawn (v : who) (q : proc E R).

Inductive decision : Type :=
  | Ends (x : exit_status R)
  | Continue (a : action) (p : proc E R).

(** The operation of process [w], with fate [o]; [None] when it has to wait. *)
Definition decide_op (o : fate) (w : who) (p : proc E R) s : option decision :=
  match p, o with
  | Done r, _ => Some (Ends (Returned r))
  | Ignore es q, _ => Some (Continue Nothing q)
  | If b p1 p2, _ => Some (Continue Nothing (if b then p1 else p2))
  | _, Killed => Some (Ends WasKilled)
  | Do es k, _ => Some (Continue Nothing (k (ok o || bool_decide (es = []))))
  | Send c m k, _ =>
      if who_eqb (writer c) w then
        if ok o && qget c (tget w (held s))
        then Some (Continue (Push c m) (k true)) else Some (Continue Nothing (k false))
      else None
  | Recv c k, Failure => Some (Continue Nothing (k None))
  | Recv c k, Success =>
      if who_eqb (reader c) w then
        match qget c (queues s) with
        | m :: _ => Some (Continue (Pop c) (k (Some m)))
        | [] => if sender_open c s then None else Some (Continue Nothing (k None))
        end
      else None
  | Close c k, _ => Some (Continue (Drop c) (k (ok o)))
  | Fork q k, Failure => Some (Continue Nothing (k None))
  | Fork q k, Success =>
      match child w with
      | Some v =>
          if is_absent (tget v (procs s))
          then Some (Continue (Spawn v q) (k (Some (pid_of v)))) else None
      | None => None
      end
  | Wait v k, _ => if is_exited (tget v (procs s)) then Some (Continue Nothing (k (ok o))) else None
  end.

Definition perform_action (w : who) (a : action) s : state E R :=
  match a with
  | Nothing => s
  | Push c m => set_queue c (qget c (queues s) ++ [m]) s
  | Pop c => set_queue c (tail (qget c (queues s))) s
  | Drop c => set_held w (qset c false (tget w (held s))) s
  | Spawn v q => set_held v (tget w (held s)) (set_proc v (Running 0 q) s)
  end.

(** The senders of a process are closed when it ends. *)
Definition perform (w : who) (n : nat) (d : decision) s : state E R :=
  match d with
  | Ends x => set_held w no_senders (set_proc w (Exited x) s)
  | Continue a p => set_proc w (Running (S n) p) (perform_action w a s)
  end.

Definition step_with (o : fate) (w : who) s : option (state E R) :=
  match tget w (procs s) with
  | Running n p => (λ d, perform w n d s) <$> decide_op o w p s
  | _ => None
  end.

(** The fate of the [n]th operation of each process is fixed from the start. *)
Definition oracle : Type := who → nat → fate.

Definition ops_done (w : who) s : nat :=
  match tget w (procs s) with Running n _ => n | _ => 0 end.

Definition step (f : oracle) s s' : Prop := ∃ w, step_with (f w (ops_done w s)) w s = Some s'.

(** Main starts with both ends of all channels. *)
Definition initial (p : proc E R) : state E R :=
  State (Tri (Running 0 p) Absent Absent) (Quad [] [] [] [])
        (Tri all_senders no_senders no_senders).
End system.

(** ** The order of the steps does not matter *)

Section commute.
Context {E R : Type} (pid_of : who → Z).
Implicit Types (s : state E R) (a b : action (E:=E) (R:=R)) (d : decision (E:=E) (R:=R)).

(** What the other processes may rely on when [w] performs [a]. *)
Definition valid_action (w : who) a s : Prop :=
  match a with
  | Push c _ => writer c = w ∧ qget c (tget w (held s)) = true
  | Pop c => reader c = w ∧ qget c (queues s) ≠ []
  | Spawn v _ => child w = Some v ∧ tget v (procs s) = Absent
  | _ => True
  end.

Definition valid (w : who) d s : Prop :=
  match d with Ends _ => True | Continue a _ => valid_action w a s end.

Lemma decide_op_valid o w p s d : decide_op pid_of o w p s = Some d → valid w d s.
Proof.
  destruct p, o; cbn; intros Hd; simplify_eq/=; try done; repeat case_match; simplify_eq/=;
    repeat match goal with
    | H : who_eqb _ _ = true |- _ => apply who_eqb_eq in H
    end; try done.
  - split; [done|congruence].
  - split; [done|]. by destruct (tget _ (procs s)).
Qed.

Lemma sender_open_false c s :
  sender_open c s = false ↔ ∀ w, qget c (tget w (held s)) = false.
Proof.
  unfold sender_open. rewrite !orb_false_iff. split; [intros [[] ] []; done|].
  intros H. repeat split; [apply (H Main)|apply (H Inter)|apply (H Init)].
Qed.

Lemma tget_tset {A} w v (x : A) t : tget v (tset w x t) = if bool_decide (v = w) then x else tget v t.
Proof. by destruct w, v. Qed.

Lemma qget_qset {A} c c' (x : A) q :
  qget c' (qset c x q) = if bool_decide (c' = c) then x else qget c' q.
Proof. by destruct c, c'. Qed.

(** What the next operation of [w] depends on has not changed from [s] to [s']. *)
Record later (w : who) s s' : Prop := MkLater {
  later_held : tget w (held s') = tget w (held s);
  later_head c m l : reader c = w → qget c (queues s) = m :: l →
                     ∃ l', qget c (queues s') = m :: l';
  later_closed c : qget c (queues s) = [] → sender_open c s = false →
                   qget c (queues s') = [] ∧ sender_open c s' = false;
  later_absent v : child w = Some v → tget v (procs s) = Absent → tget v (procs s') = Absent;
  later_exited v : is_exited (tget v (procs s)) = true → is_exited (tget v (procs s')) = true }.

Lemma decide_op_later o w p s s' d :
  later w s s' → decide_op pid_of o w p s = Some d → decide_op pid_of o w p s' = Some d.
Proof.
  intros [Hh Hq Hc Ha Hx] Hd. destruct p as [| | | |c m k|c k| |q k|v k], o; cbn in *; try done;
    rewrite ?Hh; try done.
  - destruct (who_eqb (reader c) w) eqn:Hr; [apply who_eqb_eq in Hr|done].
    destruct (qget c (queues s)) as [|m l] eqn:Hl.
    + destruct (sender_open c s) eqn:Ho; [done|]. destruct (Hc c Hl Ho) as [-> ->]. done.
    + by destruct (Hq c m l Hr Hl) as [l' ->].
  - destruct (child w) as [v|]; [|done]. specialize (Ha v eq_refl).
    destruct (tget v (procs s)); cbn in *; try done. by rewrite Ha.
  - destruct (is_exited (tget v (procs s))) eqn:Hv; [|done]. by rewrite Hx.
  - destruct (is_exited (tget v (procs s))) eqn:Hv; [|done]. by rewrite Hx.
Qed.

Lemma reader_writer c : reader c ≠ writer c.
Proof. by destruct c. Qed.

Lemma child_inj w v u : child w = Some u → child v = Some u → w = v.
Proof. by destruct w, v, u. Qed.

(** A step of [w] leaves the next operation of the running process [v] as it is. *)
Lemma perform_later w v n d s nv pv :
  w ≠ v → valid w d s → tget v (procs s) = Running nv pv → is_exited (tget w (procs s)) = false →
  tget w (procs s) ≠ Absent → later v s (perform w n d s).
Proof.
  intros Hne Hv Hrun Hwx Hwa. split.
  - destruct d as [x|[]]; cbn; rewrite ?tget_tset, ?bool_decide_eq_false_2 by done; try done.
    destruct Hv as [Hc Ha]. rewrite bool_decide_eq_false_2; [done|congruence].
  - intros c m l Hr Hl. destruct d as [x|[|c' m'|c'|c'|u q] p]; cbn; eauto; rewrite qget_qset.
    + case_bool_decide as Hcc; [subst; rewrite Hl; by eexists|eauto].
    + destruct Hv as [Hr' _]. rewrite bool_decide_eq_false_2 by congruence. eauto.
  - intros c Hl Ho. pose proof (proj1 (sender_open_false c s) Ho) as Hno.
    destruct d as [x|[|c' m'|c'|c'|u q] p]; cbn -[sender_open].
    + split; [done|]. apply sender_open_false. intros u. cbn. rewrite tget_tset.
      case_bool_decide; [by destruct c|done].
    + done.
    + destruct Hv as [<- Hh]. rewrite qget_qset, bool_decide_eq_false_2; [done|].
      intros ->. rewrite Hno in Hh. done.
    + destruct Hv as [_ Hne']. rewrite qget_qset, bool_decide_eq_false_2; [done|congruence].
    + split; [done|]. apply sender_open_false. intros u. cbn. rewrite tget_tset.
      case_bool_decide; [|done]. rewrite qget_qset. case_bool_decide; done.
    + split; [done|]. apply sender_open_false. intros u'. cbn. rewrite tget_tset.
      case_bool_decide; done.
  - intros u Hu Hua. destruct d as [x|[|c' m'|c'|c'|u' q] p]; cbn; rewrite !tget_tset;
      repeat (case_bool_decide; [subst|]); try done.
    destruct Hv as [Hc _]. by destruct Hne; eapply child_inj.
  - intros u Hu. destruct d as [x|[|c' m'|c'|c'|u' q] p]; cbn; rewrite !tget_tset;
      repeat (case_bool_decide; [subst; cbn|]); try done; try congruence.
    destruct Hv as [_ Hv]. by rewrite Hv in Hu.
Qed.

(** Steps of two processes change different parts of the state, except that one may
    append to the queue that the other takes from. *)
Lemma perform_comm w v n n' d d' s nw pw nv pv :
  w ≠ v → tget w (procs s) = Running nw pw → tget v (procs s) = Running nv pv →
  valid w d s → valid v d' s →
  perform w n d (perform v n' d' s) = perform v n' d' (perform w n d s).
Proof.
  intros Hne Hw Hv Hd Hd'. destruct s as [[] [] [] ].
  destruct d as [x|a p], d' as [x'|a' p']; [by destruct w, v| | |].
  - destruct a' as [| | | |u q]; try (by destruct w, v).
    destruct Hd' as [Hc Ha]. destruct w, v; try done; destruct u; by simplify_eq/=.
  - destruct a as [| | | |u q]; try (by destruct w, v).
    destruct Hd as [Hc Ha]. destruct w, v; try done; destruct u; by simplify_eq/=.
  - destruct a as [|c m|c|c|u q], a' as [|c' m'|c'|c'|u' q'];
      try (by destruct w, v); destruct w, v; try done; cbn in Hd, Hd';
      repeat match goal with
      | H : _ ∧ _ |- _ => destruct H
      | c : chan |- _ => destruct c; try done
      | u : who |- _ => destruct u; try done
      end; cbn in *; simplify_eq/=; try done.
    all: match goal with |- context [tail ?l] => by destruct l end.
Qed.

Lemma step_with_Some o w s s' : step_with pid_of o w s = Some s' ↔
  ∃ n p d, tget w (procs s) = Running n p ∧ decide_op pid_of o w p s = Some d ∧ s' = perform w n d s.
Proof.
  unfold step_with. split.
  - destruct (tget w (procs s)) as [|n p|]; try done.
    intros (d & Hd & ->)%fmap_Some. eauto 10.
  - intros (n & p & d & Hr & Hd & ->). by rewrite Hr, Hd.
Qed.

Lemma perform_frame w v n d s nv pv :
  w ≠ v → valid w d s → tget v (procs s) = Running nv pv →
  tget v (procs (perform w n d s)) = Running nv pv.
Proof.
  intros Hne Hd Hv. destruct d as [x|[|c' m'|c'|c'|u q] p]; cbn; rewrite !tget_tset;
    repeat (case_bool_decide; [subst|]); try done.
  destruct Hd as [_ Ha]. congruence.
Qed.

(** Steps of different processes can be swapped. *)
Lemma step_diamond f s s1 s2 :
  step pid_of f s s1 → step pid_of f s s2 →
  s1 = s2 ∨ ∃ s3, step pid_of f s1 s3 ∧ step pid_of f s2 s3.
Proof.
  intros [w Hw] [v Hv]. destruct (decide (w = v)) as [->|Hne]; [left; congruence|right].
  apply step_with_Some in Hw as (n & p & d & Hrw & Hd & ->).
  apply step_with_Some in Hv as (n' & p' & d' & Hrv & Hd' & ->).
  assert (valid w d s) as Hvw by by eapply decide_op_valid.
  assert (valid v d' s) as Hvv by by eapply decide_op_valid.
  exists (perform v n' d' (perform w n d s)). split.
  - exists v. apply step_with_Some. exists n', p', d'.
    assert (tget v (procs (perform w n d s)) = Running n' p') as Hr by by apply perform_frame.
    unfold ops_done in *. rewrite Hr, Hrv in *. split; [done|]. split; [|done].
    eapply decide_op_later; [|done]. eapply perform_later; by rewrite ?Hrw.
  - exists w. apply step_with_Some. exists n, p, d.
    assert (tget w (procs (perform v n' d' s)) = Running n p) as Hr
      by by apply perform_frame.
    unfold ops_done in *. rewrite Hr, Hrw in *. split; [done|].
    split; [|symmetry; by eapply perform_comm].
    eapply decide_op_later; [|done]. eapply perform_later; by rewrite ?Hrv.
Qed.

(** ** Exploring all fates in one order *)

Definition killed (w : who) s : list (state E R) :=
  match w, tget w (procs s) with
  | Main, _ => []
  | _, Running n p => [perform w n (Ends WasKilled) s]
  | _, _ => []
  end.

(** The states after the next operation of [w], over all fates. *)
Definition moves (w : who) s : list (state E R) :=
  match tget w (procs s) with
  | Running n (Done r) => [perform w n (Ends (Returned r)) s]
  | Running n (Do _ k) =>
      [perform w n (Continue Nothing (k true)) s; perform w n (Continue Nothing (k false)) s]
      ++ killed w s
  | Running n (Ignore _ q) => [perform w n (Continue Nothing q) s]
  | Running n (If _ p q) =>
      [perform w n (Continue Nothing p) s; perform w n (Continue Nothing q) s]
  | _ => omap (λ o, step_with pid_of o w s) [Success; Failure] ++ killed w s
  end.

Definition can_step (w : who) s : bool :=
  match step_with pid_of Success w s with Some _ => true | None => false end.

Definition pick s : option who := List.find (λ w, can_step w s) [Init; Inter; Main].

(** Where no operation can succeed, those that wait may still fail. *)
Definition failing_moves (w : who) s : list (state E R) :=
  option_list (step_with pid_of Failure w s) ++ killed w s.

Fixpoint explore (fuel : nat) (final : state E R → bool) s : bool :=
  match fuel with
  | 0 => false
  | S fuel =>
      match pick s with
      | Some w => forallb (explore fuel final) (moves w s)
      | None =>
          final s && forallb (λ w, forallb (explore fuel final) (failing_moves w s))
                       [Main; Inter; Init]
      end
  end.

Definition main_survives (f : oracle) : Prop := ∀ n, f Main n ≠ Killed.

(** Nothing can go wrong in these. *)
Definition silent (p : proc E R) : bool :=
  match p with Done _ | Ignore _ _ | If _ _ _ => true | _ => false end.

Lemma killed_step f w s s' n p :
  main_survives f → tget w (procs s) = Running n p → f w n = Killed →
  step_with pid_of Killed w s = Some s' → silent p = false → s' ∈ killed w s.
Proof.
  intros Hm Hr Hf Hs Hp. unfold step_with in Hs. unfold killed. rewrite Hr in *.
  assert (s' = perform w n (Ends WasKilled) s) as ->.
  { by destruct p; cbn in Hs; simplify_eq. }
  destruct w; [by destruct (Hm n)|rewrite Hr; by left..].
Qed.

Lemma step_in_moves f w s s' :
  main_survives f → step_with pid_of (f w (ops_done w s)) w s = Some s' → s' ∈ moves w s.
Proof.
  intros Hm Hs. pose proof Hs as (n & p & d & Hr & Hd & ->)%step_with_Some.
  unfold ops_done in *. rewrite Hr in *.
  assert (f w n ≠ Killed → perform w n d s ∈ omap (λ o, step_with pid_of o w s) [Success; Failure])
    as Homap.
  { intros Hk. apply list_elem_of_omap. exists (f w n). split; [|done].
    destruct (f w n); [by left|by right; left|done]. }
  unfold moves. rewrite Hr.
  destruct (f w n) eqn:Hf; [specialize (Homap ltac:(done))..|].
  3: { assert (silent p = false → perform w n d s ∈ killed w s) as Hk
         by (intros; by eapply killed_step).
       destruct p; try (specialize (Hk eq_refl); set_solver); simplify_eq/=; [by left..|].
       destruct b; set_solver. }
  all: destruct p; simplify_eq/=; try (by left); try set_solver.
  all: first [destruct (bool_decide _)|destruct b]; set_solver.
Qed.

Lemma pick_Some f s w : main_survives f → pick s = Some w → ∃ s', step_with pid_of (f w (ops_done w s)) w s = Some s'.
Proof.
  intros Hm [_ Hc]%find_some. unfold can_step, step_with, ops_done in *.
  destruct (tget w (procs s)) as [|n p|]; try done.
  destruct (f w n) eqn:Hf; cbn.
  - destruct (decide_op pid_of Success w p s); [by eexists|done].
  - destruct p; cbn in *; try (by eexists); repeat case_match; simplify_eq/=; try done; by eexists.
  - destruct p; by eexists.
Qed.

Lemma pick_None f s w s' :
  main_survives f → pick s = None → step_with pid_of (f w (ops_done w s)) w s = Some s' →
  s' ∈ failing_moves w s.
Proof.
  intros Hm Hp Hs. assert (step_with pid_of Success w s = None) as Hn.
  { pose proof (find_none _ _ Hp w) as Hc. unfold can_step in Hc.
    destruct (step_with pid_of Success w s); [|done].
    discriminate Hc. destruct w; cbn; auto. }
  unfold failing_moves. destruct (f w (ops_done w s)) eqn:Hf.
  - congruence.
  - rewrite Hs. by left.
  - apply elem_of_app. right. pose proof Hs as (n & p & d & Hr & Hd & _)%step_with_Some.
    unfold ops_done in Hf. rewrite Hr in Hf. eapply killed_step; try done.
    unfold step_with in Hn. rewrite Hr in Hn. by destruct p.
Qed.

(** Exploration covers every oracle: there is a run to a final state. *)
Lemma explore_sound f fuel final s :
  main_survives f → explore fuel final s = true →
  ∃ n t, (n < fuel)%nat ∧ nsteps (step pid_of f) n s t ∧ nf (step pid_of f) t ∧ final t = true.
Proof.
  intros Hm. revert s. induction fuel as [|fuel IH]; intros s He; [done|]. cbn [explore] in He.
  assert (∀ l s', forallb (explore fuel final) l = true → s' ∈ l → step pid_of f s s' →
    ∃ n t, (n < S fuel)%nat ∧ nsteps (step pid_of f) n s t ∧ nf (step pid_of f) t ∧ final t = true)
    as Hgo.
  { intros l s' Hl Hin Hst. rewrite forallb_forall in Hl.
    destruct (IH s') as (n & t & ? & ? & ? & ?); [by apply Hl, list_elem_of_In|].
    exists (S n), t. split; [lia|]. split; [by eapply nsteps_l|done]. }
  destruct (pick s) as [w|] eqn:Hp.
  - destruct (pick_Some f s w Hm Hp) as [s' Hs']. eapply Hgo; [done| |by exists w].
    by eapply step_in_moves.
  - apply andb_true_iff in He as [Hfin He].
    assert ({w | is_Some (step_with pid_of (f w (ops_done w s)) w s)} +
            {∀ w, step_with pid_of (f w (ops_done w s)) w s = None}) as [[w [s' Hs']]|Hn].
    { assert (∀ w, {is_Some (step_with pid_of (f w (ops_done w s)) w s)} +
                   {step_with pid_of (f w (ops_done w s)) w s = None}) as Hdec
        by (intros w; destruct (step_with _ _ w s); eauto).
      destruct (Hdec Main), (Hdec Inter), (Hdec Init); eauto.
      right. by intros []. }
    + rewrite forallb_forall in He. eapply Hgo; [apply (He w)|by eapply pick_None|by exists w].
      destruct w; cbn; auto.
    + exists 0, s. split; [lia|]. split; [constructor|]. split; [|done].
      intros [s' [w Hw]]. by rewrite Hn in Hw.
Qed.

(** Where steps can be swapped, a finite run to an end fixes all runs. *)
Lemma diamond_runs {A} (Rel : relation A) :
  (∀ x y z, Rel x y → Rel x z → y = z ∨ ∃ z', Rel y z' ∧ Rel z z') →
  ∀ n x t, nsteps Rel n x t → nf Rel t →
  ∀ m u, nsteps Rel m x u → (m ≤ n)%nat ∧ nsteps Rel (n - m) u t.
Proof.
  intros Hd n. induction n as [|n IH]; intros x t Hst Ht m u Hsu.
  { inversion Hst; subst. inversion Hsu; subst; [split; [lia|constructor]|].
    exfalso. apply Ht. by eexists. }
  inversion Hst as [|? ? s1 ? Hs1 H1t]; subst.
  inversion Hsu as [|m' ? u1 ? Hu1 Hu]; subst; [split; [lia|done]|].
  assert (nsteps Rel n u1 t) as Hut.
  { destruct (Hd x s1 u1 Hs1 Hu1) as [<-|(s3 & H13 & Hu3)]; [done|].
    destruct (IH s1 t H1t Ht 1 s3) as [Hle H3t]; [by apply nsteps_once|].
    destruct n as [|n]; [lia|]. eapply nsteps_l; [done|]. by rewrite Nat.sub_1_r in H3t. }
  destruct (IH u1 t Hut Ht m' u Hu) as [Hle Hn]. split; [lia|].
  by replace (S n - S m')%nat with (n - m')%nat by lia.
Qed.

(** Every run, in any order, is shorter than [fuel], and ends in one final state. *)
Lemma explore_runs f fuel final s :
  main_survives f → explore fuel final s = true →
  ∃ t, final t = true ∧ nf (step pid_of f) t ∧
    ∀ m u, nsteps (step pid_of f) m s u → (m < fuel)%nat ∧ rtc (step pid_of f) u t.
Proof.
  intros Hm (n & t & Hlt & Hst & Hnf & Hfin)%(explore_sound f); [|done].
  exists t. split_and!; [done..|]. intros m u Hsu.
  destruct (diamond_runs _ (step_diamond f) n s t Hst Hnf m u Hsu) as [Hle Hut].
  split; [lia|]. eapply rtc_nsteps. by eexists.
Qed.
End commute.
