(* ===== verification/Processes.v ===== *)
(** * Processes: main, intermediate and init

    Models [process/container_main_process.rs], [process/container_intermediate_process.rs],
    [process/init/process.rs], [process/init/context.rs] and [process/args.rs] of
    [libcontainer] as programs over the channels of [Protocol].  What the calls of the
    system do is not modelled here: an [effect] names a call, and whether it succeeds
    is left open. *)
From S2P Require Import Prelude Text Paths Spec Validator Protocol.
Import UserNs.
Local Open Scope string_scope.
Local Open Scope list_scope.

(** ** Arguments, effects and results *)

(** The descriptor of a tenant container is only used by effects. *)
Inductive ContainerType : Type := InitContainer | TenantContainer.

(** [has_container] is whether the arguments hold a [Container]; [stdio] lists the
    given standard descriptors; [listen_fds] is [LISTEN_FDS] parsed, if it is set. *)
Record ContainerArgs : Type := MkArgs {
  container_type : ContainerType; args_spec : Spec; console_socket : bool;
  stdio : list Z; preserve_fds : Z; listen_fds : option Z; has_container : bool;
  user_ns_config : option UserNamespaceConfig; no_pivot : bool; as_sibling : bool;
  pid_file : option string }.

Inductive hook_kind : Type := Prestart | CreateRuntime | CreateContainer | StartContainer.

Inductive effect : Type :=
  (* main *)
  | CreateChannels | WriteSetgroupsDeny | WriteUidMapping | WriteGidMapping
  | WriteTimensOffsets (content : string) | WritePidFile (path : string)
  | OpenNetns (path : option string) | MoveDevice (name : string)
  | SendSeccompFd | CloseReceiver (c : chan)
  (* intermediate *)
  | SetName (name : string) | CreateCgroupManager | SetAffinity (cpus : string)
  | AddTask | ApplyResources | SetDumpable (b : bool) | SetRlimit (typ : Z) | CloseExecNotify
  (* intermediate and init *)
  | EnterNamespace (ns : LinuxNamespace) | SetId (uid gid : Z)
  (* main and init *)
  | RunHooks (k : hook_kind)
  (* init *)
  | SetSid | SetIoPriority | SetScheduler | SetMemoryPolicy | DupStdio (fd : Z)
  | SetHostname (s : string) | SetDomainname (s : string) | SetNoNewPrivileges
  | ReadUserns | PrepareRootfs | PivotRoot | MoveRoot | Chroot | AdjustRootPropagation
  | ReopenDevNull | WriteSysctl (key value : string) | SetupConsole (mount : bool)
  | SetPersonality | ApplyApparmor (profile : string) | SetUmask (mask : Z)
  | RemountRootReadonly | ReadonlyPath (path : string) | MaskPaths (paths : list string)
  | Chdir (path : string) | ErrnoIsEperm | ReadSetgroups | SetGroups (gids : list Z)
  | CloseRange (preserve : Z) | ConfigureDevice (name : string)
  | LoadSeccomp | CloseNotifyFd | ResetEffective | DropPrivileges
  | ChdirAgain (path : string) | VerifyCwd | ValidateExecutor | SetupEnvs
  | WaitForContainerStart | CloseNotifyListener | Exec | WriteExecNotify.

(** How a process ends: main returns a result; a clone callback returns an exit code,
    [None] standing for 0; a panic; the program of the container takes over. *)
Inductive result : Type :=
  | MainReturns (r : perr + Z * bool)
  | ExitCode (e : option perr)
  | Panicked
  | Executed.

Abbreviation process_code := (proc effect result).
Abbreviation P := (prog effect result perr).

Definition need {A} (o : option A) (field : string) : P A :=
  match o with Some a => mret a | None => throw (MissingSpec field) end.

(** The effects of an optional setting. *)
Definition on {A} (o : option A) (f : A → effect) : list effect := f <$> option_list o.
Definition on_if (b : bool) (e : effect) : list effect := if b then [e] else [].

Definition panic {A} : P A := λ _ _, Done Panicked.

(** ** Requests of the init process *)

Inductive InitRequest : Type := RHooks | RNetwork | RSeccomp | RReady.

#[global] Instance InitRequest_eq_dec : EqDecision InitRequest.
Proof. solve_decision. Defined.

Definition request_eqb (r q : InitRequest) : bool :=
  match r, q with
  | RHooks, RHooks | RNetwork, RNetwork | RSeccomp, RSeccomp | RReady, RReady => true
  | _, _ => false
  end.

(** [InitPhase], numbered in its order: setup, seccomp, ready *)
Definition phase (r : InitRequest) : nat :=
  match r with RHooks | RNetwork => 0 | RSeccomp => 1 | RReady => 2 end.

Definition request_of (m : Message) : option InitRequest :=
  match m with
  | HookRequest => Some RHooks
  | SetupNetworkDeviceReady => Some RNetwork
  | SeccompNotify => Some RSeccomp
  | InitReady => Some RReady
  | _ => None
  end.

(** The pending requests are a hash set, here a list without duplicates. *)
Definition from_requirements (hooks network seccomp : bool) : list InitRequest :=
  (if hooks then [RHooks] else []) ++ (if network then [RNetwork] else [])
  ++ (if seccomp then [RSeccomp] else []) ++ [RReady].

Definition devices (l : Linux) : list (string * LinuxNetDevice) := default [] (net_devices l).

Definition is_init (t : ContainerType) : bool :=
  match t with InitContainer => true | TenantContainer => false end.

(** [InitRequestSequence::new] *)
Definition sequence_new (t : ContainerType) (spec : Spec) : list InitRequest :=
  from_requirements (is_init t && has_hooks spec)
    (from_option (λ l, match devices l with [] => false | _ => true end) false (linux spec))
    (default false (linux spec ≫= seccomp_notify)).

Definition accept (pending : list InitRequest) (m : Message) :
    outcome perr (InitRequest * list InitRequest) :=
  received ← ok_or (request_of m) (UnexpectedInitMessage m);
  if negb (existsb (request_eqb received) pending) then Err (UnexpectedInitMessage m)
  else if existsb (λ r, (phase r <? phase received)%nat) pending
  then Err (UnexpectedInitMessage m)
  else Ok (received, List.filter (λ r, negb (request_eqb r received)) pending).

Section programs.
(** [format_error_chain], and the addresses that a moved network device had. *)
Context (report : perr → string) (device_addrs : string → list string).

(** ** The init process, [process/init/process.rs]

    Conditions on which the messages depend are decided by [if]; the others stay in
    the tree as [when]. *)

(** The namespaces other than user, pid and time, then the names of a new UTS
    namespace. *)
Definition apply_rest_namespaces (ns : Namespaces) (spec : Spec) : list effect :=
  (EnterNamespace <$> namespaces_to_enter ns
     (λ t, negb (bool_decide (t ∈ [NsUser; NsPid; NsTime]))))
  ++ match ns !! NsUts with
     | Some uts =>
         if bool_decide (is_Some (ns_path uts)) then []
         else on (hostname spec) SetHostname ++ on (domainname spec) SetDomainname
     | None => []
     end.

Definition do_pivot_root (ns : Namespaces) (no_pivot : bool) : effect :=
  match ns !! NsMount with
  | Some _ => if no_pivot then MoveRoot else PivotRoot
  | None => Chroot
  end.

(** An unprivileged user with supplementary groups in a new user namespace is
    unreachable code. *)
Definition unreachable_gids (u : User) (c : option UserNamespaceConfig) : bool :=
  nonempty (additional_gids u) && from_option (λ r, negb (privileged r)) false c.

Definition set_supplementary_gids (u : User) (c : option UserNamespaceConfig) : P () :=
  let set e := if nonempty (additional_gids u) then [e] else [] in
  _ ← act (set ReadSetgroups);
  if unreachable_gids u c then panic else act (set (SetGroups (default [] (additional_gids u)))).

(** [Mode::from_bits]: the permission bits, set-id bits and the sticky bit *)
Definition umask_valid (m : Z) : bool := (Z.land m (Z.lnot 4095) =? 0)%Z.

Definition sync_seccomp (notify_fd : bool) : P () :=
  if notify_fd then
    _ ← seccomp_notify_request;
    _ ← wait_for_seccomp_request_done;
    act_ [CloseNotifyFd]
  else mret ().

(** Loading the filter, if it is time, gives a notification descriptor when a rule asks
    for one. *)
Definition init_seccomp (now : bool) (seccomp : option bool) : P () :=
  _ ← act (if now then on seccomp (λ _, LoadSeccomp) else []);
  sync_seccomp (default false seccomp && now).

Definition configure_container_network_devices (ds : list (string * LinuxNetDevice)) : P () :=
  match ds with
  | [] => mret ()
  | _ =>
      _ ← network_setup_ready;
      addrs ← wait_for_move_network_device;
      act (ConfigureDevice <$> filter (λ n, n ∈ addrs.*1) ds.*1)
  end.

(** Enter the working directory; gives whether it has to be entered once more after
    the user and the capabilities have been set. *)
Definition first_chdir (dir : string) : P bool :=
  entered ← test (if bool_decide (dir = "") then [] else [Chdir dir]);
  if (entered : bool) then mret false
  else
    eperm ← test [ErrnoIsEperm];
    if (eperm : bool) then mret true else throw EffectFailed.

(** The runtime hooks are run by main, before the root is changed. *)
Definition request_hooks (wanted : bool) : P () :=
  if wanted then
    _ ← hook_request;
    _ ← wait_for_hook_request_done;
    act [RunHooks CreateContainer]
  else mret ().

Definition exec_payload : P () :=
  λ _ e, Do [Exec] (λ ok, if ok then Done Executed else e EffectFailed).

(** The first part: the session, the namespaces and the root file system. *)
Definition init_isolate (a : ContainerArgs) (l : Linux) (pr : Process) (ns : Namespaces) : P () :=
  let spec := args_spec a in
  let init := is_init (container_type a) in
  let console := console_socket a || default false (terminal pr) in
  _ ← act ([SetSid] ++ on (io_priority pr) (λ _, SetIoPriority)
           ++ on (scheduler pr) (λ _, SetScheduler) ++ on_if (has_memory_policy l) SetMemoryPolicy
           ++ (if console then [] else DupStdio <$> stdio a)
           ++ apply_rest_namespaces ns spec);
  _ ← act_ (on_if (bool_decide (no_new_privileges pr = Some true)) SetNoNewPrivileges);
  _ ← act (if init then [ReadUserns; PrepareRootfs] else []);
  _ ← request_hooks (init && has_hooks spec);
  act ((if init then
          [do_pivot_root ns (no_pivot a); AdjustRootPropagation; ReopenDevNull]
          ++ ((λ kv, WriteSysctl kv.1 kv.2) <$> default [] (sysctls l))
        else [])
       ++ on_if console (SetupConsole init)).

(** The second part: what the program may see and do. *)
Definition init_restrict (a : ContainerArgs) (l : Linux) (pr : Process) : P () :=
  let init := is_init (container_type a) in
  _ ← when (bool_decide (personality_flags l = Some true)) (throw (InvalidSetting "personality"));
  _ ← act (on (personality_flags l) (λ _, SetPersonality)
           ++ on (apparmor_profile pr) ApplyApparmor);
  _ ← when (negb (from_option umask_valid true (umask (user pr)))) (throw (InvalidSetting "umask"));
  _ ← act (on (umask (user pr)) SetUmask
           ++ (if init then
                 on_if (default false (root_readonly (args_spec a))) RemountRootReadonly
                 ++ (ReadonlyPath <$> default [] (readonly_paths l))
                 ++ on (masked_paths l) MaskPaths
               else []));
  do_chdir ← first_chdir (cwd pr);
  _ ← set_supplementary_gids (user pr) (user_ns_config a);
  _ ← act [SetId (uid (user pr)) (gid (user pr));
           CloseRange (swrap 32 (preserve_fds a + default 0%Z (listen_fds a))%Z)];
  _ ← configure_container_network_devices (devices l);
  let early := bool_decide (no_new_privileges pr = None) in
  _ ← init_seccomp early (seccomp_notify l);
  _ ← act ([ResetEffective] ++ on_if (has_capabilities pr) DropPrivileges
           ++ on_if do_chdir (ChdirAgain (cwd pr)) ++ [VerifyCwd]);
  init_seccomp (negb early) (seccomp_notify l).

(** The last part: report to main, wait for the start, and execute. *)
Definition init_run (a : ContainerArgs) (pr : Process) : P () :=
  let console := console_socket a || default false (terminal pr) in
  _ ← act [ValidateExecutor; SetupEnvs];
  _ ← init_ready (console && negb (console_socket a));
  _ ← close InitMain;
  _ ← act ([WaitForContainerStart; CloseNotifyListener]
           ++ on_if (is_init (container_type a) && has_hooks (args_spec a)) (RunHooks StartContainer));
  _ ← when (negb (args_given pr)) (throw (MissingSpec "args"));
  exec_payload.

Definition container_init_process (a : ContainerArgs) : P () :=
  l ← need (linux (args_spec a)) "linux";
  pr ← need (process (args_spec a)) "process";
  _ ← when (bool_decide (root_readonly (args_spec a) = None)) (throw (MissingSpec "root"));
  _ ← init_isolate a l pr (namespaces_try_from (namespaces l));
  _ ← init_restrict a l pr;
  init_run a pr.

(** The callback of the clone. *)
Definition init_callback (a : ContainerArgs) : process_code :=
  let fail e := Done (ExitCode (Some e)) in
  act [SetName "youki:[2:INIT]"] (λ _,
  close ToInit (λ _,
  close ToInter (λ _,
  close InterMain (λ _,
    container_init_process a (λ _, Done Panicked) (λ err,
      logged (exec_failed (report err)) (λ _,
      act_ (on_if (negb (is_init (container_type a))) WriteExecNotify) (λ _,
      fail err) fail) fail))
  fail) fail) fail) fail.

(** ** The intermediate process *)

Definition apply_cgroups (l : Linux) (init : bool) : list effect :=
  AddTask :: on_if (init && has_resources l) ApplyResources.

Definition affinity (t : ContainerType) (o : option string) : list effect :=
  if is_init t then [] else on o SetAffinity.

(** The mappings of a new user namespace are written by main. *)
Definition request_mapping (wanted : bool) : P () :=
  if wanted then
    _ ← act [SetDumpable true];
    _ ← identifier_mapping_request;
    _ ← wait_for_mapping_ack;
    act [SetDumpable false]
  else mret ().

Definition setup_userns (user_namespace : option LinuxNamespace) : P () :=
  _ ← act (on user_namespace EnterNamespace);
  _ ← request_mapping (creates_user_ns user_namespace);
  act (on user_namespace (λ _, SetId 0 0)).

(** Offsets are written for a time namespace that is created. *)
Definition wants_offsets (l : Linux) (time_namespace : option LinuxNamespace) : bool :=
  from_option (λ ns, negb (bool_decide (is_Some (ns_path ns)))) false time_namespace
  && nonempty (time_offsets l).

Definition setup_time_offsets (wanted : bool) : P () :=
  if wanted then
    _ ← act [SetDumpable true];
    _ ← time_offset_request;
    _ ← wait_for_time_offsets_ack;
    act [SetDumpable false]
  else mret ().

Definition intermediate_body (a : ContainerArgs) (l : Linux) (ns : Namespaces) : P () :=
  let spec := args_spec a in
  let t := container_type a in
  let cpus := process spec ≫= exec_cpu_affinity in
  _ ← act ([CreateCgroupManager] ++ affinity t (cpus ≫= fst) ++ apply_cgroups l (is_init t)
           ++ affinity t (cpus ≫= snd));
  _ ← setup_userns (ns !! NsUser);
  pr ← need (process spec) "process";
  _ ← act ((SetRlimit <$> default [] (rlimits pr)) ++ on (ns !! NsTime) EnterNamespace);
  _ ← setup_time_offsets (wants_offsets l (ns !! NsTime));
  _ ← act (on (ns !! NsPid) EnterNamespace);
  pid ← fork (init_callback a);
  _ ← act (on_if (negb (is_init t)) CloseExecNotify);
  _ ← intermediate_ready pid;
  _ ← close InterMain;
  _ ← close InitMain;
  _ ← close ToInter;
  close ToInit.

Definition container_intermediate_process (a : ContainerArgs) : P () :=
  l ← need (linux (args_spec a)) "linux";
  intermediate_body a l (namespaces_try_from (namespaces l)).

Definition intermediate_callback (a : ContainerArgs) : process_code :=
  let fail e := Done (ExitCode (Some e)) in
  act [SetName "youki:[1:INTER]"] (λ _,
    container_intermediate_process a (λ _, Done (ExitCode None)) (λ err,
      logged (send_error (report err)) (λ _, fail err) fail)) fail.

(** ** The main process *)

Definition setup_mapping (c : UserNamespaceConfig) : list effect :=
  on_if (negb (privileged c)) WriteSetgroupsDeny ++ [WriteUidMapping; WriteGidMapping].

Definition offset_line (o : string * LinuxTimeOffset) : string :=
  o.1 +:+ " " +:+ pretty (default 0%Z (secs o.2)) +:+ " " +:+ pretty (default 0%Z (nanosecs o.2)).

Definition build_timens_offsets (l : Linux) : option string :=
  offsets ← time_offsets l;
  if bool_decide (offsets = []) then None
  else
    nss ← namespaces l;
    time_ns ← find_namespace NsTime nss;
    if bool_decide (is_Some (ns_path time_ns)) then None
    else Some (String.concat (String LF "") (offset_line <$> offsets)).

Definition handle_hook_request (a : ContainerArgs) : P () :=
  _ ← act (if has_container a then [RunHooks Prestart; RunHooks CreateRuntime] else []);
  hook_done.

Definition handle_setup_network_device (l : Linux) : P () :=
  match devices l with
  | [] => throw (NetworkDeviceSetup "no network devices are configured")
  | ds =>
      match find_namespace NsNetwork (default [] (namespaces l)) with
      | None => throw (NetworkDeviceSetup "the network namespace is not configured")
      | Some net_ns =>
          _ ← act (OpenNetns (ns_path net_ns) :: (MoveDevice <$> ds.*1));
          move_network_device ((λ n, (n, device_addrs n)) <$> ds.*1)
      end
  end.

Definition handle_seccomp_notify (fd : bool) : P () :=
  if fd then _ ← act [SendSeccompFd]; seccomp_notify_done else throw MissingSeccompFds.

(** What main does for a request; it expects the section of the configuration that
    the request is about. *)
Definition serve_hooks (a : ContainerArgs) : P () :=
  if has_hooks (args_spec a) then handle_hook_request a else panic.

Definition serve_network (a : ContainerArgs) : P () :=
  match linux (args_spec a) with Some l => handle_setup_network_device l | None => panic end.

Definition serve_seccomp (a : ContainerArgs) (fd : bool) : P () :=
  match linux (args_spec a) ≫= seccomp_notify with
  | Some _ => handle_seccomp_notify fd
  | None => panic
  end.

(** The loop over the requests of the init process.  Each accepted request leaves the
    pending ones, so there are at most as many rounds as pending requests. *)
Fixpoint serve (fuel : nat) (hooks network : P ()) (seccomp : bool → P ())
    (pending : list InitRequest) : P bool :=
  match fuel with
  | 0 => panic
  | S fuel =>
      p ← recv_init_message;
      match accept pending p.1 with
      | Ok (RReady, _) => mret p.2
      | Ok (RHooks, pending) => _ ← hooks; serve fuel hooks network seccomp pending
      | Ok (RNetwork, pending) => _ ← network; serve fuel hooks network seccomp pending
      | Ok (RSeccomp, pending) => _ ← seccomp p.2; serve fuel hooks network seccomp pending
      | Err e => throw e
      | Panic => panic
      end
  end.

Definition container_main_process (a : ContainerArgs) : P (Z * bool) :=
  let spec := args_spec a in
  _ ← act [CreateChannels];
  _ ← fork (intermediate_callback a);
  _ ← close InterMain;
  _ ← close InitMain;
  _ ← match user_ns_config a with
      | Some c =>
          _ ← wait_for_mapping_request;
          _ ← act (setup_mapping c);
          mapping_written
      | None => mret ()
      end;
  _ ← match linux spec ≫= build_timens_offsets with
      | Some time_offsets =>
          _ ← wait_for_time_offset_request;
          _ ← act [WriteTimensOffsets time_offsets];
          time_offsets_written
      | None => mret ()
      end;
  _ ← close ToInter;
  init_pid ← wait_for_intermediate_ready;
  _ ← act_ (on (pid_file a) WritePidFile);
  let sequence := sequence_new (container_type a) spec in
  foreground_pty_fd ← serve (length sequence) (serve_hooks a) (serve_network a) (serve_seccomp a)
                        sequence;
  _ ← close ToInit;
  _ ← act (CloseReceiver <$> [ToInter; ToInit; InterMain; InitMain]);
  _ ← when (negb (as_sibling a)) (waitpid Inter);
  mret (init_pid, foreground_pty_fd).

Definition main_code (a : ContainerArgs) : process_code :=
  container_main_process a (λ r, Done (MainReturns (inr r))) (λ e, Done (MainReturns (inl e))).
End programs.
