(* ===== verification/Creation.v ===== *)
(** * Creation: the three processes together

    The system of the main, intermediate and init processes of [Processes], run by the
    semantics of [Protocol]: for every configuration that the builder accepts, every
    pattern of failures and every order of the steps, main returns and nobody meets a
    message it does not expect; without failures the container's program is executed.
    The fuel 200 bounds the steps of a run: the longest one, without failures and with
    all requests, has fewer. *)
From stdpp Require Import relations.
From S2P Require Import Prelude Text Paths Spec Validator Protocol Processes.
Import UserNs.
Local Open Scope string_scope.
Local Open Scope list_scope.

(** ** What a creation ends in *)

(** Errors that no process should meet: the others did not follow the protocol. *)
Definition conforming (e : perr) : bool :=
  match e with
  | UnexpectedMessage _ _ | UnexpectedInitMessage _ | MissingSeccompFds | MissingMountFds
  | MountFdFailed _ | NetworkDeviceSetup _ => false
  | _ => true
  end.

Definition child_ended (x : status effect result) : bool :=
  match x with
  | Exited WasKilled | Exited (Returned (ExitCode None)) | Exited (Returned Executed) => true
  | Exited (Returned (ExitCode (Some e))) => conforming e
  | _ => false
  end.

(** Waiting for main on the channel of the intermediate process. *)
Definition awaits_main (x : status effect result) : bool :=
  match x with Running _ (Recv ToInter _) => true | _ => false end.

(** Main has returned; if it succeeded, both others have run and ended; if not, they
    were not started or have ended, except that the intermediate process may wait. *)
Definition settled (s : state effect result) : bool :=
  let inter := t_inter (procs s) in
  let init := t_init (procs s) in
  match t_main (procs s) with
  | Exited (Returned (MainReturns (inr _))) => child_ended inter && child_ended init
  | Exited (Returned (MainReturns (inl e))) =>
      conforming e && (is_absent inter || child_ended inter || awaits_main inter)
      && (is_absent init || child_ended init)
  | _ => false
  end.

(** ** The processes agree on the requests *)

Lemma need_Some {A B} (x : A) field (f : A → P B) : (need (Some x) field ≫= f) = f x.
Proof. done. Qed.

(** The three views of the configuration ask for the same messages. *)
Record agreement (a : ContainerArgs) (l : Linux) (pr : Process) : Prop := MkAgreement {
  agree_linux : linux (args_spec a) = Some l;
  agree_process : process (args_spec a) = Some pr;
  agree_user : creates_user_ns (namespaces_try_from (namespaces l) !! NsUser)
               = bool_decide (is_Some (user_ns_config a));
  agree_time : wants_offsets l (namespaces_try_from (namespaces l) !! NsTime)
               = bool_decide (is_Some (build_timens_offsets l));
  agree_net : devices l ≠ [] → is_Some (find_namespace NsNetwork (default [] (namespaces l)));
  agree_gids : unreachable_gids (user pr) (user_ns_config a) = false }.

(** Bring the conditions on which the messages depend to the surface, and distinguish
    them; what remains undecided are conditions that the exploration leaves open. *)
Ltac open_creation a l pr Hagree :=
  destruct Hagree as [Hl Hp Hu Ht Hn Hg];
  unfold main_code, container_main_process, intermediate_callback,
    container_intermediate_process, serve_hooks, serve_network, serve_seccomp, sequence_new;
  cbv zeta; rewrite Hl, need_Some; unfold intermediate_body, init_callback, container_init_process;
  cbv zeta; rewrite Hl, Hp, !need_Some;
  unfold setup_userns, init_isolate, init_restrict, set_supplementary_gids, init_seccomp,
    init_run, handle_setup_network_device;
  cbv zeta; rewrite Hg; cbn [from_option];
  change (Some l ≫= build_timens_offsets) with (build_timens_offsets l);
  change (Some l ≫= seccomp_notify) with (seccomp_notify l);
  rewrite Hu, Ht; revert Hn; clear Hl Hp Hg Hu Ht.

Ltac split_requests a l pr :=
  generalize (build_timens_offsets l), (find_namespace NsNetwork (default [] (namespaces l))),
    (devices l), (user_ns_config a), (bool_decide (no_new_privileges pr = None));
  intros offsets net_ns ds uc early Hn;
  destruct ds as [|d ds]; [clear Hn|destruct Hn as [n ->]; [done|] ];
  destruct (default false (seccomp_notify l)) eqn:Hs;
    [destruct (seccomp_notify l) as [[] |]; try done; destruct early| |
     destruct (seccomp_notify l) as [[] |]; try done; destruct early| ];
  (destruct (is_init (container_type a) && has_hooks (args_spec a)) eqn:Hh;
    [apply andb_true_iff in Hh as [_ ->]|]); destruct offsets, uc.

Section agree.
Context (report : perr → string) (device_addrs : string → list string) (pid_of : who → Z).

Lemma explore_creation a l pr :
  agreement a l pr →
  explore pid_of 200 settled (initial (main_code report device_addrs a)) = true.
Proof.
  intros Hagree. open_creation a l pr Hagree. split_requests a l pr; vm_compute; reflexivity.
Qed.

Lemma user_ns_new_agrees path_env exists_ rootless spec c l pr :
  linux spec = Some l → process spec = Some pr →
  user_ns_new path_env exists_ rootless spec = Ok c →
  creates_user_ns (namespaces_try_from (namespaces l) !! NsUser) = bool_decide (is_Some c) ∧
  unreachable_gids (user pr) c = false.
Proof.
  intros Hl Hp. unfold user_ns_new. rewrite Hl. cbn. destruct (creates_user_ns _) eqn:Hc.
  2: { intros [= <-]. split; [by rewrite bool_decide_eq_false_2 by (by intros [])|]. unfold unreachable_gids. cbn. by rewrite andb_false_r. }
  intros ([] & Hv & (r & Hr & (b & _ & [= <-])%bind_Ok)%bind_Ok)%bind_Ok. split; [done|].
  unfold unreachable_gids. cbn. rewrite negb_involutive.
  destruct (validate_spec_for_new_user_ns rootless spec) eqn:Hs; simplify_eq/=.
  destruct rootless as [r'|]; simplify_eq/=.
  unfold validate_spec_for_new_user_ns in Hs. rewrite Hl, Hp in Hs.
  repeat (apply bind_Ok in Hs as (? & _ & Hs) || (case_bool_decide; [done|])).
  cbn in Hs. destruct (additional_gids (user pr)) as [[|g gids]|]; try done.
  by destruct r.
Qed.

Lemma offsets_agree l :
  NoDup (ns_typ <$> default [] (namespaces l)) →
  wants_offsets l (namespaces_try_from (namespaces l) !! NsTime)
  = bool_decide (is_Some (build_timens_offsets l)).
Proof.
  intros Hnd. rewrite namespaces_lookup by done.
  unfold wants_offsets, build_timens_offsets, nonempty.
  destruct (time_offsets l) as [[|o os]|]; cbn; try by rewrite andb_false_r.
  destruct (namespaces l) as [nss|]; cbn; [|done].
  destruct (find_namespace NsTime nss) as [ns|]; cbn; [|done].
  by destruct (ns_path ns).
Qed.

(** What the builder has established when it runs the main process: the configuration
    is valid, has the sections that it asks for, and the user namespace is prepared. *)
Record ready (e : env) (path_env : option string) (exists_ : Path → bool) (rootless : option bool)
    (is_rootless : bool) (a : ContainerArgs) (l : Linux) (pr : Process) : Prop := MkReady {
  ready_valid : validate_spec e (args_spec a) is_rootless = Ok ();
  ready_linux : linux (args_spec a) = Some l;
  ready_process : process (args_spec a) = Some pr;
  ready_user : user_ns_new path_env exists_ rootless (args_spec a) = Ok (user_ns_config a) }.

Lemma ready_agreement e path_env exists_ rootless is_rootless a l pr :
  ready e path_env exists_ rootless is_rootless a l pr → agreement a l pr.
Proof.
  intros [Hv Hl Hp Hu]. destruct (user_ns_new_agrees _ _ _ _ _ l pr Hl Hp Hu) as [Hagree Hg].
  pose proof (types_ok (args_spec a)) as Ht. pose proof (net_ok (args_spec a) is_rootless) as Hn.
  unfold validate_spec in Hv. apply bind_Ok in Hv as ([] & Hty & Hv). rewrite Hty in Ht.
  do 8 apply bind_Ok in Hv as (_ & _ & Hv). apply bind_Ok in Hv as ([] & Hnd & _).
  rewrite Hnd in Hn. unfold types, spec_namespaces in Ht. rewrite Hl in Ht, Hn. cbn in Ht, Hn.
  split; try done.
  - by apply offsets_agree.
  - unfold devices. destruct (default [] (net_devices l)) as [|d ds] eqn:Hd; [done|intros _].
    destruct (Hn d) as [Hin _]; [left|]. unfold types, spec_namespaces in Hin. rewrite Hl in Hin.
    apply list_elem_of_fmap in Hin as (ns & Hns & Hin). cbn in Hin.
    destruct (find_namespace NsNetwork _) eqn:Hf; [by eexists|].
    apply (find_none _ _) with (x := ns) in Hf; [|by apply list_elem_of_In].
    apply bool_decide_eq_false in Hf. congruence.
Qed.

(** C2: whatever fails and whichever child is killed, every run of the three processes
    has fewer than 200 steps and, in whatever order they run, ends in one state: main
    has returned; nobody has received a message that it did not expect or panicked;
    after a success both others have ended; after a failure they have ended or were
    never started, or the intermediate process still waits for main. *)
Theorem creation_settles e path_env exists_ rootless is_rootless a l pr f :
  ready e path_env exists_ rootless is_rootless a l pr → main_survives f →
  ∃ t, settled t = true ∧ nf (step pid_of f) t ∧
    ∀ m u, nsteps (step pid_of f) m (initial (main_code report device_addrs a)) u →
      (m < 200)%nat ∧ rtc (step pid_of f) u t.
Proof. intros Hr Hf. by eapply explore_runs, explore_creation, ready_agreement. Qed.
End agree.

(** ** Runs for one oracle *)

Section success.
Context (report : perr → string) (device_addrs : string → list string) (pid_of : who → Z).

Fixpoint run (f : oracle) (fuel : nat) (s : state effect result) : state effect result :=
  match fuel with
  | 0 => s
  | S fuel =>
      match pick pid_of s with
      | Some w =>
          match step_with pid_of (f w (ops_done w s)) w s with
          | Some s' => run f fuel s'
          | None => s
          end
      | None => s
      end
  end.

Definition no_failures : oracle := λ _ _, Success.

Lemma run_steps f fuel s : ∃ n, nsteps (step pid_of f) n s (run f fuel s).
Proof.
  revert s. induction fuel as [|fuel IH]; intros s; [exists 0; constructor|]. cbn [run].
  destruct (pick pid_of s) as [w|]; [|exists 0; constructor].
  destruct (step_with pid_of (f w (ops_done w s)) w s) as [s'|] eqn:Hs;
    [|exists 0; constructor].
  destruct (IH s') as [n Hn]. exists (S n). eapply nsteps_l; [by exists w|done].
Qed.

Definition all_exited (s : state effect result) : bool :=
  is_exited (t_main (procs s)) && is_exited (t_inter (procs s)) && is_exited (t_init (procs s)).

Lemma all_exited_nf f s : all_exited s = true → nf (step pid_of f) s.
Proof.
  intros [[Hm Hi]%andb_true_iff Ht]%andb_true_iff [s' [w Hw]].
  apply step_with_Some in Hw as (n & p & d & Hr & _).
  destruct w; cbn in Hr; rewrite Hr in *; done.
Qed.

(** Everything that the init process checks itself is in order. *)
Record runnable (a : ContainerArgs) (l : Linux) (pr : Process) : Prop := MkRunnable {
  run_root : bool_decide (root_readonly (args_spec a) = None) = false;
  run_personality : bool_decide (personality_flags l = Some true) = false;
  run_umask : from_option umask_valid true (umask (user pr)) = true;
  run_args : args_given pr = true }.

Definition terminal_fd (a : ContainerArgs) (pr : Process) : bool :=
  (console_socket a || default false (terminal pr)) && negb (console_socket a).

Definition created (a : ContainerArgs) (pr : Process) : tri (status effect result) :=
  Tri (Exited (Returned (MainReturns (inr (pid_of Init, terminal_fd a pr)))))
      (Exited (Returned (ExitCode None))) (Exited (Returned Executed)).

Lemma run_creation a l pr :
  agreement a l pr → runnable a l pr →
  procs (run no_failures 200 (initial (main_code report device_addrs a))) = created a pr.
Proof.
  intros Hagree [Hroot Hpers Humask Hargs]. unfold created, terminal_fd.
  open_creation a l pr Hagree. rewrite Hroot, Hpers, Humask, Hargs.
  destruct (as_sibling a); split_requests a l pr; vm_compute; reflexivity.
Qed.

(** C17: without failures, a container whose settings are in order is created: every
    run ends, main returns the pid of the init process, the intermediate process exits
    with 0, and the init process executes the program. *)
Theorem creation_succeeds e path_env exists_ rootless is_rootless a l pr :
  ready e path_env exists_ rootless is_rootless a l pr → runnable a l pr →
  ∃ n t, procs t = created a pr ∧
    ∀ m u, nsteps (step pid_of no_failures) m (initial (main_code report device_addrs a)) u →
      (m ≤ n)%nat ∧ nsteps (step pid_of no_failures) (n - m) u t.
Proof.
  intros Hr Hrun. destruct (run_steps no_failures 200 (initial (main_code report device_addrs a))) as [n Hn].
  assert (procs (run no_failures 200 (initial (main_code report device_addrs a))) = created a pr) as Hp
    by (eapply run_creation; [by eapply ready_agreement|done]).
  exists n, (run no_failures 200 (initial (main_code report device_addrs a))). split; [done|].
  apply (diamond_runs _ (step_diamond pid_of no_failures) _ _ _ Hn).
  apply all_exited_nf. unfold all_exited. by rewrite Hp.
Qed.

(** ** A process that is left behind *)

(** The sixth operation of main writes the mappings. *)
Definition mapping_fails : oracle := λ w n,
  match w, n with Main, 5 => Failure | _, _ => Success end.

Lemma run_mapping_fails a l pr c :
  agreement a l pr → user_ns_config a = Some c →
  let t := run mapping_fails 200 (initial (main_code report device_addrs a)) in
  t_main (procs t) = Exited (Returned (MainReturns (inl EffectFailed))) ∧
  awaits_main (t_inter (procs t)) = true ∧ t_init (procs t) = Absent ∧
  qget ToInter (queues t) = [] ∧ qget ToInter (t_inter (held t)) = true.
Proof.
  intros Hagree Hc. open_creation a l pr Hagree. rewrite Hc. intros _. unfold setup_mapping.
  destruct (privileged c); vm_compute; auto 10.
Qed.

(** When main fails to write the mappings of a new user namespace, it returns
    without an answer to the intermediate process.  That process holds a sender of its
    own channel, so it does not find the channel broken and waits for ever. *)
Theorem intermediate_left_behind e path_env exists_ rootless is_rootless a l pr c :
  ready e path_env exists_ rootless is_rootless a l pr → user_ns_config a = Some c →
  ∃ n t, t_main (procs t) = Exited (Returned (MainReturns (inl EffectFailed))) ∧
    awaits_main (t_inter (procs t)) = true ∧ nf (step pid_of mapping_fails) t ∧
    ∀ m u, nsteps (step pid_of mapping_fails) m (initial (main_code report device_addrs a)) u →
      (m ≤ n)%nat ∧ nsteps (step pid_of mapping_fails) (n - m) u t.
Proof.
  intros Hr%ready_agreement Hc.
  destruct (run_mapping_fails a l pr c Hr Hc) as (Hm & Hi & Ht & Hq & Hh).
  destruct (run_steps mapping_fails 200 (initial (main_code report device_addrs a))) as [n Hn].
  revert Hn Hm Hi Ht Hq Hh. generalize (run mapping_fails 200 (initial (main_code report device_addrs a))).
  intros t Hn Hm Hi Ht Hq Hh. assert (nf (step pid_of mapping_fails) t) as Hnf.
  { intros [s' [w Hw]]. apply step_with_Some in Hw as (n' & p & d & Hrun & Hd & _).
    destruct w; cbn in Hrun; [congruence| |congruence]. rewrite Hrun in Hi.
    destruct p as [| | | | |[] k| | |]; try done. cbn in Hq, Hh, Hd. rewrite Hq in Hd.
    unfold sender_open in Hd. cbn in Hd. by rewrite Hh, orb_true_r in Hd. }
  exists n, t. split_and!; [done..|]. by apply (diamond_runs _ (step_diamond pid_of _) _ _ _ Hn).
Qed.
End success.

(** ** An example: a container with every kind of request *)

Module ExampleContainer.
Definition ex_linux : Linux := MkLinux
  (Some (map (λ t, MkNamespace t None) [NsUser; NsTime; NsMount; NsNetwork; NsUts]))
  (Some [MkIdMapping 100000 0 65536]) (Some [MkIdMapping 100000 0 65536])
  (Some [("monotonic", MkTimeOffset (Some 10%Z) None)])
  (Some [("eth0", MkNetDevice None)])
  (Some [("net.ipv4.ip_forward", "1")]) (Some ["/proc/kcore"]) (Some ["/proc/sys"])
  (Some true) None None false false.

Definition ex_process : Process := MkProcess
  (Some true) (MkUser 1000 1000 (Some 18%Z) None) true "/" None true (Some [7%Z]) None None None None.

Definition ex_spec : Spec := MkSpec
  (Some ex_linux) (Some ex_process) (Some true) true (Some []) (Some "box") None.

Definition ex_args : ContainerArgs := MkArgs InitContainer ex_spec false [] 0 None true
  (Some (MkUserNs None None (uid_mappings ex_linux) (gid_mappings ex_linux)
           (Some (MkNamespace NsUser None)) true)) false false None.

Lemma ex_ready :
  ready example_env (Some "/usr/bin") (λ _, true) (Some false) false ex_args ex_linux ex_process.
Proof. split; vm_compute; reflexivity. Qed.

Lemma creation_settles_witness : ∃ t : state effect result, settled t = true ∧
  nf (step (λ _, 7%Z) mapping_fails) t ∧
  ∀ m u, nsteps (step (λ _, 7%Z) mapping_fails) m
           (initial (main_code (λ _, "error") (λ _, []) ex_args)) u →
    (m < 200)%nat ∧ rtc (step (λ _, 7%Z) mapping_fails) u t.
Proof.
  apply (creation_settles (λ _, "error") (λ _, []) (λ _, 7%Z) example_env (Some "/usr/bin")
    (λ _, true) (Some false) false ex_args ex_linux ex_process mapping_fails ex_ready).
  intros n. by do 6 (destruct n as [|n]; [done|]).
Defined.

Lemma creation_succeeds_witness : ∃ n (t : state effect result),
  t_main (procs t) = Exited (Returned (MainReturns (inr (7%Z, true)))) ∧
  nsteps (step (λ _, 7%Z) no_failures) n
    (initial (main_code (λ _, "error") (λ _, []) ex_args)) t.
Proof.
  destruct (creation_succeeds (λ _, "error") (λ _, []) (λ _, 7%Z) example_env (Some "/usr/bin")
    (λ _, true) (Some false) false ex_args ex_linux ex_process ex_ready)
    as (n & t & Ht & Hruns); [split; vm_compute; reflexivity|].
  exists n, t. split; [by rewrite Ht|].
  destruct (Hruns 0 _ (nsteps_O _ _)) as [_ Hn]. by rewrite Nat.sub_0_r in Hn.
Defined.

Lemma intermediate_left_behind_witness : ∃ (t : state effect result),
  awaits_main (t_inter (procs t)) = true ∧ nf (step (λ _, 7%Z) mapping_fails) t ∧
  rtc (step (λ _, 7%Z) mapping_fails) (initial (main_code (λ _, "error") (λ _, []) ex_args)) t.
Proof.
  destruct (intermediate_left_behind (λ _, "error") (λ _, []) (λ _, 7%Z) example_env
    (Some "/usr/bin") (λ _, true) (Some false) false ex_args ex_linux ex_process _ ex_ready eq_refl)
    as (n & t & _ & Hi & Hnf & Hruns).
  exists t. split; [done|]. split; [done|]. apply rtc_nsteps. exists (n - 0)%nat.
  apply (Hruns 0 _ (nsteps_O _ _)).
Defined.
End ExampleContainer.
