(* ===== verification/InitOrder.v ===== *)
(** * InitOrder: the requests that main accepts, and the order in which the init
      process confines itself

    The first part is about [InitRequestSequence] of [container_main_process.rs]: its
    invariant, and which sequences of messages it accepts.  The second part is about
    [container_init_process]: in every run that comes to execute the program, whatever
    the process receives and whatever fails on the way, the effects follow the order of
    the stages, and none of those that confine the container is left out. *)
From Stdlib Require Import Sorting.Sorted.
From S2P Require Import Prelude Text Paths Spec Validator Protocol Processes.
Import UserNs.
Local Open Scope string_scope.
Local Open Scope list_scope.

(** ** Requests *)

Lemma request_eqb_eq r q : request_eqb r q = true ↔ r = q.
Proof. by destruct r, q. Qed.

Lemma accept_Ok pending m r p' :
  accept pending m = Ok (r, p') ↔
  request_of m = Some r ∧ r ∈ pending ∧ (∀ q, q ∈ pending → (phase r ≤ phase q)%nat) ∧
  p' = List.filter (λ q, negb (request_eqb q r)) pending.
Proof.
  unfold accept. destruct (request_of m) as [r0|]; [|split; [done|by intros ([=] & _)]].
  cbn -[Nat.ltb]. destruct (existsb (request_eqb r0) pending) eqn:Hin; cbn -[Nat.ltb].
  - apply existsb_exists in Hin as (q & Hq%list_elem_of_In & <-%request_eqb_eq).
    destruct (existsb (λ q, (phase q <? phase r0)%nat) pending) eqn:Hph.
    + apply existsb_exists in Hph as (q & Hq'%list_elem_of_In & Hlt%Nat.ltb_lt).
      split; [done|]. intros ([= <-] & _ & Hle & _). specialize (Hle q Hq'). lia.
    + split; [|by intros ([= <-] & _ & _ & ->)]. intros [= <- <-].
      split_and!; [done..| |done]. intros q Hq'. apply not_lt. intros Hlt.
      assert (existsb (λ q, (phase q <? phase r0)%nat) pending = true) as Ht; [|congruence].
      apply existsb_exists. exists q. split; [by apply list_elem_of_In|by apply Nat.ltb_lt].
  - split; [done|]. intros ([= <-] & Hr & _).
    assert (existsb (request_eqb r0) pending = true) as Ht; [|congruence].
    apply existsb_exists. exists r0. split; [by apply list_elem_of_In|by apply request_eqb_eq].
Qed.

Lemma remove_permutation r pending :
  NoDup pending → r ∈ pending →
  pending ≡ₚ r :: List.filter (λ q, negb (request_eqb q r)) pending.
Proof.
  induction pending as [|q l IH]; [by inversion 2|].
  intros [Hq Hnd]%NoDup_cons Hr. cbn. destruct (request_eqb q r) eqn:Hqr; cbn.
  - apply request_eqb_eq in Hqr as ->. apply Permutation_skip.
    clear IH Hnd Hr. induction l as [|q l IH]; [done|]. cbn.
    destruct (request_eqb q r) eqn:Hqr; cbn; [apply request_eqb_eq in Hqr; set_solver|].
    apply Permutation_skip, IH. set_solver.
  - apply elem_of_cons in Hr as [->|Hr]; [by rewrite (proj2 (request_eqb_eq q q)) in Hqr|].
    rewrite Permutation_swap. by apply Permutation_skip, IH.
Qed.

(** While the loop runs, [Ready] is pending and nothing is pending twice. *)
Definition sequence_ok (pending : list InitRequest) : Prop := NoDup pending ∧ RReady ∈ pending.

(** C16: the invariant of the loop over the requests.  It holds at the start; accepting
    a request other than [Ready] keeps it and leaves fewer requests, so the loop ends;
    [Ready] is accepted only when nothing else is pending. *)
Theorem sequence_invariant t spec pending m r pending' :
  sequence_ok (sequence_new t spec) ∧
  (sequence_ok pending → accept pending m = Ok (r, pending') →
   (length pending' < length pending)%nat ∧
   if decide (r = RReady) then pending' = [] else sequence_ok pending').
Proof.
  split.
  { unfold sequence_new, from_requirements, sequence_ok.
    destruct (is_init t && has_hooks spec), (from_option _ _ _), (default false _); cbn;
      (split; [apply (bool_decide_unpack _); reflexivity|set_solver]). }
  intros [Hnd Hready] (_ & Hr & Hle & Heq)%accept_Ok.
  pose proof (remove_permutation r pending Hnd Hr) as Hp. rewrite <- Heq in Hp.
  split; [rewrite Hp; cbn; lia|]. case_decide as Hrr.
  - destruct pending' as [|q p']; [done|exfalso].
    assert (q ∈ pending) as Hq by (rewrite Hp; set_solver).
    pose proof (Hle q Hq) as Hph. rewrite Hp in Hnd. apply NoDup_cons in Hnd as [Hni _].
    subst r. destruct q; cbn in Hph; try lia. set_solver.
  - rewrite Hp in Hnd. apply NoDup_cons in Hnd as [_ Hnd]. split; [done|].
    rewrite Hp in Hready. set_solver.
Qed.

Lemma sequence_invariant_witness :
  sequence_ok [RHooks; RSeccomp; RReady] ∧ sequence_ok [RSeccomp; RReady].
Proof.
  assert (sequence_ok [RHooks; RSeccomp; RReady]) as Hok
    by (split; [apply (bool_decide_unpack _); reflexivity|set_solver]).
  split; [exact Hok|].
  exact (proj2 (proj2 (sequence_invariant InitContainer
    (MkSpec None None None true None None None) _ HookRequest RHooks _) Hok eq_refl)).
Defined.

(** Accept a sequence of messages, one after the other. *)
Definition accept_all (ms : list Message) (pending : list InitRequest) :
    outcome perr (list InitRequest) :=
  for_each (λ m p, r ← accept p m; Ok r.2) ms pending.

Definition in_phase_order : list InitRequest → Prop :=
  StronglySorted (λ r q, (phase r ≤ phase q)%nat).

(** A sequence of messages is accepted to the end exactly when it consists of the
    pending requests, each once, in the order of their phases: hooks and network in
    either order, then seccomp, then ready. *)
Theorem accepted_sequences ms pending :
  NoDup pending →
  accept_all ms pending = Ok [] ↔
  ∃ rs, request_of <$> ms = Some <$> rs ∧ rs ≡ₚ pending ∧ in_phase_order rs.
Proof.
  unfold accept_all. revert pending. induction ms as [|m ms IH]; intros pending Hnd; cbn.
  { split; [intros [= ->]; exists []; split_and!; [done..|constructor]|].
    intros ([|r rs] & Hm & Hp & _); [|done]. by apply Permutation_nil in Hp as ->. }
  split.
  - intros (p' & Ha & Hrest)%bind_Ok. apply bind_Ok in Ha as ([r p''] & Ha & [= <-]).
    apply accept_Ok in Ha as (Hm & Hr & Hle & Heq). cbn in *.
    pose proof (remove_permutation r pending Hnd Hr) as Hp. rewrite <- Heq in Hp.
    assert (NoDup p'') as Hnd' by (rewrite Hp in Hnd; by apply NoDup_cons in Hnd as [_ ?]).
    apply (IH p'' Hnd') in Hrest as (rs & Hrs & Hperm & Hs).
    exists (r :: rs). split_and!; [cbn; congruence|by rewrite Hp, Hperm|].
    constructor; [done|]. apply Forall_forall. intros q Hq. apply Hle. rewrite Hp. right.
    by rewrite <- Hperm.
  - intros ([|r rs] & Hm & Hp & Hs); [done|]. cbn in Hm. injection Hm as Hm Hrs.
    apply StronglySorted_inv in Hs as [Hs Hle]. rewrite Forall_forall in Hle.
    assert (r ∈ pending) as Hr by (rewrite <- Hp; set_solver).
    assert (accept pending m = Ok (r, List.filter (λ q, negb (request_eqb q r)) pending)) as ->.
    { apply accept_Ok. split_and!; [done..| |done]. intros q Hq. rewrite <- Hp in Hq.
      apply elem_of_cons in Hq as [->|Hq]; [done|by apply Hle]. }
    pose proof (remove_permutation r pending Hnd Hr) as Hp'. cbn.
    apply IH; [rewrite Hp' in Hnd; by apply NoDup_cons in Hnd as [_ ?]|].
    exists rs. split_and!; [done| |done]. eapply Permutation_cons_inv. by rewrite Hp, <- Hp'.
Qed.

Lemma accepted_sequences_witness :
  accept_all [SetupNetworkDeviceReady; HookRequest; SeccompNotify; InitReady]
    (from_requirements true true true) = Ok [].
Proof.
  apply accepted_sequences; [apply (bool_decide_unpack _); reflexivity|].
  exists [RNetwork; RHooks; RSeccomp; RReady]. split; [reflexivity|].
  split; [constructor|]. repeat constructor.
Defined.

(** ** Runs of one process

    The effects that a process may perform one after the other, whatever it receives,
    whichever operations fail and wherever it stops. *)
Inductive trace : process_code → list effect → Prop :=
  | trace_stop (p : process_code) : trace p []
  | trace_do es k tr : trace (k true) tr → trace (Do es k) (es ++ tr)
  | trace_do_fails es k n tr :
      (n < length es)%nat → trace (k false) tr → trace (Do es k) (take n es ++ tr)
  | trace_ignore es p n tr : trace p tr → trace (Ignore es p) (take n es ++ tr)
  | trace_if (b : bool) p q tr : trace (if b then p else q) tr → trace (If b p q) tr
  | trace_send c m k b tr : trace (k b) tr → trace (Send c m k) tr
  | trace_recv c k o tr : trace (k o) tr → trace (Recv c k) tr
  | trace_close c k b tr : trace (k b) tr → trace (Close c k) tr
  | trace_fork p k o tr : trace (k o) tr → trace (Fork p k) tr
  | trace_wait w k b tr : trace (k b) tr → trace (Wait w k) tr.

(** The stages of [container_init_process]; the filter is loaded [early] when the
    process may still gain privileges. *)
Definition stage (early : bool) (e : effect) : nat :=
  match e with
  | SetName _ => 0
  | SetSid | SetIoPriority | SetScheduler | SetMemoryPolicy | DupStdio _ => 1
  | EnterNamespace _ => 2
  | SetHostname _ | SetDomainname _ => 3
  | SetNoNewPrivileges => 4
  | ReadUserns | PrepareRootfs => 5
  | RunHooks CreateContainer => 6
  | PivotRoot | MoveRoot | Chroot => 7
  | AdjustRootPropagation | ReopenDevNull | WriteSysctl _ _ => 8
  | SetupConsole _ => 9
  | SetPersonality | ApplyApparmor _ => 10
  | SetUmask _ => 11
  | RemountRootReadonly | ReadonlyPath _ | MaskPaths _ => 12
  | Chdir _ | ErrnoIsEperm => 13
  | ReadSetgroups | SetGroups _ => 14
  | SetId _ _ => 15
  | CloseRange _ => 16
  | ConfigureDevice _ => 17
  | LoadSeccomp | CloseNotifyFd => if early then 18 else 23
  | ResetEffective => 19
  | DropPrivileges => 20
  | ChdirAgain _ => 21
  | VerifyCwd => 22
  | ValidateExecutor | SetupEnvs => 24
  | WaitForContainerStart | CloseNotifyListener => 25
  | RunHooks StartContainer => 26
  | Exec => 27
  | _ => 28
  end.

Section order.
Context (early : bool).

Definition ordered : list effect → Prop :=
  StronglySorted (λ e e', (stage early e ≤ stage early e')%nat).

(** [es] is ordered, with stages from [lo] to [hi]. *)
Definition emits (lo hi : nat) (es : list effect) : Prop :=
  ordered es ∧ Forall (λ e, (lo ≤ stage early e ≤ hi)%nat) es.

Lemma emits_nil lo hi : emits lo hi [].
Proof. split; constructor. Qed.

Lemma emits_app lo m m' hi es es' :
  emits lo m es → emits m' hi es' → (m ≤ m')%nat → (lo ≤ m')%nat → (m ≤ hi)%nat →
  emits lo hi (es ++ es').
Proof.
  intros [Hs Hf] [Hs' Hf'] ???. rewrite Forall_forall in Hf, Hf'. split.
  - unfold ordered in *. induction Hs as [|e es Hs IH Hle]; [done|]. cbn. constructor.
    + apply IH. intros x Hx. apply Hf. by right.
    + rewrite Forall_app. split; [done|]. apply Forall_forall. intros x Hx.
      pose proof (Hf e ltac:(left)). pose proof (Hf' x Hx). lia.
  - rewrite Forall_app, !Forall_forall. split; intros x Hx;
      [specialize (Hf x Hx)|specialize (Hf' x Hx)]; lia.
Qed.

Lemma emits_weaken lo hi lo' hi' es :
  emits lo hi es → (lo' ≤ lo)%nat → (hi ≤ hi')%nat → emits lo' hi' es.
Proof. intros [Hs Hf] ??. split; [done|]. eapply Forall_impl; [done|]. cbn. lia. Qed.

Lemma emits_same n es : Forall (λ e, stage early e = n) es → emits n n es.
Proof.
  intros Hf. split; [|eapply Forall_impl; [done|cbn; lia]].
  induction Hf as [|e es He Hf IH]; [constructor|]. constructor; [done|].
  eapply Forall_impl; [done|]. cbn. lia.
Qed.

Lemma emits_take lo hi n es : emits lo hi es → emits lo hi (take n es).
Proof.
  intros [Hs Hf]. split; [|by apply Forall_take]. clear Hf. revert n.
  induction Hs as [|e es Hs IH Hle]; intros [|n]; cbn; try constructor; [apply IH|].
  by apply Forall_take.
Qed.

Lemma emits_no_exec lo hi es : emits lo hi es → (hi < 27)%nat → Exec ∉ es.
Proof. intros [_ Hf] Hhi Hin. rewrite Forall_forall in Hf. specialize (Hf _ Hin). cbn in Hf. lia. Qed.

(** ** Runs that execute the program *)

Section safe.
Context (good : list effect → Prop).

(** After [pre], every run of [p] that comes to [Exec] is good. *)
Definition safe (pre : list effect) (p : process_code) : Prop :=
  ∀ tr, trace p (tr ++ [Exec]) → good (pre ++ tr).

Lemma snoc_split {A} (es tr' tr : list A) x :
  es ++ tr' = tr ++ [x] → x ∉ es → ∃ tr'', tr' = tr'' ++ [x] ∧ tr = es ++ tr''.
Proof.
  intros Heq Hx. destruct (rev_ind (λ l, l = [] ∨ ∃ l' y, l = l' ++ [y])
    (or_introl eq_refl) (λ y l' _, or_intror (ex_intro _ l' (ex_intro _ y eq_refl))) tr')
    as [->|(tr'' & y & ->)].
  - rewrite app_nil_r in Heq. subst es. set_solver.
  - rewrite app_assoc in Heq. apply app_inj_tail in Heq as [<- ->]. eauto.
Qed.

(** [m] performs effects of stages [lo] to [hi], with all of [R] when it returns. *)
Definition performs {A} (lo hi : nat) (R : list effect) (m : P A) : Prop :=
  ∀ pre k e, (∀ pre x, safe pre (e x)) →
    (∀ a tr, emits lo hi tr → R ⊆ tr → safe (pre ++ tr) (k a)) → safe pre (m k e).

Lemma trace_Do_inv es k full : trace (Do es k) full →
  full = [] ∨ (∃ tr, full = es ++ tr ∧ trace (k true) tr)
  ∨ (∃ n tr, full = take n es ++ tr ∧ (n < length es)%nat ∧ trace (k false) tr).
Proof. intros Htr. inversion Htr; subst; eauto 8. Qed.

Lemma safe_Do lo hi pre es k :
  emits lo hi es → (hi < 27)%nat → safe (pre ++ es) (k true) →
  (∀ n, safe (pre ++ take n es) (k false)) → safe pre (Do es k).
Proof.
  intros He Hhi Ht Hf tr Htr. pose proof (emits_no_exec _ _ _ He Hhi) as Hx.
  assert (∀ n, Exec ∉ take n es) as Hxn.
  { intros n (i & Hi & _)%elem_of_take. by eapply Hx, list_elem_of_lookup_2. }
  apply trace_Do_inv in Htr as [Heq|[(tr' & Heq & Htr')|(n & tr' & Heq & _ & Htr')]].
  - by destruct tr.
  - apply symmetry, snoc_split in Heq as (tr'' & -> & ->); [|done]. rewrite app_assoc. by apply Ht.
  - apply symmetry, snoc_split in Heq as (tr'' & -> & ->); [|done]. rewrite app_assoc. by eapply Hf.
Qed.

Lemma safe_Ignore pre es p :
  Exec ∉ es → (∀ n, safe (pre ++ take n es) p) → safe pre (Ignore es p).
Proof.
  intros Hx Hp tr Htr. assert (∀ n, Exec ∉ take n es) as Hxn.
  { intros n (i & Hi & _)%elem_of_take. by eapply Hx, list_elem_of_lookup_2. }
  assert (tr ++ [Exec] = [] ∨ ∃ n tr', tr ++ [Exec] = take n es ++ tr' ∧ trace p tr')
    as [Heq|(n & tr' & Heq & Htr')] by (inversion Htr; subst; eauto 6).
  - by destruct tr.
  - apply symmetry, snoc_split in Heq as (tr'' & -> & ->); [|done]. rewrite app_assoc. by eapply Hp.
Qed.

(** Operations without effects. *)
Lemma safe_next pre p (ps : process_code → Prop) :
  (∀ full, trace p full → full = [] ∨ ∃ q, ps q ∧ trace q full) →
  (∀ q, ps q → safe pre q) → safe pre p.
Proof.
  intros Hinv Hps tr Htr. destruct (Hinv _ Htr) as [Heq|(q & Hq & Htr')]; [by destruct tr|].
  by apply (Hps q).
Qed.

Lemma safe_Done pre r : safe pre (Done r).
Proof. intros tr Htr. inversion Htr as [? Heq| | | | | | | | |]. by destruct tr. Qed.

Lemma safe_Send pre c m k : (∀ b, safe pre (k b)) → safe pre (Send c m k).
Proof.
  intros Hk. apply (safe_next _ _ (λ q, ∃ b, q = k b)); [|by intros q [b ->]].
  intros full Htr. inversion Htr; subst; eauto 6.
Qed.

Lemma safe_Recv pre c k : (∀ o, safe pre (k o)) → safe pre (Recv c k).
Proof.
  intros Hk. apply (safe_next _ _ (λ q, ∃ o, q = k o)); [|by intros q [o ->]].
  intros full Htr. inversion Htr; subst; eauto 6.
Qed.

Lemma safe_Close pre c k : (∀ b, safe pre (k b)) → safe pre (Close c k).
Proof.
  intros Hk. apply (safe_next _ _ (λ q, ∃ b, q = k b)); [|by intros q [b ->]].
  intros full Htr. inversion Htr; subst; eauto 6.
Qed.

Lemma safe_If pre b p q : safe pre p → safe pre q → safe pre (If b p q).
Proof.
  intros Hp Hq. apply (safe_next _ _ (λ r, r = p ∨ r = q)); [|by intros r [-> | ->]].
  intros full Htr. inversion Htr; subst; [by left|]. right. destruct b; eauto.
Qed.

(** ** Rules for programs *)

Lemma performs_mret {A} (a : A) n : performs n n [] (mret a : P A).
Proof.
  intros pre k e He Hk. rewrite <- (app_nil_r pre). apply Hk; [apply emits_nil|done].
Qed.

Lemma performs_then {A B} (m : P A) (f : A → P B) lo hi lo' hi' R R' :
  performs lo hi R m → (∀ a, performs lo' hi' R' (f a)) →
  (hi ≤ lo')%nat → (lo ≤ lo')%nat → (hi ≤ hi')%nat →
  performs lo hi' (R ++ R') (m ≫= f).
Proof.
  intros Hm Hf ??? pre k e He Hk. apply Hm; [done|]. intros a tr Htr HR.
  apply Hf; [done|]. intros b tr' Htr' HR'. rewrite <- app_assoc. apply Hk.
  - by eapply emits_app.
  - intros x. rewrite !elem_of_app. set_solver.
Qed.

Lemma performs_weaken {A} (m : P A) lo hi lo' hi' R R' :
  performs lo hi R m → (lo' ≤ lo)%nat → (hi ≤ hi')%nat → R' ⊆ R → performs lo' hi' R' m.
Proof.
  intros Hm ?? HR pre k e He Hk. apply Hm; [done|]. intros a tr Htr HRtr.
  apply Hk; [by eapply emits_weaken|set_solver].
Qed.

Lemma performs_act lo hi es : emits lo hi es → (hi < 27)%nat → performs lo hi es (act es).
Proof.
  intros He Hhi pre k e Hfail Hk. eapply safe_Do; [done..| |by intros n]. by apply Hk.
Qed.

Lemma performs_act_ lo hi es : emits lo hi es → (hi < 27)%nat → performs lo hi [] (act_ es).
Proof.
  intros He Hhi pre k e Hfail Hk. eapply safe_Ignore; [by eapply emits_no_exec|].
  intros n.
  apply Hk; [by apply emits_take|set_solver].
Qed.

Lemma performs_test lo hi es : emits lo hi es → (hi < 27)%nat → performs lo hi [] (test es).
Proof.
  intros He Hhi pre k e Hfail Hk. eapply safe_Do; [done..|by apply Hk; [|set_solver]|].
  intros n. apply Hk; [by apply emits_take|set_solver].
Qed.

Lemma performs_when lo hi R b (m : P ()) : performs lo hi R m → performs lo hi [] (when b m).
Proof.
  intros Hm pre k e He Hk. apply safe_If.
  - apply Hm; [done|]. intros a tr Htr _. apply Hk; [done|set_solver].
  - rewrite <- (app_nil_r pre). apply Hk; [apply emits_nil|done].
Qed.

Lemma performs_throw {A} lo hi R x : performs lo hi R (throw x : P A).
Proof. intros pre k e He Hk. apply He. Qed.

Lemma performs_panic {A} lo hi R : performs lo hi R (panic : P A).
Proof. intros pre k e He Hk. apply safe_Done. Qed.

Lemma performs_message c m fd (err : perr) n :
  performs n n [] (λ k e, Send c (m, fd) (λ ok, if ok then k () else e err)).
Proof.
  intros pre k e He Hk. apply safe_Send. intros [|]; [|done].
  rewrite <- (app_nil_r pre). apply Hk; [apply emits_nil|done].
Qed.

Lemma performs_close c n : performs n n [] (close c).
Proof.
  intros pre k e He Hk. apply safe_Close. intros [|]; [|done].
  rewrite <- (app_nil_r pre). apply Hk; [apply emits_nil|done].
Qed.

Lemma performs_recv c waiting n : performs n n [] (recv c waiting).
Proof.
  intros pre k e He Hk. apply safe_Recv. intros [p|]; [|done].
  rewrite <- (app_nil_r pre). apply Hk; [apply emits_nil|done].
Qed.

(** The program may be executed when all that comes before is good. *)
Lemma safe_exec pre (k : () → process_code) e :
  (∀ pre x, safe pre (e x)) → good pre → safe pre (exec_payload k e).
Proof.
  intros He Hgood tr Htr. unfold exec_payload in Htr.
  apply trace_Do_inv in Htr as [Heq|[(tr' & Heq & Htr')|(n & tr' & Heq & Hn & Htr')]].
  - by destruct tr.
  - inversion Htr'; subst. rewrite app_nil_r in Heq.
    apply (app_inj_tail tr []) in Heq as [-> _]. by rewrite app_nil_r.
  - cbn in Hn. assert (n = 0) as -> by lia. cbn in Heq. subst tr'. by eapply He.
Qed.

(** ** The parts of the init process *)

Lemma emits_cons lo n hi x es :
  stage early x = n → emits n hi es → (lo ≤ n)%nat → (n ≤ hi)%nat → emits lo hi (x :: es).
Proof.
  intros Hx Hes ??. apply (emits_app lo n n hi [x]); [|done|lia..].
  eapply emits_weaken; [apply (emits_same n); by repeat constructor|done..].
Qed.

Lemma emits_piece lo n hi es es' :
  Forall (λ e, stage early e = n) es → emits n hi es' → (lo ≤ n)%nat → (n ≤ hi)%nat →
  emits lo hi (es ++ es').
Proof.
  intros Hes Hes' ??. apply (emits_app lo n n hi); [|done|lia..].
  eapply emits_weaken; [by apply emits_same|done..].
Qed.

Lemma emits_const lo n hi es :
  Forall (λ e, stage early e = n) es → (lo ≤ n)%nat → (n ≤ hi)%nat → emits lo hi es.
Proof. intros. eapply emits_weaken; [by apply emits_same|done..]. Qed.

Lemma emits_if (b : bool) lo hi es es' :
  emits lo hi es → emits lo hi es' → emits lo hi (if b then es else es').
Proof. by destruct b. Qed.

Lemma const_on {A} n (o : option A) f :
  (∀ x, stage early (f x) = n) → Forall (λ e, stage early e = n) (on o f).
Proof. intros Hf. destruct o; repeat constructor. apply Hf. Qed.

Lemma const_on_if n b e : stage early e = n → Forall (λ e, stage early e = n) (on_if b e).
Proof. intros He. destruct b; by repeat constructor. Qed.

Lemma const_fmap {A} n (l : list A) f :
  (∀ x, stage early (f x) = n) → Forall (λ e, stage early e = n) (f <$> l).
Proof. intros Hf. apply Forall_fmap, Forall_true. intros x. apply Hf. Qed.

Lemma const_if n (b : bool) es es' :
  Forall (λ e, stage early e = n) es → Forall (λ e, stage early e = n) es' →
  Forall (λ e, stage early e = n) (if b then es else es').
Proof. by destruct b. Qed.

(** A list of effects of one stage, and a sequence of such lists. *)
Ltac one_stage :=
  first [ apply const_on; intros; cbn; reflexivity | apply const_on_if; reflexivity
        | apply const_fmap; intros; cbn; reflexivity | by repeat constructor
        | apply const_if; one_stage ].
Ltac stages :=
  lazymatch goal with
  | |- emits _ _ [] => apply emits_nil
  | |- emits _ _ ([] ++ _) => cbn [app]; stages
  | |- emits _ _ ((_ :: _) ++ _) => cbn [app]; stages
  | |- emits _ _ (_ :: _) => eapply emits_cons; [reflexivity|stages|cbn; lia|cbn; lia]
  | |- emits _ _ (_ ++ _) =>
      first [ eapply emits_piece; [one_stage|stages|cbn; lia|cbn; lia]
            | rewrite <- app_assoc; stages ]
  | |- emits _ _ (if _ then _ else _) => apply emits_if; stages
  | |- emits _ _ _ => eapply emits_const; [one_stage|cbn; lia|cbn; lia]
  end.

Lemma performs_first_chdir dir : performs 13 13 [] (first_chdir dir).
Proof.
  unfold first_chdir. eapply (performs_then _ _ 13 13 13 13 [] []); [|intros entered|lia..].
  { apply performs_test; [stages|lia]. }
  destruct entered; [apply performs_mret|].
  eapply (performs_then _ _ 13 13 13 13 [] []); [|intros eperm|lia..].
  { apply performs_test; [stages|lia]. }
  destruct eperm; [apply performs_mret|apply performs_throw].
Qed.

Definition group_effects (u : User) : list effect :=
  if nonempty (additional_gids u) then [SetGroups (default [] (additional_gids u))] else [].

Lemma performs_gids u c : performs 14 14 (group_effects u) (set_supplementary_gids u c).
Proof.
  unfold set_supplementary_gids.
  eapply performs_weaken; [eapply (performs_then _ _ 14 14 14 14 _ (group_effects u))|lia|lia|];
    [apply performs_act; [stages|lia]|intros _|lia..|set_solver].
  destruct (unreachable_gids u c); [apply performs_panic|apply performs_act; [stages|lia] ].
Qed.

Lemma performs_seccomp n now seccomp :
  (now = true → stage early LoadSeccomp = n) → (n < 27)%nat →
  performs n n (if now then on seccomp (λ _, LoadSeccomp) else []) (init_seccomp now seccomp).
Proof.
  intros Hn Hlt. unfold init_seccomp.
  eapply performs_weaken; [eapply (performs_then _ _ n n n n _ [])|done|done|];
    [| |lia..|by rewrite app_nil_r].
  { apply performs_act; [|done]. destruct now; [|apply emits_nil].
    apply emits_same, const_on. intros _. by apply Hn. }
  intros _. unfold sync_seccomp. destruct (default false seccomp && now) eqn:Hb;
    [|apply performs_mret]. apply andb_true_iff in Hb as [_ ->].
  eapply (performs_then _ _ n n n n [] []); [apply performs_message|intros _|lia..].
  eapply (performs_then _ _ n n n n [] []); [|intros _|lia..].
  - eapply (performs_then _ _ n n n n [] []); [apply performs_recv|intros m|lia..].
    destruct m; try apply performs_throw. apply performs_mret.
  - apply performs_act_; [|done]. apply emits_same. repeat constructor. by apply Hn.
Qed.

Lemma performs_devices ds : performs 17 17 [] (configure_container_network_devices ds).
Proof.
  unfold configure_container_network_devices. destruct ds as [|d ds]; [apply performs_mret|].
  eapply (performs_then _ _ 17 17 17 17 [] []); [apply performs_message|intros _|lia..].
  eapply (performs_then _ _ 17 17 17 17 [] []); [|intros addrs|lia..].
  - eapply (performs_then _ _ 17 17 17 17 [] []); [apply performs_recv|intros m|lia..].
    destruct m; try apply performs_throw. apply performs_mret.
  - eapply performs_weaken; [apply (performs_act 17 17); [stages|lia]|lia|lia|set_solver].
Qed.

Lemma performs_hooks wanted : performs 6 6 [] (request_hooks wanted).
Proof.
  unfold request_hooks. destruct wanted; [|apply performs_mret].
  eapply (performs_then _ _ 6 6 6 6 [] []); [apply performs_message|intros _|lia..].
  eapply (performs_then _ _ 6 6 6 6 [] []); [|intros _|lia..].
  - eapply (performs_then _ _ 6 6 6 6 [] []); [apply performs_recv|intros m|lia..].
    destruct m; try apply performs_throw. apply performs_mret.
  - eapply performs_weaken; [apply (performs_act 6 6); [stages|lia]|lia|lia|set_solver].
Qed.

Lemma emits_rest ns spec : emits 2 3 (apply_rest_namespaces ns spec).
Proof.
  unfold apply_rest_namespaces. eapply emits_piece; [one_stage| |cbn; lia..].
  destruct (ns !! NsUts) as [uts|]; stages.
Qed.

(** What separates the container: the namespaces that init enters (the user, pid and time
    namespaces are entered before init is made), its root with the propagation of its
    mounts, and the kernel parameters of its namespaces. *)
Definition isolation (a : ContainerArgs) (l : Linux) : list effect :=
  let ns := namespaces_try_from (namespaces l) in
  apply_rest_namespaces ns (args_spec a)
  ++ (if is_init (container_type a)
      then [PrepareRootfs; do_pivot_root ns (no_pivot a); AdjustRootPropagation; ReopenDevNull]
           ++ ((λ kv, WriteSysctl kv.1 kv.2) <$> default [] (sysctls l))
      else []).

Lemma performs_isolate a l pr :
  performs 1 9 (isolation a l) (init_isolate a l pr (namespaces_try_from (namespaces l))).
Proof.
  unfold init_isolate, isolation. set (ns := namespaces_try_from (namespaces l)).
  set (console := console_socket a || default false (terminal pr)).
  assert (stage early (do_pivot_root ns (no_pivot a)) = 7) as Hpiv
    by (unfold do_pivot_root; by repeat case_match).
  eapply performs_weaken; [eapply (performs_then _ _ 1 3 4 9)|lia|lia|]; [|intros _|lia..|].
  { apply performs_act; [|lia]. do 4 rewrite app_assoc.
    eapply (emits_app 1 1 2 3); [|apply emits_rest|lia..]. stages. }
  { eapply (performs_then _ _ 4 4 5 9 []); [|intros _|lia..].
    { apply performs_act_; [stages|lia]. }
    eapply (performs_then _ _ 5 5 6 9); [apply performs_act; [stages|lia]|intros _|lia..].
    eapply (performs_then _ _ 6 6 7 9 []); [apply performs_hooks|intros _|lia..].
    apply performs_act; [|lia]. eapply (emits_app 7 8 9 9); [|stages|lia..].
    apply emits_if; [|stages]. eapply emits_cons; [exact Hpiv|stages|lia..]. }
  destruct (is_init (container_type a)); intros x Hx; rewrite !elem_of_app in *; set_solver.
Qed.

(** What restricts the program: its execution domain, its profile, the mask of new files,
    its view of the file system, its user and groups, the open descriptors, the system call
    filter and the capabilities, and the check of its working directory.  [no_new_privileges]
    is not among them: the code ignores that it cannot be set. *)
Definition restriction (a : ContainerArgs) (l : Linux) (pr : Process) : list effect :=
  on (personality_flags l) (λ _, SetPersonality)
  ++ on (apparmor_profile pr) ApplyApparmor
  ++ on (umask (user pr)) SetUmask
  ++ (if is_init (container_type a) then
        on_if (default false (root_readonly (args_spec a))) RemountRootReadonly
        ++ (ReadonlyPath <$> default [] (readonly_paths l)) ++ on (masked_paths l) MaskPaths
      else [])
  ++ group_effects (user pr)
  ++ [SetId (uid (user pr)) (gid (user pr));
      CloseRange (swrap 32 (preserve_fds a + default 0%Z (listen_fds a))%Z)]
  ++ on (seccomp_notify l) (λ _, LoadSeccomp)
  ++ [ResetEffective] ++ on_if (has_capabilities pr) DropPrivileges ++ [VerifyCwd].

Lemma performs_restrict a l pr :
  early = bool_decide (no_new_privileges pr = None) →
  performs 10 23 (restriction a l pr) (init_restrict a l pr).
Proof.
  intros He. unfold init_restrict, restriction. rewrite <- He. cbv zeta.
  eapply performs_weaken.
  { eapply (performs_then _ _ 10 10 10 23 []);
      [apply (performs_when 10 10 []), performs_throw|intros _|lia..].
    eapply (performs_then _ _ 10 10 11 23); [apply performs_act; [stages|lia]|intros _|lia..].
    eapply (performs_then _ _ 11 11 11 23 []);
      [apply (performs_when 11 11 []), performs_throw|intros _|lia..].
    eapply (performs_then _ _ 11 12 13 23); [apply performs_act; [|lia]|intros _|lia..].
    { eapply emits_piece; [one_stage|stages|cbn; lia..]. }
    eapply (performs_then _ _ 13 13 14 23 []); [apply performs_first_chdir|intros do_chdir|lia..].
    eapply (performs_then _ _ 14 14 15 23); [apply performs_gids|intros _|lia..].
    eapply (performs_then _ _ 15 16 17 23); [apply performs_act; [stages|lia]|intros _|lia..].
    eapply (performs_then _ _ 17 17 18 23 []); [apply performs_devices|intros _|lia..].
    eapply (performs_then _ _ 18 18 19 23);
      [apply (performs_seccomp 18); [|lia]|intros _|lia..]; [by intros ->|].
    eapply (performs_then _ _ 19 22 23 23 ([ResetEffective] ++ on_if (has_capabilities pr)
      DropPrivileges ++ [VerifyCwd])); [|intros _|lia..].
    - eapply performs_weaken; [apply (performs_act 19 22); [stages|lia]|lia|lia|].
      intros x. rewrite !elem_of_app. set_solver.
    - apply (performs_seccomp 23); [|lia]. by destruct early. }
  all: try lia. destruct early, (is_init (container_type a)); cbn [negb];
    intros x; rewrite !elem_of_app; set_solver.
Qed.

(** The end of the process: once all is good, the program may be executed. *)
Lemma safe_run a pr pre (k : () → process_code) e :
  (∀ pre x, safe pre (e x)) →
  (∀ tr, emits 24 26 tr → WaitForContainerStart ∈ tr → good (pre ++ tr)) →
  safe pre (init_run a pr k e).
Proof.
  intros He Hgood. unfold init_run. cbv zeta.
  assert (performs 24 26 [WaitForContainerStart]
    (_ ← act [ValidateExecutor; SetupEnvs];
     _ ← init_ready ((console_socket a || default false (terminal pr)) && negb (console_socket a));
     _ ← close InitMain;
     _ ← act ([WaitForContainerStart; CloseNotifyListener]
              ++ on_if (is_init (container_type a) && has_hooks (args_spec a)) (RunHooks StartContainer));
     when (negb (args_given pr)) (throw (MissingSpec "args")))) as Hp.
  { eapply performs_weaken.
    { eapply (performs_then _ _ 24 24 25 26); [apply performs_act; [stages|lia]|intros _|lia..].
      eapply (performs_then _ _ 25 25 25 26 []); [apply performs_message|intros _|lia..].
      eapply (performs_then _ _ 25 25 25 26 []); [apply performs_close|intros _|lia..].
      eapply (performs_then _ _ 25 26 26 26); [apply performs_act; [stages|lia]|intros _|lia..].
      apply (performs_when 26 26 []), performs_throw. }
    all: try lia. set_solver. }
  apply (Hp pre (λ _, exec_payload k e) e He). intros _ tr Htr HR.
  apply safe_exec; [done|]. apply Hgood; [done|]. apply HR. by left.
Qed.
End safe.
End order.


(** A process without messages, where nothing fails. *)
Fixpoint undisturbed (fuel : nat) (p : process_code) : list effect :=
  match fuel with
  | 0 => []
  | S fuel =>
      match p with
      | Do es k => es ++ undisturbed fuel (k true)
      | Ignore es p => take (length es) es ++ undisturbed fuel p
      | If b p q => undisturbed fuel (if b then p else q)
      | Send _ _ k | Close _ k => undisturbed fuel (k true)
      | _ => []
      end
  end.

Lemma undisturbed_trace fuel p : trace p (undisturbed fuel p).
Proof.
  revert p. induction fuel as [|fuel IH]; intros p; [constructor|].
  destruct p; cbn; first [apply trace_stop|apply trace_do, IH|apply trace_ignore, IH
    |apply trace_if, IH|eapply trace_send, IH|eapply trace_close, IH].
Qed.

Definition exec_args : ContainerArgs := MkArgs InitContainer
  (MkSpec
    (Some (MkLinux (Some [MkNamespace NsPid None; MkNamespace NsMount None; MkNamespace NsIpc None])
       None None None None (Some [("kernel.shmmax", "65536")]) (Some ["/proc/kcore"]) None
       (Some false) None None false false))
    (Some (MkProcess None (MkUser 1000 1000 None (Some [10%Z])) true "/work" (Some true) true
       None None None None None))
    (Some true) false None None None) false [] 0 None true None false false None.


(** ** The failure that is ignored *)

(** As [undisturbed], but with every ignored effect failing. *)
Fixpoint ignored_fail (fuel : nat) (p : process_code) : list effect :=
  match fuel with
  | 0 => []
  | S fuel =>
      match p with
      | Do es k => es ++ ignored_fail fuel (k true)
      | Ignore es p => take 0 es ++ ignored_fail fuel p
      | If b p q => ignored_fail fuel (if b then p else q)
      | Send _ _ k | Close _ k => ignored_fail fuel (k true)
      | _ => []
      end
  end.

Lemma ignored_fail_trace fuel p : trace p (ignored_fail fuel p).
Proof.
  revert p. induction fuel as [|fuel IH]; intros p; [constructor|].
  destruct p; cbn [ignored_fail]; first [apply trace_stop|apply trace_do, IH|apply trace_ignore, IH
    |apply trace_if, IH|eapply trace_send, IH|eapply trace_close, IH].
Qed.

(** The configuration asks for [no_new_privileges]; setting it fails, and the program is
    executed without it. *)
Example no_new_privileges_ignored : ∃ tr pr,
  process (args_spec exec_args) = Some pr ∧ no_new_privileges pr = Some true ∧
  trace (init_callback (λ _, "error") exec_args) (tr ++ [Exec]) ∧ SetNoNewPrivileges ∉ tr.
Proof.
  exists (removelast (ignored_fail 100 (init_callback (λ _, "error") exec_args))). eexists.
  split; [reflexivity|]. split; [reflexivity|].
  pose proof (ignored_fail_trace 100 (init_callback (λ _, "error") exec_args)) as Ht.
  split; [vm_compute in Ht; vm_compute; exact Ht|].
  intros Hin. vm_compute in Hin. repeat (apply elem_of_cons in Hin as [Hin|Hin]; [discriminate|]).
  by apply not_elem_of_nil in Hin.
Qed.
