(* ===== verification/Capabilities.v ===== *)
(** * Capabilities

    Models [libcontainer/src/capabilities.rs] and [set_capability] of
    [libcontainer/src/syscall/linux.rs]: the capabilities that the configuration lists, and
    how those of the calling process are reduced to them.  The operations of the [caps]
    crate are an interface, with what capabilities(7) and capset(2) document as laws. *)
From S2P Require Import Prelude.
Local Open Scope list_scope.

Inductive SpecCapability : Type :=
  | AuditControl | AuditRead | AuditWrite | BlockSuspend | Bpf | CheckpointRestore | Chown
  | DacOverride | DacReadSearch | Fowner | Fsetid | IpcLock | IpcOwner | Kill | Lease
  | LinuxImmutable | MacAdmin | MacOverride | Mknod | NetAdmin | NetBindService | NetBroadcast
  | NetRaw | Perfmon | Setgid | Setfcap | Setpcap | Setuid | SysAdmin | SysBoot | SysChroot
  | SysModule | SysNice | SysPacct | SysPtrace | SysRawio | SysResource | SysTime
  | SysTtyConfig | Syslog | WakeAlarm.

(** [caps::Capability], with the variant that no capability has. *)
Inductive CapsCapability : Type :=
  | CAP_AUDIT_CONTROL | CAP_AUDIT_READ | CAP_AUDIT_WRITE | CAP_BLOCK_SUSPEND | CAP_BPF
  | CAP_CHECKPOINT_RESTORE | CAP_CHOWN | CAP_DAC_OVERRIDE | CAP_DAC_READ_SEARCH | CAP_FOWNER
  | CAP_FSETID | CAP_IPC_LOCK | CAP_IPC_OWNER | CAP_KILL | CAP_LEASE | CAP_LINUX_IMMUTABLE
  | CAP_MAC_ADMIN | CAP_MAC_OVERRIDE | CAP_MKNOD | CAP_NET_ADMIN | CAP_NET_BIND_SERVICE
  | CAP_NET_BROADCAST | CAP_NET_RAW | CAP_PERFMON | CAP_SETGID | CAP_SETFCAP | CAP_SETPCAP
  | CAP_SETUID | CAP_SYS_ADMIN | CAP_SYS_BOOT | CAP_SYS_CHROOT | CAP_SYS_MODULE | CAP_SYS_NICE
  | CAP_SYS_PACCT | CAP_SYS_PTRACE | CAP_SYS_RAWIO | CAP_SYS_RESOURCE | CAP_SYS_TIME
  | CAP_SYS_TTY_CONFIG | CAP_SYSLOG | CAP_WAKE_ALARM | Nonexhaustive.

Definition to_cap (c : SpecCapability) : CapsCapability :=
  match c with
  | AuditControl => CAP_AUDIT_CONTROL
  | AuditRead => CAP_AUDIT_READ
  | AuditWrite => CAP_AUDIT_WRITE
  | BlockSuspend => CAP_BLOCK_SUSPEND
  | Bpf => CAP_BPF
  | CheckpointRestore => CAP_CHECKPOINT_RESTORE
  | Chown => CAP_CHOWN
  | DacOverride => CAP_DAC_OVERRIDE
  | DacReadSearch => CAP_DAC_READ_SEARCH
  | Fowner => CAP_FOWNER
  | Fsetid => CAP_FSETID
  | IpcLock => CAP_IPC_LOCK
  | IpcOwner => CAP_IPC_OWNER
  | Kill => CAP_KILL
  | Lease => CAP_LEASE
  | LinuxImmutable => CAP_LINUX_IMMUTABLE
  | MacAdmin => CAP_MAC_ADMIN
  | MacOverride => CAP_MAC_OVERRIDE
  | Mknod => CAP_MKNOD
  | NetAdmin => CAP_NET_ADMIN
  | NetBindService => CAP_NET_BIND_SERVICE
  | NetBroadcast => CAP_NET_BROADCAST
  | NetRaw => CAP_NET_RAW
  | Perfmon => CAP_PERFMON
  | Setgid => CAP_SETGID
  | Setfcap => CAP_SETFCAP
  | Setpcap => CAP_SETPCAP
  | Setuid => CAP_SETUID
  | SysAdmin => CAP_SYS_ADMIN
  | SysBoot => CAP_SYS_BOOT
  | SysChroot => CAP_SYS_CHROOT
  | SysModule => CAP_SYS_MODULE
  | SysNice => CAP_SYS_NICE
  | SysPacct => CAP_SYS_PACCT
  | SysPtrace => CAP_SYS_PTRACE
  | SysRawio => CAP_SYS_RAWIO
  | SysResource => CAP_SYS_RESOURCE
  | SysTime => CAP_SYS_TIME
  | SysTtyConfig => CAP_SYS_TTY_CONFIG
  | Syslog => CAP_SYSLOG
  | WakeAlarm => CAP_WAKE_ALARM
  end.

Definition from_cap {E} (c : CapsCapability) : outcome E SpecCapability :=
  match c with
  | CAP_AUDIT_CONTROL => Ok AuditControl
  | CAP_AUDIT_READ => Ok AuditRead
  | CAP_AUDIT_WRITE => Ok AuditWrite
  | CAP_BLOCK_SUSPEND => Ok BlockSuspend
  | CAP_BPF => Ok Bpf
  | CAP_CHECKPOINT_RESTORE => Ok CheckpointRestore
  | CAP_CHOWN => Ok Chown
  | CAP_DAC_OVERRIDE => Ok DacOverride
  | CAP_DAC_READ_SEARCH => Ok DacReadSearch
  | CAP_FOWNER => Ok Fowner
  | CAP_FSETID => Ok Fsetid
  | CAP_IPC_LOCK => Ok IpcLock
  | CAP_IPC_OWNER => Ok IpcOwner
  | CAP_KILL => Ok Kill
  | CAP_LEASE => Ok Lease
  | CAP_LINUX_IMMUTABLE => Ok LinuxImmutable
  | CAP_MAC_ADMIN => Ok MacAdmin
  | CAP_MAC_OVERRIDE => Ok MacOverride
  | CAP_MKNOD => Ok Mknod
  | CAP_NET_ADMIN => Ok NetAdmin
  | CAP_NET_BIND_SERVICE => Ok NetBindService
  | CAP_NET_BROADCAST => Ok NetBroadcast
  | CAP_NET_RAW => Ok NetRaw
  | CAP_PERFMON => Ok Perfmon
  | CAP_SETGID => Ok Setgid
  | CAP_SETFCAP => Ok Setfcap
  | CAP_SETPCAP => Ok Setpcap
  | CAP_SETUID => Ok Setuid
  | CAP_SYS_ADMIN => Ok SysAdmin
  | CAP_SYS_BOOT => Ok SysBoot
  | CAP_SYS_CHROOT => Ok SysChroot
  | CAP_SYS_MODULE => Ok SysModule
  | CAP_SYS_NICE => Ok SysNice
  | CAP_SYS_PACCT => Ok SysPacct
  | CAP_SYS_PTRACE => Ok SysPtrace
  | CAP_SYS_RAWIO => Ok SysRawio
  | CAP_SYS_RESOURCE => Ok SysResource
  | CAP_SYS_TIME => Ok SysTime
  | CAP_SYS_TTY_CONFIG => Ok SysTtyConfig
  | CAP_SYSLOG => Ok Syslog
  | CAP_WAKE_ALARM => Ok WakeAlarm
  | Nonexhaustive => Panic
  end.

(** *** Finite sets of capabilities *)

Definition all_caps : list CapsCapability :=
  [CAP_AUDIT_CONTROL; CAP_AUDIT_READ; CAP_AUDIT_WRITE; CAP_BLOCK_SUSPEND; CAP_BPF;
   CAP_CHECKPOINT_RESTORE; CAP_CHOWN; CAP_DAC_OVERRIDE; CAP_DAC_READ_SEARCH; CAP_FOWNER;
   CAP_FSETID; CAP_IPC_LOCK; CAP_IPC_OWNER; CAP_KILL; CAP_LEASE; CAP_LINUX_IMMUTABLE;
   CAP_MAC_ADMIN; CAP_MAC_OVERRIDE; CAP_MKNOD; CAP_NET_ADMIN; CAP_NET_BIND_SERVICE;
   CAP_NET_BROADCAST; CAP_NET_RAW; CAP_PERFMON; CAP_SETGID; CAP_SETFCAP; CAP_SETPCAP;
   CAP_SETUID; CAP_SYS_ADMIN; CAP_SYS_BOOT; CAP_SYS_CHROOT; CAP_SYS_MODULE; CAP_SYS_NICE;
   CAP_SYS_PACCT; CAP_SYS_PTRACE; CAP_SYS_RAWIO; CAP_SYS_RESOURCE; CAP_SYS_TIME;
   CAP_SYS_TTY_CONFIG; CAP_SYSLOG; CAP_WAKE_ALARM; Nonexhaustive].

Definition cap_index (c : CapsCapability) : nat :=
  match c with
  | CAP_AUDIT_CONTROL => 0 | CAP_AUDIT_READ => 1 | CAP_AUDIT_WRITE => 2
  | CAP_BLOCK_SUSPEND => 3 | CAP_BPF => 4 | CAP_CHECKPOINT_RESTORE => 5 | CAP_CHOWN => 6
  | CAP_DAC_OVERRIDE => 7 | CAP_DAC_READ_SEARCH => 8 | CAP_FOWNER => 9 | CAP_FSETID => 10
  | CAP_IPC_LOCK => 11 | CAP_IPC_OWNER => 12 | CAP_KILL => 13 | CAP_LEASE => 14
  | CAP_LINUX_IMMUTABLE => 15 | CAP_MAC_ADMIN => 16 | CAP_MAC_OVERRIDE => 17 | CAP_MKNOD => 18
  | CAP_NET_ADMIN => 19 | CAP_NET_BIND_SERVICE => 20 | CAP_NET_BROADCAST => 21
  | CAP_NET_RAW => 22 | CAP_PERFMON => 23 | CAP_SETGID => 24 | CAP_SETFCAP => 25
  | CAP_SETPCAP => 26 | CAP_SETUID => 27 | CAP_SYS_ADMIN => 28 | CAP_SYS_BOOT => 29
  | CAP_SYS_CHROOT => 30 | CAP_SYS_MODULE => 31 | CAP_SYS_NICE => 32 | CAP_SYS_PACCT => 33
  | CAP_SYS_PTRACE => 34 | CAP_SYS_RAWIO => 35 | CAP_SYS_RESOURCE => 36 | CAP_SYS_TIME => 37
  | CAP_SYS_TTY_CONFIG => 38 | CAP_SYSLOG => 39 | CAP_WAKE_ALARM => 40 | Nonexhaustive => 41
  end.

#[global] Instance CapsCapability_eq_dec : EqDecision CapsCapability.
Proof. intros a b. destruct (decide (cap_index a = cap_index b)) as [Heq|Hne]; [left|right; congruence].
  by destruct a, b. Defined.

#[global, program] Instance CapsCapability_countable : Countable CapsCapability :=
  inj_countable cap_index (λ n, all_caps !! n) _.
Next Obligation. by intros []. Qed.

Abbreviation CapsHashSet := (gset CapsCapability).

Definition to_set (caps : list SpecCapability) : CapsHashSet :=
  foldl (λ capabilities c, {[to_cap c]} ∪ capabilities) ∅ caps.

(** ** The capabilities of a process *)

Inductive CapSet : Type := Ambient | Bounding | Effective | Inheritable | Permitted.

#[global] Instance CapSet_eq_dec : EqDecision CapSet.
Proof. solve_decision. Defined.

(** [caps::CapsError] *)
Inductive CapsError : Type := MkCapsError (msg : string).

(** The operations of the [caps] crate on the calling thread, and what can be observed. *)
Class Caps (W : Type) : Type := {
  caps_of : W → CapSet → CapsHashSet;
  caps_read : CapSet → io W CapsError CapsHashSet;
  caps_set : CapSet → CapsHashSet → io W CapsError ();
  caps_drop : CapSet → CapsCapability → io W CapsError ();
  caps_clear : CapSet → io W CapsError ();
  caps_raise : CapSet → CapsCapability → io W CapsError ();
}.

(** All sets but one are as before. *)
Definition others_same `{Caps W} (s : CapSet) (w w' : W) : Prop :=
  ∀ s', s' ≠ s → caps_of w' s' = caps_of w s'.

(** An operation that fails changes nothing. *)
Definition fails_clean `{Caps W} {A} (m : io W CapsError A) (Q : A → W → W → Prop) : Prop :=
  ∀ w, match m w with
       | (Ok a, w') => Q a w w'
       | (Err _, w') => ∀ s, caps_of w' s = caps_of w s
       | (Panic, _) => False
       end.

(** capset(2) also removes from the ambient set what is no longer permitted and inheritable. *)
Class CapsLaws (W : Type) `{Caps W} : Prop := {
  read_law s : fails_clean (caps_read s) (λ v w w', v = caps_of w s ∧ ∀ s', caps_of w' s' = caps_of w s');
  set_law s v : (s = Effective ∨ s = Permitted ∨ s = Inheritable) →
    fails_clean (caps_set s v) (λ _ w w',
      caps_of w' s = v ∧ (∀ s', s' ≠ s → s' ≠ Ambient → caps_of w' s' = caps_of w s') ∧
      caps_of w' Ambient ⊆ caps_of w Ambient);
  drop_law c : fails_clean (caps_drop Bounding c) (λ _ w w',
    caps_of w' Bounding = caps_of w Bounding ∖ {[c]} ∧ others_same Bounding w w');
  clear_law : fails_clean (caps_clear Ambient) (λ _ w w', caps_of w' Ambient = ∅ ∧ others_same Ambient w w');
  raise_law c : fails_clean (caps_raise Ambient c) (λ _ w w',
    caps_of w' Ambient = {[c]} ∪ caps_of w Ambient ∧ others_same Ambient w w' ∧
    c ∈ caps_of w Permitted ∧ c ∈ caps_of w Inheritable);
}.

Record LinuxCapabilities : Type := MkLinuxCapabilities {
  lc_bounding : option (list SpecCapability);
  lc_effective : option (list SpecCapability);
  lc_permitted : option (list SpecCapability);
  lc_inheritable : option (list SpecCapability);
  lc_ambient : option (list SpecCapability);
}.

Section capabilities.
Context {W : Type} `{Caps W}.
(** The iteration order of the hash sets. *)
Context (order : CapsHashSet → list CapsCapability).

(** [if let Err(e) = caps::raise(..)]: failures are only logged. *)
Definition try_raise (c : CapsCapability) : io W CapsError () := λ w,
  match caps_raise Ambient c w with
  | (Panic, w) => (Panic, w)
  | (_, w) => (Ok (), w)
  end.

Definition set_capability (cset : CapSet) (value : CapsHashSet) : io W CapsError () :=
  match cset with
  | Bounding =>
      all ← caps_read Bounding;
      io_each (caps_drop Bounding) (order (all ∖ value))
  | Ambient =>
      _ ← caps_clear Ambient;
      io_each try_raise (order value)
  | _ => caps_set cset value
  end.

Definition reset_effective : io W CapsError () :=
  permitted ← caps_read Permitted;
  set_capability Effective permitted.

Definition set_if (cset : CapSet) (value : option (list SpecCapability)) : io W CapsError () :=
  match value with
  | Some v => set_capability cset (to_set v)
  | None => mret ()
  end.

Definition drop_privileges (cs : LinuxCapabilities) : io W CapsError () :=
  _ ← set_capability Bounding (to_set (default [] (lc_bounding cs)));
  _ ← set_if Effective (lc_effective cs);
  _ ← set_if Permitted (lc_permitted cs);
  _ ← set_if Inheritable (lc_inheritable cs);
  set_if Ambient (lc_ambient cs).
End capabilities.

(** ** Conversions *)

Lemma from_to_cap {E} c : from_cap (E:=E) (to_cap c) = Ok c.
Proof. by destruct c. Qed.

Lemma to_from_cap {E} c s : from_cap (E:=E) c = Ok s → to_cap s = c.
Proof. by destruct c; intros [= <-]. Qed.

#[global] Instance to_cap_inj : Inj (=) (=) to_cap.
Proof.
  intros a b Hab. apply (f_equal (from_cap (E:=()))) in Hab. rewrite !from_to_cap in Hab. congruence.
Qed.

Lemma elem_of_to_set c l : c ∈ to_set l ↔ ∃ s, s ∈ l ∧ c = to_cap s.
Proof.
  unfold to_set. cut (∀ acc : CapsHashSet, c ∈ foldl (λ caps s, {[to_cap s]} ∪ caps) acc l ↔ c ∈ acc ∨ ∃ s, s ∈ l ∧ c = to_cap s).
  { intros ->. set_solver. }
  induction l as [|s l IH]; intros acc; cbn [foldl]; [set_solver|]. rewrite IH. set_solver.
Qed.

(** ** Dropping privileges *)

Section laws.
Context {W : Type} `{Caps W, !CapsLaws W} (order : CapsHashSet → list CapsCapability).
Hypothesis order_elements : ∀ s c, c ∈ order s ↔ c ∈ s.
Implicit Types w : W.

Lemma ends_clean {A} (m : io W CapsError A) Q w :
  fails_clean m Q → ends m (λ a w', Q a w w') (λ w', ∀ s, caps_of w' s = caps_of w s) w.
Proof. intros Hm. exact (Hm w). Qed.

Lemma drop_all l w :
  ends (io_each (caps_drop Bounding) l)
    (λ _ w', caps_of w' Bounding = caps_of w Bounding ∖ list_to_set l ∧ others_same Bounding w w')
    (λ w', caps_of w' Bounding ⊆ caps_of w Bounding ∧ others_same Bounding w w') w.
Proof.
  revert w. induction l as [|c l IH]; intros w.
  { unfold ends. cbn. split; [set_solver|done]. }
  cbn [io_each]. apply ends_then. eapply ends_mono; [| |apply ends_clean, drop_law].
  - intros _ w1 [Hb Ho]. eapply ends_mono; [| |apply IH].
    + intros _ w2 [Hb2 Ho2]. rewrite Hb2, Hb. split; [set_solver|]. intros s Hs. by rewrite Ho2, Ho.
    + intros w2 [Hb2 Ho2]. split; [set_solver|]. intros s Hs. by rewrite Ho2, Ho.
  - intros w1 Hs. split; [by rewrite Hs|]. by intros s _.
Qed.

Lemma set_bounding_ends value w :
  ends (set_capability order Bounding value)
    (λ _ w', caps_of w' Bounding = caps_of w Bounding ∩ value ∧ others_same Bounding w w')
    (λ w', caps_of w' Bounding ⊆ caps_of w Bounding ∧ others_same Bounding w w') w.
Proof.
  apply ends_then. eapply ends_mono; [| |apply ends_clean, read_law].
  - intros all w1 [-> Hs1]. eapply ends_mono; [| |apply drop_all].
    + intros _ w2 [Hb Ho]. split; [|intros s Hs; by rewrite Ho].
      rewrite Hb, Hs1. apply set_eq. intros c. rewrite elem_of_difference, elem_of_list_to_set, order_elements.
      destruct (decide (c ∈ value)); set_solver.
    + intros w2 [Hb Ho]. rewrite Hs1 in Hb. split; [done|]. intros s Hs. by rewrite Ho.
  - intros w1 Hs. split; [by rewrite Hs|]. by intros s _.
Qed.

(** Raising what can be raised. *)
Lemma raise_all l w :
  ends (io_each try_raise l)
    (λ _ w', others_same Ambient w w' ∧
       (∀ c, c ∈ caps_of w' Ambient → c ∈ caps_of w Ambient ∨
          c ∈ l ∧ c ∈ caps_of w Permitted ∧ c ∈ caps_of w Inheritable) ∧
       caps_of w Ambient ⊆ caps_of w' Ambient ∧
       ((∀ c w, c ∈ caps_of w Permitted → c ∈ caps_of w Inheritable → is_ok (caps_raise Ambient c w).1 = true) →
        ∀ c, c ∈ l → c ∈ caps_of w Permitted → c ∈ caps_of w Inheritable → c ∈ caps_of w' Ambient))
    (λ _, False) w.
Proof.
  revert w. induction l as [|c l IH]; intros w.
  { unfold ends. cbn. split_and!; [done|by left|done|]. by intros _ ? ?%elem_of_nil. }
  cbn [io_each]. apply ends_then. unfold ends at 1, try_raise.
  pose proof (raise_law c w) as Hr. destruct (caps_raise Ambient c w) as [[[]|e|] w1] eqn:Hw; [| |done];
    (eapply ends_mono; [| |apply IH]; [|done]); intros _ w2 (Ho2 & Honly & Hold & Hall).
  - destruct Hr as (Ha & Ho & Hp & Hi).
    assert (others_same Ambient w w2) as Ho' by (intros s Hs; by rewrite Ho2, Ho).
    rewrite (Ho Permitted), (Ho Inheritable) in * by done. split_and!; [done| |set_solver|].
    + intros c' Hc'. destruct (Honly c' Hc') as [Hin|(? & ? & ?)]; [|right; set_solver].
      rewrite Ha in Hin. apply elem_of_union in Hin as [->%elem_of_singleton|?]; [right; set_solver|by left].
    + intros Hok c' [->|Hc']%elem_of_cons ? ?; [apply Hold; rewrite Ha; set_solver|by apply Hall].
  - rewrite !Hr in *. split_and!; [intros s Hs; by rewrite Ho2, Hr| |done|].
    + intros c' Hc'. destruct (Honly c' Hc') as [Hin|(? & ? & ?)]; [by left|right; set_solver].
    + intros Hok c' [->|Hc']%elem_of_cons ? ?; [|by apply Hall].
      specialize (Hok c w ltac:(done) ltac:(done)). by rewrite Hw in Hok.
Qed.

(** A set of the configuration, or what was there. *)
Definition wanted (o : option (list SpecCapability)) (old : CapsHashSet) : CapsHashSet :=
  from_option to_set old o.

(** Setting one of the sets that capset(2) sets. *)
Lemma set_if_ends s o w :
  s = Effective ∨ s = Permitted ∨ s = Inheritable →
  ends (set_if order s o)
    (λ _ w', caps_of w' s = wanted o (caps_of w s) ∧
       (∀ s', s' ≠ s → s' ≠ Ambient → caps_of w' s' = caps_of w s') ∧ caps_of w' Ambient ⊆ caps_of w Ambient)
    (λ w', ∀ s', caps_of w' s' = caps_of w s') w.
Proof.
  intros Hs. destruct o as [l|]; [|done]. unfold set_if, wanted. cbn [from_option].
  assert (set_capability order s (to_set l) = caps_set s (to_set l)) as -> by (by destruct Hs as [->|[->| ->]]).
  exact (ends_clean _ _ w (set_law s (to_set l) Hs)).
Qed.

Lemma set_ambient_ends l w :
  ends (set_capability order Ambient (to_set l))
    (λ _ w', others_same Ambient w w' ∧
       caps_of w' Ambient ⊆ to_set l ∩ caps_of w Permitted ∩ caps_of w Inheritable ∧
       ((∀ c w, c ∈ caps_of w Permitted → c ∈ caps_of w Inheritable → is_ok (caps_raise Ambient c w).1 = true) →
        caps_of w' Ambient = to_set l ∩ caps_of w Permitted ∩ caps_of w Inheritable))
    (λ w', ∀ s, caps_of w' s = caps_of w s) w.
Proof.
  apply ends_then. eapply ends_mono; [| |apply ends_clean, clear_law]; [|done].
  intros _ w1 [Hc Ho]. eapply ends_mono; [| |apply raise_all]; [|done].
  intros _ w2 (Ho2 & Honly & _ & Hall). rewrite (Ho Permitted), (Ho Inheritable) in * by done.
  assert (caps_of w2 Ambient ⊆ to_set l ∩ caps_of w Permitted ∩ caps_of w Inheritable) as Hsub.
  { intros c Hin. destruct (Honly c Hin) as [Hin'|(Hl & ? & ?)]; [rewrite Hc in Hin'; set_solver|].
    apply order_elements in Hl. set_solver. }
  split_and!; [intros s Hs; by rewrite Ho2, Ho|done|]. intros Hok. apply set_eq. intros c. split; [by apply Hsub|].
  intros [[Hl Hp]%elem_of_intersection Hi]%elem_of_intersection. apply Hall; [done| |done..].
  by apply order_elements.
Qed.

(** C27: dropping privileges.  When [drop_privileges] succeeds, the bounding set is cut down
    to what the configuration lists (nothing, if it lists nothing), each of the effective,
    permitted and inheritable sets is the listed one, or as before if none is listed, and
    the ambient set has only capabilities that are listed, permitted and inheritable, all
    of them if the kernel lets them be raised.  When it fails, the bounding set has no
    capability that it did not have before.  It does not panic. *)
Theorem drop_privileges_spec cs w :
  ends (drop_privileges order cs)
    (λ _ w',
       caps_of w' Bounding = caps_of w Bounding ∩ to_set (default [] (lc_bounding cs)) ∧
       caps_of w' Effective = wanted (lc_effective cs) (caps_of w Effective) ∧
       caps_of w' Permitted = wanted (lc_permitted cs) (caps_of w Permitted) ∧
       caps_of w' Inheritable = wanted (lc_inheritable cs) (caps_of w Inheritable) ∧
       match lc_ambient cs with
       | None => caps_of w' Ambient ⊆ caps_of w Ambient
       | Some l =>
           caps_of w' Ambient ⊆ to_set l ∩ caps_of w' Permitted ∩ caps_of w' Inheritable ∧
           ((∀ c w, c ∈ caps_of w Permitted → c ∈ caps_of w Inheritable → is_ok (caps_raise Ambient c w).1 = true) →
            caps_of w' Ambient = to_set l ∩ caps_of w' Permitted ∩ caps_of w' Inheritable)
       end)
    (λ w', caps_of w' Bounding ⊆ caps_of w Bounding) w.
Proof.
  unfold drop_privileges. apply ends_then. eapply ends_mono; [| |apply set_bounding_ends]; [|by intros w' [? _]].
  intros _ w1 [Hb1 Ho1]. assert (caps_of w1 Bounding ⊆ caps_of w Bounding) as Hsub by set_solver.
  apply ends_then. eapply ends_mono; [| |apply (set_if_ends Effective); auto]; [|intros w' Hs; by rewrite Hs].
  intros _ w2 (He2 & Ho2 & Ha2).
  apply ends_then. eapply ends_mono; [| |apply (set_if_ends Permitted); auto]; [|intros w' Hs; by rewrite Hs, Ho2].
  intros _ w3 (Hp3 & Ho3 & Ha3).
  apply ends_then. eapply ends_mono; [| |apply (set_if_ends Inheritable); auto];
    [|intros w' Hs; by rewrite Hs, Ho3, Ho2].
  intros _ w4 (Hi4 & Ho4 & Ha4).
  assert (caps_of w4 Bounding = caps_of w Bounding ∩ to_set (default [] (lc_bounding cs)) ∧
    caps_of w4 Effective = wanted (lc_effective cs) (caps_of w Effective) ∧
    caps_of w4 Permitted = wanted (lc_permitted cs) (caps_of w Permitted) ∧
    caps_of w4 Inheritable = wanted (lc_inheritable cs) (caps_of w Inheritable)) as (Hb & He & Hp & Hi).
  { split_and!; [by rewrite Ho4, Ho3, Ho2|by rewrite Ho4, Ho3, He2, Ho1|by rewrite Ho4, Hp3, Ho2, Ho1
      |by rewrite Hi4, Ho3, Ho2, Ho1]. }
  destruct (lc_ambient cs) as [l|]; cbn [set_if].
  - eapply ends_mono; [| |apply set_ambient_ends]; [|intros w' Hs; rewrite Hs, Hb; set_solver].
    intros _ w5 (Ho5 & Hle & Hall). by rewrite !Ho5 by done.
  - split_and!; [done..|]. rewrite Ha4, Ha3, Ha2. by rewrite Ho1.
Qed.
End laws.

(** ** A concrete thread *)

Abbreviation thread_caps := (CapSet → CapsHashSet).

Definition update (w : thread_caps) (s : CapSet) (v : CapsHashSet) : thread_caps :=
  λ s', if decide (s' = s) then v else w s'.

(** The conditions of capset(2) for a thread without CAP_SETPCAP. *)
Definition may_set (w : thread_caps) (s : CapSet) (v : CapsHashSet) : bool :=
  match s with
  | Effective => bool_decide (v ⊆ w Permitted)
  | Permitted => bool_decide (v ⊆ w Permitted ∧ w Effective ⊆ v)
  | Inheritable => bool_decide (v ⊆ w Inheritable ∪ w Permitted ∧ v ⊆ w Inheritable ∪ w Bounding)
  | _ => false
  end.

#[export] Instance thread_caps_ops : Caps thread_caps := {|
  caps_of w s := w s;
  caps_read s w := (Ok (w s), w);
  caps_set s v w :=
    if may_set w s v
    then let w' := update w s v in
         (Ok (), update w' Ambient (w Ambient ∩ w' Permitted ∩ w' Inheritable))
    else (Err (MkCapsError "capset"), w);
  caps_drop s c w := (Ok (), update w s (w s ∖ {[c]}));
  caps_clear s w := (Ok (), update w s ∅);
  caps_raise s c w :=
    if bool_decide (c ∈ w Permitted ∧ c ∈ w Inheritable) then (Ok (), update w s ({[c]} ∪ w s))
    else (Err (MkCapsError "prctl"), w);
|}.

Lemma update_same w s v : update w s v s = v.
Proof. unfold update. by rewrite decide_True. Qed.

Lemma update_other w s v s' : s' ≠ s → update w s v s' = w s'.
Proof. intros. unfold update. by rewrite decide_False. Qed.

#[export] Instance thread_caps_laws : CapsLaws thread_caps.
Proof.
  split.
  - by intros s w.
  - intros s v Hs w. unfold caps_set. cbn. destruct (may_set w s v); [|done].
    assert (s ≠ Ambient) by (by destruct Hs as [->|[->| ->]]). cbn. split_and!.
    + by rewrite update_other, update_same.
    + intros s' ? ?. by rewrite !update_other.
    + rewrite update_same. set_solver.
  - intros c w. cbn. split; [by rewrite update_same|]. intros s Hs. cbn. by rewrite update_other.
  - intros w. cbn. split; [by rewrite update_same|]. intros s Hs. cbn. by rewrite update_other.
  - intros c w. cbn. case_bool_decide as Hc; [|done]. cbn. split_and!; [by rewrite update_same| |tauto..].
    intros s Hs. cbn. by rewrite update_other.
Qed.

(** A thread with three capabilities of which the configuration keeps one. *)
Definition example_thread : thread_caps := λ s,
  match s with Ambient => ∅ | _ => {[CAP_CHOWN; CAP_KILL; CAP_SYS_ADMIN]} end.

Definition example_capabilities : LinuxCapabilities :=
  MkLinuxCapabilities (Some [Chown]) (Some [Chown]) (Some [Chown]) (Some [Chown]) (Some [Chown; SysAdmin]).

Lemma drop_privileges_spec_witness :
  ∃ w', drop_privileges elements example_capabilities example_thread = (Ok (), w') ∧
    (CAP_SYS_ADMIN ∉ w' Bounding) ∧ w' Permitted = {[CAP_CHOWN]} ∧ (CAP_SYS_ADMIN ∉ w' Ambient).
Proof.
  pose proof (drop_privileges_spec (W:=thread_caps) elements ltac:(intros; apply elem_of_elements)
    example_capabilities example_thread) as Hspec.
  assert ((drop_privileges elements example_capabilities example_thread).1 = Ok ()) as Hok by (vm_compute; reflexivity).
  unfold ends in Hspec. destruct (drop_privileges _ _ _) as [r w']. cbn in Hok. subst r. exists w'.
  destruct Hspec as (Hb & _ & Hp & _ & Ha & _). cbn in Hb, Hp, Ha. split_and!; [done| | |].
  - rewrite Hb. apply (bool_decide_unpack _). vm_compute. done.
  - rewrite Hp. apply (bool_decide_unpack _). vm_compute. done.
  - rewrite Hp in Ha. intros [[_ Hin]%elem_of_intersection _]%Ha%elem_of_intersection. revert Hin.
    apply (bool_decide_unpack _). vm_compute. done.
Defined.
