(* ===== verification/ProcessAttrs.v ===== *)
(** * ProcessAttrs: memory policy and cpu affinity

    Models [libcontainer/src/process/memory_policy.rs] and [cpu_affinity.rs]: lists of memory
    nodes and of cpus are parsed into the masks that set_mempolicy(2) and
    sched_setaffinity(2) take. *)
From S2P Require Import Prelude Text Paths.
Local Open Scope string_scope.
Local Open Scope list_scope.
Local Open Scope Z_scope.

(** ** [memory_policy.rs] *)

Module MemoryPolicy.
Inductive MemoryPolicyError : Type :=
  | InvalidFlag (msg : string)
  | InvalidNodes (msg : string)
  | IncompatibleFlagMode (msg : string)
  | MutuallyExclusiveFlags (msg : string)
  | MSyscall (errno : Z).

(** The types of the [oci_spec] crate. *)
Inductive MemoryPolicyModeType : Type :=
  | MpolDefault | MpolPreferred | MpolBind | MpolInterleave | MpolLocal | MpolPreferredMany
  | MpolWeightedInterleave.

Inductive MemoryPolicyFlagType : Type := MpolFNumaBalancing | MpolFRelativeNodes | MpolFStaticNodes.

#[global] Instance MemoryPolicyFlagType_eq_dec : EqDecision MemoryPolicyFlagType.
Proof. solve_decision. Defined.

Record LinuxMemoryPolicy : Type := MkMemoryPolicy {
  mode : MemoryPolicyModeType;
  nodes : option string;
  flags : option (list MemoryPolicyFlagType);
}.

Inductive MemoryPolicyMode : Type :=
  | Default | Preferred | Bind | Interleave | Local | PreferredMany | WeightedInterleave.

#[global] Instance MemoryPolicyMode_eq_dec : EqDecision MemoryPolicyMode.
Proof. solve_decision. Defined.

Definition mode_value (m : MemoryPolicyMode) : Z :=
  match m with
  | Default => 0 | Preferred => 1 | Bind => 2 | Interleave => 3 | Local => 4 | PreferredMany => 5
  | WeightedInterleave => 6
  end.

Definition mode_from (m : MemoryPolicyModeType) : MemoryPolicyMode :=
  match m with
  | MpolDefault => Default | MpolPreferred => Preferred | MpolBind => Bind
  | MpolInterleave => Interleave | MpolLocal => Local | MpolPreferredMany => PreferredMany
  | MpolWeightedInterleave => WeightedInterleave
  end.

Definition mode_fmt (m : MemoryPolicyMode) : string :=
  match m with
  | Default => "MPOL_DEFAULT" | Preferred => "MPOL_PREFERRED" | Bind => "MPOL_BIND"
  | Interleave => "MPOL_INTERLEAVE" | Local => "MPOL_LOCAL" | PreferredMany => "MPOL_PREFERRED_MANY"
  | WeightedInterleave => "MPOL_WEIGHTED_INTERLEAVE"
  end.

Inductive MemoryPolicyFlag : Type := NumaBalancing | RelativeNodes | StaticNodes.

Definition flag_value (f : MemoryPolicyFlag) : Z :=
  match f with
  | NumaBalancing => Z.shiftl 1 13 | RelativeNodes => Z.shiftl 1 14 | StaticNodes => Z.shiftl 1 15
  end.

Record ValidatedMemoryPolicy : Type := MkValidated {
  mode_with_flags : Z; nodemask : list Z; maxnode : Z }.

(** [start..=end] of [u32] values *)
Definition inclusive_range (a b : Z) : list Z := seqZ a (b - a + 1).

(** [str::find] of a character and the two slices around it. *)
Definition find_split (c : ascii) (s : string) : option (string * string) := split_once c s.

Definition parse_range (range : string) : outcome MemoryPolicyError (list Z) :=
  match find_split "-"%char range with
  | Some (start_str, end_str) =>
      let start_str := trim start_str in
      let end_str := trim end_str in
      start ← map_err (λ _, InvalidNodes ("Invalid node range start: " +:+ start_str)) (parse_unsigned 32 start_str);
      end_ ← map_err (λ _, InvalidNodes ("Invalid node range end: " +:+ end_str)) (parse_unsigned 32 end_str);
      if end_ <? start
      then Err (InvalidNodes ("Invalid node range: " +:+ pretty start +:+ "-" +:+ pretty end_))
      else Ok (inclusive_range start end_)
  | None =>
      node ← map_err (λ _, InvalidNodes ("Invalid node: " +:+ range)) (parse_unsigned 32 range);
      Ok [node]
  end.

Definition parse_node_string (nodes : string) : outcome MemoryPolicyError (list Z) :=
  let nodes := trim nodes in
  if bool_decide (nodes = "") then Ok []
  else
    for_each (λ range node_ids,
      let range := trim range in
      if bool_decide (range = "") then Ok node_ids
      else ids ← parse_range range; Ok (node_ids ++ ids)) (split_on ","%char nodes) [].

(** [c_ulong] has 64 bits. *)
Definition BITS_PER_ULONG : Z := 64.

Definition set_node (nodemask : list Z) (node_id : Z) : list Z :=
  let word_index := Z.to_nat (node_id / BITS_PER_ULONG) in
  let bit_index := node_id mod BITS_PER_ULONG in
  if (word_index <? length nodemask)%nat
  then alter (λ word, Z.lor word (uwrap 64 (Z.shiftl 1 bit_index))) word_index nodemask
  else nodemask.

Definition build_nodemask (nodes : string) : outcome MemoryPolicyError (list Z * Z) :=
  node_ids ← parse_node_string nodes;
  if bool_decide (node_ids = []) then Ok ([], 0)
  else
    let highest_node := foldr Z.max 0 node_ids in
    let num_ulongs := highest_node / BITS_PER_ULONG + 1 in
    let maxnode := num_ulongs * BITS_PER_ULONG in
    Ok (foldl set_node (replicate (Z.to_nat num_ulongs) 0) node_ids, maxnode).

Definition add_policy_flag (acc : Z * bool * bool) (flag : MemoryPolicyFlagType) : Z * bool * bool :=
  let '(val, s, r) := acc in
  match flag with
  | MpolFNumaBalancing => (Z.lor val (flag_value NumaBalancing), s, r)
  | MpolFStaticNodes => (Z.lor val (flag_value StaticNodes), true, r)
  | MpolFRelativeNodes => (Z.lor val (flag_value RelativeNodes), s, true)
  end.

Definition check_empty_nodes_flags (flags_value : Z) : outcome MemoryPolicyError () :=
  if negb (Z.land flags_value (Z.lor (flag_value RelativeNodes) (flag_value StaticNodes)) =? 0)
  then Err (IncompatibleFlagMode "MPOL_PREFERRED with empty nodes cannot use MPOL_F_STATIC_NODES or MPOL_F_RELATIVE_NODES flags")
  else Ok ().

(** The nodes, if the text is not blank. *)
Definition given_nodes (policy : LinuxMemoryPolicy) : option string :=
  match nodes policy with
  | Some n => if bool_decide (trim n = "") then None else Some n
  | None => None
  end.

Definition validate_nodes (base_mode : MemoryPolicyMode) (flags_value mode_with_flags : Z)
    (policy : LinuxMemoryPolicy) : outcome MemoryPolicyError ValidatedMemoryPolicy :=
  let empty := MkValidated mode_with_flags [] 0 in
  match base_mode with
  | Default | Local =>
      match given_nodes policy with
      | Some _ => Err (InvalidNodes (mode_fmt base_mode +:+ " does not accept node specification"))
      | None =>
          if negb (flags_value =? 0)
          then Err (InvalidFlag (mode_fmt base_mode +:+ " does not accept flags"))
          else Ok empty
      end
  | Preferred =>
      match given_nodes policy with
      | None => _ ← check_empty_nodes_flags flags_value; Ok empty
      | Some nodes =>
          '(nodemask, maxnode) ← build_nodemask nodes;
          if maxnode =? 0 then _ ← check_empty_nodes_flags flags_value; Ok empty
          else Ok (MkValidated mode_with_flags nodemask maxnode)
      end
  | _ =>
      match given_nodes policy with
      | None => Err (InvalidNodes ("Mode " +:+ mode_fmt base_mode +:+ " requires non-empty node specification"))
      | Some nodes =>
          '(nodemask, maxnode) ← build_nodemask nodes;
          if maxnode =? 0 then
            Err (InvalidNodes ("Mode " +:+ mode_fmt base_mode
                   +:+ " requires non-empty node specification (parsed result is empty)"))
          else Ok (MkValidated mode_with_flags nodemask maxnode)
      end
  end.

Definition validate_memory_policy (memory_policy : option LinuxMemoryPolicy) :
    outcome MemoryPolicyError (option ValidatedMemoryPolicy) :=
  match memory_policy with
  | None => Ok None
  | Some policy =>
      let base_mode := mode_from (mode policy) in
      let '(flags_value, has_static, has_relative) :=
        from_option (foldl add_policy_flag (0, false, false)) (0, false, false) (flags policy) in
      if bool_decide (MpolFNumaBalancing ∈ default [] (flags policy)) && negb (bool_decide (base_mode = Bind))
      then Err (IncompatibleFlagMode "MPOL_F_NUMA_BALANCING can only be used with MPOL_BIND")
      else if has_static && has_relative
      then Err (MutuallyExclusiveFlags "MPOL_F_STATIC_NODES and MPOL_F_RELATIVE_NODES are mutually exclusive")
      else
        let mode_with_flags := Z.lor (mode_value base_mode) (swrap 32 flags_value) in
        v ← validate_nodes base_mode flags_value mode_with_flags policy;
        Ok (Some v)
  end.

(** [set_mempolicy] is the system call. *)
Definition setup_memory_policy {W} (set_mempolicy : Z → list Z → Z → io W Z ())
    (memory_policy : option LinuxMemoryPolicy) : io W MemoryPolicyError () :=
  validated ← pure (validate_memory_policy memory_policy);
  match validated with
  | Some valid => io_map_err MSyscall (set_mempolicy (mode_with_flags valid) (nodemask valid) (maxnode valid))
  | None => mret ()
  end.

(** *** Node masks *)

(** Bit [i] of a mask of 64-bit words. *)
Definition mask_bit (mask : list Z) (i : Z) : bool :=
  from_option (λ word, Z.testbit word (i mod 64)) false (mask !! Z.to_nat (i / 64)).

Lemma set_node_length mask n : length (set_node mask n) = length mask.
Proof. unfold set_node. case_match; [apply length_alter|done]. Qed.

Lemma set_node_range mask n : 0 ≤ n → Forall (in_u 64) mask → Forall (in_u 64) (set_node mask n).
Proof.
  intros Hn Hm. unfold set_node. case_match; [|done]. apply Forall_alter; [done|]. intros word _ Hw.
  rewrite in_u_bits in Hw |- * by lia.
  intros j Hj. rewrite Z.lor_spec, Hw by done. unfold uwrap. by rewrite Z.mod_pow2_bits_high by lia.
Qed.

Lemma set_node_bit mask n i : 0 ≤ n → 0 ≤ i → n < 64 * Z.of_nat (length mask) →
  mask_bit (set_node mask n) i = (i =? n) || mask_bit mask i.
Proof.
  intros Hn Hi Hlen. unfold set_node, BITS_PER_ULONG, mask_bit.
  assert (0 ≤ n mod 64 < 64) as Hmod by (apply Z.mod_pos_bound; lia).
  assert (0 ≤ i mod 64 < 64) as Himod by (apply Z.mod_pos_bound; lia).
  destruct (Nat.ltb_spec (Z.to_nat (n / 64)) (length mask)) as [Hin|Hout].
  2:{ exfalso. assert (n / 64 < Z.of_nat (length mask)) by (apply Z.div_lt_upper_bound; lia).
      assert (0 ≤ n / 64) by (apply Z.div_pos; lia). lia. }
  destruct (decide (Z.to_nat (i / 64) = Z.to_nat (n / 64))) as [Heq|Hne].
  - rewrite Heq, list_lookup_alter_eq. destruct (lookup_lt_is_Some_2 mask _ Hin) as [word Hword].
    rewrite Hword. cbn. rewrite Z.lor_spec, orb_comm. f_equal.
    unfold uwrap. rewrite Z.mod_pow2_bits_low by lia. rewrite Z.shiftl_spec by lia.
    assert (i / 64 = n / 64) as Hdiv by (apply Z2Nat.inj; [apply Z.div_pos; lia..|done]).
    destruct (Z.eqb_spec i n) as [->|Hin']; [by rewrite Z.sub_diag|].
    destruct (decide (i mod 64 < n mod 64)); [by rewrite Z.testbit_neg_r by lia|].
    apply Z.bits_above_log2; [lia|]. cbn. Z.to_euclidean_division_equations; lia.
  - rewrite list_lookup_alter_ne by done. destruct (Z.eqb_spec i n) as [->|]; done.
Qed.

Lemma set_nodes_spec ids mask :
  Forall (λ n, 0 ≤ n < 64 * Z.of_nat (length mask)) ids → Forall (in_u 64) mask →
  let mask' := foldl set_node mask ids in
  length mask' = length mask ∧ Forall (in_u 64) mask' ∧
  ∀ i, 0 ≤ i → mask_bit mask' i = true ↔ i ∈ ids ∨ mask_bit mask i = true.
Proof.
  revert mask. induction ids as [|n ids IH]; intros mask Hids Hm; cbv zeta; cbn [foldl].
  { split_and!; [done..|]. intros i _. split; [by right|]. by intros [?%elem_of_nil|]. }
  apply Forall_cons in Hids as [[Hn Hlt] Hids].
  destruct (IH (set_node mask n)) as (Hl & Hr & Hb).
  { by rewrite set_node_length. }
  { by apply set_node_range. }
  rewrite set_node_length in Hl. split_and!; [done..|]. intros i Hi.
  rewrite Hb, set_node_bit, orb_true_iff, Z.eqb_eq, elem_of_cons by done. tauto.
Qed.

(** *** Node lists *)

Lemma parse_range_spec range :
  parse_range range ≠ Panic ∧ ∀ ids, parse_range range = Ok ids → ids ≠ [] ∧ Forall (λ n, 0 ≤ n) ids.
Proof.
  unfold parse_range. destruct (find_split "-" range) as [[a b]|].
  - destruct (parse_unsigned 32 (trim a)) as [x|e|] eqn:Ha; [|done|by destruct (parse_unsigned_no_panic _ _ Ha)].
    destruct (parse_unsigned 32 (trim b)) as [y|e|] eqn:Hb; [|done|by destruct (parse_unsigned_no_panic _ _ Hb)].
    cbn. apply parse_unsigned_nonneg in Ha, Hb. destruct (Z.ltb_spec y x); [done|]. split; [done|].
    intros ids [= <-]. unfold inclusive_range. split.
    + intros Hnil%(f_equal length). rewrite length_seqZ in Hnil. cbn in Hnil. lia.
    + apply Forall_forall. intros n Hn%elem_of_seqZ. lia.
  - destruct (parse_unsigned 32 range) as [x|e|] eqn:Ha; [|done|by destruct (parse_unsigned_no_panic _ _ Ha)].
    cbn. split; [done|]. intros ids [= <-]. split; [done|]. apply Forall_singleton.
    by apply parse_unsigned_nonneg in Ha.
Qed.

Lemma parse_node_string_spec nodes :
  parse_node_string nodes ≠ Panic ∧ ∀ ids, parse_node_string nodes = Ok ids → Forall (λ n, 0 ≤ n) ids.
Proof.
  unfold parse_node_string. case_bool_decide; [split; [done|]; intros ids [= <-]; constructor|].
  generalize (split_on "," (trim nodes)). intros l.
  assert (Forall (λ n : Z, 0 ≤ n) []) as Hacc by constructor. revert Hacc. generalize (@nil Z).
  induction l as [|range l IH]; intros acc Hacc; cbn [for_each]; [split; [done|]; by intros ids [= <-]|].
  case_bool_decide; [by apply IH|]. destruct (parse_range_spec (trim range)) as [Hnp Hids].
  destruct (parse_range (trim range)) as [ids|e|]; run; [|done..].
  apply IH, Forall_app. split; [done|]. by apply Hids.
Qed.

Lemma build_nodemask_spec nodes :
  match parse_node_string nodes with
  | Ok ids => ∃ mask, build_nodemask nodes = Ok (mask, 64 * Z.of_nat (length mask)) ∧
      Forall (in_u 64) mask ∧ (mask = [] ↔ ids = []) ∧ ∀ i, 0 ≤ i → mask_bit mask i = true ↔ i ∈ ids
  | Err e => build_nodemask nodes = Err e
  | Panic => False
  end.
Proof.
  destruct (parse_node_string_spec nodes) as [Hnp Hids]. unfold build_nodemask.
  destruct (parse_node_string nodes) as [ids|e|]; [|done..]. run. specialize (Hids _ eq_refl).
  case_bool_decide as Hnil.
  { exists []. split_and!; [done|constructor|done|]. subst ids. intros i _. split; [done|by intros ?%elem_of_nil]. }
  set (h := foldr Z.max 0 ids). assert (0 ≤ h) as Hh by (unfold h; clear; induction ids; cbn; lia).
  assert (0 ≤ h / 64) as Hd by (apply Z.div_pos; lia).
  assert (∀ n, n ∈ ids → n ≤ h) as Hle.
  { unfold h. clear. induction ids as [|m ids IH]; [by intros ? ?%elem_of_nil|].
    intros n [->|Hn]%elem_of_cons; cbn; [lia|]. specialize (IH n Hn). lia. }
  set (num := Z.to_nat (h / BITS_PER_ULONG + 1)). assert (Z.of_nat num = h / 64 + 1) as Hnum
    by (unfold num, BITS_PER_ULONG; lia).
  destruct (set_nodes_spec ids (replicate num 0)) as (Hlen & Hrange & Hbits).
  { rewrite length_replicate, Hnum. apply Forall_forall. intros n Hn.
    specialize (Hle n Hn). rewrite Forall_forall in Hids. specialize (Hids n Hn). cbn in Hids.
    Z.to_euclidean_division_equations; lia. }
  { apply Forall_replicate. done. }
  rewrite length_replicate in Hlen. eexists. split_and!; [|exact Hrange| |].
  - unfold BITS_PER_ULONG. rewrite Hlen, Hnum. do 2 f_equal. lia.
  - split; [|done]. intros Hm%(f_equal length). rewrite Hlen in Hm. cbn in Hm. lia.
  - intros i Hi. rewrite Hbits by done. split; [|auto]. intros [?|Hz]; [done|]. unfold mask_bit in Hz.
    destruct (replicate num 0 !! _) as [x|] eqn:Hx; [|done]. apply lookup_replicate in Hx as [-> _].
    cbn in Hz. by rewrite Z.testbit_0_l in Hz.
Qed.

(** *** Flags *)

Definition flag_bit (f : MemoryPolicyFlagType) : Z :=
  match f with MpolFNumaBalancing => 13 | MpolFRelativeNodes => 14 | MpolFStaticNodes => 15 end.

Lemma add_flag_bits acc f :
  let '(val, s, r) := acc in
  let '(val', s', r') := add_policy_flag acc f in
  (∀ i, 0 ≤ i → Z.testbit val' i = (i =? flag_bit f) || Z.testbit val i) ∧
  (s' = s || bool_decide (f = MpolFStaticNodes)) ∧ (r' = r || bool_decide (f = MpolFRelativeNodes)).
Proof.
  destruct acc as [[val s] r], f; cbn [add_policy_flag flag_value flag_bit]; split_and!;
    rewrite ?orb_false_r, ?orb_true_r; try done; intros i Hi; rewrite Z.lor_spec, orb_comm; f_equal;
    (rewrite Z.shiftl_spec by lia); destruct (Z.eqb_spec i 13), (Z.eqb_spec i 14), (Z.eqb_spec i 15); subst; try done;
    match goal with |- Z.testbit 1 ?j = false => destruct (decide (j < 0));
      [by rewrite Z.testbit_neg_r by lia|apply Z.bits_above_log2; cbn; lia] end.
Qed.

Definition policy_flags (policy : LinuxMemoryPolicy) : list MemoryPolicyFlagType := default [] (flags policy).

Lemma flags_fold l :
  let '(val, s, r) := foldl add_policy_flag (0, false, false) l in
  (∀ i, 0 ≤ i → Z.testbit val i = true ↔ ∃ f, f ∈ l ∧ i = flag_bit f) ∧
  (s = true ↔ MpolFStaticNodes ∈ l) ∧ (r = true ↔ MpolFRelativeNodes ∈ l).
Proof.
  induction l as [|f l IH] using rev_ind.
  { cbn. split_and!; [|set_solver..]. intros i _. rewrite Z.testbit_0_l. set_solver. }
  rewrite foldl_snoc. pose proof (add_flag_bits (foldl add_policy_flag (0, false, false) l) f) as Hadd.
  destruct (foldl add_policy_flag (0, false, false) l) as [[val s] r].
  destruct (add_policy_flag (val, s, r) f) as [[val' s'] r'].
  destruct IH as (Hv & Hs & Hr), Hadd as (Hv' & -> & ->). split_and!.
  - intros i Hi. rewrite Hv', orb_true_iff, Hv, Z.eqb_eq by done. set_solver.
  - rewrite orb_true_iff, Hs, bool_decide_eq_true. set_solver.
  - rewrite orb_true_iff, Hr, bool_decide_eq_true. set_solver.
Qed.

Definition no_node_flags (l : list MemoryPolicyFlagType) : Prop :=
  ¬ (MpolFStaticNodes ∈ l ∨ MpolFRelativeNodes ∈ l).

Lemma flags_value l val s r :
  foldl add_policy_flag (0, false, false) l = (val, s, r) →
  in_u 16 val ∧ (val = 0 ↔ l = []) ∧
  (check_empty_nodes_flags val = Ok () ↔ no_node_flags l) ∧
  check_empty_nodes_flags val ≠ Panic.
Proof.
  intros Hf. pose proof (flags_fold l) as Hs. rewrite Hf in Hs. destruct Hs as (Hbits & _).
  assert (in_u 16 val) as Hu.
  { apply in_u_bits; [lia|]. intros i Hi. apply not_true_is_false. intros (f & _ & ->)%Hbits; [|lia].
    destruct f; cbn in Hi; lia. }
  split_and!; [done| | |].
  - split; [|intros ->; by injection Hf]. intros ->. destruct l as [|f l]; [done|exfalso].
    assert (Z.testbit 0 (flag_bit f) = true) as Hb by (apply Hbits; [destruct f; done|set_solver]).
    by rewrite Z.testbit_0_l in Hb.
  - unfold check_empty_nodes_flags. change (Z.lor _ _) with (Z.lor (2 ^ 14) (2 ^ 15)).
    destruct (Z.eqb_spec (Z.land val (Z.lor (2 ^ 14) (2 ^ 15))) 0) as [Hz|Hnz]; cbn; split; try done.
    + intros _. apply (f_equal Z.testbit) in Hz. intros [Hin|Hin].
      * apply (f_equal (λ g, g 15)) in Hz. rewrite Z.land_spec, Z.testbit_0_l in Hz.
        rewrite (proj2 (Hbits 15 ltac:(lia))) in Hz by (by exists MpolFStaticNodes). done.
      * apply (f_equal (λ g, g 14)) in Hz. rewrite Z.land_spec, Z.testbit_0_l in Hz.
        rewrite (proj2 (Hbits 14 ltac:(lia))) in Hz by (by exists MpolFRelativeNodes). done.
    + intros Hno. destruct Hnz. apply Z.bits_inj_0. intros i.
      destruct (decide (0 ≤ i)) as [Hi|]; [|by apply Z.testbit_neg_r; lia].
      rewrite Z.land_spec, Z.lor_spec, !Z.pow2_bits_eqb by lia. apply andb_false_iff.
      destruct (Z.testbit val i) eqn:Hv; [right|by left]. apply Hbits in Hv as (f & Hin & ->); [|done].
      destruct f; [done|by destruct Hno; right|by destruct Hno; left].
  - unfold check_empty_nodes_flags. by case_match.
Qed.

(** *** Acceptable policies *)

Definition node_set (policy : LinuxMemoryPolicy) : outcome MemoryPolicyError (list Z) :=
  match given_nodes policy with Some n => parse_node_string n | None => Ok [] end.

Definition acceptable (policy : LinuxMemoryPolicy) : Prop :=
  let fl := policy_flags policy in
  (MpolFNumaBalancing ∈ fl → mode policy = MpolBind) ∧
  ¬ (MpolFStaticNodes ∈ fl ∧ MpolFRelativeNodes ∈ fl) ∧
  match mode policy with
  | MpolDefault | MpolLocal => given_nodes policy = None ∧ fl = []
  | MpolPreferred => ∃ ids, node_set policy = Ok ids ∧ (ids = [] → no_node_flags fl)
  | _ => ∃ ids, node_set policy = Ok ids ∧ ids ≠ []
  end.

(** The mask of a validated policy holds the nodes of the configuration. *)
Definition mask_holds (policy : LinuxMemoryPolicy) (v : ValidatedMemoryPolicy) : Prop :=
  Forall (in_u 64) (nodemask v) ∧ maxnode v = 64 * Z.of_nat (length (nodemask v)) ∧
  ∃ ids, node_set policy = Ok ids ∧ ∀ i, 0 ≤ i → mask_bit (nodemask v) i = true ↔ i ∈ ids.

Definition given_mask (policy : LinuxMemoryPolicy) : outcome MemoryPolicyError (list Z * Z) :=
  match given_nodes policy with Some n => build_nodemask n | None => Ok ([], 0) end.

Lemma given_mask_spec policy n :
  match given_mask policy with
  | Ok (mask, max) => mask_holds policy (MkValidated n mask max) ∧ (max = 0 ↔ node_set policy = Ok []) ∧
      (max = 0 → mask = []) ∧ ∃ ids, node_set policy = Ok ids
  | Err e => node_set policy = Err e
  | Panic => False
  end.
Proof.
  unfold given_mask, mask_holds, node_set. destruct (given_nodes policy) as [nodes|]; cbn.
  - pose proof (build_nodemask_spec nodes) as Hb. destruct (parse_node_string nodes) as [ids|e|]; [|by rewrite Hb|done].
    destruct Hb as (mask & -> & Hr & Hnil & Hbits).
    assert (64 * Z.of_nat (length mask) = 0 ↔ mask = []) as Hz by (destruct mask; cbn; split; done || lia).
    rewrite Hz, Hnil. split_and!; [done..|by exists ids|split; [by intros ->|congruence]|done|by exists ids].
  - split_and!; [constructor|done| |done|done|by exists []]. exists []. split; [done|].
    intros i _. split; [done|by intros ?%elem_of_nil].
Qed.

(** What the modes do with the mask. *)
Lemma validate_nodes_mask policy val mwf :
  match mode policy with
  | MpolDefault | MpolLocal => True
  | MpolPreferred =>
      validate_nodes (mode_from (mode policy)) val mwf policy =
      ('(mask, max) ← given_mask policy;
       if max =? 0 then _ ← check_empty_nodes_flags val; Ok (MkValidated mwf [] 0)
       else Ok (MkValidated mwf mask max))
  | _ => ∃ e, validate_nodes (mode_from (mode policy)) val mwf policy =
      ('(mask, max) ← given_mask policy; if max =? 0 then Err e else Ok (MkValidated mwf mask max))
  end.
Proof.
  unfold validate_nodes, given_mask.
  destruct (mode policy); cbn [mode_from]; try done; (destruct (given_nodes policy); [|run]); try done; eexists; done.
Qed.

Lemma required_spec policy mwf e :
  let r := '(mask, max) ← given_mask policy; if max =? 0 then Err e else Ok (MkValidated mwf mask max) in
  ok_iff r (∃ ids, node_set policy = Ok ids ∧ ids ≠ []) ∧
  ∀ v, r = Ok v → mode_with_flags v = mwf ∧ mask_holds policy v.
Proof.
  pose proof (given_mask_spec policy mwf) as Hm. destruct (given_mask policy) as [[mask max]|e'|]; run; [| |done].
  2:{ rewrite Hm. split; [by intros (? & ? & ?)|done]. }
  destruct Hm as (Hh & Hz & _ & ids & Hids). destruct (Z.eqb_spec max 0) as [->|Hne].
  - rewrite (proj1 Hz eq_refl) in *. split; [by intros (? & [= <-] & ?)|done].
  - split; [|by intros v [= <-]]. exists ids. split; [done|]. intros ->. by apply Hne, Hz.
Qed.

Lemma preferred_spec policy mwf val :
  (check_empty_nodes_flags val = Ok () ↔ no_node_flags (policy_flags policy)) →
  check_empty_nodes_flags val ≠ Panic →
  let r := '(mask, max) ← given_mask policy;
           if max =? 0 then _ ← check_empty_nodes_flags val; Ok (MkValidated mwf [] 0)
           else Ok (MkValidated mwf mask max) in
  ok_iff r (∃ ids, node_set policy = Ok ids ∧ (ids = [] → no_node_flags (policy_flags policy))) ∧
  ∀ v, r = Ok v → mode_with_flags v = mwf ∧ mask_holds policy v.
Proof.
  intros Hempty Hnp. pose proof (given_mask_spec policy mwf) as Hm.
  destruct (given_mask policy) as [[mask max]|e'|]; run; [| |done].
  2:{ rewrite Hm. split; [by intros (? & ? & ?)|done]. }
  destruct Hm as (Hh & Hz & Hmn & ids & Hids). destruct (Z.eqb_spec max 0) as [->|Hne].
  - rewrite (Hmn eq_refl) in Hh. pose proof (proj1 Hz eq_refl) as Hns.
    destruct (check_empty_nodes_flags val) as [[]|e|]; cbn; [| |done].
    + split; [|by intros v [= <-]]. exists []. split; [done|]. intros _. by apply Hempty.
    + split; [|done]. intros (l & Hl & Hno). rewrite Hns in Hl. injection Hl as <-. by apply Hempty in Hno.
  - split; [|by intros v [= <-]]. exists ids. split; [done|]. intros ->. by destruct Hne; apply Hz.
Qed.

Lemma plain_spec policy mwf val msg1 msg2 :
  (val = 0 ↔ policy_flags policy = []) →
  let r := match given_nodes policy with
           | Some _ => Err (InvalidNodes msg1)
           | None => if negb (val =? 0) then Err (InvalidFlag msg2) else Ok (MkValidated mwf [] 0)
           end in
  ok_iff r (given_nodes policy = None ∧ policy_flags policy = []) ∧
  ∀ v, r = Ok v → mode_with_flags v = mwf ∧ mask_holds policy v.
Proof.
  intros Hzero. pose proof (given_mask_spec policy mwf) as Hm. unfold given_mask in Hm.
  destruct (given_nodes policy); [split; [by intros [? _]|done]|]. destruct Hm as [Hh _].
  destruct (Z.eqb_spec val 0) as [Hz|Hz]; cbn.
  - split; [by rewrite <- Hzero|by intros v [= <-]].
  - split; [|done]. by intros [_ ?%Hzero].
Qed.

Lemma validate_nodes_spec policy val s r mwf :
  foldl add_policy_flag (0, false, false) (policy_flags policy) = (val, s, r) →
  ok_iff (validate_nodes (mode_from (mode policy)) val mwf policy)
    (match mode policy with
     | MpolDefault | MpolLocal => given_nodes policy = None ∧ policy_flags policy = []
     | MpolPreferred => ∃ ids, node_set policy = Ok ids ∧ (ids = [] → no_node_flags (policy_flags policy))
     | _ => ∃ ids, node_set policy = Ok ids ∧ ids ≠ []
     end) ∧
  ∀ v, validate_nodes (mode_from (mode policy)) val mwf policy = Ok v →
    mode_with_flags v = mwf ∧ mask_holds policy v.
Proof.
  intros (_ & Hzero & Hempty & Hnp)%flags_value. pose proof (validate_nodes_mask policy val mwf) as Hv.
  destruct (mode policy);
    first [by apply plain_spec|rewrite Hv; by apply preferred_spec|destruct Hv as [e ->]; apply required_spec].
Qed.

(** Memory policies.  [validate_memory_policy] accepts exactly the policies whose flags
    are compatible with each other and with the mode and whose nodes, if the mode takes or
    needs them, can be parsed.  The result has the mode and the bits of the flags, and a
    mask of 64-bit words in which bit [i] is set if and only if node [i] is listed, with
    the number of its bits. *)
Theorem memory_policy_spec policy :
  ok_iff (validate_memory_policy (Some policy)) (acceptable policy) ∧
  ∀ o, validate_memory_policy (Some policy) = Ok o → ∃ v, o = Some v ∧ mask_holds policy v ∧
    ∀ i, 0 ≤ i → Z.testbit (mode_with_flags v) i = true ↔
      Z.testbit (mode_value (mode_from (mode policy))) i = true ∨ ∃ f, f ∈ policy_flags policy ∧ i = flag_bit f.
Proof.
  unfold validate_memory_policy, acceptable.
  assert (from_option (foldl add_policy_flag (0, false, false)) (0, false, false) (flags policy) =
    foldl add_policy_flag (0, false, false) (policy_flags policy)) as -> by (unfold policy_flags; by destruct (flags policy)).
  fold (policy_flags policy). pose proof (flags_fold (policy_flags policy)) as Hfold.
  destruct (foldl add_policy_flag _ (policy_flags policy)) as [[val s] r] eqn:Hf. destruct Hfold as (Hbits & Hs & Hr).
  destruct (flags_value _ _ _ _ Hf) as (Hu & _). rewrite (swrap_small 32 val) by (unfold in_u in Hu; lia).
  destruct (bool_decide _ && _) eqn:Hnuma.
  { apply andb_true_iff in Hnuma as [Hn%bool_decide_eq_true Hb%negb_true_iff%bool_decide_eq_false].
    split; [|done]. intros (Hm & _). specialize (Hm Hn). rewrite Hm in Hb. by destruct Hb. }
  destruct (s && r) eqn:Hsr.
  { apply andb_true_iff in Hsr as [Hst Hre]. split; [|done]. intros (_ & Hno & _). apply Hno. by rewrite <- Hs, <- Hr. }
  destruct (validate_nodes_spec policy val s r (Z.lor (mode_value (mode_from (mode policy))) val) Hf) as [Hok Hres].
  split.
  - destruct (validate_nodes _ _ _ _); run; cbn in Hok |- *; [|tauto|done]. split_and!; [|intros [??]|done].
    + intros Hn. apply andb_false_iff in Hnuma as [Hb%bool_decide_eq_false|Hb%negb_false_iff%bool_decide_eq_true]; [done|].
      by destruct (mode policy).
    + apply andb_false_iff in Hsr. rewrite <- Hs, <- Hr in *. destruct Hsr; congruence.
  - intros o (v & Hv & [= <-])%bind_Ok. exists v. destruct (Hres v Hv) as [-> Hmask]. split_and!; [done..|].
    intros i Hi. rewrite Z.lor_spec, orb_true_iff, Hbits by done. done.
Qed.

Definition example_policy : LinuxMemoryPolicy :=
  MkMemoryPolicy MpolBind (Some " 0-2, 65") (Some [MpolFStaticNodes]).

Lemma example_policy_validated :
  validate_memory_policy (Some example_policy) = Ok (Some (MkValidated 32770 [7; 2] 128)).
Proof. vm_compute. reflexivity. Qed.
End MemoryPolicy.

(** ** [cpu_affinity.rs] *)

Module CpuAffinity.
(** [nix::sched::CpuSet]: [set] fails for an index that does not fit. *)
Class CpuSet (S : Type) := {
  cs_new : S;
  cs_count : Z;
  cs_set : S → Z → outcome Z S;
  cs_is_set : S → Z → bool;
}.

Class CpuSetLaws (S : Type) `{!CpuSet S} := {
  cs_count_positive : 0 < cs_count;
  cs_new_empty i : cs_is_set cs_new i = false;
  cs_set_fits s cpu : 0 ≤ cpu < cs_count →
    ∃ s', cs_set s cpu = Ok s' ∧ ∀ i, cs_is_set s' i = (i =? cpu) || cs_is_set s i;
}.

Inductive CPUAffinityError : Type :=
  | ParseError (s : string)
  | CpuOutOfRange (cpu max : Z)
  | CpuSetError (cpu source : Z)
  | SetAffinity (source : Z).

Section operations.
Context {S : Type} `{!CpuSet S}.

Definition parse_cpu_index (s : string) (max_cpu : Z) : outcome CPUAffinityError Z :=
  cpu ← map_err (λ _, ParseError s) (parse_unsigned 64 s);
  if max_cpu <=? cpu then Err (CpuOutOfRange cpu (max_cpu - 1)) else Ok cpu.

Definition set_cpu (cpu : Z) (cpuset : S) : outcome CPUAffinityError S :=
  map_err (CpuSetError cpu) (cs_set cpuset cpu).

Definition add_part (max_cpu : Z) (part : string) (cpuset : S) : outcome CPUAffinityError S :=
  match split_once "-"%char part with
  | Some (start_str, end_str) =>
      start ← parse_cpu_index start_str max_cpu;
      end_ ← parse_cpu_index end_str max_cpu;
      if end_ <? start then Err (ParseError ("invalid range: " +:+ pretty start +:+ "-" +:+ pretty end_))
      else for_each set_cpu (MemoryPolicy.inclusive_range start end_) cpuset
  | None => cpu ← parse_cpu_index part max_cpu; set_cpu cpu cpuset
  end.

(** The parts between commas that are not blank. *)
Definition cpu_parts (cpuset_str : string) : list string :=
  filter (λ s, s ≠ "") (trim <$> split_on ","%char (trim cpuset_str)).

Definition to_cpuset (cpuset_str : string) : outcome CPUAffinityError S :=
  for_each (add_part cs_count) (cpu_parts cpuset_str) cs_new.

(** [sched_setaffinity] is the system call. *)
Definition set_cpuset_affinity_from_string {W} (sched_setaffinity : Z → S → io W Z ())
    (pid : Z) (cpuset_str : string) : io W CPUAffinityError () :=
  cpuset ← pure (to_cpuset cpuset_str);
  io_map_err SetAffinity (sched_setaffinity pid cpuset).

(** The word that [log_cpu_affinity] prints. *)
Definition affinity_mask (cpuset : S) : Z :=
  foldl (λ mask i, Z.lor mask (uwrap 64 (Z.shiftl 1 i))) 0 (filter (λ i, cs_is_set cpuset i = true) (seqZ 0 64)).
End operations.

(** *** The cpus of a list *)

(** The first and last cpu that a part names, both below the limit. *)
Definition part_range (max_cpu : Z) (part : string) : option (Z * Z) :=
  let index s := match parse_unsigned 64 s with Ok n => if n <? max_cpu then Some n else None | _ => None end in
  match split_once "-"%char part with
  | Some (a, b) => x ← index a; y ← index b; if x <=? y then Some (x, y) else None
  | None => x ← index part; Some (x, x)
  end.

Section theorems.
Context {S : Type} `{!CpuSet S, !CpuSetLaws S}.

Lemma parse_cpu_index_spec s :
  match parse_unsigned 64 s with
  | Ok n => 0 ≤ n ∧ parse_cpu_index s cs_count = if n <? cs_count then Ok n else Err (CpuOutOfRange n (cs_count - 1))
  | Err _ => parse_cpu_index s cs_count = Err (ParseError s)
  | Panic => False
  end.
Proof.
  unfold parse_cpu_index. destruct (parse_unsigned 64 s) as [n|e|] eqn:Hn; run; [|done|by apply parse_unsigned_no_panic in Hn].
  apply parse_unsigned_nonneg in Hn. split; [done|].
  cbn. destruct (Z.leb_spec cs_count n), (Z.ltb_spec n cs_count); try done; lia.
Qed.

Lemma set_range l s : Forall (λ i, 0 ≤ i < cs_count) l →
  ∃ s', for_each set_cpu l s = Ok s' ∧ ∀ i, cs_is_set s' i = true ↔ i ∈ l ∨ cs_is_set s i = true.
Proof.
  revert s. induction l as [|cpu l IH]; intros s Hl; cbn [for_each].
  { exists s. split; [done|]. set_solver. }
  apply Forall_cons in Hl as [Hc Hl].
  destruct (cs_set_fits s cpu Hc) as (s1 & H1 & Hs1).
  assert (set_cpu cpu s = Ok s1) as -> by (unfold set_cpu; by rewrite H1). run. destruct (IH s1 Hl) as (s' & -> & Hs').
  exists s'. split; [done|]. intros i. rewrite Hs', Hs1, orb_true_iff, Z.eqb_eq, elem_of_cons. tauto.
Qed.

Lemma add_part_spec part s :
  match part_range cs_count part with
  | Some (a, b) => ∃ s', add_part cs_count part s = Ok s' ∧
      ∀ i, cs_is_set s' i = true ↔ a ≤ i ≤ b ∨ cs_is_set s i = true
  | None => ∃ e, add_part cs_count part s = Err e
  end.
Proof.
  unfold part_range, add_part. destruct (split_once "-" part) as [[a b]|].
  - pose proof (parse_cpu_index_spec a) as Ha. pose proof (parse_cpu_index_spec b) as Hb.
    destruct (parse_unsigned 64 a) as [x|?|]; [|rewrite Ha; by eexists|done]. destruct Ha as [Hx ->].
    destruct (Z.ltb_spec x cs_count); [|by eexists]. cbn [mbind option_bind]. run.
    destruct (parse_unsigned 64 b) as [y|?|]; [|rewrite Hb; by eexists|done]. destruct Hb as [Hy ->].
    destruct (Z.ltb_spec y cs_count); [|by eexists]. cbn [mbind option_bind]. run.
    destruct (Z.leb_spec x y), (Z.ltb_spec y x); try lia; [|by eexists].
    destruct (set_range (MemoryPolicy.inclusive_range x y) s) as (s' & -> & Hs').
    { apply Forall_forall. intros i Hi%elem_of_seqZ. lia. }
    exists s'. split; [done|]. intros i. rewrite Hs'. unfold MemoryPolicy.inclusive_range. rewrite elem_of_seqZ.
    split; intros [?|?]; auto; left; lia.
  - pose proof (parse_cpu_index_spec part) as Ha.
    destruct (parse_unsigned 64 part) as [x|?|]; [|rewrite Ha; by eexists|done]. destruct Ha as [Hx ->].
    destruct (Z.ltb_spec x cs_count); [|by eexists]. cbn [mbind option_bind]. run. unfold set_cpu.
    destruct (cs_set_fits s x) as (s1 & -> & Hs1); [lia|]. exists s1. split; [done|].
    intros i. rewrite Hs1, orb_true_iff, Z.eqb_eq. split; intros [?|?]; auto; left; lia.
Qed.

(** [to_cpuset] accepts exactly the lists of numbers and ascending ranges below the limit of
    the set, and returns the set of the listed cpus; [CpuSet::set] never fails there. *)
Theorem to_cpuset_spec s :
  ok_iff (to_cpuset (S := S) s) (∀ part, part ∈ cpu_parts s → is_Some (part_range cs_count part)) ∧
  ∀ cpuset, to_cpuset (S := S) s = Ok cpuset → ∀ i, cs_is_set cpuset i = true ↔
    ∃ part a b, part ∈ cpu_parts s ∧ part_range cs_count part = Some (a, b) ∧ a ≤ i ≤ b.
Proof.
  unfold to_cpuset. generalize (cpu_parts s). intros l.
  assert (∀ cs0 : S, ok_iff (for_each (add_part cs_count) l cs0) (∀ part, part ∈ l → is_Some (part_range cs_count part)) ∧
    ∀ cpuset, for_each (add_part cs_count) l cs0 = Ok cpuset → ∀ i, cs_is_set cpuset i = true ↔
      cs_is_set cs0 i = true ∨ ∃ part a b, part ∈ l ∧ part_range cs_count part = Some (a, b) ∧ a ≤ i ≤ b) as Hgen.
  2:{ destruct (Hgen cs_new) as [Hok Hset]. split; [done|]. intros cpuset Hc i.
      rewrite (Hset cpuset Hc), cs_new_empty. split; [by intros [?|?]|by right]. }
  induction l as [|part l IH]; intros cs0; cbn [for_each].
  { split; [by intros ? ?%elem_of_nil|]. intros ? [= <-] i. split; [by left|].
    by intros [?|(? & ? & ? & ?%elem_of_nil & _)]. }
  pose proof (add_part_spec part cs0) as Hp. destruct (part_range cs_count part) as [[a b]|] eqn:Hr.
  2:{ destruct Hp as [e ->]. run. split; [|done]. intros Hall. destruct (Hall part) as [? ?]; [left|congruence]. }
  destruct Hp as (s1 & -> & Hs1). run. destruct (IH s1) as [Hok Hset]. split.
  - eapply ok_iff_mono; [|exact Hok]. setoid_rewrite elem_of_cons. split; [|auto].
    intros Hall p [->|Hp]; [by eexists|auto].
  - intros cpuset Hc i. rewrite (Hset cpuset Hc), Hs1. setoid_rewrite elem_of_cons. split.
    + intros [[?|?]|(p & x & y & ? & ?)]; [right; by exists part, a, b; auto|by left|right; exists p, x, y; tauto].
    + intros [?|(p & x & y & [->|?] & Hxy & ?)]; [auto|left; left; congruence|right; by exists p, x, y].
Qed.
End theorems.

(** *** An instance: the 1024 bits of [cpu_set_t] *)

#[global] Instance kernel_cpuset : CpuSet Z := {|
  cs_new := 0;
  cs_count := 1024;
  cs_set s cpu := if (0 <=? cpu) && (cpu <? 1024) then Ok (Z.setbit s cpu) else Err 22;
  cs_is_set s i := (0 <=? i) && Z.testbit s i;
|}.

#[global] Instance kernel_cpuset_laws : CpuSetLaws Z.
Proof.
  split; cbn; [done|intros i; by rewrite Z.testbit_0_l, andb_false_r|].
  intros s cpu [? ?]. exists (Z.setbit s cpu). split.
  - by destruct (Z.leb_spec 0 cpu), (Z.ltb_spec cpu 1024); cbn; try lia.
  - intros i. destruct (Z.eqb_spec i cpu) as [->|Hne].
    + rewrite Z.setbit_eq by lia. by destruct (Z.leb_spec 0 cpu); [|lia].
    + by rewrite Z.setbit_neq by lia.
Qed.

Lemma example_cpuset : affinity_mask <$> to_cpuset " 0, 2-4 ,,6" = Ok 93 ∧
  to_cpuset (S := Z) "0-1024" = Err (CpuOutOfRange 1024 1023) ∧
  to_cpuset (S := Z) "5-3" = Err (ParseError "invalid range: 5-3").
Proof. split_and!; vm_compute; reflexivity. Qed.
End CpuAffinity.
