(* ===== verification/MountOptions.v ===== *)
(** * Mount options

    Models [parse_mount] of [libcontainer/src/rootfs/utils.rs] and the options of
    [libcontainer/src/syscall/linux.rs] that it reads: the flags of [mount(2)], the
    attributes of [mount_setattr(2)], the propagation types, and what is left as data
    for the file system. *)
From Stdlib Require Import Btauto.
From S2P Require Import Prelude Text Spec.
Local Open Scope string_scope.
Local Open Scope list_scope.
Local Open Scope Z_scope.

(** ** Flags and attributes *)

(** [MsFlags], from [linux/mount.h] *)
Definition MS_RDONLY : Z := 1.
Definition MS_NOSUID : Z := 2.
Definition MS_NODEV : Z := 4.
Definition MS_NOEXEC : Z := 8.
Definition MS_SYNCHRONOUS : Z := 16.
Definition MS_REMOUNT : Z := 32.
Definition MS_MANDLOCK : Z := 64.
Definition MS_DIRSYNC : Z := 128.
Definition MS_NOATIME : Z := 1024.
Definition MS_NODIRATIME : Z := 2048.
Definition MS_BIND : Z := 4096.
Definition MS_REC : Z := 16384.
Definition MS_UNBINDABLE : Z := 131072.
Definition MS_PRIVATE : Z := 262144.
Definition MS_SLAVE : Z := 524288.
Definition MS_SHARED : Z := 1048576.
Definition MS_RELATIME : Z := 2097152.
Definition MS_STRICTATIME : Z := 16777216.

Definition AT_RECURSIVE : Z := 32768.
Definition AT_EMPTY_PATH : Z := 4096.
Definition MOUNT_ATTR__ATIME : Z := 112.
Definition MOUNT_ATTR_RDONLY : Z := 1.
Definition MOUNT_ATTR_NOSUID : Z := 2.
Definition MOUNT_ATTR_NODEV : Z := 4.
Definition MOUNT_ATTR_NOEXEC : Z := 8.
Definition MOUNT_ATTR_RELATIME : Z := 0.
Definition MOUNT_ATTR_NOATIME : Z := 16.
Definition MOUNT_ATTR_STRICTATIME : Z := 32.
Definition MOUNT_ATTR_NODIRATIME : Z := 128.
Definition MOUNT_ATTR_NOSYMFOLLOW : Z := 2097152.

(** Each option says whether it clears its flag. *)
Inductive MountOption : Type :=
  | Defaults (is_clear : bool) (flag : Z) | Ro (is_clear : bool) (flag : Z)
  | Rw (is_clear : bool) (flag : Z) | Suid (is_clear : bool) (flag : Z)
  | Nosuid (is_clear : bool) (flag : Z) | Dev (is_clear : bool) (flag : Z)
  | Nodev (is_clear : bool) (flag : Z) | Exec (is_clear : bool) (flag : Z)
  | Noexec (is_clear : bool) (flag : Z) | Sync (is_clear : bool) (flag : Z)
  | Async (is_clear : bool) (flag : Z) | Dirsync (is_clear : bool) (flag : Z)
  | Remount (is_clear : bool) (flag : Z) | Mand (is_clear : bool) (flag : Z)
  | Nomand (is_clear : bool) (flag : Z) | Atime (is_clear : bool) (flag : Z)
  | Noatime (is_clear : bool) (flag : Z) | Diratime (is_clear : bool) (flag : Z)
  | Nodiratime (is_clear : bool) (flag : Z) | Bind (is_clear : bool) (flag : Z)
  | Rbind (is_clear : bool) (flag : Z) | Unbindable (is_clear : bool) (flag : Z)
  | Runbindable (is_clear : bool) (flag : Z) | Private (is_clear : bool) (flag : Z)
  | Rprivate (is_clear : bool) (flag : Z) | Shared (is_clear : bool) (flag : Z)
  | Rshared (is_clear : bool) (flag : Z) | Slave (is_clear : bool) (flag : Z)
  | Rslave (is_clear : bool) (flag : Z) | Relatime (is_clear : bool) (flag : Z)
  | Norelatime (is_clear : bool) (flag : Z) | Strictatime (is_clear : bool) (flag : Z)
  | Nostrictatime (is_clear : bool) (flag : Z).

Inductive MountRecursive : Type :=
  | RRdonly (is_clear : bool) (flag : Z) | RNosuid (is_clear : bool) (flag : Z)
  | RNodev (is_clear : bool) (flag : Z) | RNoexec (is_clear : bool) (flag : Z)
  | RAtime (is_clear : bool) (flag : Z) | RNoDiratime (is_clear : bool) (flag : Z)
  | RRelatime (is_clear : bool) (flag : Z) | RNoatime (is_clear : bool) (flag : Z)
  | RStrictAtime (is_clear : bool) (flag : Z) | RNosymfollow (is_clear : bool) (flag : Z).

(** [FromStr for MountOption] and [FromStr for MountRecursive], as tables *)
Definition mount_options : list (string * MountOption) := [
  ("defaults", Defaults false 0); ("ro", Ro false MS_RDONLY); ("rw", Rw true MS_RDONLY);
  ("suid", Suid true MS_NOSUID); ("nosuid", Nosuid false MS_NOSUID);
  ("dev", Dev true MS_NODEV); ("nodev", Nodev false MS_NODEV); ("exec", Exec true MS_NOEXEC);
  ("noexec", Noexec false MS_NOEXEC); ("sync", Sync false MS_SYNCHRONOUS);
  ("async", Async true MS_SYNCHRONOUS); ("dirsync", Dirsync false MS_DIRSYNC);
  ("remount", Remount false MS_REMOUNT); ("mand", Mand false MS_MANDLOCK);
  ("nomand", Nomand true MS_MANDLOCK); ("atime", Atime true MS_NOATIME);
  ("noatime", Noatime false MS_NOATIME); ("diratime", Diratime true MS_NODIRATIME);
  ("nodiratime", Nodiratime false MS_NODIRATIME); ("bind", Bind false MS_BIND);
  ("rbind", Rbind false (Z.lor MS_BIND MS_REC));
  ("unbindable", Unbindable false MS_UNBINDABLE);
  ("runbindable", Runbindable false (Z.lor MS_UNBINDABLE MS_REC));
  ("private", Private true MS_PRIVATE); ("rprivate", Rprivate true (Z.lor MS_PRIVATE MS_REC));
  ("shared", Shared true MS_SHARED); ("rshared", Rshared true (Z.lor MS_SHARED MS_REC));
  ("slave", Slave true MS_SLAVE); ("rslave", Rslave true (Z.lor MS_SLAVE MS_REC));
  ("relatime", Relatime false MS_RELATIME); ("norelatime", Norelatime true MS_RELATIME);
  ("strictatime", Strictatime false MS_STRICTATIME);
  ("nostrictatime", Nostrictatime true MS_STRICTATIME) ].

Definition recursive_options : list (string * MountRecursive) := [
  ("rro", RRdonly false MOUNT_ATTR_RDONLY); ("rrw", RRdonly true MOUNT_ATTR_RDONLY);
  ("rnosuid", RNosuid false MOUNT_ATTR_NOSUID); ("rsuid", RNosuid true MOUNT_ATTR_NOSUID);
  ("rnodev", RNodev false MOUNT_ATTR_NODEV); ("rdev", RNodev true MOUNT_ATTR_NODEV);
  ("rnoexec", RNoexec false MOUNT_ATTR_NOEXEC); ("rexec", RNoexec true MOUNT_ATTR_NOEXEC);
  ("rnodiratime", RNoDiratime false MOUNT_ATTR_NODIRATIME);
  ("rdiratime", RNoDiratime true MOUNT_ATTR_NODIRATIME);
  ("rrelatime", RRelatime false MOUNT_ATTR_RELATIME);
  ("rnorelatime", RRelatime true MOUNT_ATTR_RELATIME);
  ("rnoatime", RNoatime false MOUNT_ATTR_NOATIME);
  ("ratime", RNoatime true MOUNT_ATTR_NOATIME);
  ("rstrictatime", RStrictAtime false MOUNT_ATTR_STRICTATIME);
  ("rnostrictatime", RStrictAtime true MOUNT_ATTR_STRICTATIME);
  ("rnosymfollow", RNosymfollow false MOUNT_ATTR_NOSYMFOLLOW);
  ("rsymfollow", RNosymfollow true MOUNT_ATTR_NOSYMFOLLOW) ].

Definition find_option {A} (table : list (string * A)) (s : string) : option A :=
  snd <$> List.find (λ x, String.eqb x.1 s) table.

Definition mount_option_from_str (s : string) : option MountOption := find_option mount_options s.
Definition mount_recursive_from_str (s : string) : option MountRecursive :=
  find_option recursive_options s.

Definition known_options : list string := [
  "defaults"; "ro"; "rw"; "suid"; "nosuid"; "dev"; "nodev"; "exec"; "noexec"; "sync"; "async";
  "dirsync"; "remount"; "mand"; "nomand"; "atime"; "noatime"; "diratime"; "nodiratime"; "bind";
  "rbind"; "unbindable"; "runbindable"; "private"; "rprivate"; "shared"; "rshared"; "slave";
  "rslave"; "relatime"; "norelatime"; "strictatime"; "nostrictatime" ].

Definition recursive_flag (o : MountRecursive) : bool * Z :=
  match o with
  | RRdonly c f | RNosuid c f | RNodev c f | RNoexec c f | RAtime c f | RNoDiratime c f
  | RRelatime c f | RNoatime c f | RStrictAtime c f | RNosymfollow c f => (c, f)
  end.

(** [inl] is a flag that is set or cleared, [inr] a propagation type. *)
Definition option_flag (o : MountOption) : (bool * Z) + Z :=
  match o with
  | Unbindable _ f | Runbindable _ f | Private _ f | Rprivate _ f | Shared _ f | Rshared _ f
  | Slave _ f | Rslave _ f => inr f
  | Defaults c f | Ro c f | Rw c f | Suid c f | Nosuid c f | Dev c f | Nodev c f | Exec c f
  | Noexec c f | Sync c f | Async c f | Dirsync c f | Remount c f | Mand c f | Nomand c f
  | Atime c f | Noatime c f | Diratime c f | Nodiratime c f | Bind c f | Rbind c f
  | Relatime c f | Norelatime c f | Strictatime c f | Nostrictatime c f => inl (c, f)
  end.

Record MountAttr : Type := MkAttr {
  attr_set : Z; attr_clr : Z; propagation : Z; userns_fd : Z }.

(** ** [parse_mount] *)

Inductive SymlinkError : Type := SymlinkSyscall (errno : Z) | SymlinkOther.

(** [Syscall] is [SyscallError::Nix], the only error of the calls that are made. *)
Inductive MountError : Type :=
  | NoSource | Io (errno : Z) | Syscall (errno : Z) | Nix (errno : Z) | SpecBuild | Other
  | Custom (msg : string) | SymlinkFailed (e : SymlinkError) | Procfs
  | UnsupportedMountOption (o : string) | Pathrs (errno : Z) | TmpCopyUp (errno : Z).

Record MountOptionConfig : Type := MkConfig {
  flags : Z; data : list string; rec_attr : option MountAttr;
  propagation_flags : list Z; tmpcopyup : bool }.

Definition no_options : MountOptionConfig := MkConfig 0 [] None [] false.

(** A recursive attribute; to set an access time, the kernel wants the whole field
    cleared. *)
Definition add_recursive (attr : option MountAttr) (is_clear : bool) (flag : Z) : MountAttr :=
  let a := default (MkAttr 0 0 0 0) attr in
  let a := if is_clear then MkAttr (attr_set a) (Z.lor (attr_clr a) flag) (propagation a) (userns_fd a)
           else MkAttr (Z.lor (attr_set a) flag) (attr_clr a) (propagation a) (userns_fd a) in
  if Z.land flag MOUNT_ATTR__ATIME =? flag
  then MkAttr (attr_set a) (Z.lor (attr_clr a) MOUNT_ATTR__ATIME) (propagation a) (userns_fd a)
  else a.

(** The body of the loop over the options. *)
Definition parse_option (typ : option string) (opt : string) (c : MountOptionConfig) :
    outcome MountError MountOptionConfig :=
  if bool_decide (opt = "idmap") then Ok c
  else if bool_decide (opt = "ridmap") then Ok c
  else if bool_decide (opt = "tmpcopyup") then
    if bool_decide (typ ≠ Some "tmpfs") then Err (Custom "tmpcopyup can be used only with tmpfs")
    else Ok (MkConfig (flags c) (data c) (rec_attr c) (propagation_flags c) true)
  else
    match mount_recursive_from_str opt with
    | Some o =>
        let '(is_clear, flag) := recursive_flag o in
        Ok (MkConfig (flags c) (data c) (Some (add_recursive (rec_attr c) is_clear flag))
                     (propagation_flags c) (tmpcopyup c))
    | None =>
        match mount_option_from_str opt with
        | Some o =>
            match option_flag o with
            | inr flag =>
                Ok (MkConfig (flags c) (data c) (rec_attr c) (propagation_flags c ++ [flag])
                             (tmpcopyup c))
            | inl (is_clear, flag) =>
                Ok (MkConfig (if is_clear then Z.ldiff (flags c) flag else Z.lor (flags c) flag)
                             (data c) (rec_attr c) (propagation_flags c) (tmpcopyup c))
            end
        | None =>
            Ok (MkConfig (flags c) (data c ++ [opt]) (rec_attr c) (propagation_flags c)
                         (tmpcopyup c))
        end
    end.

Definition parse_mount (m : Mount) : outcome MountError MountOptionConfig :=
  for_each (parse_option (mount_typ m)) (default [] (options m)) no_options.

Definition is_bind (m : Mount) : bool :=
  bool_decide (mount_typ m = Some "bind")
  || existsb (λ o, String.eqb o "bind" || String.eqb o "rbind") (default [] (options m)).

(** ** What the options of a mount mean

    An option stands on its own: it changes flags, or attributes of the whole tree, or
    names a propagation type, or is one of three words with a meaning of their own, or
    is left to the file system. *)
Definition flag_change (o : string) : option (bool * Z) :=
  x ← mount_option_from_str o; match option_flag x with inl cf => Some cf | inr _ => None end.

Definition propagation_of (o : string) : option Z :=
  x ← mount_option_from_str o; match option_flag x with inl _ => None | inr f => Some f end.

Definition recursive_change (o : string) : option (bool * Z) :=
  recursive_flag <$> mount_recursive_from_str o.

Definition words : list string := ["idmap"; "ridmap"; "tmpcopyup"].

Definition is_data (o : string) : bool :=
  bool_decide (¬ (o ∈ words ++ mount_options.*1 ++ recursive_options.*1)).

(** What an option says about one flag: [Some true] if it sets it. *)
Definition says (b : Z) (o : string) : option bool :=
  '(is_clear, f) ← flag_change o; if Z.testbit f b then Some (negb is_clear) else None.

(** The last option that says something about a flag decides. *)
Definition decided (b : Z) (os : list string) : bool := default false (last (omap (says b) os)).

(** An option sets, or clears, an attribute of the tree. *)
Definition recurses (is_clear : bool) (b : Z) (o : string) : bool :=
  match recursive_change o with
  | Some (c, f) => Bool.eqb c is_clear && Z.testbit f b
  | None => false
  end.

(** An option is about the access time. *)
Definition about_atime (o : string) : bool :=
  match recursive_change o with
  | Some (_, f) => Z.land f MOUNT_ATTR__ATIME =? f
  | None => false
  end.

Record parsed (os : list string) (c : MountOptionConfig) : Prop := MkParsed {
  parsed_flags b : Z.testbit (flags c) b = decided b os;
  parsed_data : data c = List.filter is_data os;
  parsed_propagation : propagation_flags c = omap propagation_of os;
  parsed_tmpcopyup : tmpcopyup c = existsb (String.eqb "tmpcopyup") os;
  parsed_recursive :
    match rec_attr c with
    | None => Forall (λ o, recursive_change o = None) os
    | Some a =>
        propagation a = 0 ∧ userns_fd a = 0 ∧
        (∀ b, Z.testbit (attr_set a) b = existsb (recurses false b) os) ∧
        ∀ b, Z.testbit (attr_clr a) b
             = existsb (recurses true b) os || Z.testbit MOUNT_ATTR__ATIME b && existsb about_atime os
    end }.

Lemma find_option_None {A} (table : list (string * A)) o :
  find_option table o = None ↔ ¬ (o ∈ table.*1).
Proof.
  unfold find_option. rewrite fmap_None. induction table as [|[n x] table IH]; cbn; [set_solver|].
  destruct (String.eqb_spec n o); set_solver.
Qed.

(** The tables and the words have no name in common. *)
Lemma names_disjoint : NoDup (words ++ mount_options.*1 ++ recursive_options.*1).
Proof. apply (bool_decide_unpack _). vm_compute. exact I. Qed.

(** Every option is a word, or in one table, or data. *)
Lemma option_cases o :
  (o ∈ words ∧ mount_recursive_from_str o = None ∧ mount_option_from_str o = None) ∨
  (¬ (o ∈ words) ∧ mount_option_from_str o = None ∧ is_Some (mount_recursive_from_str o)) ∨
  (¬ (o ∈ words) ∧ mount_recursive_from_str o = None ∧ is_Some (mount_option_from_str o)) ∨
  (is_data o = true ∧ ¬ (o ∈ words) ∧ mount_recursive_from_str o = None ∧ mount_option_from_str o = None).
Proof.
  pose proof names_disjoint as (_ & Hw & (_ & Ht & _)%NoDup_app)%NoDup_app.
  pose proof (Hw o) as Hwo. pose proof (Ht o) as Hto. rewrite elem_of_app in Hwo.
  unfold is_data, mount_recursive_from_str, mount_option_from_str.
  rewrite bool_decide_eq_true, !elem_of_app, <- !not_eq_None_Some, !find_option_None.
  destruct (decide (o ∈ words)), (decide (o ∈ mount_options.*1)), (decide (o ∈ recursive_options.*1)); tauto.
Qed.

Lemma decided_snoc b os o :
  decided b (os ++ [o]) = default (decided b os) (says b o).
Proof.
  unfold decided. rewrite omap_app. simpl. destruct (says b o) as [v|]; [by rewrite last_snoc|].
  by rewrite app_nil_r.
Qed.

(** One more option, which does not concern the attributes of the tree. *)
Lemma parsed_snoc os c o c' :
  parsed os c → recursive_change o = None → rec_attr c' = rec_attr c →
  (∀ b, Z.testbit (flags c') b = default (Z.testbit (flags c) b) (says b o)) →
  data c' = data c ++ (if is_data o then [o] else []) →
  propagation_flags c' = propagation_flags c ++ option_list (propagation_of o) →
  tmpcopyup c' = tmpcopyup c || String.eqb "tmpcopyup" o →
  parsed (os ++ [o]) c'.
Proof.
  intros [Hf Hd Hp Ht Hr] Hro Hrec Hf' Hd' Hp' Ht'. split.
  - intros b. by rewrite decided_snoc, Hf', Hf.
  - rewrite List.filter_app, Hd', Hd. cbn. by destruct (is_data o).
  - rewrite omap_app, Hp', Hp. simpl. by destruct (propagation_of o).
  - rewrite existsb_app, Ht', Ht. cbn [existsb]. by rewrite orb_false_r.
  - rewrite Hrec. destruct (rec_attr c) as [a|].
    + destruct Hr as (Hpr & Hu & Hs & Hc). split_and!; [done|done| |]; intros b;
        rewrite !existsb_app, ?Hs, ?Hc; cbn; unfold recurses, about_atime; rewrite Hro;
        by rewrite !orb_false_r.
    + apply Forall_app. split; [done|]. by apply Forall_singleton.
Qed.

Lemma no_recursive os :
  Forall (λ o, recursive_change o = None) os →
  (∀ c b, existsb (recurses c b) os = false) ∧ existsb about_atime os = false.
Proof.
  intros Hos. split; intros; induction Hos as [|o os Ho _ IH]; cbn; try done; rewrite IH;
    unfold recurses, about_atime; by rewrite Ho.
Qed.

(** The attributes so far, in which an absent record counts as empty. *)
Lemma parsed_attr os c :
  parsed os c →
  let a := default (MkAttr 0 0 0 0) (rec_attr c) in
  propagation a = 0 ∧ userns_fd a = 0 ∧
  (∀ b, Z.testbit (attr_set a) b = existsb (recurses false b) os) ∧
  ∀ b, Z.testbit (attr_clr a) b
       = existsb (recurses true b) os || Z.testbit MOUNT_ATTR__ATIME b && existsb about_atime os.
Proof.
  intros [_ _ _ _ Hr]. destruct (rec_attr c) as [a|]; [done|].
  destruct (no_recursive os Hr) as [Hn Ha]. cbn. split_and!; [done|done| |]; intros b;
    rewrite Z.bits_0, Hn; [done|]. by rewrite Ha, andb_false_r.
Qed.

(** One more option that does. *)
Lemma parsed_recursive_snoc os c o is_clear f :
  parsed os c → recursive_change o = Some (is_clear, f) →
  flag_change o = None → propagation_of o = None → is_data o = false → o ≠ "tmpcopyup" →
  parsed (os ++ [o])
    (MkConfig (flags c) (data c) (Some (add_recursive (rec_attr c) is_clear f))
              (propagation_flags c) (tmpcopyup c)).
Proof.
  intros Hc Hro Hfo Hpo Hdo Hto. destruct (parsed_attr _ _ Hc) as (Hpr & Hu & Hs & Hl).
  destruct Hc as [Hf Hd Hp Ht _]. split; cbn [flags data rec_attr propagation_flags tmpcopyup].
  - intros b. rewrite decided_snoc, Hf. unfold says. by rewrite Hfo.
  - rewrite List.filter_app, Hd. cbn. by rewrite Hdo, app_nil_r.
  - rewrite omap_app, Hp. simpl. by rewrite Hpo, app_nil_r.
  - rewrite existsb_app, Ht. cbn [existsb]. rewrite (proj2 (String.eqb_neq "tmpcopyup" o)) by done.
    by rewrite !orb_false_r.
  - assert (∀ cl b, existsb (recurses cl b) (os ++ [o])
              = existsb (recurses cl b) os || Bool.eqb is_clear cl && Z.testbit f b) as Hx.
    { intros cl b. rewrite existsb_app. cbn [existsb]. unfold recurses at 2. rewrite Hro.
      by rewrite orb_false_r. }
    assert (existsb about_atime (os ++ [o])
            = existsb about_atime os || (Z.land f MOUNT_ATTR__ATIME =? f)) as Hy.
    { rewrite existsb_app. cbn [existsb]. unfold about_atime at 2. rewrite Hro.
      by rewrite orb_false_r. }
    unfold add_recursive. set (a := default _ _) in *. clearbody a.
    destruct is_clear, (Z.land f _ =? f); cbn [attr_set attr_clr propagation userns_fd];
      (split_and!; [done|done| |]); intros b;
      rewrite Hx, ?Hy, ?Z.lor_spec, ?Hs, ?Hl; cbn [Bool.eqb]; btauto.
Qed.

Lemma not_word o : ¬ (o ∈ words) → o ≠ "idmap" ∧ o ≠ "ridmap" ∧ o ≠ "tmpcopyup".
Proof. unfold words. set_solver. Qed.

Lemma not_data o :
  is_Some (mount_option_from_str o) ∨ is_Some (mount_recursive_from_str o) → is_data o = false.
Proof.
  unfold is_data, mount_option_from_str, mount_recursive_from_str.
  rewrite <- !not_eq_None_Some, !find_option_None, bool_decide_eq_false, !elem_of_app. tauto.
Qed.

Lemma parsed_option typ os c o c' :
  parsed os c → parse_option typ o c = Ok c' → parsed (os ++ [o]) c'.
Proof.
  intros Hc. unfold parse_option.
  destruct (option_cases o) as [(Hw & Hr & Hm)|[(Hw & Hm & [r Hr])|[(Hw & Hr & [x Hm])|(Hd & Hw & Hr & Hm)]]].
  1: { assert (is_data o = false) as Hd.
       { unfold is_data. apply bool_decide_eq_false. rewrite elem_of_app. tauto. }
       assert (parse_option typ o c = Ok c' → c' = MkConfig (flags c) (data c) (rec_attr c)
                 (propagation_flags c) (tmpcopyup c || String.eqb "tmpcopyup" o)) as Hc'.
       { unfold words in Hw. rewrite !elem_of_cons in Hw. destruct c as [fl da re pr t].
         destruct Hw as [->|[->|[->|Hw]]]; [..|by apply not_elem_of_nil in Hw];
           cbn; rewrite ?orb_false_r, ?orb_true_r; [by intros [= <-]..|].
         unfold parse_option. repeat (case_bool_decide; try done). by intros [= <-]. }
       intros ->%Hc'. apply (parsed_snoc os c); cbn [flags data propagation_flags tmpcopyup rec_attr];
         rewrite ?Hd, ?app_nil_r; unfold recursive_change, says, flag_change, propagation_of;
         rewrite ?Hr, ?Hm; cbn; rewrite ?app_nil_r; done. }
  all: pose proof (not_word o Hw) as (H1 & H2 & H3).
  all: rewrite !bool_decide_eq_false_2 by done.
  all: rewrite Hr, ?Hm.
  - destruct (recursive_flag r) as [is_clear f] eqn:Hf. intros [= <-].
    apply parsed_recursive_snoc; [done| | | | |done].
    + unfold recursive_change. rewrite Hr. cbn. by rewrite Hf.
    + unfold flag_change. by rewrite Hm.
    + unfold propagation_of. by rewrite Hm.
    + apply not_data. eauto.
  - destruct (option_flag x) as [[is_clear f]|f] eqn:Hf; intros [= <-];
      (apply (parsed_snoc os c); [done|by unfold recursive_change; rewrite Hr|done|..]);
      cbn [flags data propagation_flags tmpcopyup];
      rewrite ?(not_data o) by eauto; rewrite ?app_nil_r, ?(proj2 (String.eqb_neq _ _) (not_eq_sym H3)), ?orb_false_r;
      try done; unfold propagation_of, says, flag_change; rewrite Hm; cbn; rewrite Hf; cbn; rewrite ?app_nil_r; try done.
    intros b. destruct is_clear; [rewrite Z.ldiff_spec|rewrite Z.lor_spec]; destruct (Z.testbit f b); cbn;
      by rewrite ?andb_false_r, ?andb_true_r, ?orb_true_r, ?orb_false_r.
  - intros [= <-]. apply (parsed_snoc os c); cbn [flags data propagation_flags tmpcopyup rec_attr]; try done.
    + unfold recursive_change. by rewrite Hr.
    + intros b. unfold says, flag_change. by rewrite Hm.
    + by rewrite Hd.
    + unfold propagation_of. rewrite Hm. by rewrite app_nil_r.
    + rewrite (proj2 (String.eqb_neq _ _)) by done. by rewrite orb_false_r.
Qed.

(** The only error. *)
Lemma parse_option_error typ o c :
  match parse_option typ o c with
  | Ok _ => o = "tmpcopyup" → typ = Some "tmpfs"
  | Err _ => o = "tmpcopyup" ∧ typ ≠ Some "tmpfs"
  | Panic => False
  end.
Proof.
  unfold parse_option. case_bool_decide; [by subst|]. case_bool_decide; [by subst|].
  case_bool_decide.
  { case_bool_decide as Ht; [done|]. intros _. destruct (decide (typ = Some "tmpfs")); [done|]. by destruct Ht. }
  destruct (mount_recursive_from_str o) as [r|]; [by destruct (recursive_flag r)|].
  destruct (mount_option_from_str o) as [x|]; [|done]. by destruct (option_flag x) as [[]|].
Qed.

Lemma parse_options_spec typ os1 os2 c :
  parsed os1 c →
  match for_each (parse_option typ) os2 c with
  | Ok c' => parsed (os1 ++ os2) c' ∧ ("tmpcopyup" ∈ os2 → typ = Some "tmpfs")
  | Err _ => "tmpcopyup" ∈ os2 ∧ typ ≠ Some "tmpfs"
  | Panic => False
  end.
Proof.
  revert os1 c. induction os2 as [|o os2 IH]; intros os1 c Hc; cbn [for_each].
  { rewrite app_nil_r. split; [done|]. intros H. by apply not_elem_of_nil in H. }
  pose proof (parsed_option typ os1 c o) as Ho. rewrite cons_middle, app_assoc.
  pose proof (parse_option_error typ o c) as He.
  destruct (parse_option typ o c) as [c'|e|]; run; [|set_solver|done].
  specialize (IH _ c' (Ho c' Hc eq_refl)). destruct (for_each _ os2 c'); [|set_solver|done].
  split; [tauto|]. rewrite elem_of_cons. intros [<-|?]; [by apply He|tauto].
Qed.

(** The options that are announced are those that are understood. *)
Lemma known_options_parsed o : o ∈ known_options ↔ is_Some (mount_option_from_str o).
Proof.
  assert (known_options = fst <$> mount_options) as -> by reflexivity.
  unfold mount_option_from_str, find_option. induction mount_options as [|[n x] l IH]; cbn.
  - split; [by intros ?%not_elem_of_nil|by intros []].
  - rewrite elem_of_cons. destruct (String.eqb_spec n o) as [->|Hne]; cbn.
    + split; [eauto|auto].
    + rewrite IH. split; [by intros [->|?]|auto].
Qed.

Lemma parsed_nil : parsed [] no_options.
Proof. split; cbn; try done. intros b. apply Z.bits_0. Qed.

Lemma parse_mount_parsed m c : parse_mount m = Ok c → parsed (default [] (options m)) c.
Proof.
  intros Hp. pose proof (parse_options_spec (mount_typ m) [] (default [] (options m)) no_options parsed_nil) as H.
  unfold parse_mount in Hp. rewrite Hp in H. by destruct H.
Qed.

Lemma parse_mount_no_panic m : parse_mount m ≠ Panic.
Proof.
  intros Hp. pose proof (parse_options_spec (mount_typ m) [] (default [] (options m)) no_options parsed_nil) as H.
  unfold parse_mount in Hp. by rewrite Hp in H.
Qed.

(** What the options of a mount are parsed to.  For each flag, the last option that
    sets or clears it decides; the attributes of the tree are those of all options that
    set them, and those of all that clear them; unknown options are the data, in their
    order, and propagation types are kept in their order.  An error is reported exactly
    for [tmpcopyup] on a file system that is not a [tmpfs]. *)
Theorem parse_mount_spec m :
  let os := default [] (options m) in
  match parse_mount m with
  | Ok c => parsed os c ∧ ("tmpcopyup" ∈ os → mount_typ m = Some "tmpfs")
  | Err _ => "tmpcopyup" ∈ os ∧ mount_typ m ≠ Some "tmpfs"
  | Panic => False
  end.
Proof. exact (parse_options_spec (mount_typ m) [] (default [] (options m)) no_options parsed_nil). Qed.

(** The example mounts a temporary file system read-only. *)
Example parse_mount_example :
  parse_mount (MkMount "/tmp" (Some "tmpfs") (Some "tmpfs")
                 (Some ["rw"; "nosuid"; "size=64k"; "rslave"; "ro"; "tmpcopyup"; "rnoatime"]) None None)
  = Ok (MkConfig 3 ["size=64k"] (Some (MkAttr 16 112 0 0)) [Z.lor MS_SLAVE MS_REC] true).
Proof. vm_compute. reflexivity. Qed.
