(* ===== verification/Mounting.v ===== *)
(** * Mounting into a container

    Models [libcontainer/src/rootfs/mount.rs] ([setup_mount], [mount_into_container] and
    what they call), and [retry] of [libcontainer/src/utils.rs].  The
    world is the list of the system calls made so far with their errors; which call
    fails is left open and may depend on all that came before. *)
From S2P Require Import Prelude Calls Text Paths Utils Spec MountOptions.
Local Open Scope string_scope.
Local Open Scope list_scope.
Local Open Scope Z_scope.

(** ** System calls *)

(** Calls through [pathrs] act below the root of the container.  [MoveMount] attaches
    the detached mount of the last [OpenTree] or [Fsmount] to the destination.
    [SetPropagation] is [mount] without a source and [BindAt] a bind mount by path. *)
Inductive call : Type :=
  | OpenRoot | Resolve (p : Path) | MkdirAll (p : Path) | CreateFile (p : Path)
  | OpenSource (p : string) | FstatSource
  | OpenTree (flags : Z) | MountSetattr (flags : Z) (attr : MountAttr) | MoveMount (dest : Path)
  | Fsopen (typ : option string) | Fsconfig (cmd : Z) (key value : option string) | Fsmount
  | CopyUp (dest : Path)
  | MountAt (source : string) (dest : Path) (typ : option string) (flags : Z) (data : string)
  | Symlink (target : string) (link : Path)
  | Sleep
  | SetPropagation (dest : Path) (flags : Z)
  | BindAt (source dest : Path) (flags : Z)
  | CreateDirAll (p : Path) | OpenCreate (p : Path) (mode : Z) | CloseFile | RemoveFile (p : Path)
  | Umask (mode : Z) | Mknod (p : Path) (kind mode dev : Z) | Chown (p : Path) (uid gid : option Z).

(** [None] is a success, [Some] an error number. *)
Abbreviation event := (call * option Z)%type.
Abbreviation M := (io (list event) MountError).

Definition EINVAL : Z := 22.
Definition EBUSY : Z := 16.

Definition FSCONFIG_SET_FLAG : Z := 0.
Definition FSCONFIG_SET_STRING : Z := 1.
Definition FSCONFIG_CMD_CREATE : Z := 6.
Definition OPEN_TREE_CLONE : Z := 1.
Definition OPEN_TREE_CLOEXEC : Z := 524288.

(** ** Attributes *)

Definition attr_map : list (Z * Z) := [
  (MS_RDONLY, MOUNT_ATTR_RDONLY); (MS_NOSUID, MOUNT_ATTR_NOSUID); (MS_NODEV, MOUNT_ATTR_NODEV);
  (MS_NOEXEC, MOUNT_ATTR_NOEXEC); (MS_NOATIME, MOUNT_ATTR_NOATIME);
  (MS_NODIRATIME, MOUNT_ATTR_NODIRATIME); (MS_RELATIME, MOUNT_ATTR_RELATIME);
  (MS_STRICTATIME, MOUNT_ATTR_STRICTATIME) ].

Definition mount_flag_to_attr (flags : Z) : Z :=
  foldl (λ set x, if Z.land flags x.1 =? 0 then set else Z.lor set x.2) 0 attr_map.

Definition contains (flags f : Z) : bool := Z.land flags f =? f.

Definition apply_atime_from_msflags (attr : MountAttr) (attr_set_from_flags msflags : Z) : MountAttr :=
  let atime_bits := Z.lor (Z.lor MOUNT_ATTR_NOATIME MOUNT_ATTR_STRICTATIME) MOUNT_ATTR_RELATIME in
  let atime := if contains msflags MS_STRICTATIME then MOUNT_ATTR_STRICTATIME
               else if contains msflags MS_NOATIME then MOUNT_ATTR_NOATIME
               else if contains msflags MS_RELATIME then MOUNT_ATTR_RELATIME
               else 0 in
  let non_atime := Z.ldiff attr_set_from_flags atime_bits in
  if negb (atime =? 0) then
    MkAttr (Z.lor (attr_set attr) (Z.lor non_atime atime)) (Z.lor (attr_clr attr) MOUNT_ATTR__ATIME)
           (propagation attr) (userns_fd attr)
  else MkAttr (Z.lor (attr_set attr) non_atime) (attr_clr attr) (propagation attr) (userns_fd attr).

(** The argument of the first [mount_setattr]. *)
Definition attr_of (flags : Z) : MountAttr :=
  let attr_set_from_flags := mount_flag_to_attr flags in
  apply_atime_from_msflags (MkAttr (Z.lor 0 attr_set_from_flags) 0 0 0) attr_set_from_flags flags.

(** ** The world *)

(** What [lstat] of a destination finds. *)
Inductive lstat_result : Type := LNotFound | LError | LDir | LOther.

(** A hierarchy and the path of a process in it, from [/proc/<pid>/cgroup]. *)
Record ProcessCGroup : Type := MkCGroup { hierarchy : Z; controllers : list string; pathname : string }.

Inductive CgroupSetup : Type := Legacy | Hybrid | Unified.

(** What the code asks the system without changing it; [None] and [inl] are errors.
    [env_procfs] is whether [statfs] finds a procfs and [env_metadata] an error of [stat]. *)
Record env : Type := MkEnv {
  env_selinux : bool; env_source_is_dir : string → bool; env_lstat : Path → lstat_result;
  env_procfs : string → Z + bool; env_metadata : string → option Z;
  env_cgroup_setup : option CgroupSetup; env_subsystem_mounts : option (list Path);
  env_unified_mount : option Path;
  env_own_cgroups : MountError + list ProcessCGroup; env_root_cgroups : MountError + list ProcessCGroup }.

Record MountOptions : Type := MkOptions { root : Path; label : option string; cgroup_ns : bool }.

Section mounting.
(** [sys w c] is the error of the call [c] after the calls [w], if it has one. *)
Context (sys : list event → call → option Z) (e : env).

Definition sleep : M () := λ w, (Ok (), w ++ [(Sleep, None)]).

(** [utils::retry] *)
Fixpoint retry_loop {A} (op : M A) (attempts : nat) (policy : MountError → bool) : M A :=
  match attempts with
  | O => pure Panic
  | S rest =>
      r ← attempt op;
      match r with
      | inr res => mret res
      | inl err =>
          if (0 <? rest)%nat && policy err then _ ← sleep; retry_loop op rest policy
          else pure (Err err)
      end
  end.

Definition retry {A} (op : M A) (attempts : nat) (policy : MountError → bool) : M A :=
  retry_loop op attempts policy.

(** The attributes of a detached mount are set before it is attached. *)
Definition set_attributes (cfg : MountOptionConfig) : M () :=
  _ ← do sys (MountSetattr AT_EMPTY_PATH (attr_of (flags cfg))) Syscall;
  match rec_attr cfg with
  | Some a => do sys (MountSetattr (Z.lor AT_EMPTY_PATH AT_RECURSIVE) a) Syscall
  | None => mret ()
  end.

Definition legacy_mount (source : string) (dest : Path) (typ : option string)
    (cfg : MountOptionConfig) (data_options : list string) : M () :=
  let data := List.filter (λ s, negb (String.eqb s "")) data_options in
  _ ← do sys (Resolve dest) Pathrs;
  _ ← do sys (MountAt source dest typ (flags cfg) (String.concat "," data)) Syscall;
  match rec_attr cfg with
  | Some a =>
      _ ← do sys (Resolve dest) Pathrs;
      do sys (MountSetattr (Z.lor AT_EMPTY_PATH AT_RECURSIVE) a) Syscall
  | None => mret ()
  end.

(** One data option. *)
Definition config_option (opt : string) : M () :=
  match split_once "="%char opt with
  | Some (k, v) => do sys (Fsconfig FSCONFIG_SET_STRING (Some k) (Some v)) Syscall
  | None => do sys (Fsconfig FSCONFIG_SET_FLAG (Some opt) None) Syscall
  end.

Definition configure (source : string) (data_options : list string) : M () :=
  _ ← do sys (Fsconfig FSCONFIG_SET_STRING (Some "source") (Some source)) Syscall;
  _ ← io_each config_option (List.filter (λ s, negb (String.eqb s "")) data_options);
  do sys (Fsconfig FSCONFIG_CMD_CREATE None None) Syscall.

(** After a configuration that the kernel took. *)
Definition attach (dest : Path) (cfg : MountOptionConfig) : M () :=
  _ ← do sys Fsmount Syscall;
  _ ← (if tmpcopyup cfg then do sys (CopyUp dest) TmpCopyUp else mret ());
  _ ← set_attributes cfg;
  do sys (MoveMount dest) Syscall.

Definition mount_fn (source : string) (dest : Path) (typ : option string)
    (cfg : MountOptionConfig) (data_options : list string) : M () :=
  _ ← do sys (Fsopen typ) Syscall;
  _ ← pure (if utf8_valid (as_bytes source) then Ok () else Err (Syscall EINVAL));
  r ← attempt (configure source data_options);
  match r with
  | inl err =>
      if tmpcopyup cfg then pure (Err err) else legacy_mount source dest typ cfg data_options
  | inr _ => attach dest cfg
  end.

(** A second attempt after [EINVAL], two more after [EBUSY]. *)
Definition is_errno (e : Z) (err : MountError) : bool :=
  match err with Syscall errno => errno =? e | _ => false end.

Definition mount_attempts (op : M ()) : M () :=
  r ← attempt op;
  match r with
  | inr _ => mret ()
  | inl err =>
      if is_errno EINVAL err then op
      else if is_errno EBUSY err then retry op 2 (is_errno EBUSY)
      else pure (Err err)
  end.

Definition bind_mount (dest : Path) (cfg : MountOptionConfig) (recursive : bool) : M () :=
  let open_tree_flags := Z.lor (Z.lor OPEN_TREE_CLOEXEC OPEN_TREE_CLONE) AT_EMPTY_PATH in
  let open_tree_flags := if recursive then Z.lor open_tree_flags AT_RECURSIVE else open_tree_flags in
  _ ← do sys (OpenTree open_tree_flags) Syscall;
  _ ← set_attributes cfg;
  do sys (MoveMount dest) Syscall.

(** The destination of a bind mount is made a directory or a file, as the source is. *)
Definition prepare_bind (source : string) (dest : Path) : M () :=
  _ ← do sys (OpenSource source) Nix;
  _ ← do sys FstatSource Nix;
  if env_source_is_dir e source then do sys (MkdirAll dest) Pathrs
  else
    p ← pure (ok_or (parent dest) (Custom "destination has no parent"));
    _ ← do sys (MkdirAll p) Pathrs;
    created ← attempt (do sys (CreateFile dest) Pathrs);
    match created with
    | inr _ => mret ()
    | inl create_err => io_map_err (λ _, create_err) (do sys (Resolve dest) Pathrs)
    end.

Definition set_propagation (f : Z) : M () :=
  let setattr_flags := if contains f MS_REC then Z.lor AT_EMPTY_PATH AT_RECURSIVE else AT_EMPTY_PATH in
  do sys (MountSetattr setattr_flags (MkAttr 0 0 (Z.ldiff f MS_REC) 0)) Syscall.

Definition apply_mount_propagation (dest : Path) (propagation_flags : list Z) : M () :=
  match propagation_flags with
  | [] => mret ()
  | _ =>
      _ ← do sys OpenRoot Pathrs;
      _ ← do sys (Resolve dest) Pathrs;
      io_each set_propagation propagation_flags
  end.

Definition label_options (typ label : option string) : list string :=
  match label with
  | Some l =>
      if bool_decide (typ = Some "proc") || bool_decide (typ = Some "sysfs") then []
      else if env_selinux e then ["context=" +:+ l] else []
  | None => []
  end.

Definition mount_into_container (m : Mount) (cfg : MountOptionConfig) (label : option string) : M () :=
  let data_options := data cfg ++ label_options (mount_typ m) label in
  let dest := components (destination m) in
  _ ← do sys OpenRoot Pathrs;
  src ← pure (ok_or (source m) NoSource);
  _ ← (if is_bind m then prepare_bind src dest else do sys (MkdirAll dest) Pathrs);
  _ ← do sys (Resolve dest) Pathrs;
  _ ← (if is_bind m
       then bind_mount dest cfg (existsb (String.eqb "rbind") (default [] (options m)))
       else mount_attempts (mount_fn src dest (mount_typ m) cfg data_options));
  apply_mount_propagation dest (propagation_flags cfg).

(** ** The check of mounts on [/proc] *)

Definition VALID_PROC_MOUNTS : list string := [
  "/proc/cpuinfo"; "/proc/diskstats"; "/proc/meminfo"; "/proc/stat"; "/proc/swaps";
  "/proc/uptime"; "/proc/loadavg"; "/proc/slabinfo"; "/proc/sys/kernel/ns_last_pid";
  "/proc/sys/crypto/fips_enabled" ].

(** A bind mount on [/proc] needs a procfs as its source. *)
Definition check_proc_source (m : Mount) : outcome MountError () :=
  let refused := Err (Custom "cannot be mounted because it is not type proc") in
  if is_bind m then
    match source m with
    | Some src =>
        match env_procfs e src with
        | inl errno => Err (Nix errno)
        | inr true => match env_metadata e src with Some errno => Err (Io errno) | None => Ok () end
        | inr false => refused
        end
    | None => refused
    end
  else refused.

Definition check_proc_mount (rootfs : Path) (m : Mount) : outcome MountError () :=
  let dest_path := container_join rootfs (components (destination m)) in
  match strip_path_prefix (join rootfs (components "proc")) dest_path with
  | None => Ok ()
  | Some [] => if bool_decide (mount_typ m = Some "proc") then Ok () else check_proc_source m
  | Some _ =>
      if existsb (λ allowed, bool_decide (dest_path = container_join rootfs (components allowed)))
           VALID_PROC_MOUNTS
      then Ok () else Err Other
  end.

(** ** [setup_mount] *)

(** The destination of procfs and sysfs is a directory, not a link. *)
Definition check_directory (m : Mount) (o : MountOptions) : outcome MountError () :=
  match env_lstat e (container_join (root o) (normalize (components (destination m)))) with
  | LOther | LError => Err Other
  | LDir | LNotFound => Ok ()
  end.

(** Mounts other than those of type [cgroup]. *)
Definition setup_plain_mount (m : Mount) (o : MountOptions) (cfg : MountOptionConfig) : M () :=
  if bool_decide (mount_typ m = Some "proc") || bool_decide (mount_typ m = Some "sysfs") then
    _ ← pure (check_directory m o);
    _ ← pure (check_proc_mount (root o) m);
    mount_into_container m cfg (label o)
  else if bool_decide (components (destination m) = components "/dev") then
    mount_into_container m
      (MkConfig (Z.ldiff (flags cfg) MS_RDONLY) (data cfg) (rec_attr cfg) (propagation_flags cfg)
                (tmpcopyup cfg)) (label o)
  else mount_into_container m cfg (label o).

(** ** Mounts of type [cgroup] *)

Definition mount_with (typ source dest : string) (opts : list string) : Mount :=
  MkMount dest (Some source) (Some typ) (Some opts) None None.

(** [path_str] prints a path; only the components of the result matter. *)
Definition component_str (c : Component) : string :=
  match c with RootDir => "" | CurDir => "." | ParentDir => ".." | Normal n => n end.

Definition path_str (p : Path) : string :=
  match p with
  | [RootDir] => "/"
  | _ => String.concat "/" (component_str <$> p)
  end.

Definition SUBSYSTEM_FLAGS : Z := Z.lor (Z.lor MS_NOEXEC MS_NOSUID) MS_NODEV.

Definition subsystem_data (named : bool) (name : string) : string :=
  if named then "name=" +:+ name else name.

(** [subsystem_name] is one component of a path. *)
Definition setup_namespaced_subsystem (m : Mount) (o : MountOptions) (name : string) (named : bool) : M () :=
  mount_into_container
    (mount_with "cgroup" "cgroup" (destination m +:+ "/" +:+ name) ["noexec"; "nosuid"; "nodev"])
    (MkConfig SUBSYSTEM_FLAGS [subsystem_data named name] None [] false) (label o).

Definition setup_emulated_subsystem (m : Mount) (o : MountOptions) (name : string) (named : bool)
    (host_mount : Path) (process_cgroups : gmap string string) : M () :=
  match process_cgroups !! subsystem_data named name with
  | Some proc_path =>
      let emulated := mount_with "bind" (path_str (container_join host_mount (components proc_path)))
                        (destination m +:+ "/" +:+ name) ["rw"; "rbind"] in
      cfg ← pure (parse_mount emulated);
      setup_plain_mount emulated o cfg
  | None => mret ()
  end.

(** [Symlink::setup_comount_symlinks] *)
Definition setup_comount_symlinks (cgroup_root : Path) (name : string) : M () :=
  if negb (contains_char ","%char name) then mret ()
  else io_each (λ comount, do sys (Symlink name (join cgroup_root (components comount))) (λ n, SymlinkFailed (SymlinkSyscall n)))
         (split_terminator ","%char name).

(** The path of the root of the hierarchy is stripped from the path of this process. *)
Definition process_cgroups (own roots : list ProcessCGroup) : gmap string string :=
  foldl (λ m c,
    let root_pathname :=
      from_option pathname "" (List.find (λ r, hierarchy r =? hierarchy c) roots) in
    <[String.concat "," (controllers c) :=
        default (pathname c) (strip_prefix root_pathname (pathname c))]> m) ∅ own.

Definition file_name (p : Path) : option string :=
  match last p with Some (Normal n) => Some n | _ => None end.

Definition mount_cgroup_v1 (m : Mount) (o : MountOptions) : M () :=
  let tmpfs := mount_with "tmpfs" "tmpfs" (destination m) ["noexec"; "nosuid"; "nodev"; "mode=755"] in
  cfg ← pure (parse_mount tmpfs);
  _ ← setup_plain_mount tmpfs o cfg;
  mounts ← pure (ok_or (env_subsystem_mounts e) Other);
  let host_mounts :=
    List.filter (λ p, bool_decide (is_Some (strip_path_prefix (components "/sys/fs/cgroup") p))) mounts in
  roots ← pure (of_sum (env_root_cgroups e));
  own ← pure (of_sum (env_own_cgroups e));
  let cgroups := process_cgroups own roots in
  let cgroup_root := container_join (root o) (components (destination m)) in
  io_each (λ host_mount,
    match file_name host_mount with
    | Some name =>
        _ ← (if cgroup_ns o then setup_namespaced_subsystem m o name (String.eqb name "systemd")
             else setup_emulated_subsystem m o name (String.eqb name "systemd") host_mount cgroups);
        setup_comount_symlinks cgroup_root name
    | None => mret ()
    end) host_mounts.

(** A cgroup file system that cannot be mounted is bound from the host instead. *)
Definition mount_cgroup_v2 (m : Mount) (o : MountOptions) (cfg : MountOptionConfig) : M () :=
  mounted ← attempt (mount_into_container (mount_with "cgroup2" "cgroup" (destination m) []) cfg (label o));
  match mounted with
  | inr _ => mret ()
  | inl _ =>
      host_mount ← pure (ok_or (env_unified_mount e) Other);
      own ← pure (of_sum (env_own_cgroups e));
      c ← pure (ok_or (List.find (λ c, hierarchy c =? 0) own) (Custom "failed to find unified process cgroup"));
      let src := container_join host_mount (normalize (components (pathname c))) in
      mount_into_container (mount_with "bind" (path_str src) (destination m) [])
        (MkConfig (Z.lor (flags cfg) MS_BIND) (data cfg) (rec_attr cfg) (propagation_flags cfg)
                  (tmpcopyup cfg)) (label o)
  end.

Definition setup_mount (m : Mount) (o : MountOptions) : M () :=
  cfg ← pure (parse_mount m);
  if bool_decide (mount_typ m = Some "cgroup") then
    setup ← pure (ok_or (env_cgroup_setup e) Other);
    match setup with
    | Legacy | Hybrid => mount_cgroup_v1 m o
    | Unified => mount_cgroup_v2 m o cfg
    end
  else setup_plain_mount m o cfg.
End mounting.

(** ** When a mount becomes visible *)

(** The calls that attach a mount of the configuration to the tree of the container. *)
Definition attaches (c : call) : bool :=
  match c with MoveMount _ | MountAt _ _ _ _ _ => true | _ => false end.

(** What a successful call does to the attributes of the mount in preparation; a clone
    of a mount has the attributes of its original. *)
Definition attribute_step (inherited : Z) (d : Z) (ev : event) : Z :=
  match ev with
  | (OpenTree _, None) => inherited
  | (Fsmount, None) => 0
  | (MountSetattr _ a, None) => Z.lor (Z.ldiff d (attr_clr a)) (attr_set a)
  | _ => d
  end.

(** The attributes with which a mount is attached by a call after the calls [t], which
    start with the attributes [d].  A call of [mount] that binds does not look at the other
    flags. *)
Definition in_force (inherited d : Z) (t : list event) (c : call) : Z :=
  match c with
  | MountAt _ _ _ fl _ => if Z.testbit fl 12 then inherited else fl
  | _ => foldl (attribute_step inherited) d t
  end.

(** The four attributes that take rights from the container: read-only, no set-user-ID,
    no devices, no execution. *)
Definition restriction_bit (b : Z) : Prop := 0 ≤ b < 4.

(** A restriction that the configuration has for the mount, or for the whole tree; the
    second is in force at once only where the mount is prepared before it is attached. *)
Definition wanted (cfg : MountOptionConfig) (c : call) (b : Z) : Prop :=
  (Z.testbit (flags cfg) b = true ∧ ∀ a, rec_attr cfg = Some a → Z.testbit (attr_clr a) b = false) ∨
  ∃ dest a, c = MoveMount dest ∧ rec_attr cfg = Some a ∧ Z.testbit (attr_set a) b = true.

(** Every mount that is attached is restricted as the configuration asks. *)
Definition enforced (cfg : MountOptionConfig) (t : list event) : Prop :=
  ∀ t1 c t2 inherited d b, t = t1 ++ (c, None) :: t2 → attaches c = true → restriction_bit b →
    wanted cfg c b → Z.testbit (in_force inherited d t1 c) b = true.

(** The attributes for the whole tree are set. *)
Definition sets_tree (cfg : MountOptionConfig) (t : list event) : Prop :=
  ∀ a, rec_attr cfg = Some a → (MountSetattr (Z.lor AT_EMPTY_PATH AT_RECURSIVE) a, None) ∈ t.

(** After a mount that is attached with [mount], they are set. *)
Definition finished (cfg : MountOptionConfig) (t : list event) : Prop :=
  ∀ t1 source dest typ fl da t2, t = t1 ++ (MountAt source dest typ fl da, None) :: t2 → sets_tree cfg t2.

Definition opens (t : list event) : nat :=
  length (List.filter (λ ev, match ev.1 with Fsopen _ => true | _ => false end) t).

(** At most [n] attempts; on success, a mount was attached if [vis] says so, and no mount
    is left without the attributes of its tree. *)
Record good {A} (cfg : MountOptionConfig) (n : nat) (vis : bool) (r : outcome MountError A)
    (t : list event) : Prop := MkGood {
  good_enforced : enforced cfg t;
  good_attempts : (opens t ≤ n)%nat;
  good_no_panic : r ≠ Panic;
  good_attached : vis = true → is_ok r = true → (∃ c, (c, None) ∈ t ∧ attaches c = true) ∧ sets_tree cfg t;
  good_finished : vis = false ∨ is_ok r = true → finished cfg t }.

Lemma in_force_app inh d t t' c : in_force inh d (t ++ t') c = in_force inh (foldl (attribute_step inh) d t) t' c.
Proof. unfold in_force. rewrite foldl_app. by destruct c. Qed.

Lemma enforced_app cfg t t' : enforced cfg t → enforced cfg t' → enforced cfg (t ++ t').
Proof.
  intros Ht Ht' t1 c t2 inh d b (l & [[-> Hl]|[-> ->]])%app_eq_app.
  - destruct l as [|ev l]; cbn in Hl; [|simplify_eq; intros; by eapply Ht].
    subst t'. intros. rewrite <- (app_nil_r t1), in_force_app. by eapply Ht'.
  - intros. rewrite in_force_app. by eapply Ht'.
Qed.

Lemma enforced_nil cfg : enforced cfg [].
Proof. intros [|? t1] c t2 inh d b; discriminate. Qed.

Lemma enforced_one cfg c r : attaches c = false ∨ is_Some r → enforced cfg [(c, r)].
Proof.
  intros Hc [|ev t1] c' t2 inh d b Heq Ha; cbn in Heq; simplify_eq;
    [|by destruct t1]. destruct Hc as [?|[]]; congruence.
Qed.

Lemma sets_tree_app cfg t t' : sets_tree cfg t ∨ sets_tree cfg t' → sets_tree cfg (t ++ t').
Proof. intros [H|H] a Ha; rewrite elem_of_app; [left|right]; by apply H. Qed.

Lemma finished_app cfg t t' :
  finished cfg t ∨ sets_tree cfg t' → finished cfg t' → finished cfg (t ++ t').
Proof.
  intros Ht Ht' t1 s d ty fl da t2 (l & [[-> Hl]|[-> ->]])%app_eq_app.
  - destruct l as [|ev l]; cbn in Hl; [subst t'; by eapply (Ht' [])|]. simplify_eq.
    apply sets_tree_app. destruct Ht as [Ht|Ht]; [left; by eapply Ht|by right].
  - by eapply Ht'.
Qed.

Lemma finished_nil cfg : finished cfg [].
Proof. intros [|? t1] s d ty fl da t2; discriminate. Qed.

Lemma finished_one cfg c r : attaches c = false ∨ is_Some r → finished cfg [(c, r)].
Proof.
  intros Hc [|ev t1] s d ty fl da t2 Heq; cbn in Heq; simplify_eq; [|by destruct t1].
  by destruct Hc as [?|[]].
Qed.

Lemma finished_move cfg dest : finished cfg [(MoveMount dest, None)].
Proof. intros [|ev t1] s d ty fl da t2 Heq; cbn in Heq; simplify_eq. by destruct t1. Qed.

Lemma opens_app t t' : opens (t ++ t') = (opens t + opens t')%nat.
Proof. unfold opens. by rewrite List.filter_app, length_app. Qed.

Lemma restriction_cases b : restriction_bit b → b = 0 ∨ b = 1 ∨ b = 2 ∨ b = 3.
Proof. unfold restriction_bit. lia. Qed.

(** The restrictions among the flags become attributes, and none is cleared. *)
Lemma mount_flag_to_attr_bit fl b :
  restriction_bit b → Z.testbit (mount_flag_to_attr fl) b = Z.testbit fl b.
Proof.
  intros Hb. unfold mount_flag_to_attr, attr_map. cbn [foldl fst snd].
  change MS_RDONLY with (2 ^ 0); change MS_NOSUID with (2 ^ 1); change MS_NODEV with (2 ^ 2);
  change MS_NOEXEC with (2 ^ 3). rewrite !land_pow2 by lia.
  destruct (restriction_cases b Hb) as [->|[->|[->| ->]]];
    destruct (Z.testbit fl 0), (Z.testbit fl 1), (Z.testbit fl 2), (Z.testbit fl 3);
    cbn [negb]; repeat case_match; reflexivity.
Qed.

Lemma attr_of_bits fl b :
  restriction_bit b →
  Z.testbit (attr_set (attr_of fl)) b = Z.testbit fl b ∧ Z.testbit (attr_clr (attr_of fl)) b = false.
Proof.
  intros Hb. rewrite <- (mount_flag_to_attr_bit fl b Hb). unfold attr_of, apply_atime_from_msflags.
  set (s := mount_flag_to_attr fl). clearbody s.
  destruct (contains fl MS_STRICTATIME), (contains fl MS_NOATIME), (contains fl MS_RELATIME);
    cbn [negb Z.eqb attr_set attr_clr MOUNT_ATTR_STRICTATIME MOUNT_ATTR_NOATIME MOUNT_ATTR_RELATIME];
    rewrite ?Z.lor_spec, ?Z.ldiff_spec, ?Z.bits_0;
    destruct (restriction_cases b Hb) as [->|[->|[->| ->]]];
    (split; [match goal with |- context [Z.testbit s ?k] => destruct (Z.testbit s k) end; reflexivity
            |reflexivity]).
Qed.
Section good.
Context (sys : list event → call → option Z) (cfg : MountOptionConfig).

Definition sound {A} (n : nat) (vis : bool) (m : M A) : Prop := runs m (good cfg n vis).

Lemma sound_pure {A} (r : outcome MountError A) vis :
  r ≠ Panic → (vis = true → is_ok r = false) → sound 0 vis (pure r).
Proof.
  intros Hr Hv. apply runs_pure. split; [apply enforced_nil|cbn; lia|done| |intros _; apply finished_nil].
  intros Hvis Hok. rewrite Hv in Hok by done. done.
Qed.

Lemma sound_ret {A} (a : A) : sound 0 false (mret a : M A).
Proof. by apply (sound_pure (Ok a)). Qed.

Lemma sound_mono {A} n n' vis (m : M A) : (n ≤ n')%nat → sound n vis m → sound n' vis m.
Proof. intros Hn Hm. apply (runs_mono _ _ _ Hm). intros r t []. split; auto; lia. Qed.

Lemma good_after {A B} n1 n2 v1 v2 vis (r : outcome MountError A) (r' : outcome MountError B) t t' :
  good cfg n1 v1 r t → good cfg n2 v2 r' t' →
  (vis = true → v1 = true ∧ is_ok r = true ∨ v2 = true) →
  (vis = false ∨ is_ok r' = true → v1 = false ∨ is_ok r = true ∨ v2 = true ∧ is_ok r' = true) →
  (vis = false ∨ is_ok r' = true → v2 = false ∨ is_ok r' = true) →
  good cfg (n1 + n2) vis r' (t ++ t').
Proof.
  intros [He Ho Hp Hv Hf] [He' Ho' Hp' Hv' Hf'] Hvis Hfin Hfin'.
  split; [by apply enforced_app|rewrite opens_app; lia|done| |].
  - intros Hvt Hok. destruct (Hvis Hvt) as [[Hv1 Hok1]|Hv2].
    + destruct (Hv Hv1 Hok1) as [(c & Hc & Ha) Hs].
      split; [exists c; rewrite elem_of_app; eauto|apply sets_tree_app; by left].
    + destruct (Hv' Hv2 Hok) as [(c & Hc & Ha) Hs].
      split; [exists c; rewrite elem_of_app; eauto|apply sets_tree_app; by right].
  - intros H. apply finished_app; [|by apply Hf', Hfin'].
    destruct (Hfin H) as [H1|[H1|[H1 H2]]]; [left; auto..|]. right. by apply Hv'.
Qed.

Lemma sound_bind {A B} n1 n2 v1 v2 (m : M A) (f : A → M B) :
  sound n1 v1 m → (∀ a, sound n2 v2 (f a)) → sound (n1 + n2) (v1 || v2) (m ≫= f).
Proof.
  intros Hm Hf. apply runs_bind, (runs_mono _ _ _ Hm). intros r t Hg.
  destruct r as [a|x|]; [| |by destruct Hg].
  - apply (runs_mono _ _ _ (Hf a)). intros r' t' Hg'.
    apply (good_after n1 n2 v1 v2 _ (Ok a) r' t t' Hg Hg'); cbn; [|by auto|].
    + intros [->| ->]%orb_true_iff; auto.
    + intros [[_ ->]%orb_false_iff|]; auto.
  - destruct Hg as [He Ho Hp Hv Hfi]. split; [done|lia|done|done|].
    intros [[-> _]%orb_false_iff|]; [by apply Hfi; left|done].
Qed.

Lemma good_quiet {A} c r n (x : outcome MountError A) :
  attaches c = false → x ≠ Panic → (opens [(c, r)] ≤ n)%nat → good cfg n false x [(c, r)].
Proof.
  intros Hc Hx Hn. split; [apply enforced_one; by left|done|done|done|].
  intros _. apply finished_one. by left.
Qed.

Lemma sound_do c err :
  attaches c = false →
  sound (match c with Fsopen _ => 1 | _ => 0 end) false (do sys c err).
Proof.
  intros Hc. apply runs_do; [|intros n]; (apply good_quiet; [done|done|]);
    unfold opens; destruct c; cbn; lia.
Qed.

Lemma sound_attempt {A B} n1 n2 vis (m : M A) (f : MountError + A → M B) :
  sound n1 false m → (∀ r, sound n2 vis (f r)) → sound (n1 + n2) vis (attempt m ≫= f).
Proof.
  intros Hm Hf. apply (sound_bind n1 n2 false vis); [|done].
  apply runs_attempt, (runs_mono _ _ _ Hm). intros [a|x|] t []; split; auto; done.
Qed.

(** When the first part succeeds, it has attached a mount. *)
Lemma sound_attempt_attached {A B} n1 n2 (m : M A) (f : MountError + A → M B) :
  sound n1 true m → (∀ a, sound n2 false (f (inr a))) → (∀ x, sound n2 true (f (inl x))) →
  sound (n1 + n2) true (attempt m ≫= f).
Proof.
  intros Hm Hr Hl. apply runs_bind, runs_attempt, (runs_mono _ _ _ Hm). intros r t Hg.
  destruct r as [a|x|]; [| |by destruct Hg].
  - apply (runs_mono _ _ _ (Hr a)). intros r' t' Hg'.
    apply (good_after n1 n2 true false _ (Ok a) r' t t' Hg Hg'); cbn; auto.
  - apply (runs_mono _ _ _ (Hl x)). intros r' t' Hg'.
    apply (good_after n1 n2 true true _ (Err x) r' t t' Hg Hg'); cbn; auto.
    intros [|]; [done|]. auto.
Qed.

Lemma sound_each {A} (f : A → M ()) l : (∀ x, sound 0 false (f x)) → sound 0 false (io_each f l).
Proof.
  intros Hf. induction l as [|x l IH]; cbn; [apply sound_ret|].
  by apply (sound_bind 0 0 false false).
Qed.

(** The mount in preparation is restricted as asked after the calls [t]. *)
Definition prepared (t : list event) : Prop :=
  (∀ inherited d b dest, restriction_bit b → wanted cfg (MoveMount dest) b →
     Z.testbit (foldl (attribute_step inherited) d t) b = true) ∧
  sets_tree cfg t.

Lemma plain_attributes d b :
  restriction_bit b → Z.testbit (flags cfg) b = true →
  Z.testbit (Z.lor (Z.ldiff d (attr_clr (attr_of (flags cfg)))) (attr_set (attr_of (flags cfg)))) b = true.
Proof.
  intros Hb Hf. destruct (attr_of_bits (flags cfg) b Hb) as [Hs _].
  by rewrite Z.lor_spec, Hs, Hf, orb_true_r.
Qed.

Lemma runs_set_attributes :
  runs (set_attributes sys cfg) (λ r t, good cfg 0 false r t ∧ (is_ok r = true → prepared t)).
Proof.
  apply runs_bind, runs_do; [|intros n; split; [by apply good_quiet|done]].
  destruct (rec_attr cfg) as [a|] eqn:Hrec.
  - assert (∀ r x, x ≠ Panic → good (A:=()) cfg 0 false x
      ([(MountSetattr AT_EMPTY_PATH (attr_of (flags cfg)), None)]
       ++ [(MountSetattr (Z.lor AT_EMPTY_PATH AT_RECURSIVE) a, r)])) as Htwo.
    { intros r x Hx. apply (good_after 0 0 false false _ (Ok ()) x); cbn; auto; by apply good_quiet. }
    apply runs_do; [|intros n]; (split; [by apply Htwo|]); [|done]. intros _. split.
    + intros inh d b dest Hb Hw. cbn. rewrite Z.lor_spec, Z.ldiff_spec.
      destruct Hw as [[Hf Hr]|(? & a' & _ & Ha & Hs)].
      * by rewrite plain_attributes, (Hr a) by done.
      * rewrite Hrec in Ha. simplify_eq. by rewrite Hs, orb_true_r.
    + intros a' Ha. rewrite Hrec in Ha. simplify_eq. rewrite elem_of_app. right. by left.
  - apply runs_pure. split; [by apply good_quiet|]. intros _. split; [|intros a Ha; congruence].
    intros inh d b dest Hb [[Hf _]|(? & a & _ & Ha & _)]; [|congruence]. cbn. by apply plain_attributes.
Qed.

(** Attributes first, then the attachment. *)
Lemma sound_attach dest : sound 0 true (_ ← set_attributes sys cfg; do sys (MoveMount dest) Syscall).
Proof.
  apply runs_bind, (runs_mono _ _ _ runs_set_attributes). intros r t [[He Ho Hp _ Hfi] Hprep].
  destruct r as [[]|x|]; [|split; [done..|intros [|]; done]|done].
  destruct (Hprep eq_refl) as [Hset Htree].
  apply runs_do; [|intros n]; (split; [|rewrite opens_app; cbn; lia|done| |]).
  - intros t1 c t2 inh d b Heq Ha Hb Hw. destruct t2 as [|ev t2 _] using rev_ind.
    + apply app_inj_tail in Heq as [<- [= <-]]. by eapply Hset.
    + rewrite app_comm_cons, app_assoc in Heq. apply app_inj_tail in Heq as [Heq _]. by eapply He.
  - intros _ _. split; [|apply sets_tree_app; by left]. exists (MoveMount dest). set_solver.
  - intros _. apply finished_app; [left; auto|apply finished_move].
  - apply enforced_app; [done|]. apply enforced_one. right. by eexists.
  - done.
  - intros [|]; done.
Qed.

Lemma sound_bind_mount dest recursive : sound 0 true (bind_mount sys dest cfg recursive).
Proof. apply (sound_bind 0 0 false true); [by apply sound_do|intros _; apply sound_attach]. Qed.

Lemma sound_attach_new dest : sound 0 true (attach sys dest cfg).
Proof.
  apply (sound_bind 0 0 false true); [by apply sound_do|intros _].
  apply (sound_bind 0 0 false true); [|intros _; apply sound_attach].
  destruct (tmpcopyup cfg); [by apply sound_do|apply sound_ret].
Qed.

(** The attributes of the tree come after the attachment here. *)
Lemma sound_legacy source dest typ data_options :
  Z.testbit (flags cfg) 12 = false → sound 0 true (legacy_mount sys source dest typ cfg data_options).
Proof.
  intros Hbind. apply (sound_bind 0 0 false true); [by apply sound_do|intros _].
  set (c := MountAt source dest typ (flags cfg) _).
  assert (enforced cfg [(c, None)]) as Hc.
  { intros [|ev t1] c' t2 inh d b Heq Ha Hb Hw; cbn in Heq; simplify_eq; [|by destruct t1].
    cbn [in_force]. rewrite Hbind. by destruct Hw as [[Hf _]|(? & ? & ? & _)]. }
  assert (∀ t (r : outcome MountError ()), good cfg 0 false r t → (is_ok r = true → sets_tree cfg t) →
    good cfg 0 true r ([(c, None)] ++ t)) as Hgood.
  { intros t r [He Ho Hp _ Hf] Hs. split; [by apply enforced_app|rewrite opens_app; cbn; lia|done| |].
    - intros _ Hok. split; [exists c; by split; [left|]|apply sets_tree_app; auto].
    - intros [|Hok]; [done|]. apply finished_app; auto. }
  apply runs_bind, runs_do; [|intros n; split; [|cbn; lia|done|done|intros [|]; done]].
  - destruct (rec_attr cfg) as [a|] eqn:Hrec.
    + apply runs_bind, runs_do; [|intros n; apply (Hgood [_]); [by apply good_quiet|done]].
      assert (∀ r x, x ≠ Panic → good (A:=()) cfg 0 false x ([(Resolve dest, None)]
        ++ [(MountSetattr (Z.lor AT_EMPTY_PATH AT_RECURSIVE) a, r)])) as Htwo.
      { intros r x Hx. apply (good_after 0 0 false false _ (Ok ()) x); cbn; auto; by apply good_quiet. }
      apply runs_do; [|intros n]; (apply (Hgood [_; _]); [by apply Htwo|]); [|done].
      intros _ a' Ha. rewrite Hrec in Ha. simplify_eq. right. by left.
    + apply runs_pure, (Hgood []); [|intros _ a Ha; congruence].
      split; [apply enforced_nil|cbn; lia|done|done|intros _; apply finished_nil].
  - apply enforced_one. right. by eexists.
Qed.

Lemma sound_configure source data_options : sound 0 false (configure sys source data_options).
Proof.
  apply (sound_bind 0 0 false false); [by apply sound_do|intros _].
  apply (sound_bind 0 0 false false); [|intros _; by apply sound_do].
  apply sound_each. intros opt. unfold config_option.
  destruct (split_once _ opt) as [[k v]|]; by apply sound_do.
Qed.

(** One attempt opens the file system once. *)
Lemma sound_mount_fn source dest typ data_options :
  Z.testbit (flags cfg) 12 = false → sound 1 true (mount_fn sys source dest typ cfg data_options).
Proof.
  intros Hbind. apply (sound_bind 1 0 false true); [by apply (sound_do (Fsopen typ))|intros _].
  apply (sound_bind 0 0 false true).
  { destruct (utf8_valid _); by apply sound_pure. }
  intros _. apply (sound_attempt 0 0); [apply sound_configure|]. intros [err|[]]; [|apply sound_attach_new].
  destruct (tmpcopyup cfg); [by apply sound_pure|by apply sound_legacy].
Qed.

Lemma sound_sleep : sound 0 false sleep.
Proof. intros w. exists [(Sleep, None)]. split; [done|]. by apply good_quiet. Qed.

Lemma sound_retry n (op : M ()) policy : sound 1 true op → sound (S n) true (retry op (S n) policy).
Proof.
  intros Hop. unfold retry. induction n as [|n IH].
  - apply (sound_attempt_attached 1 0); [done|intros []; apply sound_ret|intros x; by apply sound_pure].
  - apply (sound_attempt_attached 1 (S n)); [done| |].
    + intros []. apply (sound_mono 0); [lia|apply sound_ret].
    + intros x. cbn [Nat.ltb Nat.leb andb]. destruct (policy x).
      * apply (sound_bind 0 (S n) false true); [apply sound_sleep|intros _; exact IH].
      * apply (sound_mono 0); [lia|by apply sound_pure].
Qed.

Lemma sound_mount_attempts (op : M ()) : sound 1 true op → sound 3 true (mount_attempts op).
Proof.
  intros Hop. apply (sound_attempt_attached 1 2); [done| |].
  - intros _. apply (sound_mono 0); [lia|apply sound_ret].
  - intros err. destruct (is_errno EINVAL err); [by apply (sound_mono 1); [lia|]|].
    destruct (is_errno EBUSY err); [by apply (sound_retry 1)|].
    apply (sound_mono 0); [lia|by apply sound_pure].
Qed.

Lemma sound_prepare_bind e source dest : sound 0 false (prepare_bind sys e source dest).
Proof.
  apply (sound_bind 0 0 false false); [by apply sound_do|intros _].
  apply (sound_bind 0 0 false false); [by apply sound_do|intros _].
  destruct (env_source_is_dir e source); [by apply sound_do|].
  apply (sound_bind 0 0 false false).
  { destruct (parent dest); by apply sound_pure. }
  intros p. apply (sound_bind 0 0 false false); [by apply sound_do|intros _].
  apply (sound_attempt 0 0); [by apply sound_do|]. intros [err|[]]; [|apply sound_ret].
  apply runs_map_err, (runs_mono _ _ _ (sound_do (Resolve dest) Pathrs eq_refl)).
  intros [a|x|] t []; by split; auto.
Qed.

Lemma sound_mount_into_container e m label :
  is_bind m = true ∨ Z.testbit (flags cfg) 12 = false →
  sound (if is_bind m then 0 else 3) true (mount_into_container sys e m cfg label).
Proof.
  intros Hbind. set (n := (if is_bind m then 0 else 3)%nat).
  apply (sound_bind 0 n false true); [by apply sound_do|intros _].
  apply (sound_bind 0 n false true); [by destruct (source m); apply sound_pure|intros src].
  apply (sound_bind 0 n false true).
  { destruct (is_bind m); [apply sound_prepare_bind|by apply sound_do]. }
  intros _. apply (sound_bind 0 n false true); [by apply sound_do|intros _].
  replace n with (n + 0)%nat by lia. apply (sound_bind n 0 true false).
  { subst n. destruct (is_bind m); [apply sound_bind_mount|].
    apply sound_mount_attempts, sound_mount_fn. by destruct Hbind. }
  intros _. unfold apply_mount_propagation. destruct (propagation_flags cfg); [apply sound_ret|].
  apply (sound_bind 0 0 false false); [by apply sound_do|intros _].
  apply (sound_bind 0 0 false false); [by apply sound_do|intros _].
  apply sound_each. intros f. by apply sound_do.
Qed.

Lemma sound_mount_three e m label :
  is_bind m = true ∨ Z.testbit (flags cfg) 12 = false →
  sound 3 true (mount_into_container sys e m cfg label).
Proof.
  intros H. eapply sound_mono; [|by apply sound_mount_into_container]. destruct (is_bind m); lia.
Qed.
End good.

(** The configuration with which a mount is made. *)
Definition effective (m : Mount) (cfg : MountOptionConfig) : MountOptionConfig :=
  if bool_decide (mount_typ m = Some "proc") || bool_decide (mount_typ m = Some "sysfs")
     || bool_decide (mount_typ m = Some "cgroup") then cfg
  else if bool_decide (components (destination m) = components "/dev") then
    MkConfig (Z.ldiff (flags cfg) MS_RDONLY) (data cfg) (rec_attr cfg) (propagation_flags cfg)
             (tmpcopyup cfg)
  else cfg.

Lemma check_proc_mount_no_panic e rootfs m : check_proc_mount e rootfs m ≠ Panic.
Proof.
  unfold check_proc_mount, check_proc_source. repeat case_match; done.
Qed.

(** Only the two options that make a mount a bind mount set the flag of one. *)
Lemma says_bind o : says 12 o = Some true → o = "bind" ∨ o = "rbind".
Proof.
  assert (forallb (λ x, match option_flag x.2 with
                        | inl (false, f) => negb (Z.testbit f 12) || String.eqb x.1 "bind" || String.eqb x.1 "rbind"
                        | _ => true
                        end) mount_options = true) as Htable by by vm_compute.
  intros ([c f] & (x & Hx & Hc)%bind_Some & Hf)%bind_Some.
  apply fmap_Some in Hx as ([n y] & [Hin Hn]%List.find_some & ->). cbn in Hn, Hc.
  apply String.eqb_eq in Hn as ->. rewrite forallb_forall in Htable. specialize (Htable _ Hin). cbn [fst snd] in Htable.
  destruct (option_flag y) as [[[] g]|]; simplify_eq; destruct (Z.testbit f 12); try done. cbn in Htable.
  by apply orb_true_iff in Htable as [->%String.eqb_eq| ->%String.eqb_eq]; [left|right].
Qed.

Lemma decided_bind m cfg :
  parse_mount m = Ok cfg → is_bind m = true ∨ Z.testbit (flags cfg) 12 = false.
Proof.
  intros Hp. rewrite (parsed_flags _ _ (parse_mount_parsed m cfg Hp)). unfold is_bind.
  destruct (existsb _ _) eqn:Hb; [left; by rewrite orb_true_r|]. right. unfold decided.
  destruct (last _) as [[]|] eqn:Hl; [|done|done]. exfalso.
  apply last_Some_elem_of, list_elem_of_omap in Hl as (o & Ho & Hs).
  rewrite <- not_true_iff_false, existsb_exists in Hb. apply Hb. exists o.
  split; [by apply list_elem_of_In|]. by destruct (says_bind o Hs) as [->| ->].
Qed.

Lemma sound_setup_plain sys e m o cfg :
  mount_typ m ≠ Some "cgroup" → parse_mount m = Ok cfg →
  sound (effective m cfg) 3 true (setup_plain_mount sys e m o cfg).
Proof.
  intros Hc Hp. pose proof (decided_bind m cfg Hp) as Hb. unfold setup_plain_mount, effective.
  rewrite (bool_decide_eq_false_2 (_ = Some "cgroup")), orb_false_r by done. destruct (_ || _).
  - apply (sound_bind _ 0 3 false true).
    { apply sound_pure; [|done]. unfold check_directory. by case_match. }
    intros _. apply (sound_bind _ 0 3 false true); [|intros _; by apply sound_mount_three].
    apply sound_pure; [apply check_proc_mount_no_panic|done].
  - case_bool_decide; apply sound_mount_three; [|done].
    destruct Hb as [|Hb]; [by left|]. right. cbn [flags]. by rewrite Z.ldiff_spec, Hb.
Qed.

(** The bind mount that stands in for the cgroup file system has every restriction. *)
Lemma good_bound {A} cfg n vis (r : outcome MountError A) t :
  good (MkConfig (Z.lor (flags cfg) MS_BIND) (data cfg) (rec_attr cfg) (propagation_flags cfg)
                 (tmpcopyup cfg)) n vis r t → good cfg n vis r t.
Proof.
  intros [He Ho Hp Hv Hf]. split; [|done..]. intros t1 c t2 inh d b Heq Ha Hb Hw.
  apply (He t1 c t2 inh d b Heq Ha Hb). destruct Hw as [[Hfl Hr]|Hw]; [left|by right].
  split; [|done]. cbn. by rewrite Z.lor_spec, Hfl.
Qed.

Lemma sound_cgroup_v2 sys e m o cfg :
  Z.testbit (flags cfg) 12 = false → sound cfg 3 true (mount_cgroup_v2 sys e m o cfg).
Proof.
  intros Hb. apply (sound_attempt_attached cfg 3 0); [by apply sound_mount_three; right| |].
  { intros _. apply sound_ret. }
  intros _. apply (sound_bind _ 0 0 false true); [by destruct (env_unified_mount e); apply sound_pure|].
  intros host. apply (sound_bind _ 0 0 false true).
  { by destruct (env_own_cgroups e); apply sound_pure. }
  intros own. apply (sound_bind _ 0 0 false true).
  { by destruct (List.find _ own); apply sound_pure. }
  intros c. eapply runs_mono; [|intros r t; apply good_bound].
  apply (sound_mount_into_container sys (MkConfig _ _ _ _ _)). by left.
Qed.

Lemma sound_setup sys e m o cfg :
  (mount_typ m = Some "cgroup" →
   env_cgroup_setup e = Some Unified ∧ decided 12 (default [] (options m)) = false) →
  parse_mount m = Ok cfg → sound (effective m cfg) 3 true (setup_mount sys e m o).
Proof.
  intros Hcg Hp. unfold setup_mount. rewrite Hp.
  intros w. rewrite io_bind_pure. case_bool_decide as Ht; [|by apply sound_setup_plain].
  destruct (Hcg Ht) as [-> Hb]. unfold ok_or. rewrite io_bind_pure. unfold effective.
  rewrite (bool_decide_eq_true_2 (_ = Some "cgroup")), orb_true_r by done.
  apply sound_cgroup_v2. by rewrite (parsed_flags _ _ (parse_mount_parsed m cfg Hp)).
Qed.

(** A restriction that the options ask for is among the flags, and no attribute of the
    tree takes it back. *)
Lemma asked_restriction m cfg b :
  let os := default [] (options m) in
  parse_mount m = Ok cfg → restriction_bit b → decided b os = true →
  existsb (recurses true b) os = false → (b = 0 → components (destination m) ≠ components "/dev") →
  Z.testbit (flags (effective m cfg)) b = true ∧
  ∀ a, rec_attr (effective m cfg) = Some a → Z.testbit (attr_clr a) b = false.
Proof.
  cbn zeta. intros Hp Hb Hd Hr Hdev. destruct (parse_mount_parsed m cfg Hp) as [Hf _ _ _ Hrec].
  rewrite <- Hf in Hd.
  assert (rec_attr (effective m cfg) = rec_attr cfg) as ->
    by (unfold effective; repeat case_match; done).
  split.
  - unfold effective. destruct (_ || _); [done|]. case_bool_decide as Hdest; [|done]. cbn.
    rewrite Z.ldiff_spec, Hd. destruct (restriction_cases b Hb) as [->|[->|[->| ->]]]; try done.
    by destruct (Hdev eq_refl).
  - intros a Ha. rewrite Ha in Hrec. destruct Hrec as (_ & _ & _ & Hc). rewrite Hc, Hr.
    by destruct (restriction_cases b Hb) as [->|[->|[->| ->]]].
Qed.

(** A restriction that an option asks for the whole tree is among the attributes of it. *)
Lemma asked_for_tree m cfg b :
  parse_mount m = Ok cfg → existsb (recurses false b) (default [] (options m)) = true →
  ∃ a, rec_attr (effective m cfg) = Some a ∧ Z.testbit (attr_set a) b = true.
Proof.
  intros Hp Hr. destruct (parse_mount_parsed m cfg Hp) as [_ _ _ _ Hrec].
  assert (rec_attr (effective m cfg) = rec_attr cfg) as ->
    by (unfold effective; repeat case_match; done).
  destruct (rec_attr cfg) as [a|].
  - exists a. split; [done|]. destruct Hrec as (_ & _ & Hs & _). by rewrite Hs.
  - destruct (no_recursive _ Hrec) as [Hn _]. by rewrite Hn in Hr.
Qed.

(** C21: the options of a mount are in force when it appears in the container.  Whatever
    calls fail, [setup_mount] makes at most three attempts and does not panic.  Whenever a
    mount is attached, it already is read-only, without set-user-ID, devices or execution
    as far as the last option about each of these says so and no option for the whole tree
    takes it back; the exception is [/dev], which is never mounted read-only.  What an
    option asks for the whole tree is in force as well when a prepared mount is moved to
    its place.  A mount of the older interface gets it only after it is attached: it is
    there without it for a moment, and for good if setting it fails; but if [setup_mount]
    succeeds, a mount was attached, and after every mount of the older interface the
    attributes of the tree were set.  The theorem is about every mount but those of cgroup
    hierarchies of version 1, whose options the code does not use, and cgroup mounts that
    are also asked to be bind mounts. *)
Theorem mount_options_enforced sys e m o w :
  let os := default [] (options m) in
  (mount_typ m = Some "cgroup" → env_cgroup_setup e = Some Unified ∧ decided 12 os = false) →
  ∃ t, (setup_mount sys e m o w).2 = w ++ t ∧ (opens t ≤ 3)%nat ∧
    match (setup_mount sys e m o w).1 with
    | Ok _ =>
        (∃ c, (c, None) ∈ t ∧ attaches c = true) ∧
        ∀ t1 source dest typ fl da t2 b,
          t = t1 ++ (MountAt source dest typ fl da, None) :: t2 → existsb (recurses false b) os = true →
          ∃ a, (MountSetattr (Z.lor AT_EMPTY_PATH AT_RECURSIVE) a, None) ∈ t2 ∧ Z.testbit (attr_set a) b = true
    | Err _ => True
    | Panic => False
    end ∧
    ∀ t1 c t2 inherited d b, t = t1 ++ (c, None) :: t2 → attaches c = true → restriction_bit b →
      (decided b os = true ∧ existsb (recurses true b) os = false ∧
       (b = 0 → components (destination m) ≠ components "/dev")) ∨
      (existsb (recurses false b) os = true ∧ ∃ dest, c = MoveMount dest) →
      Z.testbit (in_force inherited d t1 c) b = true.
Proof.
  intros os Htyp. pose proof (parse_mount_no_panic m) as Hs.
  destruct (parse_mount m) as [cfg|err|] eqn:Hp; [| |done].
  - destruct (sound_setup sys e m o cfg Htyp Hp w) as (t & Hw & [He Ho Hpa Hv Hf]).
    exists t. split_and!; [done|done| |].
    + destruct (setup_mount sys e m o w).1 as [u| |]; [|done|done]. split; [by apply Hv|].
      intros t1 s d ty fl da t2 b Heq Hr. destruct (asked_for_tree m cfg b Hp Hr) as (a & Ha & Hb).
      exists a. split; [|done]. by eapply Hf; [right|..].
    + intros t1 c t2 inh d b Heq Ha Hb Hask. apply (He t1 c t2 inh d b Heq Ha Hb).
      destruct Hask as [(Hd & Hr & Hdev)|[Hr [dest Hc]]].
      * left. by apply asked_restriction.
      * right. destruct (asked_for_tree m cfg b Hp Hr) as (a & Hra & Hsa). by exists dest, a.
  - unfold setup_mount. rewrite Hp. exists [].
    split_and!; [by rewrite app_nil_r|cbn; lia|done|]. intros [|? ?]; discriminate.
Qed.

(** The options of a cgroup mount on hierarchies of version 1 are parsed and not used:
    whatever they are, the same mounts are made. *)
Lemma cgroup_v1_options_unused sys e m m' o w cfg cfg' :
  mount_typ m = Some "cgroup" → mount_typ m' = Some "cgroup" → destination m = destination m' →
  env_cgroup_setup e = Some Legacy ∨ env_cgroup_setup e = Some Hybrid →
  parse_mount m = Ok cfg → parse_mount m' = Ok cfg' → setup_mount sys e m o w = setup_mount sys e m' o w.
Proof.
  intros Ht Ht' Hd Hs Hp Hp'. unfold setup_mount.
  rewrite Hp, Hp', !io_bind_pure, !bool_decide_eq_true_2 by done.
  unfold mount_cgroup_v1, setup_namespaced_subsystem, setup_emulated_subsystem. rewrite Hd.
  by destruct Hs as [-> | ->].
Qed.

(** The example binds a directory, read-only and without devices. *)
Definition example_mount : Mount :=
  MkMount "/data" (Some "/srv/data") None (Some ["rbind"; "rw"; "nodev"; "ro"]) None None.

Definition example_env : env :=
  MkEnv false (λ _, true) (λ _, LDir) (λ _, inr false) (λ _, None) (Some Unified) None None (inl Procfs) (inl Procfs).

Definition example_options : MountOptions := MkOptions (components "/run/c1") None true.

Lemma mount_options_enforced_witness :
  (setup_mount (λ _ _, None) example_env example_mount example_options []).1 = Ok () ∧
  decided 0 (default [] (options example_mount)) = true ∧
  ∃ t, (setup_mount (λ _ _, None) example_env example_mount example_options []).2 = [] ++ t ∧
    ∀ t1 c t2, t = t1 ++ (c, None) :: t2 → attaches c = true → Z.testbit (in_force 0 0 t1 c) 0 = true.
Proof.
  split; [vm_compute; reflexivity|]. split; [vm_compute; reflexivity|].
  destruct (mount_options_enforced (λ _ _, None) example_env example_mount example_options [] ltac:(discriminate))
    as (t & Ht & _ & _ & Hall).
  exists t. split; [exact Ht|]. intros t1 c t2 Heq Ha.
  apply (Hall t1 c t2 0 0 0 Heq Ha); [split; [discriminate|reflexivity]|]. left.
  split; [vm_compute; reflexivity|]. split; [vm_compute; reflexivity|]. intros _. vm_compute. discriminate.
Defined.

(** ** Mounts on [/proc] *)

Lemma strip_path_prefix_below base p q : strip_path_prefix (base ++ p) (base ++ q) = strip_path_prefix p q.
Proof. induction base as [|c base IH]; cbn; [done|]. by rewrite decide_True. Qed.

Lemma piece_components ps : Forall (λ c, c ≠ CurDir ∧ c ≠ RootDir) (omap piece_component ps).
Proof.
  induction ps as [|p ps IH]; cbn; [done|]. destruct (piece_component p) as [c|] eqn:Hc; [|done].
  constructor; [|done]. revert Hc. unfold piece_component. repeat case_match; by intros [= <-].
Qed.

Lemma components_below s rest :
  components s = RootDir :: rest → Forall (λ c, c ≠ CurDir ∧ c ≠ RootDir) rest.
Proof.
  unfold components. destruct (split_on "/"%char s) as [|p ps]; [done|].
  pose proof (piece_components ps) as Hps. case_bool_decide; [case_bool_decide as Hps0|].
  - by subst.
  - intros [= <-]. done.
  - case_bool_decide; [done|]. unfold piece_component at 1. repeat case_match; cbn; try done.
    intros Heq. rewrite Heq in Hps. by inversion_clear Hps as [|?? []].
Qed.

Lemma container_join_below self rest :
  Forall (λ c, c ≠ CurDir ∧ c ≠ RootDir) rest → container_join self (RootDir :: rest) = self ++ rest.
Proof.
  intros Hr. unfold container_join. cbn. rewrite decide_True by done. cbn. unfold join.
  assert (has_root rest = false) as ->.
  { unfold has_root. apply bool_decide_eq_false. destruct Hr as [|c rest []]; cbn; [done|].
    by intros [= ->]. }
  f_equal. case_bool_decide; [done|]. induction Hr as [|c rest [Hc _] _ IH]; [done|].
  by rewrite filter_cons_True, IH.
Qed.

(** What may be mounted at the path [rest] of the container: on [/proc] itself a procfs,
    or a bind mount of one, and below it only a few files. *)
Definition proc_allowed (e : env) (m : Mount) (rest : Path) : Prop :=
  ∀ tail, rest = Normal "proc" :: tail →
    match tail with
    | [] => mount_typ m = Some "proc" ∨
            is_bind m = true ∧ ∃ src, source m = Some src ∧ env_procfs e src = inr true ∧ env_metadata e src = None
    | _ => Exists (λ allowed, components allowed = RootDir :: rest) VALID_PROC_MOUNTS
    end.

Lemma check_proc_source_spec e m :
  check_proc_source e m = Ok () ↔
  is_bind m = true ∧ ∃ src, source m = Some src ∧ env_procfs e src = inr true ∧ env_metadata e src = None.
Proof.
  unfold check_proc_source. split.
  - repeat case_match; try done. eauto.
  - intros (-> & src & -> & -> & ->). done.
Qed.

Lemma valid_proc_mount rootfs rest :
  Forall (λ c, c ≠ CurDir ∧ c ≠ RootDir) rest →
  existsb (λ allowed, bool_decide (rootfs ++ rest = container_join rootfs (components allowed)))
    VALID_PROC_MOUNTS = true ↔
  Exists (λ allowed, components allowed = RootDir :: rest) VALID_PROC_MOUNTS.
Proof.
  intros Hr. rewrite existsb_exists, Exists_exists.
  assert (∀ a, a ∈ VALID_PROC_MOUNTS →
            rootfs ++ rest = container_join rootfs (components a) ↔ components a = RootDir :: rest) as Ha.
  { intros a Ha. assert (head (components a) = Some RootDir) as Hh.
    { revert a Ha. apply Forall_forall, (bool_decide_unpack _). vm_compute. exact I. }
    destruct (components a) as [|? r] eqn:Hc; [done|]. injection Hh as ->.
    rewrite (container_join_below _ r) by by eapply components_below. split; [|by intros [= ->]].
    intros ->%(inj (app rootfs)). done. }
  split; intros (a & Hin & H); exists a; (split; [by apply list_elem_of_In in Hin || by apply list_elem_of_In|]).
  - apply bool_decide_eq_true in H. apply Ha; [by apply list_elem_of_In|done].
  - by apply bool_decide_eq_true, Ha.
Qed.

Lemma check_proc_mount_spec e rootfs m rest :
  components (destination m) = RootDir :: rest →
  check_proc_mount e rootfs m = Ok () ↔ proc_allowed e m rest.
Proof.
  intros Hd. pose proof (components_below _ _ Hd) as Hr. unfold check_proc_mount.
  rewrite Hd, container_join_below by done.
  change (components "proc") with (Normal <$> ["proc"]). rewrite join_names, strip_path_prefix_below.
  unfold proc_allowed. destruct rest as [|c tail]; [by split|]. cbn [strip_path_prefix fmap list_fmap].
  case_decide as Hc; [subst c|]; [|by split; [intros _ ? [= ??]|]].
  destruct tail as [|c tail].
  - pose proof (check_proc_source_spec e m) as Hs. case_bool_decide; (split; [intros H1 ? [= <-]|intros H1]).
    + by left.
    + done.
    + right. by apply Hs.
    + destruct (H1 [] eq_refl); [done|by apply Hs].
  - pose proof (valid_proc_mount rootfs _ Hr) as Hv.
    destruct (existsb _ _); (split; [intros H1 ? [= <-]|intros H1]); try done; [by apply Hv|].
    by specialize (proj2 Hv (H1 _ eq_refl)).
Qed.

(** Procfs and sysfs are mounted where they belong.  The check of the destination
    accepts exactly destinations outside [/proc], a procfs or a bind of one on [/proc]
    and the listed files below it, whatever the root file system is; and a procfs or
    sysfs whose destination is not accepted, or is something other than a directory,
    is refused before any system call is made. *)
Theorem proc_mount_guarded sys e m o w rest :
  components (destination m) = RootDir :: rest →
  (check_proc_mount e (root o) m = Ok () ↔ proc_allowed e m rest) ∧
  (mount_typ m = Some "proc" ∨ mount_typ m = Some "sysfs" →
   ¬ proc_allowed e m rest ∨ check_directory e m o ≠ Ok () →
   ∃ err, setup_mount sys e m o w = (Err err, w)).
Proof.
  intros Hd. split; [by apply check_proc_mount_spec|]. intros Htyp Href. unfold setup_mount.
  pose proof (parse_mount_no_panic m) as Hnp. rewrite <- (check_proc_mount_spec e (root o)) in Href by done.
  pose proof (check_proc_mount_no_panic e (root o) m) as Hcp.
  destruct (parse_mount m) as [cfg|err|]; [|by exists err|done]. rewrite io_bind_pure.
  rewrite bool_decide_eq_false_2 by (by destruct Htyp as [-> | ->]). unfold setup_plain_mount.
  assert (bool_decide (mount_typ m = Some "proc") || bool_decide (mount_typ m = Some "sysfs") = true) as ->
    by by destruct Htyp as [-> | ->].
  assert (check_directory e m o ≠ Panic) as Hdp by (unfold check_directory; by case_match).
  destruct (check_directory e m o) as [[]|err|]; [|by exists err|done]. rewrite io_bind_pure.
  destruct (check_proc_mount e (root o) m) as [[]|err|]; [by destruct Href|by exists err|done].
Qed.

Definition sysfs_over_proc : Mount := MkMount "/proc/self" (Some "sysfs") (Some "sysfs") None None None.

Lemma proc_mount_guarded_witness :
  ∃ err, setup_mount (λ _ _, None) example_env sysfs_over_proc example_options [] = (Err err, []).
Proof.
  eapply (proc_mount_guarded _ _ sysfs_over_proc); [vm_compute; reflexivity|right; reflexivity|left].
  intros H. specialize (H _ eq_refl). revert H. apply (bool_decide_eq_false _). vm_compute. reflexivity.
Defined.

(** The mount that the documentation of [check_proc_mount] gives as one that should fail. *)
Definition tmp_over_proc : Mount := MkMount "/proc" (Some "/tmp") (Some "bind") None None None.

(** The check is not made for a bind mount on [/proc].  [check_proc_mount] refuses
    to bind [/tmp], which is not a procfs, there; [setup_mount] attaches it all the same,
    because it asks for the check only for the types [proc] and [sysfs]. *)
Theorem bind_over_proc_unchecked e o w :
  env_procfs e "/tmp" = inr false →
  (∃ err, check_proc_mount e (root o) tmp_over_proc = Err err) ∧
  (setup_mount (λ _ _, None) e tmp_over_proc o w).1 = Ok () ∧
  (MoveMount (components "/proc"), None) ∈ (setup_mount (λ _ _, None) e tmp_over_proc o w).2.
Proof.
  intros Hfs. split.
  - pose proof (check_proc_mount_no_panic e (root o) tmp_over_proc) as Hnp.
    destruct (check_proc_mount e (root o) tmp_over_proc) as [[]|err|] eqn:Hc; [|by exists err|done].
    eapply check_proc_mount_spec in Hc; [|vm_compute; reflexivity].
    destruct (Hc [] eq_refl) as [|(_ & src & [= <-] & Hsrc & _)]; [done|congruence].
  - assert (∃ t, setup_mount (λ _ _, None) e tmp_over_proc o w =
                (Ok (), t ++ [(MoveMount (components "/proc"), None)])) as [t ->].
    { clear Hfs. destruct e as [? dir]. vm_compute. destruct (dir "/tmp"); eexists; reflexivity. }
    split; [done|]. apply elem_of_app. right. by apply list_elem_of_singleton.
Qed.

Lemma bind_over_proc_unchecked_witness :
  (setup_mount (λ _ _, None) example_env tmp_over_proc example_options []).1 = Ok () ∧
  (MoveMount (components "/proc"), None) ∈
    (setup_mount (λ _ _, None) example_env tmp_over_proc example_options []).2.
Proof. apply (bind_over_proc_unchecked example_env example_options [] eq_refl). Defined.
