(* ===== verification/RootFs.v ===== *)
(** * The root file system of a container

    Models [libcontainer/src/rootfs/rootfs.rs], [device.rs] and [symlink.rs], the devices
    of [utils.rs], and [make_parent_mount_private] of [mount.rs].  As in the model of the
    mounts, the world is the list of the system calls made so far. *)
From S2P Require Import Prelude Calls Text Paths Devices Spec MountOptions Mounting.

Local Open Scope string_scope.
Local Open Scope list_scope.
Local Open Scope Z_scope.

(** ** Data *)

Inductive DeviceError : Type :=
  | InvalidDevicePath (p : string) | DeviceSyscall (errno : Z) | DeviceNix (errno : Z) | DeviceOther.

Inductive RootfsError : Type :=
  | RootfsSyscall (errno : Z) | MissingLinux | UnknownRootfsPropagation (s : string)
  | RootfsSymlink (e : SymlinkError) | RootfsMount (e : MountError) | RootfsDevice (e : DeviceError).

(** [oci_spec::runtime::LinuxDevice] *)
Record LinuxDevice : Type := MkDevice {
  path : string; typ : LinuxDeviceType; major : Z; minor : Z;
  file_mode : option Z; dev_uid : option Z; dev_gid : option Z }.

(** What is read from the [linux] section. *)
Record RootLinux : Type := MkRootLinux {
  rootfs_propagation : option string; mount_label : option string; devices : option (list LinuxDevice) }.

(** [procfs::process::MountInfo] *)
Inductive MountOptFields : Type := Shared (n : Z) | Master (n : Z) | PropagateFrom (n : Z) | Unbindable.

Record MountInfo : Type := MkMountInfo { mount_point : string; opt_fields : list MountOptFields }.

(** ** Devices *)

Definition char_device (p : string) (ma mi : Z) : LinuxDevice :=
  MkDevice p TypC ma mi (Some 438) None None.

Definition default_devices : list LinuxDevice := [
  char_device "/dev/null" 1 3; char_device "/dev/zero" 1 5; char_device "/dev/full" 1 7;
  char_device "/dev/tty" 5 0; char_device "/dev/urandom" 1 9; char_device "/dev/random" 1 8 ].

Definition S_IFBLK : Z := 24576.
Definition S_IFCHR : Z := 8192.
Definition S_IFIFO : Z := 4096.

Definition to_sflag (dev_type : LinuxDeviceType) : Z :=
  match dev_type with
  | TypA => Z.lor (Z.lor S_IFBLK S_IFCHR) S_IFIFO
  | TypB => S_IFBLK
  | TypC | TypU => S_IFCHR
  | TypP => S_IFIFO
  end.

(** The shifts are on [i64] and lose what does not fit, which the conversion to [u64]
    does here. *)
Definition makedev (major minor : Z) : Z :=
  uwrap 64 (Z.lor (Z.lor (Z.lor (Z.land minor 255) (Z.shiftl (Z.land major 4095) 8))
                         (Z.shiftl (Z.ldiff minor 255) 12))
                  (Z.shiftl (Z.ldiff major 4095) 32)).

Definition path_starts_with (p base : Path) : bool := bool_decide (is_Some (strip_path_prefix base p)).

(** ** Mounts around the root *)

(** [max_by] keeps the last of equal elements. *)
Definition longer (a b : MountInfo) : MountInfo :=
  if (String.length (mount_point b) <? String.length (mount_point a))%nat then a else b.

Definition find_parent_mount (rootfs : Path) (mount_infos : list MountInfo) : outcome MountError MountInfo :=
  match filter (λ mi, path_starts_with rootfs (components (mount_point mi)) = true) mount_infos with
  | [] => Err (Custom "can't find the parent mount")
  | mi :: l => Ok (foldl longer mi l)
  end.

Definition is_shared (f : MountOptFields) : bool := match f with Shared _ => true | _ => false end.

Definition prepare_root_propagation (p : option string) : outcome RootfsError Z :=
  match p with
  | None => Ok (Z.lor MS_REC MS_SLAVE)
  | Some s =>
      if bool_decide (s ∈ ["shared"; "rshared"]) then Ok (Z.lor MS_REC MS_SHARED)
      else if bool_decide (s ∈ ["private"; "rprivate"]) then Ok (Z.lor MS_REC MS_PRIVATE)
      else if bool_decide (s ∈ ["slave"; "rslave"; "unbindable"; "runbindable"]) then Ok (Z.lor MS_REC MS_SLAVE)
      else Err (UnknownRootfsPropagation s)
  end.

Definition root_propagation (p : option string) : option Z :=
  match p with
  | Some s =>
      if bool_decide (s = "shared") then Some MS_SHARED
      else if bool_decide (s = "rshared") then Some (Z.lor MS_SHARED MS_REC)
      else if bool_decide (s = "unbindable") then Some MS_UNBINDABLE
      else if bool_decide (s = "runbindable") then Some (Z.lor MS_UNBINDABLE MS_REC)
      else None
  | None => None
  end.

(** The file mode mask after the calls [w]; the process starts with the mask [initial]. *)
Definition mask_after (initial : Z) (w : list event) : Z :=
  foldl (λ m ev, match ev with (Umask m', None) => m' | _ => m end) initial w.

Section rootfs.
Context (sys : list event → call → option Z) (e : env).
(** The initial mask, whether [/proc/kcore] exists, the kinds of errors that are
    [NotFound], the mounts of the process, and [safe_path::scoped_join], which looks at
    the files of the root and may fail. *)
Context (initial_umask : Z) (kcore : bool) (not_found : Z → bool)
  (mountinfo : list event → MountError + list MountInfo)
  (scoped_join : list event → Path → Path → option Path).

Abbreviation D := (io (list event) DeviceError).
Abbreviation R := (io (list event) RootfsError).

(** [umask] does not fail and gives the old mask. *)
Definition set_umask {E} (mode : Z) : io (list event) E Z := λ w,
  (Ok (mask_after initial_umask w), w ++ [(Umask mode, None)]).

Definition as_relative (p : Path) : option Path :=
  if has_root p then strip_path_prefix [RootDir] p else None.

Definition resolve_scoped (rootfs rel : Path) : D Path := λ w,
  (match scoped_join w rootfs rel with Some p => Ok p | None => Err DeviceOther end, w).

Definition create_container_dev_path (rootfs : Path) (dev : LinuxDevice) : D Path :=
  relative_dev_path ← pure (ok_or (as_relative (components (path dev))) DeviceOther);
  full_container_path ← resolve_scoped rootfs relative_dev_path;
  _ ← do sys (CreateDirAll (default [] (parent full_container_path))) (λ _, DeviceOther);
  mret full_container_path.

Definition bind_dev (rootfs : Path) (dev : LinuxDevice) : D () :=
  full_container_path ← create_container_dev_path rootfs dev;
  _ ← do sys (OpenCreate full_container_path 420) DeviceNix;
  _ ← do sys CloseFile DeviceNix;
  do sys (BindAt (components (path dev)) full_container_path MS_BIND) DeviceSyscall.

Definition mknod_dev (rootfs : Path) (dev : LinuxDevice) : D () :=
  full_container_path ← create_container_dev_path rootfs dev;
  _ ← do sys (Mknod full_container_path (to_sflag (typ dev)) (Z.land (default 438 (file_mode dev)) 4095)
               (makedev (major dev) (minor dev))) DeviceSyscall;
  do sys (Chown full_container_path (dev_uid dev) (dev_gid dev)) DeviceSyscall.

Definition create_device (rootfs : Path) (bind : bool) (dev : LinuxDevice) : D () :=
  if negb (path_starts_with (components (path dev)) (components "/dev"))
  then pure (Err (InvalidDevicePath (path dev)))
  else if bind then bind_dev rootfs dev else mknod_dev rootfs dev.

Definition create_devices (rootfs : Path) (devices : list LinuxDevice) (bind : bool) : D () :=
  old_mode ← set_umask 0;
  _ ← io_each (create_device rootfs bind) devices;
  _ ← set_umask old_mode;
  mret ().

(** ** Symbolic links *)

Definition setup_ptmx (rootfs : Path) : io (list event) SymlinkError () :=
  let ptmx := join rootfs (components "dev/ptmx") in
  removed ← attempt (do sys (RemoveFile ptmx) id);
  _ ← pure match removed with
           | inl errno => if not_found errno then Ok () else Err SymlinkOther
           | inr _ => Ok ()
           end;
  do sys (Symlink "pts/ptmx" ptmx) SymlinkSyscall.

Definition setup_kcore_symlink (rootfs : Path) : io (list event) SymlinkError () :=
  if kcore then do sys (Symlink "/proc/kcore" (join rootfs (components "dev/kcore"))) SymlinkSyscall
  else mret ().

Definition default_symlinks : list (string * string) := [
  ("/proc/self/fd", "dev/fd"); ("/proc/self/fd/0", "dev/stdin");
  ("/proc/self/fd/1", "dev/stdout"); ("/proc/self/fd/2", "dev/stderr") ].

Definition setup_default_symlinks (rootfs : Path) : io (list event) SymlinkError () :=
  io_each (λ '(src, dst), do sys (Symlink src (join rootfs (components dst))) SymlinkSyscall) default_symlinks.

(** ** The root file system *)

Definition make_parent_mount_private (rootfs : Path) : M MountInfo :=
  mount_infos ← (λ w, (of_sum (mountinfo w), w));
  parent_mount ← pure (find_parent_mount rootfs mount_infos);
  _ ← (if existsb is_shared (opt_fields parent_mount)
       then do sys (SetPropagation (components (mount_point parent_mount)) MS_PRIVATE) Syscall
       else mret ());
  mret parent_mount.

Definition mount_to_rootfs (linux : RootLinux) (mounts : option (list Mount)) (rootfs : Path)
    (cgroup_ns : bool) : R () :=
  flags ← pure (prepare_root_propagation (rootfs_propagation linux));
  _ ← do sys (SetPropagation [RootDir] flags) RootfsSyscall;
  _ ← io_map_err RootfsMount (make_parent_mount_private rootfs);
  _ ← do sys (BindAt rootfs rootfs (Z.lor MS_BIND MS_REC)) RootfsSyscall;
  io_each (λ m, io_map_err RootfsMount (setup_mount sys e m (MkOptions rootfs (mount_label linux) cgroup_ns)))
    (default [] mounts).

(** The devices of the configuration and the default devices whose path is not among them. *)
Definition container_devices (added : option (list LinuxDevice)) : list LinuxDevice :=
  match added with
  | Some added_devices =>
      added_devices
      ++ filter (λ d, ¬ (components (path d) ∈ (λ a, components (path a)) <$> added_devices)) default_devices
  | None => default_devices
  end.

Definition prepare_rootfs (linux : option RootLinux) (mounts : option (list Mount)) (rootfs : Path)
    (bind_devices cgroup_ns : bool) : R () :=
  linux ← pure (ok_or linux MissingLinux);
  _ ← mount_to_rootfs linux mounts rootfs cgroup_ns;
  _ ← io_map_err RootfsSymlink (setup_kcore_symlink rootfs);
  _ ← io_map_err RootfsSymlink (setup_default_symlinks rootfs);
  _ ← io_map_err RootfsDevice (create_devices rootfs (container_devices (devices linux)) bind_devices);
  io_map_err RootfsSymlink (setup_ptmx rootfs).

Definition adjust_root_mount_propagation (linux : RootLinux) : R () :=
  match root_propagation (rootfs_propagation linux) with
  | Some flags => do sys (SetPropagation [RootDir] flags) RootfsSyscall
  | None => mret ()
  end.
End rootfs.

(** ** Which calls a mount makes *)

Lemma calls_retry {A} (P : call → Prop) (op : M A) n policy : P Sleep → only_calls P op → only_calls P (retry op n policy).
Proof.
  intros Hs Hop. unfold retry. induction n as [|n IH]; cbn [retry_loop]; [apply calls_pure|].
  apply calls_bind; [by apply calls_attempt|]. intros [err|a]; [|apply calls_ret].
  destruct (_ && _); [|apply calls_pure]. apply calls_bind; [|done].
  intros w. eexists. split; [reflexivity|]. by repeat constructor.
Qed.

(** Goes through a computation. *)
Ltac calls :=
  repeat first
    [ progress intros | match goal with H : _ |- _ => solve [apply H] end | apply calls_retry | apply calls_bind | apply calls_pure | apply calls_ret | apply calls_do
    | apply calls_attempt | apply calls_map_err | apply calls_each
    | case_match ]; try done; auto.

(** The calls by which a mount is made; no other touches a device or the mask. *)
Definition mount_call (c : call) : Prop :=
  match c with
  | SetPropagation _ _ | BindAt _ _ _ | CreateDirAll _ | OpenCreate _ _ | CloseFile | RemoveFile _
  | Umask _ | Mknod _ _ _ _ | Chown _ _ _ => False
  | _ => True
  end.

Section mount_calls.
Context (sys : list event → call → option Z) (e : env).

Lemma calls_set_attributes cfg : only_calls mount_call (set_attributes sys cfg).
Proof. unfold set_attributes. calls. Qed.

Lemma calls_mount_fn source dest typ cfg data_options :
  only_calls mount_call (mount_fn sys source dest typ cfg data_options).
Proof.
  pose proof calls_set_attributes. unfold mount_fn, configure, config_option, attach, legacy_mount. calls.
Qed.

Lemma calls_mount_into_container m cfg lab : only_calls mount_call (mount_into_container sys e m cfg lab).
Proof.
  pose proof calls_set_attributes. pose proof calls_mount_fn.
  unfold mount_into_container, prepare_bind, bind_mount, mount_attempts, apply_mount_propagation,
    set_propagation. calls.
Qed.

Lemma calls_setup_plain_mount m o cfg : only_calls mount_call (setup_plain_mount sys e m o cfg).
Proof. pose proof calls_mount_into_container. unfold setup_plain_mount. calls. Qed.

Lemma calls_setup_mount m o : only_calls mount_call (setup_mount sys e m o).
Proof.
  pose proof calls_mount_into_container. pose proof calls_setup_plain_mount.
  unfold setup_mount, mount_cgroup_v1, mount_cgroup_v2, setup_namespaced_subsystem,
    setup_emulated_subsystem, setup_comount_symlinks. calls.
Qed.
End mount_calls.

(** ** What is done to the root file system *)

Section prepared.
Context (sys : list event → call → option Z) (e : env) (initial_umask : Z) (kcore : bool)
  (not_found : Z → bool) (mountinfo : list event → MountError + list MountInfo)
  (scoped_join : list event → Path → Path → option Path).

(** The root, which the builder has made canonical. *)
Context (rootfs : Path).

(** [scoped_join] follows the links and the parents of a path without leaving the root; the
    result has only names below the root. *)
Hypothesis scoped : ∀ w p q, scoped_join w rootfs p = Some q → ∃ names, q = rootfs ++ (Normal <$> names).

(** The place of a device: the result of [scoped_join] for its path, which is below the root. *)
Definition placed (dev : LinuxDevice) (p : Path) : Prop :=
  ∃ w rel names, components (path dev) = RootDir :: rel ∧ scoped_join w rootfs rel = Some p ∧
    p = rootfs ++ (Normal <$> names).

(** The call that puts a device at the path [p]. *)
Definition device_call (bind : bool) (dev : LinuxDevice) (p : Path) : call :=
  if bind then BindAt (components (path dev)) p MS_BIND
  else Mknod p (to_sflag (typ dev)) (Z.land (default 438 (file_mode dev)) 4095) (makedev (major dev) (minor dev)).

(** Device nodes, bind mounts by path, owners, files and directories are only for the listed
    devices and only at their places below the root; the exception is the root itself, which
    is bound onto itself. *)
Definition device_call_ok (bind : bool) (devs : list LinuxDevice) (c : call) : Prop :=
  match c with
  | Mknod p _ _ _ | BindAt _ p _ =>
      c = BindAt rootfs rootfs (Z.lor MS_BIND MS_REC) ∨
      ∃ dev, dev ∈ devs ∧ path_starts_with (components (path dev)) (components "/dev") = true ∧
        placed dev p ∧ c = device_call bind dev p
  | Chown p uid gid => ∃ dev, dev ∈ devs ∧ placed dev p ∧ uid = dev_uid dev ∧ gid = dev_gid dev
  | OpenCreate p _ => ∃ dev, dev ∈ devs ∧ placed dev p
  | CreateDirAll q => ∃ dev p, dev ∈ devs ∧ placed dev p ∧ q = default [] (parent p)
  | _ => True
  end.

Lemma mount_call_ok bind devs c : mount_call c → device_call_ok bind devs c.
Proof. by destruct c. Qed.

Lemma as_relative_Some p rel : as_relative p = Some rel → p = RootDir :: rel.
Proof.
  unfold as_relative. destruct (has_root p); [|done]. destruct p as [|c p]; [done|]. cbn.
  case_decide; [|done]. intros [= ->]. by subst c.
Qed.

Lemma does_dev_path bind devs dev :
  dev ∈ devs →
  does (device_call_ok bind devs) (λ p _, placed dev p) (create_container_dev_path sys scoped_join rootfs dev).
Proof.
  intros Hin. eapply (does_bind _ (λ rel _, components (path dev) = RootDir :: rel)).
  { apply does_pure. intros rel Hrel. apply as_relative_Some. by destruct (as_relative _); simplify_eq/=. }
  intros rel t Hrel. eapply (does_bind _ (λ p _, placed dev p)).
  { intros w. exists []. rewrite app_nil_r. unfold resolve_scoped. cbn. split_and!; [done..|].
    destruct (scoped_join w rootfs rel) as [p|] eqn:Hp; [|done]. intros ? [= <-].
    destruct (scoped _ _ _ Hp) as [names ->]. by exists w, rel, names. }
  intros p t' Hp. eapply (does_bind _ (λ _ _, True)); [apply does_do; [by exists dev, p|done]|].
  intros [] t'' _. apply (does_pure _ (Ok p)). by intros ? [= <-].
Qed.

Lemma does_create_device bind devs dev :
  dev ∈ devs →
  does (device_call_ok bind devs)
    (λ _ t, ∃ k, (∃ p, placed dev p ∧ k = device_call bind dev p) ∧ (k, None) ∈ t)
    (create_device sys scoped_join rootfs bind dev).
Proof.
  intros Hin. unfold create_device. destruct (path_starts_with _ _) eqn:Hdev; cbn; [|by apply does_pure].
  destruct bind; (eapply does_bind; [by apply does_dev_path|]); intros p t Hp.
  - eapply (does_bind _ (λ _ _, True)); [by apply does_do; [exists dev|]|intros [] ? _].
    eapply (does_bind _ (λ _ _, True)); [by apply does_do|intros [] ? _].
    apply does_do; [right; eauto 10|]. exists (device_call true dev p).
    split; [by exists p|]. rewrite !elem_of_app, list_elem_of_singleton. auto.
  - eapply (does_bind _ (λ _ t, t = [(device_call false dev p, None)])).
    { apply does_do; [right; eauto 10|done]. }
    intros [] ? ->. apply does_do; [by exists dev|]. exists (device_call false dev p).
    split; [by exists p|]. rewrite !elem_of_app, !list_elem_of_singleton. auto.
Qed.

Lemma does_create_devices bind devs :
  does (device_call_ok bind devs)
    (λ _ t, ∀ dev, dev ∈ devs → ∃ k, (∃ p, placed dev p ∧ k = device_call bind dev p) ∧ (k, None) ∈ t)
    (create_devices sys initial_umask scoped_join rootfs devs bind).
Proof.
  assert (∀ mode, does (device_call_ok bind devs) (λ _ _, True)
            (set_umask initial_umask mode : io (list event) DeviceError Z)) as Hmask.
  { intros mode w. eexists. split; [reflexivity|]. by split; [apply Forall_singleton|]. }
  eapply does_bind; [apply Hmask|intros old t _]. eapply does_bind.
  { apply (does_each _ _ devs (λ dev k, ∃ p, placed dev p ∧ k = device_call bind dev p)).
    intros dev. apply does_create_device. }
  intros [] t' Hall. eapply does_bind; [apply Hmask|intros ? t'' _].
  apply (does_pure _ (Ok ())). intros _ _ dev Hin. destruct (Hall dev Hin) as (k & Hk & Hkt).
  exists k. rewrite !elem_of_app. auto.
Qed.

(** *** The mask *)

(** [m] leaves the mask as it was when it succeeds. *)
Definition keeps_mask {E A} (m : io (list event) E A) : Prop :=
  ∀ w a, (m w).1 = Ok a → mask_after initial_umask (m w).2 = mask_after initial_umask w.

Definition not_umask (c : call) : Prop := match c with Umask _ => False | _ => True end.

Lemma keeps_mask_only {E A} (m : io (list event) E A) : only_calls not_umask m → keeps_mask m.
Proof.
  intros Hm w a _. destruct (Hm w) as (t & -> & Ht). unfold mask_after. rewrite foldl_app.
  induction Ht as [|[c [n|]] t Hc _ IH]; [done|..]; cbn; [by destruct c|]. by destruct c.
Qed.

Lemma keeps_mask_bind {E A B} (m : io (list event) E A) (f : A → io (list event) E B) :
  keeps_mask m → (∀ a, keeps_mask (f a)) → keeps_mask (m ≫= f).
Proof.
  intros Hm Hf w b. unfold mbind, io_bind. specialize (Hm w).
  destruct (m w) as [[a|x|] w']; cbn in *; [|done..]. intros Hb. rewrite <- (Hm a eq_refl).
  by apply (Hf a w' b).
Qed.

Lemma keeps_mask_map_err {E F A} (f : E → F) (m : io (list event) E A) : keeps_mask m → keeps_mask (io_map_err f m).
Proof.
  intros Hm w a. unfold io_map_err. specialize (Hm w). destruct (m w) as [[|?|] w']; cbn; [|done..].
  intros _. by eapply Hm.
Qed.

Lemma keeps_create_devices devs bind :
  keeps_mask (create_devices sys initial_umask scoped_join rootfs devs bind).
Proof.
  intros w a. unfold create_devices, mbind, io_bind, set_umask at 1. cbn.
  destruct (io_each _ devs _) as [[[]|x|] w']; cbn; [|done..]. intros _.
  unfold mask_after at 1. by rewrite foldl_app.
Qed.

Lemma mount_call_not_umask {E A} (m : io (list event) E A) : only_calls mount_call m → only_calls not_umask m.
Proof.
  intros Hm. apply (runs_mono _ _ _ Hm). intros _ t Ht. eapply Forall_impl; [exact Ht|]. by intros [[]].
Qed.

Lemma calls_symlinks P :
  (∀ p, P (RemoveFile p)) → (∀ s p, P (Symlink s p)) →
  only_calls P (setup_kcore_symlink sys kcore rootfs) ∧ only_calls P (setup_default_symlinks sys rootfs) ∧
  only_calls P (setup_ptmx sys not_found rootfs).
Proof.
  intros. unfold setup_kcore_symlink, setup_default_symlinks, setup_ptmx. split_and!; calls.
Qed.

Lemma keeps_prepare_rootfs linux mounts bind cgroup_ns :
  keeps_mask (prepare_rootfs sys e initial_umask kcore not_found mountinfo scoped_join linux mounts rootfs
    bind cgroup_ns).
Proof.
  destruct (calls_symlinks not_umask) as (Hk & Hd & Hp); [done..|].
  apply keeps_mask_bind; [apply keeps_mask_only, calls_pure|intros l].
  apply keeps_mask_bind.
  { apply keeps_mask_only. pose proof (λ m o, mount_call_not_umask _ (calls_setup_mount sys e m o)).
    unfold mount_to_rootfs, make_parent_mount_private. calls.
    intros w. exists []. by rewrite app_nil_r. }
  intros _. do 2 (apply keeps_mask_bind; [by apply keeps_mask_map_err, keeps_mask_only|intros _]).
  apply keeps_mask_bind; [apply keeps_mask_map_err, keeps_create_devices|intros _].
  by apply keeps_mask_map_err, keeps_mask_only.
Qed.

(** *** The mounts *)

Lemma does_mount_to_rootfs linux mounts bind devs cgroup_ns :
  does (device_call_ok bind devs)
    (λ _ t, ∃ flags t1 t2, prepare_root_propagation (rootfs_propagation linux) = Ok flags ∧
       t = (SetPropagation [RootDir] flags, None) :: t1 ++ (BindAt rootfs rootfs (Z.lor MS_BIND MS_REC), None) :: t2 ∧
       Forall (λ ev, attaches ev.1 = false) t1)
    (mount_to_rootfs sys e mountinfo linux mounts rootfs cgroup_ns).
Proof.
  eapply (does_bind _ (λ fl t, prepare_root_propagation (rootfs_propagation linux) = Ok fl ∧ t = []));
    [by apply does_pure|intros fl t [Hfl ->]].
  eapply (does_bind _ (λ _ t, t = [(SetPropagation [RootDir] fl, None)])); [by apply does_do|intros [] ? ->].
  eapply (does_bind _ (λ _ t, Forall (λ ev, attaches ev.1 = false) t)).
  { apply does_map_err.
    assert (only_calls (λ c, device_call_ok bind devs c ∧ attaches c = false)
              (make_parent_mount_private sys mountinfo rootfs)) as Hm.
    { unfold make_parent_mount_private. calls. intros w. exists []. by rewrite app_nil_r. }
    apply (runs_mono _ _ _ Hm). intros r t Ht. split; [|intros _ _];
      (eapply Forall_impl; [exact Ht|]); by intros ev []. }
  intros mi t Ht.
  eapply (does_bind _ (λ _ t, t = [(BindAt rootfs rootfs (Z.lor MS_BIND MS_REC), None)]));
    [by apply does_do; [left|]|intros [] ? ->].
  eapply does_mono; [|apply mount_call_ok|].
  { apply does_only_calls, calls_each. intros m. apply calls_map_err, calls_setup_mount. }
  intros [] t' _. by exists fl, t, t'.
Qed.

Lemma default_device_present added d :
  d ∈ default_devices → ∃ dev, dev ∈ container_devices added ∧ components (path dev) = components (path d).
Proof.
  intros Hd. unfold container_devices. destruct added as [l|]; [|by exists d].
  destruct (decide (components (path d) ∈ (λ a, components (path a)) <$> l)) as [Hin|Hni].
  - apply list_elem_of_fmap in Hin as (dev & Heq & Hin). exists dev. by rewrite elem_of_app; auto.
  - exists d. rewrite elem_of_app, list_elem_of_filter. auto.
Qed.

Lemma does_prepare_rootfs linux mounts bind cgroup_ns :
  let devs := container_devices (from_option devices None linux) in
  does (device_call_ok bind devs)
    (λ _ t,
      (∃ flags t1 t2,
        prepare_root_propagation (from_option rootfs_propagation None linux) = Ok flags ∧
        t = (SetPropagation [RootDir] flags, None) :: t1
            ++ (BindAt rootfs rootfs (Z.lor MS_BIND MS_REC), None) :: t2 ∧
        Forall (λ ev, attaches ev.1 = false) t1) ∧
      (∀ dev, dev ∈ devs → ∃ k, (∃ p, placed dev p ∧ k = device_call bind dev p) ∧ (k, None) ∈ t) ∧
      last t = Some (Symlink "pts/ptmx" (join rootfs (components "dev/ptmx")), None))
    (prepare_rootfs sys e initial_umask kcore not_found mountinfo scoped_join linux mounts rootfs bind cgroup_ns).
Proof.
  intros devs. destruct (calls_symlinks (device_call_ok bind devs)) as (Hk & Hd & _); [done..|].
  destruct linux as [l|]; [|by apply does_pure].
  eapply (does_bind _ (λ x t, x = l ∧ t = [])); [by apply does_pure; intros ? [= ->]|intros ? ? [-> ->]].
  eapply does_bind; [apply does_mount_to_rootfs|intros [] t (fl & t1 & t2 & Hfl & -> & Ht1)].
  eapply does_bind; [by apply does_map_err, does_only_calls|intros [] t3 _].
  eapply does_bind; [by apply does_map_err, does_only_calls|intros [] t4 _].
  eapply does_bind; [apply does_map_err, does_create_devices|intros [] t5 Hdevs].
  apply does_map_err. eapply (does_bind _ (λ _ _, True)).
  { apply does_only_calls, calls_attempt. by apply calls_do. }
  intros rm t6 _. eapply (does_bind _ (λ _ _, True)); [by apply does_pure|intros [] t7 _].
  apply does_do; [done|]. split_and!.
  - exists fl, t1. eexists. split_and!; [done| |done]. cbn. by rewrite <- !app_assoc.
  - intros dev Hdev. destruct (Hdevs dev Hdev) as (k & Hkd & Hkt). exists k. split; [done|].
    rewrite !elem_of_app. auto 10.
  - rewrite !app_assoc. apply last_snoc.
Qed.

(** C22: the root file system of a container.  Whatever fails, device nodes are made, and
    host files are bound, only for a device that is listed, with its type and numbers, whose
    path starts with [/dev], and only at the place where that path leads inside the root,
    which is the root and names below it even when the path has parents or links; files,
    directories and owners are only those of such places.  When [prepare_rootfs] succeeds, the
    first call changed the propagation of the root, no configured mount was attached
    before the root was bound onto itself, every device of the configuration and every
    default device was made at its place, the last call made [/dev/ptmx], and the file mode
    mask is again what it was. *)
Theorem prepare_rootfs_spec linux mounts bind cgroup_ns w :
  let devs := container_devices (from_option devices None linux) in
  let r := prepare_rootfs sys e initial_umask kcore not_found mountinfo scoped_join linux mounts rootfs
             bind cgroup_ns w in
  ∃ t, r.2 = w ++ t ∧ Forall (λ ev, device_call_ok bind devs ev.1) t ∧
    (r.1 = Ok () →
     (∃ flags t1 t2,
        prepare_root_propagation (from_option rootfs_propagation None linux) = Ok flags ∧
        t = (SetPropagation [RootDir] flags, None) :: t1
            ++ (BindAt rootfs rootfs (Z.lor MS_BIND MS_REC), None) :: t2 ∧
        Forall (λ ev, attaches ev.1 = false) t1) ∧
     (∀ dev, dev ∈ devs → ∃ p, placed dev p ∧ (device_call bind dev p, None) ∈ t) ∧
     (∀ d, d ∈ default_devices → ∃ dev, dev ∈ devs ∧ components (path dev) = components (path d)) ∧
     last t = Some (Symlink "pts/ptmx" (join rootfs (components "dev/ptmx")), None) ∧
     mask_after initial_umask r.2 = mask_after initial_umask w).
Proof.
  intros devs r.
  pose proof (keeps_prepare_rootfs linux mounts bind cgroup_ns w) as Hmask.
  pose proof (does_prepare_rootfs linux mounts bind cgroup_ns w) as (t & Hw & Ht & HQ).
  exists t. split_and!; [done..|]. intros Hok. destruct (HQ () Hok) as (Hroot & Hdevs & Hlast).
  split_and!; [done| |apply default_device_present|done|by apply (Hmask ())].
  intros dev Hdev. destruct (Hdevs dev Hdev) as (k & (p & Hp & ->) & Hk). by exists p.
Qed.
End prepared.

(** A container with a device of its own, whose path tries to leave the root; and a root
    without links, where a path leads to the names that are left of it. *)
Definition example_device : LinuxDevice := MkDevice "/dev/../../../etc/fuse" TypC 10 229 None None None.

Definition example_mountinfo : list event → MountError + list MountInfo :=
  λ _, inr [MkMountInfo "/" [Shared 1]].

Definition plain_join : list event → Path → Path → option Path :=
  λ _ root p, Some (root ++ (Normal <$> walk [] p)).

Lemma prepare_rootfs_spec_witness :
  let r := prepare_rootfs (λ _ _, None) example_env 18 true (λ _, false) example_mountinfo plain_join
             (Some (MkRootLinux None None (Some [example_device]))) (Some [example_mount])
             (components "/run/c1") false true [] in
  r.1 = Ok () ∧ (device_call false example_device (components "/run/c1/etc/fuse"), None) ∈ r.2.
Proof.
  intros r. assert (r.1 = Ok ()) as Hok by (vm_compute; reflexivity). split; [exact Hok|].
  destruct (prepare_rootfs_spec (λ _ _, None) example_env 18 true (λ _, false) example_mountinfo plain_join
              (components "/run/c1") ltac:(intros ? p ? [= <-]; by exists (walk [] p))
              (Some (MkRootLinux None None (Some [example_device]))) (Some [example_mount])
              false true []) as (t & Ht & _ & HQ).
  destruct (HQ Hok) as (_ & Hdev & _).
  destruct (Hdev example_device) as (p & (w & rel & names & Hrel & Hp & _) & Hin);
    [by apply elem_of_app; left; apply list_elem_of_here|].
  fold r in Ht. rewrite Ht. injection Hrel as <-. injection Hp as <-. exact Hin.
Defined.

(** The mask is not put back when a device is refused: the rest of the process runs with
    an empty mask. *)
Lemma umask_left_open sys initial_umask scoped_join rootfs dev devs bind w :
  path_starts_with (components (path dev)) (components "/dev") = false →
  create_devices sys initial_umask scoped_join rootfs (dev :: devs) bind w
    = (Err (InvalidDevicePath (path dev)), w ++ [(Umask 0, None)]) ∧
  mask_after initial_umask (w ++ [(Umask 0, None)]) = 0.
Proof.
  intros Hdev. split.
  - unfold create_devices. cbn. unfold create_device. by rewrite Hdev.
  - unfold mask_after. by rewrite foldl_app.
Qed.

(** A path that leaves [/dev] again passes the test of the path. *)
Example escaping_device_path :
  path_starts_with (components "/dev/../etc/node") (components "/dev") = true.
Proof. reflexivity. Qed.

(** ** Device numbers *)

Lemma makedev_bits ma mi i :
  in_u 32 ma → in_u 32 mi → 0 ≤ i < 64 →
  Z.testbit (makedev ma mi) i
  = if decide (i < 8) then Z.testbit mi i
    else if decide (i < 20) then Z.testbit ma (i - 8)
    else if decide (i < 44) then Z.testbit mi (i - 12)
    else Z.testbit ma (i - 32).
Proof.
  intros Hma Hmi Hi. unfold makedev, uwrap. rewrite Z.mod_pow2_bits_low by lia.
  rewrite !Z.lor_spec, !Z.shiftl_spec, !Z.ldiff_spec, !Z.land_spec by lia.
  assert (∀ j, Z.testbit 255 j = bool_decide (0 ≤ j < 8)) as H8.
  { intros j. destruct (decide (0 ≤ j)); [|by rewrite Z.testbit_neg_r, bool_decide_eq_false_2 by lia].
    change 255 with (Z.ones 8). rewrite Z.testbit_ones by lia. case_bool_decide; lia. }
  assert (∀ j, Z.testbit 4095 j = bool_decide (0 ≤ j < 12)) as H12.
  { intros j. destruct (decide (0 ≤ j)); [|by rewrite Z.testbit_neg_r, bool_decide_eq_false_2 by lia].
    change 4095 with (Z.ones 12). rewrite Z.testbit_ones by lia. case_bool_decide; lia. }
  rewrite !H8, !H12.
  pose proof (proj1 (in_u_bits 32 mi ltac:(lia)) Hmi (i - 12)) as Habove.
  repeat case_decide; repeat case_bool_decide; try lia; cbn; rewrite ?andb_true_r, ?andb_false_r, ?orb_false_r;
    try done.
  all: rewrite ?(Z.testbit_neg_r _ (i - 8)), ?(Z.testbit_neg_r _ (i - 12)), ?(Z.testbit_neg_r _ (i - 32)) by lia;
    rewrite ?orb_false_r; try done.
  by rewrite Habove by lia.
Qed.

(** Different device numbers are different nodes: for 32-bit numbers, the major and
    the minor number can be recovered from the number that is given to the kernel. *)
Theorem makedev_injective ma mi ma' mi' :
  in_u 32 ma → in_u 32 mi → in_u 32 ma' → in_u 32 mi' →
  makedev ma mi = makedev ma' mi' → ma = ma' ∧ mi = mi'.
Proof.
  intros Hma Hmi Hma' Hmi' Heq.
  assert (∀ i, 0 ≤ i < 64 → Z.testbit (makedev ma mi) i = Z.testbit (makedev ma' mi') i) as Hbit
    by (intros; by rewrite Heq).
  assert (∀ z z', in_u 32 z → in_u 32 z' → (∀ j, 0 ≤ j < 32 → Z.testbit z j = Z.testbit z' j) → z = z') as Hext.
  { intros z z' Hz Hz' H. apply Z.bits_inj'. intros j Hj. destruct (decide (j < 32)); [apply H; lia|].
    rewrite !(proj1 (in_u_bits 32 _ ltac:(lia))) by (done || lia). done. }
  split; apply Hext; try done; intros j Hj.
  - destruct (decide (j < 12)); [specialize (Hbit (j + 8) ltac:(lia))|specialize (Hbit (j + 32) ltac:(lia))];
      rewrite !makedev_bits in Hbit by (done || lia); repeat case_decide; try lia;
      by rewrite Z.add_simpl_r in Hbit.
  - destruct (decide (j < 8)); [specialize (Hbit j ltac:(lia))|specialize (Hbit (j + 12) ltac:(lia))];
      rewrite !makedev_bits in Hbit by (done || lia); repeat case_decide; try lia; [done|];
      by rewrite Z.add_simpl_r in Hbit.
Qed.

Lemma makedev_injective_witness : makedev 8 259 = makedev 8 259 ∧ (8 = 8 ∧ 259 = 259).
Proof. split; [reflexivity|]. apply makedev_injective; [done..|vm_compute; reflexivity]. Defined.

(** ** The parent mount *)

Lemma foldl_longer mi l :
  foldl longer mi l ∈ mi :: l ∧
  ∀ x, x ∈ mi :: l → (String.length (mount_point x) ≤ String.length (mount_point (foldl longer mi l)))%nat.
Proof.
  revert mi. induction l as [|y l IH]; intros mi; cbn.
  { split; [apply list_elem_of_here|]. by intros x ->%list_elem_of_singleton. }
  destruct (IH (longer mi y)) as [Hin Hmax]. split.
  - apply elem_of_cons in Hin as [->|Hin]; [|by do 2 apply list_elem_of_further].
    unfold longer. case_match; [apply list_elem_of_here|apply list_elem_of_further, list_elem_of_here].
  - pose proof (Hmax (longer mi y) (list_elem_of_here _ _)) as Hl.
    assert (String.length (mount_point mi) ≤ String.length (mount_point (longer mi y)) ∧
            String.length (mount_point y) ≤ String.length (mount_point (longer mi y)))%nat as [? ?].
    { unfold longer. destruct (Nat.ltb_spec (String.length (mount_point y)) (String.length (mount_point mi))); lia. }
    intros x [->|[->|Hx]%elem_of_cons]%elem_of_cons; [lia..|]. by apply Hmax, list_elem_of_further.
Qed.

(** The parent of the root is the mount with the longest path that leads to it. *)
Lemma find_parent_mount_spec rootfs l :
  match find_parent_mount rootfs l with
  | Ok mi =>
      mi ∈ l ∧ path_starts_with rootfs (components (mount_point mi)) = true ∧
      ∀ x, x ∈ l → path_starts_with rootfs (components (mount_point x)) = true →
        (String.length (mount_point x) ≤ String.length (mount_point mi))%nat
  | Err _ => ∀ x, x ∈ l → path_starts_with rootfs (components (mount_point x)) = false
  | Panic => False
  end.
Proof.
  unfold find_parent_mount.
  set (P := λ mi, path_starts_with rootfs (components (mount_point mi)) = true).
  assert (∀ x, x ∈ filter P l ↔ P x ∧ x ∈ l) as Hf by (intros x; apply list_elem_of_filter).
  destruct (filter P l) as [|mi fl].
  - intros x Hx. apply not_true_is_false. intros HP. by apply (not_elem_of_nil x), Hf.
  - destruct (foldl_longer mi fl) as [Hin Hmax]. apply Hf in Hin as [HP Hin]. split_and!; [done..|].
    intros x Hx HPx. by apply Hmax, Hf.
Qed.

(** The parent mount is private afterwards: if it was shared, its propagation was changed. *)
Lemma make_parent_mount_private_spec sys mountinfo rootfs w mi w' :
  make_parent_mount_private sys mountinfo rootfs w = (Ok mi, w') →
  (∃ l, mountinfo w = inr l ∧ find_parent_mount rootfs l = Ok mi) ∧
  (existsb is_shared (opt_fields mi) = true →
   w' = w ++ [(SetPropagation (components (mount_point mi)) MS_PRIVATE, None)]).
Proof.
  unfold make_parent_mount_private, mbind, io_bind, of_sum. cbn.
  destruct (mountinfo w) as [err|l]; [done|]. cbn. destruct (find_parent_mount rootfs l) as [mi'|x|] eqn:Hf; [|done..].
  cbn. destruct (existsb is_shared (opt_fields mi')) eqn:Hs; cbn.
  - unfold do. destruct (sys _ _); [done|]. intros [= -> <-]. eauto.
  - intros [= -> <-]. split; [eauto|congruence].
Qed.
