(* ===== verification/IntelRdt.v ===== *)
(** * Intel RDT

    Models [libcontainer/src/process/intel_rdt.rs]: the schemata of a resource control
    group and their comparison, and setting up and removing the directories of a
    container.  The world is the file system of the cgroup code. *)
From S2P Require Import Prelude Text Paths CgroupFs.
Local Open Scope string_scope.
Local Open Scope list_scope.

(** ** Data *)

Inductive ParseLineError : Type := MBLine | MBToken | L3LineError | L3Token | GenericLine | GenericToken.

(** The variant [Cleanup], which joins the messages of several errors, is their list. *)
Inductive IntelRdtError : Type :=
  | ProcError | ResctrlMountPointNotFound | ResctrlIdNotFound | ExistingSchemataMismatch
  | ReadSchemata (e : IoError) | WriteSchemata (e : IoError) | OpenSchemata (e : IoError)
  | ParseLine (e : ParseLineError) | NoResctrlSubdirectory | RemoveSubdirectory (e : IoError)
  | NoResctrlSubdirectoryParent | InvalidResctrlDirectory | NoClosIDDirectory
  | WriteClosIDTasksFile (e : IoError) | OpenClosIDTasksFile (e : IoError)
  | CreateClosIDDirectory (e : IoError) | WriteMonitoringTasksFile (e : IoError)
  | OpenMonitoringTasksFile (e : IoError) | CreateMonitoringDirectory (e : IoError)
  | Canonicalize (e : IoError) | RdtPathrs | RdtIo (e : IoError).

(** [oci_spec::runtime::LinuxIntelRdt] *)
Record LinuxIntelRdt : Type := MkIntelRdt {
  rdt_clos_id : option string; l3_cache_schema : option string; mem_bw_schema : option string;
  schemata : option (list string); enable_monitoring : option bool }.

Inductive LineType : Type := L3Line | L3DataLine | L3CodeLine | MbLine | Generic (prefix : string).

#[global] Instance LineType_eq_dec : EqDecision LineType.
Proof. solve_decision. Defined.

Record ParsedLine : Type := MkParsed { line_type : LineType; tokens : gmap string string }.

#[global] Instance ParsedLine_eq_dec : EqDecision ParsedLine.
Proof. solve_decision. Defined.

Abbreviation R := (io fs IntelRdtError).

(** ** Schemata *)

Definition newline : string := String LF "".

Definition combine_l3_cache_and_mem_bw_schemas (l3 mb : option string) : option string :=
  match l3, mb with
  | Some real_l3, Some real_mb =>
      Some (String.concat newline (List.filter (λ l, negb (starts_with "MB:" l)) (lines real_l3) ++ [real_mb]))
  | Some _, None => l3
  | None, Some _ => mb
  | None, None => None
  end.

Definition get_schemata_data (intel_rdt : LinuxIntelRdt) : option string :=
  let legacy_schemata :=
    combine_l3_cache_and_mem_bw_schemas (l3_cache_schema intel_rdt) (mem_bw_schema intel_rdt) in
  match schemata intel_rdt with
  | Some (s :: l) =>
      let modern_schemata := String.concat newline (s :: l) in
      match legacy_schemata with
      | Some legacy => Some (legacy +:+ newline +:+ modern_schemata)
      | None => Some modern_schemata
      end
  | _ => legacy_schemata
  end.

(** The expressions of the [regex] crate. *)
Definition MB_VALIDATE_RE : string :=
  "^MB:(?:\s|;)*(?:\w+\s*=\s*\w+)?(?:(?:\s*;+\s*)+\w+\s*=\s*\w+)*(?:\s|;)*$".
Definition MB_CAPTURE_RE : string := "(\w+)\s*=\s*(\w+)".
Definition L3_VALIDATE_RE : string :=
  "^(?:L3|L3DATA|L3CODE):(?:\s|;)*(?:\w+\s*=\s*[[:xdigit:]]+)?(?:(?:\s*;+\s*)+\w+\s*=\s*[[:xdigit:]]+)*(?:\s|;)*$".
Definition L3_CAPTURE_RE : string := "(\w+)\s*=\s*0*([[:xdigit:]]+)".
Definition OTHER_VALIDATE_RE : string :=
  "^[A-Za-z0-9]+:(?:\s|;)*(?:\w+\s*=\s*[[:xdigit:]]+)?(?:(?:\s*;+\s*)+\w+\s*=\s*[[:xdigit:]]+)*(?:\s|;)*$".
Definition OTHER_CAPTURE_RE : string := "(\w+)\s*=\s*([[:xdigit:]]+)".

Section rdt.
(** [Regex::is_match] and the first two groups of each match of [captures_iter], and
    whether all characters of a string are alphanumeric or an underscore. *)
Context (is_match : string → string → bool)
  (captures_iter : string → string → list (option string * option string))
  (all_alphanumeric : string → bool).

(** The lines of the [mountinfo] file or the error of opening it, [MountInfo::from_line]
    (mount point and type), and [Path::canonicalize]. *)
Context (mountinfo : IntelRdtError + list (IoError + string))
  (from_line : string → option (Path * string))
  (canonicalize : fs → Path → IoError + Path).

(** The loop over the matches; [value] is what becomes of the second group. *)
Fixpoint collect_tokens (value : string → string) (err : ParseLineError)
    (ts : list (option string * option string)) (m : gmap string string) :
    outcome ParseLineError (gmap string string) :=
  match ts with
  | [] => Ok m
  | (Some k, Some v) :: ts => collect_tokens value err ts (<[k := value v]> m)
  | _ => Err err
  end.

Definition parse_mb_line (line : string) : outcome ParseLineError (gmap string string) :=
  if negb (is_match MB_VALIDATE_RE line) then Err MBLine
  else collect_tokens id MBToken (captures_iter MB_CAPTURE_RE line) ∅.

Definition parse_l3_line (line : string) : outcome ParseLineError (gmap string string) :=
  if negb (is_match L3_VALIDATE_RE line) then Err L3LineError
  else collect_tokens id L3Token (captures_iter L3_CAPTURE_RE line) ∅.

Definition strip_zeros (s : string) : string :=
  let val_str := of_chars (drop_while (Ascii.eqb "0"%char) (chars s)) in
  if bool_decide (val_str = "") then "0" else val_str.

Definition parse_generic_line (line : string) : outcome ParseLineError (gmap string string) :=
  if negb (is_match OTHER_VALIDATE_RE line) then Err GenericLine
  else collect_tokens strip_zeros GenericToken (captures_iter OTHER_CAPTURE_RE line) ∅.

Definition get_line_type (line : string) : LineType :=
  if starts_with "L3:" line then L3Line
  else if starts_with "L3CODE:" line then L3CodeLine
  else if starts_with "L3DATA:" line then L3DataLine
  else if starts_with "MB:" line then MbLine
  else match split_once ":"%char line with
       | Some (prefix, _) => if all_alphanumeric prefix then Generic prefix else Generic ""
       | None => Generic ""
       end.

(** [None] is a line that is left out. *)
Definition parse_line (line : string) : option (outcome ParseLineError ParsedLine) :=
  let line_type := get_line_type line in
  let parsed (r : outcome ParseLineError (gmap string string)) := Some (ts ← r; Ok (MkParsed line_type ts)) in
  match line_type with
  | L3Line | L3DataLine | L3CodeLine => parsed (parse_l3_line line)
  | MbLine => parsed (parse_mb_line line)
  | Generic prefix => if bool_decide (prefix = "") then None else parsed (parse_generic_line line)
  end.

Definition compare_lines (first_lines second_lines : list ParsedLine) : bool :=
  forallb (λ l, bool_decide (l ∈ second_lines)) first_lines
  && forallb (λ l, bool_decide (l ∈ first_lines)) second_lines.

(** [filter_map] and [collect] *)
Fixpoint parse_lines (ls : list string) : outcome ParseLineError (list ParsedLine) :=
  match ls with
  | [] => Ok []
  | l :: ls =>
      match parse_line l with
      | Some r => p ← r; ps ← parse_lines ls; Ok (p :: ps)
      | None => parse_lines ls
      end
  end.

Definition is_same_schema (combined_schema existing_schema : string) : outcome IntelRdtError bool :=
  combined ← map_err ParseLine (parse_lines (lines combined_schema));
  existing ← map_err ParseLine (parse_lines (lines existing_schema));
  Ok (compare_lines combined existing).

(** ** Directories *)

Fixpoint find_resctrl (ls : list (IoError + string)) (w : fs) : outcome IntelRdtError Path :=
  match ls with
  | [] => Err ResctrlMountPointNotFound
  | inl e :: _ => Err (RdtIo e)
  | inr s :: ls =>
      match from_line s with
      | None => Err ProcError
      | Some (mount_point, fs_type) =>
          if bool_decide (fs_type = "resctrl") then map_err Canonicalize (of_sum (canonicalize w mount_point))
          else find_resctrl ls w
      end
  end.

Definition find_resctrl_mount_point : R Path := λ w,
  (ls ← of_sum mountinfo; find_resctrl ls w, w).

(** [remove_dir] where a directory that is not there is no error *)
Definition delete_resctrl_subdirectory (p : Path) : R () := λ w,
  match os_remove_dir p w with
  | (Err e, w) => (if is_not_found e then Ok () else Err (RemoveSubdirectory e), w)
  | (Ok _, w) => (Ok (), w)
  | (Panic, w) => (Panic, w)
  end.

(** Only a directory directly below [dir] is deleted. *)
Definition delete_below (dir path : Path) : R () := λ w,
  match canonicalize w path with
  | inr container_resctrl_path =>
      match parent container_resctrl_path with
      | Some par =>
          if bool_decide (par = dir) && exists_ container_resctrl_path w
          then delete_resctrl_subdirectory container_resctrl_path w
          else (Err NoResctrlSubdirectory, w)
      | None => (Err NoResctrlSubdirectoryParent, w)
      end
  | inl e => (if is_not_found e then Ok () else Err (Canonicalize e), w)
  end.

Definition delete_resctrl_subdirectory_by_id (id : string) : R () :=
  dir ← find_resctrl_mount_point;
  delete_below dir (join_name_of dir id).

(** The error of a computation, which does not stop what follows. *)
Definition failure (m : R ()) : io fs (list IntelRdtError) (list IntelRdtError) := λ w,
  match m w with
  | (Ok _, w) => (Ok [], w)
  | (Err e, w) => (Ok [e], w)
  | (Panic, w) => (Panic, w)
  end.

Definition cleanup_intel_rdt (intel_rdt_dir intel_rdt_monitoring_dir : option Path)
    (clean_up_intel_rdt_subdirectory : option bool) (id : string) : io fs (list IntelRdtError) () :=
  e1 ← match intel_rdt_monitoring_dir with
       | Some path => failure (delete_resctrl_subdirectory path)
       | None => mret []
       end;
  e2 ← match intel_rdt_dir with
       | Some path => failure (delete_resctrl_subdirectory path)
       | None =>
           if bool_decide (clean_up_intel_rdt_subdirectory = Some true)
           then failure (delete_resctrl_subdirectory_by_id id) else mret []
       end;
  match e1 ++ e2 with [] => mret () | errors => pure (Err errors) end.

(** ** Setting up *)

Definition write_pid_to_tasks (dir : Path) (pid : Z) (on_open_err on_write_err : IoError → IntelRdtError) : R () :=
  let tasks := join_name_of dir "tasks" in
  _ ← io_map_err on_open_err (os_open tasks);
  io_map_err on_write_err (os_write tasks (pretty pid)).

Definition setup_resctrl_group (resctrl_container_dir : Path) (init_pid : Z) (only_clos_id_set : bool) : R bool :=
  created_dir ← if_exists resctrl_container_dir (mret false)
                  (if only_clos_id_set then pure (Err NoClosIDDirectory)
                   else _ ← io_map_err CreateClosIDDirectory
                              (create_dir_all (length resctrl_container_dir) resctrl_container_dir);
                        mret true);
  _ ← write_pid_to_tasks resctrl_container_dir init_pid OpenClosIDTasksFile WriteClosIDTasksFile;
  mret created_dir.

Definition write_resctrl_schemata (path : Path) (id : string) (intel_rdt : LinuxIntelRdt)
    (clos_id_was_set created_dir : bool) : R () :=
  let schemata := join_name_of (join_name_of path id) "schemata" in
  match get_schemata_data intel_rdt with
  | Some combined_schema =>
      if clos_id_was_set && negb created_dir then
        data ← io_map_err ReadSchemata (os_read schemata);
        same ← pure (is_same_schema combined_schema data);
        if (same : bool) then mret () else pure (Err ExistingSchemataMismatch)
      else
        _ ← io_map_err OpenSchemata (os_open schemata);
        io_map_err WriteSchemata (os_write schemata (combined_schema +:+ newline))
  | None => mret ()
  end.

Definition has_schemata (intel_rdt : LinuxIntelRdt) : bool :=
  bool_decide (is_Some (l3_cache_schema intel_rdt)) || bool_decide (is_Some (mem_bw_schema intel_rdt))
  || match schemata intel_rdt with Some (_ :: _) => true | _ => false end.

Definition setup_monitoring (mon_dir : Path) (init_pid : Z) : R () :=
  _ ← if_exists mon_dir (mret ())
        (io_map_err CreateMonitoringDirectory (create_dir_all (length mon_dir) mon_dir));
  write_pid_to_tasks mon_dir init_pid OpenMonitoringTasksFile WriteMonitoringTasksFile.

Definition setup_intel_rdt (maybe_container_id : option string) (init_pid : Z) (intel_rdt : LinuxIntelRdt) :
    R (option Path * option Path) :=
  mount_point ← find_resctrl_mount_point;
  container_id ← pure (ok_or maybe_container_id ResctrlIdNotFound);
  let clos_id_set := bool_decide (is_Some (rdt_clos_id intel_rdt)) in
  let id := default container_id (rdt_clos_id intel_rdt) in
  let only_clos_id_set := clos_id_set && negb (has_schemata intel_rdt) in
  let container_dir := join_name_of mount_point id in
  created_dir ← setup_resctrl_group container_dir init_pid only_clos_id_set;
  _ ← write_resctrl_schemata mount_point id intel_rdt clos_id_set created_dir;
  created_monitoring_dir ←
    (if default false (enable_monitoring intel_rdt) then
       let mon_dir := join_name_of (join_name_of container_dir "mon_groups") container_id in
       _ ← setup_monitoring mon_dir init_pid; mret (Some mon_dir)
     else mret None);
  mret (if negb clos_id_set && created_dir then Some container_dir else None, created_monitoring_dir).

(** ** Comparing schemata *)

Lemma compare_lines_spec l1 l2 : compare_lines l1 l2 = true ↔ ∀ l, l ∈ l1 ↔ l ∈ l2.
Proof.
  unfold compare_lines. rewrite andb_true_iff, !forallb_forall.
  setoid_rewrite bool_decide_eq_true. setoid_rewrite <- list_elem_of_In. firstorder.
Qed.

Lemma collect_tokens_no_panic value err ts m : collect_tokens value err ts m ≠ Panic.
Proof. revert m. induction ts as [|[[k|] [v|]] ts IH]; intros m; cbn; [done|apply IH|done..]. Qed.

Lemma parse_line_no_panic l : parse_line l ≠ Some Panic.
Proof.
  assert (∀ f, (∀ x, f x ≠ Panic) → ∀ t, Some (ts ← f l; Ok (MkParsed t ts)) ≠ Some (Panic : outcome ParseLineError _))
    as H.
  { intros f Hf t. specialize (Hf l). by destruct (f l). }
  assert (∀ x, parse_l3_line x ≠ Panic) by (intros; unfold parse_l3_line; case_match; [done|apply collect_tokens_no_panic]).
  assert (∀ x, parse_mb_line x ≠ Panic) by (intros; unfold parse_mb_line; case_match; [done|apply collect_tokens_no_panic]).
  assert (∀ x, parse_generic_line x ≠ Panic)
    by (intros; unfold parse_generic_line; case_match; [done|apply collect_tokens_no_panic]).
  unfold parse_line. destruct (get_line_type l); try by apply H. case_bool_decide; [done|by apply H].
Qed.

Lemma parse_lines_error ls :
  match parse_lines ls with
  | Ok _ => True
  | Err e => ∃ l, l ∈ ls ∧ parse_line l = Some (Err e)
  | Panic => False
  end.
Proof.
  induction ls as [|l ls IH]; cbn; [done|]. pose proof (parse_line_no_panic l) as Hnp.
  assert (∀ e, (∃ x, x ∈ ls ∧ parse_line x = Some (Err e)) → ∃ x, x ∈ l :: ls ∧ parse_line x = Some (Err e)) as Hcons.
  { intros e (x & Hx & He). exists x. split; [by apply list_elem_of_further|done]. }
  destruct (parse_line l) as [[p|e|]|] eqn:Hl; cbn; [|eauto using list_elem_of_here|done|].
  - destruct (parse_lines ls); cbn; auto.
  - destruct (parse_lines ls); auto.
Qed.

(** Two schemata are the same exactly when each line of one occurs in the other, as
    a resource with the values of its domains; the order of lines and repeated lines do
    not matter, nor do lines that name no resource.  A line that is not valid is an error. *)
Theorem is_same_schema_spec a b :
  match is_same_schema a b with
  | Ok same =>
      ∃ la lb, parse_lines (lines a) = Ok la ∧ parse_lines (lines b) = Ok lb ∧
        (same = true ↔ ∀ l, l ∈ la ↔ l ∈ lb)
  | Err err =>
      ∃ s l e, (s = a ∨ s = b) ∧ l ∈ lines s ∧ parse_line l = Some (Err e) ∧ err = ParseLine e
  | Panic => False
  end.
Proof.
  unfold is_same_schema. pose proof (parse_lines_error (lines a)) as Ha.
  destruct (parse_lines (lines a)) as [la|e|]; cbn; [|destruct Ha as (l & ? & ?); by exists a, l, e; auto|done].
  pose proof (parse_lines_error (lines b)) as Hb.
  destruct (parse_lines (lines b)) as [lb|e|]; cbn; [|destruct Hb as (l & ? & ?); by exists b, l, e; auto|done].
  exists la, lb. split_and!; [done..|]. apply compare_lines_spec.
Qed.

(** *** The line that is added to a written schema *)

Lemma split_inclusive_snoc_sep sep l :
  (l = [] ∨ last l = Some sep) →
  split_inclusive_chars sep (l ++ [sep]) = split_inclusive_chars sep l ++ [[sep]].
Proof.
  induction l as [|c l IH]; intros Hl; cbn; [by rewrite Ascii.eqb_refl|].
  assert (l = [] ∧ c = sep ∨ l ≠ [] ∧ last l = Some sep) as Hc.
  { destruct Hl as [|Hl]; [done|]. destruct l; [left|right; split; [done|]; by rewrite last_cons_cons in Hl].
    by injection Hl. }
  destruct Hc as [[-> ->]|[Hne Hl']].
  { cbn. by rewrite Ascii.eqb_refl. }
  rewrite IH by auto. destruct (Ascii.eqb c sep); [done|].
  destruct (split_inclusive_chars sep l) as [|q qs] eqn:Hs; [|done].
  pose proof (concat_split_inclusive_chars sep l) as Hcat. rewrite Hs in Hcat. by destruct Hne.
Qed.

Lemma split_inclusive_snoc_other sep l d :
  last l = Some d → d ≠ sep →
  ∃ ps p, split_inclusive_chars sep l = ps ++ [p] ∧
    split_inclusive_chars sep (l ++ [sep]) = ps ++ [p ++ [sep]] ∧ last p = Some d.
Proof.
  induction l as [|c l IH]; intros Hl Hd; [done|]. cbn [app split_inclusive_chars].
  destruct l as [|c' l].
  { injection Hl as ->. exists [], [d]. cbn. rewrite Ascii.eqb_refl.
    by destruct (Ascii.eqb_spec d sep). }
  rewrite last_cons_cons in Hl. destruct (IH Hl Hd) as (ps & p & -> & -> & Hp).
  destruct (Ascii.eqb c sep); [by exists ([c] :: ps), p|].
  destruct ps as [|q ps]; cbn; [|by exists ((c :: q) :: ps), p].
  exists [], (c :: p). split_and!; [done..|]. by rewrite last_cons, Hp.
Qed.

Lemma parse_lines_blank ls : parse_lines (ls ++ [""]) = parse_lines ls.
Proof.
  induction ls as [|l ls IH]; [done|]. cbn [app parse_lines]. by rewrite IH.
Qed.

Lemma strip_last_snoc c l : strip_last c (l ++ [c]) = Some l.
Proof.
  unfold strip_last. rewrite last_snoc, Ascii.eqb_refl, length_app. cbn.
  by rewrite Nat.add_sub, take_app_length.
Qed.

Lemma strip_last_other c l : last l ≠ Some c → strip_last c l = None.
Proof.
  intros Hl. unfold strip_last. destruct (last l) as [d|]; [|done].
  destruct (Ascii.eqb_spec c d) as [->|]; [done|done].
Qed.

Lemma parse_lines_newline s :
  last (chars s) ≠ Some CR → parse_lines (lines (s +:+ newline)) = parse_lines (lines s).
Proof.
  intros Hcr. unfold lines. rewrite chars_app. change (chars newline) with [LF].
  destruct (decide (chars s = [] ∨ last (chars s) = Some LF)) as [Hl|Hl].
  { rewrite split_inclusive_snoc_sep, map_app by done. apply parse_lines_blank. }
  destruct (last (chars s)) as [d|] eqn:Hd; [|destruct Hl; left; by apply last_None].
  destruct (split_inclusive_snoc_other LF (chars s) d) as (ps & p & -> & -> & Hp); [done|intros ->; by destruct Hl; right|].
  assert (strip_eol (p ++ [LF]) = strip_eol p) as Heol.
  { unfold strip_eol. rewrite strip_last_snoc, (strip_last_other CR) by (by rewrite Hp).
    rewrite strip_last_other; [done|]. rewrite Hp. intros [= ->]. by destruct Hl; right. }
  rewrite !map_app. cbn. by rewrite Heol.
Qed.

Lemma is_same_schema_newline s ls :
  parse_lines (lines s) = Ok ls → last (chars s) ≠ Some CR → is_same_schema s (s +:+ newline) = Ok true.
Proof.
  intros Hs Hcr. unfold is_same_schema. rewrite parse_lines_newline, Hs by done. cbn. f_equal.
  by apply compare_lines_spec.
Qed.

(** ** What happens to the directories *)

(** The environment does not report [NotFound] for a directory it could make or remove. *)
Definition honest (w : fs) : Prop :=
  ∀ n p, refuse w n (OpMkdir p) ≠ Some ENOENT ∧ refuse w n (OpRmdir p) ≠ Some ENOENT.

(** [m] leaves the directories and the environment alone. *)
Definition quiet {E A} (m : io fs E A) : Prop :=
  ∀ w, dirs (m w).2 = dirs w ∧ refuse (m w).2 = refuse w.

Lemma quiet_ret {E A} (a : A) : quiet (mret a : io fs E A).
Proof. done. Qed.

Lemma quiet_pure {E A} (r : outcome E A) : quiet (pure r).
Proof. done. Qed.

Lemma quiet_bind {E A B} (m : io fs E A) (f : A → io fs E B) : quiet m → (∀ a, quiet (f a)) → quiet (m ≫= f).
Proof.
  intros Hm Hf w. destruct (Hm w) as [Hd Hr]. unfold mbind, io_bind.
  destruct (m w) as [[a|e|] w1]; cbn in *; [|done..]. destruct (Hf a w1) as [-> ->]. done.
Qed.

Lemma quiet_map_err {E F A} (f : E → F) (m : io fs E A) : quiet m → quiet (io_map_err f m).
Proof. exact id. Qed.

Lemma quiet_open p : quiet (os_open p).
Proof. intros w. unfold os_open, attempt, act, mbind, io_bind. by destruct (refuse _ _ _). Qed.

Lemma quiet_write p d : quiet (os_write p d).
Proof. intros w. unfold os_write, attempt, act, mbind, io_bind. by destruct (refuse _ _ _). Qed.

Lemma quiet_read p : quiet (os_read p).
Proof. intros w. unfold os_read, attempt, act, mbind, io_bind. by destruct (refuse _ _ _). Qed.

Create HintDb quiet.
#[local] Hint Resolve quiet_ret quiet_pure quiet_bind quiet_map_err quiet_open quiet_write quiet_read : quiet.

Lemma quiet_write_pid dir pid f g : quiet (write_pid_to_tasks dir pid f g).
Proof. unfold write_pid_to_tasks. auto with quiet. Qed.

Lemma quiet_schemata mp id cfg b c : quiet (write_resctrl_schemata mp id cfg b c).
Proof.
  unfold write_resctrl_schemata. destruct (get_schemata_data cfg); [|auto with quiet].
  case_match; [|auto with quiet]. apply quiet_bind; [auto with quiet|intros data].
  apply quiet_bind; [auto with quiet|]. intros []; auto with quiet.
Qed.

Lemma os_create_dir_dirs p w :
  honest w →
  match os_create_dir p w with
  | (Ok _, w') => dirs w' = {[p]} ∪ dirs w ∧ refuse w' = refuse w
  | (Err e, w') => dirs w' = dirs w ∧ refuse w' = refuse w ∧ is_not_found e = false
  | (Panic, _) => False
  end.
Proof.
  intros Hh. destruct (Hh (clock w) p) as [Hmk _]. unfold os_create_dir, attempt, act, mbind, io_bind.
  destruct (refuse w (clock w) (OpMkdir p)) as [errno|]; cbn.
  - split_and!; [done..|]. unfold is_not_found. apply bool_decide_eq_false. congruence.
  - by destruct (exists_ p (tick w)).
Qed.

Lemma create_dir_all_dirs n p w w' :
  honest w → create_dir_all n p w = (Ok (), w') → dirs w' = {[p]} ∪ dirs w ∧ refuse w' = refuse w.
Proof.
  intros Hh. pose proof (os_create_dir_dirs p w Hh) as Hd.
  destruct n; cbn; (destruct (os_create_dir p w) as [[[]|e|] w1]; [by intros [= <-]| |done]);
    destruct Hd as (Hd & Hr & ->); case_bool_decide as Hp; intros [= <-]; (split; [set_solver|done]).
Qed.

Lemma delete_dirs p w w' :
  honest w → delete_resctrl_subdirectory p w = (Ok (), w') → dirs w' = dirs w ∖ {[p]} ∧ refuse w' = refuse w.
Proof.
  intros Hh. destruct (Hh (clock w) p) as [_ Hrm].
  unfold delete_resctrl_subdirectory, os_remove_dir, attempt, act, mbind, io_bind.
  destruct (refuse w (clock w) (OpRmdir p)) as [errno|] eqn:Hr; cbn.
  - unfold is_not_found. rewrite bool_decide_eq_false_2 by congruence. done.
  - case_bool_decide as Hp; cbn; intros [= <-]; (split; [|done]); [done|]. cbn in *. set_solver.
Qed.

(** The directories of a container: the group and the monitoring group. *)
Definition group_dir (mp : Path) (cid : string) (cfg : LinuxIntelRdt) : Path :=
  join_name_of mp (default cid (rdt_clos_id cfg)).

Definition mon_dirs (m : option Path) : gset Path := from_option singleton ∅ m.

Lemma setup_group_dirs dir pid b w created w' :
  honest w → setup_resctrl_group dir pid b w = (Ok created, w') →
  created = negb (exists_ dir w) ∧ dirs w' = (if created then {[dir]} else ∅) ∪ dirs w ∧ refuse w' = refuse w.
Proof.
  intros Hh. unfold setup_resctrl_group.
  intros (c & w1 & H1 & (? & w2 & H2 & [= -> <-])%io_bind_Ok)%io_bind_Ok.
  destruct (quiet_write_pid dir pid OpenClosIDTasksFile WriteClosIDTasksFile w1) as [Hd Hr].
  rewrite H2 in Hd, Hr. cbn in Hd, Hr. rewrite Hd, Hr.
  unfold if_exists in H1. destruct (exists_ dir w).
  - injection H1 as <- <-. split_and!; [done|set_solver|done].
  - destruct b; [done|]. apply io_bind_Ok in H1 as ([] & w3 & H3 & [= <- <-]).
    unfold io_map_err in H3. destruct (create_dir_all (length dir) dir w) as [[[]|e|] w4] eqn:H4; [|done..].
    injection H3 as <-. destruct (create_dir_all_dirs _ _ _ _ Hh H4) as [-> ->]. done.
Qed.

Lemma setup_monitoring_dirs dir pid w w' :
  honest w → setup_monitoring dir pid w = (Ok (), w') →
  dirs w' ∖ {[dir]} = dirs w ∖ {[dir]} ∧ refuse w' = refuse w.
Proof.
  intros Hh (? & w1 & H1 & H2)%io_bind_Ok.
  destruct (quiet_write_pid dir pid OpenMonitoringTasksFile WriteMonitoringTasksFile w1) as [Hd Hr].
  rewrite H2 in Hd, Hr. cbn in Hd, Hr. rewrite Hd, Hr. unfold if_exists in H1. destruct (exists_ dir w).
  - by injection H1 as <- <-.
  - unfold io_map_err in H1. destruct (create_dir_all (length dir) dir w) as [[[]|e|] w3] eqn:H3; [|done..].
    injection H1 as <- <-. destruct (create_dir_all_dirs _ _ _ _ Hh H3) as [-> ->]. split; [set_solver|done].
Qed.

(** What a successful setup leaves: the group if it was made here, and the monitoring
    directory, whether it was made here or not. *)
Lemma setup_dirs cid pid cfg mp w d m w1 :
  honest w → (find_resctrl_mount_point w).1 = Ok mp →
  setup_intel_rdt (Some cid) pid cfg w = (Ok (d, m), w1) →
  let dir := group_dir mp cid cfg in
  let created := negb (exists_ dir w) in
  d = (if negb (bool_decide (is_Some (rdt_clos_id cfg))) && created then Some dir else None) ∧
  m = (if default false (enable_monitoring cfg)
       then Some (join_name_of (join_name_of dir "mon_groups") cid) else None) ∧
  dirs w1 ∖ mon_dirs m = ((if created then {[dir]} else ∅) ∪ dirs w) ∖ mon_dirs m ∧ refuse w1 = refuse w.
Proof.
  intros Hh Hmp (mp' & w0 & Hf & Hrun)%io_bind_Ok. cbn zeta. unfold find_resctrl_mount_point in Hmp, Hf.
  injection Hf as Hf <-. cbn in Hmp. rewrite Hmp in Hf. injection Hf as <-.
  apply io_bind_Ok in Hrun as (cid' & w0 & [= <- <-] & Hrun).
  apply io_bind_Ok in Hrun as (created & w2 & H2 & Hrun). fold (group_dir mp cid cfg) in H2, Hrun.
  destruct (setup_group_dirs _ _ _ _ _ _ Hh H2) as (-> & Hd2 & Hr2).
  apply io_bind_Ok in Hrun as (? & w3 & H3 & Hrun).
  match type of H3 with write_resctrl_schemata ?a ?b ?c ?d ?e _ = _ => destruct (quiet_schemata a b c d e w2) as [Hd3 Hr3] end.
  rewrite H3 in Hd3, Hr3. cbn in Hd3, Hr3.
  apply io_bind_Ok in Hrun as (m' & w4 & H4 & [= <- <- <-]). split; [done|].
  destruct (default false (enable_monitoring cfg)).
  - apply io_bind_Ok in H4 as ([] & w5 & H5 & [= <- <-]). split; [done|].
    assert (honest w3) as Hh3 by (intros n p; rewrite Hr3, Hr2; apply Hh).
    destruct (setup_monitoring_dirs _ _ _ _ Hh3 H5) as [Hd5 Hr5]. cbn. rewrite Hd5, Hd3, Hd2, Hr5, Hr3. done.
  - injection H4 as <- <-. cbn. by rewrite Hd3, Hd2, Hr3.
Qed.

Lemma cleanup_dirs d m flag id w w' :
  honest w → (d = None → flag ≠ Some true) → cleanup_intel_rdt d m flag id w = (Ok (), w') →
  dirs w' = dirs w ∖ mon_dirs m ∖ mon_dirs d.
Proof.
  intros Hh Hfl (e1 & w1 & H1 & (e2 & w2 & H2 & H3)%io_bind_Ok)%io_bind_Ok.
  assert (e1 = [] ∧ e2 = [] ∧ w2 = w') as (-> & -> & ->).
  { destruct e1; [destruct e2; [by injection H3|done]|done]. }
  assert (∀ o v v', honest v →
            match o with Some p => failure (delete_resctrl_subdirectory p) | None => mret [] end v = (Ok [], v') →
            dirs v' = dirs v ∖ mon_dirs o ∧ refuse v' = refuse v) as Hdel.
  { intros [p|] v v' Hv; cbn; [|intros [= <-]; split; [set_solver|done]]. unfold failure.
    destruct (delete_resctrl_subdirectory p v) as [[[]|e|] v1] eqn:H; [|done..].
    intros [= <-]. by apply delete_dirs. }
  destruct (Hdel m w w1 Hh H1) as [Hd1 Hr1].
  destruct (Hdel d w1 w') as [Hd2 _]; [intros n p; rewrite Hr1; apply Hh| |by rewrite Hd2, Hd1].
  destruct d; [done|]. by rewrite bool_decide_eq_false_2 in H2 by auto.
Qed.

(** What is left of Intel RDT when a container was set up and cleaned up.  Nothing
    that the setup made remains, except a group that is named by a closID, which the
    specification leaves in place.  The monitoring directory is removed in any case,
    also when it was there before and the setup did not make it. *)
Theorem rdt_cleanup_restores cid pid cfg mp w d m w1 w2 :
  honest w → (find_resctrl_mount_point w).1 = Ok mp →
  setup_intel_rdt (Some cid) pid cfg w = (Ok (d, m), w1) →
  cleanup_intel_rdt d m None cid w1 = (Ok (), w2) →
  let dir := group_dir mp cid cfg in
  dirs w2 = ((if bool_decide (is_Some (rdt_clos_id cfg)) && negb (exists_ dir w) then {[dir]} else ∅) ∪ dirs w)
            ∖ mon_dirs m.
Proof.
  intros Hh Hmp Hs Hc dir. destruct (setup_dirs _ _ _ _ _ _ _ _ Hh Hmp Hs) as (Hd & _ & Hdirs & Hr).
  assert (honest w1) as Hh1 by (intros n p; rewrite Hr; apply Hh).
  rewrite (cleanup_dirs d m None cid w1 w2 Hh1 ltac:(intros _; discriminate) Hc), Hdirs, Hd. fold dir.
  assert (exists_ dir w = false → dir ∉ dirs w) as Hnew.
  { unfold exists_. intros [Hn _]%orb_false_iff. by apply bool_decide_eq_false in Hn. }
  destruct (bool_decide (is_Some (rdt_clos_id cfg))), (exists_ dir w); cbn; set_solver.
Qed.

(** The deletion by container id, which old state files need, cannot be led astray.
    Whatever the id is, it removes at most one directory, and only one that lies directly
    below the mount point of the resource control file system. *)
Theorem delete_by_id_confined id w :
  let w' := (delete_resctrl_subdirectory_by_id id w).2 in
  files w' = files w ∧
  (dirs w' = dirs w ∧ journal w' = journal w ∨
   ∃ mp p, (find_resctrl_mount_point w).1 = Ok mp ∧ parent p = Some mp ∧
     dirs w' = dirs w ∖ {[p]} ∧ journal w' = journal w ++ [OpRmdir p]).
Proof.
  cbn zeta. unfold delete_resctrl_subdirectory_by_id, mbind, io_bind.
  destruct (find_resctrl_mount_point w) as [[mp|e|] w0] eqn:Hf; injection Hf as Hmp <-; [|by auto..].
  unfold delete_below. destruct (canonicalize w _) as [e|p]; [by auto|].
  destruct (parent p) as [q|] eqn:Hp; [|by auto]. case_bool_decide; [subst q|by auto].
  destruct (exists_ p w); [|by auto]. cbn [andb].
  unfold delete_resctrl_subdirectory, os_remove_dir, attempt, act, mbind, io_bind.
  destruct (refuse _ _ _); [by auto|]. case_bool_decide; [|by auto].
  split; [done|]. right. by exists mp, p.
Qed.

(** ** Sharing a group *)

(** A world without failures, where a file holds what was last written to it and every
    directory below [mp] has its interface files. *)
Definition plain (w : fs) : Prop :=
  (∀ n op, refuse w n op = None) ∧ (∀ n p d m, kernel w n p d m = <[p := d]> m) ∧
  "tasks" ∈ iface w ∧ "schemata" ∈ iface w.

(** [m] succeeds with [a] and leads to these directories and files. *)
Definition leads {E A} (m : io fs E A) (w : fs) (a : A) (ds : gset Path) (fl : gmap Path string) : Prop :=
  ∃ w', m w = (Ok a, w') ∧ plain w' ∧ iface w' = iface w ∧ dirs w' = ds ∧ files w' = fl.

Lemma leads_bind {E A B} (m : io fs E A) (f : A → io fs E B) w a ds fl b ds' fl' :
  leads m w a ds fl → (∀ w', plain w' → iface w' = iface w → dirs w' = ds → files w' = fl → leads (f a) w' b ds' fl') →
  leads (m ≫= f) w b ds' fl'.
Proof.
  intros (w1 & Hm & Hp & Hi & Hd & Hf) Hnext. destruct (Hnext w1 Hp Hi Hd Hf) as (w2 & H2 & ? & Hi2 & ? & ?).
  exists w2. rewrite (io_bind_run _ _ _ _ _ Hm), H2. split_and!; [done..|congruence|done|done].
Qed.

Lemma leads_map_err {E F A} (f : E → F) (m : io fs E A) w a ds fl :
  leads m w a ds fl → leads (io_map_err f m) w a ds fl.
Proof. intros (w' & Hm & H). exists w'. unfold io_map_err. by rewrite Hm. Qed.

Lemma leads_ret {E A} (a : A) w ds fl :
  plain w → dirs w = ds → files w = fl → leads (mret a : io fs E A) w a ds fl.
Proof. intros Hp. by exists w. Qed.

Lemma leads_eq {E A} (m : io fs E A) w a ds fl ds' fl' :
  leads m w a ds fl → ds = ds' → fl = fl' → leads m w a ds' fl'.
Proof. by intros ? -> ->. Qed.

Lemma leads_if_exists {E A} p (m1 m2 : io fs E A) w a ds fl :
  leads (if exists_ p w then m1 else m2) w a ds fl → leads (if_exists p m1 m2) w a ds fl.
Proof. unfold leads, if_exists. by destruct (exists_ p w). Qed.

Lemma leads_open p w : plain w → is_Some (files w !! p) → leads (os_open p) w () (dirs w) (files w).
Proof.
  intros Hp Hf. exists (tick w). unfold os_open, attempt, act, mbind, io_bind.
  rewrite (proj1 Hp). cbn. by rewrite bool_decide_eq_true_2.
Qed.

Lemma leads_write p d w : plain w → leads (os_write p d) w () (dirs w) (<[p := d]> (files w)).
Proof.
  intros (Hr & Hk & Hi). eexists. unfold os_write, attempt, act, mbind, io_bind. rewrite Hr.
  split; [reflexivity|]. by split_and!; cbn.
Qed.

Lemma leads_read p d w : plain w → files w !! p = Some d → leads (os_read p) w d (dirs w) (files w).
Proof.
  intros Hp Hf. exists (tick w). unfold os_read, attempt, act, mbind, io_bind. rewrite (proj1 Hp). cbn. by rewrite Hf.
Qed.

Lemma leads_write_pid dir pid f g w :
  plain w → is_Some (files w !! join_name_of dir "tasks") →
  leads (write_pid_to_tasks dir pid f g) w () (dirs w) (<[join_name_of dir "tasks" := pretty pid]> (files w)).
Proof.
  intros Hp Hf. eapply leads_bind; [by apply leads_map_err, leads_open|].
  intros w' Hp' _ <- <-. by apply leads_map_err, leads_write.
Qed.

(** The files of a new directory. *)
Definition populate (dir : Path) (names : list string) (fl : gmap Path string) : gmap Path string :=
  foldr (λ n m, <[join dir [Normal n] := ""]> m) fl names.

Lemma populate_lookup dir names fl n : n ∈ names → is_Some (populate dir names fl !! join dir [Normal n]).
Proof.
  induction names as [|n' names IH]; intros Hn; [by apply not_elem_of_nil in Hn|]. cbn.
  destruct (decide (join dir [Normal n'] = join dir [Normal n])) as [->|Hne]; [by rewrite lookup_insert_eq|].
  rewrite lookup_insert_ne by done. apply elem_of_cons in Hn as [->|]; [done|auto].
Qed.

Lemma leads_create_dir_all k p w :
  plain w → exists_ p w = false →
  leads (create_dir_all k p) w () ({[p]} ∪ dirs w) (populate p (iface w) (files w)).
Proof.
  intros Hp Hne.
  assert (os_create_dir p w = (Ok (), record (OpMkdir p) ({[p]} ∪ dirs w) (populate p (iface w) (files w)) (tick w))) as H.
  { unfold os_create_dir, attempt, act, mbind, io_bind. rewrite (proj1 Hp). cbn.
    change (exists_ p (tick w)) with (exists_ p w). by rewrite Hne. }
  eexists. split; [destruct k; cbn; rewrite H; reflexivity|]. done.
Qed.

Lemma leads_new_group dir pid w :
  plain w → exists_ dir w = false →
  leads (setup_resctrl_group dir pid false) w true ({[dir]} ∪ dirs w)
    (<[join_name_of dir "tasks" := pretty pid]> (populate dir (iface w) (files w))).
Proof.
  intros Hp Hne. eapply (leads_bind _ _ _ true).
  - apply leads_if_exists. rewrite Hne.
    eapply leads_bind; [by apply leads_map_err, leads_create_dir_all|]. intros. by apply leads_ret.
  - intros w' Hp' Hi Hd Hf. eapply leads_bind.
    { apply leads_write_pid; [done|]. rewrite Hf. apply populate_lookup, Hp. }
    intros w'' Hp'' _ Hd'' Hf''. apply leads_ret; [done|congruence..].
Qed.

Lemma leads_old_group dir pid b w :
  plain w → exists_ dir w = true → is_Some (files w !! join_name_of dir "tasks") →
  leads (setup_resctrl_group dir pid b) w false (dirs w) (<[join_name_of dir "tasks" := pretty pid]> (files w)).
Proof.
  intros Hp He Ht. eapply (leads_bind _ _ _ false); [apply leads_if_exists; rewrite He; by apply leads_ret|].
  intros w' Hp' _ Hd Hf. eapply leads_bind; [apply leads_write_pid; [done|by rewrite Hf]|].
  intros w'' Hp'' _ Hd'' Hf''. apply leads_ret; [done|congruence..].
Qed.

Lemma has_schemata_data cfg s : get_schemata_data cfg = Some s → has_schemata cfg = true.
Proof.
  unfold get_schemata_data, has_schemata, combine_l3_cache_and_mem_bw_schemas.
  destruct (l3_cache_schema cfg), (mem_bw_schema cfg), (schemata cfg) as [[|? ?]|]; done.
Qed.

Lemma leads_setup mp cfg id c pid w created ds fl ds' fl' :
  (∀ w', find_resctrl_mount_point w' = (Ok mp, w')) →
  rdt_clos_id cfg = Some id → default false (enable_monitoring cfg) = false → has_schemata cfg = true → plain w →
  leads (setup_resctrl_group (join_name_of mp id) pid false) w created ds fl →
  (∀ w', plain w' → iface w' = iface w → dirs w' = ds → files w' = fl →
    leads (write_resctrl_schemata mp id cfg true created) w' () ds' fl') →
  leads (setup_intel_rdt (Some c) pid cfg) w (None, None) ds' fl'.
Proof.
  intros Hfind Hid Hmon Hhas Hw Hgroup Hwrite. unfold setup_intel_rdt.
  destruct Hgroup as (w1 & Hg & Hp1 & Hi1 & Hd1 & Hf1).
  destruct (Hwrite w1 Hp1 Hi1 Hd1 Hf1) as (w2 & Hs & Hp2 & Hi2 & Hd2 & Hf2).
  exists w2. rewrite (io_bind_run _ _ _ _ _ (Hfind w)). cbn [ok_or]. rewrite io_bind_pure, Hid, Hhas, Hmon.
  cbn [default negb andb]. rewrite bool_decide_eq_true_2 by eauto.
  rewrite (io_bind_run _ _ _ _ _ Hg), (io_bind_run _ _ _ _ _ Hs). split_and!; [done..|congruence|done|done].
Qed.

(** A closID can be shared.  In a world without failures, a container that names a
    closID whose group does not exist makes the group and writes its schemata; a second
    container with the same configuration finds the schemata unchanged and joins the
    group.  Neither marks the group for removal. *)
Theorem closid_shared mp cfg id s ls c1 c2 pid1 pid2 w :
  plain w → (∀ w', find_resctrl_mount_point w' = (Ok mp, w')) →
  rdt_clos_id cfg = Some id → default false (enable_monitoring cfg) = false →
  exists_ (join_name_of mp id) w = false →
  get_schemata_data cfg = Some s → parse_lines (lines s) = Ok ls → last (chars s) ≠ Some CR →
  ∃ w1 w2,
    setup_intel_rdt (Some c1) pid1 cfg w = (Ok (None, None), w1) ∧
    setup_intel_rdt (Some c2) pid2 cfg w1 = (Ok (None, None), w2) ∧
    files w2 !! join_name_of (join_name_of mp id) "tasks" = Some (pretty pid2) ∧
    files w2 !! join_name_of (join_name_of mp id) "schemata" = Some (s +:+ newline).
Proof.
  intros Hw Hfind Hid Hmon Hnew Hs Hls Hcr. pose proof (has_schemata_data cfg s Hs) as Hhas.
  set (dir := join_name_of mp id) in *.
  assert (join_name_of dir "schemata" ≠ join_name_of dir "tasks") as Hne.
  { unfold join_name_of. cbn [components]. change (components "tasks") with [Normal "tasks"].
    change (components "schemata") with [Normal "schemata"]. rewrite !join_name. by intros ?%(inj _). }
  assert (leads (setup_intel_rdt (Some c1) pid1 cfg) w (None, None) ({[dir]} ∪ dirs w)
            (<[join_name_of dir "schemata" := s +:+ newline]>
              (<[join_name_of dir "tasks" := pretty pid1]> (populate dir (iface w) (files w)))))
    as (w1 & H1 & Hp1 & Hi1 & Hd1 & Hf1).
  { eapply leads_setup; [done..|by apply leads_new_group|]. intros w' Hp' Hi' Hd' Hf'.
    unfold write_resctrl_schemata. rewrite Hs. cbn [andb negb]. fold dir.
    eapply leads_bind; [apply leads_map_err, leads_open; [done|]|].
    { rewrite Hf', lookup_insert_ne by done. apply populate_lookup, Hw. }
    intros w'' Hp'' _ Hd'' Hf''. eapply leads_eq; [by apply leads_map_err, leads_write|by rewrite Hd'', Hd'|].
    by rewrite Hf'', Hf'. }
  assert (leads (setup_intel_rdt (Some c2) pid2 cfg) w1 (None, None) (dirs w1)
            (<[join_name_of dir "tasks" := pretty pid2]> (files w1))) as (w2 & H2 & _ & _ & _ & Hf2).
  { eapply leads_setup; [done..| |].
    - apply leads_old_group; [done| |].
      + unfold exists_. by rewrite bool_decide_eq_true_2 by (rewrite Hd1; set_solver).
      + rewrite Hf1, lookup_insert_ne, lookup_insert_eq by done. eauto.
    - intros w' Hp' _ Hd' Hf'. unfold write_resctrl_schemata. rewrite Hs. cbn [andb negb]. fold dir.
      eapply leads_bind.
      { apply leads_map_err, leads_read; [done|]. by rewrite Hf', lookup_insert_ne, Hf1, lookup_insert_eq. }
      intros w'' Hp'' _ Hd'' Hf''. rewrite (is_same_schema_newline s ls) by done.
      apply leads_ret; [done|by rewrite Hd'', Hd'|by rewrite Hf'', Hf']. }
  exists w1, w2. split_and!; [done..| |]; rewrite Hf2; [by rewrite lookup_insert_eq|].
  by rewrite lookup_insert_ne, Hf1, lookup_insert_eq.
Qed.
End rdt.

(** ** Examples *)

(** The expressions match everything and find one domain; the file system is mounted on
    [/sys/fs/resctrl]. *)
Definition example_match : string → string → bool := λ _ _, true.
Definition example_captures : string → string → list (option string * option string) :=
  λ _ _, [(Some "0", Some "ff")].
Definition example_mountinfo : IntelRdtError + list (IoError + string) := inr [inr "resctrl"].
Definition example_from_line : string → option (Path * string) :=
  λ s, Some (components "/sys/fs/resctrl", s).
Definition example_canonicalize : fs → Path → IoError + Path := λ _ p, inr p.

Definition example_fs : fs :=
  MkFs {[components "/sys/fs/resctrl"]} ∅ [] 0 (λ _ _, None) (λ _ p d m, <[p := d]> m) ["tasks"; "schemata"].

Definition example_rdt (clos_id : option string) (mon : bool) : LinuxIntelRdt :=
  MkIntelRdt clos_id (Some "L3:0=ff") None None (Some mon).

Definition example_setup (clos_id : option string) (mon : bool) (cid : string) (pid : Z) : R (option Path * option Path) :=
  setup_intel_rdt example_match example_captures (λ _, true) example_mountinfo example_from_line
    example_canonicalize (Some cid) pid (example_rdt clos_id mon).

Definition example_dir : Path := components "/sys/fs/resctrl/c1".
Definition example_mon : Path := components "/sys/fs/resctrl/c1/mon_groups/c1".

Definition example_cleanup : io fs (list IntelRdtError) () :=
  cleanup_intel_rdt example_mountinfo example_from_line example_canonicalize (Some example_dir)
    (Some example_mon) None "c1".

Lemma example_setup_result : (example_setup None true "c1" 42 example_fs).1 = Ok (Some example_dir, Some example_mon).
Proof. vm_compute. reflexivity. Qed.

Lemma example_cleanup_result : (example_cleanup (example_setup None true "c1" 42 example_fs).2).1 = Ok ().
Proof. vm_compute. reflexivity. Qed.

Lemma example_honest : honest example_fs.
Proof. intros n p. by split. Qed.

Lemma run_eta {E A} (r : outcome E A * fs) a : r.1 = Ok a → r = (Ok a, r.2).
Proof. destruct r. by intros [= ->]. Qed.

Lemma rdt_cleanup_restores_witness :
  ∃ w1 w2, example_setup None true "c1" 42 example_fs = (Ok (Some example_dir, Some example_mon), w1) ∧
    example_cleanup w1 = (Ok (), w2) ∧ dirs w2 = dirs example_fs ∖ {[example_mon]}.
Proof.
  pose proof (run_eta _ _ example_setup_result) as Hs. pose proof (run_eta _ _ example_cleanup_result) as Hc.
  do 2 eexists. split; [exact Hs|]. split; [exact Hc|].
  rewrite (rdt_cleanup_restores example_match example_captures (λ _, true) example_mountinfo example_from_line
            example_canonicalize "c1" 42 (example_rdt None true) (components "/sys/fs/resctrl") example_fs
            (Some example_dir) (Some example_mon) _ _
            example_honest eq_refl Hs Hc).
  set_solver.
Defined.

Lemma example_plain : plain example_fs.
Proof. split_and!; [done..|apply list_elem_of_here|apply list_elem_of_further, list_elem_of_here]. Qed.

Lemma example_parsed :
  parse_lines example_match example_captures (λ _, true) (lines "L3:0=ff") = Ok [MkParsed L3Line {["0" := "ff"]}].
Proof. vm_compute. reflexivity. Qed.

Lemma example_no_gold : exists_ (join_name_of (components "/sys/fs/resctrl") "gold") example_fs = false.
Proof. vm_compute. reflexivity. Qed.

Lemma example_last : last (chars "L3:0=ff") ≠ Some CR.
Proof. by vm_compute. Qed.

Lemma closid_shared_witness :
  ∃ w1 w2, example_setup (Some "gold") false "c1" 42 example_fs = (Ok (None, None), w1) ∧
    example_setup (Some "gold") false "c2" 43 w1 = (Ok (None, None), w2).
Proof.
  destruct (closid_shared example_match example_captures (λ _, true) example_mountinfo example_from_line
              example_canonicalize (components "/sys/fs/resctrl") (example_rdt (Some "gold") false) "gold" "L3:0=ff"
              [MkParsed L3Line {["0" := "ff"]}] "c1" "c2" 42 43 example_fs example_plain (λ _, eq_refl) eq_refl eq_refl
              example_no_gold eq_refl example_parsed example_last) as (w1 & w2 & H1 & H2 & _).
  exists w1, w2. split; [exact H1|exact H2].
Defined.
