(* ===== verification/Builders.v ===== *)
(** * Builders: creating a container

    Models [container/builder.rs], [builder_impl.rs] and [init_builder.rs] of
    [libcontainer]: identifiers, the checks before anything is created, the directory and
    the state of a new container, the arguments of the main process, and the clean-up of
    a creation that failed.  The world is the list of the calls made so far (see [Calls]).
    The main process itself is modelled in [Processes], the setup of Intel RDT in
    [IntelRdt], the validation in [Validator]. *)
From S2P Require Import Prelude Text Paths Calls Utils Spec Validator Capabilities MountOptions.
From S2P Require Lifecycle.
Local Open Scope string_scope.
Local Open Scope list_scope.
Local Open Scope Z_scope.

(** ** The configuration

    The sections of the runtime specification that the builders read or change; [spec_of]
    is the part that the validation and the processes see. *)

Record ProcessConfig : Type := MkProcessConfig {
  p_base : Process; p_env : option (list string); p_args : option (list string);
  p_capabilities : option LinuxCapabilities; p_oom_score_adj : option Z }.

Record LinuxConfig : Type := MkLinuxConfig {
  l_base : Linux; l_cgroups_path : option Path; l_intel_rdt : bool }.

Record Config : Type := MkConfiguration {
  cfg_version : string; cfg_process : option ProcessConfig; cfg_linux : option LinuxConfig;
  cfg_root : option Path; cfg_root_readonly : option bool; cfg_hooks : bool;
  cfg_mounts : option (list Mount); cfg_hostname : option string; cfg_domainname : option string;
  cfg_annotations : option (list (string * string)) }.

Definition spec_of (c : Config) : Spec :=
  MkSpec (l_base <$> cfg_linux c) (p_base <$> cfg_process c) (cfg_root_readonly c) (cfg_hooks c)
         (cfg_mounts c) (cfg_hostname c) (cfg_domainname c).

Definition set_root (r : Path) (c : Config) : Config :=
  MkConfiguration (cfg_version c) (cfg_process c) (cfg_linux c) (Some r) (cfg_root_readonly c) (cfg_hooks c)
    (cfg_mounts c) (cfg_hostname c) (cfg_domainname c) (cfg_annotations c).

Definition set_mounts (ms : list Mount) (c : Config) : Config :=
  MkConfiguration (cfg_version c) (cfg_process c) (cfg_linux c) (cfg_root c) (cfg_root_readonly c) (cfg_hooks c)
    (Some ms) (cfg_hostname c) (cfg_domainname c) (cfg_annotations c).

(** ** State and arguments *)

(** The state of a container with its directory; the time of creation is left out. *)
Record Container : Type := MkContainer {
  c_id : string; c_status : Lifecycle.ContainerStatus; c_pid : option Z; c_creator : option Z;
  c_systemd : bool; c_bundle : Path; c_annotations : option (list (string * string));
  c_rdt_dir : option Path; c_rdt_monitoring_dir : option Path; c_rdt_clean_up : option bool;
  c_root : Path }.

Record CgroupConfig : Type := MkCgroupConfig {
  cgroup_path : Path; systemd_cgroup : bool; container_name : string }.

Inductive ContainerType : Type := InitContainer | TenantContainer (exec_notify_fd : Z).

(** [ContainerArgs] without the objects for system calls and execution. *)
Record ContainerArgs : Type := MkContainerArgs {
  a_type : ContainerType; a_spec : Config; a_rootfs : Path; a_console_socket : option Z;
  a_notify : Path; a_preserve_fds : Z; a_container : option Container;
  a_user_ns : option UserNs.UserNamespaceConfig; a_cgroup : CgroupConfig; a_detached : bool;
  a_no_pivot : bool; a_as_sibling : bool; a_pid_file : option Path;
  a_stdin : option Z; a_stdout : option Z; a_stderr : option Z }.

(** ** Calls

    [Stat] is [Path::exists]; [CanonicalizeRootfs] is a method of the [oci_spec] crate.
    The last group is made by the builder of a process in an existing container. *)
Inductive call : Type :=
  | Stat (p : Path) | Canonical (p : Path) | CreateDirAll (p : Path) | RemoveDirAll (p : Path)
  | LoadSpec (p : Path) | CanonicalizeRootfs (bundle : Path) | SaveConfig (dir cgroup : Path)
  | SaveState (c : Container) | LoadState (dir : Path)
  | ConsoleSocket (dir socket : Path) (name : string) | Listen (p : Path)
  | OpenOomScore | WriteOomScore (s : string) | SetDumpable (b : bool)
  | RunMain (a : ContainerArgs)
  | SetupRdt (id : option string) (pid : Z)
  | CleanupRdt (dir mon : option Path) (clean_up : option bool) (id : string)
  | CreateManager (c : CgroupConfig) | RemoveCgroup
  | ReadProcess (p : Path) | OpenProc (pid : Z) | ReadNamespaces (pid : Z) | LoadConfig (dir : Path)
  | Pipe | NotifyStart (p : Path) | CloseWriteEnd | ReadPipe.

Abbreviation event := (call * option Z)%type.

Inductive BuildSpecError : Type :=
  UnsupportedVersion | ConsoleSocketRequired | InvalidConsoleSocket | AppArmorNotEnabled | Invalid (e : ErrInvalidSpec).

Inductive ErrInvalidID : Type := EmptyId | FileName | InvalidChars (c : ascii).

(** [LibcontainerError]; [Failed c n] stands for the variant that wraps the error [n] of
    the call [c], and [OtherBytes] for [Other] with the text that [from_utf8_lossy] makes. *)
#[warnings="-register-all"]
Inductive BuildError : Type :=
  | Exist | NoDirectory
  | IncorrectStatus (s : Lifecycle.ContainerStatus)
  | InvalidInput (what : string)
  | InvalidID (e : ErrInvalidID)
  | MissingSpec (field : string)
  | InvalidSpec (e : BuildSpecError)
  | UserNamespace (e : UserNs.UserNamespaceError)
  | ConfigFailed (e : ConfigError)
  | UnknownCapability (name : string)
  | OtherIO (errno : Z) | OtherCgroup (msg : string) | Other (msg : string)
  | OtherBytes (text : list byte)
  | Failed (c : call) (errno : Z)
  | CreateContainerError (outer : BuildError) (cleanup : option BuildError).

Abbreviation B := (io (list event) BuildError).

(** What the system answers without being changed.  [main_result] is the process
    identifier and the terminal of a started process, [rdt_result] the directories of
    Intel RDT; [canonical] resolves a path and [rootfs_of] what [canonicalize_rootfs] sets. *)
Record host : Type := MkHost {
  spec_at : Path → Config; canonical : Path → Path; rootfs_of : Config → Path → Path;
  euid : Z; uid_map : Z + string; validator_env : Validator.env;
  apparmor_enabled : Z + string; path_env : option string; binary_exists : Path → bool;
  own_cgroups : CgroupPathError + list (Z * string);
  console_fd : Path → Z; main_result : ContainerArgs → Z * option Z;
  rdt_result : Z → option Path * option Path; state_at : Path → Container }.

(** ** [builder.rs] *)

Record ContainerBuilder : Type := MkBuilder {
  container_id : string; root_path : Path; pid_file : option Path; console_socket : option Path;
  preserve_fds : Z; stdin : option Z; stdout : option Z; stderr : option Z }.

(** [ContainerBuilder::new] *)
Definition builder_new (id : string) : ContainerBuilder :=
  MkBuilder id [RootDir; Normal "run"; Normal "youki"] None None 0 None None None.

Definition in_range (a b c : ascii) : bool :=
  (nat_of_ascii a <=? nat_of_ascii c)%nat && (nat_of_ascii c <=? nat_of_ascii b)%nat.

Definition id_char (c : ascii) : bool :=
  in_range "a" "z" c || in_range "A" "Z" c || in_range "0" "9" c
  || bool_decide (c = "_"%char) || bool_decide (c = "+"%char) || bool_decide (c = "-"%char)
  || bool_decide (c = "."%char).

(** A character outside ASCII is reported by its first byte. *)
Definition validate_id (container_id : string) : outcome ErrInvalidID () :=
  if bool_decide (container_id = "") then Err EmptyId
  else if bool_decide (container_id = ".") || bool_decide (container_id = "..") then Err FileName
  else for_each (λ c _, if id_char c then Ok () else Err (InvalidChars c)) (chars container_id) ().

Definition with_root_path (fs : path_info) (path : Path) (b : ContainerBuilder) : outcome BuildError ContainerBuilder :=
  p ← map_err (λ _, InvalidInput "invalid root path") (canonicalize_safely fs path);
  Ok (MkBuilder (container_id b) p (pid_file b) (console_socket b) (preserve_fds b) (stdin b) (stdout b) (stderr b)).

Definition with_pid_file (fs : path_info) (path : option Path) (b : ContainerBuilder) :
    outcome BuildError ContainerBuilder :=
  p ← match path with
      | Some path =>
          p ← map_err (λ _, InvalidInput "invalid pid file path") (canonicalize_safely fs path); Ok (Some p)
      | None => Ok None
      end;
  Ok (MkBuilder (container_id b) (root_path b) p (console_socket b) (preserve_fds b) (stdin b) (stdout b) (stderr b)).

Definition check_terminal (b : ContainerBuilder) (spec : Config) (detached : bool) : outcome BuildError () :=
  let terminal := default false (cfg_process spec ≫= (terminal ∘ p_base)) in
  let has_console_socket := bool_decide (is_Some (console_socket b)) in
  let requires_console_socket := detached && terminal in
  if requires_console_socket && negb has_console_socket then Err (InvalidSpec ConsoleSocketRequired)
  else if negb requires_console_socket && has_console_socket then Err (InvalidSpec InvalidConsoleSocket)
  else Ok ().

(** ** [builder_impl.rs] *)

Record ContainerBuilderImpl : Type := MkImpl {
  b_container_type : ContainerType; b_use_systemd : bool; b_container_id : string; b_spec : Config;
  b_rootfs : Path; b_pid_file : option Path; b_console_socket : option Z;
  b_user_ns_config : option UserNs.UserNamespaceConfig; b_notify_path : Path;
  b_container : option Container; b_preserve_fds : Z; b_detached : bool; b_no_pivot : bool;
  b_stdin : option Z; b_stdout : option Z; b_stderr : option Z; b_as_sibling : bool;
  b_cgroup_path : Path; b_sub_cgroup_path : option string; b_process_label : option string }.

Definition path_starts_with (p base : Path) : bool := bool_decide (is_Some (strip_path_prefix base p)).

(** The cgroup of the process. *)
Definition final_cgroups_path (base : Path) (sub_cgroup_path : option string) : outcome BuildError Path :=
  match sub_cgroup_path with
  | Some sub =>
      if bool_decide (sub = "/") then Ok base
      else
        let potential_path := join base (components sub) in
        let normalized := normalize potential_path in
        if negb (path_starts_with normalized base) then Err (OtherCgroup (sub +:+ " is not a sub cgroup path"))
        else Ok normalized
  | None => Ok base
  end.

Definition is_init_container (b : ContainerBuilderImpl) : bool :=
  match b_container_type b with InitContainer => true | TenantContainer _ => false end.

Definition uses_systemd (b : ContainerBuilderImpl) : bool :=
  b_use_systemd b || bool_decide (is_Some (b_user_ns_config b)).

(** [set_status], [set_creator], [set_pid] and the directories of Intel RDT *)
Definition set_created (uid pid : Z) (rdt : option Path * option Path) (c : Container) : Container :=
  MkContainer (c_id c) Lifecycle.Created (Some pid) (Some uid) (c_systemd c) (c_bundle c)
    (c_annotations c) rdt.1 rdt.2 (c_rdt_clean_up c) (c_root c).

(** A path as text. *)
Definition component_display (c : Component) : string :=
  match c with RootDir => "" | CurDir => "." | ParentDir => ".." | Normal n => n end.

Definition path_display (p : Path) : string :=
  if bool_decide (p = [RootDir]) then "/" else String.concat "/" (component_display <$> p).

Section builders.
Context (h : host) (sys : list event → call → option Z).

Definition step (c : call) : B () := do sys c (Failed c).

Definition exists_ (p : Path) : B bool :=
  r ← attempt (step (Stat p));
  match r with inl _ => mret false | inr _ => mret true end.

Definition container_args (b : ContainerBuilderImpl) (cgroup_config : CgroupConfig) : ContainerArgs :=
  MkContainerArgs (b_container_type b) (b_spec b) (b_rootfs b) (b_console_socket b) (b_notify_path b)
    (b_preserve_fds b) (b_container b) (b_user_ns_config b) cgroup_config (b_detached b) (b_no_pivot b)
    (b_as_sibling b) (b_pid_file b) (b_stdin b) (b_stdout b) (b_stderr b).

Definition set_oom_score (p : ProcessConfig) : B () :=
  match p_oom_score_adj p with
  | Some n => _ ← step OpenOomScore; step (WriteOomScore (pretty n))
  | None => mret ()
  end.

Definition setup_rdt (b : ContainerBuilderImpl) (pid : Z) : B (option Path * option Path) :=
  if from_option l_intel_rdt false (cfg_linux (b_spec b))
  then _ ← step (SetupRdt (c_id <$> b_container b) pid); mret (rdt_result h pid)
  else mret (None, None).

(** [run_container] up to the last change of the container. *)
Definition start_process (b : ContainerBuilderImpl) : B (Z * option Z * (option Path * option Path)) :=
  linux ← pure (ok_or (cfg_linux (b_spec b)) (MissingSpec "linux"));
  final ← pure (final_cgroups_path (b_cgroup_path b) (b_sub_cgroup_path b));
  process ← pure (ok_or (cfg_process (b_spec b)) (MissingSpec "process"));
  _ ← step (Listen (b_notify_path b));
  _ ← set_oom_score process;
  _ ← (if bool_decide (is_Some (namespaces (l_base linux))) then step (SetDumpable false) else mret ());
  let args := container_args b (MkCgroupConfig final (uses_systemd b) (b_container_id b)) in
  _ ← step (RunMain args);
  let '(init_pid, foreground_pty_fd) := main_result h args in
  rdt ← setup_rdt b init_pid;
  mret (init_pid, foreground_pty_fd, rdt).

Definition save_container (container : option Container) : B () :=
  match container with Some c => step (SaveState c) | None => mret () end.

(** The result comes with the container as the function leaves it in [self]. *)
Definition run_container (b : ContainerBuilderImpl) : B (option Container * (BuildError + Z * option Z)) :=
  r ← attempt (start_process b);
  match r with
  | inl e => mret (b_container b, inl e)
  | inr (init_pid, foreground_pty_fd, rdt) =>
      let container := set_created (euid h) init_pid rdt <$> b_container b in
      r ← attempt (save_container container);
      mret (container, match r with inl e => inl e | inr _ => inr (init_pid, foreground_pty_fd) end)
  end.

(** An error of the clean-up is noted and the next step taken. *)
Definition try_step (c : call) (errors : list call) : B (list call) :=
  r ← attempt (step c);
  match r with inl _ => mret (errors ++ [c]) | inr _ => mret errors end.

Definition cleanup_container (b : ContainerBuilderImpl) (container : option Container) : B () :=
  _ ← step (CreateManager (MkCgroupConfig (b_cgroup_path b) (uses_systemd b) (b_container_id b)));
  errors ← try_step RemoveCgroup [];
  errors ← match container with
    | Some c =>
        errors ← try_step (CleanupRdt (c_rdt_dir c) (c_rdt_monitoring_dir c) (c_rdt_clean_up c) (c_id c)) errors;
        there ← exists_ (c_root c);
        if (there : bool) then try_step (RemoveDirAll (c_root c)) errors else mret errors
    | None => mret errors
    end;
  if bool_decide (length errors = 0%nat) then mret () else pure (Err (Other "failed to cleanup container")).

Definition create (b : ContainerBuilderImpl) : B (Z * option Z) :=
  '(container, r) ← run_container b;
  match r with
  | inr ret => mret ret
  | inl outer =>
      if is_init_container b then
        cleaned ← attempt (cleanup_container b container);
        pure (Err (CreateContainerError outer (match cleaned with inl e => Some e | inr _ => None end)))
      else pure (Err (CreateContainerError outer None))
  end.

(** ** [init_builder.rs] *)

Record InitContainerBuilder : Type := MkInit {
  base : ContainerBuilder; bundle : Path; use_systemd : bool; detached : bool; no_pivot : bool;
  as_sibling : bool }.

(** [InitContainerBuilder::new] *)
Definition init_new (b : ContainerBuilder) (bundle : Path) : InitContainerBuilder :=
  MkInit b bundle true true false false.

Definition validate_version (v : string) : outcome BuildError () :=
  if starts_with "1." v then Ok () else Err (InvalidSpec UnsupportedVersion).

Definition init_validate_spec (spec : Config) : outcome BuildError () :=
  _ ← validate_version (cfg_version spec);
  is_rootless ← map_err OtherIO (rootless_required (euid h) (of_sum (uid_map h)));
  _ ← map_err (λ e, InvalidSpec (Invalid e)) (validate_spec (validator_env h) (spec_of spec) is_rootless);
  match cfg_process spec ≫= (apparmor_profile ∘ p_base) with
  | Some _ =>
      content ← map_err OtherIO (of_sum (apparmor_enabled h));
      if starts_with "Y" content then Ok () else Err (InvalidSpec AppArmorNotEnabled)
  | None => Ok ()
  end.

Definition resolve_mount (bundle : Path) (m : Mount) : Mount :=
  if negb (is_bind m) then m
  else match source m with
       | Some s =>
           if negb (has_root (components s)) then
             MkMount (destination m) (Some (path_display (normalize (join bundle (components s)))))
               (mount_typ m) (options m) (mount_uid_mappings m) (mount_gid_mappings m)
           else m
       | None => m
       end.

Definition resolve_relative_bind_sources (bundle : Path) (spec : Config) : B Config :=
  match cfg_mounts spec with
  | None => mret spec
  | Some mounts =>
      _ ← step (Canonical bundle);
      mret (set_mounts (resolve_mount (canonical h bundle) <$> mounts) spec)
  end.

Definition load_spec (ib : InitContainerBuilder) : B Config :=
  let source_spec_path := join (bundle ib) [Normal "config.json"] in
  _ ← step (LoadSpec source_spec_path);
  let spec := spec_at h source_spec_path in
  _ ← pure (init_validate_spec spec);
  _ ← step (CanonicalizeRootfs (bundle ib));
  resolve_relative_bind_sources (bundle ib) (set_root (rootfs_of h spec (bundle ib)) spec).

Definition create_container_dir (b : ContainerBuilder) : B Path :=
  let container_dir := join (root_path b) (components (container_id b)) in
  there ← exists_ container_dir;
  if (there : bool) then pure (Err Exist)
  else _ ← step (CreateDirAll container_dir); mret container_dir.

(** [Container::new] *)
Definition container_new (id : string) (status : Lifecycle.ContainerStatus) (pid : option Z)
    (bundle container_root : Path) : B Container :=
  _ ← step (Canonical container_root);
  _ ← step (Canonical bundle);
  mret (MkContainer id status pid None false (canonical h bundle) None None None None
          (canonical h container_root)).

Definition create_container_state (ib : InitContainerBuilder) (container_dir : Path) : B Container :=
  container ← container_new (container_id (base ib)) Lifecycle.Creating None (bundle ib) container_dir;
  _ ← step (SaveState container);
  mret container.

(** [set_systemd] and [set_annotations] *)
Definition annotated (use_systemd : bool) (annotations : option (list (string * string))) (c : Container) : Container :=
  MkContainer (c_id c) (c_status c) (c_pid c) (c_creator c) use_systemd (c_bundle c) annotations
    (c_rdt_dir c) (c_rdt_monitoring_dir c) (c_rdt_clean_up c) (c_root c).

Definition setup_console (b : ContainerBuilder) (container_dir : Path) (name : string) : B (option Z) :=
  match console_socket b with
  | Some socket => _ ← step (ConsoleSocket container_dir socket name); mret (Some (console_fd h socket))
  | None => mret None
  end.

Definition rootless_opt : option bool :=
  match rootless_required (euid h) (of_sum (uid_map h)) with Ok r => Some r | _ => None end.

(** [refresh_state] *)
Definition refresh_state (c : Container) : B Container :=
  _ ← step (LoadState (c_root c));
  let s := state_at h (c_root c) in
  mret (MkContainer (c_id s) (c_status s) (c_pid s) (c_creator s) (c_systemd s) (c_bundle s) (c_annotations s)
          (c_rdt_dir s) (c_rdt_monitoring_dir s) (c_rdt_clean_up s) (c_root c)).

Definition init_impl (ib : InitContainerBuilder) (spec : Config) (rootfs notify_path cgroup_path : Path)
    (csocketfd : option Z) (user_ns_config : option UserNs.UserNamespaceConfig) (container : Container) :
    ContainerBuilderImpl :=
  MkImpl InitContainer (use_systemd ib) (container_id (base ib)) spec rootfs (pid_file (base ib)) csocketfd
    user_ns_config notify_path (Some container) (preserve_fds (base ib)) (detached ib) (no_pivot ib)
    (stdin (base ib)) (stdout (base ib)) (stderr (base ib)) (as_sibling ib) cgroup_path None None.

(** [build] from the creation of the directory on. *)
Definition build_in (ib : InitContainerBuilder) (spec : Config) (container_dir : Path) :
    B (Container * option Z) :=
  container ← create_container_state ib container_dir;
  let container := annotated (use_systemd ib) (cfg_annotations spec) container in
  let notify_path := join container_dir [Normal "notify.sock"] in
  root ← pure (ok_or (cfg_root spec) (MissingSpec "root"));
  _ ← step (Canonical root);
  csocketfd ← setup_console (base ib) container_dir "console-socket";
  user_ns_config ← pure (map_err UserNamespace
    (UserNs.user_ns_new (path_env h) (binary_exists h) rootless_opt (spec_of spec)));
  let systemd_cgroup := use_systemd ib || bool_decide (is_Some user_ns_config) in
  config ← pure (map_err ConfigFailed
    (from_spec_with_cgroup_manager (of_sum (own_cgroups h)) (if cfg_hooks spec then Some () else None)
       (l_cgroups_path <$> cfg_linux spec) (c_id container) systemd_cgroup));
  _ ← step (SaveConfig container_dir (cfg_cgroup_path config));
  '(_, foreground_pty_fd) ← create (init_impl ib spec (canonical h root) notify_path (cfg_cgroup_path config)
                                csocketfd user_ns_config container);
  container ← refresh_state container;
  mret (container, foreground_pty_fd).

Definition init_build (ib : InitContainerBuilder) : B (Container * option Z) :=
  spec ← load_spec ib;
  _ ← pure (check_terminal (base ib) spec (detached ib));
  container_dir ← create_container_dir (base ib);
  build_in ib spec container_dir.
End builders.

(** ** Identifiers *)

(** The documented form of an identifier. *)
Definition valid_id (id : string) : Prop :=
  id ≠ "" ∧ id ≠ "." ∧ id ≠ ".." ∧ Forall (λ c, id_char c = true) (chars id).

Lemma valid_id_name id : valid_id id → is_name id.
Proof.
  intros (H0 & H1 & H2 & Hc). split.
  - unfold piece_component. by rewrite !(bool_decide_eq_false_2 (id = _)).
  - intros Hin. rewrite Forall_forall in Hc. by specialize (Hc _ Hin).
Qed.

(** Identifiers.  [validate_id] accepts exactly the identifiers of the documented form,
    and the directory of a container with an accepted identifier is a child of the root
    directory: an identifier cannot lead out of it. *)
Theorem validate_id_spec id root :
  ok_iff (validate_id id) (valid_id id) ∧
  (validate_id id = Ok () → join root (components id) = root ++ [Normal id]).
Proof.
  assert (ok_iff (validate_id id) (valid_id id)) as Hok.
  { unfold validate_id, valid_id. case_bool_decide; [by intros (? & _)|].
    destruct (bool_decide_reflect (id = ".")); [by intros (_ & ? & _)|].
    destruct (bool_decide_reflect (id = "..")); [by intros (_ & _ & ? & _)|]. cbn.
    eapply ok_iff_mono; [|apply (ok_iff_for_each (λ c, id_char c = true))].
    - split; [|by intros (_ & _ & _ & ?)]. done.
    - intros c s _. by destruct (id_char c). }
  split; [done|]. intros Hv. rewrite Hv in Hok. cbn in Hok.
  rewrite components_name by (by apply valid_id_name). apply join_name.
Qed.

Lemma validate_id_spec_witness :
  join [RootDir; Normal "run"] (components "web-1.2") = [RootDir; Normal "run"; Normal "web-1.2"] ∧
  validate_id "../etc" = Err (InvalidChars "/"%char).
Proof.
  split; [|reflexivity].
  apply (proj2 (validate_id_spec "web-1.2" [RootDir; Normal "run"])). vm_compute. reflexivity.
Defined.

(** ** Sub-cgroups *)

#[local] Instance Normal_inj : Inj (=) (=) Normal.
Proof. by intros ?? [= ->]. Qed.

Lemma strip_path_prefix_Some base p rest : strip_path_prefix base p = Some rest → p = base ++ rest.
Proof.
  revert p. induction base as [|c base IH]; intros [|d p]; cbn; try done; [by intros [= ->]..|].
  case_decide; [|done]. subst. intros ?%IH. by subst.
Qed.

(** A cgroup at or below the one of the container; below it, without parent components. *)
Definition within (base p : Path) : Prop := ∃ rest, p = base ++ rest ∧ (rest = [] ∨ is_normal p).

Lemma final_within base sub p : final_cgroups_path base sub = Ok p → within base p.
Proof.
  unfold final_cgroups_path, path_starts_with. destruct sub as [sub|]; [|intros [= <-]; exists []; rewrite app_nil_r; auto].
  case_bool_decide; [intros [= <-]; exists []; rewrite app_nil_r; auto|].
  case_bool_decide as Hs; [|done]. intros [= <-]. destruct Hs as [rest Hr]. exists rest.
  split; [by apply strip_path_prefix_Some|right; apply normalize_is_normal].
Qed.

Lemma walk_skip_cur names q : walk names (filter (λ c, c ≠ CurDir) q) = walk names q.
Proof.
  revert names. induction q as [|c q IH]; intros names; [done|].
  rewrite filter_cons. case_decide as Hc; [apply IH|]. assert (c = CurDir) as -> by (by destruct (decide (c = CurDir))).
  apply IH.
Qed.

Lemma normalize_below names q :
  normalize (join (RootDir :: fmap Normal names) q) = RootDir :: fmap Normal (walk names q).
Proof.
  unfold join. destruct (has_root q) eqn:Hq.
  - rewrite normalize_names. unfold has_root in Hq. apply bool_decide_eq_true in Hq.
    destruct q as [|c q]; [done|]. injection Hq as ->. rewrite bool_decide_eq_true_2 by left. done.
  - rewrite bool_decide_eq_false_2 by done. change (RootDir :: fmap Normal names) with (root_of true ++ fmap Normal names).
    rewrite normal_walk, walk_skip_cur. done.
Qed.

(** Which sub-cgroups are accepted: those that lead, from the cgroup of the container, to
    a place at or below it. *)
Lemma sub_cgroup_accepted names sub :
  ok_iff (final_cgroups_path (RootDir :: fmap Normal names) (Some sub))
    (sub = "/" ∨ names `prefix_of` walk names (components sub)).
Proof.
  unfold final_cgroups_path, path_starts_with. case_bool_decide as Hs; [by left|]. rewrite normalize_below.
  change (strip_path_prefix (RootDir :: ?a) (RootDir :: ?b)) with (strip_path_prefix a b). case_bool_decide as Hp; cbn.
  - right. destruct Hp as [rest Hr%strip_path_prefix_Some].
    apply fmap_app_inv in Hr as (l1 & l2 & Heq & _ & ->). apply (inj (fmap Normal)) in Heq as ->. by exists l2.
  - intros [?|[l2 Hw]]; [done|]. apply Hp. rewrite Hw, fmap_app, strip_path_prefix_app. by eexists.
Qed.

(** ** Creating a container *)

Definition cleanup_call (c : call) : bool :=
  match c with CreateManager _ | RemoveCgroup | CleanupRdt _ _ _ _ | RemoveDirAll _ => true | _ => false end.

(** The calls that neither start a process nor save a state nor clean up. *)
Definition quiet (c : call) : bool :=
  match c with RunMain _ | SaveState _ => false | c => negb (cleanup_call c) end.

Definition all_quiet (t : list event) : Prop := Forall (λ ev, quiet ev.1 = true) t.
Definition no_cleanup (t : list event) : Prop := Forall (λ ev, cleanup_call ev.1 = false) t.

(** The processes that were asked for, and the states that were saved. *)
Definition mains (t : list event) : list ContainerArgs := omap (λ ev, match ev.1 with RunMain a => Some a | _ => None end) t.
Definition saves (t : list event) : list Container :=
  omap (λ ev, match ev with (SaveState c, None) => Some c | _ => None end) t.

(** Both, in their order. *)
Definition steps (t : list event) : list call :=
  omap (λ ev, match ev with
              | (SaveState c, None) => Some (SaveState c)
              | (RunMain a, _) => Some (RunMain a)
              | _ => None
              end) t.

Lemma quiet_nothing t : all_quiet t → no_cleanup t ∧ mains t = [] ∧ saves t = [].
Proof.
  induction 1 as [|[c r] t Hc _ (IH1 & IH2 & IH3)]; [by split_and!; [constructor|..]|].
  split_and!; [constructor; [|done]| |]; destruct c; cbn in *; done.
Qed.

Lemma steps_app t t' : steps (t ++ t') = steps t ++ steps t'.
Proof. apply omap_app. Qed.

Lemma steps_mains t : saves t = [] → steps t = RunMain <$> mains t.
Proof.
  unfold saves, steps, mains. induction t as [|[c r] t IH]; [done|]. intros H.
  destruct c; cbn in *; try by apply IH. - destruct r; [by apply IH|done]. - f_equal. by apply IH.
Qed.

Lemma quiet_steps t : all_quiet t → steps t = [].
Proof. intros (_ & Hm & Hs)%quiet_nothing. by rewrite steps_mains, Hm. Qed.

Definition quietly {A} (m : B A) : Prop := runs m (λ r t, all_quiet t ∧ r ≠ Panic).

(** [Q] does not mind quiet calls before. *)
Definition absorbs {A} (Q : outcome BuildError A → list event → Prop) : Prop :=
  ∀ r t t', all_quiet t → Q r t' → Q r (t ++ t').

Lemma runs_quietly {A A'} (m : B A) (f : A → B A') Q :
  quietly m → absorbs Q → (∀ e, Q (Err e) []) → (∀ a, runs (f a) Q) → runs (m ≫= f) Q.
Proof.
  intros Hm Ha He Hf. apply runs_bind, (runs_mono _ _ _ Hm). intros [a|e|] t [Ht Hp]; [|by rewrite <- (app_nil_r t); auto|done].
  apply (runs_mono _ _ _ (Hf a)). auto.
Qed.

Section quietly.
Context (sys : list event → call → option Z).

Lemma quietly_step c : quiet c = true → quietly (step sys c).
Proof. intros Hc. apply runs_do; [|intros n]; (split; [|done]); by repeat constructor. Qed.

Lemma quietly_ret {A} (a : A) : quietly (mret a).
Proof. apply (runs_pure (Ok a)). by split; [constructor|]. Qed.

Lemma quietly_pure {A} (r : outcome BuildError A) : r ≠ Panic → quietly (pure r).
Proof. intros Hr. apply runs_pure. by split; [constructor|]. Qed.

Lemma quietly_bind {A A'} (m : B A) (f : A → B A') : quietly m → (∀ a, quietly (f a)) → quietly (m ≫= f).
Proof.
  intros Hm Hf. apply runs_quietly; [done| |by split; [constructor|]|done]. intros r t t' Ht [Ht' Hr]. split; [by apply Forall_app|done].
Qed.

Lemma quietly_exists p : quietly (exists_ sys p).
Proof.
  unfold exists_. apply runs_bind, runs_attempt, runs_do; [|intros n]; (apply (runs_pure (Ok _)); split; [|done]);
    by repeat constructor.
Qed.

Lemma quietly_oom p : quietly (set_oom_score sys p).
Proof.
  unfold set_oom_score. destruct (p_oom_score_adj p); [|apply quietly_ret].
  apply quietly_bind; [by apply quietly_step|intros _; by apply quietly_step].
Qed.

Lemma quietly_rdt h b pid : quietly (setup_rdt h sys b pid).
Proof.
  unfold setup_rdt. case_match; [|apply quietly_ret].
  apply quietly_bind; [by apply quietly_step|intros _; apply quietly_ret].
Qed.
End quietly.

Lemma final_no_panic base sub : final_cgroups_path base sub ≠ Panic.
Proof. unfold final_cgroups_path. by repeat case_match. Qed.

Section create.
Context (h : host) (sys : list event → call → option Z) (b : ContainerBuilderImpl).

(** What the main process is given. *)
Definition args_at (p : Path) : ContainerArgs :=
  container_args b (MkCgroupConfig p (uses_systemd b) (b_container_id b)).

Definition main_args (a : ContainerArgs) : Prop :=
  ∃ p, final_cgroups_path (b_cgroup_path b) (b_sub_cgroup_path b) = Ok p ∧ a = args_at p.

(** At most one process is started, with its arguments. *)
Definition started (r : outcome BuildError (Z * option Z * (option Path * option Path))) (t : list event) : Prop :=
  no_cleanup t ∧ saves t = [] ∧
  match r with
  | Ok (pid, fd, _) => ∃ a, main_args a ∧ mains t = [a] ∧ main_result h a = (pid, fd)
  | Err _ => mains t = [] ∨ ∃ a, main_args a ∧ mains t = [a]
  | Panic => False
  end.

Lemma started_absorbs : absorbs started.
Proof.
  intros r t t' (Hc & Hm & Hs)%quiet_nothing (Hc' & Hs' & Hr). unfold started.
  split_and!; [by apply Forall_app|by unfold saves in *; rewrite omap_app, Hs|].
  unfold mains in *. by rewrite omap_app, Hm.
Qed.

Lemma started_nothing e : started (Err e) [].
Proof. split_and!; [constructor|done|by left]. Qed.

Lemma start_process_spec : runs (start_process h sys b) started.
Proof.
  pose proof started_absorbs as Habs. pose proof started_nothing as Hn.
  unfold start_process. destruct (cfg_linux (b_spec b)) as [l|]; [|by apply runs_pure].
  apply runs_bind, runs_pure. cbn [ok_or].
  destruct (final_cgroups_path (b_cgroup_path b) (b_sub_cgroup_path b)) as [p|e|] eqn:Hp;
    [|by apply runs_pure|by apply final_no_panic in Hp].
  apply runs_bind, runs_pure. destruct (cfg_process (b_spec b)) as [pr|]; [|by apply runs_pure].
  apply runs_bind, runs_pure. cbn [ok_or app].
  apply runs_quietly; [by apply quietly_step|done..|intros _].
  apply runs_quietly; [apply quietly_oom|done..|intros _].
  apply runs_quietly; [case_match; [by apply quietly_step|apply quietly_ret]|done..|intros _].
  fold (args_at p). assert (main_args (args_at p)) as Ha by (by exists p).
  apply runs_bind, runs_do; [|intros n; split_and!; [by repeat constructor|done|right; by exists (args_at p)]].
  destruct (main_result h (args_at p)) as [pid fd] eqn:Hmain.
  apply runs_bind, (runs_mono _ _ _ (quietly_rdt _ _ b pid)). intros [rdt|e|] t [(Hc & Hm & Hs)%quiet_nothing Hnp]; [| |done].
  - apply (runs_pure (Ok _)). rewrite app_nil_r. split_and!; [by constructor|done|]. exists (args_at p).
    by rewrite <- Hm.
  - split_and!; [by constructor|done|]. right. exists (args_at p). split; [done|]. by rewrite <- Hm.
Qed.

Definition manager_call : call :=
  CreateManager (MkCgroupConfig (b_cgroup_path b) (uses_systemd b) (b_container_id b)).

(** What of the container has been undone, where [ok] says which events count. *)
Definition undone (ok : option Z → Prop) (t : list event) : Prop :=
  (∃ r, (RemoveCgroup, r) ∈ t ∧ ok r) ∧
  ∀ c, b_container b = Some c →
    (∃ d m r, (CleanupRdt d m (c_rdt_clean_up c) (c_id c), r) ∈ t ∧ ok r) ∧
    ((∃ n, (Stat (c_root c), Some n) ∈ t) ∨ ∃ r, (RemoveDirAll (c_root c), r) ∈ t ∧ ok r).

(** Once there is a cgroup manager all is tried, and success means that all was done. *)
Definition cleaned (r : outcome BuildError ()) (t : list event) : Prop :=
  mains t = [] ∧ saves t = [] ∧
  ((manager_call, None) ∈ t → undone (λ _, True) t) ∧
  match r with
  | Ok _ => undone (.= None) t
  | Err _ => True
  | Panic => False
  end.

(** The container that [run_container] leaves has the directory that it had. *)
Definition same_place (container : option Container) : Prop :=
  container = b_container b ∨ ∃ pid rdt, container = set_created (euid h) pid rdt <$> b_container b.

Lemma try_step_spec c errors :
  runs (try_step sys c errors) (λ r t, ∃ x, t = [(c, x)] ∧
    r = Ok (match x with None => errors | Some _ => errors ++ [c] end)).
Proof.
  unfold try_step. apply runs_bind, runs_attempt, runs_do; [|intros n]; apply (runs_pure (Ok _)); by eexists.
Qed.

Lemma exists_spec p : runs (exists_ sys p) (λ r t, ∃ x, t = [(Stat p, x)] ∧
  r = Ok (match x with None => true | Some _ => false end)).
Proof.
  unfold exists_. apply runs_bind, runs_attempt, runs_do; [|intros n]; apply (runs_pure (Ok _)); by eexists.
Qed.

Lemma same_place_cases container : same_place container →
  match container with
  | None => b_container b = None
  | Some c => ∃ c0, b_container b = Some c0 ∧ c_root c = c_root c0 ∧ c_id c = c_id c0 ∧ c_rdt_clean_up c = c_rdt_clean_up c0
  end.
Proof.
  intros [->|(pid & rdt & ->)]; destruct (b_container b) as [c0|]; cbn; try done; by exists c0.
Qed.

Lemma undone_some (ok : option Z → Prop) c0 x d m y rest z u :
  b_container b = Some c0 → ok x → ok y →
  (rest = [] ∧ (∃ n, z = Some n)) ∨ (rest = [(RemoveDirAll (c_root c0), u)] ∧ ok u) →
  undone ok ([(manager_call, None)] ++ [(RemoveCgroup, x)] ++
    [(CleanupRdt d m (c_rdt_clean_up c0) (c_id c0), y)] ++ [(Stat (c_root c0), z)] ++ rest).
Proof.
  intros Hc Hx Hy Hrest. split; [exists x; split; [set_solver|done]|]. intros c. rewrite Hc. intros [= <-].
  split; [exists d, m, y; split; [set_solver|done]|].
  destruct Hrest as [(-> & n & ->)|(-> & Hu)]; [left; exists n; set_solver|right; exists u; split; [set_solver|done]].
Qed.

Lemma cleaned_end (errors : list call) e t :
  mains t = [] → saves t = [] → undone (λ _, True) t → (errors = [] → undone (.= None) t) →
  runs (if bool_decide (length errors = 0%nat) then mret () else pure (Err e)) (λ r t', cleaned r (t ++ t')).
Proof.
  intros Hm Hs Ht Hn. case_bool_decide as Hl; [apply (runs_pure (Ok ()))|apply runs_pure]; rewrite app_nil_r;
    split_and!; try done. by apply Hn, nil_length_inv.
Qed.

Lemma cleanup_container_spec container :
  same_place container → runs (cleanup_container sys b container) cleaned.
Proof.
  intros Hplace%same_place_cases. unfold cleanup_container. fold manager_call.
  apply runs_bind, runs_do; [|intros n; split_and!; try done; by intros ?%list_elem_of_singleton].
  apply runs_bind, (runs_mono _ _ _ (try_step_spec _ _)). intros r t (x & -> & ->).
  destruct container as [c|].
  2:{ assert (∀ ok : option Z → Prop, ok x → undone ok ([(manager_call, None)] ++ [(RemoveCgroup, x)])) as Hu.
      { intros ok Hx. split; [exists x; split; [set_solver|done]|]. intros c. by rewrite Hplace. }
      apply runs_bind, (runs_pure (Ok _)). eapply runs_mono;
        [eapply (cleaned_end _ _ ([(manager_call, None)] ++ [(RemoveCgroup, x)]))|by intros r t Hr; exact Hr]; [done..| |].
      - by apply Hu.
      - intros ?. apply Hu. by destruct x. }
  destruct Hplace as (c0 & Hc0 & Hroot & Hid & Hclean). rewrite Hroot, Hid, Hclean.
  set (rdt := CleanupRdt (c_rdt_dir c) (c_rdt_monitoring_dir c) (c_rdt_clean_up c0) (c_id c0)).
  apply runs_bind, runs_bind, (runs_mono _ _ _ (try_step_spec _ _)). intros r t (y & -> & ->).
  apply runs_bind, (runs_mono _ _ _ (exists_spec _)). intros r t (z & -> & ->).
  destruct z as [n|]; [apply (runs_pure (Ok _))|apply (runs_mono _ _ _ (try_step_spec _ _)); intros r t (u & -> & ->)].
  - eapply runs_mono; [eapply (cleaned_end _ _ ([(manager_call, None)] ++ [(RemoveCgroup, x)] ++ [(rdt, y)] ++
      [(Stat (c_root c0), Some n)] ++ []))|by intros r t Hr; exact Hr]; [done..| |].
    + apply (undone_some _ _ _ _ _ _ _ _ None); eauto.
    + intros He. apply (undone_some _ _ _ _ _ _ _ _ None); eauto; by destruct x, y.
  - eapply runs_mono; [eapply (cleaned_end _ _ ([(manager_call, None)] ++ [(RemoveCgroup, x)] ++ [(rdt, y)] ++
      [(Stat (c_root c0), None)] ++ [(RemoveDirAll (c_root c0), u)]))|by intros r t Hr; exact Hr]; [done..| |].
    + apply (undone_some _ _ _ _ _ _ _ _ u); auto.
    + intros He. apply (undone_some _ _ _ _ _ _ _ _ u); auto; destruct x, y, u; cbn in He; try done; auto.
Qed.

Definition ran (r : outcome BuildError (option Container * (BuildError + Z * option Z))) (t : list event) : Prop :=
  no_cleanup t ∧ (mains t = [] ∨ ∃ a, main_args a ∧ mains t = [a]) ∧ (b_container b = None → saves t = []) ∧
  match r with
  | Ok (container, x) => same_place container ∧
      match x with
      | inl _ => True
      | inr (pid, fd) => (∃ a, mains t = [a] ∧ main_result h a = (pid, fd)) ∧
          ∀ c, b_container b = Some c → ∃ rdt, saves t = [set_created (euid h) pid rdt c] ∧
            steps t = (RunMain <$> mains t) ++ [SaveState (set_created (euid h) pid rdt c)]
      end
  | _ => False
  end.

Lemma run_container_spec : runs (run_container h sys b) ran.
Proof.
  unfold run_container. apply runs_bind, runs_attempt, (runs_mono _ _ _ start_process_spec).
  intros [[[pid fd] rdt]|e|] t (Hc & Hs & Hr); [| |done].
  2:{ apply (runs_pure (Ok _)). rewrite app_nil_r. split_and!; [done|naive_solver|done|by left|done]. }
  destruct Hr as (a & Ha & Hm & Hres). unfold ran.
  assert (∀ t', mains t' = [] → mains (t ++ t') = [a]) as Hmain.
  { intros t' Ht'. unfold mains in *. by rewrite omap_app, Ht', app_nil_r. }
  assert (same_place (set_created (euid h) pid rdt <$> b_container b)) as Hp by (right; eauto).
  destruct (b_container b) as [c0|] eqn:Hb; cbn [fmap option_fmap option_map save_container].
  - apply runs_bind, runs_attempt, runs_do; [|intros n]; apply (runs_pure (Ok _)); rewrite app_nil_r;
      (split; [apply Forall_app; split; [done|by repeat constructor]|]);
      (split; [right; exists a; split; [done|by apply Hmain]|]); (split; [done|]); (split; [done|]); [|done].
    split; [exists a; split; [by apply Hmain|done]|]. intros c [= <-]. exists rdt.
    split; [unfold saves in *; by rewrite omap_app, Hs|]. rewrite Hmain by done.
    by rewrite steps_app, (steps_mains t), Hm.
  - apply runs_bind, runs_attempt, (runs_pure (Ok ())). apply (runs_pure (Ok _)). rewrite !app_nil_r.
    split_and!; [done|right; by exists a|done|done|by exists a|done].
Qed.

(** The calls of [create] and its result. *)
Definition create_post (r : outcome BuildError (Z * option Z)) (t : list event) : Prop :=
  (mains t = [] ∨ ∃ a, main_args a ∧ mains t = [a]) ∧ (b_container b = None → saves t = []) ∧
  match r with
  | Ok (pid, fd) => no_cleanup t ∧ (∃ a, mains t = [a] ∧ main_result h a = (pid, fd)) ∧
      ∀ c, b_container b = Some c → ∃ rdt, saves t = [set_created (euid h) pid rdt c] ∧
        steps t = (RunMain <$> mains t) ++ [SaveState (set_created (euid h) pid rdt c)]
  | Err (CreateContainerError outer cleanup) =>
      if is_init_container b
      then ∃ t1 t2, t = t1 ++ t2 ∧ no_cleanup t1 ∧
        cleaned (match cleanup with None => Ok () | Some e => Err e end) t2
      else no_cleanup t ∧ cleanup = None
  | _ => False
  end.

Lemma create_runs : runs (create h sys b) create_post.
Proof.
  unfold create. apply runs_bind, (runs_mono _ _ _ run_container_spec).
  intros [[container [outer|[pid fd]]]|e|] t (Hc & Hm & Hsv & Hr); [| |done..]. all: destruct Hr as [Hplace Hr].
  2:{ destruct Hr as [Ha Hsave]. apply (runs_pure (Ok _)). rewrite app_nil_r. by split_and!. }
  unfold create_post. destruct (is_init_container b); [|apply runs_pure; rewrite app_nil_r; auto].
  apply runs_bind, runs_attempt, (runs_mono _ _ _ (cleanup_container_spec container Hplace)).
  intros [[]|e|] t' Ht'; [apply runs_pure..|by destruct Ht' as (_ & _ & _ & ?)]; rewrite app_nil_r;
    (split; [destruct Ht' as [Ht' _]; unfold mains in *; by rewrite omap_app, Ht', app_nil_r|]);
    (split; [destruct Ht' as (_ & Ht' & _); unfold saves in *; intros ?; rewrite omap_app, Ht', app_nil_r; auto|by exists t, t']).
Qed.

(** C28: creating the process of a container.  At most one main process is started, in a
    cgroup at or below the one of the container whatever the sub-cgroup asks for.  On
    success nothing is cleaned up, and a new container is saved as created, with the
    process.  A failed creation of a new container is undone: once there is a cgroup
    manager the cgroup, the Intel RDT group and the directory are all removed as far as
    they can be, and no error of the clean-up means that they are; a failed process in an
    existing container leaves that container alone. *)
Theorem create_spec :
  runs (create h sys b) (λ r t,
    (mains t = [] ∨ ∃ a, mains t = [a] ∧ within (b_cgroup_path b) (cgroup_path (a_cgroup a))) ∧
    match r with
    | Ok (pid, fd) => no_cleanup t ∧ (∃ a, mains t = [a] ∧ main_result h a = (pid, fd)) ∧
        ∀ c, b_container b = Some c → ∃ c', saves t = [c'] ∧ c_status c' = Lifecycle.Created ∧
          c_pid c' = Some pid ∧ c_id c' = c_id c ∧ c_root c' = c_root c
    | Err (CreateContainerError outer cleanup) =>
        if is_init_container b
        then ∃ t1 t2, t = t1 ++ t2 ∧ no_cleanup t1 ∧
          cleaned (match cleanup with None => Ok () | Some e => Err e end) t2
        else no_cleanup t ∧ cleanup = None
    | _ => False
    end).
Proof.
  apply (runs_mono _ _ _ create_runs). intros r t (Hm & _ & Hr). split.
  - destruct Hm as [?|(a & (p & Hp & ->) & Hm)]; [by left|right]. exists (args_at p). split; [done|]. by eapply final_within.
  - destruct r as [[pid fd]|e|]; [|done..]. destruct Hr as (? & ? & Hs). split_and!; [done..|].
    intros c (rdt & -> & _)%Hs. by eexists.
Qed.
End create.

(** ** Building a container *)

(** The calls that only look. *)
Definition reads (c : call) : bool :=
  match c with Stat _ | Canonical _ | LoadSpec _ | CanonicalizeRootfs _ => true | _ => false end.

Definition read_only (t : list event) : Prop := Forall (λ ev, reads ev.1 = true) t.

Section build.
Context (h : host) (sys : list event → call → option Z) (ib : InitContainerBuilder).

Definition container_dir : Path := join (root_path (base ib)) (components (container_id (base ib))).
Definition loaded_spec : Config := spec_at h (join (bundle ib) [Normal "config.json"]).

Lemma init_validate_no_panic spec : init_validate_spec h spec ≠ Panic.
Proof.
  unfold init_validate_spec. apply bind_no_panic; [unfold validate_version; by case_match|intros _ _].
  apply bind_no_panic.
  { apply map_err_no_panic. unfold rootless_required, is_in_new_userns. case_match; [done|]. by destruct (uid_map h). }
  intros r _. apply bind_no_panic.
  { apply map_err_no_panic. pose proof (validate_spec_ok (validator_env h) (spec_of spec) r) as Hv.
    by destruct (validate_spec _ _ _). }
  intros _ _. case_match; [|done]. apply bind_no_panic; [by destruct (apparmor_enabled h)|]. intros c _. by case_match.
Qed.

Lemma config_no_panic spec id sd : from_spec_with_cgroup_manager (of_sum (own_cgroups h))
  (if cfg_hooks spec then Some () else None) (l_cgroups_path <$> cfg_linux spec) id sd ≠ Panic.
Proof.
  unfold from_spec_with_cgroup_manager. apply bind_no_panic; [apply ok_or_no_panic|intros ? _].
  apply bind_no_panic; [|done]. apply map_err_no_panic. unfold get_cgroup_path_for_manager.
  case_match; [done|]. apply bind_no_panic; [by destruct (own_cgroups h)|done].
Qed.

(** [load_spec] only looks; what it returns was accepted, and has the processes of the file. *)
Lemma load_spec_spec : runs (load_spec h sys ib) (λ r t, read_only t ∧
  match r with
  | Ok spec => init_validate_spec h loaded_spec = Ok () ∧ cfg_process spec = cfg_process loaded_spec
  | Err _ => True
  | Panic => False
  end).
Proof.
  unfold load_spec. fold loaded_spec. apply runs_bind, runs_do; [|intros n; by repeat constructor].
  pose proof (init_validate_no_panic loaded_spec) as Hnp.
  destruct (init_validate_spec h loaded_spec) as [[]|e|] eqn:Hv; [|apply runs_bind, runs_pure; by repeat constructor|done].
  apply runs_bind, runs_pure. apply runs_bind, runs_do; [|intros n; by repeat constructor].
  unfold resolve_relative_bind_sources. destruct (cfg_mounts _) as [ms|].
  - apply runs_bind, runs_do; [apply (runs_pure (Ok _))|intros n]; by repeat constructor.
  - apply (runs_pure (Ok _)). by repeat constructor.
Qed.

(** What a result means after the first state was saved. *)
Definition continued (dir : Path) (r : outcome BuildError (Container * option Z)) (t : list event) : Prop :=
  match r with
  | Ok _ => no_cleanup t ∧ ∃ c1 a, steps t = [RunMain a; SaveState c1] ∧ c_status c1 = Lifecycle.Created ∧
      c_pid c1 = Some (main_result h a).1 ∧ c_id c1 = container_id (base ib) ∧
      ∃ t1 t2, t = t1 ++ (SaveConfig dir (cgroup_path (a_cgroup a)), None) :: t2 ∧ steps t1 = []
  | Err (CreateContainerError _ _) => True
  | Err _ => no_cleanup t
  | Panic => False
  end.

Lemma continued_absorbs dir : absorbs (continued dir).
Proof.
  intros r t t' Hq. pose proof (quiet_steps t Hq) as Hs. apply quiet_nothing in Hq as [Hc _].
  unfold continued. destruct r as [v|e|]; [| |done].
  - intros (Hc' & c1 & a & Hs' & ? & ? & ? & t1 & t2 & -> & Ht1). split; [by apply Forall_app|]. exists c1, a.
    rewrite steps_app, Hs. split_and!; try done. exists (t ++ t1), t2. by rewrite <- app_assoc, steps_app, Hs.
  - intros He. destruct e; try done; by apply Forall_app.
Qed.

Lemma quietly_console b dir name : quietly (setup_console h sys b dir name).
Proof.
  unfold setup_console. case_match; [|apply quietly_ret].
  apply quietly_bind; [by apply quietly_step|intros _; apply quietly_ret].
Qed.

(** From the saved configuration on. *)
Lemma create_and_refresh impl c dir :
  b_container impl = Some c → c_id c = container_id (base ib) → b_sub_cgroup_path impl = None →
  runs (_ ← step sys (SaveConfig dir (b_cgroup_path impl));
        '(_, fd) ← create h sys impl;
        c' ← refresh_state h sys c;
        mret (c', fd)) (continued dir).
Proof.
  intros Hc Hid Hsub. apply runs_bind, runs_do; [|intros n; by repeat constructor].
  apply runs_bind, (runs_mono _ _ _ (create_runs h sys impl)). intros [[pid fd]|e|] t (Hm & _ & Hr); [|by destruct e|done].
  destruct Hr as (Hcl & (a & Ha & Hres) & Hsave). destruct (Hsave c Hc) as (rdt & _ & Hs).
  destruct Hm as [Hm|(a' & (p & Hp & ->) & Hm)]; [congruence|]. rewrite Hm in Ha. injection Ha as <-.
  rewrite Hsub in Hp. injection Hp as <-.
  unfold refresh_state. apply runs_bind, runs_bind, runs_do; [apply (runs_pure (Ok _)), (runs_pure (Ok _))|intros n].
  - rewrite !app_nil_r. split; [constructor; [done|by apply Forall_app; split; [|repeat constructor]]|].
    exists (set_created (euid h) pid rdt c), (args_at impl (b_cgroup_path impl)).
    rewrite Hres. split_and!; try done; [|by eexists [], _].
    by rewrite !steps_app, Hs, Hm.
  - constructor; [done|]. apply Forall_app. by split; [|repeat constructor].
Qed.

Definition built (r : outcome BuildError (Container * option Z)) (t : list event) : Prop :=
  match r with
  | Ok _ => no_cleanup t ∧ ∃ c0 c1 a, steps t = [SaveState c0; RunMain a; SaveState c1] ∧
      c_status c0 = Lifecycle.Creating ∧ c_id c0 = container_id (base ib) ∧
      c_status c1 = Lifecycle.Created ∧ c_pid c1 = Some (main_result h a).1 ∧
      c_id c1 = container_id (base ib) ∧
      ∃ t1 t2, t = t1 ++ (SaveConfig container_dir (cgroup_path (a_cgroup a)), None) :: t2 ∧
        steps t1 = [SaveState c0]
  | Err (CreateContainerError _ _) => True
  | Err _ => no_cleanup t
  | Panic => False
  end.

Lemma built_absorbs : absorbs built.
Proof.
  intros r t t' Hq. pose proof (quiet_steps t Hq) as Hs. apply quiet_nothing in Hq as [Hc _].
  unfold built. destruct r as [v|e|]; [| |done].
  - intros (Hc' & c0 & c1 & a & Hs' & ? & ? & ? & ? & ? & t1 & t2 & -> & Ht1). split; [by apply Forall_app|].
    exists c0, c1, a. rewrite steps_app, Hs. split_and!; try done. exists (t ++ t1), t2.
    by rewrite <- app_assoc, steps_app, Hs.
  - intros He. destruct e; try done; by apply Forall_app.
Qed.

Lemma build_in_spec spec : runs (build_in h sys ib spec container_dir) built.
Proof.
  unfold build_in, create_container_state, container_new.
  do 3 apply runs_bind. apply runs_do; [|intros n; by repeat constructor].
  apply runs_bind, runs_do; [|intros n; by repeat constructor]. apply (runs_pure (Ok _)).
  apply runs_bind, runs_do; [|intros n; by repeat constructor]. apply (runs_pure (Ok _)).
  set (c := annotated _ _ _). eapply (runs_mono _ (continued container_dir)).
  2:{ intros [v|e|] t; [|by destruct e; repeat constructor|done]. intros (Hc & c1 & a & Hs & ? & ? & ? & t1 & t2 & -> & Ht1).
      split; [by repeat constructor|]. eexists _, c1, a. split_and!; [exact (f_equal (cons (SaveState _)) Hs)|done..|].
      eexists (_ :: _ :: _ :: t1), t2. split; [done|]. exact (f_equal (cons (SaveState _)) Ht1). }
  pose proof (continued_absorbs container_dir) as Habs.
  assert (∀ e, continued container_dir (Err e) []) as Herr by (intros []; constructor).
  destruct (cfg_root spec) as [root|]; [|apply runs_bind, runs_pure, Herr]. apply runs_bind, runs_pure. cbn [app].
  apply runs_quietly; [by apply quietly_step|done..|intros _].
  apply runs_quietly; [apply quietly_console|done..|intros fd].
  pose proof (UserNsProps.user_ns_new_no_panic (path_env h) (binary_exists h) (rootless_opt h) (spec_of spec)) as Hnp.
  destruct (UserNs.user_ns_new _ _ _ _) as [u|e|]; [|apply runs_bind, runs_pure, Herr|done]. apply runs_bind, runs_pure.
  cbn [map_err app]. set (sd := use_systemd ib || _). pose proof (config_no_panic spec (c_id c) sd) as Hnc.
  destruct (from_spec_with_cgroup_manager _ _ _ _ _) as [config|e|]; [|apply runs_bind, runs_pure, Herr|done].
  apply runs_bind, runs_pure. cbn [map_err app].
  by apply (create_and_refresh (init_impl ib spec _ _ (cfg_cgroup_path config) _ _ c)).
Qed.

(** C29: building a new container.  Unless the configuration is accepted, the console socket
    fits the terminal, and no directory of that name exists, nothing is changed.  On
    success the state was saved twice and one main process was started, in this order:
    first the state creating, then the process, then the state created, with the
    identifier of the process; and between the first state and the process the
    configuration for later commands was saved, with the cgroup of the process.  An error
    that is not one of the creation itself is not followed by any clean-up. *)
Theorem init_build_spec :
  runs (init_build h sys ib) (λ r t,
    (read_only t ∨
     (init_validate_spec h loaded_spec = Ok () ∧ check_terminal (base ib) loaded_spec (detached ib) = Ok () ∧
      ∃ n, (Stat container_dir, Some n) ∈ t)) ∧
    match r with
    | Ok _ => no_cleanup t ∧ ∃ c0 c1 a, steps t = [SaveState c0; RunMain a; SaveState c1] ∧
        c_status c0 = Lifecycle.Creating ∧ c_id c0 = container_id (base ib) ∧
        c_status c1 = Lifecycle.Created ∧ c_pid c1 = Some (main_result h a).1 ∧
        c_id c1 = container_id (base ib) ∧
        ∃ t1 t2, t = t1 ++ (SaveConfig container_dir (cgroup_path (a_cgroup a)), None) :: t2 ∧
          steps t1 = [SaveState c0]
    | Err (CreateContainerError _ _) => True
    | Err _ => no_cleanup t
    | Panic => False
    end).
Proof.
  assert (∀ t, read_only t → all_quiet t) as Hq.
  { intros t Ht. eapply Forall_impl; [exact Ht|]. by intros [[] r]. }
  assert (∀ e t, read_only t → match e with CreateContainerError _ _ => True | _ => no_cleanup t end) as Hro.
  { intros e t Ht%Hq%quiet_nothing. destruct Ht as [Ht _]. by destruct e. }
  unfold init_build. apply runs_bind, (runs_mono _ _ _ load_spec_spec).
  intros [spec|e|] t [Ht Hspec]; [|by split; [left|apply Hro]|done]. destruct Hspec as [Hv Hproc].
  assert (check_terminal (base ib) spec (detached ib) = check_terminal (base ib) loaded_spec (detached ib)) as ->
    by (unfold check_terminal; by rewrite Hproc).
  destruct (check_terminal (base ib) loaded_spec (detached ib)) as [[]|e|] eqn:Hterm; apply runs_bind, runs_pure; rewrite ?app_nil_r;
    [|by split; [left|apply Hro]|unfold check_terminal in Hterm; by repeat case_match].
  unfold create_container_dir. fold container_dir. apply runs_bind, runs_bind, (runs_mono _ _ _ (exists_spec _ _)).
  intros r t' ([n|] & -> & ->).
  2:{ apply runs_pure. rewrite app_nil_r. assert (read_only (t ++ [(Stat container_dir, None)])) as Hr
        by (apply Forall_app; by repeat constructor). split; [by left|by apply (Hro Exist)]. }
  assert (all_quiet (t ++ [(Stat container_dir, Some n)] ++ [(CreateDirAll container_dir, None)])) as Hq2
    by (apply Forall_app; split; [by apply Hq|by repeat constructor]).
  apply runs_bind, runs_do.
  - apply (runs_pure (Ok container_dir)). apply (runs_mono _ _ _ (build_in_spec spec)). intros r t' Hb.
    split; [right; split_and!; [done..|]; exists n; set_solver|].
    pose proof (built_absorbs r _ t' Hq2 Hb) as Hb2. rewrite <- !app_assoc in Hb2. exact Hb2.
  - intros m. split; [right; split_and!; [done..|]; exists n; set_solver|].
    apply Forall_app. split; [by apply quiet_nothing, Hq|by repeat constructor].
Qed.
End build.

(** ** Sources of bind mounts *)

Lemma components_are_names s n : Normal n ∈ components s → is_name n.
Proof.
  unfold components. intros Hn.
  assert (∃ p, p ∈ split_on "/"%char s ∧ piece_component p = Some (Normal n)) as (p & Hp & Hc).
  { destruct (split_on "/" s) as [|p ps]; [by apply elem_of_nil in Hn|]. apply elem_of_app in Hn as [Hn|Hn].
    - exists p. split; [left|]. do 2 (case_bool_decide; [repeat case_match; set_solver|]).
      destruct (piece_component p); set_solver.
    - apply list_elem_of_omap in Hn as (q & Hq & Hqc). exists q. split; [by right|done]. }
  assert (p = n) as -> by (unfold piece_component in Hc; by repeat case_match; simplify_eq).
  split; [done|]. by eapply split_on_no_sep.
Qed.

Lemma walk_are_names names q : Forall is_name names → (∀ n, Normal n ∈ q → is_name n) → Forall is_name (walk names q).
Proof.
  revert names. induction q as [|c q IH]; intros names Hn Hq; [done|]. apply IH; [|intros; apply Hq; by right].
  destruct c; cbn; [constructor|done|by apply Forall_take|]. apply Forall_app. split; [done|]. repeat constructor; apply Hq; left.
Qed.

Lemma concat_path n names : String.concat "/" ("" :: n :: names) = path_of (n :: names).
Proof.
  revert n. induction names as [|m names IH]; intros n; [cbn; by rewrite string_app_nil|].
  change (path_of (n :: m :: names)) with ("/" +:+ n +:+ path_of (m :: names)). rewrite <- IH. done.
Qed.

Lemma path_display_components names : Forall is_name names →
  components (path_display (RootDir :: fmap Normal names)) = RootDir :: fmap Normal names.
Proof.
  intros Hn. destruct names as [|n names]; [done|].
  transitivity (components (path_of (n :: names))); [f_equal|by apply components_path_of].
  unfold path_display. rewrite bool_decide_eq_false_2 by done. rewrite <- concat_path, fmap_cons. f_equal.
  cbn [component_display]. f_equal. rewrite <- list_fmap_compose. apply list_fmap_id.
Qed.

(** A relative source of a bind mount is resolved from the bundle, lexically; other mounts
    are left as they are. *)
Lemma resolve_mount_spec names m : Forall is_name names →
  match source m with
  | Some s => if is_bind m && negb (has_root (components s))
      then ∃ s', source (resolve_mount (RootDir :: fmap Normal names) m) = Some s' ∧
             components s' = RootDir :: fmap Normal (walk names (components s))
      else resolve_mount (RootDir :: fmap Normal names) m = m
  | None => resolve_mount (RootDir :: fmap Normal names) m = m
  end.
Proof.
  intros Hn. unfold resolve_mount. destruct (source m) as [s|] eqn:Hs; [|by case_match].
  destruct (is_bind m); [|done]. cbn [negb andb]. destruct (has_root (components s)); [done|].
  eexists. split; [done|]. rewrite normalize_below. apply path_display_components, walk_are_names; [done|].
  intros n. apply components_are_names.
Qed.

(** ** Examples *)

Module ExampleBuild.
Definition ex_process : Process :=
  MkProcess (Some true) (MkUser 0 0 None None) true "/" None false None None None None None.

Definition ex_config : Config := MkConfiguration "1.0.2"
  (Some (MkProcessConfig ex_process None (Some ["sh"]) None (Some (-500))))
  (Some (MkLinuxConfig (MkLinux (Some [MkNamespace NsPid None]) None None None None None None None None None None
                          false false) (Some (components "/pods/../web")) false))
  (Some (components "rootfs")) None false None None None None.

Definition ex_host : host := MkHost (λ _, ex_config) (λ p, p) (λ _ b, join b [Normal "rootfs"])
  0 (inr "0 0 4294967295") (Validator.MkEnv (λ _, inl "ENOENT") (Some false)) (inl 2) None (λ _, false)
  (inr []) (λ _, 9) (λ _, (4711, None)) (λ _, (None, None))
  (λ dir, MkContainer "web" Lifecycle.Created (Some 4711) (Some 0) true [] None None None None dir).

Definition ex_builder : InitContainerBuilder :=
  MkInit (MkBuilder "web" (components "/run/youki") None (Some (components "/tmp/tty.sock")) 0 None None None)
    (components "/bundle") false true false false.

(** Only the directory of the container does not exist yet. *)
Definition new_directory (w : list event) (c : call) : option Z :=
  match c with Stat _ => Some 2 | _ => None end.

Lemma example_build : ∃ t c fd, init_build ex_host new_directory ex_builder [] = (Ok (c, fd), t) ∧
  c_status c = Lifecycle.Created ∧ length (mains t) = 1%nat ∧
  cgroup_path ∘ a_cgroup <$> mains t = [components "/web"].
Proof. do 3 eexists. split_and!; vm_compute; reflexivity. Qed.

(** When the console socket cannot be used, the directory and the state of a container that
    does not exist stay behind, and the name is taken. *)
Definition no_console (w : list event) (c : call) : option Z :=
  match c with Stat _ => Some 2 | ConsoleSocket _ _ _ => Some 111 | _ => None end.

Lemma directory_left_behind : ∃ t n, init_build ex_host no_console ex_builder [] =
    (Err (Failed (ConsoleSocket (components "/run/youki/web") (components "/tmp/tty.sock") "console-socket") n), t) ∧
  (CreateDirAll (components "/run/youki/web"), None) ∈ t ∧ length (saves t) = 1%nat ∧ no_cleanup t.
Proof.
  do 2 eexists. split; [vm_compute; reflexivity|]. split; [|split; [reflexivity|by repeat constructor]].
  do 3 right. left.
Qed.
End ExampleBuild.
