(* ===== verification/Tenant.v ===== *)
(** * Tenant: a process in an existing container

    Models [container/tenant_builder.rs] of [libcontainer], the builder behind [exec]: the
    process is put together from the configuration of the container and the options of
    the command, joins the namespaces and the cgroup of the container, and reports an
    error through a pipe.  The calls are those of [Builders]. *)
From S2P Require Import Prelude Text Paths Calls Utils Spec Validator Capabilities MountOptions Builders.
From S2P Require Lifecycle.
Local Open Scope string_scope.
Local Open Scope list_scope.
Local Open Scope Z_scope.

(** ** The builder *)

(** The variables of [env] are in the order in which the hash map is iterated. *)
Record TenantContainerBuilder : Type := MkTenant {
  t_base : ContainerBuilder; t_env : list (string * string); t_cwd : option string; t_args : list string;
  t_no_new_privs : option bool; t_capabilities : list string; t_process : option Path; t_detached : bool;
  t_tty : bool; t_as_sibling : bool; t_additional_gids : list Z; t_user : option Z; t_group : option Z;
  t_ignore_paused : bool; t_sub_cgroup : option string; t_process_label : option string;
  t_apparmor : option string }.

(** [TenantContainerBuilder::new] *)
Definition tenant_new (b : ContainerBuilder) : TenantContainerBuilder :=
  MkTenant b [] None [] None [] None false false false [] None None false None None None.

Definition NAMESPACE_TYPES : list (string * LinuxNamespaceType) :=
  [("ipc", NsIpc); ("uts", NsUts); ("net", NsNetwork); ("pid", NsPid); ("mnt", NsMount);
   ("cgroup", NsCgroup); ("time", NsTime)].

(** What other crates answer: the parser of capability names ([caps]), and the values of the
    fields that the builders of [oci_spec] are not given. *)
Record crates : Type := MkCrates {
  cap_from_str : string → option CapsCapability;
  process_default : ProcessConfig; linux_default : LinuxConfig }.

(** What the system answers: the contents of a process file, the namespaces of a process
    (name and path), the saved cgroup path, the numbers of the random generator, and what
    successive reads of the pipe return, each of one to three bytes, until its end. *)
Record tenant_host : Type := MkTenantHost {
  th_host : host; process_at : Path → ProcessConfig; namespaces_of : Z → list (string * string);
  config_at : Path → Path; rand : nat → Z; write_fd : Z; chunks : list (list byte) }.

Section tenant.
Context (cr : crates) (th : tenant_host) (sys : list event → call → option Z).

(** ** Capabilities *)

Definition parse_caps (additional : list string) : outcome BuildError (list CapsCapability) :=
  for_each (λ cap caps, c ← ok_or (cap_from_str cr cap) (UnknownCapability cap); Ok (caps ++ [c])) additional [].

Definition spec_caps_of (caps : list CapsCapability) : outcome BuildError (list SpecCapability) :=
  for_each (λ c l, s ← from_cap c; Ok (l ++ [s])) caps [].

(** Hash sets of capabilities are lists whose order and repetitions do not matter. *)
Definition get_capabilities (additional : list string) (spec : Config) : outcome BuildError LinuxCapabilities :=
  caps ← parse_caps additional;
  caps ← spec_caps_of caps;
  process ← ok_or (cfg_process spec) (MissingSpec "process");
  match p_capabilities process with
  | Some spec_caps =>
      let bounding := default [] (lc_bounding spec_caps) ++ caps in
      let effective := default [] (lc_effective spec_caps) ++ caps in
      let permitted := default [] (lc_permitted spec_caps) ++ caps in
      match lc_inheritable spec_caps with
      | Some inheritable =>
          let ambient := default [] (lc_ambient spec_caps) ++ caps in
          Ok (MkLinuxCapabilities (Some bounding) (Some effective) (Some permitted) (Some inheritable) (Some ambient))
      | None => Ok (MkLinuxCapabilities (Some bounding) (Some effective) (Some permitted) None None)
      end
  | None => Ok (MkLinuxCapabilities (Some caps) (Some caps) (Some caps) None None)
  end.

(** ** The process *)

Definition get_args (tb : TenantContainerBuilder) : outcome BuildError (list string) :=
  if bool_decide (t_args tb = []) then Err (MissingSpec "args") else Ok (t_args tb).

Definition get_working_dir (tb : TenantContainerBuilder) : outcome BuildError (option string) :=
  match t_cwd tb with
  | Some cwd =>
      if negb (has_root (components cwd)) then Err (Other "current working directory must be an absolute path")
      else Ok (Some cwd)
  | None => Ok None
  end.

(** The text before the first equality sign. *)
Definition env_key (entry : string) : string := default "" (head (split_on "="%char entry)).

Definition get_environment (tb : TenantContainerBuilder) (spec_env : list string) : list string :=
  filter (λ entry, env_key entry ∉ (t_env tb).*1) spec_env
  ++ ((λ kv, kv.1 +:+ "=" +:+ kv.2) <$> t_env tb).

Definition get_no_new_privileges (tb : TenantContainerBuilder) (spec : Config) : option bool :=
  match t_no_new_privs tb with
  | Some true => Some true
  | _ => cfg_process spec ≫= (no_new_privileges ∘ p_base)
  end.

Definition tenant_user (tb : TenantContainerBuilder) : User :=
  let d := user (p_base (process_default cr)) in
  MkUser (default (uid d) (t_user tb)) (default (gid d) (t_group tb)) (umask d)
    (if bool_decide (t_additional_gids tb = []) then additional_gids d else Some (t_additional_gids tb)).

Definition or_else {A} (a b : option A) : option A := match a with Some x => Some x | None => b end.

(** The fields of the process with these options; [cwd_] is the checked directory. *)
Definition tenant_base (tb : TenantContainerBuilder) (spec : Config) (cwd_ : option string) : Process :=
  let d := p_base (process_default cr) in
  MkProcess (Some (t_tty tb)) (tenant_user tb) true (default (cwd d) cwd_)
    (or_else (get_no_new_privileges tb spec) (no_new_privileges d)) true (rlimits d) (scheduler d)
    (io_priority d) (or_else (t_apparmor tb) (apparmor_profile d))
    (or_else (cfg_process spec ≫= (exec_cpu_affinity ∘ p_base)) (exec_cpu_affinity d)).

(** The process from the options of the command. *)
Definition tenant_process (tb : TenantContainerBuilder) (spec : Config) : outcome BuildError ProcessConfig :=
  let spec_env := default [] (cfg_process spec ≫= p_env) in
  args ← get_args tb;
  let env := get_environment tb spec_env in
  cwd_ ← get_working_dir tb;
  capabilities ← get_capabilities (t_capabilities tb) spec;
  Ok (MkProcessConfig (tenant_base tb spec cwd_) (Some env) (Some args) (Some capabilities)
        (p_oom_score_adj (process_default cr))).

Definition get_process (process : Path) : B ProcessConfig :=
  there ← exists_ sys process;
  if (there : bool) then _ ← step sys (ReadProcess process); mret (process_at th process)
  else pure (Err (Other "process.json file does not exist")).

(** ** Namespaces *)

Definition get_namespaces (init_namespaces : list (string * string)) (spec_namespaces : option (list LinuxNamespace)) :
    list LinuxNamespace :=
  omap (λ nt : string * LinuxNamespaceType,
    if bool_decide (nt.2 ∈ (ns_typ <$> default [] spec_namespaces)) then
      path ← snd <$> List.find (λ e : string * string, String.eqb e.1 nt.1) init_namespaces;
      Some (MkNamespace nt.2 (Some path))
    else None) NAMESPACE_TYPES.

(** [LinuxBuilder]: only these parts of the section of the container are kept. *)
Definition tenant_linux (ns : list LinuxNamespace) (l : LinuxConfig) : LinuxConfig :=
  let d := linux_default cr in let db := l_base d in
  MkLinuxConfig
    (MkLinux (Some ns) (uid_mappings db) (gid_mappings db)
       (or_else (time_offsets (l_base l)) (time_offsets db)) (net_devices db) (sysctls db) (masked_paths db)
       (readonly_paths db) (seccomp_notify db) (clos_id db)
       (or_else (personality_flags (l_base l)) (personality_flags db)) (has_resources db) (has_memory_policy db))
    (or_else (l_cgroups_path l) (l_cgroups_path d)) (l_intel_rdt d).

Definition set_process_and_linux (p : ProcessConfig) (l : LinuxConfig) (c : Config) : Config :=
  MkConfiguration (cfg_version c) (Some p) (Some l) (cfg_root c) (cfg_root_readonly c) (cfg_hooks c)
    (cfg_mounts c) (cfg_hostname c) (cfg_domainname c) (cfg_annotations c).

(** The [unwrap] of the Linux section can panic. *)
Definition adapt_spec_for_tenant (tb : TenantContainerBuilder) (spec : Config) (container : Container) : B Config :=
  process ← match t_process tb with
            | Some file => get_process file
            | None => pure (tenant_process tb spec)
            end;
  container_pid ← pure (ok_or (c_pid container) (Other "could not retrieve container init pid"));
  _ ← step sys (OpenProc container_pid);
  _ ← step sys (ReadNamespaces container_pid);
  let ns := get_namespaces (namespaces_of th container_pid) (cfg_linux spec ≫= (namespaces ∘ l_base)) in
  match cfg_linux spec with
  | Some l => mret (set_process_and_linux process (tenant_linux ns l) spec)
  | None => pure Panic
  end.

(** ** Joining the container *)

Definition lookup_container_dir (tb : TenantContainerBuilder) : B Path :=
  let dir := join (root_path (t_base tb)) (components (container_id (t_base tb))) in
  there ← exists_ sys dir;
  if (there : bool) then mret dir else pure (Err NoDirectory).

(** [Container::load] refreshes the status, see [Lifecycle.load]. *)
Definition load_container_state (tb : TenantContainerBuilder) (dir : Path) : B Container :=
  _ ← step sys (LoadState dir);
  let container := state_at (th_host th) dir in
  match c_status container with
  | Lifecycle.Running => mret container
  | Lifecycle.Paused => if t_ignore_paused tb then mret container else pure (Err (IncorrectStatus Lifecycle.Paused))
  | s => pure (Err (IncorrectStatus s))
  end.

Definition tenant_validate_spec (spec : Config) : outcome BuildError () :=
  let h := th_host th in
  _ ← validate_version (cfg_version spec);
  is_rootless ← map_err OtherIO (rootless_required (euid h) (of_sum (uid_map h)));
  map_err (λ e, InvalidSpec (Invalid e)) (validate_spec (validator_env h) (spec_of spec) is_rootless).

Definition load_init_spec (container : Container) : B Config :=
  let spec_path := join (c_bundle container) [Normal "config.json"] in
  _ ← step sys (LoadSpec spec_path);
  let spec := spec_at (th_host th) spec_path in
  _ ← pure (tenant_validate_spec spec);
  _ ← step sys (CanonicalizeRootfs (c_bundle container));
  mret (set_root (rootfs_of (th_host th) spec (c_bundle container)) spec).

Definition hex_digit (n : Z) : ascii := ascii_of_nat (Z.to_nat (if n <? 10 then 48 + n else 87 + n)).

Fixpoint hex_digits (fuel : nat) (n : Z) (acc : string) : string :=
  match fuel with
  | O => acc
  | S fuel => let acc := String (hex_digit (n mod 16)) acc in if n <? 16 then acc else hex_digits fuel (n / 16) acc
  end.

(** The format [{:x}] of an [i32]: at most eight digits. *)
Definition format_hex (n : Z) : string := hex_digits 8 (uwrap 32 n) "".

(** The loop draws numbers until the name is new.  The number of draws is not bounded in the
    code: out of fuel stands for a loop that goes on. *)
Fixpoint generate_name (fuel i : nat) (dir : Path) (prefix : string) : B (option string) :=
  match fuel with
  | O => mret None
  | S fuel =>
      let name := prefix +:+ format_hex (rand th i) +:+ ".sock" in
      there ← exists_ sys (join dir [Normal name]);
      if (there : bool) then generate_name fuel (S i) dir prefix else mret (Some name)
  end.

(** ** The report of the process *)

(** A read into a buffer of three zero bytes; the whole buffer is kept. *)
Definition read_buffer (chunk : list byte) : list byte := chunk ++ replicate (3 - length chunk) Byte.x00.

Fixpoint read_report (l : list (list byte)) (err_str_buf : list byte) : B (list byte) :=
  _ ← step sys ReadPipe;
  match l with
  | [] => mret err_str_buf
  | chunk :: l => read_report l (err_str_buf ++ read_buffer chunk)
  end.

Definition tenant_impl (tb : TenantContainerBuilder) (spec : Config) (rootfs notify_path cgroup_path : Path)
    (use_systemd : bool) (csocketfd : option Z) (user_ns_config : option UserNs.UserNamespaceConfig) :
    ContainerBuilderImpl :=
  let b := t_base tb in
  MkImpl (TenantContainer (write_fd th)) use_systemd (container_id b) spec rootfs (pid_file b) csocketfd
    user_ns_config notify_path None (preserve_fds b) (t_detached tb) false (stdin b) (stdout b) (stderr b)
    (t_as_sibling tb) cgroup_path (t_sub_cgroup tb) (t_process_label tb).

(** [build] once there is a name for the socket and one for the terminal. *)
Definition join_container (tb : TenantContainerBuilder) (spec : Config) (container : Container) (dir : Path)
    (notify_path rootfs : Path) (tty_name : string) : B (Z * option Z) :=
  let h := th_host th in
  csocketfd ← setup_console h sys (t_base tb) dir tty_name;
  user_ns_config ← pure (map_err UserNamespace
    (UserNs.user_ns_new (path_env h) (binary_exists h) (rootless_opt h) (spec_of spec)));
  _ ← step sys (LoadConfig (c_root container));
  _ ← step sys Pipe;
  '(pid, foreground_pty_fd) ← create h sys (tenant_impl tb spec rootfs notify_path (config_at th (c_root container))
                                (c_systemd container) csocketfd user_ns_config);
  _ ← step sys (NotifyStart notify_path);
  _ ← step sys CloseWriteEnd;
  err_str_buf ← read_report (chunks th) [];
  if bool_decide (err_str_buf = []) then mret (pid, foreground_pty_fd) else pure (Err (OtherBytes err_str_buf)).

(** [None] if no new name was found with the given numbers of draws. *)
Definition tenant_build (fuel : nat) (tb : TenantContainerBuilder) : B (option (Z * option Z)) :=
  dir ← lookup_container_dir tb;
  container ← load_container_state tb dir;
  spec ← load_init_spec container;
  spec ← adapt_spec_for_tenant tb spec container;
  _ ← pure (check_terminal (t_base tb) spec (t_detached tb));
  notify_name ← generate_name fuel 0 dir "tenant-notify-";
  match notify_name with
  | None => mret None
  | Some notify_name =>
      root ← pure (ok_or (cfg_root spec) (MissingSpec "root"));
      _ ← step sys (Canonical root);
      tty_name ← generate_name fuel fuel dir "tenant-tty-";
      match tty_name with
      | None => mret None
      | Some tty_name =>
          r ← join_container tb spec container dir (join dir [Normal notify_name]) (canonical (th_host th) root) tty_name;
          mret (Some r)
      end
  end.
End tenant.

(** ** Privileges of the process *)

Section privileges.
Context (cr : crates).

(** The parser of the [caps] crate never gives the hidden last variant. *)
Context (cap_names : ∀ n, cap_from_str cr n ≠ Some Nonexhaustive).

(** The capabilities that the options name. *)
Definition requested (names : list string) (caps : list SpecCapability) : Prop :=
  Forall2 (λ n c, cap_from_str cr n = Some (to_cap c)) names caps.

Lemma collect_spec {A C} (f : A → outcome BuildError C) (Q : A → C → Prop) (P : A → Prop) l acc :
  (∀ a, a ∈ l → ok_iff (f a) (P a)) → (∀ a c, a ∈ l → f a = Ok c → Q a c) →
  ok_iff (for_each (λ a acc, c ← f a; Ok (acc ++ [c])) l acc) (Forall P l) ∧
  ∀ r, for_each (λ a acc, c ← f a; Ok (acc ++ [c])) l acc = Ok r → ∃ l', r = acc ++ l' ∧ Forall2 Q l l'.
Proof.
  revert acc. induction l as [|a l IH]; intros acc Hok HQ; cbn [for_each].
  { split; [constructor|]. intros r [= <-]. exists []. by rewrite app_nil_r. }
  pose proof (Hok a) as Ha. specialize (Ha (list_elem_of_here _ _)).
  destruct (f a) as [c|e|] eqn:Hf; run; [|split; [|done]; by intros [? _]%Forall_cons|done].
  destruct (IH (acc ++ [c])) as [IH1 IH2]; [intros; apply Hok; by right|intros; eapply HQ; [by right|done]|].
  split; [eapply ok_iff_mono; [|exact IH1]; rewrite Forall_cons; cbn in Ha; tauto|].
  intros r (l' & -> & Hl)%IH2. exists (c :: l'). split; [by rewrite <- app_assoc|]. constructor; [|done].
  by apply HQ; [left|].
Qed.

Lemma get_caps_spec names : 
  ok_iff (caps ← parse_caps cr names; spec_caps_of caps) (Forall (λ n, is_Some (cap_from_str cr n)) names) ∧
  ∀ caps, (caps ← parse_caps cr names; spec_caps_of caps) = Ok caps → requested names caps.
Proof.
  unfold parse_caps, spec_caps_of.
  destruct (collect_spec (λ cap, ok_or (cap_from_str cr cap) (UnknownCapability cap))
    (λ n c, cap_from_str cr n = Some c) (λ n, is_Some (cap_from_str cr n)) names []) as [Hok Hres].
  { intros n _. destruct (cap_from_str cr n); cbn; [by eexists|by intros [? ?]]. }
  { intros n c _. by destruct (cap_from_str cr n); intros [= ->]. }
  destruct (for_each _ names []) as [cs|e|]; run; [|done..]. destruct (Hres cs eq_refl) as (l' & -> & Hcs).
  assert (Nonexhaustive ∉ l') as Hne.
  { intros (i & Hi)%list_elem_of_lookup. destruct (Forall2_lookup_r _ _ _ _ _ Hcs Hi) as (n & _ & Hn). by apply cap_names in Hn. }
  destruct (collect_spec (λ c, from_cap c) (λ c s, c = to_cap s) (λ _, True) l' []) as [Hok2 Hres2].
  { intros c Hc. by destruct c. }
  { intros c s _ Hs. symmetry. by apply to_from_cap in Hs. }
  cbn [app]. split; [eapply ok_iff_mono; [|exact Hok2]; cbn in Hok|].
  - split; [done|]. intros _. by apply Forall_true.
  - intros caps (l2 & -> & H2)%Hres2. cbn. unfold requested. clear -Hcs H2. revert names Hcs.
    induction H2 as [|c s l' l2 -> _ IH]; intros names Hcs; inversion Hcs; subst; constructor; auto.
Qed.

Lemma env_entry_key e : ∃ v, env_entry e = Some (env_key e, v).
Proof.
  unfold env_entry, env_key. pose proof (concat_split_on "="%char e) as He.
  destruct (split_on "=" e) as [|k rest] eqn:Hs; [|by eexists].
  unfold split_on in Hs. apply fmap_nil_inv in Hs. clear He. exfalso. revert Hs. generalize (chars e). intros l.
  destruct l as [|c l]; cbn; [done|]. case_match; [done|]. by destruct (split_chars _ l).
Qed.

Lemma parse_env_filter (keys : list string) l k : k ∉ keys →
  parse_env (filter (λ entry, env_key entry ∉ keys) l) !! k = parse_env l !! k.
Proof.
  intros Hk. induction l as [|e l IH] using rev_ind; [done|]. destruct (env_entry_key e) as [v Hv].
  destruct (parse_env_lookup l e _ _ Hv) as [Hself Hother]. rewrite filter_app, filter_cons, filter_nil. case_decide as Hd.
  - destruct (parse_env_lookup (filter (λ entry, env_key entry ∉ keys) l) e _ _ Hv) as [Hself' Hother'].
    destruct (decide (k = env_key e)) as [->|Hne]; [by rewrite Hself, Hself'|]. by rewrite Hother, Hother'.
  - rewrite app_nil_r, IH. symmetry. apply Hother. by intros ->.
Qed.

Lemma parse_env_pairs env l : NoDup env.*1 → Forall (λ kv, "="%char ∉ chars kv.1) env →
  parse_env (l ++ ((λ kv, kv.1 +:+ "=" +:+ kv.2) <$> env)) = list_to_map env ∪ parse_env l.
Proof.
  unfold parse_env. rewrite omap_app, foldl_app. generalize (foldl (λ (m : gmap string string) kv, <[kv.1:=kv.2]> m) ∅ (omap env_entry l)).
  induction env as [|[k v] env IH]; intros m Hnd Hk; [cbn; by rewrite (left_id_L ∅ (∪))|].
  apply NoDup_cons in Hnd as [Hnotin Hnd]. apply Forall_cons in Hk as [Hk1 Hk].
  rewrite fmap_cons. cbn [fst snd omap list_omap]. cbn [fst] in Hk1. rewrite env_entry_pair by done. cbn [foldl fst snd].
  rewrite IH by done. cbn. rewrite <- insert_union_r, insert_union_l; [done|]. by apply not_elem_of_list_to_map_1.
Qed.

(** The environment: the variables of the options, then those of the configuration. *)
Lemma get_environment_spec tb spec_env :
  NoDup (t_env tb).*1 → Forall (λ kv, "="%char ∉ chars kv.1) (t_env tb) →
  parse_env (get_environment tb spec_env) = list_to_map (t_env tb) ∪ parse_env spec_env.
Proof.
  intros Hnd Hk. unfold get_environment. rewrite parse_env_pairs by done. apply map_eq. intros k.
  destruct (decide (k ∈ (t_env tb).*1)) as [Hin|Hout].
  - assert (is_Some ((list_to_map (t_env tb) : gmap string string) !! k)) as [v Hv].
    { destruct ((list_to_map (t_env tb) : gmap string string) !! k) eqn:Hl; [by eexists|].
      by apply not_elem_of_list_to_map_2 in Hl. }
    by rewrite !(lookup_union_Some_l _ _ _ _ Hv).
  - rewrite !lookup_union_r by (by apply not_elem_of_list_to_map_1). by apply parse_env_filter.
Qed.

Lemma to_set_app a c : to_set (a ++ c) = to_set a ∪ to_set c.
Proof. apply set_eq. intros x. rewrite elem_of_union, !elem_of_to_set. set_solver. Qed.

(** The capabilities of the process, from those of the container and those asked for. *)
Definition caps_extended (old : option LinuxCapabilities) (caps : list SpecCapability) (lc : LinuxCapabilities) : Prop :=
  let was f := to_set (default [] (old ≫= f)) in
  to_set (default [] (lc_bounding lc)) = was lc_bounding ∪ to_set caps ∧
  to_set (default [] (lc_effective lc)) = was lc_effective ∪ to_set caps ∧
  to_set (default [] (lc_permitted lc)) = was lc_permitted ∪ to_set caps ∧
  lc_inheritable lc = old ≫= lc_inheritable ∧
  to_set (default [] (lc_ambient lc)) =
    (if bool_decide (is_Some (lc_inheritable lc)) then was lc_ambient ∪ to_set caps else ∅).

Lemma get_capabilities_spec names spec :
  ok_iff (get_capabilities cr names spec)
    (Forall (λ n, is_Some (cap_from_str cr n)) names ∧ is_Some (cfg_process spec)) ∧
  ∀ lc, get_capabilities cr names spec = Ok lc → ∃ pr caps, cfg_process spec = Some pr ∧
    requested names caps ∧ caps_extended (p_capabilities pr) caps lc.
Proof.
  destruct (get_caps_spec names) as [Hok Hreq]. unfold get_capabilities.
  destruct (parse_caps cr names) as [cs|e|]; cbn [mbind outcome_bind] in *; [|by split; [intros [? _]|done]|done].
  destruct (spec_caps_of cs) as [caps|e|]; cbn [mbind outcome_bind] in *; [|by split; [intros [? _]|done]|done].
  destruct (cfg_process spec) as [pr|]; cbn [ok_or mbind outcome_bind]; [|split; [|done]; by intros [_ [? ?]]].
  assert (∀ lc, caps_extended (p_capabilities pr) caps lc → ok_iff (E:=BuildError) (Ok lc)
    (Forall (λ n, is_Some (cap_from_str cr n)) names ∧ is_Some (Some pr)) ∧
    ∀ lc', Ok (E:=BuildError) lc = Ok lc' → ∃ pr' caps', Some pr = Some pr' ∧ requested names caps' ∧
      caps_extended (p_capabilities pr') caps' lc') as Hend.
  { intros lc Hlc. split; [split; [done|by eexists]|]. intros lc' [= <-]. exists pr, caps. auto. }
  unfold caps_extended in *. destruct (p_capabilities pr) as [lc0|]; [destruct (lc_inheritable lc0) as [inh|] eqn:Hi|];
    apply Hend; cbn; rewrite ?Hi, ?to_set_app; cbn; split_and!; try done; set_solver.
Qed.

(** What becomes of a privilege or a variable that the configuration has. *)
Record tenant_as_asked (tb : TenantContainerBuilder) (spec : Config) (p : ProcessConfig) : Prop := {
  asked_args : p_args p = Some (t_args tb);
  asked_cwd d : t_cwd tb = Some d → cwd (p_base p) = d ∧ has_root (components d) = true;
  asked_terminal : terminal (p_base p) = Some (t_tty tb);
  asked_caps : ∃ pr caps lc, cfg_process spec = Some pr ∧ p_capabilities p = Some lc ∧
    requested (t_capabilities tb) caps ∧ caps_extended (p_capabilities pr) caps lc;
  asked_privileges :
    t_no_new_privs tb = Some true ∨ (cfg_process spec ≫= no_new_privileges ∘ p_base) = Some true →
    no_new_privileges (p_base p) = Some true;
  asked_env : NoDup (t_env tb).*1 → Forall (λ kv, "="%char ∉ chars kv.1) (t_env tb) →
    parse_env (default [] (p_env p)) =
      list_to_map (t_env tb) ∪ parse_env (default [] (cfg_process spec ≫= p_env)) }.

(** C30: the process of [exec].  It is put together exactly if there are arguments, the
    working directory is absolute, the capabilities are known and the configuration has a
    process, and without panic.  Its variables are those of the options and, for other
    names, those of the configuration; [no_new_privileges] cannot be taken back by the
    options; the bounding, effective and permitted sets are those of the container with
    the capabilities asked for, the inheritable set is never extended, and the ambient set
    is only where there is an inheritable one. *)
Theorem tenant_process_spec tb spec :
  ok_iff (tenant_process cr tb spec)
    (t_args tb ≠ [] ∧ (∀ d, t_cwd tb = Some d → has_root (components d) = true) ∧
     Forall (λ n, is_Some (cap_from_str cr n)) (t_capabilities tb) ∧ is_Some (cfg_process spec)) ∧
  ∀ p, tenant_process cr tb spec = Ok p → tenant_as_asked tb spec p.
Proof.
  unfold tenant_process, get_args, get_working_dir. destruct (get_capabilities_spec (t_capabilities tb) spec) as [Hok Hres].
  case_bool_decide as Ha; run; [split; [by intros [? _]|done]|].
  assert (∀ cwd_ : option string, (∀ d, t_cwd tb = Some d → cwd_ = Some d ∧ has_root (components d) = true) →
    let r := capabilities ← get_capabilities cr (t_capabilities tb) spec;
             Ok (MkProcessConfig (tenant_base cr tb spec cwd_)
               (Some (get_environment tb (default [] (cfg_process spec ≫= p_env)))) (Some (t_args tb))
               (Some capabilities) (p_oom_score_adj (process_default cr))) in
    ok_iff r (t_args tb ≠ [] ∧ (∀ d, t_cwd tb = Some d → has_root (components d) = true) ∧
      Forall (λ n, is_Some (cap_from_str cr n)) (t_capabilities tb) ∧ is_Some (cfg_process spec)) ∧
    ∀ p, r = Ok p → tenant_as_asked tb spec p) as Hmain.
  { intros cwd_ Hcwd. destruct (get_capabilities cr (t_capabilities tb) spec) as [lc|e|]; run; cbn in Hok |- *; [| |done].
    - split; [split_and!; [done|by intros d [_ ?]%Hcwd|apply Hok..]|]. intros p [= <-].
      destruct (Hres lc eq_refl) as (pr & caps & Hpr & Hreq & Hext). split; [done| |done|by exists pr, caps, lc| |].
      + intros d Hd. by destruct (Hcwd d Hd) as [-> ?].
      + cbn. unfold get_no_new_privileges. intros [->|Hn]; [done|]. rewrite Hn. by destruct (t_no_new_privs tb) as [[]|].
      + apply get_environment_spec.
    - split; [|done]. intros (_ & _ & ? & ?). by apply Hok. }
  destruct (t_cwd tb) as [d|] eqn:Hd; cbn [mbind outcome_bind]; [|by apply Hmain].
  destruct (has_root (components d)) eqn:Hroot; cbn [negb mbind outcome_bind].
  - apply Hmain. by intros d' [= <-].
  - split; [|done]. intros (_ & Habs & _). specialize (Habs d eq_refl). congruence.
Qed.
End privileges.

(** ** Namespaces of the process *)

(** The names of the namespaces in the directory of a process. *)
Definition ns_file (typ : LinuxNamespaceType) : string :=
  match typ with
  | NsMount => "mnt" | NsCgroup => "cgroup" | NsUts => "uts" | NsIpc => "ipc" | NsUser => "user"
  | NsPid => "pid" | NsNetwork => "net" | NsTime => "time"
  end.

(** The namespaces [ns] are those that the configuration lists, user namespaces excepted,
    each once and as the init process has them. *)
Definition namespaces_joined (init : gmap string string) (listed ns : list LinuxNamespace) : Prop :=
  NoDup (ns_typ <$> ns) ∧
  ∀ typ path, MkNamespace typ path ∈ ns ↔
    typ ≠ NsUser ∧ typ ∈ (ns_typ <$> listed) ∧ is_Some path ∧ path = init !! ns_file typ.

Lemma find_entry (l : list (string * string)) n :
  snd <$> List.find (λ e : string * string, String.eqb e.1 n) l = (list_to_map l : gmap string string) !! n.
Proof.
  induction l as [|[k v] l IH]; [done|]. cbn. destruct (String.eqb_spec k n) as [->|Hn].
  - by rewrite lookup_insert_eq.
  - by rewrite lookup_insert_ne.
Qed.

Lemma looked_up name typ : (name, typ) ∈ NAMESPACE_TYPES ↔ name = ns_file typ ∧ typ ≠ NsUser.
Proof.
  unfold NAMESPACE_TYPES. split; [set_solver|]. intros [-> Ht]. destruct typ; set_solver.
Qed.

Lemma omap_types {A} (f : A → option LinuxNamespace) (typ : A → LinuxNamespaceType) l :
  (∀ a n, f a = Some n → ns_typ n = typ a) → ns_typ <$> omap f l `sublist_of` typ <$> l.
Proof.
  intros Hf. induction l as [|a l IH]; [done|]. cbn. destruct (f a) as [n|] eqn:Ha; cbn.
  - rewrite (Hf _ _ Ha). by apply sublist_skip.
  - by apply sublist_cons.
Qed.

Lemma get_namespaces_spec init spec_ns :
  namespaces_joined (list_to_map init) (default [] spec_ns) (get_namespaces init spec_ns).
Proof.
  unfold get_namespaces, namespaces_joined. split.
  { eapply sublist_NoDup; [|apply (omap_types _ snd)].
    - apply (bool_decide_unpack _). by vm_compute.
    - intros [name typ] n Hn. cbn in Hn. case_bool_decide; [|done]. by destruct (List.find _ init); simplify_eq/=. }
  intros typ path. rewrite list_elem_of_omap. split.
  - intros ([name t] & [-> Hu]%looked_up & Hns). cbn [fst snd] in Hns. case_bool_decide as Ht; [|done].
    rewrite find_entry in Hns. apply bind_Some in Hns as (p & Hp & [= -> <-]). by rewrite Hp.
  - intros (Hu & Ht & [p ->] & Hp). exists (ns_file typ, typ). split; [by apply looked_up|]. cbn [fst snd].
    rewrite bool_decide_eq_true_2 by done. by rewrite find_entry, <- Hp.
Qed.

(** ** Building the process *)

(** Quiet computations whose result satisfies [V], and that panic only if [N]. *)
Definition quietly_with {A} (m : B A) (V : A → Prop) (N : Prop) : Prop :=
  runs m (λ r t, all_quiet t ∧ match r with Ok a => V a | Err _ => True | Panic => N end).

Lemma runs_quietly_with {A A'} (m : B A) V N (f : A → B A') Q :
  quietly_with m V N → absorbs Q → (∀ e, Q (Err e) []) → (N → Q Panic []) → (∀ a, V a → runs (f a) Q) → runs (m ≫= f) Q.
Proof.
  intros Hm Ha He Hp Hf. apply runs_bind, (runs_mono _ _ _ Hm).
  intros [a|e|] t [Ht Hv]; [apply (runs_mono _ _ _ (Hf a Hv)); auto|rewrite <- (app_nil_r t); auto..].
Qed.

Lemma quietly_with_step {A} sys c (a : A) (V : A → Prop) : quiet c = true → V a →
  quietly_with (_ ← step sys c; mret a) V False.
Proof.
  intros Hc Hv. apply runs_bind, runs_do; [apply (runs_pure (Ok a))|intros n]; (split; [by repeat constructor|done]).
Qed.

Lemma quietly_with_pure {A} (r : outcome BuildError A) (V : A → Prop) N :
  (∀ a, r = Ok a → V a) → (r = Panic → N) → quietly_with (pure r) V N.
Proof. intros Hv Hn. apply runs_pure. split; [constructor|]. destruct r; auto. Qed.

Lemma quietly_with_bind {A A'} (m : B A) V N (f : A → B A') V' :
  quietly_with m V N → (∀ a, V a → quietly_with (f a) V' N) → quietly_with (m ≫= f) V' N.
Proof.
  intros Hm Hf. eapply runs_quietly_with; [exact Hm| | | |exact Hf].
  - intros r t t' Ht [Ht' Hr]. split; [by apply Forall_app|done].
  - intros e. split; [constructor|done].
  - intros Hn. split; [constructor|done].
Qed.

Lemma quietly_with_quietly {A} (m : B A) : quietly m → quietly_with m (λ _, True) False.
Proof. intros Hm. apply (runs_mono _ _ _ Hm). intros r t [Ht Hr]. by destruct r. Qed.

Lemma quietly_with_weaken {A} (m : B A) V (N N' : Prop) : (N → N') → quietly_with m V N → quietly_with m V N'.
Proof. intros HN Hm. apply (runs_mono _ _ _ Hm). intros [] t [Ht Hr]; split; auto. Qed.

Section build.
Context (cr : crates) (cap_names : ∀ n, cap_from_str cr n ≠ Some Nonexhaustive).
Context (th : tenant_host) (sys : list event → call → option Z) (tb : TenantContainerBuilder).

Definition tenant_dir : Path := join (root_path (t_base tb)) (components (container_id (t_base tb))).
Definition tenant_container : Container := state_at (th_host th) tenant_dir.
Definition tenant_spec : Config := spec_at (th_host th) (join (c_bundle tenant_container) [Normal "config.json"]).

Definition joinable : Prop :=
  c_status tenant_container = Lifecycle.Running ∨
  c_status tenant_container = Lifecycle.Paused ∧ t_ignore_paused tb = true.

Lemma lookup_dir_quiet : quietly_with (lookup_container_dir sys tb) (.= tenant_dir) False.
Proof.
  unfold lookup_container_dir. fold tenant_dir. apply runs_bind, (runs_mono _ _ _ (exists_spec _ _)).
  intros r t ([n|] & -> & ->); [apply runs_pure|apply (runs_pure (Ok _))]; (split; [by repeat constructor|done]).
Qed.

Lemma load_state_quiet : quietly_with (load_container_state th sys tb tenant_dir)
  (λ c, c = tenant_container ∧ joinable) False.
Proof.
  unfold load_container_state, joinable. fold tenant_container.
  apply runs_bind, runs_do; [|intros n; split; [by repeat constructor|done]].
  destruct (c_status tenant_container), (t_ignore_paused tb); (apply (runs_pure (Ok _)) || apply runs_pure);
    (split; [by repeat constructor|auto]).
Qed.

Lemma tenant_validate_no_panic spec : tenant_validate_spec th spec ≠ Panic.
Proof.
  unfold tenant_validate_spec. apply bind_no_panic; [unfold validate_version; by case_match|intros _ _].
  apply bind_no_panic.
  { apply map_err_no_panic. unfold rootless_required, is_in_new_userns. case_match; [done|]. by destruct (uid_map _). }
  intros r _. apply map_err_no_panic. pose proof (validate_spec_ok (validator_env (th_host th)) (spec_of spec) r) as Hv.
  by destruct (validate_spec _ _ _).
Qed.

Lemma load_init_spec_quiet : quietly_with (load_init_spec th sys tenant_container)
  (λ spec, cfg_linux spec = cfg_linux tenant_spec) False.
Proof.
  unfold load_init_spec. fold tenant_spec. eapply quietly_with_bind; [by apply quietly_with_quietly, quietly_step|intros _ _].
  eapply quietly_with_bind; [|intros _ _; by apply quietly_with_step].
  apply (quietly_with_pure _ (λ _, True)); [done|]. intros Hp. by apply tenant_validate_no_panic in Hp.
Qed.

(** The namespaces of a configuration that was adapted: those of the init process that the
    configuration of the container lists. *)
Definition joins (spec : Config) : Prop :=
  ∃ pid l l' ns, c_pid tenant_container = Some pid ∧ cfg_linux tenant_spec = Some l ∧
    cfg_linux spec = Some l' ∧ namespaces (l_base l') = Some ns ∧
    namespaces_joined (list_to_map (namespaces_of th pid)) (default [] (namespaces (l_base l))) ns.

Lemma tenant_process_no_panic spec : tenant_process cr tb spec ≠ Panic.
Proof.
  unfold tenant_process. apply bind_no_panic; [unfold get_args; by case_match|intros ? _].
  apply bind_no_panic; [unfold get_working_dir; by repeat case_match|intros ? _]. apply bind_no_panic; [|done].
  destruct (get_capabilities_spec cr cap_names (t_capabilities tb) spec) as [Hok _]. by destruct (get_capabilities _ _ _).
Qed.

Lemma adapt_quiet spec : cfg_linux spec = cfg_linux tenant_spec →
  quietly_with (adapt_spec_for_tenant cr th sys tb spec tenant_container) joins (cfg_linux tenant_spec = None).
Proof.
  intros Hl. unfold adapt_spec_for_tenant. apply (quietly_with_bind _ (λ _, True)).
  { apply (quietly_with_weaken _ _ False); [done|]. destruct (t_process tb) as [file|].
    - unfold get_process. eapply quietly_with_bind; [apply quietly_with_quietly, quietly_exists|]. intros [] _.
      + by apply quietly_with_step.
      + by apply quietly_with_pure.
    - apply quietly_with_pure; [done|]. intros Hp. by apply tenant_process_no_panic in Hp. }
  intros p _. eapply quietly_with_bind; [apply (quietly_with_pure _ (λ pid, c_pid tenant_container = Some pid))|].
  { by destruct (c_pid tenant_container); intros pid [= <-]. }
  { by destruct (c_pid tenant_container). }
  intros pid Hpid. do 2 (eapply quietly_with_bind;
    [apply (quietly_with_weaken _ _ False); [done|]; by apply quietly_with_quietly, quietly_step|intros _ _]).
  rewrite Hl. destruct (cfg_linux tenant_spec) as [l|] eqn:Hls; [|by apply quietly_with_pure].
  apply (quietly_with_pure (Ok _)); [|done]. intros spec' [= <-].
  eexists pid, l, _, _. split_and!; try done. apply get_namespaces_spec.
Qed.

Lemma quietly_generate fuel i dir prefix : quietly (generate_name th sys fuel i dir prefix).
Proof.
  revert i. induction fuel as [|fuel IH]; intros i; cbn [generate_name]; [apply quietly_ret|].
  apply quietly_bind; [apply quietly_exists|]. intros []; [apply IH|apply quietly_ret].
Qed.

(** The result of the reads is empty only if there was nothing to read. *)
Lemma read_report_spec l buf : runs (read_report sys l buf) (λ r t, all_quiet t ∧
  match r with Ok x => x = buf ++ (l ≫= read_buffer) | Err _ => True | Panic => False end).
Proof.
  revert buf. induction l as [|c l IH]; intros buf; cbn [read_report].
  - apply runs_bind, runs_do; [apply (runs_pure (Ok _))|intros n]; (split; [by repeat constructor|]); [|done].
    cbn. by rewrite app_nil_r.
  - apply runs_bind, runs_do; [|intros n; split; [by repeat constructor|done]].
    apply (runs_mono _ _ _ (IH _)). intros r t [Ht Hr]. split; [by constructor|]. destruct r; [|done..].
    rewrite Hr. cbn. by rewrite app_assoc.
Qed.

Lemma reads_nothing l : l ≫= read_buffer = [] → l = [].
Proof.
  destruct l as [|c l]; [done|]. cbn. intros [Hc _]%app_nil. unfold read_buffer in Hc. apply app_nil in Hc as [-> Hr]. done.
Qed.

(** What [build] has done: [ok] says what its value means. *)
Definition joined {A} (ok : A → list event → Prop) (r : outcome BuildError A) (t : list event) : Prop :=
  no_cleanup t ∧ saves t = [] ∧
  (mains t = [] ∨ ∃ a, mains t = [a] ∧ joinable ∧ joins (a_spec a) ∧
     within (config_at th (c_root tenant_container)) (cgroup_path (a_cgroup a))) ∧
  match r with Ok v => ok v t | Err _ => True | Panic => cfg_linux tenant_spec = None end.

(** The process was started and had nothing to report. *)
Definition running (v : Z * option Z) (t : list event) : Prop :=
  chunks th = [] ∧ ∃ a, mains t = [a] ∧ main_result (th_host th) a = v.

Definition maybe_running (v : option (Z * option Z)) (t : list event) : Prop := ∀ x, v = Some x → running x t.

Lemma joined_absorbs {A} (ok : A → list event → Prop) :
  (∀ v t t', all_quiet t → ok v t' → ok v (t ++ t')) → absorbs (joined ok).
Proof.
  intros Hok r t t' Ht (Hc' & Hs' & Hm' & Hr). destruct (quiet_nothing t Ht) as (Hc & Hm & Hs). unfold joined.
  split; [by apply Forall_app|]. unfold saves, mains in *. rewrite !omap_app, Hs, Hm. split_and!; try done.
  destruct r; auto.
Qed.

Lemma running_absorbs v t t' : all_quiet t → running v t' → running v (t ++ t').
Proof.
  intros (_ & Hm & _)%quiet_nothing (Hc & a & Ha & Hr). split; [done|]. exists a. unfold mains in *. by rewrite omap_app, Hm.
Qed.

Lemma joined_nothing {A} (ok : A → list event → Prop) e : joined ok (Err e) [].
Proof. split_and!; [constructor|done|by left|done]. Qed.

Lemma join_container_spec spec dir notify rootfs tty : joinable → joins spec →
  runs (join_container th sys tb spec tenant_container dir notify rootfs tty) (joined running).
Proof.
  intros Hj Hn. pose proof (joined_absorbs running running_absorbs) as Habs. unfold join_container.
  apply runs_quietly; [apply quietly_console|done|apply joined_nothing|intros fd].
  apply runs_quietly; [apply quietly_pure, map_err_no_panic, UserNsProps.user_ns_new_no_panic|done|apply joined_nothing|intros u].
  do 2 (apply runs_quietly; [by apply quietly_step|done|apply joined_nothing|intros _]).
  set (impl := tenant_impl _ _ _ _ _ _ _ _ _).
  apply runs_bind, (runs_mono _ _ _ (create_runs (th_host th) sys impl)). intros r t (Hm & Hs & Hr). specialize (Hs eq_refl).
  assert (mains t = [] ∨ ∃ a, mains t = [a] ∧ joinable ∧ joins (a_spec a) ∧
    within (config_at th (c_root tenant_container)) (cgroup_path (a_cgroup a))) as Hmain.
  { destruct Hm as [Hm|(a & (p & Hp & ->) & Hm)]; [by left|right]. eexists. split_and!; [exact Hm|done|done|].
    by eapply final_within. }
  destruct r as [[pid fd']|e|]; [|destruct e; try done; destruct Hr as [Hc _]; by split_and!|done].
  destruct Hr as (Hc & Ha & _).
  assert (∀ r t', all_quiet t' → (∀ v, r = Ok v → running v t) → r ≠ Panic → joined running r (t ++ t')) as Hend.
  { intros r t' Ht' Hv Hp. destruct (quiet_nothing t' Ht') as (Hc' & Hm' & Hs'). split; [by apply Forall_app|].
    unfold saves, mains in *. rewrite !omap_app, Hs', Hm', !app_nil_r. split_and!; try done. destruct r; [|done..].
    destruct (Hv _ eq_refl) as (? & a' & ? & ?). split; [done|]. exists a'. unfold mains. by rewrite omap_app, Hm', app_nil_r. }
  apply runs_bind, runs_do; [|intros n; by apply Hend; [repeat constructor|..]].
  apply runs_bind, runs_do; [|intros n; by apply Hend; [repeat constructor|..]].
  apply runs_bind, (runs_mono _ _ _ (read_report_spec _ _)). intros [buf|e|] t' [Ht' Hb]; [|by apply Hend; [repeat constructor|..]|done].
  cbn [app] in Hb. case_bool_decide as Hnil; [apply (runs_pure (Ok _))|apply runs_pure]; rewrite app_nil_r;
    (apply Hend; [by repeat constructor| |done]); [|done].
  intros v [= <-]. split; [apply reads_nothing; congruence|]. exact Ha.
Qed.

(** C31: joining a container.  A process is started only in a container that runs, or that is
    paused and may be, at most one, in a cgroup at or below the one that was saved when the
    container was created.  It is to join exactly the namespaces of the init process whose
    types the configuration of the container lists, each once and with the path that the
    system has for it; the exception is the user namespace, which is never joined, listed
    or not.  The container itself is left alone: no state is saved and nothing is cleaned
    up.  Success means that the process had nothing to report.  There is a panic only for a
    configuration without a Linux section. *)
Theorem tenant_build_spec fuel :
  runs (tenant_build cr th sys fuel tb) (λ r t,
    no_cleanup t ∧ saves t = [] ∧
    (mains t = [] ∨ ∃ a, mains t = [a] ∧ joinable ∧ joins (a_spec a) ∧
       within (config_at th (c_root tenant_container)) (cgroup_path (a_cgroup a))) ∧
    match r with
    | Ok (Some v) => chunks th = [] ∧ ∃ a, mains t = [a] ∧ main_result (th_host th) a = v
    | Ok None | Err _ => True
    | Panic => cfg_linux tenant_spec = None
    end).
Proof.
  enough (runs (tenant_build cr th sys fuel tb) (joined maybe_running)) as H.
  { apply (runs_mono _ _ _ H). intros r t (? & ? & ? & Hr). split_and!; try done. destruct r as [[v|]| |]; try done. by apply Hr. }
  pose proof (joined_absorbs maybe_running (λ v t t' Ht H x Hx, running_absorbs x t t' Ht (H x Hx))) as Habs.
  pose proof (joined_nothing maybe_running) as Hnil.
  assert (∀ N : Prop, (N → cfg_linux tenant_spec = None) → N → joined maybe_running Panic []) as Hpan.
  { intros N HN Hn. split_and!; [constructor|done|by left|by apply HN]. }
  assert (runs (mret None) (joined maybe_running)) as Hnone.
  { apply (runs_pure (Ok None)). split_and!; [constructor|done|by left|done]. }
  unfold tenant_build.
  eapply runs_quietly_with; [apply lookup_dir_quiet|done|done|by apply Hpan|intros dir ->].
  eapply runs_quietly_with; [apply load_state_quiet|done|done|by apply Hpan|intros c [-> Hj]].
  eapply runs_quietly_with; [apply load_init_spec_quiet|done|done|by apply Hpan|intros spec Hl].
  eapply runs_quietly_with; [by apply adapt_quiet|done|done|by apply Hpan|intros spec' Hn]. clear Hl spec.
  apply runs_quietly; [apply quietly_pure; unfold check_terminal; by repeat case_match|done..|intros _].
  apply runs_quietly; [apply quietly_generate|done..|intros [name|]; [|done]].
  apply runs_quietly; [apply quietly_pure, ok_or_no_panic|done..|intros root].
  apply runs_quietly; [by apply quietly_step|done..|intros _].
  apply runs_quietly; [apply quietly_generate|done..|intros [tty|]; [|done]].
  apply runs_bind, (runs_mono _ _ _ (join_container_spec _ _ _ _ _ Hj Hn)). intros [v|e|] t (Hc & Hs & Hm & Hr); [|by split_and!..].
  apply (runs_pure (Ok _)). rewrite app_nil_r. split_and!; try done. by intros x [= <-].
Qed.
End build.

(** A name that is returned did not exist when it was looked up. *)
Lemma generate_name_new th sys fuel i dir prefix : runs (generate_name th sys fuel i dir prefix) (λ r t,
  ∀ name, r = Ok (Some name) → ∃ n, last t = Some (Stat (join dir [Normal name]), Some n)).
Proof.
  revert i. induction fuel as [|fuel IH]; intros i; cbn [generate_name]; [by apply (runs_pure (Ok None))|].
  apply runs_bind, (runs_mono _ _ _ (exists_spec _ _)). intros r t ([n|] & -> & ->).
  - apply (runs_pure (Ok (Some _))). intros name [= <-]. by exists n.
  - apply (runs_mono _ _ _ (IH _)). intros r t Hr name Hn. destruct (Hr name Hn) as [n Hl]. exists n.
    by rewrite last_app, Hl.
Qed.

(** ** Examples *)

Module ExampleTenant.
Definition ex_crates : crates :=
  MkCrates (λ n, if String.eqb n "CAP_KILL" then Some CAP_KILL else None)
    (MkProcessConfig ExampleBuild.ex_process None None None None)
    (MkLinuxConfig (MkLinux None None None None None None None None None None None false false) None false).

Definition ex_config : Config := MkConfiguration "1.0.2"
  (Some (MkProcessConfig
     (MkProcess None (MkUser 0 0 None None) true "/" (Some true) true None None None None None)
     (Some ["PATH=/bin"; "HOME=/root"]) (Some ["sh"])
     (Some (MkLinuxCapabilities (Some [Chown]) (Some [Chown]) (Some [Chown]) None None)) None))
  (Some (MkLinuxConfig (MkLinux (Some [MkNamespace NsPid None; MkNamespace NsUser None]) None None None None None None
                          None None None None false false) None false))
  (Some (components "rootfs")) None false None None None None.

Definition ex_tenant : TenantContainerBuilder :=
  MkTenant (builder_new "web") [("PATH", "/opt/bin"); ("A", "b=c")] (Some "/work") ["ls"; "-l"] (Some false) ["CAP_KILL"]
    None false false false [] None None false (Some "sub") None None.

Lemma ex_cap_names n : cap_from_str ex_crates n ≠ Some Nonexhaustive.
Proof. cbn. by destruct (String.eqb n "CAP_KILL"). Qed.

Lemma tenant_process_spec_witness : ∃ p, tenant_process ex_crates ex_tenant ex_config = Ok p ∧
  no_new_privileges (p_base p) = Some true ∧
  parse_env (default [] (p_env p)) !! "PATH" = Some "/opt/bin" ∧ parse_env (default [] (p_env p)) !! "HOME" = Some "/root".
Proof.
  destruct (tenant_process ex_crates ex_tenant ex_config) as [p|e|] eqn:Hp; [|by vm_compute in Hp..].
  destruct (proj2 (tenant_process_spec ex_crates ex_cap_names ex_tenant ex_config) p Hp) as [_ _ _ _ Hnnp Henv].
  exists p. split_and!; [done|apply Hnnp; by right|rewrite Henv..].
  all: try (by apply (bool_decide_unpack _); vm_compute).
  all: vm_compute; reflexivity.
Defined.

Definition ex_tenant_host (l : list (list byte)) : tenant_host :=
  MkTenantHost
    (MkHost (λ _, ex_config) (λ p, p) (λ _ b, join b [Normal "rootfs"])
       0 (inr "0 0 4294967295") (Validator.MkEnv (λ _, inl "ENOENT") (Some false)) (inl 2) (Some "/usr/bin") (λ _, false)
       (inr []) (λ _, 9) (λ _, (4812, None)) (λ _, (None, None))
       (λ dir, MkContainer "web" Lifecycle.Running (Some 4711) (Some 0) false (components "/bundle") None None None None dir))
    (λ _, process_default ex_crates) (λ _, [("pid", "/proc/4711/ns/pid"); ("user", "/proc/4711/ns/user")])
    (λ _, components "/web") (λ n, Z.of_nat n + 4096) 7 l.

(** Only the directory of the container exists. *)
Definition directory_there (w : list event) (c : call) : option Z :=
  match c with Stat p => if bool_decide (p = components "/run/youki/web") then None else Some 2 | _ => None end.

Lemma tenant_build_spec_witness : ∃ t,
  tenant_build ex_crates (ex_tenant_host []) directory_there 3 ex_tenant [] = (Ok (Some (4812, None)), t) ∧
  saves t = [] ∧ ∃ a l ns, mains t = [a] ∧ cfg_linux (a_spec a) = Some l ∧ namespaces (l_base l) = Some ns ∧
    MkNamespace NsPid (Some "/proc/4711/ns/pid") ∈ ns.
Proof.
  destruct (tenant_build_spec ex_crates ex_cap_names (ex_tenant_host []) directory_there ex_tenant 3 []) as (t & Ht & Hpost).
  exists t.
  assert ((tenant_build ex_crates (ex_tenant_host []) directory_there 3 ex_tenant []).1 = Ok (Some (4812, None))) as Hr
    by (vm_compute; reflexivity).
  rewrite Hr in Hpost. destruct (tenant_build _ _ _ _ _ _) as [r w]. cbn in Hr, Ht. subst r w.
  destruct Hpost as (_ & Hs & [Hm|(a & Hm & _ & Hj & _)] & _ & a' & Ha & _); [by rewrite Ha in Hm|].
  split; [reflexivity|]. split; [exact Hs|]. destruct Hj as (pid & l & l' & ns & Hpid & Hl & Hl' & Hns & _ & Hin).
  exists a, l', ns. split; [exact Hm|]. split; [exact Hl'|]. split; [exact Hns|]. apply Hin.
  vm_compute in Hl. injection Hl as <-. vm_compute in Hpid. injection Hpid as <-.
  split; [discriminate|]. split; [left|]. split; [by eexists|]. vm_compute. reflexivity.
Defined.

(** The report of a process that fails is padded with zero bytes to a multiple of three. *)
Lemma report_padded : ∃ t,
  tenant_build ex_crates (ex_tenant_host [[Byte.x65; Byte.x72; Byte.x72]; [Byte.x21]]) directory_there 3 ex_tenant [] =
    (Err (OtherBytes [Byte.x65; Byte.x72; Byte.x72; Byte.x21; Byte.x00; Byte.x00]), t).
Proof. eexists. vm_compute. reflexivity. Qed.
End ExampleTenant.
