(* ===== verification/SELinux.v ===== *)
(** * SELinux: labels and modes of SELinux

    Models [src/experiment/selinux]: labels and the operations on them
    ([selinux_label.rs]), the state of the library, with what it has read from the system
    ([selinux.rs]), and extended attributes ([tools/xattr.rs]).

    The world holds the attributes and the contents of the files.  What a path names, its
    file system and what the kernel does with a text that is written are parameters.  A
    system call may fail or be interrupted: [pending] says how the next ones end.  The loops
    that repeat interrupted calls have one turn more than there are pending interruptions,
    which is shown to be enough. *)
From S2P Require Import Prelude Text Paths Calls Utils.
Local Open Scope string_scope.
Local Open Scope list_scope.
Local Open Scope Z_scope.

(** ** Modes *)

Inductive SELinuxMode : Type := ENFORCING | PERMISSIVE | DISABLED.

Definition mode_from_i32 (mode : Z) : SELinuxMode :=
  if mode =? 1 then ENFORCING else if mode =? 0 then PERMISSIVE
  else if mode =? -1 then DISABLED else DISABLED.

Definition mode_from_str (mode : string) : SELinuxMode :=
  if bool_decide (mode = "enforcing") then ENFORCING
  else if bool_decide (mode = "permissive") then PERMISSIVE else DISABLED.

Definition mode_fmt (mode : SELinuxMode) : string :=
  match mode with ENFORCING => "enforcing" | PERMISSIVE => "permissive" | DISABLED => "disabled" end.

Definition SELINUX_FS_MOUNT : Path := components "/sys/fs/selinux".
Definition CONTEXT_FILE : Path := components "/usr/share/containers/selinux/contexts".
Definition SELINUX_TYPE_TAG : string := "SELINUXTYPE".
Definition SELINUX_TAG : string := "SELINUX".
Definition SELINUX_DIR : Path := components "/etc/selinux/".
Definition SELINUX_CONFIG : Path := components "config".
Definition KEY_LABEL_PATH : Path := components "/proc/self/attr/keycreate".

(** ** Errors: why an operation failed, where the code formats a message *)

Inductive reason : Type :=
  | EmptyPath | NoMountPoint | NoPolicyRoot | NoEnforcePath | NotEnabled | NotOnProcfs | NotUtf8
  | NoKey (key : string) | NotNumber (k : IntErrorKind) | Errno (errno : Z).

Inductive SELinuxError : Type :=
  | SetFileLabel (r : reason) | LSetFileLabel (r : reason) | FileLabel (r : reason)
  | LFileLabel (r : reason) | IsProcHandle (r : reason) | ReadConFd (r : reason)
  | ReadCon (r : reason) | WriteCon (r : reason) | ClassIndex (r : reason)
  | PeerLabel (r : reason) | OpenContextFile (r : reason) | SetEnforceMode (r : reason)
  | GetConfigKey (r : reason) | InvalidSELinuxLabel (label : string).

Inductive XattrError : Type :=
  | SetXattr (errno : Z) | LSetXattr (errno : Z) | GetXattr (errno : Z) | LGetXattr (errno : Z)
  | XEINTR (errno : Z).

Definition xattr_errno (e : XattrError) : Z :=
  match e with SetXattr n | LSetXattr n | GetXattr n | LGetXattr n | XEINTR n => n end.

(** ** Labels *)

Record SELinuxLabel : Type := MkLabel {
  user : string; role : string; type_ : string; level : option string }.

#[global] Instance SELinuxLabel_eq_dec : EqDecision SELinuxLabel.
Proof. solve_decision. Defined.

Definition label_fmt (l : SELinuxLabel) : string :=
  match level l with
  | Some lv => user l +:+ ":" +:+ role l +:+ ":" +:+ type_ l +:+ ":" +:+ lv
  | None => user l +:+ ":" +:+ role l +:+ ":" +:+ type_ l
  end.

Definition label_try_from (label : string) : outcome SELinuxError SELinuxLabel :=
  let fields := split_on ":"%char label in
  if (length fields <? 3)%nat then Err (InvalidSELinuxLabel label)
  else
    user ← ok_or (fields !! 0%nat) (InvalidSELinuxLabel label);
    role ← ok_or (fields !! 1%nat) (InvalidSELinuxLabel label);
    type_ ← ok_or (fields !! 2%nat) (InvalidSELinuxLabel label);
    Ok (MkLabel user role type_ (fields !! 3%nat)).

Definition format_mount_label_by_type (src mount_label context_type : string) : string :=
  let quote := String (ascii_of_nat 34) "" in
  let context := context_type +:+ "=" +:+ quote +:+ mount_label +:+ quote in
  if bool_decide (mount_label = "") then src
  else if bool_decide (src = "") then context else src +:+ "," +:+ context.

Definition format_mount_label (src mount_label : string) : string :=
  format_mount_label_by_type src mount_label "context".

(** ** Text *)

(** [str::splitn] *)
Fixpoint splitn (n : nat) (sep : ascii) (s : string) : list string :=
  match n with
  | O => []
  | S O => [s]
  | S n => match split_once sep s with Some (a, b) => a :: splitn n sep b | None => [s] end
  end.

(** [str::trim_matches] and [str::trim_end_matches] with a character *)
Definition trim_end_char (c : ascii) (s : string) : string :=
  of_chars (rev (drop_while (Ascii.eqb c) (rev (chars s)))).

Definition trim_matches (c : ascii) (s : string) : string :=
  trim_end_char c (of_chars (drop_while (Ascii.eqb c) (chars s))).

(** [BufReader::lines] with [map_while(Result::ok)]: the lines up to one that is not UTF-8 *)
Fixpoint while_utf8 (ls : list string) : list string :=
  match ls with
  | [] => []
  | l :: ls => if utf8_valid (as_bytes l) then l :: while_utf8 ls else []
  end.

Definition read_lines (content : string) : list string := while_utf8 (lines content).

(** The length of the sequence that starts a text, and if it is a character.  A sequence
    that is not one ends before the first byte that cannot belong to it. *)
Definition utf8_first (l : list byte) : nat * bool :=
  let cont b := byte_in 128 191 b in
  match l with
  | [] => (0%nat, false)
  | b0 :: l =>
      let second b1 :=
        if byte_in 224 224 b0 then byte_in 160 191 b1 else if byte_in 237 237 b0 then byte_in 128 159 b1
        else if byte_in 240 240 b0 then byte_in 144 191 b1 else if byte_in 244 244 b0 then byte_in 128 143 b1
        else cont b1 in
      if byte_in 0 127 b0 then (1%nat, true)
      else if byte_in 194 223 b0 then
        match l with b1 :: _ => if cont b1 then (2%nat, true) else (1%nat, false) | [] => (1%nat, false) end
      else if byte_in 224 244 b0 then
        match l with
        | b1 :: l =>
            if second b1 then
              match l with
              | b2 :: l =>
                  if cont b2 then
                    if byte_in 224 239 b0 then (3%nat, true)
                    else match l with
                         | b3 :: _ => if cont b3 then (4%nat, true) else (3%nat, false)
                         | [] => (3%nat, false)
                         end
                  else (2%nat, false)
              | [] => (2%nat, false)
              end
            else (1%nat, false)
        | [] => (1%nat, false)
        end
      else (1%nat, false)
  end.

(** [String::from_utf8_lossy]: the character U+FFFD stands for each sequence that is none. *)
Fixpoint lossy (fuel : nat) (l : list byte) : list byte :=
  match fuel, l with
  | S fuel, _ :: _ =>
      let '(n, valid) := utf8_first l in
      (if valid then take n l else [Byte.xef; Byte.xbf; Byte.xbd]) ++ lossy fuel (drop n l)
  | _, _ => []
  end.

Definition from_utf8_lossy (s : string) : string :=
  of_bytes (lossy (String.length s) (as_bytes s)).

(** ** The state of the library and the world *)

Record SELinux : Type := MkSELinux {
  have_thread_self : bool; attr_path_init_done : bool;
  selinuxfs_init_done : bool; selinuxfs : option Path;
  policy_root_init_done : bool; policy_root_ : option Path;
  load_labels_init_done : bool; labels : gmap string SELinuxLabel;
  read_config_init_done : bool; configs : gmap string string;
  read_only_file_label : option SELinuxLabel }.

Definition selinux_new : SELinux := {|
  have_thread_self := false; attr_path_init_done := false;
  selinuxfs_init_done := false; selinuxfs := None;
  policy_root_init_done := false; policy_root_ := None;
  load_labels_init_done := false; labels := ∅;
  read_config_init_done := false; configs := ∅;
  read_only_file_label := None |}.

Definition store_thread_self (b : bool) (s : SELinux) : SELinux :=
  MkSELinux b true (selinuxfs_init_done s) (selinuxfs s) (policy_root_init_done s) (policy_root_ s)
    (load_labels_init_done s) (labels s) (read_config_init_done s) (configs s) (read_only_file_label s).

Definition store_selinuxfs (m : option Path) (s : SELinux) : SELinux :=
  MkSELinux (have_thread_self s) (attr_path_init_done s) true m (policy_root_init_done s) (policy_root_ s)
    (load_labels_init_done s) (labels s) (read_config_init_done s) (configs s) (read_only_file_label s).

Definition store_policy_root (p : Path) (s : SELinux) : SELinux :=
  MkSELinux (have_thread_self s) (attr_path_init_done s) (selinuxfs_init_done s) (selinuxfs s) true (Some p)
    (load_labels_init_done s) (labels s) (read_config_init_done s) (configs s) (read_only_file_label s).

Definition store_labels (ls : gmap string SELinuxLabel) (s : SELinux) : SELinux :=
  MkSELinux (have_thread_self s) (attr_path_init_done s) (selinuxfs_init_done s) (selinuxfs s)
    (policy_root_init_done s) (policy_root_ s) (load_labels_init_done s) ls (read_config_init_done s)
    (configs s) (read_only_file_label s).

Definition store_labels_done (s : SELinux) : SELinux :=
  MkSELinux (have_thread_self s) (attr_path_init_done s) (selinuxfs_init_done s) (selinuxfs s)
    (policy_root_init_done s) (policy_root_ s) true (labels s) (read_config_init_done s) (configs s)
    (read_only_file_label s).

Definition store_configs (cs : gmap string string) (s : SELinux) : SELinux :=
  MkSELinux (have_thread_self s) (attr_path_init_done s) (selinuxfs_init_done s) (selinuxfs s)
    (policy_root_init_done s) (policy_root_ s) (load_labels_init_done s) (labels s) true cs
    (read_only_file_label s).

Definition store_read_only (l : option SELinuxLabel) (s : SELinux) : SELinux :=
  MkSELinux (have_thread_self s) (attr_path_init_done s) (selinuxfs_init_done s) (selinuxfs s)
    (policy_root_init_done s) (policy_root_ s) (load_labels_init_done s) (labels s)
    (read_config_init_done s) (configs s) l.

(** The attribute [security.selinux] and the contents of the files, and the errors of the
    next system calls. *)
Record world : Type := MkWorld {
  xattr : gmap Path string; content : gmap Path string; pending : list (option Z) }.

Definition ENOENT : Z := 2.
Definition EINTR : Z := 4.
Definition EAGAIN : Z := 11.
Definition EEXIST : Z := 17.
Definition ERANGE : Z := 34.
Definition ENODATA : Z := 61.
Definition SELINUX_MAGIC : Z := 4185718668.
Definition PROC_SUPER_MAGIC : Z := 40864.

(** Interruptions that the standard library hides. *)
Fixpoint skip_interrupted (l : list (option Z)) : list (option Z) :=
  match l with
  | Some e :: l' => if e =? EINTR then skip_interrupted l' else l
  | _ => l
  end.

Inductive XattrFlags : Type := REPLACE | CREATE.

Section selinux.
(** The file that a path names, following a last symbolic link or not, if there is one;
    the type of the file system it is on; what the kernel keeps of a text that is written to
    it, or the error; the security context of the peer of a socket. *)
Context (resolve lresolve : Path → option Path) (is_symlink is_dir : Path → bool)
  (fs_type : Path → option Z) (kernel : Path → string → Z + string) (gettid : Z)
  (peersec : Z → Z + string).

Local Abbreviation St := (SELinux * world)%type.

(** *** System calls *)

Definition next : io St Z () := λ '(s, w),
  match pending w with
  | [] => (Ok (), (s, w))
  | r :: rs => (match r with None => Ok () | Some e => Err e end, (s, MkWorld (xattr w) (content w) rs))
  end.

Definition next_std : io St Z () := λ '(s, w),
  next (s, MkWorld (xattr w) (content w) (skip_interrupted (pending w))).

Definition get {E A} (f : SELinux → A) : io St E A := λ st, (Ok (f st.1), st).
Definition modify {E} (f : SELinux → SELinux) : io St E () := λ st, (Ok (), (f st.1, st.2)).

Definition look {E A} (f : world → outcome E A) : io St E A := λ st, (f st.2, st).

Definition patience {E A} (m : nat → io St E A) : io St E A := λ st, m (S (length (pending st.2))) st.

Definition path_exists (p : Path) : bool := bool_decide (is_Some (resolve p)).

Definition statfs (p : Path) : io St Z Z :=
  _ ← next; pure (ok_or (resolve p ≫= fs_type) ENOENT).

Definition fstatfs (f : Path) : io St Z Z := _ ← next; pure (ok_or (fs_type f) ENOENT).

Definition open (p : Path) : io St Z Path :=
  _ ← next_std;
  look (λ w, match resolve p with
             | Some f => if bool_decide (is_Some (content w !! f)) then Ok f else Err ENOENT
             | None => Err ENOENT
             end).

Definition read (f : Path) : io St Z string :=
  _ ← next_std; look (λ w, ok_or (content w !! f) ENOENT).

Definition read_utf8 (f : Path) : io St reason string :=
  s ← io_map_err Errno (read f);
  pure (if utf8_valid (as_bytes s) then Ok s else Err NotUtf8).

(** [fs::read_to_string] *)
Definition read_to_string (p : Path) : io St reason string :=
  f ← io_map_err Errno (open p); read_utf8 f.

Definition write_bytes (f : Path) (text : string) : io St Z nat := λ '(s, w),
  match kernel f text with
  | inl e => (Err e, (s, w))
  | inr kept => (Ok (String.length text), (s, MkWorld (xattr w) (<[f := kept]> (content w)) (pending w)))
  end.

Definition write (f : Path) (text : string) : io St Z nat := _ ← next; write_bytes f text.

(** [fs::write] to a file that exists *)
Definition fs_write (p : Path) (text : string) : io St Z () :=
  f ← open p; _ ← next_std; _ ← write_bytes f text; mret ().

(** *** Extended attributes: [tools/xattr.rs] *)

Definition file_at (follow : bool) (p : Path) : option Path := if follow then resolve p else lresolve p.

Definition sys_getxattr (follow : bool) (p : Path) (size : Z) : io St Z string :=
  _ ← next;
  look (λ w, match file_at follow p with
             | None => Err ENOENT
             | Some f =>
                 match xattr w !! f with
                 | None => Err ENODATA
                 | Some v => if size <? Z.of_nat (String.length v) then Err ERANGE else Ok v
                 end
             end).

Definition put_xattr (f : Path) (data : string) (op : XattrFlags) : io St Z () := λ '(s, w),
  match op, xattr w !! f with
  | CREATE, Some _ => (Err EEXIST, (s, w))
  | REPLACE, None => (Err ENODATA, (s, w))
  | _, _ => (Ok (), (s, MkWorld (<[f := data]> (xattr w)) (content w) (pending w)))
  end.

Definition sys_setxattr (follow : bool) (p : Path) (data : string) (op : XattrFlags) : io St Z () :=
  _ ← next;
  match file_at follow p with None => pure (Err ENOENT) | Some f => put_xattr f data op end.

Definition INITIAL_BUF_SIZE : Z := 1024.

Definition pop_nul (value : string) : string :=
  match strip_last zero (chars value) with Some l => of_chars l | None => value end.

(** The buffer grows at most once: [getxattr] fails when the value does not fit. *)
Fixpoint getxattr_loop (fuel : nat) (follow : bool) (p : Path) (buf_size : Z) : io St Z string :=
  match fuel with
  | O => pure Panic
  | S fuel =>
      buf ← sys_getxattr follow p buf_size;
      if Z.of_nat (String.length buf) =? buf_size then getxattr_loop fuel follow p (buf_size * 2)
      else mret (pop_nul (from_utf8_lossy buf))
  end.

Definition get_xattr (p : Path) : io St XattrError string :=
  io_map_err GetXattr (getxattr_loop 2 true p INITIAL_BUF_SIZE).

Definition lget_xattr (p : Path) : io St XattrError string :=
  io_map_err LGetXattr (getxattr_loop 2 false p INITIAL_BUF_SIZE).

Definition interrupted_or (other : Z → XattrError) (e : Z) : XattrError :=
  if e =? EINTR then XEINTR e else other e.

Definition set_xattr (p : Path) (data : string) : io St XattrError () :=
  old ← attempt (get_xattr p);
  let op := match old with inr _ => REPLACE | inl _ => CREATE end in
  io_map_err (interrupted_or SetXattr) (sys_setxattr true p data op).

Definition lset_xattr (p : Path) (data : string) : io St XattrError () :=
  old ← attempt (lget_xattr p);
  let op := match old with inr _ => REPLACE | inl _ => CREATE end in
  io_map_err (interrupted_or LSetXattr) (sys_setxattr false p data op).

(** *** Labels of files *)

Fixpoint set_label_loop (fuel : nat) (set : io St XattrError ()) (err : reason → SELinuxError) :
    io St SELinuxError () :=
  match fuel with
  | O => pure Panic
  | S fuel =>
      r ← attempt set;
      match r with
      | inr _ => mret ()
      | inl (XEINTR _) => set_label_loop fuel set err
      | inl e => pure (Err (err (Errno (xattr_errno e))))
      end
  end.

Definition set_file_label (fpath : Path) (label : SELinuxLabel) : io St SELinuxError () :=
  if negb (path_exists fpath) then pure (Err (SetFileLabel EmptyPath))
  else patience (λ n, set_label_loop n (set_xattr fpath (label_fmt label)) SetFileLabel).

Definition lset_file_label (fpath : Path) (label : SELinuxLabel) : io St SELinuxError () :=
  if negb (is_symlink fpath) && negb (path_exists fpath) then pure (Err (LSetFileLabel EmptyPath))
  else patience (λ n, set_label_loop n (lset_xattr fpath (label_fmt label)) LSetFileLabel).

Definition file_label (fpath : Path) : io St SELinuxError SELinuxLabel :=
  if negb (path_exists fpath) then pure (Err (FileLabel EmptyPath))
  else
    label_str ← io_map_err (λ e, FileLabel (Errno (xattr_errno e))) (get_xattr fpath);
    pure (label_try_from label_str).

Definition lfile_label (fpath : Path) : io St SELinuxError SELinuxLabel :=
  if negb (path_exists fpath) then pure (Err (LFileLabel EmptyPath))
  else
    label_str ← io_map_err (λ e, LFileLabel (Errno (xattr_errno e))) (lget_xattr fpath);
    pure (label_try_from label_str).

(** *** Labels of processes *)

Fixpoint proc_handle_loop (fuel : nat) (file : Path) : io St SELinuxError () :=
  match fuel with
  | O => pure Panic
  | S fuel =>
      r ← attempt (fstatfs file);
      match r with
      | inr t => pure (if bool_decide (t = PROC_SUPER_MAGIC) then Ok () else Err (IsProcHandle NotOnProcfs))
      | inl e => if bool_decide (e = EINTR) then proc_handle_loop fuel file
                 else pure (Err (IsProcHandle (Errno e)))
      end
  end.

Definition is_proc_handle (file : Path) : io St SELinuxError () :=
  patience (λ n, proc_handle_loop n file).

Definition read_con_fd (file : Path) : io St SELinuxError string :=
  data ← io_map_err ReadConFd (read_utf8 file);
  mret (trim_end_char zero data).

Definition read_con (fpath : Path) : io St SELinuxError string :=
  if bool_decide (fpath = []) then pure (Err (ReadCon EmptyPath))
  else
    in_file ← io_map_err (ReadCon ∘ Errno) (open fpath);
    _ ← is_proc_handle in_file;
    read_con_fd in_file.

Definition attr_path (attr : string) : io St SELinuxError Path :=
  let prefix := "/proc/thread-self/attr" in
  done ← get attr_path_init_done;
  _ ← (if done : bool then mret () else modify (store_thread_self (is_dir (components prefix))));
  thread_self ← get have_thread_self;
  mret (if thread_self : bool then components (prefix +:+ "/" +:+ attr)
        else components ("/proc/self/task/" +:+ pretty gettid +:+ "/attr/" +:+ attr)).

Definition read_label (attr : string) : io St SELinuxError SELinuxLabel :=
  p ← attr_path attr; label ← read_con p; pure (label_try_from label).

Definition current_label : io St SELinuxError SELinuxLabel := read_label "current".
Definition fscreate_label : io St SELinuxError SELinuxLabel := read_label "fscreate".
Definition exec_label : io St SELinuxError SELinuxLabel := read_label "exec".
Definition socket_label : io St SELinuxError SELinuxLabel := read_label "sockcreate".

Definition pid_label (pid : Z) : io St SELinuxError SELinuxLabel :=
  label ← read_con (components ("/proc/" +:+ pretty pid +:+ "/attr/current"));
  pure (label_try_from label).

Definition key_label : io St SELinuxError SELinuxLabel :=
  label ← read_con KEY_LABEL_PATH; pure (label_try_from label).

(** [CString::new] refuses a text with a zero byte, on which the code panics. *)
Definition peer_label (fd : Z) : io St SELinuxError SELinuxLabel :=
  _ ← io_map_err (PeerLabel ∘ Errno) next;
  pure (match peersec fd with
        | inl e => Err (PeerLabel (Errno e))
        | inr buf => if contains_char zero buf then Panic
                     else if utf8_valid (as_bytes buf) then label_try_from buf
                     else Err (PeerLabel NotUtf8)
        end).

(** *** The file system of SELinux *)

Fixpoint verify_loop (fuel : nat) (mnt : Path) : io St SELinuxError bool :=
  match fuel with
  | O => pure Panic
  | S fuel =>
      r ← attempt (statfs mnt);
      match r with
      | inr t => mret (bool_decide (t = SELINUX_MAGIC))
      | inl e => if bool_decide (e = EAGAIN ∨ e = EINTR) then verify_loop fuel mnt else mret false
      end
  end.

Definition verify_selinux_fs_mount (mnt : Path) : io St SELinuxError bool :=
  patience (λ n, verify_loop n mnt).

Definition check_line_include_selinux_fs_mount_point (line : string) : option Path :=
  if negb (contains_str " - selinuxfs " line) then None
  else
    let m_pos := 5%nat in
    let fields := splitn (m_pos + 1) " "%char line in
    if (length fields <? m_pos + 1)%nat then None else components <$> fields !! (m_pos - 1)%nat.

Fixpoint first_mount (ls : list string) : io St SELinuxError (option Path) :=
  match ls with
  | [] => mret None
  | line :: ls =>
      match check_line_include_selinux_fs_mount_point line with
      | Some mnt =>
          ok ← verify_selinux_fs_mount mnt;
          if ok : bool then mret (Some mnt) else first_mount ls
      | None => first_mount ls
      end
  end.

(** The lines of a file that is opened with [File::open], if it can be opened. *)
Definition open_lines (p : Path) : io St SELinuxError (option (list string)) :=
  f ← attempt (open p);
  match f with
  | inl _ => mret None
  | inr f => r ← attempt (read f); mret (Some (match r with inr s => read_lines s | inl _ => [] end))
  end.

Definition find_selinux_fs : io St SELinuxError (option Path) :=
  fast ← verify_selinux_fs_mount SELINUX_FS_MOUNT;
  if fast : bool then mret (Some SELINUX_FS_MOUNT)
  else
    fs ← attempt (read_to_string (components "/proc/filesystems"));
    let fs := match fs with inr s => s | inl _ => "" end in
    if negb (contains_str (String "009" ("selinuxfs" +:+ String LF "")) fs) then mret None
    else
      ls ← open_lines (components "/proc/self/mountinfo");
      match ls with Some ls => first_mount ls | None => mret None end.

Definition get_selinux_mountpoint : io St SELinuxError (option Path) :=
  done ← get selinuxfs_init_done;
  _ ← (if done : bool then mret () else m ← find_selinux_fs; modify (store_selinuxfs m));
  get selinuxfs.

Definition get_enabled : io St SELinuxError bool :=
  m ← get_selinux_mountpoint;
  match m with
  | None => mret false
  | Some _ =>
      con ← attempt current_label;
      mret (match con with inr con => negb (bool_decide (user con = "kernel")) | inl _ => false end)
  end.

Definition class_index (class : string) : io St SELinuxError Z :=
  m ← get_selinux_mountpoint;
  match m with
  | None => pure (Err (ClassIndex NoMountPoint))
  | Some mountpoint =>
      index ← io_map_err ClassIndex
                (read_to_string (join mountpoint (components ("class/" +:+ class +:+ "/index"))));
      pure (map_err (ClassIndex ∘ NotNumber) (parse_signed 64 index))
  end.

Definition selinux_enforce_path : io St SELinuxError (option Path) :=
  m ← get_selinux_mountpoint; mret ((λ m, join m (components "enforce")) <$> m).

Definition enforce_mode : io St SELinuxError SELinuxMode :=
  p ← selinux_enforce_path;
  match p with
  | Some p =>
      r ← attempt (read_to_string p);
      mret (mode_from_i32 (match r with
                           | inr s => match parse_signed 32 (trim s) with Ok n => n | _ => -1 end
                           | inl _ => -1
                           end))
  | None => mret (mode_from_i32 (-1))
  end.

Definition is_mls_enabled : io St SELinuxError bool :=
  m ← get_selinux_mountpoint;
  match m with
  | None => mret false
  | Some mountpoint =>
      f ← attempt (open (join mountpoint (components "mls")));
      match f with
      | inl _ => mret false
      | inr f => r ← attempt (read f); mret (match r with inr s => bool_decide (s = "1") | inl _ => false end)
      end
  end.

Definition set_enforce_mode (mode : SELinuxMode) : io St SELinuxError () :=
  p ← selinux_enforce_path;
  match p with
  | None => pure (Err (SetEnforceMode NoEnforcePath))
  | Some p => io_map_err (SetEnforceMode ∘ Errno) (fs_write p (mode_fmt mode))
  end.

(** *** Writing labels *)

Definition write_con (fpath : Path) (val : string) : io St SELinuxError nat :=
  if bool_decide (fpath = []) then pure (Err (WriteCon EmptyPath))
  else
    refuse ← (if bool_decide (val = "") then e ← get_enabled; mret (negb e) else mret false);
    if refuse : bool then pure (Err (WriteCon NotEnabled))
    else
      out ← io_map_err (WriteCon ∘ Errno) (open fpath);
      _ ← is_proc_handle out;
      io_map_err (WriteCon ∘ Errno) (write out val).

Definition write_label (attr : string) (label : SELinuxLabel) : io St SELinuxError nat :=
  p ← attr_path attr; write_con p (label_fmt label).

Definition set_fscreate_label := write_label "fscreate".
Definition set_exec_label := write_label "exec".
Definition set_task_label := write_label "current".
Definition set_socket_label := write_label "sockcreate".
Definition set_key_label (label : SELinuxLabel) := write_con KEY_LABEL_PATH (label_fmt label).

(** *** Configuration *)

Definition starts_comment (line : string) : bool := starts_with ";" line || starts_with "#" line.

Definition config_line (line : string) (cs : gmap string string) : gmap string string :=
  if bool_decide (line = "") then cs
  else if starts_comment line then cs
  else match splitn 2 "="%char line with
       | key :: value :: _ => <[trim key := trim value]> cs
       | _ => cs
       end.

Definition load_config : io St SELinuxError () :=
  ls ← open_lines (join SELINUX_DIR SELINUX_CONFIG);
  cs ← get configs;
  modify (store_configs (foldl (λ cs line, config_line line cs) cs (default [] ls))).

Definition get_config_key (target_key : string) : io St SELinuxError string :=
  done ← get read_config_init_done;
  _ ← (if done : bool then mret () else load_config);
  cs ← get configs;
  pure (ok_or (v ← cs !! target_key; if bool_decide (v = "") then None else Some v)
          (GetConfigKey (NoKey target_key))).

Definition policy_root : io St SELinuxError (option Path) :=
  done ← get policy_root_init_done;
  _ ← (if done : bool then mret ()
       else r ← attempt (get_config_key SELINUX_TYPE_TAG);
            modify (store_policy_root (components (match r with inr s => s | inl _ => "" end))));
  get policy_root_.

Definition default_enforce_mode : io St SELinuxError SELinuxMode :=
  r ← attempt (get_config_key SELINUX_TAG);
  mret (mode_from_str (match r with inr s => s | inl _ => "" end)).

Definition open_context_file : io St SELinuxError Path :=
  r ← attempt (open CONTEXT_FILE);
  match r with
  | inr file => mret file
  | inl _ =>
      policy_path ← policy_root;
      match policy_path with
      | None => pure (Err (OpenContextFile NoPolicyRoot))
      | Some policy_path =>
          io_map_err (OpenContextFile ∘ Errno)
            (open (join (join policy_path (components "contexts")) (components "lxc_contexts")))
      end
  end.

(** *** The labels of containers *)

Definition label_line (line : string) (ls : gmap string SELinuxLabel) : gmap string SELinuxLabel :=
  let line := trim line in
  if bool_decide (line = "") || starts_comment line then ls
  else match splitn 2 "="%char line with
       | [key; value] =>
           match label_try_from (trim (trim_matches (ascii_of_nat 34) value)) with
           | Ok value_label => <[trim key := value_label]> ls
           | _ => ls
           end
       | _ => ls
       end.

Definition load_labels : io St SELinuxError () :=
  f ← attempt open_context_file;
  match f with
  | inl _ => mret ()
  | inr f =>
      r ← attempt (read f);
      ls ← get labels;
      modify (store_labels
        (foldl (λ ls line, label_line line ls) ls (match r with inr s => read_lines s | inl _ => [] end)))
  end.

Definition label (key : string) : io St SELinuxError (option SELinuxLabel) :=
  done ← get load_labels_init_done;
  _ ← (if done : bool then mret ()
       else _ ← load_labels; modify store_labels_done);
  ls ← get labels;
  mret (ls !! key).

Definition label_or (key other : string) : io St SELinuxError (option SELinuxLabel) :=
  l ← label key; match l with Some l => mret (Some l) | None => label other end.

Definition kvm_container_labels : io St SELinuxError (option SELinuxLabel * option SELinuxLabel) :=
  process_label ← label_or "kvm_process" "process";
  file_label ← label "file";
  mret (process_label, file_label).

Definition init_container_labels : io St SELinuxError (option SELinuxLabel * option SELinuxLabel) :=
  process_label ← label_or "init_process" "process";
  file_label ← label "file";
  mret (process_label, file_label).

Definition container_labels : io St SELinuxError (option SELinuxLabel * option SELinuxLabel) :=
  enabled ← get_enabled;
  if negb enabled then mret (None, None)
  else
    process_label ← label "process";
    file_label ← label "file";
    if bool_decide (process_label = None) || bool_decide (file_label = None)
    then mret (process_label, file_label)
    else
      read_only ← label "ro_file";
      let read_only := match read_only with None => file_label | Some _ => read_only end in
      _ ← modify (store_read_only read_only);
      mret (process_label, file_label).
End selinux.

(** ** Labels as text *)

Definition plain (s : string) : Prop := ":"%char ∉ chars s.

Lemma label_try_from_fields s :
  label_try_from s = match split_on ":"%char s with
                     | u :: r :: t :: rest => Ok (MkLabel u r t (head rest))
                     | _ => Err (InvalidSELinuxLabel s)
                     end.
Proof. unfold label_try_from. by destruct (split_on ":"%char s) as [|? [|? [|? [|? ?]]]]. Qed.

Lemma split_on_cons (p s : string) : plain p → split_on ":"%char (p +:+ ":" +:+ s) = p :: split_on ":"%char s.
Proof. exact (split_on_app ":"%char p s). Qed.

(** A label is read back from its text if no field has a colon. *)
Lemma label_roundtrip l :
  plain (user l) → plain (role l) → plain (type_ l) → from_option plain True (level l) →
  label_try_from (label_fmt l) = Ok l.
Proof.
  destruct l as [u r t [lv|]]; cbn; intros Hu Hr Ht Hl; rewrite label_try_from_fields; unfold label_fmt; cbn.
  - by rewrite !split_on_cons, split_on_none by done.
  - by rewrite !split_on_cons, split_on_none by done.
Qed.

(** A text is kept by reading and printing exactly if it has at most four fields: the
    categories of a level are lost. *)
Lemma label_text_kept s l :
  label_try_from s = Ok l → label_fmt l = s ↔ (length (split_on ":"%char s) ≤ 4)%nat.
Proof.
  intros Hl. pose proof (concat_split_on ":"%char s) as Hs. rewrite label_try_from_fields in Hl.
  destruct (split_on ":"%char s) as [|u [|r [|t rest]]]; simplify_eq. unfold label_fmt. cbn [user role type_ level].
  destruct rest as [|lv [|x rest]]; cbn [head length]; [split; [lia|done]..|].
  split; [|lia]. intros Heq%(f_equal String.length). cbn [String.concat] in Heq.
  rewrite !length_append in Heq. cbn in Heq. lia.
Qed.

Example level_truncated :
  label_fmt <$> label_try_from "system_u:system_r:container_t:s0:c1,c2" = Ok "system_u:system_r:container_t:s0".
Proof. reflexivity. Qed.

(** ** Lossy decoding keeps a valid text *)

Lemma utf8_first_valid b l :
  utf8_valid (b :: l) = true →
  ∃ n, utf8_first (b :: l) = (S n, true) ∧ (n ≤ length l)%nat ∧ utf8_valid (drop n l) = true.
Proof.
  cbn [utf8_valid utf8_first]. intros Hv.
  destruct (byte_in 0 127 b); [by exists 0%nat; rewrite drop_0; auto with lia|].
  destruct l as [|b1 l]; [done|].
  destruct (byte_in 194 223 b).
  { apply andb_true_iff in Hv as [-> Hv]. exists 1%nat. cbn. auto with lia. }
  destruct l as [|b2 l]; [done|].
  destruct (byte_in 224 239 b) eqn:H3.
  - apply andb_true_iff in Hv as [[H1 H2]%andb_true_iff Hv].
    assert (byte_in 224 244 b = true) as -> by (unfold byte_in in *; lia).
    assert (byte_in 240 240 b = false) as -> by (unfold byte_in in *; lia).
    assert (byte_in 244 244 b = false) as -> by (unfold byte_in in *; lia).
    exists 2%nat. rewrite H1, H2. cbn. auto with lia.
  - destruct l as [|b3 l]; [done|].
    apply andb_true_iff in Hv as [[[[H0 H1]%andb_true_iff H2]%andb_true_iff H4]%andb_true_iff Hv].
    assert (byte_in 224 244 b = true) as -> by (unfold byte_in in *; lia).
    assert (byte_in 224 224 b = false) as -> by (unfold byte_in in *; lia).
    assert (byte_in 237 237 b = false) as -> by (unfold byte_in in *; lia).
    exists 3%nat. rewrite H1, H2, H4. cbn. auto with lia.
Qed.

Lemma lossy_valid fuel l : (length l ≤ fuel)%nat → utf8_valid l = true → lossy fuel l = l.
Proof.
  revert l. induction fuel as [|fuel IH]; intros [|b l] Hlen Hv; cbn in Hlen; try done; [lia|].
  destruct (utf8_first_valid b l Hv) as (n & Hf & Hn & Hd).
  cbn [lossy]. rewrite Hf. cbn [take drop app]. rewrite IH by (rewrite ?length_drop; done || lia).
  by rewrite take_drop.
Qed.

Lemma from_utf8_lossy_valid s : utf8_valid (as_bytes s) = true → from_utf8_lossy s = s.
Proof.
  intros Hs. unfold from_utf8_lossy.
  by rewrite lossy_valid, of_bytes_as_bytes by (rewrite ?length_as_bytes; done || lia).
Qed.

(** ** What the operations change *)

Section proofs.
Context (resolve lresolve : Path → option Path) (is_symlink is_dir : Path → bool)
  (fs_type : Path → option Z) (kernel : Path → string → Z + string) (gettid : Z)
  (peersec : Z → Z + string).

Local Abbreviation St := (SELinux * world)%type.

(** The files are as before and calls have only been used up. *)
Definition same_files (w w' : world) : Prop :=
  xattr w' = xattr w ∧ content w' = content w ∧ (length (pending w') ≤ length (pending w))%nat.

Definition keeps (st st' : St) : Prop := st'.1 = st.1 ∧ same_files st.2 st'.2.

#[local] Instance keeps_preorder : PreOrder keeps.
Proof.
  split; [by intros [s w]; repeat split|].
  intros [s w] [s1 w1] [s2 w2] (H1 & H2 & H3 & H4) (H1' & H2' & H3' & H4'). cbn in *.
  repeat split; cbn; [congruence..|lia].
Qed.

(** [m] changes nothing and does not panic. *)
Definition harmless {E A} (m : io St E A) : Prop := ∀ st, ends m (λ _, keeps st) (keeps st) st.

Lemma harmless_bind {E A B} (m : io St E A) (f : A → io St E B) :
  harmless m → (∀ a, harmless (f a)) → harmless (m ≫= f).
Proof.
  intros Hm Hf st. apply ends_then. eapply ends_mono; [|by intros w Hw; exact Hw|exact (Hm st)].
  intros a st' Hst. eapply ends_mono; [..|exact (Hf a st')]; cbn; intros; by transitivity st'.
Qed.

Lemma harmless_next : harmless next.
Proof.
  intros [s w]. unfold ends, next. destruct (pending w) as [|[e|] rs] eqn:Hp; repeat split; cbn; rewrite ?Hp; cbn; lia.
Qed.

Lemma harmless_look {E A} (f : world → outcome E A) : (∀ w, f w ≠ Panic) → harmless (look f).
Proof. intros Hf st. unfold ends, look. specialize (Hf st.2). by destruct (f st.2); [reflexivity..|]. Qed.

Lemma harmless_pure {E A} (r : outcome E A) : r ≠ Panic → harmless (pure r).
Proof. intros Hr st. unfold ends, pure. by destruct r; [reflexivity..|]. Qed.

Lemma harmless_map_err {E F A} (g : E → F) (m : io St E A) : harmless m → harmless (io_map_err g m).
Proof. intros Hm st. by apply ends_mapped. Qed.

Lemma harmless_attempt {E F A} (m : io St E A) : harmless m → harmless (attempt m : io St F (E + A)).
Proof. intros Hm st. specialize (Hm st). unfold ends, attempt in *. by destruct (m st) as [[a|e|] st']. Qed.

(** *** Extended attributes *)

Lemma getxattr_spec follow p size st :
  ends (sys_getxattr resolve lresolve follow p size)
    (λ v st', keeps st st' ∧ ∃ f, file_at resolve lresolve follow p = Some f ∧ xattr st.2 !! f = Some v
                                  ∧ Z.of_nat (String.length v) ≤ size) (keeps st) st.
Proof.
  apply ends_then. eapply ends_mono; [|by intros w Hw; exact Hw|exact (harmless_next st)].
  intros _ st' (H1 & H2 & H3 & H4). unfold ends, look. cbn. rewrite H2.
  destruct (file_at _ _ follow p) as [f|]; [|done]. destruct (xattr st.2 !! f) as [v|] eqn:Hv; [|done].
  destruct (Z.ltb_spec size (Z.of_nat (String.length v))); [done|]. split; [done|]. eauto.
Qed.

Lemma getxattr_loop_harmless follow p : harmless (getxattr_loop resolve lresolve 2 follow p INITIAL_BUF_SIZE).
Proof.
  intros st. cbn [getxattr_loop]. apply ends_then.
  eapply ends_mono; [|by intros w Hw; exact Hw|exact (getxattr_spec follow p _ st)].
  intros v st1 (Hk & f & Hf & Hv & Hl). case_match; [|done].
  apply ends_then. eapply ends_mono; [..|exact (getxattr_spec follow p _ st1)].
  - intros v' st2 (Hk2 & f' & Hf' & Hv' & Hl'). replace v' with v by (destruct Hk as (? & Hx & ?); congruence).
    rewrite (proj2 (Z.eqb_neq _ _)) by (unfold INITIAL_BUF_SIZE in *; lia).
    unfold ends. cbn. by transitivity st1.
  - intros st2 Hk2. by transitivity st1.
Qed.

(** An attribute is set, in the file that the path names, or nothing changes. *)
Definition sets (follow : bool) (p : Path) (data : string) (st st' : St) : Prop :=
  ∃ f, file_at resolve lresolve follow p = Some f ∧ st'.1 = st.1 ∧
    xattr st'.2 = <[f := data]> (xattr st.2) ∧ content st'.2 = content st.2.

Definition set_with (follow : bool) (ge se : Z → XattrError) (p : Path) (data : string) : io St XattrError () :=
  old ← attempt (io_map_err ge (getxattr_loop resolve lresolve 2 follow p INITIAL_BUF_SIZE));
  let op := match old with inr _ => REPLACE | inl _ => CREATE end in
  io_map_err (interrupted_or se) (sys_setxattr resolve lresolve follow p data op).

Lemma put_xattr_spec f data op st :
  ends (put_xattr f data op)
    (λ _ st', st'.1 = st.1 ∧ xattr st'.2 = <[f := data]> (xattr st.2) ∧ content st'.2 = content st.2) (eq st) st.
Proof. destruct st as [s w]. unfold ends, put_xattr. cbn. by destruct op, (xattr w !! f). Qed.

Lemma setxattr_spec follow p data op st :
  match sys_setxattr resolve lresolve follow p data op st with
  | (Ok _, st') => sets follow p data st st'
  | (Err e, st') => keeps st st' ∧ (e = EINTR → (length (pending st'.2) < length (pending st.2))%nat)
  | (Panic, _) => False
  end.
Proof.
  unfold sys_setxattr, mbind, io_bind. destruct st as [s w]. unfold next.
  destruct (pending w) as [|[e|] rs] eqn:Hp.
  2: { repeat split; cbn; rewrite ?Hp; cbn; lia. }
  all: unfold sets; destruct (file_at _ _ follow p) as [f|]; cbn;
    [|repeat split; cbn; rewrite ?Hp; cbn; done || lia].
  all: destruct op, (xattr w !! f); cbn; eauto 10;
    repeat split; cbn; rewrite ?Hp; cbn; done || lia.
Qed.

(** What an attempt to set an attribute comes to. *)
Definition set_result (follow : bool) (p : Path) (data : string) (st : St) (r : outcome XattrError () * St) : Prop :=
  match r with
  | (Ok _, st') => sets follow p data st st'
  | (Err (XEINTR _), st') => keeps st st' ∧ (length (pending st'.2) < length (pending st.2))%nat
  | (Err _, st') => keeps st st'
  | (Panic, _) => False
  end.

Lemma sets_after follow p data st st1 st2 : keeps st st1 → sets follow p data st1 st2 → sets follow p data st st2.
Proof.
  intros (K1 & K2 & K3 & _) (f & Hf & H1 & H2 & H3). exists f. repeat split; congruence.
Qed.

Lemma setxattr_result follow se p data op st st1 :
  (∀ n k, se n ≠ XEINTR k) → keeps st st1 →
  set_result follow p data st (io_map_err (interrupted_or se) (sys_setxattr resolve lresolve follow p data op) st1).
Proof.
  intros Hse Hk. pose proof (setxattr_spec follow p data op st1) as Hs. unfold io_map_err.
  destruct (sys_setxattr _ _ _ _ _ _ st1) as [[[]|n|] st2]; cbn; [by eapply sets_after| |done].
  destruct Hs as [Hk2 Hlt]. unfold interrupted_or. destruct (Z.eqb_spec n EINTR) as [->|].
  - specialize (Hlt eq_refl). split; [by transitivity st1|]. destruct Hk as (_ & _ & _ & ?). lia.
  - destruct (se n) eqn:Hn; try (by apply Hse in Hn); by transitivity st1.
Qed.

Lemma set_with_spec follow ge se p data st :
  (∀ n k, se n ≠ XEINTR k) → set_result follow p data st (set_with follow ge se p data st).
Proof.
  intros Hse. unfold set_with, mbind, io_bind. unfold attempt, io_map_err at 1.
  pose proof (getxattr_loop_harmless follow p st) as Hg. unfold ends in Hg.
  destruct (getxattr_loop _ _ _ _ _ _ st) as [[v|e|] st1]; cbn; [by apply setxattr_result..|done].
Qed.

(** The loop ends after the pending interruptions at the latest. *)
Lemma set_label_loop_spec fuel follow ge se p data err st :
  (∀ n k, se n ≠ XEINTR k) → (length (pending st.2) < fuel)%nat →
  ends (set_label_loop fuel (set_with follow ge se p data) err) (λ _, sets follow p data st) (keeps st) st.
Proof.
  intros Hse. revert st. induction fuel as [|fuel IH]; intros st Hlen; [lia|]. cbn [set_label_loop].
  pose proof (set_with_spec follow ge se p data st Hse) as Hs.
  unfold ends, mbind, io_bind. unfold attempt at 1.
  destruct (set_with follow ge se p data st) as [[a|e|] st1]; [done| |done].
  destruct e as [n|n|n|n|n]; try exact Hs. destruct Hs as [Hk Hlt].
  change (ends (set_label_loop fuel (set_with follow ge se p data) err) (λ _, sets follow p data st) (keeps st) st1).
  eapply ends_mono; [..|apply (IH st1); lia].
  - intros a st2 Ha. by apply (sets_after _ _ _ _ st1).
  - intros st2 Hk2. by transitivity st1.
Qed.

(** *** Without pending errors *)

Lemma getxattr_quiet follow p size st f :
  pending st.2 = [] → file_at resolve lresolve follow p = Some f →
  sys_getxattr resolve lresolve follow p size st =
    (match xattr st.2 !! f with
     | None => Err ENODATA
     | Some v => if size <? Z.of_nat (String.length v) then Err ERANGE else Ok v
     end, st).
Proof.
  destruct st as [s w]. intros Hp Hf. unfold sys_getxattr, mbind, io_bind, next, look.
  cbn [fst snd] in *. by rewrite Hp, Hf.
Qed.

Lemma getxattr_loop_quiet follow p st f v :
  pending st.2 = [] → file_at resolve lresolve follow p = Some f → xattr st.2 !! f = Some v →
  Z.of_nat (String.length v) ≤ INITIAL_BUF_SIZE →
  getxattr_loop resolve lresolve 2 follow p INITIAL_BUF_SIZE st = (Ok (pop_nul (from_utf8_lossy v)), st).
Proof.
  intros Hp Hf Hv Hlen. cbn [getxattr_loop]. unfold mbind, io_bind.
  rewrite (getxattr_quiet _ _ _ _ f), Hv, (proj2 (Z.ltb_ge _ _)) by done.
  destruct (Z.eqb_spec (Z.of_nat (String.length v)) INITIAL_BUF_SIZE) as [Heq|]; [|done].
  rewrite (getxattr_quiet _ _ _ _ f), Hv, (proj2 (Z.ltb_ge _ _)) by (done || lia). by rewrite Heq.
Qed.

(** The attribute of a file is set if the old one fits the buffer. *)
Lemma set_with_quiet follow ge se p data st f :
  pending st.2 = [] → file_at resolve lresolve follow p = Some f →
  from_option (λ v, Z.of_nat (String.length v) ≤ INITIAL_BUF_SIZE) True (xattr st.2 !! f) →
  (set_with follow ge se p data st).1 = Ok ().
Proof.
  intros Hp Hf Hfit. unfold set_with, mbind, io_bind. unfold attempt, io_map_err.
  destruct st as [s w]. destruct (xattr w !! f) as [v|] eqn:Hv; cbn [fst snd] in *; rewrite Hv in Hfit; cbn in Hfit.
  - rewrite (getxattr_loop_quiet _ _ _ f v) by done. cbn [fst snd map_err].
    unfold sys_setxattr, mbind, io_bind, next. by rewrite Hp, Hf; cbn; rewrite Hv.
  - cbn [getxattr_loop]. unfold mbind, io_bind.
    rewrite (getxattr_quiet _ _ _ _ f) by done. cbn [snd]. rewrite Hv. cbn [fst snd map_err].
    unfold sys_setxattr, mbind, io_bind, next. by rewrite Hp, Hf; cbn; rewrite Hv.
Qed.

Lemma pop_nul_plain s : zero ∉ chars s → pop_nul s = s.
Proof.
  intros Hs. unfold pop_nul, strip_last. destruct (last (chars s)) as [c|] eqn:Hc; [|done].
  destruct (Ascii.eqb_spec zero c) as [<-|]; [|done].
  by apply last_Some_elem_of in Hc.
Qed.

(** The label can be read back from its text. *)
Definition label_ok (l : SELinuxLabel) : Prop :=
  plain (user l) ∧ plain (role l) ∧ plain (type_ l) ∧ from_option plain True (level l) ∧
  (zero ∉ chars (label_fmt l)) ∧ utf8_valid (as_bytes (label_fmt l)) = true.

Lemma file_label_quiet p f l (st : St) :
  pending st.2 = [] → resolve p = Some f → xattr st.2 !! f = Some (label_fmt l) → label_ok l →
  Z.of_nat (String.length (label_fmt l)) ≤ INITIAL_BUF_SIZE →
  (file_label resolve lresolve p st).1 = Ok l.
Proof.
  intros Hp Hf Hv (Hu & Hr & Ht & Hl & Hz & H8) Hlen. unfold file_label, path_exists. rewrite Hf. cbn.
  unfold get_xattr, mbind, io_bind. unfold io_map_err.
  rewrite (getxattr_loop_quiet true p st f (label_fmt l)) by done. cbn.
  by rewrite from_utf8_lossy_valid, pop_nul_plain, label_roundtrip.
Qed.

(** C32: labels of files.  Setting a label ends, however often it is interrupted, and does not
    panic.  If it succeeds the label is the attribute of the file that the path names, and
    nothing else has changed; reading it gives the label back, if its fields have no colons
    and no zero bytes and it is not longer than the buffer.  If it fails nothing has changed;
    it succeeds if no call fails, the file exists and its old label fits the buffer. *)
Theorem set_file_label_spec p l (st : St) :
  let '(r, st') := set_file_label resolve lresolve p l st in
  match r with
  | Ok _ => ∃ f, resolve p = Some f ∧
      st' = (st.1, MkWorld (<[f := label_fmt l]> (xattr st.2)) (content st.2) (pending st'.2)) ∧
      (label_ok l → Z.of_nat (String.length (label_fmt l)) ≤ INITIAL_BUF_SIZE → pending st'.2 = [] →
       (file_label resolve lresolve p st').1 = Ok l)
  | Err _ => keeps st st' ∧
      ¬ (pending st.2 = [] ∧ ∃ f, resolve p = Some f ∧
         from_option (λ v, Z.of_nat (String.length v) ≤ INITIAL_BUF_SIZE) True (xattr st.2 !! f))
  | Panic => False
  end.
Proof.
  unfold set_file_label, path_exists. destruct (resolve p) as [f|] eqn:Hf; cbn [bool_decide decide_rel decide negb is_Some_dec].
  2: { cbn. split; [reflexivity|]. by intros (_ & f & ? & _). }
  pose proof (set_label_loop_spec (S (length (pending st.2))) true GetXattr SetXattr p (label_fmt l)
    SetFileLabel st ltac:(done) ltac:(lia)) as Hs.
  pose proof (set_with_quiet true GetXattr SetXattr p (label_fmt l) st f) as Hq.
  unfold patience. change (set_xattr resolve lresolve p (label_fmt l)) with (set_with true GetXattr SetXattr p (label_fmt l)).
  unfold ends in Hs. destruct (set_label_loop _ _ _ st) as [[[]|e|] [s' w']] eqn:Hrun; [| |done].
  - destruct Hs as (f' & Hf' & H1 & H2 & H3). cbn in *. rewrite Hf in Hf'. injection Hf' as <-. exists f. split; [done|]. split.
    + destruct w' as [x c ps]. cbn in *. by subst.
    + intros Hok Hlen Hp. apply (file_label_quiet _ f); [done..|cbn|done|done].
      by rewrite H2, lookup_insert_eq.
  - split; [done|]. intros (Hp & f' & [= <-] & Hfit). specialize (Hq Hp Hf Hfit).
    cbn [set_label_loop] in Hrun. unfold mbind, io_bind in Hrun. unfold attempt in Hrun.
    by destruct (set_with true GetXattr SetXattr p (label_fmt l) st) as [[u|?|] ?].
Qed.

(** *** Labels of processes *)

Lemma skip_interrupted_length l : (length (skip_interrupted l) ≤ length l)%nat.
Proof. induction l as [|[e|] l IH]; cbn; [done| |done]. destruct (e =? EINTR); cbn; lia. Qed.

Lemma harmless_next_std : harmless next_std.
Proof.
  intros [s w]. unfold ends. cbn [next_std].
  pose proof (skip_interrupted_length (pending w)) as Hl.
  pose proof (harmless_next (s, MkWorld (xattr w) (content w) (skip_interrupted (pending w)))) as Hn.
  unfold ends in Hn. destruct (next _) as [[[]|e|] st']; [..|done];
    (transitivity (s, MkWorld (xattr w) (content w) (skip_interrupted (pending w))); [|done]); by repeat split.
Qed.

Lemma open_spec p st :
  ends (open resolve p) (λ f st', keeps st st' ∧ resolve p = Some f ∧ is_Some (content st.2 !! f)) (keeps st) st.
Proof.
  apply ends_then. eapply ends_mono; [|by intros w Hw; exact Hw|exact (harmless_next_std st)].
  intros [] st' Hk. unfold ends, look. destruct (resolve p) as [f|]; [|done].
  destruct Hk as (? & ? & Hc & ?). rewrite Hc. case_bool_decide; [|done]. by repeat split.
Qed.

Lemma fstatfs_spec f st :
  match fstatfs fs_type f st with
  | (Ok t, st') => keeps st st' ∧ fs_type f = Some t
  | (Err e, st') => keeps st st' ∧ (e = EINTR → (length (pending st'.2) < length (pending st.2))%nat)
  | (Panic, _) => False
  end.
Proof.
  unfold fstatfs, mbind, io_bind, next. destruct st as [s w]. destruct (pending w) as [|[e|] rs] eqn:Hp.
  2: { repeat split; cbn; rewrite ?Hp; cbn; lia. }
  all: unfold pure; destruct (fs_type f); cbn; repeat split; cbn; rewrite ?Hp; cbn; done || lia.
Qed.

Lemma proc_handle_loop_spec fuel f st :
  (length (pending st.2) < fuel)%nat →
  ends (proc_handle_loop fs_type fuel f) (λ _ st', keeps st st' ∧ fs_type f = Some PROC_SUPER_MAGIC) (keeps st) st.
Proof.
  unfold ends. revert st.
  induction fuel as [|fuel IH]; intros st Hlen; [lia|]. cbn [proc_handle_loop].
  pose proof (fstatfs_spec f st) as Hs. unfold mbind, io_bind. unfold attempt at 1.
  destruct (fstatfs fs_type f st) as [[t|e|] st1]; [| |done]; destruct Hs as [Hk Hs].
  - unfold pure. case_bool_decide; [by subst|done].
  - case_bool_decide as He; [|done]. specialize (Hs He). specialize (IH st1 ltac:(lia)).
    destruct (proc_handle_loop _ _ _ st1) as [[[]|?|] st2]; [|by transitivity st1|done].
    destruct IH as [Hk2 ?]. split; [by transitivity st1|done].
Qed.

Lemma is_proc_handle_spec f st :
  ends (is_proc_handle fs_type f) (λ _ st', keeps st st' ∧ fs_type f = Some PROC_SUPER_MAGIC) (keeps st) st.
Proof. apply (proc_handle_loop_spec (S (length (pending st.2)))). lia. Qed.

(** A label is written only to a file of procfs that exists, and to nothing else. *)
Lemma write_con_spec p val st :
  val ≠ "" →
  ends (write_con resolve is_dir fs_type kernel gettid p val)
    (λ n st', n = String.length val ∧ ∃ f kept, resolve p = Some f ∧ fs_type f = Some PROC_SUPER_MAGIC ∧
       is_Some (content st.2 !! f) ∧ kernel f val = inr kept ∧
       st' = (st.1, MkWorld (xattr st.2) (<[f := kept]> (content st.2)) (pending st'.2)))
    (keeps st) st.
Proof.
  intros Hval. unfold write_con. case_bool_decide; [unfold ends; cbn; reflexivity|].
  rewrite (bool_decide_false _ Hval). apply ends_then. unfold ends at 1. cbn [mret io_ret].
  apply ends_then, ends_mapped. eapply ends_mono; [|by intros w Hw; exact Hw|exact (open_spec p st)].
  intros f st1 (Hk1 & Hf & Hc). apply ends_then.
  eapply ends_mono; [|by intros w Hw; transitivity st1; [exact Hk1|exact Hw]|exact (is_proc_handle_spec f st1)].
  intros [] st2 [Hk2 Hproc]. apply ends_mapped, ends_then.
  assert (keeps st st2) as Hk by (by transitivity st1). clear Hk1 Hk2.
  eapply ends_mono; [|by intros w Hw; transitivity st2; [exact Hk|exact Hw]|exact (harmless_next st2)].
  intros [] [s3 w3] Hk3. assert (keeps st (s3, w3)) as (H1 & H2 & H3 & _) by (by transitivity st2).
  unfold ends, write_bytes. cbn in *. destruct (kernel f val) as [e|kept] eqn:Hkern.
  - by transitivity st2.
  - split; [done|]. exists f, kept. by rewrite H1, H2, H3.
Qed.

(** *** The mount point *)

Definition selinux_mounted (m : Path) : Prop := (f ← resolve m; fs_type f) = Some SELINUX_MAGIC.

Definition never : St → Prop := λ _, False.

Lemma statfs_spec m st :
  match statfs resolve fs_type m st with
  | (Ok t, st') => keeps st st' ∧ (f ← resolve m; fs_type f) = Some t
  | (Err e, st') => keeps st st' ∧
      (e = EAGAIN ∨ e = EINTR → (length (pending st'.2) < length (pending st.2))%nat)
  | (Panic, _) => False
  end.
Proof.
  unfold statfs, mbind, io_bind, next. destruct st as [s w]. destruct (pending w) as [|[e|] rs] eqn:Hp.
  2: { repeat split; cbn; rewrite ?Hp; cbn; lia. }
  all: unfold pure; destruct (option_bind _ _ _ _); cbn; repeat split; cbn; rewrite ?Hp; cbn; try done;
    try lia; by intros [].
Qed.

Lemma verify_loop_spec fuel m st :
  (length (pending st.2) < fuel)%nat →
  ends (verify_loop resolve fs_type fuel m) (λ b st', keeps st st' ∧ (b = true → selinux_mounted m)) never st.
Proof.
  unfold ends. revert st. induction fuel as [|fuel IH]; intros st Hlen; [lia|]. cbn [verify_loop].
  pose proof (statfs_spec m st) as Hs. unfold mbind, io_bind. unfold attempt at 1.
  destruct (statfs resolve fs_type m st) as [[t|e|] st1]; [| |done]; destruct Hs as [Hk Hs].
  - cbn. split; [done|]. intros ->%bool_decide_eq_true. exact Hs.
  - case_bool_decide as He; [|by cbn; split]. specialize (Hs He). specialize (IH st1 ltac:(lia)).
    destruct (verify_loop _ _ _ _ st1) as [[b|?|] st2]; [|done..].
    destruct IH as [Hk2 ?]. split; [by transitivity st1|done].
Qed.

Lemma verify_spec m st :
  ends (verify_selinux_fs_mount resolve fs_type m) (λ b st', keeps st st' ∧ (b = true → selinux_mounted m)) never st.
Proof. apply (verify_loop_spec (S (length (pending st.2)))). lia. Qed.

(** [m] does not fail, changes nothing, and has a result that satisfies [Q]. *)
Definition yields {E A} (m : io St E A) (Q : A → Prop) : Prop := ∀ st, ends m (λ a st', keeps st st' ∧ Q a) never st.

Lemma yields_bind {E A B} (m : io St E A) (f : A → io St E B) P Q :
  yields m P → (∀ a, P a → yields (f a) Q) → yields (m ≫= f) Q.
Proof.
  intros Hm Hf st. apply ends_then. eapply ends_mono; [|by intros w Hw; exact Hw|exact (Hm st)].
  intros a st1 [Hk Ha]. eapply ends_mono; [|by intros w Hw; exact Hw|exact (Hf a Ha st1)].
  intros b st2 [Hk2 Hb]. split; [by transitivity st1|done].
Qed.

Lemma yields_ret {E A} (a : A) (Q : A → Prop) : Q a → yields (mret a : io St E A) Q.
Proof. intros Ha st. unfold ends. cbn. by split. Qed.

Lemma yields_attempt {E F A} (m : io St E A) : harmless m → yields (attempt m : io St F (E + A)) (λ _, True).
Proof. intros Hm st. specialize (Hm st). unfold ends, attempt in *. by destruct (m st) as [[a|e|] st']. Qed.

Lemma harmless_open p : harmless (open resolve p).
Proof. intros st. eapply ends_mono; [| |exact (open_spec p st)]; [by intros f st' (? & _)|done]. Qed.

Lemma harmless_read f : harmless (read f).
Proof. apply harmless_bind; [apply harmless_next_std|]. intros []. apply harmless_look. intros w. apply ok_or_no_panic. Qed.

Lemma harmless_read_to_string p : harmless (read_to_string resolve p).
Proof.
  apply harmless_bind; [apply harmless_map_err, harmless_open|]. intros f.
  apply harmless_bind; [apply harmless_map_err, harmless_read|]. intros s. apply harmless_pure. by case_match.
Qed.

Lemma open_lines_yields p : yields (open_lines resolve p) (λ _, True).
Proof.
  eapply yields_bind; [apply yields_attempt, harmless_open|]. intros [e|f] _; [by apply yields_ret|].
  eapply yields_bind; [apply yields_attempt, harmless_read|]. intros r _. by apply yields_ret.
Qed.

Lemma first_mount_yields ls : yields (first_mount resolve fs_type ls) (λ m, ∀ p, m = Some p → selinux_mounted p).
Proof.
  induction ls as [|l ls IH]; cbn [first_mount]; [by apply yields_ret|].
  destruct (check_line_include_selinux_fs_mount_point l) as [m|]; [|exact IH].
  eapply yields_bind; [intros st; apply verify_spec|]. intros [] Hb; [|exact IH].
  apply yields_ret. intros p [= <-]. by apply Hb.
Qed.

Lemma find_selinux_fs_yields :
  yields (find_selinux_fs resolve fs_type) (λ m, ∀ p, m = Some p → selinux_mounted p).
Proof.
  eapply yields_bind; [intros st; apply verify_spec|]. intros [] Hb.
  { apply yields_ret. intros p [= <-]. by apply Hb. }
  eapply yields_bind; [apply yields_attempt, harmless_read_to_string|]. intros fs _.
  cbn zeta. case_match; [by apply yields_ret|]. eapply yields_bind; [apply open_lines_yields|].
  intros [ls|] _; [apply first_mount_yields|by apply yields_ret].
Qed.

(** The mount point that is found is one of SELinux; it is searched for once. *)
Lemma get_selinux_mountpoint_spec st :
  (∀ p, selinuxfs st.1 = Some p → selinux_mounted p) →
  ends (get_selinux_mountpoint resolve fs_type)
    (λ m st', same_files st.2 st'.2 ∧ (∀ p, m = Some p → selinux_mounted p) ∧ selinuxfs st'.1 = m ∧
       get_selinux_mountpoint resolve fs_type st' = (Ok m, st')) never st.
Proof.
  intros Hinv. unfold get_selinux_mountpoint, ends, mbind, io_bind, get. cbn [fst].
  destruct (selinuxfs_init_done st.1) eqn:Hdone.
  - cbn. rewrite Hdone. cbn. by repeat split.
  - pose proof (find_selinux_fs_yields st) as Hf. unfold ends in Hf. cbn.
    destruct (find_selinux_fs resolve fs_type st) as [[m|e|] [s1 w1]]; [|done..].
    destruct Hf as [[_ Hk] Hm]. cbn. by split.
Qed.
End proofs.

(** ** Examples *)

Module ExampleSystem.

(** A system in which every path but one names a file; [/link] is a dangling link. *)
Definition link : Path := components "/link".
Definition resolve (p : Path) : option Path := if bool_decide (p = link) then None else Some p.
Definition lresolve (p : Path) : option Path := Some p.
Definition is_symlink (p : Path) : bool := bool_decide (p = link).
Definition fs_type (p : Path) : option Z := Some (if bool_decide (p = SELINUX_FS_MOUNT) then SELINUX_MAGIC else PROC_SUPER_MAGIC).

(** The kernel takes numbers for the mode and any text for labels. *)
Definition kernel (p : Path) (text : string) : Z + string :=
  if bool_decide (p = components "/sys/fs/selinux/enforce") && negb (is_ok (parse_signed 32 text)) then inl 22
  else inr text.

Definition container_t : SELinuxLabel := MkLabel "system_u" "object_r" "container_file_t" (Some "s0").
Definition file : Path := components "/var/lib/data".

Definition system (attrs : list (Path * string)) (files : list (string * string)) (ps : list (option Z)) :
    SELinux * world :=
  (selinux_new, MkWorld (list_to_map attrs) (list_to_map (prod_map components id <$> files)) ps).

(** A label is set although the call is interrupted, and is read back. *)
Lemma set_file_label_spec_witness :
  let st' := (set_file_label resolve lresolve file container_t (system [] [] [None; Some EINTR])).2 in
  (file_label resolve lresolve file st').1 = Ok container_t.
Proof.
  pose proof (set_file_label_spec resolve lresolve file container_t (system [] [] [None; Some EINTR])) as H.
  destruct (set_file_label _ _ _ _ _) as [r st'] eqn:Hrun. cbn zeta. cbn [snd].
  assert (r = Ok () ∧ pending st'.2 = []) as [-> Hp] by (vm_compute in Hrun; by injection Hrun as <- <-).
  destruct H as (f & _ & _ & Hread). apply Hread; [|vm_compute; discriminate|exact Hp].
  repeat split; try (intros H; vm_compute in H; repeat (apply elem_of_cons in H as [H|H]; [discriminate|]);
    by apply elem_of_nil in H).
Defined.

Definition quote (s : string) : string :=
  of_chars (map (λ c, if Ascii.eqb c "'"%char then ascii_of_nat 34 else c) (chars s)).

(** In the documented format of the context file, with spaces around the equal sign, the
    first quotation mark becomes a part of the label. *)
Example quotation_mark_kept :
  label_line (quote "process = 'system_u:system_r:container_t:s0'") ∅ !! "process"
  = Some (MkLabel (quote "'system_u") "system_r" "container_t" (Some "s0")).
Proof. vm_compute. reflexivity. Qed.

(** The policy root is a relative path, so that the contexts of the policy are not found. *)
Example policy_contexts_not_found :
  (open_context_file resolve
     (system [] [("/etc/selinux/config", "SELINUXTYPE=targeted");
                 ("/etc/selinux/targeted/contexts/lxc_contexts", "")] [])).1
  = Err (OpenContextFile (Errno ENOENT)).
Proof. vm_compute. reflexivity. Qed.

(** The mode is written as a word, which the kernel refuses. *)
Example mode_refused mode :
  (set_enforce_mode resolve fs_type kernel mode (system [] [("/sys/fs/selinux/enforce", "1")] [])).1
  = Err (SetEnforceMode (Errno 22)).
Proof. by destruct mode; vm_compute. Qed.

(** The label of a dangling link can be set but not read. *)
Example dangling_link :
  let '(r, st') := lset_file_label resolve lresolve is_symlink link container_t (system [] [] []) in
  r = Ok () ∧ (lfile_label resolve lresolve link st').1 = Err (LFileLabel EmptyPath).
Proof. vm_compute. by split. Qed.

(** When the reading of the old label is interrupted the file counts as unlabelled, and setting
    the label fails instead of being repeated. *)
Example interrupted_reading :
  (set_file_label resolve lresolve file container_t (system [(file, "u:r:t")] [] [Some EINTR])).1
  = Err (SetFileLabel (Errno EEXIST)).
Proof. vm_compute. reflexivity. Qed.

(** A context of a socket that ends in a zero byte, as the kernel may return it, is a panic. *)
Example peer_context_with_zero :
  (peer_label (λ _, inr (of_chars (chars "u:r:t:s0" ++ [zero]))) 3 (system [] [] [])).1 = Panic.
Proof. vm_compute. reflexivity. Qed.

(** The mount point is found in the list of mounts. *)
Example mount_line :
  check_line_include_selinux_fs_mount_point "28 24 0:25 / /sys/fs/selinux rw,relatime - selinuxfs selinuxfs rw"
  = Some SELINUX_FS_MOUNT.
Proof. vm_compute. reflexivity. Qed.
End ExampleSystem.
