(* ===== verification/SeccompLoad.v ===== *)
(** * SeccompLoad: installing a seccomp filter with libseccomp

    Models [crates/libcontainer/src/seccomp/mod.rs]: the translation of the seccomp section of
    a configuration into calls of the library [libseccomp].  The library is a list of the
    calls made, any of which may fail, and an interface ([Libseccomp]) that says which verdict
    the filter that was built gives to a system call. *)
From S2P Require Import Prelude Text Calls Seccomp.
Local Open Scope string_scope.
Local Open Scope list_scope.
Local Open Scope Z_scope.

(** ** Data *)

(** [oci_spec::runtime::Arch] and [libseccomp::ScmpArch] *)
Inductive OciArch : Type :=
  | ArchNative | ArchX86 | ArchX86_64 | ArchX32 | ArchArm | ArchAarch64 | ArchMips | ArchMips64
  | ArchMips64n32 | ArchMipsel | ArchMipsel64 | ArchMipsel64n32 | ArchPpc | ArchPpc64 | ArchPpc64le
  | ArchS390 | ArchS390x | ArchRiscv64 | ArchParisc | ArchParisc64 | ArchLoongarch64 | ArchM68k
  | ArchSh | ArchSheb.

Inductive ScmpArch : Type :=
  | Native | SX86 | X8664 | X32 | Arm | Aarch64 | Mips | Mips64 | Mips64N32 | Mipsel | Mipsel64
  | Mipsel64N32 | Ppc | Ppc64 | Ppc64Le | S390 | S390X | Riscv64 | Parisc | Parisc64 | Loongarch64
  | M68k | Sh | Sheb.

Inductive ScmpAction : Type :=
  | KillProcess | KillThread | Trap | Notify | Errno (errno : Z) | Trace (msg : Z) | Log | Allow.

#[global] Instance ScmpAction_eq_dec : EqDecision ScmpAction.
Proof. solve_decision. Defined.

Inductive ScmpCompareOp : Type :=
  | CNotEqual | CLess | CLessOrEqual | CEqual | CGreaterEqual | CGreater | CMaskedEqual (mask : Z).

Record ScmpArgCompare : Type := MkCompare { cmp_arg : Z; cmp_op : ScmpCompareOp; cmp_datum : Z }.

Record Profile : Type := MkProfile {
  p_default_action : LinuxSeccompAction; p_default_errno_ret : option Z;
  p_architectures : option (list OciArch); p_flags : option (list LinuxSeccompFilterFlag);
  p_syscalls : option (list LinuxSyscall) }.

Inductive LoadError : Type :=
  | TraceAction (errno : Z) | NotifyAsDefaultAction | NotifyWriteSyscall
  | AddArchError (source : Z) (arch : OciArch) | LoadContext (source : Z) | GetNotifyId (source : Z)
  | AddRuleError (source : Z) | NewFilterError (source : Z) (action : LinuxSeccompAction)
  | SetFilterFlag (source : Z) (flag : LinuxSeccompFilterFlag) | SetCtlNnp (source : Z).

(** The calls of [libseccomp] *)
Inductive call : Type :=
  | NewFilter (default_action : ScmpAction)
  | SetLog | SetTsync | SetSsb | SetWaitkill
  | AddArch (arch : ScmpArch)
  | SetNnp (on : bool)
  | AddRule (action : ScmpAction) (nr : Z)
  | AddRuleConditional (action : ScmpAction) (nr : Z) (comparators : list ScmpArgCompare)
  | Load
  | GetNotifyFd.

(** ** Translation *)

Definition translate_arch (arch : OciArch) : ScmpArch :=
  match arch with
  | ArchNative => Native | ArchX86 => SX86 | ArchX86_64 => X8664 | ArchX32 => X32 | ArchArm => Arm
  | ArchAarch64 => Aarch64 | ArchMips => Mips | ArchMips64 => Mips64 | ArchMips64n32 => Mips64N32
  | ArchMipsel => Mipsel | ArchMipsel64 => Mipsel64 | ArchMipsel64n32 => Mipsel64N32 | ArchPpc => Ppc
  | ArchPpc64 => Ppc64 | ArchPpc64le => Ppc64Le | ArchS390 => S390 | ArchS390x => S390X
  | ArchRiscv64 => Riscv64 | ArchParisc => Parisc | ArchParisc64 => Parisc64
  | ArchLoongarch64 => Loongarch64 | ArchM68k => M68k | ArchSh => Sh | ArchSheb => Sheb
  end.

Definition EPERM : Z := 1.

Definition translate_action (action : LinuxSeccompAction) (errno : option Z) : outcome LoadError ScmpAction :=
  let errno := default EPERM (swrap 32 <$> errno) in
  match action with
  | ScmpActKill => Ok KillThread
  | ScmpActTrap => Ok Trap
  | ScmpActErrno => Ok (Errno errno)
  | ScmpActTrace => if decide (in_u 16 errno) then Ok (Trace errno) else Err (TraceAction errno)
  | ScmpActAllow => Ok Allow
  | ScmpActKillProcess => Ok KillProcess
  | ScmpActNotify => Ok Notify
  | ScmpActLog => Ok Log
  | ScmpActKillThread => Ok KillThread
  end.

Definition translate_op (op : LinuxSeccompOperator) (datum_b : option Z) : ScmpCompareOp :=
  match op with
  | ScmpCmpNe => CNotEqual
  | ScmpCmpLt => CLess
  | ScmpCmpLe => CLessOrEqual
  | ScmpCmpEq => CEqual
  | ScmpCmpGe => CGreaterEqual
  | ScmpCmpGt => CGreater
  | ScmpCmpMaskedEq => CMaskedEqual (default 0 datum_b)
  end.

Definition check_profile (seccomp : Profile) : outcome LoadError () :=
  if bool_decide (p_default_action seccomp = ScmpActNotify) then Err NotifyAsDefaultAction
  else
    match p_syscalls seccomp with
    | None => Ok ()
    | Some syscalls =>
        for_each (λ sc _,
          if bool_decide (sc_action sc = ScmpActNotify)
          then for_each (λ name _, if bool_decide (name = "write") then Err NotifyWriteSyscall else Ok ())
                 (sc_names sc) ()
          else Ok ()) syscalls ()
    end.

Definition profile_is_notify (seccomp : Profile) : bool :=
  existsb (λ sc, bool_decide (sc_action sc = ScmpActNotify)) (default [] (p_syscalls seccomp)).

Definition comparator (arg : LinuxSeccompArg) : ScmpArgCompare :=
  MkCompare (uwrap 32 (sa_index arg)) (translate_op (sa_op arg) (sa_value_two arg)) (sa_value arg).

(** The loop over the arguments: the comparators, and if an index was seen before. *)
Definition comparators_of (args : list LinuxSeccompArg) : list ScmpArgCompare * bool :=
  let '(cs, _, dup) :=
    foldl (λ '(cs, seen, dup) arg,
      let c := comparator arg in
      (cs ++ [c], {[ cmp_arg c ]} ∪ seen, dup || bool_decide (cmp_arg c ∈ seen)))
      ([], (∅ : gset Z), false) args in
  (cs, dup).

Section load.
(** [ScmpSyscall::from_name], the descriptor of the notifications, and which call fails *)
Context (from_name : string → option Z) (notify_fd : Z)
  (sys : list (call * option Z) → call → option Z).

Local Abbreviation W := (list (call * option Z)).

Definition set_flag (flag : LinuxSeccompFilterFlag) : io W LoadError () :=
  do sys (match flag with
          | FlagLog => SetLog | FlagTsync => SetTsync | FlagSpecAllow => SetSsb
          | FlagWaitKillableRecv => SetWaitkill
          end) (λ e, SetFilterFlag e flag).

Definition add_arch (arch : OciArch) : io W LoadError () :=
  do sys (AddArch (translate_arch arch)) (λ e, AddArchError e arch).

Definition add_name_rules (action : ScmpAction) (args : option (list LinuxSeccompArg)) (name : string) :
    io W LoadError () :=
  match from_name name with
  | None => mret ()
  | Some sc =>
      match args with
      | Some args =>
          let '(comparators, has_duplicate_index) := comparators_of args in
          if has_duplicate_index : bool then
            io_each (λ c, do sys (AddRuleConditional action sc [c]) AddRuleError) comparators
          else do sys (AddRuleConditional action sc comparators) AddRuleError
      | None => do sys (AddRule action sc) AddRuleError
      end
  end.

Definition add_syscall_rules (default_action : ScmpAction) (syscall : LinuxSyscall) : io W LoadError () :=
  action ← pure (translate_action (sc_action syscall) (sc_errno_ret syscall));
  if bool_decide (action = default_action) then mret ()
  else io_each (add_name_rules action (sc_args syscall)) (sc_names syscall).

Definition initialize_seccomp (seccomp : Profile) : io W LoadError (option Z) :=
  _ ← pure (check_profile seccomp);
  default_action ← pure (translate_action (p_default_action seccomp) (p_default_errno_ret seccomp));
  _ ← do sys (NewFilter default_action) (λ e, NewFilterError e (p_default_action seccomp));
  _ ← io_each set_flag (default [] (p_flags seccomp));
  _ ← io_each add_arch (default [] (p_architectures seccomp));
  _ ← do sys (SetNnp false) SetCtlNnp;
  _ ← io_each (add_syscall_rules default_action) (default [] (p_syscalls seccomp));
  _ ← do sys Load LoadContext;
  if profile_is_notify seccomp then _ ← do sys GetNotifyFd GetNotifyId; mret (Some notify_fd)
  else mret None.
End load.

(** ** What a filter does *)

(** A rule that was added to a filter: its action, its system call, its comparators. *)
Definition rule : Type := ScmpAction * Z * list ScmpArgCompare.

Definition arch_of (c : call) : option ScmpArch := match c with AddArch a => Some a | _ => None end.

Definition rule_of (c : call) : option rule :=
  match c with
  | AddRule a nr => Some (a, nr, [])
  | AddRuleConditional a nr cs => Some (a, nr, cs)
  | _ => None
  end.

(** Comparisons as [libseccomp] documents them, of an argument of the system call with a
    datum; with a mask, both are masked. *)
Definition compare_holds (c : ScmpArgCompare) (vals : list Z) : bool :=
  let x := default 0 (vals !! Z.to_nat (cmp_arg c)) in
  match cmp_op c with
  | CNotEqual => negb (x =? cmp_datum c)
  | CLess => x <? cmp_datum c
  | CLessOrEqual => x <=? cmp_datum c
  | CEqual => x =? cmp_datum c
  | CGreaterEqual => cmp_datum c <=? x
  | CGreater => cmp_datum c <? x
  | CMaskedEqual mask => Z.land x mask =? Z.land (cmp_datum c) mask
  end.

(** The number with which the kernel answers a system call, for an action of [libseccomp]:
    the constants of its header. *)
Definition scmp_number (a : ScmpAction) : Z :=
  match a with
  | KillProcess => 0x80000000
  | KillThread => 0
  | Trap => 0x30000
  | Errno e => 0x50000 + e mod 0x10000
  | Notify => 0x7fc00000
  | Trace m => 0x7ff00000 + m mod 0x10000
  | Log => 0x7ffc0000
  | Allow => 0x7fff0000
  end.

(** The names of the architectures for [libseccomp]. *)
Definition scmp_arch_name (a : ScmpArch) : string :=
  "SCMP_ARCH_" +:+
  match a with
  | Native => "NATIVE" | SX86 => "X86" | X8664 => "X86_64" | X32 => "X32" | Arm => "ARM" | Aarch64 => "AARCH64"
  | Mips => "MIPS" | Mips64 => "MIPS64" | Mips64N32 => "MIPS64N32" | Mipsel => "MIPSEL"
  | Mipsel64 => "MIPSEL64" | Mipsel64N32 => "MIPSEL64N32" | Ppc => "PPC" | Ppc64 => "PPC64"
  | Ppc64Le => "PPC64LE" | S390 => "S390" | S390X => "S390X" | Riscv64 => "RISCV64" | Parisc => "PARISC"
  | Parisc64 => "PARISC64" | Loongarch64 => "LOONGARCH64" | M68k => "M68K" | Sh => "SH" | Sheb => "SHEB"
  end.

(** [libseccomp]: the verdict of the filter with a default action and some rules.  A rule
    matches if all its comparisons hold; the verdict is the action of a rule that matches,
    which one is not specified, or else the default. *)
Class Libseccomp : Type := {
  verdict : ScmpAction → list rule → Z → list Z → ScmpAction;
  matches (nr : Z) (args : list Z) (r : rule) : Prop := r.1.2 = nr ∧ Forall (λ c, compare_holds c args = true) r.2;
  verdict_rule d rules nr args r : r ∈ rules → matches nr args r →
    ∃ r', r' ∈ rules ∧ matches nr args r' ∧ verdict d rules nr args = r'.1.1;
  verdict_default d rules nr args :
    (∀ r, r ∈ rules → ¬ matches nr args r) → verdict d rules nr args = d }.

(** ** What a profile means *)

(** The number that the kernel is to answer for an action of the runtime specification; an
    error number that is not given is [EPERM]. *)
Definition spec_number (a : LinuxSeccompAction) (errno : option Z) : Z :=
  match a with
  | ScmpActKill | ScmpActKillThread => 0
  | ScmpActKillProcess => 0x80000000
  | ScmpActTrap => 0x30000
  | ScmpActErrno => 0x50000 + default 1 errno mod 0x10000
  | ScmpActNotify => 0x7fc00000
  | ScmpActTrace => 0x7ff00000 + default 1 errno mod 0x10000
  | ScmpActLog => 0x7ffc0000
  | ScmpActAllow => 0x7fff0000
  end.

(** The names of the architectures in the configuration. *)
Definition oci_arch_name (a : OciArch) : string :=
  "SCMP_ARCH_" +:+
  match a with
  | ArchNative => "NATIVE" | ArchX86 => "X86" | ArchX86_64 => "X86_64" | ArchX32 => "X32" | ArchArm => "ARM"
  | ArchAarch64 => "AARCH64" | ArchMips => "MIPS" | ArchMips64 => "MIPS64" | ArchMips64n32 => "MIPS64N32"
  | ArchMipsel => "MIPSEL" | ArchMipsel64 => "MIPSEL64" | ArchMipsel64n32 => "MIPSEL64N32"
  | ArchPpc => "PPC" | ArchPpc64 => "PPC64" | ArchPpc64le => "PPC64LE" | ArchS390 => "S390"
  | ArchS390x => "S390X" | ArchRiscv64 => "RISCV64" | ArchParisc => "PARISC" | ArchParisc64 => "PARISC64"
  | ArchLoongarch64 => "LOONGARCH64" | ArchM68k => "M68K" | ArchSh => "SH" | ArchSheb => "SHEB"
  end.

(** A comparison of the profile holds for the arguments.  A masked comparison takes the
    second value as the mask, which is zero when it is not given. *)
Definition arg_holds (a : LinuxSeccompArg) (vals : list Z) : Prop :=
  let x := default 0 (vals !! Z.to_nat (sa_index a)) in
  match sa_op a with
  | ScmpCmpNe => x ≠ sa_value a
  | ScmpCmpLt => x < sa_value a
  | ScmpCmpLe => x ≤ sa_value a
  | ScmpCmpEq => x = sa_value a
  | ScmpCmpGe => sa_value a ≤ x
  | ScmpCmpGt => sa_value a < x
  | ScmpCmpMaskedEq =>
      let mask := default 0 (sa_value_two a) in Z.land x mask = Z.land (sa_value a) mask
  end.

(** The condition of an entry: all its comparisons hold, or one of them if two comparisons
    are for the same argument. *)
Definition condition (args : option (list LinuxSeccompArg)) (vals : list Z) : Prop :=
  match args with
  | None => True
  | Some args =>
      if bool_decide (NoDup (sa_index <$> args)) then Forall (λ a, arg_holds a vals) args
      else Exists (λ a, arg_holds a vals) args
  end.

(** The indices of arguments are 32-bit numbers. *)
Definition indexed (args : option (list LinuxSeccompArg)) : Prop :=
  Forall (λ a, in_u 32 (sa_index a)) (default [] args).

(** The profile asks for notifications where they cannot be handled. *)
Definition notifies_badly (seccomp : Profile) : Prop :=
  p_default_action seccomp = ScmpActNotify ∨
  ∃ e, e ∈ default [] (p_syscalls seccomp) ∧ sc_action e = ScmpActNotify ∧ "write" ∈ sc_names e.

Lemma translate_arch_name a : scmp_arch_name (translate_arch a) = oci_arch_name a.
Proof. by destruct a. Qed.

Lemma swrap_low x : swrap 32 x mod 0x10000 = x mod 0x10000.
Proof. unfold swrap. Z.to_euclidean_division_equations; lia. Qed.

Lemma translate_action_number a errno s :
  translate_action a errno = Ok s → scmp_number s = spec_number a errno.
Proof.
  assert (default EPERM (swrap 32 <$> errno) mod 0x10000 = default 1 errno mod 0x10000) as He
    by (destruct errno; [apply swrap_low|done]).
  unfold translate_action. destruct a; repeat case_decide; intros [= <-]; cbn [scmp_number spec_number];
    rewrite ?He; done.
Qed.

Lemma comparator_holds a vals :
  in_u 32 (sa_index a) → compare_holds (comparator a) vals = true ↔ arg_holds a vals.
Proof.
  intros Hi. unfold compare_holds, arg_holds, comparator. cbn [cmp_arg cmp_op cmp_datum].
  rewrite uwrap_small by done. set (x := default 0 _). clearbody x.
  destruct (sa_op a); cbn [translate_op]; rewrite ?negb_true_iff, ?Z.eqb_neq, ?Z.eqb_eq, ?Z.ltb_lt, ?Z.leb_le; done.
Qed.

Lemma comparator_index args : Forall (λ a, in_u 32 (sa_index a)) args → cmp_arg ∘ comparator <$> args = sa_index <$> args.
Proof. induction 1 as [|a args Hi _ IH]; [done|]. rewrite !fmap_cons, IH. cbn. by rewrite uwrap_small. Qed.

(** ** The calls that are made *)

Lemma comparators_loop args cs (seen : gset Z) dup :
  (∀ i, i ∈ seen ↔ i ∈ cmp_arg <$> cs) → dup = negb (bool_decide (NoDup (cmp_arg <$> cs))) →
  foldl (λ '(cs, seen, dup) arg,
      let c := comparator arg in
      (cs ++ [c], {[ cmp_arg c ]} ∪ seen, dup || bool_decide (cmp_arg c ∈ seen))) (cs, seen, dup) args
  = (cs ++ (comparator <$> args),
     list_to_set (cmp_arg ∘ comparator <$> args) ∪ seen,
     negb (bool_decide (NoDup (cmp_arg <$> cs ++ (comparator <$> args))))).
Proof.
  revert cs seen dup. induction args as [|a args IH]; intros cs seen dup Hseen Hdup; cbn.
  - rewrite app_nil_r, <- Hdup. f_equal. f_equal. set_solver.
  - rewrite IH.
    + rewrite <- app_assoc. f_equal. f_equal. set_solver.
    + intros i. rewrite fmap_app, elem_of_app, <- Hseen. set_solver.
    + subst dup. assert (NoDup (cmp_arg <$> cs ++ [comparator a]) ↔
        NoDup (cmp_arg <$> cs) ∧ cmp_arg (comparator a) ∉ seen) as Hiff.
      { rewrite fmap_app, NoDup_app, Hseen. cbn. split.
        - intros (Hn & Hi & _). split; [done|]. intros Hx. by apply (Hi _ Hx), list_elem_of_singleton.
        - intros [Hn Hi]. split; [done|]. split; [|apply NoDup_singleton].
          intros x Hx ->%list_elem_of_singleton. done. }
      rewrite (bool_decide_ext _ _ Hiff), bool_decide_and, bool_decide_not.
      by destruct (bool_decide (NoDup _)), (bool_decide (_ ∈ seen)).
Qed.

Lemma comparators_of_spec args :
  comparators_of args = (comparator <$> args, negb (bool_decide (NoDup (cmp_arg ∘ comparator <$> args)))).
Proof.
  unfold comparators_of. rewrite (comparators_loop args [] ∅ false); [|set_solver|done]. cbn.
  by rewrite <- list_fmap_compose.
Qed.

Definition done_calls (cs : list call) : list (call * option Z) := (λ c, (c, None)) <$> cs.

(** The calls [t] are the first calls of a plan, all successful but possibly the last. *)
Definition begun (plan : list call) (t : list (call * option Z)) : Prop :=
  ∃ p rest, plan = p ++ rest ∧
    (t = done_calls p ∨ ∃ c rest' e, rest = c :: rest' ∧ t = done_calls p ++ [(c, Some e)]).

(** [m] makes the calls of the plan in their order, until one fails. *)
Definition follows {A} (m : io (list (call * option Z)) LoadError A) (plan : list call) (Q : A → Prop) : Prop :=
  runs m (λ r t, match r with
                 | Ok a => t = done_calls plan ∧ Q a
                 | Err _ => begun plan t
                 | Panic => False
                 end).

Lemma calls_done cs : (done_calls cs).*1 = cs.
Proof. unfold done_calls. induction cs as [|c cs IH]; [done|]. cbn. by f_equal. Qed.

Lemma begun_app_l p q t : begun p t → begun (p ++ q) t.
Proof.
  intros (p1 & rest & -> & Ht). exists p1, (rest ++ q). rewrite app_assoc. split; [done|].
  destruct Ht as [->|(c & rest' & e & -> & ->)]; [by left|right]. by exists c, (rest' ++ q), e.
Qed.

Lemma begun_app_r p q t : begun q t → begun (p ++ q) (done_calls p ++ t).
Proof.
  intros (p1 & rest & -> & Ht). exists (p ++ p1), rest. rewrite app_assoc. split; [done|].
  unfold done_calls. rewrite fmap_app.
  destruct Ht as [->|(c & rest' & e & -> & ->)]; [by left|right]. exists c, rest', e. by rewrite app_assoc.
Qed.

Lemma follows_do sys c err : follows (do sys c err) [c] (λ _, True).
Proof.
  apply runs_do; [done|]. intros e. exists [], [c]. split; [done|]. right. by exists c, [], e.
Qed.

Lemma follows_pure {A} (r : outcome LoadError A) plan (Q : A → Prop) :
  match r with Ok a => plan = [] ∧ Q a | Err _ => True | Panic => False end → follows (pure r) plan Q.
Proof.
  intros Hr. apply runs_pure. destruct r; [by destruct Hr as [-> ?]| |done].
  exists [], plan. split; [done|by left].
Qed.

Lemma follows_bind {A B} (m : io _ LoadError A) (f : A → io _ LoadError B) p q P Q :
  follows m p P → (∀ a, P a → follows (f a) q Q) → follows (m ≫= f) (p ++ q) Q.
Proof.
  intros Hm Hf. apply runs_bind, (runs_mono _ _ _ Hm). intros [a|e|] t Ht; [|by apply begun_app_l|done].
  destruct Ht as [-> Ha]. apply (runs_mono _ _ _ (Hf a Ha)). intros [b|e|] t' Ht'; [|by apply begun_app_r|done].
  destruct Ht' as [-> Hb]. unfold done_calls. by rewrite fmap_app.
Qed.

Lemma follows_each {A} (f : A → io _ LoadError ()) (plan : A → list call) l :
  (∀ x, follows (f x) (plan x) (λ _, True)) → follows (io_each f l) (concat (plan <$> l)) (λ _, True).
Proof.
  intros Hf. induction l as [|x l IH]; [by apply (follows_pure (Ok ()))|].
  cbn [io_each fmap list_fmap concat]. eapply follows_bind; [apply Hf|]. by intros [] _.
Qed.

Lemma follows_each_all {A} (f : A → io _ LoadError ()) (plan : A → list call) (Q : A → Prop) l :
  (∀ x, follows (f x) (plan x) (λ _, Q x)) → follows (io_each f l) (concat (plan <$> l)) (λ _, Forall Q l).
Proof.
  intros Hf. induction l as [|x l IH]; [by apply (follows_pure (Ok ()))|].
  cbn [io_each fmap list_fmap concat]. eapply follows_bind; [apply Hf|]. intros [] Hx.
  eapply runs_mono; [exact IH|]. intros [[]|e|] t; [|done..]. intros [-> Hl]. by split; [|constructor].
Qed.

Section plan.
Context (from_name : string → option Z).

Definition name_calls (action : ScmpAction) (args : option (list LinuxSeccompArg)) (name : string) : list call :=
  match from_name name with
  | None => []
  | Some nr =>
      match args with
      | None => [AddRule action nr]
      | Some args =>
          if bool_decide (NoDup (cmp_arg ∘ comparator <$> args))
          then [AddRuleConditional action nr (comparator <$> args)]
          else (λ c, AddRuleConditional action nr [c]) <$> (comparator <$> args)
      end
  end.

Definition entry_calls (d : ScmpAction) (e : LinuxSyscall) : list call :=
  match translate_action (sc_action e) (sc_errno_ret e) with
  | Ok a => if bool_decide (a = d) then [] else concat (name_calls a (sc_args e) <$> sc_names e)
  | _ => []
  end.

Definition flag_call (flag : LinuxSeccompFilterFlag) : call :=
  match flag with
  | FlagLog => SetLog | FlagTsync => SetTsync | FlagSpecAllow => SetSsb | FlagWaitKillableRecv => SetWaitkill
  end.

(** What is to be done for a profile with the default action [d]. *)
Definition plan (d : ScmpAction) (seccomp : Profile) : list call :=
  [NewFilter d] ++ (flag_call <$> default [] (p_flags seccomp))
  ++ (AddArch ∘ translate_arch <$> default [] (p_architectures seccomp))
  ++ [SetNnp false] ++ concat (entry_calls d <$> default [] (p_syscalls seccomp))
  ++ [Load] ++ (if profile_is_notify seccomp then [GetNotifyFd] else []).

Context (notify_fd : Z) (sys : list (call * option Z) → call → option Z).

Lemma follows_singletons {A} (f : A → io _ LoadError ()) (c : A → call) l :
  (∀ x, follows (f x) [c x] (λ _, True)) → follows (io_each f l) (c <$> l) (λ _, True).
Proof.
  intros Hf. replace (c <$> l) with (concat ((λ x, [c x]) <$> l)); [by apply follows_each|].
  induction l as [|x l IH]; [done|]. cbn. by rewrite IH.
Qed.

Lemma add_name_follows a args name :
  follows (add_name_rules from_name sys a args name) (name_calls a args name) (λ _, True).
Proof.
  unfold add_name_rules, name_calls. destruct (from_name name) as [nr|]; [|by apply (follows_pure (Ok ()))].
  destruct args as [args|]; [|apply follows_do]. rewrite comparators_of_spec.
  case_bool_decide; cbn [negb]; [apply follows_do|]. apply follows_singletons. intros c. apply follows_do.
Qed.

Lemma add_syscall_follows d e :
  follows (add_syscall_rules from_name sys d e) (entry_calls d e)
    (λ _, is_ok (translate_action (sc_action e) (sc_errno_ret e)) = true).
Proof.
  unfold add_syscall_rules, entry_calls.
  destruct (translate_action (sc_action e) (sc_errno_ret e)) as [a|x|] eqn:Ha.
  - apply (follows_bind _ _ [] _ (eq a)); [by apply follows_pure|]. intros ? <-.
    case_bool_decide; [by apply (follows_pure (Ok ()))|].
    eapply runs_mono; [apply follows_each; intros name; apply add_name_follows|].
    by intros [[]|e'|] t; naive_solver.
  - apply (follows_bind _ _ [] [] (λ _, False)); [by apply follows_pure|done].
  - by destruct (sc_action e); cbn in Ha; repeat case_match.
Qed.

Lemma translate_action_no_panic a e : translate_action a e ≠ Panic.
Proof. unfold translate_action. by repeat case_match. Qed.

Lemma initialize_follows seccomp d :
  check_profile seccomp = Ok () →
  translate_action (p_default_action seccomp) (p_default_errno_ret seccomp) = Ok d →
  follows (initialize_seccomp from_name notify_fd sys seccomp) (plan d seccomp)
    (λ fd, fd = (if profile_is_notify seccomp then Some notify_fd else None) ∧
       Forall (λ e, is_ok (translate_action (sc_action e) (sc_errno_ret e)) = true)
         (default [] (p_syscalls seccomp))).
Proof.
  intros Hc Hd. unfold initialize_seccomp, plan. rewrite Hc, Hd.
  apply (follows_bind _ _ [] _ (λ _, True)); [by apply follows_pure|]. intros _ _.
  apply (follows_bind _ _ [] _ (eq d)); [by apply follows_pure|]. intros ? <-.
  apply (follows_bind _ _ [NewFilter d] _ (λ _, True)); [apply follows_do|]. intros [] _.
  eapply follows_bind; [apply follows_singletons; intros x; apply follows_do|]. intros [] _.
  eapply follows_bind; [apply follows_singletons; intros x; apply follows_do|]. intros [] _.
  apply (follows_bind _ _ [SetNnp false] _ (λ _, True)); [apply follows_do|]. intros [] _.
  eapply follows_bind; [apply follows_each_all; intros e; apply add_syscall_follows|]. intros [] Hall.
  apply (follows_bind _ _ [Load] _ (λ _, True)); [apply follows_do|]. intros [] _.
  destruct (profile_is_notify seccomp); [|by apply (follows_pure (Ok None))].
  apply (follows_bind _ _ [GetNotifyFd] [] (λ _, True)); [apply follows_do|]. intros [] _.
  by apply (follows_pure (Ok (Some notify_fd))).
Qed.

(** ** The rules of the filter *)

Context `{Libseccomp}.

(** The entry [e] is about the call [nr] with the arguments [vals]. *)
Definition applies (e : LinuxSyscall) (nr : Z) (vals : list Z) : Prop :=
  (∃ name, name ∈ sc_names e ∧ from_name name = Some nr) ∧ condition (sc_args e) vals.

Lemma name_rules_match a args name nr vals : indexed args →
  (∃ r, r ∈ omap rule_of (name_calls a args name) ∧ matches nr vals r) ↔
  from_name name = Some nr ∧ condition args vals.
Proof.
  unfold name_calls, condition, matches, indexed. intros Hi. destruct (from_name name) as [n|].
  2: { cbn. split; [intros (r & Hr & _); by apply not_elem_of_nil in Hr|by intros [? _]]. }
  destruct args as [args|]; [cbn in Hi; rewrite comparator_index by done; case_bool_decide|]; cbn.
  1, 2: rewrite Forall_forall in Hi.
  - setoid_rewrite list_elem_of_singleton. split.
    + intros (r & -> & <- & Hf). split; [done|]. apply Forall_fmap in Hf. rewrite Forall_forall in Hf |- *.
      intros x Hx. apply comparator_holds; [by apply Hi|by apply Hf].
    + intros [[= ->] Hf]. eexists. split; [done|]. split; [done|]. apply Forall_fmap.
      rewrite Forall_forall in Hf |- *. intros x Hx. cbn. apply comparator_holds; [by apply Hi|by apply Hf].
  - setoid_rewrite list_elem_of_omap. setoid_rewrite Exists_exists. split.
    + intros (r & (c & Hc & Hr) & Hnr & Hf). apply list_elem_of_fmap in Hc as (k & -> & (arg & -> & Ha)%list_elem_of_fmap).
      cbn in Hr. simplify_eq/=. split; [done|]. exists arg. split; [done|]. inversion_clear Hf.
      apply comparator_holds; [by apply Hi|done].
    + intros [[= ->] (arg & Ha & Hh)]. exists (a, nr, [comparator arg]).
      split; [|split; [done|]; apply Forall_singleton; apply comparator_holds; [by apply Hi|done]].
      exists (AddRuleConditional a nr [comparator arg]). split; [|done].
      apply list_elem_of_fmap. exists (comparator arg). split; [done|]. by apply list_elem_of_fmap_2.
  - setoid_rewrite list_elem_of_singleton. split; [by intros (r & -> & <- & _)|].
    intros [[= ->] _]. eexists. split; [done|]. by repeat constructor.
Qed.

Lemma name_rules_action a args name r : r ∈ omap rule_of (name_calls a args name) → r.1.1 = a.
Proof.
  intros (c & Hc & Hr)%list_elem_of_omap. unfold name_calls in Hc. revert Hc.
  destruct (from_name name) as [nr|]; [|by intros ?%not_elem_of_nil].
  destruct args as [args|]; [case_bool_decide|].
  - intros ->%list_elem_of_singleton. by injection Hr as <-.
  - intros (k & -> & _)%list_elem_of_fmap. by injection Hr as <-.
  - intros ->%list_elem_of_singleton. by injection Hr as <-.
Qed.

Lemma omap_concat {A B} (f : A → option B) (ls : list (list A)) y :
  y ∈ omap f (concat ls) ↔ ∃ l, l ∈ ls ∧ y ∈ omap f l.
Proof.
  setoid_rewrite list_elem_of_omap. setoid_rewrite list_elem_of_In. setoid_rewrite in_concat. naive_solver.
Qed.

(** The translated action of an entry. *)
Definition entry_action (e : LinuxSyscall) : outcome LoadError ScmpAction :=
  translate_action (sc_action e) (sc_errno_ret e).

Lemma entry_rules_match d e nr vals r : indexed (sc_args e) →
  r ∈ omap rule_of (entry_calls d e) → matches nr vals r →
  entry_action e = Ok r.1.1 ∧ r.1.1 ≠ d ∧ applies e nr vals.
Proof.
  intros Hi. unfold entry_calls, entry_action.
  destruct (translate_action _ _) as [a|x|]; [|by intros ?%not_elem_of_nil..].
  case_bool_decide; [by intros ?%not_elem_of_nil|]. intros (l & Hl & Hr)%omap_concat Hm.
  apply list_elem_of_fmap in Hl as (name & -> & Hn). rewrite (name_rules_action _ _ _ _ Hr).
  split; [done|]. split; [done|].
  destruct (proj1 (name_rules_match a (sc_args e) name nr vals Hi)) as [Hnr Hc]; [by exists r|].
  split; [by exists name|done].
Qed.

Lemma applies_rule d e a nr vals : indexed (sc_args e) →
  applies e nr vals → entry_action e = Ok a → a ≠ d →
  ∃ r, r ∈ omap rule_of (entry_calls d e) ∧ matches nr vals r.
Proof.
  intros Hi [(name & Hn & Hnr) Hc] Ha Hne. unfold entry_calls. unfold entry_action in Ha. rewrite Ha, bool_decide_false by done.
  destruct (proj2 (name_rules_match a (sc_args e) name nr vals Hi)) as (r & Hr & Hm); [done|].
  exists r. split; [|done]. apply omap_concat. eexists. split; [by apply list_elem_of_fmap_2|done].
Qed.

Lemma plan_rules d seccomp r :
  r ∈ omap rule_of (plan d seccomp) ↔
  ∃ e, e ∈ default [] (p_syscalls seccomp) ∧ r ∈ omap rule_of (entry_calls d e).
Proof.
  assert (∀ l, omap rule_of (flag_call <$> l) = []) as Hf by (intros l; induction l as [|[] l IH]; auto).
  assert (∀ l, omap rule_of (AddArch ∘ translate_arch <$> l) = []) as Ha by (intros l; induction l; auto).
  unfold plan. rewrite !omap_app, Hf, Ha. cbn.
  replace (omap rule_of (if profile_is_notify seccomp then [GetNotifyFd] else [])) with (@nil rule) by (by case_match).
  rewrite app_nil_r, omap_concat. split.
  - intros (l & (e & -> & He)%list_elem_of_fmap & Hr). eauto.
  - intros (e & He & Hr). eexists. split; [by apply list_elem_of_fmap_2|done].
Qed.

(** The verdict of the filter is the action of an entry that applies, if there is one whose
    action is not the default, and else the default action. *)
Definition chosen (d : ScmpAction) (seccomp : Profile) (nr : Z) (vals : list Z) (v : ScmpAction) : Prop :=
  (∃ e, e ∈ default [] (p_syscalls seccomp) ∧ applies e nr vals ∧ entry_action e = Ok v ∧ v ≠ d) ∨
  (v = d ∧ ∀ e a, e ∈ default [] (p_syscalls seccomp) → applies e nr vals → entry_action e = Ok a → a = d).

(** The same in the terms of the profile: the number that the kernel answers is the one of
    an entry that applies, or the one of the default action, to which then every entry that
    applies amounts. *)
Definition verdict_of_profile (seccomp : Profile) (d : ScmpAction) (nr : Z) (vals : list Z) (v : ScmpAction) : Prop :=
  (∃ e, e ∈ default [] (p_syscalls seccomp) ∧ applies e nr vals ∧ v ≠ d ∧
     scmp_number v = spec_number (sc_action e) (sc_errno_ret e)) ∨
  (v = d ∧ ∀ e, e ∈ default [] (p_syscalls seccomp) → applies e nr vals →
     scmp_number v = spec_number (sc_action e) (sc_errno_ret e)).

Definition well_indexed (seccomp : Profile) : Prop :=
  Forall (λ e, indexed (sc_args e)) (default [] (p_syscalls seccomp)).

Lemma chosen_verdict d seccomp nr vals v :
  Forall (λ e, is_ok (entry_action e) = true) (default [] (p_syscalls seccomp)) →
  chosen d seccomp nr vals v → verdict_of_profile seccomp d nr vals v.
Proof.
  intros Hok [(e & He & Hap & Ha & Hne)|[-> Hall]].
  - left. exists e. split_and!; try done. by apply translate_action_number.
  - right. split; [done|]. intros e He Hap. rewrite Forall_forall in Hok. specialize (Hok e He).
    destruct (entry_action e) as [a|x|] eqn:Ha; [|done..]. rewrite <- (Hall e a He Hap Ha).
    by apply translate_action_number.
Qed.

Lemma plan_verdict d seccomp nr vals : well_indexed seccomp →
  chosen d seccomp nr vals (verdict d (omap rule_of (plan d seccomp)) nr vals).
Proof.
  intros Hi. unfold well_indexed in Hi. rewrite Forall_forall in Hi.
  assert (∀ r, Decision (matches nr vals r)) as Hdec by (intros r; unfold matches; apply _).
  destruct (decide (Exists (matches nr vals) (omap rule_of (plan d seccomp)))) as [Hx|Hx].
  - apply Exists_exists in Hx as (r & Hr & Hm). left.
    destruct (verdict_rule d _ nr vals r Hr Hm) as (r' & Hr' & Hm' & ->).
    apply plan_rules in Hr' as (e & He & Hr'). exists e.
    destruct (entry_rules_match d e nr vals r' (Hi e He) Hr' Hm') as (? & ? & ?). done.
  - right. split.
    + apply verdict_default. intros r Hr Hm. apply Hx, Exists_exists. by exists r.
    + intros e a He Hap Ha. destruct (decide (a = d)) as [|Hne]; [done|]. destruct Hx.
      destruct (applies_rule d e a nr vals (Hi e He) Hap Ha Hne) as (r & Hr & Hm).
      apply Exists_exists. exists r. split; [|done]. apply plan_rules. by exists e.
Qed.

(** *** Notifications *)

Lemma check_profile_no_panic seccomp : check_profile seccomp ≠ Panic.
Proof.
  unfold check_profile. case_bool_decide; [done|]. destruct (p_syscalls seccomp); [|done].
  apply for_each_no_panic. intros e []. case_bool_decide; [|done].
  apply for_each_no_panic. intros n []. by case_bool_decide.
Qed.

Lemma check_profile_ok seccomp :
  check_profile seccomp = Ok () →
  p_default_action seccomp ≠ ScmpActNotify ∧
  ∀ e, e ∈ default [] (p_syscalls seccomp) → sc_action e = ScmpActNotify → "write" ∉ sc_names e.
Proof.
  unfold check_profile. case_bool_decide as Hd; [done|]. intros Hc. split; [done|].
  destruct (p_syscalls seccomp) as [l|]; cbn; [|by intros e ?%not_elem_of_nil].
  assert (Forall (λ e, sc_action e = ScmpActNotify → "write" ∉ sc_names e) l) as Hf.
  { match type of Hc with for_each ?f _ _ = _ =>
      assert (ok_iff (for_each f l ()) (Forall (λ e, sc_action e = ScmpActNotify → "write" ∉ sc_names e) l)) as Ho end.
    { apply ok_iff_for_each. intros e [] _. case_bool_decide as Ha; [|by cbn; intros].
      apply (ok_iff_mono _ (Forall (λ n, n ≠ "write") (sc_names e))).
      - rewrite Forall_forall. split; [|intros Hw n Hn ->; by apply Hw]. intros Hn _ Hw. by apply (Hn _ Hw).
      - apply ok_iff_for_each. intros n [] _. case_bool_decide as Hw; cbn; [by intros Hn; apply Hn|done]. }
    by rewrite Hc in Ho. }
  intros e He. by rewrite Forall_forall in Hf; apply Hf.
Qed.

Lemma translate_notify a errno : translate_action a errno = Ok Notify → a = ScmpActNotify.
Proof. unfold translate_action. by repeat case_match. Qed.

(** No name but [write] stands for the system call [write]. *)
Definition write_is_write : Prop :=
  ∀ name nr, from_name name = Some nr → from_name "write" = Some nr → name = "write".

Lemma write_not_notified d seccomp nr vals v :
  check_profile seccomp = Ok () →
  translate_action (p_default_action seccomp) (p_default_errno_ret seccomp) = Ok d →
  write_is_write → from_name "write" = Some nr → chosen d seccomp nr vals v → v ≠ Notify.
Proof.
  intros [Hd He]%check_profile_ok Htr Hw Hnr [(e & Hin & [(name & Hn & Hname) _] & Ha & _)|[-> _]] ->.
  - apply translate_notify in Ha. apply (He e Hin Ha). by rewrite <- (Hw name nr Hname Hnr).
  - by apply translate_notify in Htr.
Qed.

Lemma plan_architectures d seccomp :
  scmp_arch_name <$> omap arch_of (plan d seccomp) = oci_arch_name <$> default [] (p_architectures seccomp).
Proof.
  assert (∀ l, omap arch_of (flag_call <$> l) = []) as Hf by (intros l; induction l as [|[] l IH]; auto).
  assert (∀ l, omap arch_of (concat (entry_calls d <$> l)) = []) as He.
  { intros l. apply elem_of_nil_inv. intros x (c & Hc & Hx)%list_elem_of_omap.
    apply list_elem_of_In, in_concat in Hc as (cs & Hcs & Hc). apply list_elem_of_In in Hcs, Hc.
    apply list_elem_of_fmap in Hcs as (e & -> & _). revert Hc. unfold entry_calls.
    destruct (translate_action _ _) as [a| |]; [|by intros ?%not_elem_of_nil..].
    case_bool_decide; [by intros ?%not_elem_of_nil|]. intros (l' & Hl & Hc)%list_elem_of_In%in_concat.
    apply list_elem_of_In in Hl, Hc. apply list_elem_of_fmap in Hl as (name & -> & _). revert Hc. unfold name_calls.
    repeat case_match; rewrite ?list_elem_of_fmap, ?list_elem_of_singleton;
      (by intros ?%not_elem_of_nil) || (by intros ->) || by intros (? & -> & _). }
  unfold plan. rewrite !omap_app, Hf, He. cbn.
  replace (omap arch_of (if profile_is_notify seccomp then [GetNotifyFd] else [])) with (@nil ScmpArch) by (by case_match).
  rewrite app_nil_r. induction (default [] (p_architectures seccomp)) as [|a l IH]; [done|]. cbn.
  by rewrite IH, translate_arch_name.
Qed.

Lemma is_notify_spec seccomp :
  profile_is_notify seccomp = true ↔ ∃ e, e ∈ default [] (p_syscalls seccomp) ∧ sc_action e = ScmpActNotify.
Proof.
  unfold profile_is_notify. rewrite existsb_exists. setoid_rewrite list_elem_of_In.
  setoid_rewrite bool_decide_eq_true. done.
Qed.

(** C33: installing a seccomp filter.  A profile that notifies by default or for [write] is
    refused before the library is called.  Otherwise the calls of the plan are made in their
    order, the loading after all rules, until one fails; there is no panic.  On success all of
    them were made, for the architectures that the profile names, the descriptor for
    notifications is returned exactly if the profile asks for notifications, and the filter
    answers each system call with the number that the kernel has for the action that the
    profile wants: that of an entry for the call whose comparisons hold, or else the default,
    where an error number that is not given is [EPERM].  The system call [write] is never
    notified, so that the descriptor can be sent to the agent.  Comparisons with a mask take
    the second value as the mask. *)
Theorem initialize_seccomp_spec seccomp w :
  well_indexed seccomp →
  let '(r, w') := initialize_seccomp from_name notify_fd sys seccomp w in
  ∃ t, w' = w ++ t ∧ (notifies_badly seccomp → is_ok r = false ∧ t = []) ∧
  match r with
  | Ok fd => ∃ d, t = done_calls (plan d seccomp) ∧
      scmp_number d = spec_number (p_default_action seccomp) (p_default_errno_ret seccomp) ∧
      scmp_arch_name <$> omap arch_of t.*1 = oci_arch_name <$> default [] (p_architectures seccomp) ∧
      (fd = Some notify_fd ∧ (∃ e, e ∈ default [] (p_syscalls seccomp) ∧ sc_action e = ScmpActNotify) ∨
       fd = None ∧ ∀ e, e ∈ default [] (p_syscalls seccomp) → sc_action e ≠ ScmpActNotify) ∧
      ∀ nr vals, let v := verdict d (omap rule_of t.*1) nr vals in
        verdict_of_profile seccomp d nr vals v ∧
        (write_is_write → from_name "write" = Some nr → v ≠ Notify)
  | Err _ => ∃ d, begun (plan d seccomp) t
  | Panic => False
  end.
Proof.
  intros Hi. destruct (initialize_seccomp from_name notify_fd sys seccomp w) as [r w'] eqn:Hrun.
  destruct (check_profile seccomp) as [[]|x|] eqn:Hc.
  2: { unfold initialize_seccomp in Hrun. rewrite Hc in Hrun. cbn in Hrun. injection Hrun as <- <-.
       exists []. rewrite app_nil_r. repeat split. exists Allow, [], (plan Allow seccomp). auto. }
  2: { by apply check_profile_no_panic in Hc. }
  assert (¬ notifies_badly seccomp) as Hgood.
  { destruct (check_profile_ok seccomp Hc) as [H1 H2]. intros [?|(e & He & Ha & Hw)]; [done|]. by apply (H2 e). }
  destruct (translate_action (p_default_action seccomp) (p_default_errno_ret seccomp)) as [d|x|] eqn:Hd.
  2: { unfold initialize_seccomp in Hrun. rewrite Hc, Hd in Hrun. cbn in Hrun. injection Hrun as <- <-.
       exists []. rewrite app_nil_r. split; [done|]. split; [done|]. exists Allow, [], (plan Allow seccomp). auto. }
  2: { by apply translate_action_no_panic in Hd. }
  destruct (initialize_follows seccomp d Hc Hd w) as (t & Hw & Ht). rewrite Hrun in Hw, Ht. cbn [fst snd] in Hw, Ht.
  exists t. split; [done|]. split; [done|]. destruct r as [fd|x|]; [|by exists d|done].
  destruct Ht as [-> [-> Hall]]. exists d. split; [done|]. split; [by apply translate_action_number|].
  rewrite calls_done. split; [apply plan_architectures|]. split.
  { pose proof (is_notify_spec seccomp) as Hn. destruct (profile_is_notify seccomp); [left|right].
    - split; [done|]. by apply Hn.
    - split; [done|]. intros e He Ha. assert (false = true) as [=]. apply Hn. by exists e. }
  intros nr vals v. assert (chosen d seccomp nr vals v) as Hv by by apply plan_verdict.
  split; [by apply chosen_verdict|]. intros Hwr Hnr. by apply (write_not_notified d seccomp nr vals).
Qed.
End plan.

(** ** An instance and an example *)

(** Of the rules that match, the last is taken. *)

Definition rule_matches (nr : Z) (vals : list Z) (r : rule) : bool :=
  (r.1.2 =? nr) && forallb (λ c, compare_holds c vals) r.2.

#[refine, export] Instance last_rule : Libseccomp := {|
  verdict d rules nr vals :=
    foldl (λ v r, if rule_matches nr vals r then r.1.1 else v) d rules |}.
Proof.
  all: assert (∀ nr vals r, (r.1.2 = nr ∧ Forall (λ c, compare_holds c vals = true) r.2) ↔
                            rule_matches nr vals r = true) as Hm by
    (intros nr vals r; unfold rule_matches; rewrite andb_true_iff, Z.eqb_eq, forallb_forall, Forall_forall;
     setoid_rewrite list_elem_of_In; done).
  - intros d rules nr vals r Hr Hmr.
    revert d r Hr Hmr. induction rules as [|x rules IH] using rev_ind; intros d r Hr Hmr;
      [by apply not_elem_of_nil in Hr|].
    setoid_rewrite foldl_snoc. destruct (rule_matches nr vals x) eqn:Hx.
    + exists x. split; [set_solver|]. split; [by apply Hm|done].
    + apply elem_of_app in Hr as [Hr|Hr%list_elem_of_singleton].
      * destruct (IH d r Hr Hmr) as (r' & ? & ? & ?). exists r'. split; [set_solver|done].
      * subst x. apply Hm in Hmr. congruence.
  - intros d rules nr vals Hno. induction rules as [|x rules IH] using rev_ind; [done|].
    rewrite foldl_snoc. destruct (rule_matches nr vals x) eqn:Hx.
    + destruct (Hno x); [set_solver|by apply Hm].
    + apply IH. intros r Hr. apply Hno. set_solver.
Defined.

(** A profile that refuses [socket] for netlink and notifies [mount]. *)
Definition example_profile : Profile :=
  MkProfile ScmpActAllow None (Some [ArchNative]) None
    (Some [MkSyscall ["socket"; "unknown"] ScmpActErrno (Some 11)
             (Some [MkSeccompArg 0 16 None ScmpCmpEq; MkSeccompArg 2 9 None ScmpCmpNe]);
           MkSyscall ["mount"] ScmpActNotify None None]).

Definition example_name (s : string) : option Z :=
  if bool_decide (s = "socket") then Some 41 else if bool_decide (s = "mount") then Some 165
  else if bool_decide (s = "write") then Some 1 else None.

Lemma example_indexed : well_indexed example_profile.
Proof. apply (bool_decide_unpack _). vm_compute. exact I. Qed.

(** The default is to allow; [socket] for netlink is answered with the error 11. *)
Lemma initialize_seccomp_spec_witness :
  let '(r, w') := initialize_seccomp example_name 7 (λ _ _, None) example_profile [] in
  r = Ok (Some 7) ∧ ∃ d, scmp_number d = 0x7fff0000 ∧
    verdict_of_profile example_name example_profile d 41 [16; 0; 3] (verdict d (omap rule_of w'.*1) 41 [16; 0; 3]).
Proof.
  pose proof (initialize_seccomp_spec example_name 7 (λ _ _, None) example_profile [] example_indexed) as H.
  destruct (initialize_seccomp _ _ _ _ _) as [r w'] eqn:Hrun.
  assert (r = Ok (Some 7)) as -> by (vm_compute in Hrun; by injection Hrun as <- _).
  split; [reflexivity|]. destruct H as (t & -> & _ & d & -> & Hd & _ & _ & Hv). exists d.
  split; [exact Hd|]. apply (Hv 41 [16; 0; 3]).
Defined.

(** The entry for [clone] of widespread profiles, which is meant for calls without flags for
    new namespaces: it has a masked comparison without a second value, so the mask is zero
    and the entry applies to every call. *)
Example masked_clone :
  let a := MkSeccompArg 0 2114060288 None ScmpCmpMaskedEq in
  compare_holds (comparator a) [0] = true ∧ compare_holds (comparator a) [0x10000000] = true.
Proof. done. Qed.

Example socket_refused :
  let '(_, w') := initialize_seccomp example_name 7 (λ _ _, None) example_profile [] in
  verdict Allow (omap rule_of w'.*1) 41 [16; 0; 3] = Errno 11 ∧ verdict Allow (omap rule_of w'.*1) 41 [2; 0; 0] = Allow.
Proof. vm_compute. by split. Qed.
