(* ===== verification/Foreground.v ===== *)
(** * Foreground: waiting for a container and relaying its terminal

    Models [crates/youki/src/commands/foreground.rs]: the process that stays in the
    foreground forwards signals to the container, reaps its children until the init process
    has ended, copies the output of the pseudo terminal, and restores the terminal.

    What happens outside is a list of batches: before each poll, and before each signal that
    is received, one batch of events takes place.  A computation that still waits when the
    list is used up has the result [None].  The system calls that the program makes are
    recorded with [Calls]. *)
From S2P Require Import Prelude Calls.
Local Open Scope list_scope.
Local Open Scope Z_scope.

(** ** Relaying output *)

(** The pseudo terminal: the bytes that can be read, and if the other side was closed;
    the request to stop; the bytes written so far. *)
Record relay : Type := MkRelay {
  queue : list byte; hangup : bool; stop : bool; out : list byte }.

(** Output that arrives, the other side being closed, the request to stop, or a poll that fails *)
Record batch : Type := MkBatch {
  arrived : list byte; closed : bool; stopped : bool; poll_error : option Z }.

Definition happen (b : batch) (r : relay) : relay :=
  MkRelay (queue r ++ arrived b) (hangup r || closed b) (stop r || stopped b) (out r).

(** [POLLIN], [POLLHUP] or [POLLERR] for the terminal *)
Definition master_events (r : relay) : bool := negb (bool_decide (queue r = [])) || hangup r.

(** [poll] without time-out; [None] if it never returns. *)
Fixpoint poll (bs : list batch) (r : relay) : option (outcome Z relay * list batch) :=
  match bs with
  | [] => if master_events r || stop r then Some (Ok r, []) else None
  | b :: bs =>
      match poll_error b with
      | Some e => Some (Err e, bs)
      | None => let r := happen b r in if master_events r || stop r then Some (Ok r, bs) else poll bs r
      end
  end.

(** [poll] with the time-out zero *)
Definition poll_now (bs : list batch) (r : relay) : outcome Z relay * list batch :=
  match bs with
  | [] => (Ok r, [])
  | b :: bs => (match poll_error b with Some e => Err e | None => Ok (happen b r) end, bs)
  end.

Definition EIO : Z := 5.
Definition BUFFER : nat := Z.to_nat 8192.

(** [read] of the terminal: the bytes, or the error when nothing is left and the other side
    was closed. *)
Definition read (r : relay) : outcome Z (list byte * relay) :=
  match queue r with
  | [] => Err EIO
  | q => Ok (take BUFFER q, MkRelay (drop BUFFER q) (hangup r) (stop r) (out r))
  end.

Section relay.
(** [sink o c]: the error of writing [c] after [o], if it has one. *)
Context (sink : list byte → list byte → option Z).

Definition write_all (c : list byte) (r : relay) : outcome Z relay :=
  match sink (out r) c with
  | Some e => Err e
  | None => Ok (MkRelay (queue r) (hangup r) (stop r) (out r ++ c))
  end.

(** One read and write: [inr] goes on, [inl] returns. *)
Definition copy_once (r : relay) : outcome Z () * relay + relay :=
  match read r with
  | Ok (c, r') =>
      if bool_decide (c = []) then inl (Ok (), r')
      else match write_all c r' with Ok r'' => inr r'' | Err e => inl (Err e, r') | Panic => inl (Panic, r') end
  | Err e => inl (if e =? EIO then Ok () else Err e, r)
  | Panic => inl (Panic, r)
  end.

Fixpoint drain_pending_output (fuel : nat) (bs : list batch) (r : relay) :
    option (outcome Z () * relay * list batch) :=
  match fuel with
  | O => None
  | S fuel =>
      match poll_now bs r with
      | (Err e, bs) => Some (Err e, r, bs)
      | (Panic, bs) => Some (Panic, r, bs)
      | (Ok r, bs) =>
          if negb (master_events r) then Some (Ok (), r, bs)
          else match copy_once r with
               | inl (res, r) => Some (res, r, bs)
               | inr r => drain_pending_output fuel bs r
               end
      end
  end.

Fixpoint relay_output (fuel : nat) (bs : list batch) (r : relay) :
    option (outcome Z () * relay * list batch) :=
  match fuel with
  | O => None
  | S fuel =>
      match poll bs r with
      | None => None
      | Some (Err e, bs) => Some (Err e, r, bs)
      | Some (Panic, bs) => Some (Panic, r, bs)
      | Some (Ok r, bs) =>
          let step := if master_events r then copy_once r else inr r in
          match step with
          | inl (res, r) => Some (res, r, bs)
          | inr r' => if stop r then drain_pending_output fuel bs r' else relay_output fuel bs r'
          end
      end
  end.

(** *** Nothing is lost *)

(** All the output there is: written, readable, or still to arrive. *)
Definition all_output (r : relay) (bs : list batch) : list byte :=
  out r ++ queue r ++ concat (arrived <$> bs).

(** Turns that a loop can take. *)
Definition turns (r : relay) (bs : list batch) : nat :=
  length (queue r) + length (concat (arrived <$> bs)) + length bs.

Definition no_poll_errors (bs : list batch) : Prop := Forall (λ b, poll_error b = None) bs.

(** What a loop that returns has done: on success everything that arrived is written. *)
Definition relayed (r : relay) (bs : list batch) (res : outcome Z () * relay * list batch) : Prop :=
  let '(o, r', bs') := res in
  suffix bs' bs ∧ out r `prefix_of` out r' ∧
  match o with
  | Ok _ => queue r' = [] ∧ out r' ++ concat (arrived <$> bs') = all_output r bs
  | Err _ => out r' `prefix_of` all_output r bs
  | Panic => False
  end.

Definition after (consumed : list batch) (r : relay) : relay :=
  MkRelay (queue r ++ concat (arrived <$> consumed)) (hangup r || existsb closed consumed)
    (stop r || existsb stopped consumed) (out r).

Lemma after_none r : after [] r = r.
Proof. destruct r. unfold after. cbn. by rewrite app_nil_r, !orb_false_r. Qed.

Lemma after_cons b bs r : after bs (happen b r) = after (b :: bs) r.
Proof. unfold after, happen. cbn. by rewrite <- app_assoc, <- !orb_assoc. Qed.

Lemma poll_spec bs r :
  match poll bs r with
  | None => master_events (after bs r) || stop (after bs r) = false
  | Some (Ok r', bs') => ∃ consumed, bs = consumed ++ bs' ∧ r' = after consumed r ∧
      master_events r' || stop r' = true ∧ (consumed = [] → bs = [])
  | Some (Err _, bs') => suffix bs' bs
  | Some (Panic, _) => False
  end.
Proof.
  revert r. induction bs as [|b bs IH]; intros r; cbn [poll].
  - destruct (master_events r || stop r) eqn:Hr; [|by rewrite after_none].
    exists []. by rewrite after_none.
  - destruct (poll_error b); [by exists [b]|]. cbn zeta.
    destruct (master_events (happen b r) || stop (happen b r)) eqn:Hr.
    + exists [b]. rewrite <- after_cons, after_none. done.
    + specialize (IH (happen b r)). destruct (poll bs (happen b r)) as [[[r'|e|] bs']|]; [| |done|].
      * destruct IH as (consumed & -> & -> & Hready & _). exists (b :: consumed). by rewrite <- after_cons.
      * by apply suffix_cons_r.
      * by rewrite after_cons in IH.
Qed.

Lemma copy_once_spec r :
  match copy_once r with
  | inr r' => out r' ++ queue r' = out r ++ queue r ∧ out r `prefix_of` out r' ∧
      (length (queue r') < length (queue r))%nat ∧ hangup r' = hangup r ∧ stop r' = stop r
  | inl (Ok _, r') => queue r = [] ∧ r' = r
  | inl (Err _, r') => out r' = out r
  | inl (Panic, _) => False
  end.
Proof.
  unfold copy_once, read. destruct (queue r) as [|c q] eqn:Hq; [done|].
  assert (∃ n, BUFFER = S n) as [n ->] by (exists (Z.to_nat 8191); unfold BUFFER; lia).
  cbn [take]. rewrite bool_decide_false by done. unfold write_all. cbn [out].
  destruct (sink (out r) (c :: take n q)); [done|]. cbn. rewrite <- app_assoc. cbn. rewrite take_drop, length_drop.
  split; [done|]. split; [by eexists|]. split; [lia|done].
Qed.

Lemma all_output_after consumed bs r : all_output (after consumed r) bs = all_output r (consumed ++ bs).
Proof. unfold all_output, after. cbn. by rewrite fmap_app, concat_app, <- !app_assoc. Qed.

Lemma turns_after consumed bs r :
  turns r (consumed ++ bs) = (turns (after consumed r) bs + length consumed)%nat.
Proof. unfold turns, after. cbn. rewrite fmap_app, concat_app, !length_app. lia. Qed.

(** A computation that goes on from [r1] with [bs1] relays for [r] and [bs] as well. *)
Lemma relayed_after r bs r1 bs1 res :
  suffix bs1 bs → out r `prefix_of` out r1 → all_output r1 bs1 = all_output r bs →
  relayed r1 bs1 res → relayed r bs res.
Proof.
  destruct res as [[o r'] bs']. intros Hs Hp Ha (Hs' & Hp' & Ho). split; [by etrans|]. split; [by etrans|].
  destruct o; [|by rewrite <- Ha|done]. by rewrite <- Ha.
Qed.

Lemma relayed_now r bs bs' : suffix bs' bs → queue r = [] → all_output r bs' = all_output r bs → relayed r bs (Ok (), r, bs').
Proof.
  intros Hs Hq Ha. split; [done|]. split; [done|]. split; [done|]. rewrite <- Ha. unfold all_output. by rewrite Hq.
Qed.

Lemma relayed_err r bs r' bs' e : suffix bs' bs → out r' = out r → relayed r bs (Err e, r', bs').
Proof. intros Hs Ho. split; [done|]. rewrite Ho. split; [done|]. by eexists. Qed.

(** Draining ends, after every batch and every byte at the latest. *)
Lemma drain_spec fuel bs r :
  (turns r bs < fuel)%nat → ∃ res, drain_pending_output fuel bs r = Some res ∧ relayed r bs res.
Proof.
  revert bs r. induction fuel as [|fuel IH]; intros bs r Hf; [lia|]. cbn [drain_pending_output].
  assert (∃ o bs1, poll_now bs r = (o, bs1) ∧ match o with
    | Ok r1 => ∃ consumed, bs = consumed ++ bs1 ∧ r1 = after consumed r ∧ (consumed = [] → bs = [])
    | Err _ => suffix bs1 bs | Panic => False end) as (o & bs1 & -> & Ho).
  { destruct bs as [|b bs]; cbn; [exists (Ok r), []; split; [done|]; exists []; by rewrite after_none|].
    destruct (poll_error b); [eexists _, _; split; [done|]; by exists [b]|].
    eexists _, _. split; [done|]. exists [b]. by rewrite <- after_cons, after_none. }
  destruct o as [r1|e|]; [|eexists; split; [done|]; by apply relayed_err|done].
  destruct Ho as (consumed & -> & -> & Hne). rewrite turns_after in Hf.
  assert (suffix bs1 (consumed ++ bs1)) as Hsuf by (by eexists).
  pose proof (all_output_after consumed bs1 r) as Hall. set (r1 := after consumed r) in *.
  destruct (master_events r1) eqn:Hme; cbn [negb].
  2: { eexists. split; [done|]. apply (relayed_after _ _ r1 bs1); [done|done|done|].
       apply relayed_now; [done| |done]. unfold master_events in Hme. apply orb_false_iff in Hme as [Hq _].
       by apply negb_false_iff, bool_decide_eq_true in Hq. }
  pose proof (copy_once_spec r1) as Hc. destruct (copy_once r1) as [[[[]|e|] r2]|r2].
  - destruct Hc as [Hq ->]. eexists. split; [done|]. apply (relayed_after _ _ r1 bs1); [done|done|done|].
    by apply relayed_now.
  - eexists. split; [done|]. by apply relayed_err.
  - done.
  - destruct Hc as (Heq & Hp & Hlt & _ & _). destruct (IH bs1 r2) as (res & -> & Hres).
    { unfold turns in *. lia. }
    eexists. split; [done|]. apply (relayed_after _ _ r2 bs1); [done|done| |done].
    rewrite <- Hall. unfold all_output. rewrite !app_assoc. by rewrite Heq.
Qed.

Lemma existsb_none {A} (f : A → bool) l : existsb f l = false → Forall (λ x, f x = false) l.
Proof. induction l as [|x l IH]; cbn; [done|]. intros [? ?]%orb_false_iff. auto. Qed.

(** The output of the terminal.  The relay returns if it is asked to stop or the other side is
    closed, at the latest when it has read everything.  When it returns without an error, all
    output that has arrived was written, in its order; an error of [poll] or of writing leaves
    a first part of it. *)
Theorem relay_output_spec fuel bs r :
  (turns r bs + 1 < fuel)%nat →
  match relay_output fuel bs r with
  | Some res => relayed r bs res
  | None => hangup r = false ∧ stop r = false ∧ Forall (λ b, closed b = false ∧ stopped b = false) bs
  end.
Proof.
  revert bs r. induction fuel as [|fuel IH]; intros bs r Hf; [lia|]. cbn [relay_output].
  pose proof (poll_spec bs r) as Hp. destruct (poll bs r) as [[[r1|e|] bs1]|]; [|by apply relayed_err|done|].
  2: { unfold master_events, after in Hp. cbn in Hp. rewrite !orb_false_iff in Hp.
       destruct Hp as ((_ & Hh & Hcl) & Hs & Hst). split; [done|]. split; [done|].
       apply Forall_and. split; by apply existsb_none. }
  destruct Hp as (consumed & -> & -> & Hready & Hne). rewrite turns_after in Hf.
  assert (suffix bs1 (consumed ++ bs1)) as Hsuf by (by eexists).
  pose proof (all_output_after consumed bs1 r) as Hall.
  assert (stop (after consumed r) = stop r || existsb stopped consumed) as Hstop by done.
  assert (hangup (after consumed r) = hangup r || existsb closed consumed) as Hhang by done.
  set (r1 := after consumed r) in *. cbn zeta.
  destruct (if master_events r1 then copy_once r1 else inr r1) as [[o r2]|r2] eqn:Hstep.
  { destruct (master_events r1); [|done]. pose proof (copy_once_spec r1) as Hc. rewrite Hstep in Hc.
    destruct o as [[]|e|]; [|by apply relayed_err|done]. destruct Hc as [Hq ->].
    apply (relayed_after _ _ r1 bs1); [done|done|done|]. by apply relayed_now. }
  assert (all_output r2 bs1 = all_output r (consumed ++ bs1) ∧ out r `prefix_of` out r2 ∧
    (turns r2 bs1 ≤ turns r1 bs1)%nat ∧ hangup r2 = hangup r1 ∧ stop r2 = stop r1 ∧
    (master_events r1 = true → (turns r2 bs1 < turns r1 bs1)%nat)) as (Hall2 & Hp2 & Ht2 & Hh2 & Hs2 & Hlt2).
  { destruct (master_events r1); [|injection Hstep as <-; rewrite Hall; repeat split; done || lia].
    pose proof (copy_once_spec r1) as Hc. rewrite Hstep in Hc. destruct Hc as (Heq & Hpre & Hlt & ? & ?).
    rewrite <- Hall. unfold all_output, turns. rewrite !app_assoc, Heq. repeat split; done || lia. }
  destruct (stop r1) eqn:Hs1.
  - destruct (drain_spec fuel bs1 r2 ltac:(lia)) as (res & -> & Hres).
    by apply (relayed_after _ _ r2 bs1).
  - rewrite orb_false_r in Hready. specialize (Hlt2 Hready). specialize (IH bs1 r2 ltac:(lia)).
    destruct (relay_output fuel bs1 r2) as [res|]; [by apply (relayed_after _ _ r2 bs1)|].
    destruct IH as (Hh & _ & Hrest). rewrite Hh2, Hhang in Hh. apply orb_false_iff in Hh as [Hh Hcl].
    symmetry in Hstop. apply orb_false_iff in Hstop as [Hst Hsc]. split; [done|]. split; [done|].
    apply Forall_app. split; [|done]. apply Forall_and. split; by apply existsb_none.
Qed.
End relay.

(** ** Children and signals *)

Inductive WaitStatus : Type :=
  | Exited (pid code : Z) | Signaled (pid signal : Z) | OtherStatus (pid : Z).

Definition SIGCHLD : Z := 17.
Definition SIGURG : Z := 23.
Definition SIGWINCH : Z := 28.
Definition ECHILD : Z := 10.

(** The children that live, and the changes of state that were not waited for. *)
Record children : Type := MkChildren { living : list Z; zombies : list WaitStatus }.

(** [waitpid] without blocking, until the init process or no child is found. *)
Fixpoint reap_loop (init_pid : Z) (alive : list Z) (zs : list WaitStatus) :
    outcome Z (option Z) * list WaitStatus :=
  match zs with
  | [] => (if bool_decide (alive = []) then Err ECHILD else Ok None, [])
  | Exited pid status :: zs =>
      if pid =? init_pid then (Ok (Some status), zs) else reap_loop init_pid alive zs
  | Signaled pid signal :: zs =>
      if pid =? init_pid then (Ok (Some (128 + signal)), zs) else reap_loop init_pid alive zs
  | OtherStatus _ :: zs => reap_loop init_pid alive zs
  end.

Definition reap_children (init_pid : Z) (c : children) : outcome Z (option Z) * children :=
  let '(r, zs) := reap_loop init_pid (living c) (zombies c) in (r, MkChildren (living c) zs).

(** Children that end, and what [SigSet::wait] answers then: a signal, or an error.  The
    type of its result has the 31 standard signals only; what it does with a real-time
    signal is up to its crate, which may panic. *)
Record arrival : Type := MkArrival { ended : list WaitStatus; received : outcome Z Z }.

Definition ended_pid (s : WaitStatus) : option Z :=
  match s with Exited pid _ | Signaled pid _ => Some pid | OtherStatus _ => None end.

Definition arrive (a : arrival) (c : children) : children :=
  MkChildren (filter (λ pid, pid ∉ omap ended_pid (ended a)) (living c)) (zombies c ++ ended a).

(** ** The foreground process *)

Inductive call : Type :=
  | BlockSignals | IsTty | TcGetAttr | SetRaw | RestoreTerminal | DupResize | DupMaster | NewEventFd
  | GetSize | SetSize | StopRelay | Kill (signal : Z).

Section foreground.
(** If the standard input is a terminal, and which call fails *)
Context (stdin_is_tty : bool) (sys : list (call * option Z) → call → option Z).

Local Abbreviation W := (list (call * option Z)).

Definition try_call (c : call) : io W Z () := do sys c id.

(** A call whose failure is ignored. *)
Definition ignored (c : call) : io W Z () := _ ← attempt (try_call c) : io W Z (Z + ()); mret ().

(** [RawTerminalGuard::new]: if there is a guard *)
Definition raw_guard : io W Z bool :=
  _ ← try_call IsTty;
  if negb stdin_is_tty then mret false
  else _ ← try_call TcGetAttr; _ ← try_call SetRaw; mret true.

Definition drop_guard (raw : bool) : io W Z () := if raw then ignored RestoreTerminal else mret ().

(** [?] with values to drop when it returns, or when the stack is unwound *)
Definition or_drop {A} (cleanup : io W Z ()) (m : io W Z A) : io W Z A := λ w,
  match m w with
  | (Ok a, w) => (Ok a, w)
  | (Err e, w) => (_ ← cleanup; pure (Err e)) w
  | (Panic, w) => (Panic, (cleanup w).2)
  end.

Definition io_bridge : io W Z () := _ ← try_call DupMaster; try_call NewEventFd.

(** [setup_console_bridge]: the console, which is the terminal guard *)
Definition setup_console_bridge (master : bool) : io W Z (option bool) :=
  if negb master then mret None
  else
    raw ← raw_guard;
    _ ← or_drop (drop_guard raw) (_ ← try_call DupResize; io_bridge);
    mret (Some raw).

Definition drop_console (console : option bool) : io W Z () :=
  match console with
  | Some raw => _ ← drop_guard raw; ignored StopRelay
  | None => mret ()
  end.

Definition resize_to_host : io W Z () :=
  tty ← attempt (try_call IsTty);
  match tty with
  | inl _ => mret ()
  | inr _ => if negb stdin_is_tty then mret () else _ ← try_call GetSize; try_call SetSize
  end.

Definition resize_console (console : option bool) : io W Z () :=
  match console with
  | Some _ => _ ← attempt resize_to_host : io W Z (Z + ()); mret ()
  | None => mret ()
  end.

Fixpoint signal_loop (init_pid : Z) (console : option bool) (arrivals : list arrival) (c : children) :
    io W Z (option Z) :=
  match arrivals with
  | [] => mret None
  | a :: arrivals =>
      let c := arrive a c in
      match received a with
      | Err e => pure (Err e)
      | Panic => pure Panic
      | Ok signal =>
          if signal =? SIGCHLD then
            match reap_children init_pid c with
            | (Ok (Some status), _) => mret (Some status)
            | (Ok None, c) => signal_loop init_pid console arrivals c
            | (Err e, _) => pure (Err e)
            | (Panic, _) => pure Panic
            end
          else if signal =? SIGURG then signal_loop init_pid console arrivals c
          else if signal =? SIGWINCH then
            _ ← resize_console console; signal_loop init_pid console arrivals c
          else _ ← ignored (Kill signal); signal_loop init_pid console arrivals c
      end
  end.

(** What is done while the console exists *)
Definition wait_for_init (init_pid : Z) (console : option bool) (arrivals : list arrival) (c : children) :
    io W Z (option Z) :=
  _ ← resize_console console;
  match reap_children init_pid c with
  | (Ok (Some status), _) => mret (Some status)
  | (Ok None, c) => signal_loop init_pid console arrivals c
  | (Err e, _) => pure (Err e)
  | (Panic, _) => pure Panic
  end.

(** The console is dropped on every return; [None] means that it still waits. *)
Definition handle_foreground (init_pid : Z) (master : bool) (arrivals : list arrival) (c : children) :
    io W Z (option Z) :=
  _ ← try_call BlockSignals;
  console ← setup_console_bridge master;
  status ← or_drop (drop_console console) (wait_for_init init_pid console arrivals c);
  _ ← (match status with Some _ => drop_console console | None => mret () end);
  mret status.
End foreground.

(** ** What the foreground process does *)

(** The status of the init process among changes of state. *)
Definition code_of (init_pid : Z) (s : WaitStatus) : option Z :=
  match s with
  | Exited pid code => if pid =? init_pid then Some code else None
  | Signaled pid sig => if pid =? init_pid then Some (128 + sig) else None
  | OtherStatus _ => None
  end.

Definition init_code (init_pid : Z) (zs : list WaitStatus) : option Z := head (omap (code_of init_pid) zs).

Lemma init_code_app init_pid zs zs' :
  init_code init_pid (zs ++ zs') = match init_code init_pid zs with Some c => Some c | None => init_code init_pid zs' end.
Proof. unfold init_code. rewrite omap_app. by destruct (omap (code_of init_pid) zs). Qed.

Lemma reap_loop_spec init_pid alive zs :
  (reap_loop init_pid alive zs).1 =
    match init_code init_pid zs with
    | Some c => Ok (Some c)
    | None => if bool_decide (alive = []) then Err ECHILD else Ok None
    end ∧
  (init_code init_pid zs = None → (reap_loop init_pid alive zs).2 = []).
Proof.
  induction zs as [|[pid c|pid s|pid] zs IH]; cbn; [done| | |exact IH].
  all: unfold init_code in *; cbn; destruct (pid =? init_pid); [by split|exact IH].
Qed.

(** How waiting ends, if it does, and the signals received by then: with the status of the
    init process, the first time that the end of a child is signalled while the init process
    has ended, or when waiting for a signal does not give one. *)
Fixpoint ending (init_pid : Z) (seen : list WaitStatus) (arrivals : list arrival) : outcome Z (option Z) * list Z :=
  match arrivals with
  | [] => (Ok None, [])
  | a :: arrivals =>
      match received a with
      | Err e => (Err e, [])
      | Panic => (Panic, [])
      | Ok signal =>
          match (if signal =? SIGCHLD then init_code init_pid (seen ++ ended a) else None) with
          | Some code => (Ok (Some code), [signal])
          | None => prod_map id (cons signal) (ending init_pid (seen ++ ended a) arrivals)
          end
      end
  end.

(** The signals that the container gets. *)
Definition forwardable (s : Z) : Prop := s ≠ SIGCHLD ∧ s ≠ SIGURG ∧ s ≠ SIGWINCH.

#[global] Instance forwardable_dec s : Decision (forwardable s).
Proof. unfold forwardable. apply _. Defined.

Lemma forwarded_cons s l :
  filter forwardable (s :: l) = (if decide (forwardable s) then [s] else []) ++ filter forwardable l.
Proof. rewrite filter_cons. by case_decide. Qed.

Definition kills (t : list (call * option Z)) : list Z :=
  omap (λ ev, match ev.1 with Kill s => Some s | _ => None end) t.

Lemma kills_app t t' : kills (t ++ t') = kills t ++ kills t'.
Proof. apply omap_app. Qed.

(** Calls made while waiting, which do not change the mode of the terminal. *)
Definition waiting_call (c : call) : Prop :=
  match c with IsTty | GetSize | SetSize | Kill _ => True | _ => False end.

Section waiting.
Context (stdin_is_tty : bool) (sys : list (call * option Z) → call → option Z) (init_pid : Z).

Lemma runs_ignored c Q : (∀ e, Q (Ok ()) [(c, e)]) → runs (ignored sys c) Q.
Proof.
  intros HQ. apply runs_bind, runs_attempt, runs_do; [|intros e]; apply runs_pure; rewrite app_nil_r; apply HQ.
Qed.

Lemma runs_or_drop {A} cleanup (m : io (list (call * option Z)) Z A) Q :
  runs m (λ r t, match r with
                 | Ok a => Q (Ok a) t
                 | Err e => runs cleanup (λ r' t', r' = Ok () ∧ Q (Err e) (t ++ t'))
                 | Panic => runs cleanup (λ _ t', Q Panic (t ++ t'))
                 end) → runs (or_drop cleanup m) Q.
Proof.
  intros Hm w. destruct (Hm w) as (t & Hw & Hr). unfold or_drop.
  destruct (m w) as [[a|e|] w']; cbn in *; subst w'; [by exists t| |].
  - destruct (Hr (w ++ t)) as (t' & Hw' & Hok & HQ). exists (t ++ t'). rewrite app_assoc, <- Hw'.
    unfold mbind, io_bind. by destruct (cleanup (w ++ t)) as [[]]; cbn in *; simplify_eq.
  - destruct (Hr (w ++ t)) as (t' & Hw' & HQ). exists (t ++ t'). by rewrite app_assoc, <- Hw'.
Qed.

Lemma resize_to_host_runs :
  runs (resize_to_host stdin_is_tty sys)
    (λ r t, r ≠ Panic ∧ kills t = [] ∧ Forall (λ ev, waiting_call ev.1) t).
Proof.
  apply runs_bind, runs_attempt, runs_do; [|intros e; apply runs_pure; by repeat constructor].
  destruct stdin_is_tty; cbn [negb]; [|apply runs_pure; by repeat constructor].
  apply runs_bind, runs_do; [|by repeat constructor]. apply runs_do; by repeat constructor.
Qed.

Lemma resize_console_runs console :
  runs (resize_console stdin_is_tty sys console)
    (λ r t, r = Ok () ∧ kills t = [] ∧ Forall (λ ev, waiting_call ev.1) t).
Proof.
  destruct console; [|by apply runs_pure].
  apply runs_bind, runs_attempt. eapply runs_mono; [apply resize_to_host_runs|].
  intros [a|e|] t (Hp & Hk & Ht); [| |done]; apply runs_pure; by rewrite app_nil_r.
Qed.

(** The init process lives, or its end was not waited for. *)
Definition present (c : children) : Prop := init_pid ∈ living c ∨ is_Some (init_code init_pid (zombies c)).

Lemma arrive_present a c : present c → present (arrive a c).
Proof.
  intros [Hl|Hz]; unfold present; cbn; rewrite init_code_app; [|destruct Hz as [x ->]; by right].
  destruct (init_code init_pid (zombies c)); [by right|].
  destruct (decide (init_pid ∈ omap ended_pid (ended a))) as [Hin|Hin]; [right|left].
  - apply list_elem_of_omap in Hin as (s & Hs & Hpid). unfold init_code.
    assert (∃ x, x ∈ omap (code_of init_pid) (ended a)) as [x Hx].
    { destruct s as [pid x|pid x|]; cbn in Hpid; simplify_eq;
        eexists; (apply list_elem_of_omap; eexists; split; [exact Hs|]; cbn; by rewrite Z.eqb_refl). }
    destruct (omap (code_of init_pid) (ended a)); [by apply not_elem_of_nil in Hx|by eexists].
  - by apply list_elem_of_filter.
Qed.

Lemma reap_children_present c :
  present c →
  reap_children init_pid c =
    (Ok (init_code init_pid (zombies c)), MkChildren (living c) (reap_loop init_pid (living c) (zombies c)).2).
Proof.
  intros Hp. unfold reap_children. destruct (reap_loop_spec init_pid (living c) (zombies c)) as [Hr _].
  destruct (reap_loop init_pid (living c) (zombies c)) as [r zs]. cbn in *. subst r.
  destruct (init_code init_pid (zombies c)) as [x|] eqn:Hc; [done|].
  destruct Hp as [Hl|[? ?]]; [|congruence].
  by rewrite bool_decide_false by (by intros Hn; rewrite Hn in Hl; apply not_elem_of_nil in Hl).
Qed.

(** The result of waiting for what arrives after [seen]. *)
Definition waited (seen : list WaitStatus) (arrivals : list arrival) (r : outcome Z (option Z))
    (t : list (call * option Z)) : Prop :=
  let '(result, signals) := ending init_pid seen arrivals in r = result ∧ kills t = filter forwardable signals.

Lemma waited_cons seen a s arrivals r t t0 :
  received a = Ok s → (if s =? SIGCHLD then init_code init_pid (seen ++ ended a) else None) = None →
  kills t0 = (if decide (forwardable s) then [s] else []) →
  waited (seen ++ ended a) arrivals r t → waited seen (a :: arrivals) r (t0 ++ t).
Proof.
  intros Hs Hn Hk. unfold waited. cbn [ending]. rewrite Hs, Hn, kills_app, Hk.
  destruct (ending init_pid (seen ++ ended a) arrivals) as [result sigs].
  cbn [prod_map fst snd id]. intros [-> ->]. by rewrite forwarded_cons.
Qed.

Lemma waited_known seen seen' arrivals r t :
  init_code init_pid seen = init_code init_pid seen' → waited seen arrivals r t → waited seen' arrivals r t.
Proof.
  intros Heq. unfold waited. replace (ending init_pid seen' arrivals) with (ending init_pid seen arrivals); [done|].
  clear -Heq. revert seen seen' Heq. induction arrivals as [|a arrivals IH]; intros seen seen' Heq; [done|]. cbn.
  assert (init_code init_pid (seen ++ ended a) = init_code init_pid (seen' ++ ended a)) as Ha by (by rewrite !init_code_app, Heq).
  by rewrite Ha, (IH _ _ Ha).
Qed.

Lemma signal_loop_runs console arrivals c :
  present c →
  runs (signal_loop stdin_is_tty sys init_pid console arrivals c)
    (λ r t, waited (zombies c) arrivals r t ∧ Forall (λ ev, waiting_call ev.1) t).
Proof.
  revert c. induction arrivals as [|a arrivals IH]; intros c Hp; [by apply runs_pure|]. cbn [signal_loop].
  pose proof (arrive_present a c Hp) as Hp'. cbn zeta.
  destruct (received a) as [s|e|] eqn:Hrec;
    [|apply runs_pure; unfold waited; cbn [ending]; by rewrite Hrec..].
  destruct (Z.eqb_spec s SIGCHLD) as [Hs|Hs].
  - rewrite (reap_children_present _ Hp').
    destruct (init_code init_pid (zombies (arrive a c))) as [code|] eqn:Hc.
    + apply runs_pure. split; [|done]. unfold waited. cbn [ending]. cbn in Hc.
      rewrite Hrec, (proj2 (Z.eqb_eq _ _) Hs), Hc, forwarded_cons, decide_False by (by intros [? _]). done.
    + eapply runs_mono; [apply IH; destruct Hp' as [?|[? ?]]; [by left|congruence]|].
      cbn [zombies living arrive]. rewrite (proj2 (reap_loop_spec _ _ _) Hc). intros r t [Hw Ht]. split; [|done].
      apply (waited_cons (zombies c) a s arrivals r t []);
        [done|by rewrite (proj2 (Z.eqb_eq _ _) Hs)|by rewrite decide_False by (by intros [? _])|].
      by apply (waited_known []).
  - assert (∀ t0, Forall (λ ev, waiting_call ev.1) t0 →
        kills t0 = (if decide (forwardable s) then [s] else []) →
        runs (signal_loop stdin_is_tty sys init_pid console arrivals (arrive a c))
          (λ r t, waited (zombies c) (a :: arrivals) r (t0 ++ t) ∧ Forall (λ ev, waiting_call ev.1) (t0 ++ t))) as Hgo.
    { intros t0 Ht0 Hk. eapply runs_mono; [by apply IH|]. intros r t [Hw Ht].
      split; [|by apply Forall_app].
      apply (waited_cons _ _ s); [done|by rewrite (proj2 (Z.eqb_neq _ _) Hs)|done|exact Hw]. }
    destruct (Z.eqb_spec s SIGURG) as [Hu|Hu].
    { apply (Hgo []); [done|]. by rewrite decide_False by (by intros (_ & ? & _)). }
    destruct (Z.eqb_spec s SIGWINCH) as [Hw|Hw].
    + apply runs_bind. eapply runs_mono; [apply resize_console_runs|]. intros r t (-> & Hk & Ht).
      apply Hgo; [done|]. by rewrite decide_False by (by intros (_ & _ & ?)).
    + apply runs_bind, runs_ignored. intros e. apply Hgo; [by repeat constructor|]. by rewrite decide_True by done.
Qed.

(** The outcome: the status of an init process that has already ended, or the end of waiting. *)
Definition outcome_of (c : children) (arrivals : list arrival) (r : outcome Z (option Z))
    (t : list (call * option Z)) : Prop :=
  match init_code init_pid (zombies c) with
  | Some code => r = Ok (Some code) ∧ kills t = []
  | None => waited (zombies c) arrivals r t
  end.

Lemma wait_for_init_runs console arrivals c :
  present c →
  runs (wait_for_init stdin_is_tty sys init_pid console arrivals c)
    (λ r t, outcome_of c arrivals r t ∧ Forall (λ ev, waiting_call ev.1) t).
Proof.
  intros Hp. apply runs_bind. eapply runs_mono; [apply resize_console_runs|]. intros r t (-> & Hk & Ht).
  rewrite (reap_children_present c Hp). unfold outcome_of.
  destruct (init_code init_pid (zombies c)) as [code|] eqn:Hc.
  - apply runs_pure. by rewrite app_nil_r.
  - eapply runs_mono; [apply signal_loop_runs; destruct Hp as [?|[? ?]]; [by left|congruence]|].
    cbn [zombies]. rewrite (proj2 (reap_loop_spec _ _ _) Hc). intros r t' [Hw Ht']. split; [|by apply Forall_app].
    apply (waited_known [] (zombies c)) in Hw; [|done]. unfold waited in *. rewrite kills_app, Hk. done.
Qed.
End waiting.

(** *** The terminal is restored *)

(** After every successful call [a] the call [b] is made. *)
Fixpoint followed (a b : call) (t : list (call * option Z)) : Prop :=
  match t with
  | [] => True
  | ev :: t => (ev = (a, None) → b ∈ t.*1) ∧ followed a b t
  end.

Lemma followed_app a b t t' : (b ∈ t'.*1 ∨ followed a b t) → followed a b t' → followed a b (t ++ t').
Proof.
  intros Hb Ht'. induction t as [|ev t IH]; [done|]. cbn. split.
  - intros Hev. rewrite fmap_app, elem_of_app. destruct Hb as [Hb|[Hb _]]; auto.
  - apply IH. destruct Hb as [Hb|[_ Hb]]; auto.
Qed.

Lemma followed_waiting a b t : ¬ waiting_call a → Forall (λ ev, waiting_call ev.1) t → followed a b t.
Proof. intros Ha Ht. induction Ht as [|ev t Hev Ht IH]; [done|]. cbn. split; [|done]. by intros ->. Qed.

Section restored.
Context (stdin_is_tty : bool) (sys : list (call * option Z) → call → option Z) (init_pid : Z).

Definition cleaned (t : list (call * option Z)) : Prop :=
  followed SetRaw RestoreTerminal t ∧ followed NewEventFd StopRelay t.

(** What dropping the console makes up for. *)
Definition console_open (console : option bool) (t : list (call * option Z)) : Prop :=
  match console with
  | None => cleaned t
  | Some raw => raw = true ∨ followed SetRaw RestoreTerminal t
  end.

Definition setup_failed (e : Z) (t : list (call * option Z)) : Prop :=
  kills t = [] ∧ cleaned t ∧ ∃ c, (c, Some e) ∈ t.

Ltac traces := repeat split; try discriminate; try set_solver.

Lemma raw_guard_runs :
  runs (raw_guard stdin_is_tty sys)
    (λ r t, match r with Ok raw => kills t = [] ∧ console_open (Some raw) t ∧ followed NewEventFd StopRelay t
                       | Err e => setup_failed e t | Panic => False end).
Proof.
  apply runs_bind, runs_do; [|intros e; traces; exists IsTty; set_solver].
  destruct stdin_is_tty; cbn [negb]; [|apply runs_pure; traces; right; traces].
  apply runs_bind, runs_do; [|intros e; traces; exists TcGetAttr; set_solver].
  apply runs_bind, runs_do; [|intros e; traces; exists SetRaw; set_solver].
  apply runs_pure. traces.
Qed.

Lemma drop_guard_runs raw :
  runs (drop_guard sys raw) (λ r t, r = Ok () ∧ kills t = [] ∧ cleaned t ∧ (raw = true → RestoreTerminal ∈ t.*1)).
Proof. destruct raw; [|by apply runs_pure]. apply runs_ignored. intros e. traces. Qed.

Lemma setup_runs master :
  runs (setup_console_bridge stdin_is_tty sys master)
    (λ r t, match r with Ok console => kills t = [] ∧ console_open console t | Err e => setup_failed e t | Panic => False end).
Proof.
  unfold setup_console_bridge. destruct master; cbn [negb]; [|by apply runs_pure].
  apply runs_bind. eapply runs_mono; [apply raw_guard_runs|]. intros [raw|e|] t Ht; [|done..].
  destruct Ht as (Hk & Hraw & Hev).
  assert (∀ t1 e, kills t1 = [] → followed SetRaw RestoreTerminal t1 → followed NewEventFd StopRelay t1 →
    (∃ c, (c, Some e) ∈ t1) →
    runs (drop_guard sys raw) (λ r' t', r' = Ok () ∧ setup_failed e (t ++ t1 ++ t'))) as Hdrop.
  { intros t1 e Hk1 Hr1 Hn1 (c & Hc). eapply runs_mono; [apply drop_guard_runs|].
    intros r t2 (-> & Hk2 & [Hc2 Hc2'] & Hres). split; [done|]. unfold setup_failed, cleaned.
    rewrite !kills_app, Hk, Hk1, Hk2. split; [done|]. split.
    - split; (apply followed_app; [|by apply followed_app; [right|]]); [|by right].
      destruct Hraw as [->|?]; [left|by right]. rewrite fmap_app, elem_of_app. auto.
    - exists c. set_solver. }
  apply runs_bind, runs_or_drop, runs_bind, runs_do.
  2: { intros e. apply (Hdrop [(DupResize, Some e)] e); [done|by traces..|exists DupResize; set_solver]. }
  apply runs_bind, runs_do.
  2: { intros e. apply (Hdrop [(DupResize, None); (DupMaster, Some e)] e); [done|by traces..|exists DupMaster; set_solver]. }
  apply runs_do.
  2: { intros e. apply (Hdrop [(DupResize, None); (DupMaster, None); (NewEventFd, Some e)] e); [done|by traces..|exists NewEventFd; set_solver]. }
  apply runs_pure. cbn. rewrite ?app_nil_r. unfold console_open. rewrite kills_app, Hk. split; [done|].
  destruct Hraw as [->|Hr]; [by left|right]. apply followed_app; [by right|by traces].
Qed.

Lemma drop_console_runs console :
  runs (drop_console sys console)
    (λ r t, r = Ok () ∧ kills t = [] ∧ cleaned t ∧
       ∀ t0, console_open console t0 → cleaned (t0 ++ t)).
Proof.
  destruct console as [raw|]; cbn [drop_console].
  2: { apply runs_pure. do 3 (split; [done|]). intros t0 Ht0. by rewrite app_nil_r. }
  apply runs_bind. eapply runs_mono; [apply drop_guard_runs|]. intros r t (-> & Hk & [Hc1 Hc2] & Hres).
  apply runs_ignored. intros e. split; [done|]. rewrite kills_app, Hk. split; [done|].
  assert (StopRelay ∈ (t ++ [(StopRelay, e)]).*1) as Hstop by (rewrite fmap_app; set_solver).
  assert (cleaned (t ++ [(StopRelay, e)])) as Hcl.
  { split; (apply followed_app; [by right|by traces]). }
  split; [done|]. intros t0 Hraw. destruct Hcl. split; apply followed_app; [|done|by left|done].
  destruct Hraw as [->|?]; [left|by right]. rewrite fmap_app, elem_of_app. auto.
Qed.

End restored.

(** ** An example *)

Module ExampleForeground.

(** Another child ends, the container gets SIGTERM, the window changes, and the init process
    is killed. *)
Definition arrivals : list arrival :=
  [MkArrival [Exited 43 0] (Ok SIGCHLD); MkArrival [] (Ok 15); MkArrival [] (Ok SIGWINCH);
   MkArrival [Signaled 42 9] (Ok SIGCHLD); MkArrival [] (Ok 2)].

Definition kids : children := MkChildren [42; 43] [].


Example only_sigterm_forwarded :
  kills (handle_foreground true (λ _ _, None) 42 true arrivals kids []).2 = [15].
Proof. vm_compute. reflexivity. Qed.

(** A wait that fails ends the process in the foreground, while the container goes on; the
    terminal is restored. *)
Example wait_fails :
  let r := handle_foreground true (λ _ _, None) 42 true [MkArrival [] (Ok 15); MkArrival [] (Err 22)] kids [] in
  r.1 = Err 22 ∧ RestoreTerminal ∈ r.2.*1.
Proof. split; [done|]. vm_compute. set_solver. Qed.
End ExampleForeground.
