(* ===== verification/Hooks.v ===== *)
(** * Hooks: the saved state of a container, and the hooks that are told about it

    Models [crates/libcontainer/src/container/state.rs] (saving and loading the state, and its
    OCI form) and [crates/libcontainer/src/hooks.rs].  The JSON form of the state is an
    interface.  Hooks are run with [Calls]: a call is recorded with its error, and what the
    program of a hook does is a parameter. *)
From S2P Require Import Prelude Text Paths Calls Utils Lifecycle.
Local Open Scope string_scope.
Local Open Scope list_scope.
Local Open Scope Z_scope.

(** ** The state *)

Record FullState : Type := MkFullState {
  oci_version : string; fs_id : string; fs_status : ContainerStatus; fs_pid : option Z; bundle : Path;
  annotations : option (gmap string string); fs_created : option Z; creator : option Z;
  fs_use_systemd : bool; clean_up_intel_rdt_subdirectory : option bool;
  intel_rdt_dir : option Path; intel_rdt_monitoring_dir : option Path }.

(** [version] is the version of the crate [oci_spec]. *)
Definition full_state_new (version container_id : string) (status : ContainerStatus) (pid : option Z) (bundle : Path) :
    FullState :=
  MkFullState version container_id status pid bundle (Some ∅) None None false None None None.

Inductive StateError : Type :=
  | OpenStateFile (p : Path) (errno : Z) | ParseStateFile (p : Path) | WriteStateFile (p : Path) (errno : Z).

(** [serde_json]: what is written can be read, and no part of it is a complete text. *)
Class StateJson : Type := {
  to_json : FullState → string;
  from_json : string → option FullState;
  json_roundtrip s : from_json (to_json s) = Some s;
  json_partial s k : (k < String.length (to_json s))%nat → from_json (of_chars (take k (chars (to_json s)))) = None }.

Section state_file.
Context `{StateJson}.

Definition STATE_FILE_PATH : Path := components "state.json".
Definition file_path (container_root : Path) : Path := join container_root STATE_FILE_PATH.

Local Abbreviation files := (gmap Path string).

(** How writing fails: the number of bytes written, the error, and if the buffer was written
    out before [flush]. *)
Record write_fault : Type := MkFault { written : nat; wf_errno : Z; before_flush : bool }.

(** [State::save]; [open] and [fault] are the errors of opening and of writing. *)
Definition save (open : option Z) (fault : option write_fault) (self : FullState) (container_root : Path) :
    io files StateError () := λ w,
  let p := file_path container_root in
  match open with
  | Some e => (Err (OpenStateFile p e), w)
  | None =>
      match fault with
      | Some f =>
          (Err (if before_flush f then ParseStateFile p else WriteStateFile p (wf_errno f)),
           <[p := of_chars (take (written f) (chars (to_json self)))]> w)
      | None => (Ok (), <[p := to_json self]> w)
      end
  end.

Definition ENOENT : Z := 2.

(** [State::load] *)
Definition load (open : option Z) (container_root : Path) : io files StateError FullState := λ w,
  let p := file_path container_root in
  (match open, w !! p with
   | Some e, _ => Err (OpenStateFile p e)
   | None, None => Err (OpenStateFile p ENOENT)
   | None, Some text => ok_or (from_json text) (ParseStateFile p)
   end, w).

(** A state that was saved is loaded again; if the file cannot be opened the old state is
    kept; but if writing it fails there is no state any more. *)
Lemma save_load open fault s root w :
  let '(r, w') := save open fault s root w in
  (∀ p, p ≠ file_path root → w' !! p = w !! p) ∧
  match r with
  | Ok _ => (load None root w').1 = Ok s
  | Err (OpenStateFile _ _) => w' = w
  | Err _ => ∀ f, fault = Some f → (written f < String.length (to_json s))%nat →
      (load None root w').1 = Err (ParseStateFile (file_path root))
  | Panic => False
  end.
Proof.
  unfold save, load. destruct open as [e|]; [done|].
  destruct fault as [[k e b]|]; cbn; (split; [intros p Hp; by rewrite lookup_insert_ne|]).
  - destruct b; intros f [= <-] Hk; cbn in Hk; by rewrite lookup_insert_eq, json_partial.
  - by rewrite lookup_insert_eq, json_roundtrip.
Qed.
End state_file.

(** An instance: a text that tells the number of the state, and ends in a brace. *)
#[global] Instance ContainerStatus_countable : Countable ContainerStatus.
Proof.
  refine (inj_countable' (λ s, match s with Creating => 0 | Created => 1 | Running => 2 | Stopped => 3 | Paused => 4 end%nat)
    (λ n, match n with 0 => Creating | 1 => Created | 2 => Running | 3 => Stopped | _ => Paused end%nat) _).
  by intros [].
Defined.

#[global] Instance FullState_eq_dec : EqDecision FullState.
Proof. solve_decision. Defined.

#[global] Instance FullState_countable : Countable FullState.
Proof.
  refine (inj_countable'
    (λ s, (oci_version s, fs_id s, fs_status s, fs_pid s, bundle s, annotations s, fs_created s, creator s,
           fs_use_systemd s, clean_up_intel_rdt_subdirectory s, intel_rdt_dir s, intel_rdt_monitoring_dir s))
    (λ '(a, b, c, d, e, f, g, h, i, j, k, l), MkFullState a b c d e f g h i j k l) _).
  by intros [].
Defined.

Definition tally (n : nat) : list ascii := replicate n "x"%char.

Lemma length_tally n : length (tally n) = n.
Proof. apply length_replicate. Qed.

#[refine, export] Instance tally_json : StateJson := {|
  to_json s := of_chars (tally (encode_nat s) ++ ["}"%char]);
  from_json text :=
    let n := (String.length text - 1)%nat in
    if decide (chars text = tally n ++ ["}"%char]) then decode_nat n else None |}.
Proof.
  - intros s. cbn zeta. rewrite <- length_chars, chars_of_chars, length_app, length_tally.
    cbn [length]. rewrite Nat.add_sub, decide_True by done. apply decode_encode_nat.
  - intros s k. rewrite <- !length_chars, !chars_of_chars, length_app, length_tally.
    cbn [length]. intros Hk. cbn zeta. rewrite decide_False; [done|].
    rewrite take_app_le by (rewrite length_tally; lia).
    intros Heq%(f_equal last). rewrite last_snoc in Heq.
    apply last_Some_elem_of in Heq. unfold tally in Heq. rewrite take_replicate in Heq.
    by apply elem_of_replicate in Heq as [? _].
Defined.

(** ** The state for hooks *)

Inductive OciContainerState : Type := OCreating | OCreated | ORunning | OStopped.

Record OciState : Type := MkOciState {
  o_version : string; o_id : string; o_status : OciContainerState; o_pid : option Z; o_bundle : Path;
  o_annotations : option (gmap string string) }.

Inductive StateConversionError : Type := InvalidStatus (s : ContainerStatus).

Definition oci_status (status : ContainerStatus) : outcome StateConversionError OciContainerState :=
  match status with
  | Creating => Ok OCreating
  | Created => Ok OCreated
  | Running => Ok ORunning
  | Stopped => Ok OStopped
  | Paused => Err (InvalidStatus status)
  end.

Definition oci_state (state : FullState) : outcome StateConversionError OciState :=
  status ← oci_status (fs_status state);
  Ok (MkOciState (oci_version state) (fs_id state) status (fs_pid state) (bundle state) (annotations state)).

(** ** Hooks *)

Record Hook : Type := MkHook {
  hook_path : string; hook_args : option (list string); hook_env : option (list string); hook_timeout : option Z }.

Inductive HookError : Type :=
  | CommandExecute (errno : Z) | EncodeContainerState | NonZeroExitCode (code : Z) | Killed | HookTimeout
  | MissingContainerState | WriteContainerState (errno : Z) | StateConversion (e : StateConversionError).

Record Command : Type := MkCommand {
  program : string; current_dir : option Path; arg0 : string; cmd_args : list string;
  cmd_env : gmap string string }.

(** What the program of a hook does: how it ends and after how many seconds, if it ends; and
    after how many seconds a text that is sent to it has gone into the pipe.  Programs that
    do not read take only what fits into the pipe: writing a longer text to them goes on until
    they end. *)
Inductive exit_status : Type := ExitCode (code : Z) | ExitSignal.

Record hook_process : Type := MkHookProcess {
  hp_pid : Z; hp_end : option (Z * exit_status); hp_takes : string → option Z }.

Inductive call : Type := Spawn (c : Command) | SendState (text : string) | KillHook (pid : Z) | WaitHook.

Definition EPIPE : Z := 32.

Section hooks.
(** What programs do, the JSON form of the OCI state, and which call fails *)
Context (behave : Command → hook_process) (encode : OciState → option string)
  (sys : list (call * option Z) → call → option Z).

Local Abbreviation W := (list (call * option Z)).

Definition command (hook : Hook) (cwd : option Path) (default_env : option (gmap string string)) : Command :=
  let '(arg0, args) :=
    match hook_args hook with
    | Some (arg0 :: args) => (arg0, args)
    | _ => (hook_path hook, [])
    end in
  let envs :=
    match hook_env hook with
    | Some env => parse_env env
    | None => default ∅ default_env
    end in
  MkCommand (hook_path hook) cwd arg0 args envs.

(** Writing that stops when the program has ended. *)
Definition broken_pipe (text : string) : io W HookError () := λ w, (Ok (), w ++ [(SendState text, Some EPIPE)]).

(** The state is written to the standard input; a hook that does not read it is not an error.
    The result is the time when the write returns, or [None] if it never does. *)
Definition send_state (p : hook_process) (text : string) : io W HookError (option Z) :=
  match hp_takes p text, hp_end p with
  | None, None => mret None
  | None, Some (d, _) => _ ← broken_pipe text; mret (Some d)
  | Some since, _ =>
      r ← attempt (do sys (SendState text) Datatypes.id);
      match r with
      | inr _ => mret (Some since)
      | inl e =>
          if bool_decide (e = EPIPE) then mret (Some since)
          else
            _ ← attempt (do sys (KillHook (hp_pid p)) Datatypes.id) : io W HookError (Z + ());
            pure (Err (WriteContainerState e))
      end
  end.

(** Waiting for the program from the time [since] on: how it ended, or [None] if it never does. *)
Definition wait_hook (timeout : option Z) (p : hook_process) (since : Z) : io W HookError (option exit_status) :=
  match timeout with
  | Some timeout_sec =>
      match hp_end p with
      | Some (d, s) =>
          if d - since <=? uwrap 64 timeout_sec then _ ← do sys WaitHook CommandExecute; mret (Some s)
          else
            _ ← attempt (do sys (KillHook (hp_pid p)) Datatypes.id) : io W HookError (Z + ());
            pure (Err HookTimeout)
      | None =>
          _ ← attempt (do sys (KillHook (hp_pid p)) Datatypes.id) : io W HookError (Z + ());
          pure (Err HookTimeout)
      end
  | None =>
      match hp_end p with
      | Some (_, s) => _ ← do sys WaitHook CommandExecute; mret (Some s)
      | None => mret None
      end
  end.

(** One turn of the loop; [false] if it waits for ever. *)
Definition run_hook (state : OciState) (cwd : option Path) (default_env : option (gmap string string)) (hook : Hook) :
    io W HookError bool :=
  let c := command hook cwd default_env in
  _ ← do sys (Spawn c) CommandExecute;
  text ← pure (ok_or (encode state) EncodeContainerState);
  sent ← send_state (behave c) text;
  match sent with
  | None => mret false
  | Some since =>
      s ← wait_hook (hook_timeout hook) (behave c) since;
      match s with
      | None => mret false
      | Some (ExitCode code) => if code =? 0 then mret true else pure (Err (NonZeroExitCode code))
      | Some ExitSignal => pure (Err Killed)
      end
  end.

Fixpoint hook_loop (state : OciState) (cwd : option Path) (default_env : option (gmap string string))
    (hooks : list Hook) : io W HookError bool :=
  match hooks with
  | [] => mret true
  | hook :: hooks =>
      ended ← run_hook state cwd default_env hook;
      if ended : bool then hook_loop state cwd default_env hooks else mret false
  end.

Definition set_pid (pid : option Z) (s : OciState) : OciState :=
  match pid with
  | Some _ => MkOciState (o_version s) (o_id s) (o_status s) pid (o_bundle s) (o_annotations s)
  | None => s
  end.

Definition run_hooks (hooks : option (list Hook)) (state : option FullState) (cwd : option Path) (pid : option Z)
    (default_env : option (gmap string string)) : io W HookError bool :=
  base_state ← pure (ok_or state MissingContainerState);
  s ← pure (map_err StateConversion (oci_state base_state));
  hook_loop (set_pid pid s) cwd default_env (default [] hooks).

(** *** What hooks do *)

Definition started (t : W) : list Command :=
  omap (λ ev, match ev.1 with Spawn c => Some c | _ => None end) t.

(** The time limit of a hook counts from the time [since]. *)
Definition in_time (hook : Hook) (since d : Z) : Prop :=
  match hook_timeout hook with Some s => d - since ≤ uwrap 64 s | None => True end.

(** The state was in the pipe at the time [since], or the program ended then without having
    taken it. *)
Definition sent_at (state : OciState) (c : Command) (since : Z) : Prop :=
  ∃ text, encode state = Some text ∧
    (hp_takes (behave c) text = Some since ∨
     hp_takes (behave c) text = None ∧ ∃ s, hp_end (behave c) = Some (since, s)).

(** A hook that ran successfully: it was started, it was sent the state, and it has ended with
    the code zero, in time. *)
Definition passed (state : OciState) (c : Command) (hook : Hook) (t : W) : Prop :=
  (∃ since d, sent_at state c since ∧ hp_end (behave c) = Some (d, ExitCode 0) ∧ in_time hook since d) ∧
  ∃ text e, encode state = Some text ∧ (e = None ∨ e = Some EPIPE) ∧
    t = [(Spawn c, None); (SendState text, e); (WaitHook, None)].

(** A hook that failed: it was started at most once, and killed if it did not end in time or
    if sending the state failed otherwise than because it does not read. *)
Definition failed (state : OciState) (c : Command) (hook : Hook) (e : HookError) (t : W) : Prop :=
  started t = [c] ∧
  match e with
  | CommandExecute n => (Spawn c, Some n) ∈ t ∨ (WaitHook, Some n) ∈ t
  | EncodeContainerState => encode state = None
  | WriteContainerState n => n ≠ EPIPE ∧ (∃ text, (SendState text, Some n) ∈ t) ∧
      KillHook (hp_pid (behave c)) ∈ t.*1
  | HookTimeout => is_Some (hook_timeout hook) ∧
      (∃ since, sent_at state c since ∧ ∀ d s, hp_end (behave c) = Some (d, s) → ¬ in_time hook since d) ∧
      KillHook (hp_pid (behave c)) ∈ t.*1
  | NonZeroExitCode code => code ≠ 0 ∧ ∃ d, hp_end (behave c) = Some (d, ExitCode code)
  | Killed => ∃ d, hp_end (behave c) = Some (d, ExitSignal)
  | _ => False
  end.

(** A hook that is waited for for ever: it does not end, and it has no time limit or never
    takes the state. *)
Definition hangs (state : OciState) (c : Command) (hook : Hook) : Prop :=
  hp_end (behave c) = None ∧
  (hook_timeout hook = None ∨ ∃ text, encode state = Some text ∧ hp_takes (behave c) text = None).

Lemma attempt_kill_runs pid (Q : outcome HookError (Z + ()) → W → Prop) :
  (∀ x e, Q (Ok x) [(KillHook pid, e)]) → runs (attempt (do sys (KillHook pid) Datatypes.id)) Q.
Proof. intros HQ. apply runs_attempt, runs_do; [apply HQ|intros n; apply HQ]. Qed.

Lemma send_state_runs p text :
  runs (send_state p text) (λ r t, match r with
    | Ok (Some since) => (∃ e, (e = None ∨ e = Some EPIPE) ∧ t = [(SendState text, e)]) ∧
        (hp_takes p text = Some since ∨ hp_takes p text = None ∧ ∃ s, hp_end p = Some (since, s))
    | Ok None => hp_takes p text = None ∧ hp_end p = None ∧ t = []
    | Err x => ∃ n o, x = WriteContainerState n ∧ n ≠ EPIPE ∧
        t = [(SendState text, Some n); (KillHook (hp_pid p), o)]
    | Panic => False
    end).
Proof.
  unfold send_state. destruct (hp_takes p text) as [since|].
  - apply runs_bind, runs_attempt, runs_do.
    + apply runs_pure. split; [exists None|]; auto.
    + intros n. unfold Datatypes.id.
      case_bool_decide as Hn; [rewrite Hn; apply runs_pure; split; [exists (Some EPIPE)|]; auto|].
      apply runs_bind, attempt_kill_runs. intros x o. apply runs_pure. by exists n, o.
  - destruct (hp_end p) as [[d s]|]; [|by apply runs_pure].
    apply runs_bind. intros w. exists [(SendState text, Some EPIPE)]. split; [done|]. cbn.
    apply runs_pure. split; [exists (Some EPIPE); auto|]. eauto.
Qed.

Lemma wait_hook_runs hook p since :
  runs (wait_hook (hook_timeout hook) p since) (λ r t, match r with
    | Ok (Some s) => (∃ d, hp_end p = Some (d, s) ∧ in_time hook since d) ∧ t = [(WaitHook, None)]
    | Ok None => hook_timeout hook = None ∧ hp_end p = None ∧ t = []
    | Err x => (∃ n, x = CommandExecute n ∧ t = [(WaitHook, Some n)]) ∨
        (x = HookTimeout ∧ is_Some (hook_timeout hook) ∧
         (∀ d s, hp_end p = Some (d, s) → ¬ in_time hook since d) ∧ ∃ o, t = [(KillHook (hp_pid p), o)])
    | Panic => False
    end).
Proof.
  unfold wait_hook, in_time. destruct (hook_timeout hook) as [sec|].
  - destruct (hp_end p) as [[d s]|].
    + destruct (Z.leb_spec (d - since) (uwrap 64 sec)).
      * apply runs_bind, runs_do; [apply runs_pure; eauto 10|intros n; eauto].
      * apply runs_bind, attempt_kill_runs. intros x o. apply runs_pure. right.
        repeat split; [by eexists|by intros ? ? [= <- <-]; lia|by exists o].
    + apply runs_bind, attempt_kill_runs. intros x o. apply runs_pure. right.
      repeat split; [by eexists|done|by exists o].
  - destruct (hp_end p) as [[d s]|]; [|by apply runs_pure].
    apply runs_bind, runs_do; [apply runs_pure; eauto 10|intros n; eauto].
Qed.

Lemma run_hook_runs state cwd env hook :
  let c := command hook cwd env in
  runs (run_hook state cwd env hook) (λ r t, match r with
    | Ok true => passed state c hook t
    | Ok false => hangs state c hook ∧ started t = [c]
    | Err e => failed state c hook e t
    | Panic => False
    end).
Proof.
  intros c. unfold run_hook. fold c. apply runs_bind, runs_do; [|intros n; split; [done|]; left; set_solver].
  apply runs_bind. destruct (encode state) as [text|] eqn:He; [|by apply runs_pure].
  apply runs_pure, runs_bind. eapply runs_mono; [apply send_state_runs|].
  intros [[since|]|x|] t Ht; [| | |done].
  2: { destruct Ht as (Htk & Hend & ->). apply runs_pure. split; [|done]. split; [done|]. right. by exists text. }
  2: { destruct Ht as (n & o & -> & Hn & ->). split; [done|]. split; [done|]. split; [exists text|]; set_solver. }
  destruct Ht as [(e & Hok & ->) Hsince]. assert (sent_at state c since) as Hsent by (by exists text).
  apply runs_bind. eapply runs_mono; [apply wait_hook_runs|]. intros [[s|]|x|] t Ht; [| | |done].
  - destruct Ht as [(d & Hend & Hin) ->]. destruct s as [code|].
    + destruct (Z.eqb_spec code 0) as [->|Hne]; apply runs_pure; cbn.
      * split; [eauto 10|]. exists text, e. done.
      * split; [done|]. split; [done|]. eauto.
    + apply runs_pure. split; [done|]. eauto.
  - destruct Ht as (Hto & Hend & ->). apply runs_pure. split; [|done]. split; [done|]. by left.
  - destruct Ht as [(n & -> & ->)|(-> & Hto & Hin & o & ->)]; (split; [done|]).
    + right. set_solver.
    + split; [done|]. split; [by exists since|]. set_solver.
Qed.

(** The hooks were run one after the other: first hooks that passed, each with its calls, and
    then, unless it was the last, one that failed or does not end. *)
Definition ran (state : OciState) (cwd : option Path) (env : option (gmap string string)) (hooks : list Hook)
    (r : outcome HookError bool) (t : W) : Prop :=
  ∃ first rest segments tail, hooks = first ++ rest ∧ t = concat segments ++ tail ∧
    Forall2 (λ hook, passed state (command hook cwd env) hook) first segments ∧
    match r, rest with
    | Ok true, [] => tail = []
    | Ok false, hook :: _ => hangs state (command hook cwd env) hook ∧ started tail = [command hook cwd env]
    | Err e, hook :: _ => failed state (command hook cwd env) hook e tail
    | _, _ => False
    end.

Lemma hook_loop_runs state cwd env hooks : runs (hook_loop state cwd env hooks) (ran state cwd env hooks).
Proof.
  induction hooks as [|hook hooks IH]; cbn [hook_loop].
  { apply runs_pure. by exists [], [], [], []. }
  apply runs_bind. eapply runs_mono; [apply run_hook_runs|]. intros [[]|e|] t Ht; [| | |done].
  - eapply runs_mono; [exact IH|]. intros r t' (first & rest & segments & tail & -> & -> & Hf & Hr).
    exists (hook :: first), rest, (t :: segments), tail. split; [done|]. split; [cbn; by rewrite app_assoc|].
    split; [by constructor|done].
  - apply runs_pure. rewrite app_nil_r. exists [], (hook :: hooks), [], t. done.
  - exists [], (hook :: hooks), [], t. done.
Qed.

(** The state that hooks are told, for the state of a container and a process identifier. *)
Definition as_container_status (s : OciContainerState) : ContainerStatus :=
  match s with OCreating => Creating | OCreated => Created | ORunning => Running | OStopped => Stopped end.

Record told (pid : option Z) (st : FullState) (s : OciState) : Prop := {
  told_version : o_version s = oci_version st;
  told_id : o_id s = fs_id st;
  told_status : as_container_status (o_status s) = fs_status st;
  told_pid : o_pid s = match pid with Some p => Some p | None => fs_pid st end;
  told_bundle : o_bundle s = bundle st;
  told_annotations : o_annotations s = annotations st }.

(** The program that a hook stands for. *)
Record command_for (cwd : option Path) (env : option (gmap string string)) (hook : Hook) (c : Command) : Prop := {
  for_program : program c = hook_path hook;
  for_dir : current_dir c = cwd;
  for_args : arg0 c :: cmd_args c = match hook_args hook with Some (a :: l) => a :: l | _ => [hook_path hook] end;
  for_env : cmd_env c = match hook_env hook with Some l => parse_env l | None => default ∅ env end }.

Lemma oci_state_told pid st :
  match oci_state st with
  | Ok s => told pid st (set_pid pid s)
  | Err e => e = InvalidStatus Paused ∧ fs_status st = Paused
  | Panic => False
  end.
Proof.
  unfold oci_state. destruct (fs_status st) eqn:Hs; cbn; [..|done]; destruct pid; by split.
Qed.

Lemma command_asked hook cwd env : command_for cwd env hook (command hook cwd env).
Proof. unfold command. destruct (hook_args hook) as [[|a l]|] eqn:Ha; split; cbn; by rewrite ?Ha. Qed.

Lemma ran_started state cwd env hooks r t :
  ran state cwd env hooks r t → ∃ n, Forall2 (command_for cwd env) (take n hooks) (started t).
Proof.
  intros (first & rest & segments & tail & -> & -> & Hf & Hr).
  assert (started (concat segments) = (λ hook, command hook cwd env) <$> first) as Hs.
  { clear Hr. induction Hf as [|hook seg first segments [_ (text & e & _ & _ & ->)] _ IH]; [done|].
    unfold started in *. cbn. by rewrite IH. }
  assert (∀ l, Forall2 (command_for cwd env) l ((λ hook, command hook cwd env) <$> l)) as Hall.
  { intros l. apply Forall2_fmap_r. induction l; constructor; [apply command_asked|done]. }
  assert (started (concat segments ++ tail) = started (concat segments) ++ started tail) as -> by apply omap_app.
  rewrite Hs. destruct r as [[]|e|], rest as [|hook rest]; try done.
  - subst tail. exists (length first). rewrite take_app_length, app_nil_r. apply Hall.
  - destruct Hr as [_ ->]. exists (length (first ++ [hook])).
    replace (first ++ hook :: rest) with ((first ++ [hook]) ++ rest) by (by rewrite <- app_assoc).
    rewrite take_app_length.
    apply Forall2_app; [apply Hall|]. constructor; [apply command_asked|constructor].
  - destruct Hr as [-> _]. exists (length (first ++ [hook])).
    replace (first ++ hook :: rest) with ((first ++ [hook]) ++ rest) by (by rewrite <- app_assoc).
    rewrite take_app_length.
    apply Forall2_app; [apply Hall|]. constructor; [apply command_asked|constructor].
Qed.

(** C35: hooks.  Without a state, or for a state that the OCI specification does not know, no
    hook is started.  Otherwise the hooks run in their order, each as its program with its
    arguments and variables, and each with the state of the container and the process
    identifier that was asked for; a hook is started only when the
    one before it has ended with the code zero, in time, and the run succeeds exactly if all
    did.  The time of a hook counts from when it has taken the state, or has ended without
    taking it; a hook that does not read the state can pass.  A hook that does not end in its
    time is killed, and so is one for which writing the state fails for another reason.  A
    hook that does not end is waited for for ever if it has no time limit, or if it never takes
    the state; there is no other way not to come to an end. *)
Theorem run_hooks_spec hooks state cwd pid env :
  runs (run_hooks hooks state cwd pid env) (λ r t,
    match state with
    | None => r = Err MissingContainerState ∧ t = []
    | Some st =>
        (fs_status st = Paused ∧ r = Err (StateConversion (InvalidStatus Paused)) ∧ t = []) ∨
        ∃ s, told pid st s ∧ ran s cwd env (default [] hooks) r t ∧
          ∃ n, Forall2 (command_for cwd env) (take n (default [] hooks)) (started t)
    end).
Proof.
  apply runs_bind. destruct state as [st|]; [|by apply runs_pure]. apply runs_pure, runs_bind.
  pose proof (oci_state_told pid st) as Hs. destruct (oci_state st) as [s|e|]; [| |done]; apply runs_pure; cbn.
  - eapply runs_mono; [apply hook_loop_runs|]. intros r t Hr. right. exists (set_pid pid s).
    split; [done|]. split; [done|]. by eapply ran_started.
  - destruct Hs as [-> Hs]. by left.
Qed.
End hooks.

(** ** An example *)

Module ExampleHooks.
Definition state : FullState := full_state_new "1.2.0" "abc" Created (Some 42) (components "/bundle").

(** The second hook sleeps too long. *)
Definition hooks : list Hook :=
  [MkHook "/bin/prepare" (Some ["prepare"; "-v"]) (Some ["A=1"]) None; MkHook "/bin/slow" None None (Some 5);
   MkHook "/bin/never" None None None].

Definition behave (c : Command) : hook_process :=
  if bool_decide (program c = "/bin/slow") then MkHookProcess 101 (Some (60, ExitCode 0)) (λ _, Some 0)
  else MkHookProcess 100 (Some (1, ExitCode 0)) (λ _, Some 0).

Definition run := run_hooks behave (λ _, Some "{}") (λ _ _, None) (Some hooks) (Some state) None (Some 7) None.

Lemma run_hooks_spec_witness :
  (run []).1 = Err HookTimeout ∧ ∃ s, told (Some 7) state s ∧
  ran behave (λ _, Some "{}") s None None hooks (Err HookTimeout) (run []).2.
Proof.
  destruct (run_hooks_spec behave (λ _, Some "{}") (λ _ _, None) (Some hooks) (Some state) None (Some 7) None [])
    as (t & Hw & Ht).
  assert ((run []).1 = Err HookTimeout) as Hr by (vm_compute; reflexivity).
  split; [exact Hr|]. fold run in Hw, Ht. rewrite Hr in Ht. rewrite Hw.
  destruct Ht as [(H & _)|(s & Hs & Hran & _)]; [discriminate|]. exists s. split; [exact Hs|exact Hran].
Defined.

Example third_hook_not_started :
  program <$> started (run []).2 = ["/bin/prepare"; "/bin/slow"] ∧ KillHook 101 ∈ (run []).2.*1.
Proof. vm_compute. split; [reflexivity|]. repeat (first [left; reflexivity | right]). Qed.

(** The time limit does not hold for a hook that does not read a state that is larger than the
    pipe: the write returns when the hook ends, and the limit starts then. *)
Example time_limit_missed :
  (run_hooks (λ _, MkHookProcess 102 (Some (3600, ExitCode 0)) (λ _, None)) (λ _, Some "{}") (λ _ _, None)
     (Some [MkHook "/bin/idle" None None (Some 5)]) (Some state) None None None []).1 = Ok true.
Proof. reflexivity. Qed.
End ExampleHooks.
