(* ===== verification/Managers.v ===== *)
(** * Managers: the choice of a cgroup manager

    Models the part of [crates/libcgroups/src/common.rs] that finds out how cgroups are set up
    ([get_cgroup_setup]), makes the manager that fits ([create_cgroup_manager]), and passes the
    operations of the trait [CgroupManager] on to it ([AnyCgroupManager]).  The managers are
    those of [V1Manager], [V2Manager] and [SystemdManager]. *)
From S2P Require Import Prelude Text Paths Utils Bpf Devices CgroupFs CgroupTree Stats V2Controllers V1 V2Manager Dbus DbusMessage DbusConn SystemdProps SystemdDevices SystemdManager.
From S2P Require V1Manager Builders BpfAttach.
Local Open Scope string_scope.
Local Open Scope list_scope.
Local Open Scope Z_scope.

(** ** The setup of the system *)

Inductive CgroupSetup : Type := Hybrid | Legacy | Unified.

Definition setup_fmt (s : CgroupSetup) : string :=
  match s with Hybrid => "hybrid" | Legacy => "legacy" | Unified => "unified" end.

Inductive GetCgroupSetupError : Type :=
  | SetupIo (e : WrappedIoError) | NonDefault | FailedToDetect.

Definition DEFAULT_CGROUP_ROOT : Path := components "/sys/fs/cgroup".
Definition CGROUP2_SUPER_MAGIC : Z := 1667723888.
Definition TMPFS_MAGIC : Z := 16914836.

(** What exists, and the types of file systems. *)
Record mounts : Type := MkMounts { path_exists : Path → bool; statfs : Path → IoError + Z }.

Definition fs_type (h : mounts) (p : Path) : outcome GetCgroupSetupError Z :=
  map_err (λ e, SetupIo (WOther e p)) (of_sum (statfs h p)).

Definition get_cgroup_setup_with_root (h : mounts) (root_path : Path) : outcome GetCgroupSetupError CgroupSetup :=
  if path_exists h root_path then
    stat ← fs_type h root_path;
    if stat =? CGROUP2_SUPER_MAGIC then Ok Unified
    else if stat =? TMPFS_MAGIC then
      let unified := join root_path (components "unified") in
      if path_exists h unified then
        stat ← fs_type h unified;
        if stat =? CGROUP2_SUPER_MAGIC then Ok Hybrid else Ok Legacy
      else Ok Legacy
    else Err FailedToDetect
  else Err NonDefault.

Definition get_cgroup_setup (h : mounts) : outcome GetCgroupSetupError CgroupSetup :=
  get_cgroup_setup_with_root h DEFAULT_CGROUP_ROOT.

(** ** The managers *)

Inductive AnyManagerError : Type :=
  | ASystemdError (e : SystemdManagerError) | AV1Error (e : V1Manager.V1ManagerError)
  | AV2Error (e : V2ManagerError) | AV2StatsError (e : V2Stats.V2StatsError).

Inductive AnyCgroupManager : Type :=
  | ASystemd (m : SystemdManager) | AV1 (m : V1Manager.Manager) | AV2 (m : Manager).

(** The v1 manager ignores it. *)
Definition any_with_rootless (m : AnyCgroupManager) (r : bool) : AnyCgroupManager :=
  match m with
  | AV2 m => AV2 (with_rootless m r)
  | ASystemd m => ASystemd (sm_with_rootless m r)
  | AV1 m => AV1 m
  end.

Section operations.
Context {C B : Type} `{SystemdClient C} (others : C → fs → fs).

Abbreviation aio A := (io (sworld C B) AnyManagerError A).

Definition on_files {E A} (f : E → AnyManagerError) (m : io fs E A) : aio A := λ w,
  let '(r, v) := m (s_fs w) in (map_err f r, MkSworld (s_client w) v (s_bpf w)).

Definition on_systemd {A} (m : io (sworld C B) SystemdManagerError A) : aio A := io_map_err ASystemdError m.

(** The mount table, and the time that passes while systemd works *)
Context (mountinfo : outcome V1MountPointError (list (outcome V1MountPointError MountInfo)))
  (elapsed : nat → Z).

Definition any_add_task (m : AnyCgroupManager) (pid : Z) : aio () :=
  match m with
  | ASystemd m => on_systemd (s_add_task others elapsed m pid)
  | AV1 m => on_files AV1Error (V1Manager.add_task mountinfo m pid)
  | AV2 m => on_files AV2Error (add_task m pid)
  end.

(** For [apply]: what the controllers rely on, the iteration orders of hash maps, and the
    device controllers *)
Section apply.
Context `{OciDisplay, OciDevices} (v1_order : list (V1.ControllerType * Path) → list (V1.ControllerType * Path))
  (shares_curve : Z → Z) (v2_devices : option (list LinuxDeviceCgroup) → Path → io fs V2ManagerError ())
  (properties_of : SystemdResources → Z → outcome SystemdManagerError props)
  (order : props → list (string * Variant))
  (apply_devices : Path → option (list LinuxDeviceCgroup) → io B BpfAttach.DevicesControllerError ()).

Definition any_apply (m : AnyCgroupManager) (o : ControllerOpt) : aio () :=
  match m with
  | ASystemd m =>
      on_systemd (s_apply others properties_of order apply_devices m
        (MkSystemdResources (resources o) (v1_devices (resources o))))
  | AV1 m => on_files AV1Error (V1Manager.manager_apply v1_order m o)
  | AV2 m => on_files AV2Error (manager_apply shares_curve (v2_devices (v1_devices (resources o))) m (resources o))
  end.
End apply.

Definition any_remove (m : AnyCgroupManager) : aio () :=
  match m with
  | ASystemd m => on_systemd (s_remove others m)
  | AV1 m => on_files AV1Error (V1Manager.remove m)
  | AV2 m => on_files AV2Error (remove m)
  end.

(** [events]: what the kernel reports about freezing *)
Definition any_freeze (events : nat → string) (m : AnyCgroupManager) (state : FreezerState) : aio () :=
  match m with
  | ASystemd m => on_systemd (s_freeze events m state)
  | AV1 m => on_files AV1Error (V1Manager.freeze m state)
  | AV2 m => on_files AV2Error (freeze events m state)
  end.

Definition any_stats `{Float64} (m : AnyCgroupManager) : aio Stats :=
  match m with
  | ASystemd m => on_systemd (s_stats m)
  | AV1 m => on_files AV1Error (V1Manager.stats m)
  | AV2 m => on_files AV2StatsError (V2Stats.manager_stats (full_path m))
  end.

Definition any_get_all_pids (m : AnyCgroupManager) : aio (list Z) :=
  match m with
  | ASystemd m => on_systemd (s_get_all_pids m)
  | AV1 m => on_files AV1Error (V1Manager.get_all_pids m)
  | AV2 m => on_files AV2Error (get_all_pids m)
  end.
End operations.

(** ** Making a manager *)

Inductive CreateCgroupSetupError : Type :=
  | CWrappedIo (e : WrappedIoError) | CNonDefault | CFailedToDetect
  | CV1 (e : V1Manager.V1ManagerError) | CV2 (e : V2ManagerError) | CSystemd (e : SystemdManagerError).

Definition setup_error (e : GetCgroupSetupError) : CreateCgroupSetupError :=
  match e with SetupIo e => CWrappedIo e | NonDefault => CNonDefault | FailedToDetect => CFailedToDetect end.

Definition is_true_root (euid : Z) (uid_map : IoError + string) : outcome WrappedIoError bool :=
  if negb (euid =? 0) then Ok false
  else
    content ← map_err (λ e, WRead e (components "/proc/self/uid_map")) (of_sum uid_map);
    Ok (contains_str "4294967295" content).

Definition PROCESS_IN_CGROUP_TIMEOUT_DURATION : Z := 5000.

Section create.
Context {C : Type} `{SystemdClient C}.
(** The system: its mounts, the mount table and the cgroups of this process for cgroup v1, if
    it was booted with systemd, the user, and the connection to systemd. *)
Context (h : mounts)
  (mountinfo : outcome V1MountPointError (list (outcome V1MountPointError MountInfo)))
  (proc_cgroups : outcome V1Manager.V1ManagerError (list V1Manager.ProcessCGroup))
  (v1_order : list (V1.ControllerType * Path) → list (V1.ControllerType * Path))
  (booted : bool) (euid : Z) (uid_map : IoError + string)
  (try_connect : bool → nat → outcome SystemdClientError C) (subsec_nanos : nat → option Z)
  (show : SystemdManagerError → string).

Abbreviation cio A := (io (list Z) CreateCgroupSetupError A).

Definition create_v1_cgroup_manager (cgroup_path : Path) : outcome V1Manager.V1ManagerError V1Manager.Manager :=
  V1Manager.manager_new mountinfo proc_cgroups v1_order cgroup_path.

Definition create_v2_cgroup_manager (root_path cgroup_path : Path) : outcome V2ManagerError Manager :=
  manager_new root_path cgroup_path.

(** The manager and its client; the world is the list of the delays while connecting. *)
Definition create_systemd_cgroup_manager (root_path cgroup_path : Path) (container_name : string) :
    io (list Z) SystemdManagerError (SystemdManager * C) :=
  if negb booted then pure (Err SystemdNotAvailable)
  else
    use_system ← pure (map_err SWrappedIo (is_true_root euid uid_map));
    systemd_manager_new (try_connect use_system) subsec_nanos show root_path (Builders.path_display cgroup_path)
      container_name use_system PROCESS_IN_CGROUP_TIMEOUT_DURATION.

Definition create_cgroup_manager_with_root (root_path : option Path) (config : Builders.CgroupConfig) :
    cio (AnyCgroupManager * option C) :=
  let root := default DEFAULT_CGROUP_ROOT root_path in
  cgroup_setup ← pure (map_err setup_error (get_cgroup_setup_with_root h root));
  let cgroup_path := Builders.cgroup_path config in
  match cgroup_setup with
  | Legacy | Hybrid =>
      m ← pure (map_err CV1 (create_v1_cgroup_manager cgroup_path)); mret (AV1 m, None)
  | Unified =>
      if has_root cgroup_path || negb (Builders.systemd_cgroup config) then
        m ← pure (map_err CV2 (create_v2_cgroup_manager root cgroup_path)); mret (AV2 m, None)
      else
        mc ← io_map_err CSystemd (create_systemd_cgroup_manager root cgroup_path (Builders.container_name config));
        mret (ASystemd mc.1, Some mc.2)
  end.

Definition create_cgroup_manager (config : Builders.CgroupConfig) : cio (AnyCgroupManager * option C) :=
  create_cgroup_manager_with_root (Some DEFAULT_CGROUP_ROOT) config.
End create.

(** ** Properties *)

(** Both directions, from the facts that hold on either side. *)
Ltac by_cases :=
  split; intros;
  repeat match goal with
  | H : _ ∧ _ |- _ => destruct H
  | H : _ ∨ _ |- _ => destruct H
  | H : ∃ _, _ |- _ => destruct H
  | H : inr _ = inr _ |- _ => injection H as H
  | H : inl _ = inr _ |- _ => discriminate H
  | H : Ok _ = Ok _ |- _ => first [discriminate H | clear H]
  | H : Err _ = Ok _ |- _ => discriminate H
  | H : _ = _ :> bool |- _ => first [discriminate H | clear H]
  | H : TMPFS_MAGIC = CGROUP2_SUPER_MAGIC |- _ => discriminate H
  end; subst; try discriminate; try congruence;
  first [reflexivity | repeat split; first [reflexivity | by left | right; eexists; by split]].

(** The magic numbers of the kernel's header for cgroup v2 file systems and for tmpfs. *)
Definition is_cgroup2 (t : Z) : Prop := t = 0x63677270.
Definition is_tmpfs (t : Z) : Prop := t = 0x01021994.

(** How the hierarchies are mounted.  The system is unified if the root is a cgroup v2 file
    system; if it is a tmpfs, it is hybrid or legacy, with or without a cgroup v2 file system in
    [unified]. *)
Definition mounted (h : mounts) (root : Path) (s : CgroupSetup) : Prop :=
  path_exists h root = true ∧
  let unified := join root (components "unified") in
  ∃ t, statfs h root = inr t ∧
  match s with
  | Unified => is_cgroup2 t
  | Hybrid => is_tmpfs t ∧ path_exists h unified = true ∧ ∃ u, statfs h unified = inr u ∧ is_cgroup2 u
  | Legacy => is_tmpfs t ∧ (path_exists h unified = false ∨ ∃ u, statfs h unified = inr u ∧ ¬ is_cgroup2 u)
  end.

Lemma get_cgroup_setup_spec h root s : get_cgroup_setup_with_root h root = Ok s ↔ mounted h root s.
Proof.
  transitivity (path_exists h root = true ∧
    let unified := join root (components "unified") in
    match s with
    | Unified => statfs h root = inr CGROUP2_SUPER_MAGIC
    | Hybrid => statfs h root = inr TMPFS_MAGIC ∧ path_exists h unified = true ∧
        statfs h unified = inr CGROUP2_SUPER_MAGIC
    | Legacy => statfs h root = inr TMPFS_MAGIC ∧
        (path_exists h unified = false ∨ ∃ t, statfs h unified = inr t ∧ t ≠ CGROUP2_SUPER_MAGIC)
    end).
  2: { unfold mounted, is_cgroup2, is_tmpfs. destruct s; naive_solver. }
  unfold get_cgroup_setup_with_root, fs_type. cbv zeta. generalize (join root (components "unified")) as unified.
  intros unified. destruct (path_exists h root); [|by split; [|intros []]].
  destruct (statfs h root) as [e|t]; cbn; [destruct s; by_cases|].
  destruct (Z.eqb_spec t CGROUP2_SUPER_MAGIC); [destruct s; by_cases|].
  destruct (Z.eqb_spec t TMPFS_MAGIC); [|destruct s; by_cases].
  destruct (path_exists h unified); [|destruct s; by_cases].
  destruct (statfs h unified) as [e'|t']; cbn; [destruct s; by_cases|].
  destruct (Z.eqb_spec t' CGROUP2_SUPER_MAGIC); destruct s; by_cases.
Qed.

Lemma get_cgroup_setup_no_panic h root : get_cgroup_setup_with_root h root ≠ Panic.
Proof.
  unfold get_cgroup_setup_with_root, fs_type. destruct (path_exists h root); [|done].
  apply bind_no_panic; [by destruct (statfs h root)|]. intros t _. case_match; [done|]. case_match; [|done]. cbv zeta.
  case_match; [|done]. apply bind_no_panic; [by destruct (statfs h _)|]. intros t' _. by case_match.
Qed.

Section properties.
Context {C B : Type} `{SystemdClient C} (others : C → fs → fs).
Context (h : mounts)
  (mountinfo : outcome V1MountPointError (list (outcome V1MountPointError MountInfo)))
  (proc_cgroups : outcome V1Manager.V1ManagerError (list V1Manager.ProcessCGroup))
  (v1_order : list (V1.ControllerType * Path) → list (V1.ControllerType * Path))
  (booted : bool) (euid : Z) (uid_map : IoError + string)
  (try_connect : bool → nat → outcome SystemdClientError C) (subsec_nanos : nat → option Z)
  (show : SystemdManagerError → string).

Local Abbreviation create :=
  (create_cgroup_manager_with_root h mountinfo proc_cgroups v1_order booted euid uid_map try_connect subsec_nanos show).

Lemma systemd_new_wf connect root path name use_system timeout m c :
  (systemd_manager_new connect subsec_nanos show root path name use_system timeout []).1 = Ok (m, c) →
  sm_wf m ∧ sm_root_path m = root.
Proof.
  unfold systemd_manager_new. destruct (cgroups_path_try_from path) as [cp|e|]; cbn [map_err]; [|done..].
  rewrite io_bind_pure. cbv zeta. destruct (split_sub_cgroup _) as [n sub].
  generalize (MkCgroupsPath (cp_parent (ensure_parent_unit cp use_system))
    (cp_prefix (ensure_parent_unit cp use_system)) n) as cp2. intros cp2 Hr.
  destruct (connect_loop_spec connect subsec_nanos show root name timeout cp2 sub CONNECT_MAX_RETRIES 0 None [])
    as (k & _ & _ & _ & Hk); [done|done|lia|].
  rewrite Hr in Hk. case_decide; [by destruct Hk|]. unfold connected in Hk.
  destruct (connect_once connect k cp2 sub) as [[[cg b] cl]|e|] eqn:Honce; [|by destruct Hk|done].
  destruct (connect_once_below _ _ _ _ _ _ _ Honce) as [names Hcg].
  destruct (make_manager_wf root cg b name timeout cp2 sub names Hcg) as (m' & Hm & Hwf & Hroot & _).
  rewrite Hm in Hk. injection Hk as -> ->. done.
Qed.

(** The cgroup of a manager is below the root, or below the mount points of the controllers. *)
Definition managed (root : Path) (m : AnyCgroupManager) : Prop :=
  match m with
  | ASystemd m => sm_wf m ∧ sm_root_path m = root
  | AV1 m => Forall (V1Manager.below_mount mountinfo) (V1Manager.subsystems m)
  | AV2 m => root_path m = root ∧ ∃ names, full_path m = root ++ (Normal <$> names)
  end.

(** The process [pid] has been put into the cgroup of the manager. *)
Definition joined (w w' : sworld C B) (pid : Z) (m : AnyCgroupManager) : Prop :=
  match m with
  | AV1 m => ∃ ops, journal (s_fs w') = journal (s_fs w) ++ ops ∧
      ∀ c p, (c, p) ∈ V1Manager.subsystems m → OpWrite (join_name_of p CGROUP_PROCS) (pretty pid) ∈ ops
  | AV2 m => rootless m = false →
      last (journal (s_fs w')) = Some (OpWrite (join_name_of (full_path m) CGROUP_PROCS) (pretty pid))
  | ASystemd m => pid ≠ -1 →
      (∃ c, c_unit_exists (sm_unit_name m) (s_client w) = (Ok true, c) ∧
         (c_add_process (sm_unit_name m) (sm_sub_cgroup m) (uwrap 32 pid) c).1 = Ok ()) ∨
      collects (s_fs w') (full_path (sm_fs_manager m)) pid
  end.

Context (elapsed : nat → Z).
Hypothesis slow : ∀ i, elapsed i + 20 ≤ elapsed (S i).
Hypothesis start : 0 ≤ elapsed 0%nat.

Lemma any_add_task_joins root m pid w w' :
  managed root m → any_add_task others mountinfo elapsed m pid w = (Ok (), w') → joined w w' pid m.
Proof.
  destruct m as [m|m|m]; cbn [any_add_task managed joined].
  - intros _. unfold on_systemd, io_map_err. intros Hrun Hpid.
    pose proof (systemd_add_task_spec others elapsed slow start m pid w) as Hs. cbv zeta in Hs.
    rewrite decide_False in Hs by done. destruct (s_add_task others elapsed m pid w) as [r w1]. cbn in Hrun.
    injection Hrun as Hr ->. destruct r as [[]|e|]; [|done..].
    destruct (c_unit_exists _ _) as [[[]|[]|] c]; [| |done].
    + left. exists c. split; [done|]. injection Hs as Hs _. by destruct (c_add_process _ _ _ c).1 as [[]|?|].
    + right. destruct (c_start_unit _ _ _ _ c) as [[u|e|] c']; [|by destruct Hs|done].
      destruct Hs as (_ & _ & Hs). by apply Hs.
  - intros Hb. unfold on_files. destruct (V1Manager.add_task mountinfo m pid (s_fs w)) as [r v] eqn:Hv.
    intros [= Hr <-]. cbn. destruct r as [[]|e|]; [|done..]. by eapply V1Manager.add_tasks_Ok.
  - intros _. unfold on_files. destruct (add_task m pid (s_fs w)) as [r v] eqn:Hv.
    intros [= Hr <-] Hrl. cbn. destruct r as [[]|e|]; [|done..]. by eapply add_task_last.
Qed.

(** Which manager a configuration gets on a system. *)
Definition chosen (setup : CgroupSetup) (config : Builders.CgroupConfig) (m : AnyCgroupManager) : Prop :=
  match m with
  | AV1 _ => setup ≠ Unified
  | AV2 _ => setup = Unified ∧
      (has_root (Builders.cgroup_path config) = true ∨ Builders.systemd_cgroup config = false)
  | ASystemd _ => setup = Unified ∧ has_root (Builders.cgroup_path config) = false ∧
      Builders.systemd_cgroup config = true ∧ booted = true
  end.

(** The cases of [create_cgroup_manager]. *)
Lemma create_cases root config setup :
  get_cgroup_setup_with_root h root = Ok setup →
  let path := Builders.cgroup_path config in
  (create (Some root) config []).1 =
    match setup with
    | Unified =>
        if has_root path || negb (Builders.systemd_cgroup config)
        then m ← map_err CV2 (manager_new root path); Ok (AV2 m, None)
        else mc ← map_err CSystemd (create_systemd_cgroup_manager booted euid uid_map try_connect subsec_nanos show
                    root path (Builders.container_name config) []).1;
             Ok (ASystemd mc.1, Some mc.2)
    | _ => m ← map_err CV1 (V1Manager.manager_new mountinfo proc_cgroups v1_order path); Ok (AV1 m, None)
    end.
Proof.
  intros Hs path. unfold create_cgroup_manager_with_root. cbn [default from_option id]. rewrite Hs. cbn [map_err].
  rewrite io_bind_pure. cbv zeta. fold path. unfold create_v1_cgroup_manager, create_v2_cgroup_manager.
  destruct setup.
  1,2: by destruct (V1Manager.manager_new mountinfo proc_cgroups v1_order path).
  destruct (_ || _); [by destruct (manager_new root path)|]. unfold mbind, io_bind, io_map_err.
  by destruct (create_systemd_cgroup_manager _ _ _ _ _ _ _ _ _ []) as [[[m c]|e|] slept].
Qed.

Lemma create_managed root config setup m c :
  (∀ l, v1_order l ≡ₚ l) → get_cgroup_setup_with_root h root = Ok setup →
  (create (Some root) config []).1 = Ok (m, c) → managed root m ∧ chosen setup config m.
Proof.
  intros Hperm Hs. rewrite (create_cases root config setup Hs). cbv zeta.
  assert (∀ mv, map_err CV1 (V1Manager.manager_new mountinfo proc_cgroups v1_order (Builders.cgroup_path config)) = Ok mv →
    managed root (AV1 mv)) as Hv1.
  { intros mv Hm. destruct (V1Manager.manager_new _ _ _ _) as [mv'|e|] eqn:Hnew; [|done..]. injection Hm as <-.
    by apply (V1Manager.manager_new_below _ _ _ _ _ Hperm Hnew). }
  destruct setup; [by intros (mv & Hm%Hv1 & [= <- <-])%bind_Ok..|].
  destruct (has_root (Builders.cgroup_path config)) eqn:Habs; cbn [orb].
  { intros (mv & Hm & [= <- <-])%bind_Ok. destruct (manager_new _ _) as [mv'|e|] eqn:Hnew; [|done..]. injection Hm as <-.
    apply manager_new_paths in Hnew as (Hr & Hf & _). split; [split; [done|by eexists]|]. split; [done|by left]. }
  destruct (Builders.systemd_cgroup config) eqn:Hsd; cbn [negb].
  2: { intros (mv & Hm & [= <- <-])%bind_Ok. destruct (manager_new _ _) as [mv'|e|] eqn:Hnew; [|done..]. injection Hm as <-.
    apply manager_new_paths in Hnew as (Hr & Hf & _). split; [split; [done|by eexists]|]. split; [done|by right]. }
  intros ([sm cl] & Hm & [= <- <-])%bind_Ok. unfold create_systemd_cgroup_manager in Hm.
  destruct booted eqn:Hb; cbn [negb] in Hm; [|done]. unfold mbind, io_bind, pure in Hm.
  destruct (is_true_root euid uid_map) as [use_system|e|]; cbn [map_err] in Hm; [|done..].
  destruct (systemd_manager_new _ _ _ _ _ _ _ _ []).1 as [[m' c']|e|] eqn:Hnew; [|done..].
  injection Hm as -> ->. split; [by eapply systemd_new_wf|]. done.
Qed.

(** C36: the cgroup manager of a container.  If the root of the hierarchies is a tmpfs, the
    system is one with cgroup v1 controllers, pure or hybrid, and it is the cgroup v1 manager.
    If the root is a cgroup v2 file system, the system is unified, and it is the one of systemd if it
    was asked for, the path is a name for systemd and the system runs systemd, and an error if
    it does not; else it is the cgroup v2 manager.  There is no manager on any other system.  The
    cgroup of the manager is below the root or the mount points of the controllers, and when
    [add_task] succeeds the process was written into it, or given to systemd. *)
Theorem create_cgroup_manager_spec root config :
  (∀ l, v1_order l ≡ₚ l) →
  let r := (create (Some root) config []).1 in
  (∀ m c, r = Ok (m, c) → ∃ setup, mounted h root setup ∧ managed root m ∧ chosen setup config m ∧
     ∀ w w' pid, any_add_task others mountinfo elapsed m pid w = (Ok (), w') → joined w w' pid m) ∧
  (mounted h root Legacy ∨ mounted h root Hybrid → ∃ m, r = Ok (AV1 m, None)) ∧
  (mounted h root Unified →
     (has_root (Builders.cgroup_path config) || negb (Builders.systemd_cgroup config) = true →
        ∃ m, r = Ok (AV2 m, None)) ∧
     (has_root (Builders.cgroup_path config) || negb (Builders.systemd_cgroup config) = false →
        booted = false → r = Err (CSystemd SystemdNotAvailable))) ∧
  ((∀ setup, ¬ mounted h root setup) → ∃ e, r = Err (setup_error e)).
Proof.
  intros Hperm r. setoid_rewrite <- get_cgroup_setup_spec.
  destruct (get_cgroup_setup_with_root h root) as [setup|e|] eqn:Hs.
  3: by apply get_cgroup_setup_no_panic in Hs.
  2: { assert (r = Err (setup_error e)) as Hr
         by (unfold r, create_cgroup_manager_with_root; cbn [default from_option id]; by rewrite Hs).
       rewrite Hr. split_and!; [done|by intros [|]|done|by exists e]. }
  assert (setup ≠ Unified → ∃ m, r = Ok (AV1 m, None)) as Hv1.
  { intros Hne. unfold r. rewrite (create_cases root config setup Hs). destruct setup; [by eexists..|done]. }
  split_and!; [| |intros [= ->]; split|by intros Hn; destruct (Hn setup)].
  - intros m c Hr. exists setup. split; [done|]. destruct (create_managed root config setup m c Hperm Hs Hr) as [Hm Hc].
    split; [done|]. split; [done|]. intros w w' pid. by apply (any_add_task_joins root).
  - intros [[= ->]|[= ->]]; by apply Hv1.
  - intros Hf. unfold r. rewrite (create_cases root config Unified Hs), Hf. unfold manager_new.
    rewrite join_safely_names. by eexists.
  - intros Hf Hb. unfold r. rewrite (create_cases root config Unified Hs), Hf.
    unfold create_systemd_cgroup_manager. by rewrite Hb.
Qed.
End properties.

(** ** Examples *)

Module ExampleManagers.

(** A unified system that runs systemd. *)
Definition unified_system : mounts :=
  MkMounts (λ p, bool_decide (p = DEFAULT_CGROUP_ROOT)) (λ _, inr CGROUP2_SUPER_MAGIC).

Definition create_example (booted : bool) (path : string) (systemd : bool) :=
  create_cgroup_manager_with_root (H:=unit_client) unified_system (Ok []) (Ok []) Datatypes.id booted 0
    (inr "0 0 4294967295") (λ _, slow_bus) (λ _, None) (λ _, "") (Some DEFAULT_CGROUP_ROOT)
    (Builders.MkCgroupConfig (components path) systemd "abc") [].

(** The request for systemd has no effect on an absolute path. *)
Lemma create_cgroup_manager_spec_witness :
  ∃ m, (create_example true "/youki/abc" true).1 = Ok (AV2 m, None).
Proof.
  destruct (create_cgroup_manager_spec (H:=unit_client) (B:=()) (λ _ v, v) unified_system (Ok []) (Ok []) Datatypes.id
    true 0 (inr "0 0 4294967295") (λ _, slow_bus) (λ _, None) (λ _, "") (λ i, 20 * Z.of_nat i)
    ltac:(intros i; cbv beta; lia) ltac:(cbv beta; lia) DEFAULT_CGROUP_ROOT
    (Builders.MkCgroupConfig (components "/youki/abc") true "abc") ltac:(done)) as (_ & _ & Hv2 & _).
  apply Hv2; [|reflexivity]. split; [reflexivity|]. by eexists.
Defined.

Example systemd_manager_made :
  match (create_example true "system.slice:youki:abc" true).1 with
  | Ok (ASystemd m, Some _) => sm_unit_name m = "youki-abc.scope"
  | _ => False
  end.
Proof. vm_compute. reflexivity. Qed.
End ExampleManagers.
