(* ===== verification/InitSteps.v ===== *)
(** * InitSteps: steps of the init process, down to the system calls

    In [Processes] a step of the init process is an effect that succeeds or fails.  This file
    models the steps of [crates/libcontainer/src/process/init/process.rs] that protect paths,
    change the root, and set groups, priorities and the scheduler, with the operations of
    [syscall/linux.rs] that they use.  The world is the list of the system calls made, any of
    which may fail.  What the calls mean for the files that a process sees, for its root and
    for its descriptors is stated by interfaces, with the documented behaviour of the calls as
    laws. *)
From S2P Require Import Prelude Text Paths Calls Spec Validator MountOptions.
From S2P Require RootFs Processes Creation.
Import UserNs.
Local Open Scope string_scope.
Local Open Scope list_scope.
Local Open Scope Z_scope.

(** ** Data *)

Record FileStat : Type := MkStat { st_mode : Z; st_rdev : Z; st_ino : Z }.

(** [libc::sched_attr] and the two fields that follow it *)
Record SchedAttr : Type := MkSchedAttr {
  sched_size : Z; sched_policy : Z; sched_flags : Z; sched_nice : Z; sched_priority : Z;
  sched_runtime : Z; sched_deadline : Z; sched_period : Z; sched_util_min : Z; sched_util_max : Z }.

(** The system calls.  An open file is named by a number that is not used again. *)
Inductive call : Type :=
  | Mount (source : option Path) (target : Path) (fstype : option string) (flags : Z) (data : option string)
  | Open (p : Path)
  | Fstat (fd : Z)
  | OpenTree (fd : Z)
  | MoveMount (fd : Z) (target : Path)
  | Umount2 (target : Path) (flags : Z)
  | PivotRoot (new_root put_old : Path)
  | Fchdir (fd : Z)
  | Chdir (p : Path)
  | Chroot (p : Path)
  | Dup2 (fd stream : Z)
  | OpenProc (name : string)
  | ReadProc (name : string)
  | Setgroups (gids : list Z)
  | SetKeepCaps (on : bool)
  | Setresgid (gid : Z)
  | Setresuid (uid : Z)
  | ResetEffective
  | CloseRange (first : Z)
  | SetCloexec (fd : Z)
  | IoprioSet (ioprio : Z)
  | SchedSetattr (attr : SchedAttr).

Definition events : Type := list (call * option Z).

(** [oci_spec::runtime::IOPriorityClass], [LinuxSchedulerPolicy] and [LinuxSchedulerFlag] *)
Inductive IOPriorityClass : Type := IoprioClassRt | IoprioClassBe | IoprioClassIdle.

Inductive LinuxSchedulerPolicy : Type :=
  | SchedOther | SchedFifo | SchedRr | SchedBatch | SchedIso | SchedIdle | SchedDeadline.

Inductive LinuxSchedulerFlag : Type :=
  | SchedResetOnFork | SchedFlagReclaim | SchedFlagDLOverrun | SchedFlagKeepPolicy | SchedFlagKeepParams
  | SchedFlagUtilClampMin | SchedFlagUtilClampMax.

#[global] Instance LinuxSchedulerFlag_eq_dec : EqDecision LinuxSchedulerFlag.
Proof. solve_decision. Defined.

Record Scheduler : Type := MkScheduler {
  sc_policy : LinuxSchedulerPolicy; sc_nice : option Z; sc_priority : option Z;
  sc_flags : option (list LinuxSchedulerFlag);
  sc_runtime : option Z; sc_deadline : option Z; sc_period : option Z }.

Inductive DeviceCheck : Type := NotCharDevice | WrongNumbers (major minor : Z).

Inductive InitProcessError : Type :=
  | MountPathReadonly (errno : Z) | MountPathMasked (errno : Z) | Device (e : DeviceCheck)
  | NixOther (errno : Z) | SyscallOther (errno : Z) | ReopenDevNull (errno : Z) | Io (errno : Z)
  | Pathrs (errno : Z) | SetGroupDisabled | IoPriorityClassError (class : string) | SchedSetattrFailed (errno : Z).

Definition ENOENT : Z := 2.
Definition EINVAL : Z := 22.
Definition ENOSYS : Z := 38.
Definition MNT_DETACH : Z := 2.
Definition MS_MOVE : Z := 8192.
Definition S_IFMT : Z := 61440.

(** [libc::major] and [libc::minor] *)
Definition dev_major (dev : Z) : Z :=
  Z.lor (Z.shiftr (Z.land dev (Z.shiftl 4095 8)) 8) (Z.shiftr (Z.land dev (Z.shiftl 1048575 44)) 32).

Definition dev_minor (dev : Z) : Z :=
  Z.lor (Z.land dev 255) (Z.shiftr (Z.land dev (Z.shiftl 16777215 20)) 12).

(** [verify_dev_null] of [rootfs/device.rs] *)
Definition verify_dev_null (stat : FileStat) : outcome DeviceCheck () :=
  if bool_decide (Z.land (st_mode stat) S_IFMT ≠ RootFs.S_IFCHR) then Err NotCharDevice
  else
    let actual_major := dev_major (st_rdev stat) in
    let actual_minor := dev_minor (st_rdev stat) in
    if bool_decide (actual_major ≠ 1 ∨ actual_minor ≠ 3) then Err (WrongNumbers actual_major actual_minor)
    else Ok ().

(** [Path::file_name] *)
Definition file_name (p : Path) : option string :=
  match last p with Some (Normal name) => Some name | _ => None end.

Definition dev_null : Path := components "/dev/null".
Definition tmpfs : string := "tmpfs".

(** ** The operations *)

(** What the kernel answers: the error of a call, the file that an [open] gives, what a
    descriptor refers to, and if a path can be looked up and leads to a directory. *)
Record Kernel : Type := MkKernel {
  err : events → call → option Z;
  opened : events → Path → Z;
  stat_of : Z → FileStat;
  exists_ : events → Path → bool;
  is_dir : events → Path → bool }.

Section steps.
Context (k : Kernel).

Definition sys {E} (c : call) (e : Z → E) : io events E () := do (err k) c e.

Definition open {E} (p : Path) (e : Z → E) : io events E Z := λ w,
  (_ ← sys (Open p) e; mret (opened k w p)) w.

(** [open_device_fd] of [rootfs/device.rs] *)
Definition open_device_fd (dev_path : Path) : io events Z (Z * FileStat) :=
  owned ← open dev_path Datatypes.id;
  _ ← sys (Fstat owned) Datatypes.id;
  mret (owned, stat_of k owned).

(** [mount_from_fd] of [syscall/linux.rs] *)
Definition mount_from_fd (source_fd : Z) (target : Path) : io events Z () :=
  par ← pure (ok_or (parent target) EINVAL);
  name ← pure (ok_or (file_name target) EINVAL);
  _ ← open par Datatypes.id;
  _ ← sys (OpenTree source_fd) Datatypes.id;
  if contains_char zero name then pure (Err EINVAL)
  else sys (MoveMount source_fd target) Datatypes.id.

(** *** Paths that the program must not write or see *)

Definition REMOUNT_READONLY : Z :=
  Z.lor MS_NOSUID (Z.lor MS_NODEV (Z.lor MS_NOEXEC (Z.lor MS_BIND (Z.lor MS_REMOUNT MS_RDONLY)))).

Definition readonly_path (path : Path) : io events InitProcessError () :=
  r ← attempt (sys (Mount (Some path) path None (Z.lor MS_BIND MS_REC) None) Datatypes.id);
  match r with
  | inl errno => if errno =? ENOENT then mret () else pure (Err (MountPathReadonly errno))
  | inr _ => sys (Mount (Some path) path None REMOUNT_READONLY None) MountPathReadonly
  end.

Definition quote : string := String "034"%char "".

(** One iteration of the loop of [masked_paths] *)
Definition mask_path (dev_null_fd : Z) (mount_label : option string) (path : Path) :
    io events InitProcessError () := λ w,
  (if exists_ k w path then
     if is_dir k w path then
       let label := from_option (λ l, "context=" +:+ quote +:+ l +:+ quote) "" mount_label in
       sys (Mount (Some (components tmpfs)) path (Some tmpfs) MS_RDONLY (Some label)) MountPathMasked
     else io_map_err MountPathMasked (mount_from_fd dev_null_fd path)
   else mret ()) w.

Definition masked_paths (paths : list Path) (mount_label : option string) : io events InitProcessError () :=
  '(dev_null_fd, dev_null_stat) ← io_map_err NixOther (open_device_fd dev_null);
  _ ← pure (map_err Device (verify_dev_null dev_null_stat));
  io_each (mask_path dev_null_fd mount_label) paths.

(** The part of [container_init_process] that protects paths *)
Definition protect (readonly masked : option (list Path)) (mount_label : option string) :
    io events InitProcessError () :=
  _ ← io_each readonly_path (default [] readonly);
  match masked with Some paths => masked_paths paths mount_label | None => mret () end.

(** *** The standard streams *)

Definition reopen_stream (dev_null_fd : Z) (null_rdev fd : Z) : io events InitProcessError () :=
  _ ← sys (Fstat fd) NixOther;
  if null_rdev =? st_rdev (stat_of k fd) then sys (Dup2 dev_null_fd fd) NixOther else mret ().

Definition reopen_dev_null : io events InitProcessError () :=
  dev_null_fd ← open dev_null ReopenDevNull;
  _ ← sys (Fstat dev_null_fd) NixOther;
  _ ← pure (map_err Device (verify_dev_null (stat_of k dev_null_fd)));
  io_each (reopen_stream dev_null_fd (st_rdev (stat_of k dev_null_fd))) [0; 1; 2].

(** *** The root directory *)

Definition unmount_or_hide (target_path : Path) : io events InitProcessError () :=
  r ← attempt (sys (Umount2 target_path MNT_DETACH) Datatypes.id);
  match r with
  | inr _ => mret ()
  | inl errno =>
      if errno =? EINVAL
      then sys (Mount None target_path (Some tmpfs) MS_RDONLY (Some "size=0k")) SyscallOther
      else pure (Err (SyscallOther errno))
  end.

Definition root : Path := [RootDir].
Definition here : Path := [CurDir].

Definition move_root (rootfs : Path) : io events InitProcessError () :=
  _ ← sys (Chdir rootfs) NixOther;
  _ ← unmount_or_hide (components "/sys");
  _ ← unmount_or_hide (components "/proc");
  _ ← sys (Mount (Some rootfs) root None MS_MOVE None) SyscallOther;
  _ ← sys (Chroot here) SyscallOther;
  sys (Chdir root) NixOther.

(** [pivot_rootfs] of [syscall/linux.rs] *)
Definition pivot_rootfs (path : Path) : io events Z () :=
  oldroot ← open root Datatypes.id;
  newroot ← open path Datatypes.id;
  _ ← sys (Fchdir newroot) Datatypes.id;
  _ ← sys (PivotRoot here here) Datatypes.id;
  _ ← sys (Fchdir oldroot) Datatypes.id;
  _ ← sys (Mount None here None (Z.lor MS_SLAVE MS_REC) None) Datatypes.id;
  _ ← sys (Umount2 here MNT_DETACH) Datatypes.id;
  sys (Chdir root) Datatypes.id.

Definition do_pivot_root (namespaces : Namespaces) (no_pivot : bool) (rootfs : Path) :
    io events InitProcessError () :=
  match namespaces !! NsMount with
  | Some _ => if no_pivot then move_root rootfs else io_map_err SyscallOther (pivot_rootfs rootfs)
  | None => sys (Chroot rootfs) SyscallOther
  end.

(** *** Groups, user and descriptors *)

(** [setgroups] is the content of [/proc/self/setgroups]. *)
Definition set_supplementary_gids (setgroups : string) (u : User) (user_ns_config : option UserNamespaceConfig) :
    io events InitProcessError () :=
  match additional_gids u with
  | None | Some [] => mret ()
  | Some gids =>
      _ ← sys (OpenProc "setgroups") Pathrs;
      _ ← sys (ReadProc "setgroups") Io;
      if bool_decide (trim setgroups = "deny") then pure (Err SetGroupDisabled)
      else
        match user_ns_config with
        | Some r => if privileged r then sys (Setgroups gids) SyscallOther else pure Panic
        | None => sys (Setgroups gids) SyscallOther
        end
  end.

(** [set_id] of [syscall/linux.rs] *)
Definition set_id (uid gid : Z) : io events Z () :=
  _ ← sys (SetKeepCaps true) Datatypes.id;
  _ ← sys (Setresgid gid) Datatypes.id;
  _ ← sys (Setresuid uid) Datatypes.id;
  _ ← (if uid =? 0 then mret () else sys ResetEffective Datatypes.id);
  sys (SetKeepCaps false) Datatypes.id.

(** The names of [/proc/self/fd] that are numbers, [get_open_fds] *)
Definition get_open_fds (entries : list string) : io events Z (list Z) :=
  _ ← sys (OpenProc "fd") Datatypes.id;
  _ ← sys (ReadProc "fd") Datatypes.id;
  mret (omap (λ name, match parse_signed 32 name with Ok fd => Some fd | _ => None end) entries).

Definition emulate_close_range (entries : list string) (preserve_fds : Z) : io events Z () :=
  open_fds ← get_open_fds entries;
  let min_fd := swrap 32 (preserve_fds + 3) in
  io_each (λ fd, _ ← attempt (sys (SetCloexec fd) Datatypes.id : io events Z ()); mret ())
    (List.filter (λ fd, min_fd <=? fd) open_fds).

Definition close_range (entries : list string) (preserve_fds : Z) : io events Z () :=
  r ← attempt (sys (CloseRange (uwrap 32 (swrap 32 (3 + preserve_fds)))) Datatypes.id);
  match r with
  | inr _ => mret ()
  | inl errno =>
      if (errno =? ENOSYS) || (errno =? EINVAL) then emulate_close_range entries preserve_fds
      else pure (Err errno)
  end.

(** *** Priorities *)

(** [serde_json::to_string] of a class *)
Context (class_json : IOPriorityClass → string + string).

Definition io_prio_class_mapping : gmap string Z :=
  list_to_map (reverse (omap
    (λ '(class, num), match class_json class with inr s => Some (s, num) | inl _ => None end)
    [(IoprioClassRt, 1); (IoprioClassBe, 2); (IoprioClassIdle, 3)])).

(** [set_io_priority] of [syscall/linux.rs] *)
Definition ioprio_set (class priority : Z) : io events Z () :=
  sys (IoprioSet (uwrap 64 (Z.lor (Z.shiftl class 13) priority))) Datatypes.id.

Definition set_io_priority (io_priority_op : option (IOPriorityClass * Z)) : io events InitProcessError () :=
  match io_priority_op with
  | None => mret ()
  | Some (class, priority) =>
      iop_class ← pure (map_err IoPriorityClassError (of_sum (class_json class)));
      match io_prio_class_mapping !! iop_class with
      | Some value => io_map_err SyscallOther (ioprio_set value priority)
      | None => pure (Err (IoPriorityClassError iop_class))
      end
  end.

Definition policy_number (p : LinuxSchedulerPolicy) : Z :=
  match p with
  | SchedOther => 0 | SchedFifo => 1 | SchedRr => 2 | SchedBatch => 3 | SchedIso => 4
  | SchedIdle => 5 | SchedDeadline => 6
  end.

Definition flag_value (flag : LinuxSchedulerFlag) : Z :=
  match flag with
  | SchedResetOnFork => 1 | SchedFlagReclaim => 2 | SchedFlagDLOverrun => 4 | SchedFlagKeepPolicy => 8
  | SchedFlagKeepParams => 16 | SchedFlagUtilClampMin => 32 | SchedFlagUtilClampMax => 64
  end.

Definition sched_attr_of (sc : Scheduler) : SchedAttr :=
  MkSchedAttr 56 (policy_number (sc_policy sc))
    (foldl (λ flags_value flag, Z.lor flags_value (flag_value flag)) 0 (default [] (sc_flags sc)))
    (default 0 (sc_nice sc)) (uwrap 32 (default 0 (sc_priority sc)))
    (default 0 (sc_runtime sc)) (default 0 (sc_deadline sc)) (default 0 (sc_period sc)) 0 0.

Definition setup_scheduler (sc_op : option Scheduler) : io events InitProcessError () :=
  match sc_op with
  | Some sc => sys (SchedSetattr (sched_attr_of sc)) SchedSetattrFailed
  | None => mret ()
  end.
End steps.

(** ** Which files a process sees

    [view w p] is what the process finds at the path [p] after the calls [w]. *)
Inductive node : Type := Absent | NullDevice | EmptyDir | Content (writable : bool).

#[global] Instance node_eq_dec : EqDecision node.
Proof. solve_decision. Defined.

Definition hidden (n : node) : Prop := n = Absent ∨ n = NullDevice ∨ n = EmptyDir.

(** [n'] shows no more than [n] and permits no more. *)
Definition narrower (n n' : node) : Prop :=
  n' = n ∨ hidden n' ∨ ((∃ b, n = Content b) ∧ n' = Content false).

(** The calls that change which files are seen. *)
Definition changes_view (c : call) : bool :=
  match c with
  | Mount _ _ _ _ _ | MoveMount _ _ | Umount2 _ _ | PivotRoot _ _ | Fchdir _ | Chdir _ | Chroot _ => true
  | _ => false
  end.

Definition genuine (k : Kernel) (fd : Z) : Prop := verify_dev_null (stat_of k fd) = Ok ().

(** A mount hides what is below it.  No mount is unbindable, so that a recursive bind mount of
    a path on itself shows the same files; to mount it again with other flags changes the flags
    of that mount. *)
Class FileView (k : Kernel) : Type := {
  view : events → Path → node;
  view_exists : ∀ w p, exists_ k w p = false → view w p = Absent;
  view_failed : ∀ w c n p, view (w ++ [(c, Some n)]) p = view w p;
  view_other : ∀ w c r p, changes_view c = false → view (w ++ [(c, r)]) p = view w p;
  view_bind : ∀ w p q,
    view (w ++ [(Mount (Some p) p None (Z.lor MS_BIND MS_REC) None, None)]) q = view w q;
  view_bind_absent : ∀ w p,
    err k w (Mount (Some p) p None (Z.lor MS_BIND MS_REC) None) = Some ENOENT → view w p = Absent;
  view_remount : ∀ w p q, let n := view (w ++ [(Mount (Some p) p None REMOUNT_READONLY None, None)]) q in
    narrower (view w q) n ∧ (q = p → n ≠ Content true);
  view_tmpfs : ∀ w p label q,
    let n := view (w ++ [(Mount (Some (components tmpfs)) p (Some tmpfs) MS_RDONLY (Some label), None)]) q in
    narrower (view w q) n ∧ (q = p → n = EmptyDir);
  view_null : ∀ w fd p q, genuine k fd → let n := view (w ++ [(MoveMount fd p, None)]) q in
    narrower (view w q) n ∧ (q = p → n = NullDevice) }.

Section view.
Context (k : Kernel) `{V : !FileView k}.

#[local] Instance narrower_preorder : PreOrder narrower.
Proof.
  split; [by left|]. intros n n' n'' H1 [->|[H|[[b' ->] ->]]]; [done|by right; left|]. right. right.
  split; [|done]. destruct H1 as [<-|[[|[|]]|[[b ->] _]]]; eauto; discriminate.
Qed.

Lemma hidden_stays n n' : hidden n → narrower n n' → hidden n'.
Proof. intros H [->|[H'|[[b ->] ->]]]; [done..|]. by destruct H as [|[]]. Qed.

Lemma readonly_stays n n' : n ≠ Content true → narrower n n' → n' ≠ Content true.
Proof. intros H [->|[[->|[->| ->]]|[[b ->] ->]]]; done. Qed.

(** Nothing more is seen in [w'] than in [w], and no device but the one of [/dev/null] was put
    over a path. *)
Definition guarded (w w' : events) : Prop :=
  (∀ p, narrower (view w p) (view w' p)) ∧
  ∃ t, w' = w ++ t ∧ ∀ fd p r, (MoveMount fd p, r) ∈ t → genuine k fd.

#[local] Instance guarded_preorder : PreOrder guarded.
Proof.
  split.
  - intros w. split; [reflexivity|]. exists []. rewrite app_nil_r. split; [done|]. by intros fd p r Hin%not_elem_of_nil.
  - intros w1 w2 w3 [Hv (t & -> & Ht)] [Hv' (t' & -> & Ht')]. split; [intros p; exact (transitivity (Hv p) (Hv' p))|].
    exists (t ++ t'). rewrite app_assoc. split; [done|]. intros fd p r [?|?]%elem_of_app; eauto.
Qed.

Lemma guarded_call w c r :
  (∀ fd p, c = MoveMount fd p → genuine k fd) →
  (∀ p, narrower (view w p) (view (w ++ [(c, r)]) p)) → guarded w (w ++ [(c, r)]).
Proof.
  intros Hc Hv. split; [done|]. exists [(c, r)]. split; [done|].
  intros fd p r' [= <- <-]%list_elem_of_singleton. eauto.
Qed.

(** One call, of which an error is harmless *)
Lemma ends_sys {E} (c : call) (e : Z → E) (Q : () → events → Prop) (X : events → Prop) w :
  (err k w c = None → Q () (w ++ [(c, None)])) → (∀ n, err k w c = Some n → X (w ++ [(c, Some n)])) →
  ends (sys k c e) Q X w.
Proof. intros HQ HX. unfold ends, sys, do. destruct (err k w c) eqn:Hc; eauto. Qed.

Lemma ends_open {E} (p : Path) (e : Z → E) (Q : Z → events → Prop) (X : events → Prop) w :
  (err k w (Open p) = None → Q (opened k w p) (w ++ [(Open p, None)])) →
  (∀ n, err k w (Open p) = Some n → X (w ++ [(Open p, Some n)])) → ends (open k p e) Q X w.
Proof.
  intros HQ HX. apply ends_then, ends_sys; [|done]. exact HQ.
Qed.

Lemma ends_attempt_sys {F} (c : call) (Q : Z + () → events → Prop) (X : events → Prop) w :
  (err k w c = None → Q (inr ()) (w ++ [(c, None)])) →
  (∀ n, err k w c = Some n → Q (inl n) (w ++ [(c, Some n)])) →
  ends (attempt (sys k c Datatypes.id) : io events F (Z + ())) Q X w.
Proof. intros HN HS. unfold ends, attempt, sys, do. destruct (err k w c) eqn:Hc; cbn; eauto. Qed.

Lemma ends_ret {E A} (a : A) (Q : A → events → Prop) (X : events → Prop) w :
  Q a w → ends (mret a : io events E A) Q X w.
Proof. done. Qed.

Lemma ends_fail {E A} (e : E) (Q : A → events → Prop) (X : events → Prop) w :
  X w → ends (pure (Err e)) Q X w.
Proof. done. Qed.

(** A loop whose iterations keep what the earlier ones have done *)
Lemma ends_each {E A} (R : events → events → Prop) `{!PreOrder R} (P : A → events → Prop)
    (f : A → io events E ()) l w :
  (∀ x w, ends (f x) (λ _ w', R w w' ∧ P x w') (R w) w) → (∀ x w w', P x w → R w w' → P x w') →
  ends (io_each f l) (λ _ w', R w w' ∧ ∀ x, x ∈ l → P x w') (R w) w.
Proof.
  intros Hf HP. revert w. induction l as [|x l IH]; intros w.
  { apply ends_ret. split; [reflexivity|]. by intros x Hx%not_elem_of_nil. }
  apply ends_then. eapply ends_mono; [| |apply Hf]; [|done]. intros [] w1 [HR Hx].
  eapply ends_mono; [| |apply IH]; [|intros w' HR'; by transitivity w1].
  intros [] w2 [HR' Hl]. split; [by transitivity w1|]. intros y [->|Hy]%elem_of_cons; eauto.
Qed.

Lemma guarded_silent w c r : changes_view c = false → guarded w (w ++ [(c, r)]).
Proof.
  intros Hc. apply guarded_call; [by intros fd p ->|]. intros p. left. by apply view_other.
Qed.

Lemma guarded_failed w c n : (∀ fd p, c = MoveMount fd p → genuine k fd) → guarded w (w ++ [(c, Some n)]).
Proof. intros Hc. apply guarded_call; [done|]. intros p. left. apply view_failed. Qed.

(** *** Paths *)

Lemma readonly_path_ends p w :
  ends (readonly_path k p) (λ _ w', guarded w w' ∧ view w' p ≠ Content true) (guarded w) w.
Proof.
  apply ends_then, ends_attempt_sys; intros.
  - assert (guarded w (w ++ [(Mount (Some p) p None (Z.lor MS_BIND MS_REC) None, None)])) as Hw.
    { apply guarded_call; [done|]. intros q. left. apply view_bind. }
    apply ends_sys; intros; [|by etransitivity; [exact Hw|apply guarded_failed]]. split.
    + etransitivity; [exact Hw|]. apply guarded_call; [done|]. intros q. apply view_remount.
    + by apply view_remount.
  - case_match eqn:He; [|by apply ends_fail, guarded_failed]. apply ends_ret.
    split; [by apply guarded_failed|]. rewrite view_failed. apply Z.eqb_eq in He as ->.
    by rewrite view_bind_absent.
Qed.

Lemma mount_from_fd_ends fd p w : genuine k fd →
  ends (mount_from_fd k fd p) (λ _ w', guarded w w' ∧ view w' p = NullDevice) (guarded w) w.
Proof.
  intros Hfd. apply ends_then. destruct (parent p) as [par|]; [|by apply ends_fail]. apply ends_ret.
  apply ends_then. destruct (file_name p); [|by apply ends_fail]. apply ends_ret.
  apply ends_then, ends_open; intros; [|by apply guarded_silent].
  apply ends_then, ends_sys; intros; [|by do 2 (etransitivity; [|by apply guarded_silent])].
  assert (guarded w ((w ++ [(Open par, None)]) ++ [(OpenTree fd, None)])) as Hw
    by (by do 2 (etransitivity; [|by apply guarded_silent])).
  case_match; [by apply ends_fail|].
  apply ends_sys; intros; [split|etransitivity; [exact Hw|]; apply guarded_failed; congruence].
  - etransitivity; [exact Hw|]. apply guarded_call; [congruence|]. intros q. by apply view_null.
  - by apply view_null.
Qed.

Lemma mask_path_ends fd label p w : genuine k fd →
  ends (mask_path k fd label p) (λ _ w', guarded w w' ∧ hidden (view w' p)) (guarded w) w.
Proof.
  intros Hfd. unfold ends, mask_path. destruct (exists_ k w p) eqn:Hp.
  2: { split; [reflexivity|]. left. by apply view_exists. }
  destruct (is_dir k w p); [apply ends_sys; intros; [split|by apply guarded_failed]|].
  - apply guarded_call; [done|]. intros q. apply view_tmpfs.
  - right. right. by apply view_tmpfs.
  - apply ends_mapped. eapply ends_mono; [| |by apply mount_from_fd_ends]; [|done].
    intros [] w' [Hw ->]. split; [done|]. right. by left.
Qed.

Lemma masked_paths_ends ps label w :
  ends (masked_paths k ps label) (λ _ w', guarded w w' ∧ ∀ p, p ∈ ps → hidden (view w' p)) (guarded w) w.
Proof.
  apply ends_then, ends_mapped, ends_then, ends_open; intros; [|by apply guarded_silent].
  apply ends_then, ends_sys; intros; [|by do 2 (etransitivity; [|by apply guarded_silent])].
  apply ends_ret. cbn beta iota.
  set (w1 := (_ ++ _) ++ _). assert (guarded w w1) as Hw by (by do 2 (etransitivity; [|by apply guarded_silent])).
  apply ends_then. destruct (verify_dev_null (stat_of k (opened k w dev_null))) as [[]|e|] eqn:Hfd; [|by apply ends_fail|].
  2: { unfold verify_dev_null in Hfd. by repeat case_bool_decide. }
  apply ends_ret. eapply ends_mono; [| |apply (ends_each guarded (λ p w, hidden (view w p)))].
  - intros [] w2 [Hw' Hps]. split; [by transitivity w1|done].
  - intros w2 Hw'. by transitivity w1.
  - intros p w2. by apply mask_path_ends.
  - intros p w2 w3 Hp [Hv _]. by eapply hidden_stays.
Qed.

(** A file that can be covered by name *)
Definition maskable (p : Path) : Prop :=
  is_Some (parent p) ∧ ∃ name, file_name p = Some name ∧ contains_char zero name = false.

Definition succeeds {E A} (m : io events E A) : Prop := ∀ w, ends m (λ _ _, True) (λ _, False) w.

Lemma succeeds_bind {E A B} (m : io events E A) (f : A → io events E B) :
  succeeds m → (∀ a, succeeds (f a)) → succeeds (m ≫= f).
Proof. intros Hm Hf w. apply ends_then. eapply ends_mono; [| |apply Hm]; [intros a w' _; apply Hf|done]. Qed.

Lemma succeeds_each {E A} (f : A → io events E ()) l : (∀ x, x ∈ l → succeeds (f x)) → succeeds (io_each f l).
Proof.
  intros Hf. induction l as [|x l IH]; [done|]. apply succeeds_bind; [apply Hf, list_elem_of_here|].
  intros []. apply IH. intros y Hy. by apply Hf, list_elem_of_further.
Qed.

(** No call fails, but a path that is to be read-only may be absent. *)
Definition only_absent : Prop :=
  ∀ w c, err k w c = None ∨
         ∃ p, c = Mount (Some p) p None (Z.lor MS_BIND MS_REC) None ∧ err k w c = Some ENOENT.

Lemma succeeds_sys {E} c (e : Z → E) :
  only_absent → (∀ p, c ≠ Mount (Some p) p None (Z.lor MS_BIND MS_REC) None) → succeeds (sys k c e).
Proof.
  intros Herr Hc w. apply ends_sys; [done|]. intros n Hn.
  destruct (Herr w c) as [?|(p & -> & _)]; [congruence|]. by destruct (Hc p).
Qed.

Lemma succeeds_open {E} p (e : Z → E) : only_absent → succeeds (open k p e).
Proof.
  intros Herr w. apply ends_then. eapply ends_mono; [| |by apply succeeds_sys]; done.
Qed.

Lemma mount_from_fd_succeeds fd p : only_absent → maskable p → succeeds (mount_from_fd k fd p).
Proof.
  intros Herr [[par Hpar] (name & Hname & Hz)] w. unfold mount_from_fd. rewrite Hpar, Hname.
  apply ends_then, ends_ret, ends_then, ends_ret. rewrite Hz. revert w.
  apply succeeds_bind; [by apply succeeds_open|]. intros _.
  apply succeeds_bind; [by apply succeeds_sys|]. intros _. by apply succeeds_sys.
Qed.

Lemma protect_succeeds readonly masked label :
  only_absent → (∀ w, genuine k (opened k w dev_null)) →
  (∀ p, p ∈ default [] masked → maskable p) → succeeds (protect k readonly masked label).
Proof.
  intros Herr Hnull Hp. apply succeeds_bind; [apply succeeds_each|intros []; destruct masked as [ps|]; [|done]].
  - intros p _ w. apply ends_then, ends_attempt_sys.
    + intros _. by apply succeeds_sys.
    + intros n Hn. destruct (Herr w (Mount (Some p) p None (Z.lor MS_BIND MS_REC) None)) as [|(q & _ & Hq)]; [congruence|]. rewrite Hq in Hn. by injection Hn as <-.
  - intros w. apply ends_then, ends_mapped, ends_then.
    apply (ends_mono _ (λ fd _, genuine k fd) _ (λ _, False)); [|done|apply ends_open; [done|]].
    2: { intros n Hn. destruct (Herr w (Open dev_null)) as [|(q & [=] & _)]. congruence. }
    intros fd w0 Hfd. apply ends_then. eapply ends_mono; [| |by apply succeeds_sys]; [|done]. intros [] w1 _. apply ends_ret.
    cbn beta iota. rewrite Hfd. apply ends_then, ends_ret. revert w1. apply succeeds_each.
    intros p Hin w2. unfold ends, mask_path. destruct (exists_ k w2 p); [|done].
    destruct (is_dir k w2 p); [by apply succeeds_sys|by apply ends_mapped, mount_from_fd_succeeds, Hp].
Qed.

(** C37: protected paths.  Whatever fails, nothing more can be seen or written than before, no
    device but the genuine null device is put over a path, and there is no panic.  On success
    the read-only paths cannot be written, and a masked path leads nowhere, to the null device
    or to an empty directory.  It succeeds if no call fails but for read-only paths that are
    absent, [/dev/null] is genuine, and the masked files have names. *)
Theorem protect_spec readonly masked label w :
  ends (protect k readonly masked label)
    (λ _ w', guarded w w' ∧ (∀ p, p ∈ default [] readonly → view w' p ≠ Content true) ∧
             ∀ p, p ∈ default [] masked → hidden (view w' p)) (guarded w) w ∧
  (only_absent → (∀ w, genuine k (opened k w dev_null)) →
   (∀ p, p ∈ default [] masked → maskable p) → is_ok (protect k readonly masked label w).1 = true).
Proof.
  split.
  - apply ends_then. eapply ends_mono; [| |apply (ends_each guarded (λ p w, view w p ≠ Content true))].
    + intros [] w1 [Hw1 Hro]. destruct masked as [ps|].
      * eapply ends_mono; [| |apply masked_paths_ends]; [|intros w2 Hw2; by transitivity w1].
        intros [] w2 [Hw2 Hps]. split; [by transitivity w1|]. split; [|done].
        intros p Hp. destruct Hw2 as [Hv _]. eapply readonly_stays; eauto.
      * apply ends_ret. split; [done|]. split; [done|]. by intros p Hp%not_elem_of_nil.
    + done.
    + intros p w1. apply readonly_path_ends.
    + intros p w1 w2 Hp [Hv _]. by eapply readonly_stays.
  - intros Herr Hnull Hp. pose proof (protect_succeeds readonly masked label Herr Hnull Hp w) as Hs.
    unfold ends in Hs. by destruct (protect k readonly masked label w) as [[] w'].
Qed.
End view.

(** *** An instance: paths without links *)

Module ExampleView.
Definition files : list (Path * node) := [
  (components "/proc", Content true); (components "/proc/kcore", Content false);
  (components "/proc/acpi", Content true); (components "/proc/acpi/wakeup", Content true);
  (components "/proc/sys", Content true)].

Definition is_bind (c : call) : option Path :=
  match c with
  | Mount (Some p) q None flags None => if decide (p = q ∧ flags = Z.lor MS_BIND MS_REC) then Some p else None
  | _ => None
  end.

(** What the last call makes of a view *)
Definition after_call (c : call) (v : Path → node) (p : Path) : node :=
  match c with
  | Mount _ q (Some _) _ _ =>
      match strip_path_prefix q p with Some [] => EmptyDir | Some _ => Absent | None => v p end
  | Mount _ q None flags _ =>
      if decide (p = q ∧ flags = REMOUNT_READONLY) then
        match v p with Content _ => Content false | n => n end
      else v p
  | MoveMount _ q => match strip_path_prefix q p with Some [] => NullDevice | Some _ => Absent | None => v p end
  | _ => v p
  end.

Definition view_of (w : events) : Path → node :=
  foldl (λ v '(c, r), match r with None => after_call c v | Some _ => v end)
    (λ p, default Absent (list_to_map (M := gmap Path node) files !! p)) w.

Definition kernel : Kernel := {|
  err := λ w c, match is_bind c with
                | Some p => if decide (view_of w p = Absent) then Some ENOENT else None
                | None => None
                end;
  opened := λ w _, Z.of_nat (length w) + 3;
  stat_of := λ _, MkStat (Z.lor RootFs.S_IFCHR 438) (RootFs.makedev 1 3) 5;
  exists_ := λ w p, bool_decide (view_of w p ≠ Absent);
  is_dir := λ w p, bool_decide (p ∈ [components "/proc"; components "/proc/acpi"; components "/proc/sys"]) |}.

Lemma view_of_snoc w c r : view_of (w ++ [(c, r)]) = match r with None => after_call c (view_of w) | Some _ => view_of w end.
Proof. unfold view_of. by rewrite foldl_app. Qed.

Lemma prefix_self p : strip_path_prefix p p = Some [].
Proof. induction p as [|c p IH]; [done|]. cbn. by rewrite decide_True. Qed.

#[export] Instance kernel_view : FileView kernel.
Proof.
  refine {| view := view_of |}.
  - intros w p Hp. cbn in Hp. by apply bool_decide_eq_false, dec_stable in Hp.
  - intros w c n p. by rewrite view_of_snoc.
  - intros w c [n|] p Hc; rewrite view_of_snoc; [done|]. by destruct c.
  - intros w p q. rewrite view_of_snoc. cbn. by rewrite decide_False by (by intros [_ ?]).
  - intros w p. cbn. rewrite decide_True by done. by case_decide.
  - intros w p q n. subst n. rewrite view_of_snoc. cbn. case_decide as Hq.
    + destruct (view_of w q) as [| | |b]; unfold narrower, hidden; naive_solver.
    + split; [by left|]. intros ->. by destruct Hq.
  - intros w p label q n. subst n. rewrite view_of_snoc. cbn [after_call].
    split; [|intros ->; by rewrite prefix_self].
    destruct (strip_path_prefix p q) as [[]|]; unfold narrower, hidden; auto.
  - intros w fd p q _ n. subst n. rewrite view_of_snoc. cbn [after_call].
    split; [|intros ->; by rewrite prefix_self].
    destruct (strip_path_prefix p q) as [[]|]; unfold narrower, hidden; auto.
Defined.

Lemma kernel_only_absent : only_absent kernel.
Proof.
  intros w c. cbn [err kernel]. destruct (is_bind c) as [p|] eqn:Hc; [|by left]. case_decide; [|by left].
  right. exists p. split; [|done]. destruct c as [[s|] q [] f []| | | | | | | | | | | | | | | | | | | | |]; try done.
  cbn in Hc. case_decide as Hd; [|done]. destruct Hd as [-> ->]. by injection Hc as ->.
Qed.

Lemma protect_spec_witness :
  let ro := Some [components "/proc/sys"; components "/proc/bus"] in
  let masked := Some [components "/proc/acpi"; components "/proc/acpi/wakeup"; components "/proc/kcore"] in
  is_ok (protect kernel ro masked None []).1 = true ∧
  ends (protect kernel ro masked None)
    (λ _ w', guarded kernel [] w' ∧ (∀ p, p ∈ default [] ro → view w' p ≠ Content true) ∧
             ∀ p, p ∈ default [] masked → hidden (view w' p)) (guarded kernel []) [].
Proof.
  intros ro masked. destruct (protect_spec kernel ro masked None []) as [Hends Hok]. split; [|done].
  apply Hok; [apply kernel_only_absent|by intros w; vm_compute|].
  intros p Hp. repeat (apply elem_of_cons in Hp as [->|Hp]; [split; [eexists; reflexivity|by eexists]|]).
  by apply not_elem_of_nil in Hp.
Defined.
End ExampleView.

(** ** Device numbers *)

Lemma ones_bits n m j : 0 ≤ n → m = Z.ones n → Z.testbit m j = bool_decide (0 ≤ j < n).
Proof.
  intros Hn ->. destruct (decide (0 ≤ j)); [|by rewrite Z.testbit_neg_r, bool_decide_eq_false_2 by lia].
  rewrite Z.testbit_ones by lia. case_bool_decide; lia.
Qed.

Lemma dev_major_bits d i : 0 ≤ i →
  Z.testbit (dev_major d) i
  = if decide (i < 12) then Z.testbit d (i + 8) else if decide (i < 32) then Z.testbit d (i + 32) else false.
Proof.
  intros Hi. unfold dev_major. rewrite Z.lor_spec, !Z.shiftr_spec, !Z.land_spec, !Z.shiftl_spec by lia.
  rewrite (ones_bits 12 4095), (ones_bits 20 1048575) by done.
  repeat case_decide; repeat case_bool_decide; try lia; by rewrite ?andb_true_r, ?andb_false_r, ?orb_false_r.
Qed.

Lemma dev_minor_bits d i : 0 ≤ i →
  Z.testbit (dev_minor d) i
  = if decide (i < 8) then Z.testbit d i else if decide (i < 32) then Z.testbit d (i + 12) else false.
Proof.
  intros Hi. unfold dev_minor. rewrite Z.lor_spec, !Z.shiftr_spec, !Z.land_spec, !Z.shiftl_spec by lia.
  rewrite (ones_bits 8 255), (ones_bits 24 16777215) by done.
  repeat case_decide; repeat case_bool_decide; try lia; by rewrite ?andb_true_r, ?andb_false_r, ?orb_false_r.
Qed.

Lemma dev_numbers_range d : in_u 32 (dev_major d) ∧ in_u 32 (dev_minor d).
Proof.
  split; apply in_u_bits; try lia; intros i Hi; [rewrite dev_major_bits by lia|rewrite dev_minor_bits by lia];
    by rewrite !decide_False by lia.
Qed.

(** A device number is the one of its parts. *)
Lemma makedev_parts d : in_u 64 d → RootFs.makedev (dev_major d) (dev_minor d) = d.
Proof.
  intros Hd. destruct (dev_numbers_range d) as [Hma Hmi]. apply Z.bits_inj'. intros i Hi.
  destruct (decide (i < 64)).
  - rewrite RootFs.makedev_bits by (done || lia). repeat case_decide;
      ((rewrite dev_major_bits by lia) || (rewrite dev_minor_bits by lia)); repeat case_decide; try lia; f_equal; lia.
  - assert (in_u 64 (RootFs.makedev (dev_major d) (dev_minor d))) as Hm by (apply uwrap_range; lia).
    rewrite !(proj1 (in_u_bits 64 _ ltac:(lia))) by (done || lia). done.
Qed.

(** The accepted devices are the character devices with the number of the null device that a
    container is given. *)
Lemma verify_dev_null_spec stat : in_u 64 (st_rdev stat) →
  ok_iff (verify_dev_null stat)
    (Z.land (st_mode stat) S_IFMT = RootFs.S_IFCHR ∧ st_rdev stat = RootFs.makedev 1 3).
Proof.
  intros Hd. unfold verify_dev_null. case_bool_decide as Hm; [by intros [? _]|]. case_bool_decide as Hn; cbn [ok_iff].
  - intros [_ Heq]. rewrite Heq in Hn. by destruct Hn as [[]|[]].
  - split; [done|]. rewrite <- (makedev_parts _ Hd). f_equal; lia.
Qed.

(** ** The root directory

    The directories are those that are mounted.  [covering w d] is what is mounted on [d];
    [shared w d] says that to unmount [d] unmounts it for the host too. *)
Class RootView (k : Kernel) : Type := {
  dir : Type;
  root_dir : events → dir;
  cwd_dir : events → dir;
  covering : events → dir → option dir;
  attached : events → dir → Prop;
  shared : events → dir → Prop;
  host_changed : events → Prop;
  lookup_dir : events → Path → dir;
  dir_of : Z → dir;
  (** a path leads to what is on top *)
  lookup_top : ∀ w p, covering w (lookup_dir w p) = None;
  lookup_root : ∀ w, covering w (root_dir w) = None → lookup_dir w root = root_dir w;
  open_dir : ∀ w p, dir_of (opened k w p) = lookup_dir w p;
  (** what a call can change *)
  root_kept : ∀ w c r, (r = None → match c with PivotRoot _ _ | Chroot _ => False | _ => True end) →
    root_dir (w ++ [(c, r)]) = root_dir w;
  cwd_kept : ∀ w c r, (r = None → match c with PivotRoot _ _ | Fchdir _ | Chdir _ => False | _ => True end) →
    cwd_dir (w ++ [(c, r)]) = cwd_dir w;
  covering_kept : ∀ w c r d,
    (r = None → match c with PivotRoot _ _ | MoveMount _ _ => False | Mount _ p _ _ _ => d ≠ lookup_dir w p | _ => True end) →
    covering w d = None → covering (w ++ [(c, r)]) d = None;
  host_kept : ∀ w c r, (r = None → match c with Umount2 _ _ => False | _ => True end) →
    host_changed (w ++ [(c, r)]) → host_changed w;
  (** what it makes of it *)
  fchdir_law : ∀ w fd, cwd_dir (w ++ [(Fchdir fd, None)]) = dir_of fd;
  chdir_law : ∀ w p, cwd_dir (w ++ [(Chdir p, None)]) = lookup_dir w p;
  chroot_law : ∀ w, root_dir (w ++ [(Chroot here, None)]) = cwd_dir w;
  chroot_path_law : ∀ w p, p ≠ here → root_dir (w ++ [(Chroot p, None)]) = lookup_dir w p;
  (** the old root is put on top of the new one *)
  pivot_law : ∀ w, err k w (PivotRoot here here) = None → let w' := w ++ [(PivotRoot here here, None)] in
    root_dir w' = cwd_dir w ∧ covering w' (cwd_dir w) = Some (root_dir w);
  covering_root : ∀ w c d, covering w (root_dir w) = Some d →
    match c with Fchdir _ | Mount None _ None _ _ => True | _ => False end →
    covering (w ++ [(c, None)]) (root_dir w) = Some d;
  slave_law : ∀ w, ¬ shared (w ++ [(Mount None here None (Z.lor MS_SLAVE MS_REC) None, None)]) (cwd_dir w);
  detach_law : ∀ w, let w' := w ++ [(Umount2 here MNT_DETACH, None)] in
    ¬ attached w' (cwd_dir w) ∧ (host_changed w' → host_changed w ∨ shared w (cwd_dir w)) ∧
    (∀ d, covering w d = Some (cwd_dir w) → covering w' d = None);
  attached_kept : ∀ w d p, attached (w ++ [(Chdir p, None)]) d → attached w d }.

Section root.
Context (k : Kernel) `{R : !RootView k}.

(** The mounts of the host are still there. *)
Definition calm (w w' : events) : Prop := host_changed w' → host_changed w.

Lemma calm_call w w' c r : calm w w' → (r = None → match c with Umount2 _ _ => False | _ => True end) →
  calm w (w' ++ [(c, r)]).
Proof. intros Hw Hc H. by eapply Hw, host_kept. Qed.

Lemma calm_refl w : calm w w.
Proof. by intros H. Qed.

#[local] Hint Resolve calm_refl : core.

(** The second half of [pivot_rootfs]: the old root is on top of the new one. *)
Lemma leave_oldroot_ends oldroot old new w :
  dir_of oldroot = old → root_dir w = new → covering w new = Some old →
  ends (_ ← sys k (Fchdir oldroot) Datatypes.id;
        _ ← sys k (Mount None here None (Z.lor MS_SLAVE MS_REC) None) Datatypes.id;
        _ ← sys k (Umount2 here MNT_DETACH) Datatypes.id;
        sys k (Chdir root) Datatypes.id : io events Z ())
    (λ _ w', root_dir w' = new ∧ cwd_dir w' = new ∧ ¬ attached w' old ∧ calm w w') (calm w) w.
Proof.
  intros Hold Hr Ho. apply ends_then, ends_sys; intros; [|by apply calm_call].
  set (w1 := w ++ _). assert (root_dir w1 = new) as Hr1 by (rewrite <- Hr; by apply root_kept).
  assert (cwd_dir w1 = old) as Hc1 by (unfold w1; by rewrite fchdir_law).
  assert (covering w1 new = Some old) as Ho1 by (rewrite <- Hr; apply covering_root; [by rewrite Hr|done]).
  assert (calm w w1) as Hh1 by (by apply calm_call).
  apply ends_then, ends_sys; intros; [|by apply calm_call].
  pose proof (slave_law w1) as Hs2. set (w2 := w1 ++ _) in *.
  assert (root_dir w2 = new) as Hr2 by (rewrite <- Hr1; by apply root_kept).
  assert (cwd_dir w2 = old) as Hc2 by (rewrite <- Hc1; by apply cwd_kept).
  assert (covering w2 new = Some old) as Ho2 by (rewrite <- Hr1; apply covering_root; [by rewrite Hr1|done]).
  assert (calm w w2) as Hh2 by (by apply calm_call).
  apply ends_then, ends_sys; intros; [|by apply calm_call].
  destruct (detach_law w2) as (Ha3 & Hh3 & Ho3). set (w3 := w2 ++ _) in *. rewrite Hc2 in Ha3, Hh3, Ho3.
  rewrite Hc1 in Hs2. specialize (Ho3 _ Ho2).
  assert (root_dir w3 = new) as Hr3 by (rewrite <- Hr2; by apply root_kept).
  assert (calm w w3) as Hh3' by (intros [|]%Hh3; [by apply Hh2|tauto]).
  apply ends_sys; intros; [|by apply calm_call]. split; [rewrite <- Hr3; by apply root_kept|].
  split; [rewrite chdir_law, lookup_root by (by rewrite Hr3); done|].
  split; [by intros ?%attached_kept|by apply calm_call].
Qed.

Lemma pivot_rootfs_ends path w : covering w (root_dir w) = None →
  ends (pivot_rootfs k path)
    (λ _ w', let new := lookup_dir (w ++ [(Open root, None)]) path in
             root_dir w' = new ∧ cwd_dir w' = new ∧ ¬ attached w' (root_dir w) ∧ calm w w') (calm w) w.
Proof.
  intros Htop. assert (dir_of (opened k w root) = root_dir w) as Hold by (by rewrite open_dir, lookup_root).
  apply ends_then, ends_open; intros; [|by apply calm_call].
  set (w1 := w ++ [(Open root, None)]).
  assert (dir_of (opened k w1 path) = lookup_dir w1 path) as Hnew by (by rewrite open_dir).
  set (new := lookup_dir w1 path) in *. assert (root_dir w1 = root_dir w) as Hr1 by (by apply root_kept).
  assert (calm w w1) as Hh1 by (by apply calm_call).
  apply ends_then, ends_open; intros; [|by apply calm_call].
  set (w2 := w1 ++ _). assert (root_dir w2 = root_dir w) as Hr2 by (rewrite <- Hr1; by apply root_kept).
  assert (calm w w2) as Hh2 by (by apply calm_call).
  apply ends_then, ends_sys; intros; [|by apply calm_call].
  set (w3 := w2 ++ _). assert (root_dir w3 = root_dir w) as Hr3 by (rewrite <- Hr2; by apply root_kept).
  assert (cwd_dir w3 = new) as Hc3 by (unfold w3; by rewrite fchdir_law).
  assert (calm w w3) as Hh3 by (by apply calm_call).
  apply ends_then, ends_sys; [intros Hpivot|intros; by apply calm_call].
  destruct (pivot_law w3 Hpivot) as [Hr4 Ho4]. set (w4 := w3 ++ _) in *. rewrite Hc3 in Hr4, Ho4. rewrite Hr3 in Ho4.
  assert (calm w w4) as Hh4 by (by apply calm_call).
  eapply ends_mono; [| |apply (leave_oldroot_ends _ (root_dir w) new); done].
  - intros [] w5 (? & ? & ? & Hh5). repeat split; try done. intros ?. by apply Hh4, Hh5.
  - intros w5 Hh5 ?. by apply Hh4, Hh5.
Qed.

(** [/sys] or [/proc] of the host is unmounted or hidden. *)
Definition covered (p : Path) (t : events) : Prop :=
  (Umount2 p MNT_DETACH, None) ∈ t ∨ (Mount None p (Some tmpfs) MS_RDONLY (Some "size=0k"), None) ∈ t.

Definition about (p : Path) (ev : call * option Z) : Prop :=
  match ev.1 with Umount2 q _ => q = p | Mount None q (Some _) _ _ => q = p | _ => False end.

Lemma unmount_or_hide_runs p :
  runs (unmount_or_hide k p) (λ r t, r ≠ Panic ∧ (r = Ok () → covered p t) ∧
    Forall (about p) t).
Proof.
  apply runs_bind, runs_attempt, runs_do; cbn.
  - apply runs_pure. split; [done|]. split; [|by repeat constructor]. intros _. left. apply list_elem_of_here.
  - intros n. case_match.
    + apply runs_do; [|intros m]; (split; [done|]; split; [|by repeat constructor]); [|done].
      intros _. right. by apply list_elem_of_further, list_elem_of_here.
    + apply runs_pure. split; [done|]. split; [done|]. by repeat constructor.
Qed.

(** What [move_root] does before the root is moved *)
Definition early (ev : call * option Z) : Prop :=
  match ev.1 with
  | Chdir _ => True
  | Umount2 p _ | Mount None p (Some _) _ _ => p = components "/sys" ∨ p = components "/proc"
  | _ => False
  end.

(** The directory [d] is none of [/], [/sys] and [/proc] of the host. *)
Definition apart (w : events) (d : dir) : Prop :=
  ∀ t p, Forall early t → p ∈ [root; components "/sys"; components "/proc"] → d ≠ lookup_dir (w ++ t) p.

(** The process is in [d], on which nothing is mounted. *)
Definition entered (d : dir) (w w' : events) : Prop :=
  (∃ t, w' = w ++ t ∧ Forall early t) ∧ cwd_dir w' = d ∧ covering w' d = None.

Lemma entered_about d p w w' t : apart w d → p = components "/sys" ∨ p = components "/proc" →
  entered d w w' → Forall (about p) t → entered d w (w' ++ t).
Proof.
  intros Hd Hp Hw Ht. induction t as [|[c r] t IH] using rev_ind; [by rewrite app_nil_r|].
  apply Forall_app in Ht as [Ht Hc]. rewrite Forall_singleton in Hc.
  destruct (IH Ht) as ((t0 & Heq & Hearly) & Hcwd & Ho). rewrite app_assoc, Heq in *.
  unfold about in Hc; cbn in Hc. split; [|split].
  - exists (t0 ++ [(c, r)]). rewrite app_assoc. split; [done|]. apply Forall_app. split; [done|].
    apply Forall_singleton. by destruct c as [[] ? []| | | | | | | | | | | | | | | | | | | | |]; subst.
  - rewrite <- Hcwd. apply cwd_kept. intros _. by destruct c.
  - apply covering_kept; [|done]. intros _.
    destruct c as [[] ? []| | | | | | | | | | | | | | | | | | | | |]; try done; subst; apply Hd; set_solver.
Qed.

Lemma unmount_or_hide_ends d p w w' (Q : () → events → Prop) :
  apart w d → p = components "/sys" ∨ p = components "/proc" → entered d w w' →
  (∀ t, covered p t → entered d w (w' ++ t) → Q () (w' ++ t)) →
  ends (unmount_or_hide k p) Q (λ _, True) w'.
Proof.
  intros Hd Hp Hw HQ. destruct (unmount_or_hide_runs p w') as (t & Ht & Hpanic & Hok & Habout). unfold ends.
  destruct (unmount_or_hide k p w') as [[[]|e|] w'']; cbn in *; subst; [|done..].
  apply HQ; [by apply Hok|]. by eapply entered_about.
Qed.

(** Both were covered before the root was moved. *)
Definition hidden_first (rootfs : Path) (w w' : events) : Prop :=
  ∃ t1 t2, w' = w ++ t1 ++ (Mount (Some rootfs) root None MS_MOVE None, None) :: t2 ∧
    Forall early t1 ∧ covered (components "/sys") t1 ∧ covered (components "/proc") t1.

Lemma move_root_ends rootfs w : apart w (lookup_dir w rootfs) →
  ends (move_root k rootfs)
    (λ _ w', root_dir w' = lookup_dir w rootfs ∧ cwd_dir w' = lookup_dir w rootfs ∧ hidden_first rootfs w w')
    (λ _, True) w.
Proof.
  set (d := lookup_dir w rootfs). intros Hd. apply ends_then, ends_sys; intros; [|done].
  set (w1 := w ++ [(Chdir rootfs, None)]). assert (entered d w w1) as Hw1.
  { split; [by exists [(Chdir rootfs, None)]; split; [|repeat constructor]|].
    split; [unfold w1; by rewrite chdir_law|].
    apply covering_kept; [done|]. apply lookup_top. }
  apply ends_then, (unmount_or_hide_ends d _ w); [done|by left|done|]. intros t2 Hc2 Hw2.
  apply ends_then, (unmount_or_hide_ends d _ w); [done|by right|done|]. intros t3 Hc3 Hw3.
  set (w3 := (w1 ++ t2) ++ t3) in *. apply ends_then, ends_sys; intros; [|done].
  destruct Hw3 as ((t & Ht & Hearly) & Hd3 & Ho3). set (w4 := w3 ++ _).
  assert (cwd_dir w4 = d) as Hd4 by (rewrite <- Hd3; by apply cwd_kept).
  assert (covering w4 d = None) as Ho4
    by (apply covering_kept; [intros _; rewrite Ht; apply Hd; [done|set_solver]|done]).
  apply ends_then, ends_sys; intros; [|done]. set (w5 := w4 ++ _).
  assert (root_dir w5 = d) as Hr5 by (unfold w5; by rewrite chroot_law).
  assert (covering w5 d = None) as Ho5 by (by apply covering_kept).
  apply ends_sys; intros; [|done]. split; [rewrite <- Hr5; by apply root_kept|].
  split; [rewrite chdir_law, lookup_root by (by rewrite Hr5); done|].
  exists t. eexists. split; [unfold w5, w4; rewrite Ht, <- !app_assoc; reflexivity|]. split; [done|].
  assert (t = [(Chdir rootfs, None)] ++ t2 ++ t3) as ->.
  { apply (app_inv_head w). rewrite <- Ht. unfold w3, w1. by rewrite <- !app_assoc. }
  unfold covered in *. rewrite !elem_of_app. tauto.
Qed.

(** C38: entering the root of the container.  With a mount namespace, when the change of the
    root succeeds, the root and the working directory are the one of the container.  With
    [pivot_root], the old root is then not attached any more, and the mounts of the host are
    untouched, also when it fails.  Without [pivot_root], [/sys] and [/proc] of the host were
    unmounted or hidden before the root was moved; nothing is said about the old root, which
    stays below the new one.  Without a mount namespace only the root directory is changed:
    the working directory stays where it was, and nothing is detached.  There is no panic. *)
Theorem do_pivot_root_spec (ns : Namespaces) (no_pivot : bool) rootfs w :
  covering w (root_dir w) = None → apart w (lookup_dir w rootfs) → rootfs ≠ here →
  let within := λ (d : dir) (w' : events), root_dir w' = d ∧ cwd_dir w' = d in
  match ns !! NsMount with
  | Some _ =>
      if no_pivot then
        ends (do_pivot_root k ns no_pivot rootfs)
          (λ _ w', within (lookup_dir w rootfs) w' ∧ hidden_first rootfs w w') (λ _, True) w
      else
        ends (do_pivot_root k ns no_pivot rootfs)
          (λ _ w', within (lookup_dir (w ++ [(Open root, None)]) rootfs) w' ∧
             ¬ attached w' (root_dir w) ∧ (host_changed w' → host_changed w))
          (λ w', host_changed w' → host_changed w) w
  | None =>
      ends (do_pivot_root k ns no_pivot rootfs)
        (λ _ w', root_dir w' = lookup_dir w rootfs ∧ cwd_dir w' = cwd_dir w) (λ _, True) w
  end.
Proof.
  intros Htop Hd Hr within. unfold do_pivot_root. destruct (ns !! NsMount); [destruct no_pivot|].
  - eapply ends_mono; [| |by apply move_root_ends]; [|done]. by intros [] w' (? & ? & ?).
  - apply ends_mapped. eapply ends_mono; [| |by apply pivot_rootfs_ends]; [|done].
    by intros [] w' (? & ? & ? & ?).
  - apply ends_sys; [|done]. intros _. split; [by apply chroot_path_law|by apply cwd_kept].
Qed.
End root.

Module ExampleRoot.
(** Directory 1 is the root of the host, 2 the one of the container. *)
Record state : Type := MkState {
  at_root : Z; at_cwd : Z; stacked : option (Z * Z); mounted : list Z; peers : list Z; host : bool }.

Definition rootfs : Path := components "/run/rootfs".

Definition over (s : state) (d : Z) : option Z :=
  match stacked s with Some (lo, up) => if decide (d = lo ∧ lo ≠ up) then Some up else None | None => None end.

Definition look (s : state) (p : Path) : Z :=
  let d := if decide (p = root) then at_root s else if decide (p = rootfs) then 2 else 3 in default d (over s d).

Definition act (s : state) (c : call) : state :=
  let '(MkState r d o m sh h) := s in
  match c with
  | Fchdir fd => MkState r fd o m sh h
  | Chdir p => MkState r (look s p) o m sh h
  | Chroot p => MkState (if decide (p = here) then d else look s p) d o m sh h
  | PivotRoot _ _ => if decide (d = r) then s else MkState d d (Some (d, r)) m sh h
  | Mount None p None _ _ =>
      if decide (p = here) then MkState r d o m (List.filter (λ x, negb (x =? d)) sh) h else s
  | Umount2 p _ =>
      if decide (p = here) then
        MkState r d (match o with Some (lo, up) => if decide (up = d) then None else o | None => None end)
          (List.filter (λ x, negb (x =? d)) m) sh (h || bool_decide (d ∈ sh))
      else s
  | _ => s
  end.

Definition state_of (w : events) : state :=
  foldl (λ s '(c, r), match r with None => act s c | Some _ => s end) (MkState 1 1 None [1; 2] [1] false) w.

Definition kernel : Kernel := {|
  err := λ w c, match c with
                | PivotRoot _ _ => if decide (at_cwd (state_of w) = at_root (state_of w)) then Some 16 else None
                | _ => None
                end;
  opened := λ w p, look (state_of w) p;
  stat_of := λ _, MkStat 0 0 0; exists_ := λ _ _, true; is_dir := λ _ _, true |}.

Lemma state_of_snoc w c r : state_of (w ++ [(c, r)]) = match r with None => act (state_of w) c | Some _ => state_of w end.
Proof. unfold state_of. by rewrite foldl_app. Qed.

Lemma over_look s p : over s (look s p) = None.
Proof.
  unfold look. set (d := if decide (p = root) then _ else _). unfold over. destruct (stacked s) as [[lo up]|]; [|done].
  case_decide as Hd; cbn; case_decide as Hd'; naive_solver.
Qed.

Lemma not_in_filter (d : Z) l : d ∉ List.filter (λ x, negb (x =? d)) l.
Proof. rewrite list_elem_of_In, filter_In. intros [_ H]. by rewrite Z.eqb_refl in H. Qed.

#[export] Instance kernel_root : RootView kernel.
Proof.
  refine {| dir := Z; root_dir := at_root ∘ state_of; cwd_dir := at_cwd ∘ state_of;
            covering := λ w, over (state_of w); attached := λ w d, d ∈ mounted (state_of w);
            shared := λ w d, d ∈ peers (state_of w); host_changed := λ w, host (state_of w) = true;
            lookup_dir := λ w, look (state_of w); dir_of := Datatypes.id |}; cbn [compose].
  - intros w p. apply over_look.
  - intros w Hw. unfold look. rewrite decide_True by done. by rewrite Hw.
  - done.
  - intros w c r Hc. rewrite state_of_snoc. destruct r; [done|]. specialize (Hc eq_refl).
    destruct (state_of w), c as [[] ? []| | | | | | | | | | | | | | | | | | | | |]; try done; cbn; by case_decide.
  - intros w c r Hc. rewrite state_of_snoc. destruct r; [done|]. specialize (Hc eq_refl).
    destruct (state_of w), c as [[] ? []| | | | | | | | | | | | | | | | | | | | |]; try done; cbn; by case_decide.
  - intros w c r d Hc Ho. rewrite state_of_snoc. destruct r; [done|]. specialize (Hc eq_refl).
    destruct (state_of w) as [r d' o m sh h], c as [[] ? []| | | | | | | | | | | | | | | | | | | | |]; try done; cbn;
      try by case_decide.
    case_decide; [|done]. unfold over in *. cbn in *. destruct o as [[lo up]|]; [|done]. by destruct (decide (up = d')).
  - intros w c r Hc. rewrite state_of_snoc. destruct r; [done|]. specialize (Hc eq_refl).
    destruct (state_of w), c as [[] ? []| | | | | | | | | | | | | | | | | | | | |]; try done; cbn; repeat case_decide; done.
  - intros w fd. rewrite state_of_snoc. by destruct (state_of w).
  - intros w p. rewrite state_of_snoc. by destruct (state_of w).
  - intros w. rewrite state_of_snoc. by destruct (state_of w).
  - intros w p Hp. rewrite state_of_snoc. destruct (state_of w); cbn. by rewrite decide_False.
  - intros w. cbn [err kernel]. intros Hne. rewrite state_of_snoc. case_decide as Hd; [done|].
    destruct (state_of w) as [r d o m sh h]; cbn in *. rewrite decide_False by done.
    split; [done|]. unfold over; cbn. by rewrite decide_True.
  - intros w c d Ho Hc. rewrite state_of_snoc.
    destruct (state_of w), c as [[] ? []| | | | | | | | | | | | | | | | | | | | |]; try done; cbn; by case_decide.
  - intros w. rewrite state_of_snoc. destruct (state_of w); cbn. apply not_in_filter.
  - intros w. rewrite state_of_snoc. destruct (state_of w) as [r d o m sh h]; cbn.
    split; [apply not_in_filter|]. split.
    + intros [->|Hsh%bool_decide_eq_true]%orb_true_iff; auto.
    + intros x. unfold over; cbn. destruct o as [[lo up]|]; [|done]. case_decide as Hx; [|done].
      intros [= Hup]. by destruct (decide (up = d)).
  - intros w d p. rewrite state_of_snoc. by destruct (state_of w).
Defined.

Lemma early_state t : Forall early t → at_root (state_of t) = 1 ∧ stacked (state_of t) = None.
Proof.
  induction t as [|[c r] t IH] using rev_ind; [done|]. intros [Ht Hc]%Forall_app. specialize (IH Ht).
  rewrite Forall_singleton in Hc. rewrite state_of_snoc. destruct r; [done|]. unfold early in Hc; cbn in Hc.
  destruct (state_of t), c as [[] ? []| | | | | | | | | | | | | | | | | | | | |]; try done; cbn.
  by destruct Hc as [-> | ->].
Qed.

Lemma rootfs_apart : apart kernel [] (2 : Z).
Proof.
  intros t p Ht Hp. destruct (early_state t Ht) as [Hr Hs]. change (2 ≠ look (state_of t) p). unfold look, over. rewrite Hr, Hs.
  set_unfold in Hp. by destruct Hp as [->|[->|[->|[]]]].
Qed.

Lemma do_pivot_root_spec_witness :
  let ns := namespaces_try_from (Some [MkNamespace NsMount None]) in
  is_ok (do_pivot_root kernel ns false rootfs []).1 = true ∧
  ends (do_pivot_root kernel ns false rootfs)
    (λ _ w', (root_dir w' = (2 : Z) ∧ cwd_dir w' = (2 : Z)) ∧ ¬ attached w' (1 : Z) ∧
             (host_changed w' → host_changed [])) (λ w', host_changed w' → host_changed []) [].
Proof.
  split; [by vm_compute|].
  exact (do_pivot_root_spec kernel (namespaces_try_from (Some [MkNamespace NsMount None])) false rootfs []
           eq_refl rootfs_apart ltac:(done)).
Defined.
End ExampleRoot.

(** ** Streams, groups, users and descriptors *)

Section others.
Context (k : Kernel).

Lemma runs_open {E} p (e : Z → E) (Q : outcome E Z → events → Prop) :
  (∀ fd, Q (Ok fd) [(Open p, None)]) → (∀ n, Q (Err (e n)) [(Open p, Some n)]) → runs (open k p e) Q.
Proof.
  intros Hok Herr w. unfold open, sys, do, mbind, io_bind, mret, io_ret.
  destruct (err k w (Open p)); cbn; eexists; split; try reflexivity; eauto.
Qed.

Lemma runs_each {A} (P : call * option Z → Prop) (Q : A → events → Prop) (f : A → io events InitProcessError ()) l :
  (∀ x, x ∈ l → runs (f x) (λ r t, r ≠ Panic ∧ Forall P t ∧ (r = Ok () → Q x t))) →
  (∀ x t1 t2 t3, Q x t2 → Q x (t1 ++ t2 ++ t3)) →
  runs (io_each f l) (λ r t, r ≠ Panic ∧ Forall P t ∧ (r = Ok () → ∀ x, x ∈ l → Q x t)).
Proof.
  intros Hf HQ. induction l as [|x l IH].
  { apply runs_pure. split; [done|]. split; [done|]. by intros _ x Hx%not_elem_of_nil. }
  apply runs_bind. eapply runs_mono; [apply Hf, list_elem_of_here|]. intros [[]|e|] t (Hp & Ht & Hx); [|done..].
  eapply runs_mono; [apply IH; intros y Hy; by apply Hf, list_elem_of_further|].
  intros r t' (Hp' & Ht' & Hl). split; [done|]. split; [by apply Forall_app|].
  intros Hr y [->|Hy]%elem_of_cons.
  - apply (HQ x [] t t'). by apply Hx.
  - specialize (HQ y t t' [] (Hl Hr y Hy)). by rewrite app_nil_r in HQ.
Qed.

(** The streams that are the null device, and only they, become the one of the container;
    nothing is changed unless that one is genuine. *)
Lemma reopen_dev_null_runs :
  runs (reopen_dev_null k) (λ r t, r ≠ Panic ∧
    (∀ fd s n, (Dup2 fd s, n) ∈ t → genuine k fd ∧ s ∈ [0; 1; 2] ∧ st_rdev (stat_of k s) = st_rdev (stat_of k fd)) ∧
    (r = Ok () → ∃ fd, genuine k fd ∧ ∀ s, s ∈ [0; 1; 2] → st_rdev (stat_of k s) = st_rdev (stat_of k fd) →
                 (Dup2 fd s, None) ∈ t)).
Proof.
  apply runs_bind, runs_open; [intros fd|set_solver]. apply runs_bind, runs_do; [|set_solver].
  apply runs_bind. destruct (verify_dev_null (stat_of k fd)) as [[]|e|] eqn:Hfd; [|by apply runs_pure; set_solver|].
  2: { unfold verify_dev_null in Hfd. by repeat case_bool_decide. }
  apply runs_pure. set (P := λ ev : call * option Z, ∀ fd' s, ev.1 = Dup2 fd' s →
    fd' = fd ∧ s ∈ [0; 1; 2] ∧ st_rdev (stat_of k s) = st_rdev (stat_of k fd)).
  eapply runs_mono; [apply (runs_each P (λ s t, st_rdev (stat_of k s) = st_rdev (stat_of k fd) → (Dup2 fd s, None) ∈ t))|].
  - intros s Hs. assert (∀ n, P (Fstat s, n)) as HF by done. apply runs_bind, runs_do; [case_match eqn:He|intros n].
    + apply Z.eqb_eq in He. assert (∀ n, P (Dup2 fd s, n)) as HD by (intros n fd' s' [= <- <-]; done).
      apply runs_do; [|intros n]; cbn [app]; rewrite !Forall_cons; set_solver.
    + apply Z.eqb_neq in He. apply runs_pure. cbn [app]. rewrite !Forall_cons. naive_solver.
    + rewrite !Forall_cons. naive_solver.
  - intros s t1 t2 t3 H Heq. rewrite !elem_of_app. auto.
  - intros r t (Hp & Ht & Hok). split; [done|]. rewrite Forall_forall in Ht. split.
    + intros fd' s n Hin. destruct (Ht (Dup2 fd' s, n)) with fd' s as (-> & ?); [set_solver|done..].
    + intros Hr. exists fd. split; [done|]. intros s Hs Heq. rewrite !elem_of_app. right. right. right. by apply Hok.
Qed.

(** Supplementary groups of an accepted configuration: the unreachable case is not reached,
    the groups are set only if that is not denied, and exactly to the configured ones. *)
Lemma set_supplementary_gids_runs path_env exists_ rootless spec l pr c setgroups :
  linux spec = Some l → process spec = Some pr → user_ns_new path_env exists_ rootless spec = Ok c →
  runs (set_supplementary_gids k setgroups (user pr) c) (λ r t, r ≠ Panic ∧
    (∀ gids n, (Setgroups gids, n) ∈ t → additional_gids (user pr) = Some gids ∧ trim setgroups ≠ "deny") ∧
    (r = Ok () → ∀ g gids, additional_gids (user pr) = Some (g :: gids) → (Setgroups (g :: gids), None) ∈ t)).
Proof.
  intros Hl Hpr Hc. destruct (Creation.user_ns_new_agrees _ _ _ _ _ _ _ Hl Hpr Hc) as [_ Hu].
  unfold set_supplementary_gids, Processes.unreachable_gids in *.
  destruct (additional_gids (user pr)) as [[|g gids]|]; [by apply runs_pure; set_solver| |by apply runs_pure; set_solver].
  apply runs_bind, runs_do; [|set_solver]. apply runs_bind, runs_do; [|set_solver].
  case_bool_decide as Hd; [by apply runs_pure; set_solver|].
  assert (runs (sys k (Setgroups (g :: gids)) SyscallOther) (λ r t, r ≠ Panic ∧
    (∀ gids' n, (Setgroups gids', n) ∈ t → Some (g :: gids) = Some gids' ∧ trim setgroups ≠ "deny") ∧
    (r = Ok () → ∀ g' gids', Some (g :: gids) = Some (g' :: gids') → (Setgroups (g' :: gids'), None) ∈ t))) as Hset.
  { apply runs_do; [|intros n]; set_solver. }
  assert (from_option (λ r, privileged r) true c = true) as Hp.
  { destruct c as [c0|]; [|done]. cbn in *. by apply negb_false_iff. }
  eapply runs_mono; [destruct c as [r|]; [cbn in Hp; rewrite Hp|]; exact Hset|].
  cbn beta. intros r t. set_solver.
Qed.

(** The group is changed before the user, whose change gives up the right to do so, and the
    capabilities are kept until both are changed. *)
Lemma set_id_runs uid gid :
  runs (set_id k uid gid) (λ r t, r ≠ Panic ∧
    (r = Ok () → t = (λ c, (c, None)) <$>
       [SetKeepCaps true; Setresgid gid; Setresuid uid] ++ (if uid =? 0 then [] else [ResetEffective])
       ++ [SetKeepCaps false])).
Proof.
  do 3 (apply runs_bind, runs_do; [|done]). apply runs_bind. destruct (uid =? 0).
  - apply runs_pure, runs_do; done.
  - apply runs_do; [|done]. apply runs_do; done.
Qed.
End others.

(** *** Descriptors that the program inherits *)

(** [inherited w] are the descriptors that stay open when a program is executed.  To mark a
    descriptor fails only if it is not open. *)
Class Descriptors (k : Kernel) (entries : list string) : Type := {
  inherited : events → gset Z;
  inherited_listed : ∀ w fd, fd ∈ inherited w → pretty fd ∈ entries ∧ 0 ≤ fd < 2 ^ 31;
  close_range_law : ∀ w first fd,
    fd ∈ inherited (w ++ [(CloseRange first, None)]) ↔ fd ∈ inherited w ∧ fd < first;
  cloexec_law : ∀ w fd r, inherited (w ++ [(SetCloexec fd, r)]) = inherited w ∖ {[fd]};
  inherited_kept : ∀ w c r, (r = None → match c with CloseRange _ | Dup2 _ _ => False | _ => True end) →
    match c with SetCloexec _ => False | _ => True end → inherited (w ++ [(c, r)]) = inherited w }.

Section descriptors.
Context (k : Kernel) (entries : list string) `{D : !Descriptors k entries}.

Lemma mark_all_ends l w :
  ends (io_each (λ fd, _ ← attempt (sys k (SetCloexec fd) Datatypes.id : io events Z ()); mret ()) l : io events Z ())
    (λ _ w', inherited w' = inherited w ∖ list_to_set l) (λ _, False) w.
Proof.
  revert w. induction l as [|fd l IH]; intros w; [apply ends_ret; set_solver|].
  apply ends_then, ends_then. apply ends_attempt_sys; intros; apply ends_ret;
    (eapply ends_mono; [| |apply IH]; [|done]; intros [] w' ->; rewrite cloexec_law; set_solver).
Qed.

(** The fallback marks what the system call would close: the standard streams and the
    descriptors to preserve are inherited, and no others; nothing changes on failure. *)
Lemma close_range_ends preserve_fds w : 0 ≤ preserve_fds < 2 ^ 31 - 3 →
  ends (close_range k entries preserve_fds)
    (λ _ w', ∀ fd, fd ∈ inherited w' ↔ fd ∈ inherited w ∧ fd < 3 + preserve_fds)
    (λ w', inherited w' = inherited w) w.
Proof.
  intros Hp. unfold close_range. rewrite (swrap_small 32), uwrap_small by (unfold in_u; lia).
  apply ends_then, ends_attempt_sys; intros.
  { apply ends_ret. intros fd. apply close_range_law. }
  case_match; [|apply ends_fail; by apply inherited_kept].
  assert (inherited (w ++ [(CloseRange (3 + preserve_fds), Some n)]) = inherited w) as Hw by (by apply inherited_kept).
  set (w1 := w ++ _) in *. apply ends_then, ends_then, ends_sys; [|intros; rewrite <- Hw; by apply inherited_kept].
  intros _. assert (inherited (w1 ++ [(OpenProc "fd", None)]) = inherited w) as Hw2 by (rewrite <- Hw; by apply inherited_kept).
  set (w2 := w1 ++ _) in *. apply ends_then, ends_sys; [|intros; rewrite <- Hw2; by apply inherited_kept].
  intros _. apply ends_ret. assert (inherited (w2 ++ [(ReadProc "fd", None)]) = inherited w) as Hw3
    by (rewrite <- Hw2; by apply inherited_kept).
  eapply ends_mono; [| |apply mark_all_ends]; [|done]. intros [] w' ->. rewrite Hw3. intros fd.
  rewrite elem_of_difference, elem_of_list_to_set, list_elem_of_In, filter_In, <- list_elem_of_In, Z.leb_le,
    (swrap_small 32) by lia.
  split; intros [Hfd Hx]; (split; [done|]); [|intros [_ ?]; lia].
  destruct (decide (fd < 3 + preserve_fds)); [done|]. destruct Hx. split; [|lia].
  destruct (inherited_listed w fd Hfd) as [Hin Hr]. apply list_elem_of_omap. exists (pretty fd).
  split; [done|]. by rewrite parse_signed_pretty by lia.
Qed.
End descriptors.

Module ExampleFds.
Definition step (s : gset Z) (ev : call * option Z) : gset Z :=
  match ev with
  | (CloseRange first, None) => filter (λ fd, fd < first) s
  | (SetCloexec fd, _) => s ∖ {[fd]}
  | _ => s
  end.

Definition kernel : Kernel := {|
  err := λ _ c, match c with CloseRange _ => Some ENOSYS | _ => None end; opened := λ _ _, 3;
  stat_of := λ _, MkStat 0 0 0; exists_ := λ _ _, true; is_dir := λ _ _, true |}.

Definition entries : list string := ["."; ".."; "0"; "1"; "2"; "3"; "7"].

Definition first_fds : gset Z := {[0; 1; 2; 3; 7]}.

#[export] Instance kernel_fds : Descriptors kernel entries.
Proof.
  refine {| inherited := foldl step first_fds |}.
  - intros w fd Hfd. assert (fd ∈ first_fds) as Hin.
    { revert Hfd. induction w as [|[c r] w IH] using rev_ind; [done|]. rewrite foldl_app. cbn [foldl].
      destruct c; try exact IH; cbn [step]; [destruct r; [exact IH|]|]; set_solver. }
    unfold first_fds in Hin. set_unfold in Hin. destruct Hin as [[[[->| ->]| ->]| ->]| ->];
      (split; [|lia]); vm_compute; repeat (apply list_elem_of_here || apply list_elem_of_further).
  - intros w first fd. rewrite foldl_app. cbn. set_solver.
  - intros w fd r. rewrite foldl_app. done.
  - intros w c r Hr Hc. rewrite foldl_app. cbn. destruct c, r; try done; by destruct (Hr eq_refl).
Defined.

(** On a kernel without the system call, the descriptor 7 is marked by itself. *)
Example marked : (close_range kernel entries 1 []).2 =
  [(CloseRange 4, Some ENOSYS); (OpenProc "fd", None); (ReadProc "fd", None); (SetCloexec 7, None)].
Proof. vm_compute. reflexivity. Qed.
End ExampleFds.

(** *** Priorities and the scheduler *)

Definition class_number (class : IOPriorityClass) : Z :=
  match class with IoprioClassRt => 1 | IoprioClassBe => 2 | IoprioClassIdle => 3 end.

(** If the names of the classes differ, the class that is looked up by its name is the one
    that was asked for. *)
Lemma class_found (name : IOPriorityClass → string) class :
  NoDup [name IoprioClassRt; name IoprioClassBe; name IoprioClassIdle] →
  io_prio_class_mapping (λ c, inr (name c)) !! name class = Some (class_number class).
Proof.
  intros Hnd. apply elem_of_list_to_map.
  - cbn. revert Hnd. rewrite !NoDup_cons. set_solver.
  - destruct class; cbn; set_solver.
Qed.

(** The class and the priority can be read back, if the priority has 13 bits. *)
Lemma ioprio_fields class priority : 0 ≤ class < 8 → 0 ≤ priority < 2 ^ 13 →
  let v := uwrap 64 (Z.lor (Z.shiftl class 13) priority) in
  Z.shiftr v 13 = class ∧ Z.land v (Z.ones 13) = priority.
Proof.
  intros Hc Hp v. unfold v. rewrite uwrap_small.
  2: { apply in_u_bits; [lia|]. intros i Hi. rewrite Z.lor_spec, Z.shiftl_spec by lia.
       rewrite (proj1 (in_u_bits 3 class ltac:(lia))) by (unfold in_u; lia).
       by rewrite (proj1 (in_u_bits 13 priority ltac:(lia))) by (unfold in_u; lia). }
  split.
  - rewrite Z.shiftr_lor, Z.shiftr_shiftl_l, Z.shiftl_0_r, (Z.shiftr_div_pow2 priority), Z.div_small by lia.
    apply Z.lor_0_r.
  - rewrite Z.land_lor_distr_l, !Z.land_ones, Z.shiftl_mul_pow2, Z.mod_mul, Z.mod_small by lia. done.
Qed.

(** A longer one changes the class: best effort becomes idle. *)
Example ioprio_overflow :
  uwrap 64 (Z.lor (Z.shiftl 2 13) 8192) = uwrap 64 (Z.lor (Z.shiftl 3 13) 0).
Proof. reflexivity. Qed.

(** A flag is set exactly if it is configured. *)
Lemma sched_flags_spec sc flag :
  Z.land (sched_flags (sched_attr_of sc)) (flag_value flag) ≠ 0 ↔ flag ∈ default [] (sc_flags sc).
Proof.
  unfold sched_attr_of; cbn [sched_flags]. set (fs := default [] (sc_flags sc)). clearbody fs.
  assert (∀ acc, Z.land (foldl (λ v f, Z.lor v (flag_value f)) acc fs) (flag_value flag) ≠ 0
                 ↔ Z.land acc (flag_value flag) ≠ 0 ∨ flag ∈ fs) as Hfold.
  2: { rewrite Hfold, Z.land_0_l. naive_solver. }
  induction fs as [|f fs IH]; intros acc; [cbn; set_solver|].
  cbn [foldl]. rewrite IH, Z.land_lor_distr_l, Z.lor_eq_0_iff, elem_of_cons.
  assert (Z.land (flag_value f) (flag_value flag) = 0 ↔ flag ≠ f) as Hf by (by destruct f, flag).
  rewrite Hf. destruct (decide (flag = f)); tauto.
Qed.
