(* ===== verification/Console.v ===== *)
(** * Console: the terminal of a container

    Models [crates/libcontainer/src/tty.rs]: the socket over which the terminal is handed out,
    and the pseudo terminal that becomes the console and the standard streams of the init
    process.  The world is the list of the calls made, any of which may fail.  A descriptor
    that is dropped is closed. *)
From S2P Require Import Prelude Text Paths Calls.
From S2P Require RootFs InitSteps.
Import InitSteps(FileStat, st_mode, st_rdev, st_ino, dev_major, dev_minor, S_IFMT).
Local Open Scope string_scope.
Local Open Scope list_scope.
Local Open Scope Z_scope.

(** ** Data *)

Inductive StdIO : Type := Stdin | Stdout | Stderr.

Definition stdio_number (value : StdIO) : Z :=
  match value with Stdin => 0 | Stdout => 1 | Stderr => 2 end.

Record Winsize : Type := MkWinsize { ws_row : Z; ws_col : Z; ws_xpixel : Z; ws_ypixel : Z }.

Inductive call : Type :=
  | CurrentDir
  | SetCurrentDir (p : Path)
  | Symlink (original link : Path)
  | Socket
  | Connect (fd : Z) (p : Path)
  | OpenPty (winsize : option Winsize)
  | Fstat (fd : Z)
  | Fstatfs (fd : Z)
  | CreateNoFollow (p : Path) (mode : Z)
  | MountFromFd (fd : Z) (p : Path)
  | Tiocsctty (fd : Z)
  | Dup2 (fd stream : Z)
  | SendRights (socket : Z) (text : string) (fd : Z)
  | Tcgetattr (fd : Z)
  | SetOutputFlags (fd flags : Z)
  | Close (fd : Z).

Definition events : Type := list (call * option Z).

(** Why a descriptor is not accepted *)
Inductive reason : Type :=
  | StatFailed (errno : Z) | NotDevpts (magic : Z) | WrongInode (ino : Z) | NotCharDevice (ftype major minor : Z).

Inductive TTYError : Type :=
  | ConnectStdIO (errno : Z) (stdio : StdIO) | CreateConsoleSocket (errno : Z) | SymlinkFailed (errno : Z)
  | InvalidSocketName (errno : Z) | CreateConsoleSocketFd (errno : Z) | CreatePseudoTerminal (errno : Z)
  | ClearOnlcr (errno : Z) | SendPtyMaster (errno : Z) | CloseConsoleSocket (errno : Z)
  | CreateDevConsole (errno : Z) | MountConsole (errno : Z) | InvalidPty (why : reason).

Inductive PtyMaster : Type := SentToSocket | Foreground (master : Z).

Definition PTMX_MAJOR : Z := 5.
Definition PTMX_MINOR : Z := 2.
Definition PTMX_INO : Z := 2.
Definition PTY_SLAVE_MAJOR : Z := 136.
Definition DEVPTS_SUPER_MAGIC : Z := 7377.
Definition PTMX_PATH : string := "/dev/ptmx".
Definition CONSOLE_PATH : Path := components "/dev/console".
Definition ONLCR : Z := 4.

(** ** Operations *)

(** What the system answers: the error of a call, the working directory, the numbers of a new
    socket and of the two ends of a new terminal, what a descriptor refers to and on which
    file system, the output flags of a terminal, and the error for a name that is no address
    of a socket. *)
Record System : Type := MkSystem {
  err : events → call → option Z;
  current_dir : events → Path;
  new_socket : events → Z;
  new_pty : events → Z * Z;
  stat_of : Z → FileStat;
  magic_of : Z → Z;
  output_flags : events → Z → Z;
  bad_address : string → option Z }.

Section console.
Context (k : System).

Definition sys {E} (c : call) (e : Z → E) : io events E () := do (err k) c e.

(** An error that is ignored *)
Definition ignored {E} (c : call) : io events E () :=
  _ ← attempt (sys c Datatypes.id : io events Z ()); mret ().

(** [drop] runs at the end of a scope, however it is left. *)
Definition finally {E A} (m : io events E A) (drop : outcome E A → list call) : io events E A := λ w,
  let '(r, w') := m w in (r, (io_each ignored (drop r) w' : outcome E () * events).2).

(** The socket is made, and closed again if it cannot be connected. *)
Definition connected_socket (socket_name : string) : io events TTYError Z := λ w,
  let csocketfd := new_socket k w in
  (_ ← sys Socket CreateConsoleSocketFd;
   finally
     (_ ← pure (match bad_address k socket_name with Some errno => Err (InvalidSocketName errno) | None => Ok () end);
      _ ← sys (Connect csocketfd (components socket_name)) CreateConsoleSocket;
      mret csocketfd)
     (λ r, if is_ok r then [] else [Close csocketfd])) w.

Definition connect_socket (console_socket_path : Path) (socket_name : string) : io events TTYError Z :=
  _ ← sys (Symlink console_socket_path (components socket_name)) SymlinkFailed;
  connected_socket socket_name.

Definition setup_console_socket (container_dir console_socket_path : Path) (socket_name : string) :
    io events TTYError Z := λ w,
  match err k w CurrentDir with
  | Some errno => (Panic, w ++ [(CurrentDir, Some errno)])
  | None =>
      let prev_dir := current_dir k w in
      (_ ← ignored (SetCurrentDir container_dir);
       finally (connect_socket console_socket_path socket_name) (λ _, [SetCurrentDir prev_dir]))
      (w ++ [(CurrentDir, None)])
  end.

(** [verify_inode] of [utils.rs], with the check of a handle *)
Definition verify_inode (fd : Z) (verify : FileStat → Z → outcome reason ()) : io events TTYError () :=
  io_map_err InvalidPty
    (_ ← sys (Fstat fd) StatFailed;
     _ ← sys (Fstatfs fd) StatFailed;
     pure (verify (stat_of k fd) (magic_of k fd))).

Definition check_ptmx (stat : FileStat) (magic : Z) : outcome reason () :=
  if bool_decide (magic ≠ DEVPTS_SUPER_MAGIC) then Err (NotDevpts magic)
  else if bool_decide (st_ino stat ≠ PTMX_INO) then Err (WrongInode (st_ino stat))
  else
    let mode_type := Z.land (st_mode stat) S_IFMT in
    let major := dev_major (st_rdev stat) in
    let minor := dev_minor (st_rdev stat) in
    if bool_decide (mode_type ≠ RootFs.S_IFCHR ∨ major ≠ PTMX_MAJOR ∨ minor ≠ PTMX_MINOR)
    then Err (NotCharDevice mode_type major minor) else Ok ().

Definition verify_ptmx_handle (ptmx : Z) : io events TTYError () := verify_inode ptmx check_ptmx.

Definition check_slave (stat : FileStat) (magic : Z) : outcome reason () :=
  if bool_decide (magic ≠ DEVPTS_SUPER_MAGIC) then Err (NotDevpts magic)
  else
    let mode_type := Z.land (st_mode stat) S_IFMT in
    let major := dev_major (st_rdev stat) in
    if bool_decide (mode_type ≠ RootFs.S_IFCHR ∨ major ≠ PTY_SLAVE_MAJOR)
    then Err (NotCharDevice mode_type major (dev_minor (st_rdev stat))) else Ok ().

Definition verify_pty_slave (slave : Z) : io events TTYError () := verify_inode slave check_slave.

Definition clear_onlcr (pty : Z) : io events TTYError () := λ w,
  (_ ← sys (Tcgetattr pty) ClearOnlcr;
   sys (SetOutputFlags pty (Z.ldiff (output_flags k w pty) ONLCR)) ClearOnlcr) w.

Definition mount_console (slave : Z) (console_path : Path) : io events TTYError () :=
  _ ← sys (CreateNoFollow console_path 438) CreateDevConsole;
  sys (MountFromFd slave console_path) MountConsole.

Definition connect_stdio (stdin stdout stderr : Z) : io events TTYError () :=
  _ ← sys (Dup2 stdin 0) (λ errno, ConnectStdIO errno Stdin);
  _ ← sys (Dup2 stdout 1) (λ errno, ConnectStdIO errno Stdout);
  sys (Dup2 stderr 2) (λ errno, ConnectStdIO errno Stderr).

(** The last step: who gets the master *)
Definition hand_over (console_fd : option Z) (master : Z) : io events TTYError PtyMaster :=
  match console_fd with
  | Some console_fd =>
      _ ← sys (SendRights console_fd PTMX_PATH master) SendPtyMaster;
      _ ← sys (Close console_fd) CloseConsoleSocket;
      mret SentToSocket
  | None =>
      _ ← clear_onlcr master;
      mret (Foreground master)
  end.

(** [console_size] is the height and the width of the configuration. *)
Definition setup_console (console_fd : option Z) (mount : bool) (console_size : option (Z * Z)) :
    io events TTYError PtyMaster := λ w,
  let winsize := (λ size, MkWinsize (uwrap 16 size.1) (uwrap 16 size.2) 0 0) <$> console_size in
  let '(master, slave) := new_pty k w in
  (_ ← sys (OpenPty winsize) CreatePseudoTerminal;
   finally
     (_ ← verify_ptmx_handle master;
      _ ← verify_pty_slave slave;
      _ ← (if mount then mount_console slave CONSOLE_PATH else mret ());
      _ ← ignored (Tiocsctty slave);
      _ ← connect_stdio slave slave slave;
      hand_over console_fd master)
     (λ r, Close slave :: match r with Ok (Foreground _) => [] | _ => [Close master] end)) w.
End console.

(** ** Reasoning *)

(** The real master of a terminal is the device 5:2 with the inode 2 of a file system of
    terminals, a slave is a device of the major number 136 there.  A character device has the
    type 0020000 among the type bits 0170000 of its mode. *)
Definition on_devpts (magic : Z) (stat : FileStat) : Prop :=
  magic = 0x1cd1 ∧ Z.land (st_mode stat) 0xf000 = 0x2000.

Definition real_ptmx (magic : Z) (stat : FileStat) : Prop :=
  on_devpts magic stat ∧ st_ino stat = 2 ∧ dev_major (st_rdev stat) = 5 ∧ dev_minor (st_rdev stat) = 2.

Definition real_slave (magic : Z) (stat : FileStat) : Prop :=
  on_devpts magic stat ∧ dev_major (st_rdev stat) = 136.

Lemma check_ptmx_spec stat magic :
  match check_ptmx stat magic with Ok _ => real_ptmx magic stat | Err _ => ¬ real_ptmx magic stat | Panic => False end.
Proof.
  unfold check_ptmx, real_ptmx, on_devpts, DEVPTS_SUPER_MAGIC, PTMX_INO, PTMX_MAJOR, PTMX_MINOR, S_IFMT, RootFs.S_IFCHR.
  repeat case_bool_decide; lia.
Qed.

Lemma check_slave_spec stat magic :
  match check_slave stat magic with Ok _ => real_slave magic stat | Err _ => ¬ real_slave magic stat | Panic => False end.
Proof.
  unfold check_slave, real_slave, on_devpts, DEVPTS_SUPER_MAGIC, PTY_SLAVE_MAJOR, S_IFMT, RootFs.S_IFCHR.
  repeat case_bool_decide; lia.
Qed.

Section acts.
Context (k : System).

(** [m] does not panic and makes only calls that satisfy [P]; [Q] holds when it succeeds and
    [F] when it fails. *)
Definition acts {E A} (P : call → Prop) (F : E → events → Prop) (Q : A → events → Prop) (m : io events E A) : Prop :=
  runs m (λ r t, Forall (λ ev, P ev.1) t ∧
                 match r with Ok a => Q a t | Err e => F e t | Panic => False end).

Lemma acts_sys {E} P (F : E → events → Prop) (Q : () → events → Prop) c (e : Z → E) :
  P c → Q () [(c, None)] → (∀ n, F (e n) [(c, Some n)]) → acts P F Q (sys k c e).
Proof. intros Hc HQ HF. apply runs_do; [|intros n]; (split; [by apply Forall_singleton|]); [done|apply HF]. Qed.

Lemma acts_ignored {E} P (F : E → events → Prop) (Q : () → events → Prop) c :
  P c → (∀ r, Q () [(c, r)]) → acts P F Q (ignored k c : io events E ()).
Proof.
  intros Hc HQ. apply runs_bind, runs_attempt, runs_do; [|intros n]; apply runs_pure; cbn;
    (split; [by apply Forall_singleton|]); apply HQ.
Qed.

Lemma acts_ret {E A} P (F : E → events → Prop) (Q : A → events → Prop) (a : A) :
  Q a [] → acts P F Q (mret a : io events E A).
Proof. intros HQ. apply (runs_pure (Ok a)). by split. Qed.

Lemma acts_mono {E A} (P P' : call → Prop) (F F' : E → events → Prop) (Q Q' : A → events → Prop) (m : io events E A) :
  acts P F Q m → (∀ c, P c → P' c) → (∀ e t, F e t → F' e t) → (∀ a t, Q a t → Q' a t) → acts P' F' Q' m.
Proof.
  intros Hm HP HF HQ. apply (runs_mono _ _ _ Hm). intros r t (Ht & Hr).
  split; [|destruct r; [by apply HQ|by apply HF|done]]. eapply Forall_impl; [exact Ht|]. cbn. eauto.
Qed.

Lemma acts_bind {E A B} (P P' : call → Prop) (F F' : E → events → Prop) Q Q' (m : io events E A) (f : A → io events E B) :
  acts P F Q m → (∀ c, P c → P' c) → (∀ e t, F e t → F' e t) →
  (∀ a t, Forall (λ ev, P ev.1) t → Q a t → acts P' (λ e t', F' e (t ++ t')) (λ b t', Q' b (t ++ t')) (f a)) →
  acts P' F' Q' (m ≫= f).
Proof.
  intros Hm HP HF Hf. apply runs_bind, (runs_mono _ _ _ Hm). intros r t (Ht & Hr).
  assert (Forall (λ ev : call * option Z, P' ev.1) t) as Ht' by (eapply Forall_impl; [exact Ht|]; cbn; eauto).
  destruct r as [a|x|]; [|split; [done|by apply HF]|done].
  apply (runs_mono _ _ _ (Hf a t Ht Hr)). intros r t' (Ht'' & Hr'). split; [by apply Forall_app|done].
Qed.

Lemma acts_map_err {E E' A} (f : E → E') P F (Q : A → events → Prop) (m : io events E A) :
  acts P (λ e, F (f e)) Q m → acts P F Q (io_map_err f m).
Proof. intros Hm. apply runs_map_err, (runs_mono _ _ _ Hm). by intros [a|x|] t (? & ?). Qed.

Lemma ignored_run {E} c w : ignored k c w = (Ok () : outcome E (), w ++ [(c, err k w c)]).
Proof. unfold ignored, attempt, sys, do, mbind, io_bind, mret, io_ret. by destruct (err k w c). Qed.

(** What is dropped is closed in any case. *)
Lemma drops_all {E} l w : ∃ t, (io_each (ignored k) l w : outcome E () * events).2 = w ++ t ∧ t.*1 = l.
Proof.
  revert w. induction l as [|c l IH]; intros w; [exists []; by rewrite app_nil_r|].
  cbn [io_each]. rewrite (io_bind_run _ _ _ () _ (ignored_run c w)).
  destruct (IH (w ++ [(c, err k w c)])) as (t & -> & <-). eexists. by rewrite <- app_assoc.
Qed.

Lemma runs_finally {E A} (m : io events E A) drop Q :
  runs m (λ r t, ∀ t', t'.*1 = drop r → Q r (t ++ t')) → runs (finally k m drop) Q.
Proof.
  intros Hm w. destruct (Hm w) as (t & Hw & Hr). unfold finally. destruct (m w) as [r w'']; cbn in *. subst w''.
  destruct (drops_all (E := E) (drop r) (w ++ t)) as (t' & -> & Ht'). exists (t ++ t').
  rewrite app_assoc. split; [done|]. by apply Hr.
Qed.

(** *** The terminal *)

Definition call_failed (t : events) : Prop := ∃ c n, (c, Some n) ∈ t.

Lemma verify_inode_acts fd verify (real : Z → FileStat → Prop) :
  (∀ s m, match verify s m with Ok _ => real m s | Err _ => ¬ real m s | Panic => False end) →
  acts (λ c, c = Fstat fd ∨ c = Fstatfs fd)
    (λ e t, (∃ why, e = InvalidPty why) ∧ (¬ real (magic_of k fd) (stat_of k fd) ∨ call_failed t))
    (λ _ _, real (magic_of k fd) (stat_of k fd)) (verify_inode k fd verify).
Proof.
  intros Hv. apply acts_map_err. eapply (acts_bind _ _ _ _ (λ _ _, True)); [apply acts_sys|intros c Hc; exact Hc|intros e t He; exact He|].
  { by left. } { done. } { intros n. split; [eauto|]. right. exists (Fstat fd), n. set_solver. }
  intros [] t1 _ _. eapply (acts_bind _ _ _ _ (λ _ _, True)); [apply acts_sys|intros c Hc; exact Hc|intros e t He; exact He|].
  { by right. } { done. } { intros n. split; [eauto|]. right. exists (Fstatfs fd), n. set_solver. }
  intros [] t2 _ _. apply runs_pure. split; [done|]. specialize (Hv (stat_of k fd) (magic_of k fd)).
  destruct (verify _ _) as [[]|why|]; [done|by eauto|done].
Qed.

Section terminal.
Context (console_fd : option Z) (mount : bool) (master slave : Z).

Definition genuine : Prop :=
  real_ptmx (magic_of k master) (stat_of k master) ∧ real_slave (magic_of k slave) (stat_of k slave).

(** The calls on a terminal with the ends [master] and [slave]: nothing but the checks before
    both ends are known to be genuine. *)
Definition uses (c : call) : Prop :=
  match c with
  | Fstat fd | Fstatfs fd => fd = master ∨ fd = slave
  | CreateNoFollow p _ => genuine ∧ mount = true ∧ p = CONSOLE_PATH
  | MountFromFd fd p => genuine ∧ mount = true ∧ fd = slave ∧ p = CONSOLE_PATH
  | Tiocsctty fd | Dup2 fd _ => genuine ∧ fd = slave
  | SendRights socket _ fd => genuine ∧ console_fd = Some socket ∧ fd = master
  | Tcgetattr fd | SetOutputFlags fd _ => genuine ∧ console_fd = None ∧ fd = master
  | _ => False
  end.

Definition permitted (c : call) : Prop := uses c ∨ ∃ socket, console_fd = Some socket ∧ c = Close socket.

(** What has been done when it succeeds *)
Definition handed_over (res : PtyMaster) (t : events) : Prop :=
  match console_fd with
  | Some socket => res = SentToSocket ∧ (SendRights socket PTMX_PATH master, None) ∈ t ∧ (Close socket, None) ∈ t
  | None => res = Foreground master ∧
      ∃ flags, (SetOutputFlags master flags, None) ∈ t ∧ Z.land flags ONLCR = 0
  end.

Definition set_up (res : PtyMaster) (t : events) : Prop :=
  genuine ∧ (mount = true → (MountFromFd slave CONSOLE_PATH, None) ∈ t) ∧
  (∀ s, s ∈ [0; 1; 2] → (Dup2 slave s, None) ∈ t) ∧ handed_over res t.

(** Why it fails.  The console socket is closed only by the last call, so that it stays open
    if anything before fails. *)
Definition failed (e : TTYError) (t : events) : Prop :=
  (¬ genuine ∨ call_failed t) ∧ (¬ genuine → ∃ why, e = InvalidPty why) ∧
  (∀ fd, (∃ n, (Close fd, n) ∈ t) ↔ console_fd = Some fd ∧ ∃ n, e = CloseConsoleSocket n).

Lemma uses_no_close (t : events) fd n : Forall (λ ev, uses ev.1) t → (Close fd, n) ∉ t.
Proof. rewrite Forall_forall. intros Ht Hin. exact (Ht _ Hin). Qed.

Lemma failed_after e (t t' : events) : Forall (λ ev, uses ev.1) t → failed e t' → failed e (t ++ t').
Proof.
  intros Ht (H1 & H2 & H3). split; [|split; [done|]].
  - destruct H1 as [?|(c & n & Hin)]; [by left|]. right. exists c, n. rewrite elem_of_app. by right.
  - intros fd. rewrite <- H3. split; intros [n Hn]; exists n; [|rewrite elem_of_app; by right].
    rewrite elem_of_app in Hn. destruct Hn as [Hn|?]; [|done]. by destruct (uses_no_close t fd n Ht).
Qed.

Lemma uses_bind {A B} (P : call → Prop) Q Q' (m : io events TTYError A) (f : A → io events TTYError B) :
  acts uses failed Q m → (∀ c, uses c → P c) →
  (∀ a t, Q a t → acts P failed (λ b t', Q' b (t ++ t')) (f a)) → acts P failed Q' (m ≫= f).
Proof.
  intros Hm HP Hf. eapply acts_bind; [exact Hm|done|done|]. intros a t Ht Ha.
  eapply acts_mono; [by apply Hf|done|intros e t'; by apply failed_after|done].
Qed.

(** A refused call after the checks *)
Lemma failed_call c n e : genuine → uses c → (∀ n', e ≠ CloseConsoleSocket n') → failed e [(c, Some n)].
Proof.
  intros Hg Hc He. split; [right; exists c, n; set_solver|]. split; [done|]. intros fd. split.
  - intros [n' Hn%list_elem_of_singleton]. injection Hn as Hn _. by rewrite <- Hn in Hc.
  - intros (_ & n' & ->). by destruct (He n').
Qed.

Lemma uses_sys c (e : Z → TTYError) : genuine → uses c → (∀ n n', e n ≠ CloseConsoleSocket n') →
  acts uses failed (λ _ t, (c, None) ∈ t) (sys k c e).
Proof. intros Hg Hc He. apply acts_sys; [done|apply list_elem_of_here|]. intros n. by apply failed_call. Qed.

Lemma verified fd verify (real : Z → FileStat → Prop) :
  (∀ s m, match verify s m with Ok _ => real m s | Err _ => ¬ real m s | Panic => False end) →
  fd = master ∨ fd = slave → (genuine → real (magic_of k fd) (stat_of k fd)) →
  acts uses failed (λ _ _, real (magic_of k fd) (stat_of k fd)) (verify_inode k fd verify).
Proof.
  intros Hv Hfd Hreal w. destruct (verify_inode_acts fd verify real Hv w) as (t & Hw & Ht & Hr).
  exists t. split; [done|].
  assert (Forall (λ ev : call * option Z, uses ev.1) t) as Hu.
  { eapply Forall_impl; [exact Ht|]. intros [c n]; cbn. by intros [-> | ->]. }
  split; [done|]. destruct (verify_inode k fd verify w) as [r w']. cbn [fst] in *. destruct r as [[]|e|]; [done| |done].
  destruct Hr as [[why ->] Hr]. split; [|split; [by eauto|]].
  - destruct Hr as [Hr|?]; [left; by intros Hg%Hreal|by right].
  - intros fd'. split; [intros [n Hn]; by destruct (uses_no_close t fd' n Hu)|by intros (_ & n & [=])].
Qed.

Lemma clear_onlcr_acts : genuine → console_fd = None →
  acts permitted failed handed_over (_ ← clear_onlcr k master; mret (Foreground master)).
Proof.
  intros Hg Hn. eapply (uses_bind _ (λ _ t, ∃ flags, (SetOutputFlags master flags, None) ∈ t ∧ Z.land flags ONLCR = 0));
    [|by left|].
  - intros w. set (flags := Z.ldiff (output_flags k w master) ONLCR).
    assert (acts uses failed (λ _ t, ∃ flags, (SetOutputFlags master flags, None) ∈ t ∧ Z.land flags ONLCR = 0)
      (_ ← sys k (Tcgetattr master) ClearOnlcr; sys k (SetOutputFlags master flags) ClearOnlcr)) as H; [|exact (H w)].
    eapply uses_bind; [by apply uses_sys|done|]. intros [] t _.
    eapply acts_mono; [by apply uses_sys|done|done|]. intros [] t' Hin. exists flags.
    split; [rewrite elem_of_app; by right|apply Z.land_ldiff].
  - intros [] t (flags & Hin & Hf). apply acts_ret. unfold handed_over. rewrite Hn, app_nil_r. eauto.
Qed.

Lemma hand_over_acts : genuine → acts permitted failed handed_over (hand_over k console_fd master).
Proof.
  intros Hg. destruct console_fd as [socket|] eqn:Hfd; cbn [hand_over].
  - eapply uses_bind; [by apply uses_sys|by left|]. intros [] t1 H1. cbn beta in H1.
    eapply (acts_bind _ _ failed _ (λ _ t, (Close socket, None) ∈ t)); [|intros c Hc; exact Hc|done|].
    + apply acts_sys; [right; eauto|apply list_elem_of_here|]. intros n.
      split; [right; exists (Close socket), n; set_solver|]. split; [done|]. intros fd. rewrite Hfd. split.
      * intros [n' Hn%list_elem_of_singleton]. injection Hn as -> _. eauto.
      * intros ([= ->] & _). exists (Some n). apply list_elem_of_here.
    + intros [] t2 _ H2. apply acts_ret. unfold handed_over. rewrite Hfd, !elem_of_app. auto.
  - by apply clear_onlcr_acts.
Qed.

Lemma connect_stdio_acts : genuine →
  acts uses failed (λ _ t, ∀ s, s ∈ [0; 1; 2] → (Dup2 slave s, None) ∈ t) (connect_stdio k slave slave slave).
Proof.
  intros Hg. eapply uses_bind; [by apply uses_sys|done|]. intros [] t1 H1.
  eapply uses_bind; [by apply uses_sys|done|]. intros [] t2 H2.
  eapply acts_mono; [by apply uses_sys|done|done|]. intros [] t3 H3 s Hs. cbn beta in *. rewrite !elem_of_app. set_solver.
Qed.

Lemma mount_console_acts : genuine →
  acts uses failed (λ _ t, mount = true → (MountFromFd slave CONSOLE_PATH, None) ∈ t)
    (if mount then mount_console k slave CONSOLE_PATH else mret ()).
Proof.
  intros Hg. destruct mount eqn:Hm; [|by apply acts_ret].
  eapply uses_bind; [apply uses_sys; [done|by unfold uses; rewrite Hm|done]|done|]. intros [] t _.
  eapply acts_mono; [apply uses_sys; [done|by unfold uses; rewrite Hm|done]|done|done|].
  intros [] t' Hin _. rewrite elem_of_app. by right.
Qed.

Lemma setup_body_acts :
  acts permitted failed set_up
    (_ ← verify_ptmx_handle k master;
     _ ← verify_pty_slave k slave;
     _ ← (if mount then mount_console k slave CONSOLE_PATH else mret ());
     _ ← ignored k (Tiocsctty slave);
     _ ← connect_stdio k slave slave slave;
     hand_over k console_fd master).
Proof.
  assert (∀ c, uses c → permitted c) as Hup by by left.
  eapply uses_bind; [apply (verified _ _ _ check_ptmx_spec); [by left|by intros []]|done|]. intros [] t1 Hm.
  eapply uses_bind; [apply (verified _ _ _ check_slave_spec); [by right|by intros []]|done|]. intros [] t2 Hs.
  assert (genuine) as Hg by done.
  eapply uses_bind; [by apply mount_console_acts|done|]. intros [] t3 H3. cbn beta in H3.
  eapply (uses_bind _ (λ _ _, True)); [by apply acts_ignored|done|]. intros [] t4 _.
  eapply uses_bind; [by apply connect_stdio_acts|done|]. intros [] t5 H5. cbn beta in H5.
  eapply acts_mono; [by apply hand_over_acts|done|done|]. intros res t6 H6. split; [done|].
  rewrite !elem_of_app. split; [tauto|]. split; [intros s Hin; rewrite !elem_of_app; auto 8|].
  unfold handed_over in *. destruct console_fd; [rewrite !elem_of_app; tauto|].
  destruct H6 as (-> & flags & ? & ?). split; [done|]. exists flags. rewrite !elem_of_app. tauto.
Qed.

(** The size of the terminal: the configured one, in 16 bits *)
Definition terminal_size (console_size : option (Z * Z)) : option Winsize :=
  (λ '(height, width), MkWinsize (height mod 65536) (width mod 65536) 0 0) <$> console_size.

(** The result of [setup_console], its calls, and what is open afterwards *)
Definition console_result (size : option Winsize) (r : outcome TTYError PtyMaster) (t : events) : Prop :=
  (∀ c n, (c, n) ∈ t → permitted c ∨ c = Close slave ∨ c = Close master ∨ c = OpenPty size) ∧
  ((∃ n, r = Err (CreatePseudoTerminal n) ∧ t = [(OpenPty size, Some n)]) ∨
   match r with Ok res => set_up res t | Err e => (¬ genuine ∨ call_failed t) ∧ (¬ genuine → ∃ why, e = InvalidPty why)
   | Panic => False end ∧
   (∃ n, (Close slave, n) ∈ t) ∧ (r ≠ Ok (Foreground master) ↔ ∃ n, (Close master, n) ∈ t) ∧
   (∀ socket, console_fd = Some socket → socket ≠ master → socket ≠ slave →
      ((∃ n, (Close socket, n) ∈ t) ↔ r = Ok SentToSocket ∨ ∃ n, r = Err (CloseConsoleSocket n)))).

(** What is closed at the end *)
Definition dropped (r : outcome TTYError PtyMaster) : list call :=
  Close slave :: match r with Ok (Foreground _) => [] | _ => [Close master] end.

Lemma elem_of_calls (t : events) c : c ∈ t.*1 ↔ ∃ n, (c, n) ∈ t.
Proof.
  rewrite list_elem_of_fmap. split; [intros ([c' n] & -> & Hc); by exists n|intros [n Hn]; by exists (c, n)].
Qed.

Lemma set_up_more res t t1 t2 : set_up res t → set_up res (t1 ++ t ++ t2).
Proof.
  intros (Hg & Hm & Hs & Hr). split; [done|]. rewrite !elem_of_app. split; [auto|].
  split; [intros s Hin; rewrite !elem_of_app; auto|]. unfold handed_over in *.
  destruct console_fd; [rewrite !elem_of_app; tauto|]. destruct Hr as (-> & flags & ? & ?). split; [done|].
  exists flags. rewrite !elem_of_app. tauto.
Qed.

(** A result that is returned to be used in the foreground is the master. *)
Lemma dropped_master r t : match r with Ok res => set_up res t | Err e => failed e t | Panic => False end →
  Close master ∈ dropped r ∨ r = Ok (Foreground master) ∧ console_fd = None.
Proof.
  destruct r as [[|fd]|e|]; [set_solver| |set_solver|done]. intros (_ & _ & _ & Hr). right. unfold handed_over in Hr.
  destruct console_fd; [by destruct Hr|]. by destruct Hr as [[= ->] _].
Qed.

(** The console socket *)
Lemma socket_closed r t socket : console_fd = Some socket →
  match r with Ok res => set_up res t | Err e => failed e t | Panic => False end →
  (∃ n, (Close socket, n) ∈ t) ↔ r = Ok SentToSocket ∨ ∃ n, r = Err (CloseConsoleSocket n).
Proof.
  intros Hfd Hr. destruct r as [res|e|]; [| |done].
  - destruct Hr as (_ & _ & _ & Hr). unfold handed_over in Hr. rewrite Hfd in Hr. destruct Hr as (-> & _ & ?).
    split; [by left|by eauto].
  - destruct Hr as (_ & _ & Hr). rewrite (Hr socket). split.
    + intros (_ & n & ->). right. by exists n.
    + intros [[=]|[n [= ->]]]. eauto.
Qed.

Lemma dropped_result size r t t' : master ≠ slave → Forall (λ ev, permitted ev.1) t →
  match r with Ok res => set_up res t | Err e => failed e t | Panic => False end →
  t'.*1 = dropped r → console_result size r (((OpenPty size, None) :: t) ++ t').
Proof.
  intros Hne Ht Hr Ht'. rewrite Forall_forall in Ht.
  assert (∀ c, (∃ n, (c, n) ∈ ((OpenPty size, None) :: t) ++ t') ↔ c = OpenPty size ∨ (∃ n, (c, n) ∈ t) ∨ c ∈ dropped r)
    as Hin by (intros c; rewrite <- Ht', <- !elem_of_calls, fmap_app, elem_of_app; set_solver).
  assert (∀ c, c ∈ dropped r → c = Close slave ∨ c = Close master) as Hout
    by (intros c; unfold dropped; destruct r as [[]| |]; set_solver).
  split; [|right; split; [|split; [|split]]].
  - intros c n Hc. destruct (proj1 (Hin c)) as [->|[[n' Hn]|Hd]]; [by eauto|auto|left; by apply (Ht (c, n'))|].
    destruct (Hout c Hd) as [-> | ->]; auto.
  - destruct r as [res|e|]; [|destruct Hr as (H1 & H2 & _)|done].
    + exact (set_up_more res t [_] t' Hr).
    + split; [|done]. destruct H1 as [?|(c & n & Hc)]; [by left|]. right. exists c, n. rewrite elem_of_app. set_solver.
  - apply Hin. right; right. apply list_elem_of_here.
  - rewrite Hin. destruct (dropped_master r t Hr) as [Hd|[-> Hfd]].
    + split; [auto|]. intros _ ->. apply elem_of_cons in Hd as [[=]|Hd]; [done|]. by apply elem_of_nil in Hd.
    + split; [done|]. intros [[=]|[[n Hn]|Hd]].
      * destruct (Ht _ Hn) as [[]|(s & Hs & _)]. by rewrite Hfd in Hs.
      * apply elem_of_cons in Hd as [[=]|Hd]; [done|]. by apply elem_of_nil in Hd.
  - intros socket Hfd Hm Hs. rewrite Hin, (socket_closed r t socket Hfd Hr). split; [|auto].
    intros [[=]|[?|Hd]]; [done|]. destruct (Hout _ Hd) as [[=]|[=]]; done.
Qed.
End terminal.

(** C39: the console.  The two ends of the terminal, which has the configured size, are used
    only if both are genuine: on the file system of terminals, with the right inode and device
    numbers; if one is not, the set-up fails with the error that says so.  Only the slave is
    mounted, on [/dev/console] and if that was asked for, and only the slave becomes the
    controlling terminal and the standard streams.  On success all of that was done, and the
    master was sent to the console socket or is returned with the translation of line ends
    switched off; an error comes from a refused call or an end that is not genuine, and there
    is no panic.  A terminal that could be opened has its slave closed in any case, its master
    unless it is returned.  The console socket is closed after the master was sent; it is left
    open by every error before that. *)
Theorem setup_console_spec console_fd mount console_size w master slave :
  new_pty k w = (master, slave) → master ≠ slave →
  ∃ t, (setup_console k console_fd mount console_size w).2 = w ++ t ∧
    console_result console_fd mount master slave (terminal_size console_size)
      (setup_console k console_fd mount console_size w).1 t.
Proof.
  intros Hpty Hne. unfold setup_console. rewrite Hpty. revert w Hpty. intros w _.
  replace (_ <$> console_size) with (terminal_size console_size) by by destruct console_size as [[]|].
  match goal with |- ∃ t, (?m w).2 = _ ∧ ?Q _ _ => assert (runs m Q) as H end; [|exact (H w)].
  apply runs_bind, runs_do; [|intros n]; cbn beta iota.
  - apply runs_finally. eapply runs_mono; [apply (setup_body_acts console_fd mount)|].
    intros r t (Ht & Hr) t' Ht'. exact (dropped_result _ _ _ _ _ r t t' Hne Ht Hr Ht').
  - split; [|left; eauto]. intros c r [= -> _]%list_elem_of_singleton. auto.
Qed.

(** *** The socket *)

Definition socket_result (socket_name : string) (r : outcome TTYError Z) (t : events) : Prop :=
  r ≠ Panic ∧
  match r with
  | Ok fd => (Connect fd (components socket_name), None) ∈ t ∧ ∀ n, (Close fd, n) ∉ t
  | _ => (Socket, None) ∈ t → ∃ fd n, (Close fd, n) ∈ t
  end.

Lemma connected_socket_runs socket_name : runs (connected_socket k socket_name) (socket_result socket_name).
Proof.
  intros w. unfold connected_socket. generalize (new_socket k w). intros fd.
  match goal with |- ∃ t, (?m w).2 = _ ∧ _ => assert (runs m (socket_result socket_name)) as H end; [|exact (H w)].
  apply runs_bind, runs_do; [|intros n; split; [done|]; set_solver].
  apply runs_finally, runs_bind. destruct (bad_address k socket_name) as [errno|]; apply runs_pure.
  - intros t' Ht'. split; [done|]. intros _. destruct t' as [|[c n] t']; [done|]. injection Ht' as -> _.
    exists fd, n. set_solver.
  - apply runs_bind, runs_do.
    + apply runs_pure. intros t' Ht'. apply fmap_nil_inv in Ht' as ->. split; [done|]. set_solver.
    + intros n t' Ht'. split; [done|]. intros _. destruct t' as [|[c m] t']; [done|]. injection Ht' as -> _.
      exists fd, m. set_solver.
Qed.

(** If the working directory is known, the last call enters it again, however the set-up ends;
    a socket that is not returned is closed.  If it is not known, the code panics. *)
Lemma setup_console_socket_spec container_dir console_socket_path socket_name w :
  match err k w CurrentDir with
  | Some _ => (setup_console_socket k container_dir console_socket_path socket_name w).1 = Panic
  | None =>
      ∃ t n, (setup_console_socket k container_dir console_socket_path socket_name w).2
               = w ++ t ++ [(SetCurrentDir (current_dir k w), n)] ∧
        socket_result socket_name (setup_console_socket k container_dir console_socket_path socket_name w).1 t
  end.
Proof.
  unfold setup_console_socket. destruct (err k w CurrentDir); [done|].
  rewrite (io_bind_run _ _ _ () _ (ignored_run _ _)). set (w1 := (w ++ _) ++ _).
  assert (runs (connect_socket k console_socket_path socket_name) (socket_result socket_name)) as H.
  { apply runs_bind, runs_do; [|intros n; split; [done|]; set_solver].
    eapply runs_mono; [apply connected_socket_runs|]. intros r t [Hp Hr]. split; [done|]. destruct r; set_solver. }
  destruct (H w1) as (t & Ht & Hp & Hr). unfold finally.
  destruct (connect_socket k console_socket_path socket_name w1) as [r w2]; cbn [fst snd] in *. subst w2.
  destruct (drops_all (E := TTYError) [SetCurrentDir (current_dir k w)] (w1 ++ t)) as (t' & -> & Ht').
  destruct t' as [|[c n] [|]]; try done. injection Ht' as ->.
  exists ([(CurrentDir, None); (SetCurrentDir container_dir, err k (w ++ [(CurrentDir, None)]) (SetCurrentDir container_dir))] ++ t), n.
  split; [unfold w1; by rewrite <- !app_assoc|]. split; [done|]. destruct r; set_solver.
Qed.
End acts.

Module ExampleConsole.
Definition pty_stat (fd : Z) : FileStat :=
  if fd =? 8 then InitSteps.MkStat (Z.lor RootFs.S_IFCHR 438) (RootFs.makedev 5 2) 2
  else InitSteps.MkStat (Z.lor RootFs.S_IFCHR 400) (RootFs.makedev 136 0) 3.

Definition system : System := {|
  err := λ _ _, None; current_dir := λ _, components "/home/user"; new_socket := λ _, 7; new_pty := λ _, (8, 9);
  stat_of := pty_stat; magic_of := λ _, DEVPTS_SUPER_MAGIC; output_flags := λ _ _, 5; bad_address := λ _, None |}.

Lemma setup_console_spec_witness :
  (setup_console system None true (Some (24, 80)) []).1 = Ok (Foreground 8) ∧
  ∃ t, (setup_console system None true (Some (24, 80)) []).2 = [] ++ t ∧
    console_result system None true 8 9 (Some (MkWinsize 24 80 0 0))
      (setup_console system None true (Some (24, 80)) []).1 t.
Proof. split; [by vm_compute|]. by apply (setup_console_spec system None true (Some (24, 80)) [] 8 9). Defined.

(** The container directory cannot be entered: the link is made in the working directory of
    the caller. *)
Definition no_entry : System := {|
  err := λ _ c, match c with SetCurrentDir p => if decide (p = components "/run/c") then Some 2 else None | _ => None end;
  current_dir := λ _, components "/home/user"; new_socket := λ _, 7; new_pty := λ _, (8, 9);
  stat_of := pty_stat; magic_of := λ _, DEVPTS_SUPER_MAGIC; output_flags := λ _ _, 5; bad_address := λ _, None |}.

Example link_elsewhere :
  setup_console_socket no_entry (components "/run/c") (components "/tmp/s") "console" [] =
  (Ok 7, [(CurrentDir, None); (SetCurrentDir (components "/run/c"), Some 2);
          (Symlink (components "/tmp/s") (components "console"), None); (Socket, None);
          (Connect 7 (components "console"), None); (SetCurrentDir (components "/home/user"), None)]).
Proof. vm_compute. reflexivity. Qed.
End ExampleConsole.
