(* ===== verification/Network.v ===== *)
(** * Network: moving network devices into a container

    Models [crates/libcontainer/src/network]: the messages of [link.rs], [address.rs] and
    [cidr.rs], the netlink client of [client.rs] and [wrapper.rs], the two halves of a move in
    [network_device.rs], and [configure_container_network_devices] of
    [process/init/process.rs].

    A netlink socket receives datagrams, each of which holds messages one after the other; the
    decoding of a message is done by a library and is a parameter.  The kernel answers the
    requests that were sent; which answers it gives is left open. *)
From S2P Require Import Prelude Text Calls.
Local Open Scope string_scope.
Local Open Scope list_scope.
Local Open Scope Z_scope.

(** ** Data *)

(** Addresses of 32 and 128 bits *)
Inductive IpAddr : Type := V4 (a : Z) | V6 (a : Z).

#[global] Instance IpAddr_eq_dec : EqDecision IpAddr.
Proof. solve_decision. Defined.

Definition is_multicast (ip : IpAddr) : bool :=
  match ip with V4 a => Z.shiftr a 28 =? 14 | V6 a => Z.shiftr a 120 =? 255 end.

Inductive AddressScope : Type := Universe | Site | LinkScope | HostScope | Nowhere | OtherScope (n : Z).

#[global] Instance AddressScope_eq_dec : EqDecision AddressScope.
Proof. solve_decision. Defined.

Inductive AddressFamily : Type := Unspec | Inet | Inet6 | OtherFamily (n : Z).

Inductive AddressAttribute : Type :=
  | Address (ip : IpAddr) | Local (ip : IpAddr) | Broadcast (a : Z) | Multicast (a : Z) | OtherAddress.

Record AddressMessage : Type := MkAddress {
  a_family : AddressFamily; a_prefix_len : Z; a_flags : Z; a_scope : AddressScope; a_index : Z;
  a_attributes : list AddressAttribute }.

Definition address_default : AddressMessage := MkAddress Unspec 0 0 Universe 0 [].

Inductive LinkAttribute : Type := IfName (name : string) | NetNsFd (fd : Z) | OtherLink.

Record LinkMessage : Type := MkLink {
  l_index : Z; l_flags : Z; l_change_mask : Z; l_attributes : list LinkAttribute }.

Definition link_default : LinkMessage := MkLink 0 0 0 [].

Inductive RouteMessage : Type :=
  | NewAddress (m : AddressMessage) | GetAddress (m : AddressMessage)
  | NewLink (m : LinkMessage) | GetLink (m : LinkMessage) | SetLink (m : LinkMessage).

(** [NetlinkPayload]; the code of an error is not zero. *)
Inductive Payload : Type :=
  | InnerMessage (m : RouteMessage) | ErrorMessage (code : option Z) | Done | Noop | Overrun.

Record Request : Type := MkRequest { r_flags : Z; r_message : RouteMessage }.

Definition NLM_F_REQUEST : Z := 1.
Definition NLM_F_ACK : Z := 4.
Definition NLM_F_EXCL : Z := 512.
Definition NLM_F_DUMP : Z := 768.
Definition NLM_F_CREATE : Z := 1024.
Definition IFF_UP : Z := 1.
Definition IFA_F_PERMANENT : Z := 128.

(** [Waits] stands for a call that waits for a datagram that does not come. *)
Inductive NetworkError : Type :=
  | Socket (errno : Z) | Deserialization | NetlinkError (code : Z) | UnexpectedDone | UnexpectedNone
  | UnexpectedMessage (p : Payload) | ClientInitializeError | Waits.

Inductive NetlinkResponse (A : Type) : Type := Success (a : A) | ResponseError (code : Z) | ResponseDone | ResponseNone.
Arguments Success {A} a.
Arguments ResponseError {A} code.
Arguments ResponseDone {A}.
Arguments ResponseNone {A}.

(** ** [link.rs] and [address.rs]: the messages *)

Definition link_handle (payload : Payload) : outcome NetworkError (NetlinkResponse LinkMessage) :=
  match payload with
  | InnerMessage (NewLink link) => Ok (Success link)
  | ErrorMessage None => Ok (Success link_default)
  | ErrorMessage (Some code) => Ok (ResponseError code)
  | Done => Ok ResponseDone
  | _ => Err (UnexpectedMessage payload)
  end.

Definition address_handle (target_index : option Z) (payload : Payload) :
    outcome NetworkError (NetlinkResponse AddressMessage) :=
  match payload with
  | InnerMessage (NewAddress addr) =>
      match target_index with
      | Some i => if a_index addr =? i then Ok (Success addr) else Ok ResponseNone
      | None => Ok (Success addr)
      end
  | ErrorMessage None => Ok (Success address_default)
  | ErrorMessage (Some code) => Ok (ResponseError code)
  | Done => Ok ResponseDone
  | _ => Err (UnexpectedMessage payload)
  end.

Definition get_by_name_request (name : string) : Request :=
  MkRequest NLM_F_REQUEST (GetLink (MkLink 0 0 0 [IfName name])).

Definition set_up_request (index : Z) : Request :=
  MkRequest (Z.lor NLM_F_REQUEST NLM_F_ACK) (SetLink (MkLink index (Z.lor 0 IFF_UP) (Z.lor 0 IFF_UP) [])).

Definition set_down_request (index : Z) : Request :=
  MkRequest (Z.lor NLM_F_REQUEST NLM_F_ACK) (SetLink (MkLink index (Z.ldiff 0 IFF_UP) (Z.lor 0 IFF_UP) [])).

Definition MUST_CREATE : Z := Z.lor NLM_F_REQUEST (Z.lor NLM_F_ACK (Z.lor NLM_F_EXCL NLM_F_CREATE)).

Definition set_ns_fd_request (index : Z) (new_name : string) (ns_path : Z) : Request :=
  MkRequest MUST_CREATE (SetLink (MkLink index 0 0 [IfName new_name; NetNsFd ns_path])).

Definition get_by_index_request (index : Z) : Request :=
  MkRequest (Z.lor NLM_F_REQUEST NLM_F_DUMP) (GetAddress (MkAddress Unspec 0 0 Universe index [])).

(** The shift of an IPv4 mask panics when it is too long. *)
Definition create_address_request (index : Z) (address : IpAddr) (prefix_len : Z) :
    outcome NetworkError AddressMessage :=
  let family := match address with V4 _ => Inet | V6 _ => Inet6 end in
  let message attributes := MkAddress family prefix_len 0 Universe index attributes in
  if is_multicast address then
    Ok (message (match address with V6 a => [Multicast a] | V4 _ => [] end))
  else
    match address with
    | V6 _ => Ok (message [Address address; Local address])
    | V4 a =>
        if prefix_len =? 32 then Ok (message [Address address; Local address; Broadcast a])
        else if prefix_len <? 32 then
          Ok (message [Address address; Local address; Broadcast (Z.lor (Z.shiftr (Z.ones 32) prefix_len) a)])
        else Panic
    end.

(** ** [cidr.rs] *)

Record CidrAddress : Type := MkCidr { prefix_len : Z; address : IpAddr }.

Fixpoint find_map {A B} (f : A → option B) (l : list A) : option B :=
  match l with [] => None | x :: l => match f x with Some y => Some y | None => find_map f l end end.

Definition parse_ip_address (addr : AddressMessage) : option IpAddr :=
  match find_map (λ attr, match attr with Local ip => Some ip | _ => None end) (a_attributes addr) with
  | Some ip => Some ip
  | None => find_map (λ attr, match attr with Address ip => Some ip | _ => None end) (a_attributes addr)
  end.

Definition cidr_from (msg : AddressMessage) : outcome NetworkError CidrAddress :=
  address ← unwrap (parse_ip_address msg); Ok (MkCidr (a_prefix_len msg) address).

(** ** [client.rs] *)

(** A socket that was opened has a number; its datagrams wait in an inbox. *)
Record world : Type := MkWorld {
  sent : list (nat * Request);
  inbox : gmap nat (list (Z + list byte)) }.

Section client.
(** What the kernel answers to the last request, the error of a [send], the decoding of a
    message, with the length of its header, and if a socket can be opened. *)
Context (answer : list (nat * Request) → list (Z + list byte)).
Context (send_error : list (nat * Request) → option Z).
Context (deserialize : list byte → option (Payload * Z)).
Context (can_open : nat → bool).

Definition BUFFER : nat := 4096.

Definition send (s : nat) (req : Request) : io world NetworkError () := λ w,
  let sent' := sent w ++ [(s, req)] in
  match send_error sent' with
  | Some errno => (Err (Socket errno), w)
  | None => (Ok (), MkWorld sent' (<[s := default [] (inbox w !! s) ++ answer sent']> (inbox w)))
  end.

Definition receive {T} (s : nat) (handle : Payload → outcome NetworkError (NetlinkResponse T)) :
    io world NetworkError T := λ w,
  match default [] (inbox w !! s) with
  | [] => (Err Waits, w)
  | d :: ds =>
      let w' := MkWorld (sent w) (<[s := ds]> (inbox w)) in
      (datagram ← (match d with inl errno => Err (Socket errno) | inr bytes => Ok (take BUFFER bytes) end);
       packet ← ok_or (deserialize datagram) Deserialization;
       response ← handle packet.1;
       match response with
       | Success a => Ok a
       | ResponseError code => Err (NetlinkError code)
       | ResponseDone => Err UnexpectedDone
       | ResponseNone => Err UnexpectedNone
       end, w')
  end.

(** The inner loop: the messages in the buffer, of which [n] bytes were received now.  The
    result is the responses, and if the last message was there.  An iteration that does not
    end the loop advances the offset. *)
Fixpoint read_messages {T} (fuel : nat) (handle : Payload → outcome NetworkError (NetlinkResponse T))
    (buf : list byte) (n offset : Z) (responses : list T) : outcome NetworkError (list T * bool) :=
  match fuel with
  | O => Panic
  | S fuel =>
      if Z.of_nat (length buf) <? offset then Panic
      else
        '(payload, len) ← ok_or (deserialize (drop (Z.to_nat offset) buf)) Deserialization;
        response ← handle payload;
        let next responses :=
          if (offset + len =? n) || (len =? 0) then Ok (responses, false)
          else read_messages fuel handle buf n (offset + len) responses in
        match response with
        | Success a => next (responses ++ [a])
        | ResponseError code => Err (NetlinkError code)
        | ResponseDone => Ok (responses, true)
        | ResponseNone => next responses
        end
  end.

(** A datagram overwrites the start of the buffer. *)
Fixpoint read_datagrams {T} (fuel : nat) (handle : Payload → outcome NetworkError (NetlinkResponse T))
    (buf : list byte) (responses : list T) (ds : list (Z + list byte)) :
    outcome NetworkError (list T) * list (Z + list byte) :=
  match ds with
  | [] => (Err Waits, [])
  | inl errno :: ds => (Err (Socket errno), ds)
  | inr bytes :: ds =>
      let received := take BUFFER bytes in
      let buf := received ++ drop (length received) buf in
      match read_messages fuel handle buf (Z.of_nat (length received)) 0 responses with
      | Ok (responses, true) => (Ok responses, ds)
      | Ok (responses, false) => read_datagrams fuel handle buf responses ds
      | Err e => (Err e, ds)
      | Panic => (Panic, ds)
      end
  end.

Definition receive_multiple {T} (s : nat) (handle : Payload → outcome NetworkError (NetlinkResponse T)) :
    io world NetworkError (list T) := λ w,
  let '(r, ds) := read_datagrams (S (S BUFFER)) handle (replicate BUFFER Byte.x00) [] (default [] (inbox w !! s)) in
  (r, MkWorld (sent w) (<[s := ds]> (inbox w))).

(** [ClientWrapper]: a socket that cannot be opened is an error when it is used. *)
Definition send_and_receive {T} (s : nat) (req : Request) (handle : Payload → outcome NetworkError (NetlinkResponse T)) :
    io world NetworkError T :=
  if can_open s then _ ← send s req; receive s handle else pure (Err ClientInitializeError).

Definition send_and_receive_multiple {T} (s : nat) (req : Request)
    (handle : Payload → outcome NetworkError (NetlinkResponse T)) : io world NetworkError (list T) :=
  if can_open s then _ ← send s req; receive_multiple s handle else pure (Err ClientInitializeError).

(** *** The operations of [LinkClient] and [AddressClient] *)

Definition get_by_name (s : nat) (name : string) : io world NetworkError LinkMessage :=
  send_and_receive s (get_by_name_request name) link_handle.

Definition set_up (s : nat) (index : Z) : io world NetworkError () :=
  _ ← send_and_receive s (set_up_request index) link_handle; mret ().

Definition set_down (s : nat) (index : Z) : io world NetworkError () :=
  _ ← send_and_receive s (set_down_request index) link_handle; mret ().

Definition set_ns_fd (s : nat) (index : Z) (new_name : string) (ns_path : Z) : io world NetworkError () :=
  _ ← send_and_receive s (set_ns_fd_request index new_name ns_path) link_handle; mret ().

Definition get_by_index (s : nat) (index : Z) : io world NetworkError (list AddressMessage) :=
  send_and_receive_multiple s (get_by_index_request index) (address_handle (Some index)).

Definition add (s : nat) (index : Z) (address : IpAddr) (prefix_len : Z) : io world NetworkError () :=
  message ← pure (create_address_request index address prefix_len);
  _ ← send_and_receive s (MkRequest MUST_CREATE (NewAddress message)) (address_handle None);
  mret ().

(** ** [network_device.rs] *)

(** [device] is the configured name. *)
Definition resolve_device_name (device : option string) (original_name : string) : string :=
  match device with Some d => if bool_decide (d = "") then original_name else d | None => original_name end.

Definition moves_along (addr : AddressMessage) : bool :=
  bool_decide (a_scope addr = Universe) && negb (Z.land (a_flags addr) IFA_F_PERMANENT =? 0).

Fixpoint collect_cidrs (addrs : list AddressMessage) : outcome NetworkError (list CidrAddress) :=
  match addrs with
  | [] => Ok []
  | addr :: addrs =>
      if moves_along addr then c ← cidr_from addr; cs ← collect_cidrs addrs; Ok (c :: cs)
      else collect_cidrs addrs
  end.

(** The sockets are 0, for links, and 1, for addresses. *)
Definition dev_change_net_namespace (name : string) (netns_fd : Z) (device : option string) :
    io world NetworkError (list CidrAddress) :=
  let new_name := resolve_device_name device name in
  link ← get_by_name 0 name;
  let index := l_index link in
  _ ← set_down 0 index;
  addrs ← get_by_index 1 index;
  _ ← set_ns_fd 0 index new_name netns_fd;
  pure (collect_cidrs addrs).

Definition setup_addresses_in_network_namespace (s : nat) (addrs : list CidrAddress) (link_index : Z) :
    io world NetworkError () :=
  io_each (λ addr, add s link_index (address addr) (prefix_len addr)) addrs.

(** One iteration of [configure_container_network_devices] in the init process *)
Definition configure_device (name : string) (device : option string) (cidr_addrs : list CidrAddress) :
    io world NetworkError () :=
  let new_name := resolve_device_name device name in
  ns_link ← get_by_name 0 new_name;
  _ ← setup_addresses_in_network_namespace 1 cidr_addrs (l_index ns_link);
  set_up 0 (l_index ns_link).
End client.

(** ** Reading messages *)

(** How messages are written: the decoder reads a message at the start of the bytes. *)
Class Codec (deserialize : list byte → option (Payload * Z)) (valid : Payload → Prop) : Type := {
  encode : Payload → list byte;
  encode_nonempty : ∀ p, valid p → encode p ≠ [];
  decode_encode : ∀ p rest, valid p → deserialize (encode p ++ rest) = Some (p, Z.of_nat (length (encode p))) }.

(** The responses to messages, up to the last one *)
Fixpoint handle_all {T} (handle : Payload → outcome NetworkError (NetlinkResponse T)) (ps : list Payload)
    (responses : list T) : outcome NetworkError (list T * bool) :=
  match ps with
  | [] => Ok (responses, false)
  | p :: ps =>
      response ← handle p;
      match response with
      | Success a => handle_all handle ps (responses ++ [a])
      | ResponseError code => Err (NetlinkError code)
      | ResponseDone => Ok (responses, true)
      | ResponseNone => handle_all handle ps responses
      end
  end.

Section reading.
Context (deserialize : list byte → option (Payload * Z)).

(** The fuel is enough: what is read does not depend on it. *)
Lemma read_messages_fuel {T} fuel fuel' (handle : Payload → outcome NetworkError (NetlinkResponse T)) buf n offset rs :
  (∀ l p len, deserialize l = Some (p, len) → 0 ≤ len) → 0 ≤ offset →
  Z.of_nat (length buf) + 1 < Z.of_nat fuel + offset → Z.of_nat (length buf) + 1 < Z.of_nat fuel' + offset →
  read_messages deserialize fuel handle buf n offset rs = read_messages deserialize fuel' handle buf n offset rs.
Proof.
  intros Hlen. revert fuel' offset rs. induction fuel as [|fuel IH]; intros fuel' offset rs Ho Hf Hf'.
  { destruct fuel' as [|fuel']; [done|]. cbn [read_messages]. by rewrite (proj2 (Z.ltb_lt _ _)) by lia. }
  destruct fuel' as [|fuel']; cbn [read_messages]; destruct (Z.ltb_spec (Z.of_nat (length buf)) offset);
    [done|lia|done|].
  destruct (deserialize (drop (Z.to_nat offset) buf)) as [[p len]|] eqn:Hd; [|done].
  pose proof (Hlen _ _ _ Hd). run. cbn [ok_or]. run. destruct (handle p) as [response|e|]; run; [|done..].
  assert (∀ rs, (if (offset + len =? n) || (len =? 0) then Ok (rs, false)
                 else read_messages deserialize fuel handle buf n (offset + len) rs)
              = (if (offset + len =? n) || (len =? 0) then Ok (rs, false)
                 else read_messages deserialize fuel' handle buf n (offset + len) rs)) as Hnext.
  { intros rs'. destruct (offset + len =? n); [done|]. destruct (Z.eqb_spec len 0); [done|]. cbn. apply IH; lia. }
  destruct response; auto.
Qed.

Context (valid : Payload → Prop) `{C : !Codec deserialize valid}.

Definition bytes_of (ps : list Payload) : list byte := concat (encode <$> ps).

Lemma bytes_of_length ps : Forall valid ps → (length ps ≤ length (bytes_of ps))%nat.
Proof.
  induction 1 as [|p ps Hp Hps IH]; [done|]. unfold bytes_of in *. cbn. rewrite length_app.
  pose proof (encode_nonempty p Hp). destruct (encode p); [done|]. cbn. lia.
Qed.

Lemma read_messages_spec {T} fuel (handle : Payload → outcome NetworkError (NetlinkResponse T)) pre ps rest rs :
  ps ≠ [] → Forall valid ps → (length ps ≤ fuel)%nat →
  read_messages deserialize fuel handle (pre ++ bytes_of ps ++ rest)
    (Z.of_nat (length pre + length (bytes_of ps))) (Z.of_nat (length pre)) rs = handle_all handle ps rs.
Proof.
  intros Hne Hv. revert fuel pre rs. induction Hv as [|p ps Hp Hps IH]; intros fuel pre rs Hf; [done|].
  destruct fuel as [|fuel]; [cbn in Hf; lia|]. cbn [read_messages handle_all].
  assert (bytes_of (p :: ps) = encode p ++ bytes_of ps) as Hb by done. rewrite Hb, <- app_assoc.
  pose proof (encode_nonempty p Hp) as Hpos. rewrite !length_app.
  destruct (Z.ltb_spec (Z.of_nat (length pre + (length (encode p) + (length (bytes_of ps) + length rest)))) (Z.of_nat (length pre)));
    [lia|].
  rewrite Nat2Z.id, drop_app_length, decode_encode by done. cbn [ok_or]. run.
  destruct (handle p) as [response|e|]; run; [|done..].
  assert (0 < length (encode p))%nat by (destruct (encode p); [done|cbn; lia]).
  assert (∀ rs, (if (Z.of_nat (length pre) + Z.of_nat (length (encode p)) =? Z.of_nat (length pre + (length (encode p) + length (bytes_of ps))))
                    || (Z.of_nat (length (encode p)) =? 0) then Ok (rs, false)
                 else read_messages deserialize fuel handle (pre ++ encode p ++ bytes_of ps ++ rest)
                        (Z.of_nat (length pre + (length (encode p) + length (bytes_of ps))))
                        (Z.of_nat (length pre) + Z.of_nat (length (encode p))) rs)
              = handle_all handle ps rs) as Hnext; [|destruct response; auto].
  intros rs'. destruct ps as [|q ps].
  - by rewrite (proj2 (Z.eqb_eq _ _)) by (cbn; lia).
  - pose proof (bytes_of_length (q :: ps) Hps) as Hl. cbn [length] in Hl.
    rewrite (proj2 (Z.eqb_neq _ _)), (proj2 (Z.eqb_neq (Z.of_nat (length (encode p))) 0)) by lia. cbn [orb].
    rewrite <- (IH ltac:(done) fuel (pre ++ encode p) rs') by (cbn in Hf |- *; lia).
    rewrite <- app_assoc, length_app. f_equal; lia.
Qed.

Lemma handle_all_app {T} (handle : Payload → outcome NetworkError (NetlinkResponse T)) ps qs rs :
  handle_all handle (ps ++ qs) rs =
  match handle_all handle ps rs with
  | Ok (rs, false) => handle_all handle qs rs
  | r => r
  end.
Proof.
  revert rs. induction ps as [|p ps IH]; intros rs; [done|]. cbn. destruct (handle p) as [[]|e|]; run; auto.
Qed.

(** What is left in the buffer from an earlier datagram is not looked at again. *)
Lemma read_datagrams_spec {T} fuel (handle : Payload → outcome NetworkError (NetlinkResponse T)) buf rs pss :
  length buf = BUFFER → (BUFFER ≤ fuel)%nat →
  Forall (λ ps, ps ≠ [] ∧ Forall valid ps ∧ (length (bytes_of ps) ≤ BUFFER)%nat) pss →
  (read_datagrams deserialize fuel handle buf rs (inr ∘ bytes_of <$> pss)).1 =
  match handle_all handle (concat pss) rs with
  | Ok (rs, true) => Ok rs
  | Ok (rs, false) => Err Waits
  | Err e => Err e
  | Panic => Panic
  end.
Proof.
  intros Hbuf Hfuel Hpss. revert buf rs Hbuf. induction Hpss as [|ps pss (Hne & Hv & Hl) Hpss IH]; intros buf rs Hbuf; [done|].
  cbn [fmap list_fmap read_datagrams concat compose]. rewrite handle_all_app, take_ge by lia.
  pose proof (read_messages_spec fuel handle [] ps (drop (length (bytes_of ps)) buf) rs Hne Hv) as Hread.
  cbn [app length] in Hread. rewrite Nat.add_0_l in Hread. change (Z.of_nat 0) with 0 in Hread.
  rewrite Hread by (pose proof (bytes_of_length ps Hv); lia).
  destruct (handle_all handle ps rs) as [[rs' []]|e|]; try done. apply IH.
  rewrite length_app, length_drop. lia.
Qed.
End reading.

(** ** Moving a device *)

Record kernel : Type := MkKernel {
  answer : list (nat * Request) → list (Z + list byte);
  send_error : list (nat * Request) → option Z;
  can_open : nat → bool }.

Section moving.
Context (deserialize : list byte → option (Payload * Z)) (valid : Payload → Prop) `{C : !Codec deserialize valid}.

Definition ack : Payload := ErrorMessage None.

(** A datagram fits into the buffer. *)
Definition fits (ps : list Payload) : Prop :=
  ps ≠ [] ∧ Forall valid ps ∧ (length (bytes_of deserialize valid ps) ≤ BUFFER)%nat.

(** Linux removes the IPv6 addresses of a device that is set down.  If it is configured to
    keep addresses, [keep], the permanent ones that are not local stay. *)
Definition set_down_before (h : list (nat * Request)) (i : Z) : bool :=
  existsb (λ ev, match r_message ev.2 with
                 | SetLink m => (l_index m =? i) && Z.testbit (l_change_mask m) 0 && negb (Z.testbit (l_flags m) 0)
                 | _ => false
                 end) h.

Definition survives (keep : bool) (a : AddressMessage) : bool :=
  match a_family a with
  | Inet6 => keep && Z.testbit (a_flags a) 7 && bool_decide (a_scope a ≠ LinkScope ∧ a_scope a ≠ HostScope)
  | _ => true
  end.

Definition present (keep : bool) (h : list (nat * Request)) (addresses : list AddressMessage) : list AddressMessage :=
  List.filter (λ a, negb (set_down_before h (a_index a)) || survives keep a) addresses.

(** A kernel that grants every request: [links] are the devices of the namespace, [addresses]
    what they had at first.  A dump is spread over datagrams and ends with a message of its
    own. *)
Record grants (k : kernel) (keep : bool) (links : string → LinkMessage) (addresses : list AddressMessage) : Prop := MkGrants {
  g_open : ∀ s, can_open k s = true;
  g_send : ∀ h, send_error k h = None;
  g_ack : ∀ h s f m, answer k (h ++ [(s, MkRequest f (SetLink m))]) = [inr (encode ack)];
  g_new : ∀ h s f m, answer k (h ++ [(s, MkRequest f (NewAddress m))]) = [inr (encode ack)];
  g_link : ∀ h s name, answer k (h ++ [(s, get_by_name_request name)]) = [inr (encode (InnerMessage (NewLink (links name))))];
  g_dump : ∀ h s i, ∃ pss, answer k (h ++ [(s, get_by_index_request i)]) = inr ∘ bytes_of deserialize valid <$> pss ∧
    Forall fits pss ∧ concat pss = (InnerMessage ∘ NewAddress <$> present keep h addresses) ++ [Done];
  g_fits : fits [ack] ∧ ∀ name, fits [InnerMessage (NewLink (links name))] }.

Definition idle (w : world) (s : nat) : Prop := default [] (inbox w !! s) = [].

Lemma send_and_receive_run {T} k s req (handle : Payload → outcome NetworkError (NetlinkResponse T)) p a w :
  can_open k s = true → send_error k (sent w ++ [(s, req)]) = None → idle w s →
  answer k (sent w ++ [(s, req)]) = [inr (encode p)] → fits [p] → handle p = Ok (Success a) →
  ∃ w', send_and_receive (answer k) (send_error k) deserialize (can_open k) s req handle w = (Ok a, w') ∧
        sent w' = sent w ++ [(s, req)] ∧ ∀ s', idle w s' → idle w' s'.
Proof.
  intros Hopen Hsend Hidle Hans (_ & Hv & Hl) Hh. rewrite Forall_singleton in Hv. unfold bytes_of in Hl. cbn in Hl.
  rewrite app_nil_r in Hl. unfold send_and_receive. rewrite Hopen.
  unfold mbind at 1, io_bind, send. rewrite Hsend, Hans. unfold idle in Hidle. rewrite Hidle.
  unfold receive. cbn [app sent inbox]. rewrite lookup_insert_eq. cbn [from_option Datatypes.id]. rewrite take_ge by done.
  pose proof (decode_encode p [] Hv) as Hd. rewrite app_nil_r in Hd. run. rewrite Hd. cbn [ok_or]. run. cbn [fst].
  rewrite Hh. run. eexists. split; [done|]. split; [done|]. intros s' Hs'. unfold idle in *. cbn.
  destruct (decide (s = s')) as [->|]; [by rewrite lookup_insert_eq|]. by rewrite !lookup_insert_ne.
Qed.

Lemma handle_addresses i addresses rs :
  handle_all (address_handle (Some i)) ((InnerMessage ∘ NewAddress <$> addresses) ++ [Done]) rs
  = Ok (rs ++ List.filter (λ a, a_index a =? i) addresses, true).
Proof.
  revert rs. induction addresses as [|a addresses IH]; intros rs; cbn; [by rewrite app_nil_r|].
  destruct (a_index a =? i); run; cbn -[app]; rewrite IH; [by rewrite <- app_assoc|done].
Qed.

Lemma get_by_index_run k keep links addresses s i w : grants k keep links addresses → idle w s →
  ∃ w', get_by_index (answer k) (send_error k) deserialize (can_open k) s i w
          = (Ok (List.filter (λ a, a_index a =? i) (present keep (sent w) addresses)), w') ∧
        sent w' = sent w ++ [(s, get_by_index_request i)] ∧ ∀ s', s' ≠ s → idle w s' → idle w' s'.
Proof.
  intros Hg Hidle. destruct (g_dump _ _ _ _ Hg (sent w) s i) as (pss & Hans & Hfits & Hconcat).
  unfold get_by_index, send_and_receive_multiple. rewrite (g_open _ _ _ _ Hg).
  unfold mbind, io_bind, send. rewrite (g_send _ _ _ _ Hg), Hans. unfold idle in Hidle. rewrite Hidle. cbn [app].
  unfold receive_multiple. cbn [sent inbox]. rewrite lookup_insert_eq. cbn [from_option Datatypes.id].
  pose proof (read_datagrams_spec deserialize valid (S (S BUFFER)) (address_handle (Some i)) (replicate BUFFER Byte.x00) [] pss
    (length_replicate _ _) ltac:(lia) Hfits) as Hread.
  rewrite Hconcat, handle_addresses in Hread. cbn [app] in Hread.
  destruct (read_datagrams deserialize (S (S BUFFER)) (address_handle (Some i)) (replicate BUFFER Byte.x00) [] _) as [r ds].
  cbn [fst] in Hread. subst r. eexists. split; [reflexivity|]. split; [done|].
  intros s' Hne Hs'. unfold idle in *. cbn. by rewrite !lookup_insert_ne.
Qed.

Section host.
Context (k : kernel).

Definition move_plan (name : string) (netns_fd : Z) (device : option string) (i : Z) : list (nat * Request) :=
  [(0%nat, get_by_name_request name); (0%nat, set_down_request i); (1%nat, get_by_index_request i);
   (0%nat, set_ns_fd_request i (resolve_device_name device name) netns_fd)].

Definition move (name : string) (netns_fd : Z) (device : option string) : io world NetworkError (list CidrAddress) :=
  dev_change_net_namespace (answer k) (send_error k) deserialize (can_open k) name netns_fd device.

(** [m] sends the requests [l] in their order, or some of them if it fails. *)
Definition sends {A} (l : list (nat * Request)) (m : io world NetworkError A) : Prop :=
  ∀ w, ∃ t, sent (m w).2 = sent w ++ t ∧ t `prefix_of` l ∧ (is_ok (m w).1 = true → t = l).

(** What is sent after [m] may depend on its result. *)
Lemma sends_bind_dep {A B} l (g : A → list (nat * Request)) (d : A) (m : io world NetworkError A)
    (f : A → io world NetworkError B) w :
  sends l m → (∀ a, sends (g a) (f a)) →
  ∃ a t, sent ((m ≫= f) w).2 = sent w ++ t ∧ t `prefix_of` l ++ g a ∧ (is_ok ((m ≫= f) w).1 = true → t = l ++ g a).
Proof.
  intros Hm Hf. destruct (Hm w) as (t & Hw & Ht & Hok). unfold mbind, io_bind.
  destruct (m w) as [[a|e|] w']; cbn in *; [|exists d, t; split; [done|]; split; [by apply prefix_app_r|done]..].
  destruct (Hf a w') as (t' & Hw' & Ht' & Hok'). exists a, (l ++ t').
  rewrite Hw', Hw, (Hok eq_refl), app_assoc. split; [done|]. split; [by apply prefix_app|].
  intros Hr. by rewrite Hok'.
Qed.

Lemma sends_bind {A B} l l' (m : io world NetworkError A) (f : A → io world NetworkError B) :
  sends l m → (∀ a, sends l' (f a)) → sends (l ++ l') (m ≫= f).
Proof.
  intros Hm Hf w. destruct (Hm w) as (t & Hw & Ht & Hok). unfold mbind, io_bind.
  destruct (m w) as [[a|e|] w']; cbn in *; [|exists t; split; [done|]; split; [by apply prefix_app_r|done]..].
  destruct (Hf a w') as (t' & Hw' & Ht' & Hok'). exists (l ++ t').
  rewrite Hw', Hw, (Hok eq_refl), app_assoc. split; [done|]. split; [by apply prefix_app|].
  intros Hr. by rewrite Hok'.
Qed.

Lemma sends_pure {A} (r : outcome NetworkError A) : sends [] (pure r).
Proof. intros w. exists []. rewrite app_nil_r. split; [done|]. by split. Qed.

Lemma sends_request {T} s req (handle : Payload → outcome NetworkError (NetlinkResponse T)) :
  sends [(s, req)] (send_and_receive (answer k) (send_error k) deserialize (can_open k) s req handle) ∧
  sends [(s, req)] (send_and_receive_multiple (answer k) (send_error k) deserialize (can_open k) s req handle).
Proof.
  assert (∀ A (m : io world NetworkError A), (∀ w, sent (m w).2 = sent w) →
    sends [(s, req)] (_ ← send (answer k) (send_error k) s req; m)) as Hsend.
  { intros A m Hm w. unfold mbind, io_bind, send. destruct (send_error k _).
    - exists []. rewrite app_nil_r. split; [done|]. split; [apply prefix_nil|done].
    - exists [(s, req)]. rewrite Hm. by repeat split. }
  assert (∀ A, sends [(s, req)] (pure (Err ClientInitializeError) : io world NetworkError A)) as Hclosed.
  { intros A w. exists []. rewrite app_nil_r. split; [done|]. split; [apply prefix_nil|done]. }
  unfold send_and_receive, send_and_receive_multiple. destruct (can_open k s); split; try apply Hclosed.
  - apply Hsend. intros w. unfold receive. by destruct (default [] _).
  - apply Hsend. intros w. unfold receive_multiple. by destruct (read_datagrams _ _ _ _ _ _).
Qed.

(** Whatever the kernel answers, a device is moved only after it was set down and its
    addresses were read, and the requests are about one device. *)
Lemma move_order name netns_fd device w :
  ∃ i t, sent (move name netns_fd device w).2 = sent w ++ t ∧ t `prefix_of` move_plan name netns_fd device i ∧
         (is_ok (move name netns_fd device w).1 = true → t = move_plan name netns_fd device i).
Proof.
  assert (∀ s req, sends [(s, req)] (_ ← send_and_receive (answer k) (send_error k) deserialize (can_open k) s req link_handle;
            mret ())) as Hset.
  { intros s req. rewrite <- (app_nil_r [(s, req)]). apply sends_bind; [apply sends_request|].
    intros _. apply (sends_pure (Ok ())). }
  destruct (sends_bind_dep [(0%nat, get_by_name_request name)]
    (λ link, [(0%nat, set_down_request (l_index link))] ++ [(1%nat, get_by_index_request (l_index link))]
             ++ [(0%nat, set_ns_fd_request (l_index link) (resolve_device_name device name) netns_fd)] ++ [])
    link_default (get_by_name (answer k) (send_error k) deserialize (can_open k) 0 name)
    (λ link, _ ← set_down (answer k) (send_error k) deserialize (can_open k) 0 (l_index link);
             addrs ← get_by_index (answer k) (send_error k) deserialize (can_open k) 1 (l_index link);
             _ ← set_ns_fd (answer k) (send_error k) deserialize (can_open k) 0 (l_index link)
                   (resolve_device_name device name) netns_fd;
             pure (collect_cidrs addrs)) w) as (link & t & Hw & Ht & Hok).
  - apply sends_request.
  - intros link. apply sends_bind; [apply Hset|]. intros []. apply sends_bind; [apply sends_request|]. intros addrs.
    apply sends_bind; [apply Hset|]. intros []. apply sends_pure.
  - by exists (l_index link), t.
Qed.

(** *** What is refused *)

Definition refuses (h : list (nat * Request)) (code : Z) : Prop :=
  answer k h = [inr (encode (ErrorMessage (Some code)))] ∧ fits [ErrorMessage (Some code)].

(** A request that is no dump is answered with one datagram. *)
Definition answers_once : Prop :=
  ∀ h s req, (∀ i, req ≠ get_by_index_request i) → ∃ d, answer k (h ++ [(s, req)]) = [d].

(** A refused request of [m] is its last one, and its error is the result. *)
Definition stops_at_refusal {A} (m : io world NetworkError A) (w : world) : Prop :=
  ∀ h r t code, sent w `prefix_of` h → sent (m w).2 = h ++ [r] ++ t → refuses (h ++ [r]) code →
    t = [] ∧ (m w).1 = Err (NetlinkError code).

(** The same, where the sockets [I] are idle before and [J] afterwards. *)
Definition stops {A} (I J : nat → Prop) (m : io world NetworkError A) : Prop :=
  ∀ w, (∀ s, I s → idle w s) → ∃ t, sent (m w).2 = sent w ++ t ∧
    (is_ok (m w).1 = true → ∀ s, J s → idle (m w).2 s) ∧
    ∀ t1 r t2 code, t = t1 ++ [r] ++ t2 → refuses (sent w ++ t1 ++ [r]) code →
      t2 = [] ∧ (m w).1 = Err (NetlinkError code).

Lemma stops_refusal {A} I J (m : io world NetworkError A) w :
  stops I J m → (∀ s, idle w s) → stops_at_refusal m w.
Proof.
  intros Hm Hw. destruct (Hm w) as (t & Ht & _ & Hr); [auto|]. intros h r t' code [t1 ->] Hs Hc.
  rewrite Ht, <- app_assoc in Hs. apply app_inv_head in Hs. apply (Hr t1 r t'); [done|]. by rewrite app_assoc.
Qed.

Lemma stops_pure {A} I (r : outcome NetworkError A) : stops I I (pure r).
Proof. intros w Hw. exists []. rewrite app_nil_r. split; [done|]. split; [done|]. by intros [] ? ? ? [=]. Qed.

Lemma stops_bind {A B} I J L (m : io world NetworkError A) (f : A → io world NetworkError B) :
  stops I J m → (∀ a, stops J L (f a)) → stops I L (m ≫= f).
Proof.
  intros Hm Hf w Hw. destruct (Hm w Hw) as (t & Ht & Hi & Hr). unfold mbind, io_bind.
  destruct (m w) as [[a|e|] w']; cbn [fst snd is_ok] in *.
  - destruct (Hf a w' (Hi eq_refl)) as (t' & Ht' & Hi' & Hr'). exists (t ++ t'). rewrite Ht', Ht, app_assoc.
    split; [done|]. split; [done|]. intros t1 r t2 code Heq Hc.
    apply app_eq_app in Heq as (l & [[-> Heq]|[-> Heq]]).
    + destruct l as [|x l].
      * apply (Hr' [] r t2); [by rewrite Heq|]. rewrite Ht, app_nil_r, <- app_assoc. exact Hc.
      * injection Heq as <- ->. by destruct (Hr t1 r l code eq_refl Hc) as [_ [=]].
    + apply (Hr' l r t2); [done|]. rewrite Ht, <- app_assoc. by rewrite <- app_assoc in Hc.
  - exists t. split; [done|]. split; [done|]. intros t1 r t2 code Heq Hc. destruct (Hr _ _ _ _ Heq Hc) as [-> [= ->]]. done.
  - exists t. split; [done|]. split; [done|]. intros t1 r t2 code Heq Hc. by destruct (Hr _ _ _ _ Heq Hc) as [-> [=]].
Qed.

Definition strict {T} (handle : Payload → outcome NetworkError (NetlinkResponse T)) : Prop :=
  ∀ code, handle (ErrorMessage (Some code)) = Ok (ResponseError code).

Lemma single_request t1 (r r' : nat * Request) t2 : [r] = t1 ++ [r'] ++ t2 → t1 = [] ∧ r' = r ∧ t2 = [].
Proof. destruct t1 as [|? []]; intros [=]; subst; done. Qed.

Lemma stops_request {T} s req (handle : Payload → outcome NetworkError (NetlinkResponse T)) (I : nat → Prop) :
  answers_once → strict handle → I s → (∀ i, req ≠ get_by_index_request i) →
  stops I I (send_and_receive (answer k) (send_error k) deserialize (can_open k) s req handle).
Proof.
  intros Honce Hh Hs Hreq w Hw. unfold send_and_receive. destruct (can_open k s); [|by apply stops_pure].
  unfold mbind, io_bind, send. destruct (send_error k _) as [e|] eqn:He.
  { exists []. rewrite app_nil_r. split; [done|]. split; [done|]. by intros [] ? ? ? [=]. }
  exists [(s, req)]. pose proof (Hw s Hs) as Hidle. unfold idle in Hidle. rewrite Hidle.
  destruct (Honce (sent w) s req Hreq) as [d Hd]. rewrite Hd. unfold receive. cbn [sent inbox app].
  rewrite lookup_insert_eq. cbn [from_option Datatypes.id fst snd sent]. split; [done|]. split.
  - intros _ s' Hs'. unfold idle. cbn [inbox]. destruct (decide (s = s')) as [->|]; [by rewrite lookup_insert_eq|].
    rewrite !lookup_insert_ne by done. by apply Hw.
  - intros t1 r t2 code (-> & -> & ->)%single_request [Hans (_ & Hv & Hl)]. split; [done|].
    rewrite Forall_singleton in Hv. unfold bytes_of in Hl. cbn [fmap list_fmap concat] in Hl. rewrite app_nil_r in Hl.
    cbn [app] in Hans. rewrite Hd in Hans. injection Hans as ->. run. rewrite take_ge by done.
    pose proof (decode_encode _ [] Hv) as Hdec. rewrite app_nil_r in Hdec. rewrite Hdec. cbn [ok_or]. run. cbn [fst].
    rewrite Hh. by run.
Qed.

Lemma stops_dump {T} s req (handle : Payload → outcome NetworkError (NetlinkResponse T)) (I : nat → Prop) :
  strict handle → I s →
  stops I (λ s', I s' ∧ s' ≠ s) (send_and_receive_multiple (answer k) (send_error k) deserialize (can_open k) s req handle).
Proof.
  intros Hh Hs w Hw. unfold send_and_receive_multiple. destruct (can_open k s); cycle 1.
  { exists []. rewrite app_nil_r. split; [done|]. split; [done|]. by intros [] ? ? ? [=]. }
  unfold mbind, io_bind, send. destruct (send_error k _) as [e|] eqn:He.
  { exists []. rewrite app_nil_r. split; [done|]. split; [done|]. by intros [] ? ? ? [=]. }
  exists [(s, req)]. pose proof (Hw s Hs) as Hidle. unfold idle in Hidle. rewrite Hidle. cbn [app].
  unfold receive_multiple. cbn [sent inbox]. rewrite lookup_insert_eq. cbn [from_option Datatypes.id].
  pose proof (read_datagrams_spec deserialize valid (S (S BUFFER)) handle (replicate BUFFER Byte.x00) []) as Hread.
  destruct (read_datagrams deserialize _ handle _ [] (answer k _)) as [res ds] eqn:Hds. cbn [fst snd sent]. split; [done|]. split.
  - intros _ s' [Hs' Hne]. unfold idle. cbn [inbox]. rewrite !lookup_insert_ne by done. by apply Hw.
  - intros t1 r t2 code (-> & -> & ->)%single_request [Hans Hfits]. split; [done|].
    specialize (Hread [[ErrorMessage (Some code)]] (length_replicate _ _) ltac:(lia)).
    rewrite Forall_singleton in Hread. specialize (Hread Hfits). cbn [app] in Hans. rewrite Hans in Hds.
    unfold bytes_of, compose in Hread. cbn [fmap list_fmap concat app] in Hread. rewrite app_nil_r, Hds in Hread.
    cbn in Hread. rewrite Hread. cbn [handle_all]. rewrite Hh. by run.
Qed.

Lemma link_strict : strict link_handle.
Proof. done. Qed.

Lemma address_strict i : strict (address_handle i).
Proof. done. Qed.

Lemma stops_set_link s f m (I : nat → Prop) : answers_once → I s →
  stops I I (_ ← send_and_receive (answer k) (send_error k) deserialize (can_open k) s (MkRequest f (SetLink m)) link_handle;
             mret ()).
Proof.
  intros Honce Hs. eapply stops_bind; [by apply stops_request|]. intros _. apply (stops_pure _ (Ok ())).
Qed.

Lemma move_stops name netns_fd device w : answers_once → (∀ s, idle w s) →
  stops_at_refusal (move name netns_fd device) w.
Proof.
  intros Honce. apply (stops_refusal (λ _, True) (λ s, True ∧ s ≠ 1%nat)).
  eapply stops_bind; [by apply stops_request|]. intros link.
  eapply stops_bind; [by apply stops_set_link|]. intros [].
  eapply stops_bind; [by apply stops_dump|]. intros addrs.
  eapply stops_bind; [by apply stops_set_link|]. intros []. apply stops_pure.
Qed.

Definition configure (name : string) (device : option string) (cs : list CidrAddress) : io world NetworkError () :=
  configure_device (answer k) (send_error k) deserialize (can_open k) name device cs.

Lemma configure_stops name device cs w : answers_once → (∀ s, idle w s) → stops_at_refusal (configure name device cs) w.
Proof.
  intros Honce. apply (stops_refusal (λ _, True) (λ _, True)).
  eapply stops_bind; [by apply stops_request|]. intros link.
  eapply (stops_bind _ (λ _, True)); [|intros []; by apply stops_set_link].
  unfold setup_addresses_in_network_namespace. induction cs as [|c cs IH]; cbn [io_each].
  { apply (stops_pure _ (Ok ())). }
  eapply stops_bind; [|intros []; exact IH]. eapply stops_bind; [apply stops_pure|]. intros m.
  eapply stops_bind; [by apply stops_request|]. intros _. apply (stops_pure _ (Ok ())).
Qed.

(** *** What is granted *)

Context (keep : bool) (links : string → LinkMessage) (addresses : list AddressMessage) (Hk : grants k keep links addresses).

(** The addresses of the device [i], which is down *)
Definition own_addresses (i : Z) : list AddressMessage :=
  List.filter (λ a, (a_index a =? i) && survives keep a) addresses.

Lemma present_own h i : set_down_before h i = true →
  List.filter (λ a, a_index a =? i) (present keep h addresses) = own_addresses i.
Proof.
  intros Hd. unfold present, own_addresses. clear Hk. induction addresses as [|a l IH]; [done|]. cbn [List.filter].
  destruct (Z.eqb_spec (a_index a) i) as [He|Hne].
  - rewrite He, Hd. cbn [negb orb andb]. destruct (survives keep a); cbn [List.filter]; [|done].
    rewrite (proj2 (Z.eqb_eq _ _) He). by f_equal.
  - cbn [andb]. destruct (_ || _); cbn [List.filter]; [|done]. by rewrite (proj2 (Z.eqb_neq _ _) Hne).
Qed.

(** An acknowledged request *)
Lemma acknowledged_run {T} s f m (handle : Payload → outcome NetworkError (NetlinkResponse T)) a w :
  idle w s → handle ack = Ok (Success a) → (∀ h, answer k (h ++ [(s, MkRequest f m)]) = [inr (encode ack)]) →
  ∃ w', send_and_receive (answer k) (send_error k) deserialize (can_open k) s (MkRequest f m) handle w = (Ok a, w') ∧
        sent w' = sent w ++ [(s, MkRequest f m)] ∧ ∀ s', idle w s' → idle w' s'.
Proof.
  intros Hs Hh Hans. destruct Hk as [Hopen Hsend _ _ _ _ [Hack _]]. by apply (send_and_receive_run _ _ _ _ ack).
Qed.

Lemma get_by_name_run s name w : idle w s →
  ∃ w', get_by_name (answer k) (send_error k) deserialize (can_open k) s name w = (Ok (links name), w') ∧
        sent w' = sent w ++ [(s, get_by_name_request name)] ∧ ∀ s', idle w s' → idle w' s'.
Proof.
  intros Hs. destruct Hk as [Hopen Hsend _ _ Hlink _ [_ Hfits]].
  by apply (send_and_receive_run _ _ _ _ (InnerMessage (NewLink (links name)))).
Qed.

Lemma set_link_run s f m w : idle w s →
  ∃ w', (_ ← send_and_receive (answer k) (send_error k) deserialize (can_open k) s (MkRequest f (SetLink m)) link_handle;
         mret ()) w = (Ok () : outcome NetworkError (), w') ∧
        sent w' = sent w ++ [(s, MkRequest f (SetLink m))] ∧ ∀ s', idle w s' → idle w' s'.
Proof.
  intros Hs. destruct (acknowledged_run s f (SetLink m) link_handle link_default w Hs eq_refl) as (w' & Hw & ? & ?);
    [intros h; by apply Hk|]. exists w'. split; [by rewrite (io_bind_run _ _ _ _ _ Hw)|done].
Qed.

Lemma move_run name netns_fd device w : idle w 0 → idle w 1 →
  ∃ w', move name netns_fd device w = (collect_cidrs (own_addresses (l_index (links name))), w') ∧
        sent w' = sent w ++ move_plan name netns_fd device (l_index (links name)).
Proof.
  intros H0 H1. destruct (get_by_name_run 0 name w H0) as (w1 & Hw1 & Hs1 & Hi1).
  unfold move, dev_change_net_namespace. rewrite (io_bind_run _ _ _ _ _ Hw1). set (i := l_index (links name)).
  destruct (set_link_run 0 (Z.lor NLM_F_REQUEST NLM_F_ACK) (MkLink i (Z.ldiff 0 IFF_UP) (Z.lor 0 IFF_UP) []) w1 (Hi1 _ H0)) as (w2 & Hw2 & Hs2 & Hi2).
  rewrite (io_bind_run _ _ _ _ _ Hw2).
  destruct (get_by_index_run k keep links addresses 1 i w2 Hk (Hi2 _ (Hi1 _ H1))) as (w3 & Hw3 & Hs3 & Hi3).
  rewrite present_own in Hw3 by (rewrite Hs2; unfold set_down_before; rewrite existsb_app; cbn; by rewrite Z.eqb_refl, orb_true_r).
  rewrite (io_bind_run _ _ _ _ _ Hw3).
  destruct (set_link_run 0 MUST_CREATE (MkLink i 0 0 [IfName (resolve_device_name device name); NetNsFd netns_fd]) w3)
    as (w4 & Hw4 & Hs4 & _); [apply Hi3; auto|].
  rewrite (io_bind_run _ _ _ _ _ Hw4). eexists. split; [reflexivity|]. rewrite Hs4, Hs3, Hs2, Hs1, <- !app_assoc. done.
Qed.

(** *** Inside the container *)

Definition add_requests (ms : list AddressMessage) : list (nat * Request) :=
  (λ m, (1%nat, MkRequest MUST_CREATE (NewAddress m))) <$> ms.

Lemma add_all_run i cs ms w : idle w 1 →
  Forall2 (λ c m, create_address_request i (address c) (prefix_len c) = Ok m) cs ms →
  ∃ w', setup_addresses_in_network_namespace (answer k) (send_error k) deserialize (can_open k) 1 cs i w = (Ok (), w') ∧
        sent w' = sent w ++ add_requests ms ∧ ∀ s', idle w s' → idle w' s'.
Proof.
  intros H1 Hcs. revert w H1. induction Hcs as [|c m cs ms Hm Hcs IH]; intros w H1.
  { exists w. split; [done|]. split; [by rewrite app_nil_r|done]. }
  destruct (acknowledged_run 1 MUST_CREATE (NewAddress m) (address_handle None) address_default w H1 eq_refl)
    as (w1 & Hw1 & Hs1 & Hi1); [intros h; by apply Hk|].
  destruct (IH w1 (Hi1 _ H1)) as (w2 & Hw2 & Hs2 & Hi2). exists w2.
  assert (add (answer k) (send_error k) deserialize (can_open k) 1 i (address c) (prefix_len c) w = (Ok (), w1)) as Hadd.
  { unfold add. rewrite Hm. rewrite io_bind_pure. by rewrite (io_bind_run _ _ _ _ _ Hw1). }
  split; [|split; [rewrite Hs2, Hs1, <- app_assoc; done|auto]].
  unfold setup_addresses_in_network_namespace in *. cbn [io_each]. by rewrite (io_bind_run _ _ _ _ _ Hadd).
Qed.

Definition configure_plan (name : string) (device : option string) (ms : list AddressMessage) (i : Z) : list (nat * Request) :=
  (0%nat, get_by_name_request (resolve_device_name device name)) :: add_requests ms ++ [(0%nat, set_up_request i)].

Lemma configure_run name device cs ms w :
  let i := l_index (links (resolve_device_name device name)) in
  idle w 0 → idle w 1 → Forall2 (λ c m, create_address_request i (address c) (prefix_len c) = Ok m) cs ms →
  ∃ w', configure name device cs w = (Ok (), w') ∧ sent w' = sent w ++ configure_plan name device ms i.
Proof.
  intros i H0 H1 Hcs. destruct (get_by_name_run 0 (resolve_device_name device name) w H0) as (w1 & Hw1 & Hs1 & Hi1).
  unfold configure, configure_device. rewrite (io_bind_run _ _ _ _ _ Hw1).
  destruct (add_all_run i cs ms w1 (Hi1 _ H1) Hcs) as (w2 & Hw2 & Hs2 & Hi2). rewrite (io_bind_run _ _ _ _ _ Hw2).
  destruct (set_link_run 0 (Z.lor NLM_F_REQUEST NLM_F_ACK) (MkLink i (Z.lor 0 IFF_UP) (Z.lor 0 IFF_UP) []) w2 (Hi2 _ (Hi1 _ H0))) as (w3 & Hw3 & Hs3 & _).
  exists w3. split; [exact Hw3|]. rewrite Hs3, Hs2, Hs1, <- !app_assoc. done.
Qed.
End host.

(** ** The addresses *)

(** Addresses that can be given to a device again *)
Definition addable (c : CidrAddress) : Prop :=
  is_multicast (address c) = false ∧ match address c with V4 _ => prefix_len c ≤ 32 | V6 _ => True end.

Lemma address_readded i c : addable c →
  ∃ m, create_address_request i (address c) (prefix_len c) = Ok m ∧ cidr_from m = Ok c ∧ a_index m = i.
Proof.
  intros [Hm Hp]. unfold create_address_request. rewrite Hm. destruct c as [p [a|a]]; cbn [address prefix_len] in *.
  - destruct (Z.eqb_spec p 32); [by eexists|]. rewrite (proj2 (Z.ltb_lt _ _)) by lia. by eexists.
  - by eexists.
Qed.

(** The broadcast address has the bits of the network from the address, and ones below. *)
Lemma broadcast_bits a p i : in_u 32 a → 0 ≤ p < 32 → 0 ≤ i →
  Z.testbit (Z.lor (Z.shiftr (Z.ones 32) p) a) i = bool_decide (i < 32 - p) || Z.testbit a i.
Proof.
  intros Ha Hp Hi. rewrite Z.lor_spec, Z.shiftr_spec by lia. f_equal. rewrite Z.testbit_ones by lia.
  case_bool_decide; lia.
Qed.

(** The addresses of the device [i] that move with it: the global ones that were configured to
    stay, which is said by the bit 7 of their flags; IPv6 addresses only if the host keeps them
    on a device that is down. *)
Definition moving (keep : bool) (i : Z) (a : AddressMessage) : Prop :=
  a_index a = i ∧ a_scope a = Universe ∧ Z.testbit (a_flags a) 7 = true ∧
  match a_family a with Inet6 => keep = true | _ => True end.

#[export] Instance moving_dec keep i a : Decision (moving keep i a).
Proof. unfold moving. destruct (a_family a); apply _. Defined.

Definition moving_addresses (keep : bool) (addresses : list AddressMessage) (i : Z) : list AddressMessage :=
  filter (moving keep i) addresses.

Lemma moves_along_spec a : moves_along a = true ↔ a_scope a = Universe ∧ Z.testbit (a_flags a) 7 = true.
Proof.
  unfold moves_along, IFA_F_PERMANENT. change 128 with (2 ^ 7).
  by rewrite land_pow2, negb_involutive, andb_true_iff, bool_decide_eq_true by lia.
Qed.

Lemma moving_own keep addresses i :
  List.filter moves_along (own_addresses keep addresses i) = moving_addresses keep addresses i.
Proof.
  unfold own_addresses, moving_addresses. induction addresses as [|a l IH]; [done|]. cbn [List.filter].
  assert ((a_index a =? i) && survives keep a && moves_along a = true ↔ moving keep i a) as Ha.
  { rewrite !andb_true_iff, moves_along_spec, Z.eqb_eq. unfold moving, survives.
    destruct (a_family a); rewrite ?andb_true_iff, ?bool_decide_eq_true; intuition congruence. }
  destruct ((a_index a =? i) && survives keep a); cbn [andb List.filter] in *.
  - destruct (moves_along a); [rewrite filter_cons_True by tauto; by f_equal|]. rewrite filter_cons_False; [done|].
    intros H%Ha. done.
  - rewrite filter_cons_False; [done|]. intros H%Ha. done.
Qed.

Lemma collect_cidrs_spec addrs :
  Forall (λ a, ∃ c, cidr_from a = Ok c ∧ addable c) (List.filter moves_along addrs) →
  ∃ cs, collect_cidrs addrs = Ok cs ∧
    Forall2 (λ a c, cidr_from a = Ok c ∧ addable c) (List.filter moves_along addrs) cs.
Proof.
  induction addrs as [|a addrs IH]; intros Ha; [by exists []|]. cbn in *. destruct (moves_along a); [|by apply IH].
  inversion_clear Ha as [|? ? (c & Hc & Hadd) Hrest]. destruct (IH Hrest) as (cs & -> & Hcs).
  rewrite Hc. exists (c :: cs). split; [done|]. by constructor.
Qed.

Lemma readded i cs (l : list AddressMessage) : Forall2 (λ a c, cidr_from a = Ok c ∧ addable c) l cs →
  ∃ ms, Forall2 (λ c m, create_address_request i (address c) (prefix_len c) = Ok m) cs ms ∧
        Forall2 (λ a m, cidr_from m = cidr_from a ∧ a_index m = i) l ms.
Proof.
  induction 1 as [|a c l cs [Hac Hadd] Hl (ms & Hms & Ham)]; [by exists []|].
  destruct (address_readded i c Hadd) as (m & Hm & Hmc & Hmi). exists (m :: ms).
  split; constructor; try done. by rewrite Hac.
Qed.

End moving.

(** *** An example, and what is not preserved *)

Module ExampleNetwork.
Definition eth0 : LinkMessage := MkLink 4 1 0 [IfName "eth0"].
Definition addr (i : Z) (scope : AddressScope) (flags p a : Z) : AddressMessage :=
  MkAddress Inet p flags scope i [Address (V4 a); Local (V4 a)].

(** 10.0.0.2/24 on the device, one that is not permanent, one of another device, and an IPv6
    address *)
Definition addresses : list AddressMessage :=
  [addr 4 Universe 128 24 167772162; addr 4 Universe 0 24 167772163; addr 5 Universe 128 24 167772164;
   MkAddress Inet6 64 128 Universe 4 [Address (V6 1)]].

Definition messages : list Payload :=
  [ErrorMessage None; ErrorMessage (Some (-17)); InnerMessage (NewLink eth0); Done] ++ (InnerMessage ∘ NewAddress <$> addresses).

Definition code (n : nat) : byte := byte.of_Z (Z.of_nat n).

#[local] Instance AddressAttribute_eq_dec : EqDecision AddressAttribute.
Proof. solve_decision. Defined.

#[local] Instance AddressMessage_eq_dec : EqDecision AddressMessage.
Proof. assert (EqDecision AddressFamily) by solve_decision. solve_decision. Defined.

#[local] Instance LinkMessage_eq_dec : EqDecision LinkMessage.
Proof. assert (EqDecision LinkAttribute) by solve_decision. solve_decision. Defined.

#[local] Instance Payload_eq_dec : EqDecision Payload.
Proof. assert (EqDecision RouteMessage) by solve_decision. solve_decision. Defined.

(** A message is written as its number in [messages]. *)
Definition encode (p : Payload) : list byte :=
  [code (default 0%nat (fst <$> list_find (p =.) messages))].

Definition deserialize (l : list byte) : option (Payload * Z) :=
  match l with
  | [] => None
  | b :: _ => (λ p, (p, 1)) <$> messages !! Z.to_nat (byte.unsigned b)
  end.

#[export] Instance codec : Codec deserialize (.∈ messages).
Proof.
  refine {| Network.encode := encode |}; [done|]. intros p rest Hp.
  repeat (apply elem_of_cons in Hp as [->|Hp]; [done|]). by apply not_elem_of_nil in Hp.
Defined.

(** The dump comes with one message in each datagram. *)
Definition dump (h : list (nat * Request)) : list (list Payload) :=
  (λ p, [p]) <$> (InnerMessage ∘ NewAddress <$> present false h addresses) ++ [Done].

Definition granting : kernel := {|
  answer := λ h, match last h with
    | Some (_, MkRequest _ (GetLink _)) => [inr (encode (InnerMessage (NewLink eth0)))]
    | Some (_, MkRequest _ (GetAddress _)) => (λ ps, inr (concat (encode <$> ps))) <$> dump (removelast h)
    | _ => [inr (encode (ErrorMessage None))]
    end;
  send_error := λ _, None; can_open := λ _, true |}.

Lemma present_subset h a : a ∈ present false h addresses → a ∈ addresses.
Proof. unfold present. rewrite !list_elem_of_In, filter_In. tauto. Qed.



Lemma concat_one_each {A} (l : list A) : concat ((λ x, [x]) <$> l) = l.
Proof. induction l as [|x l IH]; [done|]. cbn. by rewrite IH. Qed.

Lemma granting_grants : grants deserialize (.∈ messages) granting false (λ _, eth0) addresses.
Proof.
  assert (∀ p, p ∈ messages → fits deserialize (.∈ messages) [p]) as Hfits.
  { intros p Hp. split; [done|]. split; [by apply Forall_singleton|]. cbn. unfold BUFFER. lia. }
  split; try done; try (intros; cbn [answer granting]; by rewrite last_snoc).
  - intros h s i. exists (dump h). cbn [answer granting]. rewrite last_snoc, removelast_last. split; [done|].
    unfold dump. generalize (present_subset h). generalize (present false h addresses). intros l Hl. split.
    + apply Forall_forall. intros ps (p & -> & Hp)%list_elem_of_fmap. apply Hfits.
      apply elem_of_app in Hp as [(a & -> & Ha)%list_elem_of_fmap|Hp%list_elem_of_singleton]; [|subst p; set_solver].
      unfold messages. rewrite elem_of_app. right. apply list_elem_of_fmap. exists a. eauto.
    + by rewrite concat_one_each.
  - split; [|intros _]; apply Hfits; set_solver.
Qed.

Definition nothing : world := MkWorld [] ∅.

(** A kernel that does not let the device be set down *)
Definition held_up : kernel := {|
  answer := λ h, match last h with
    | Some (_, MkRequest _ (SetLink _)) => [inr (encode (ErrorMessage (Some (-17))))]
    | _ => [inr (encode (InnerMessage (NewLink eth0)))]
    end;
  send_error := λ _, None; can_open := λ _, true |}.

Lemma held_up_once : answers_once held_up.
Proof.
  intros h s [f m] _. cbn [answer held_up]. rewrite last_snoc. destruct m; eauto.
Qed.


(** The peer of a point-to-point address is not given to the device again. *)
Example peer_lost :
  let a := MkAddress Inet 32 128 Universe 4 [Address (V4 2); Local (V4 1)] in
  cidr_from a = Ok (MkCidr 32 (V4 1)) ∧
  create_address_request 4 (V4 1) 32 = Ok (MkAddress Inet 32 0 Universe 4 [Address (V4 1); Local (V4 1); Broadcast 1]).
Proof. by vm_compute. Qed.

(** The kernel refuses the new name: the device stays on the host, and is left down. *)
Definition refusing : kernel := {|
  answer := λ h, match last h with
    | Some (_, MkRequest _ (SetLink (MkLink _ _ _ (IfName _ :: _)))) => [inr (encode (ErrorMessage (Some (-17))))]
    | _ => answer granting h
    end;
  send_error := λ _, None; can_open := λ _, true |}.

Example left_down :
  let '(r, w) := move deserialize refusing "eth0" 9 (Some "net1") nothing in
  r = Err (NetlinkError (-17)) ∧ sent w = move_plan "eth0" 9 (Some "net1") 4.
Proof. by vm_compute. Qed.
End ExampleNetwork.
